(* ===== verification/_CoqProject ===== *)
-Q . S2P
Prelude.v
Hoare.v
Asn1.v
Codec.v
LdapTypes.v
LdapPrim.v
LdapAttr.v
LdapFilter.v
LdapOps.v
LdapMessage.v
LdapSrv.v
LdapConn.v
GoStrings.v
GoPath.v
GoSearch.v
PathMatch.v
GoBTree.v
CacheMap.v
Pgcache.v
PgcacheSpec.v
PgReplicas.v
PgExamples.v
Linearize.v
S3Cache.v
S3Spec.v
S3Examples.v
Broker.v
StoreTypes.v
Acl.v
MemStore.v
Psql.v
Bottin.v
BottinFrame.v
BottinInv.v
BottinSafe.v
BottinServe.v
BottinSpec.v
BottinModify.v
BottinExamples.v
Caldav.v
CalStore.v
CalOnline.v
CalBackend.v
WebDav.v
XmlRaw.v
CalServer.v
CalExamples.v
DavServer.v
LogWorker.v
LogManager.v
LogExamples.v
Desec.v
DesecExamples.v
Tmpl.v
LdapClient.v
HttpAuth.v
LdapPool.v
AuthExamples.v
Supervisor.v
GoMaps.v
UiRender.v
HttpServers.v
Kube.v
NetTypes.v
Ccm.v
KubeController.v
LoadBalancer.v
NetCluster.v
NetRouter.v
NetWireguard.v
NetCni.v
NetExamples.v
Files.v
Sql.v
SqlStores.v
HttpHandler.v
Kontakte.v
Alert.v
Release.v
FilesWeb.v
