(* ===== verification/Prelude.v ===== *)
(** * Verification library of the teapot repository

    Teapot is a set of self-hosted services in Go.  This library models the code
    of them that has a logic of its own and proves what makes it correct: the LDAP
    codec and server and the directory over it with its two stores; the cached
    tables and the cache of S3 objects; the calendar server; the log service; the
    DNS webhook; authentication against the directory over HTTP; the supervision of
    services; the network of the machines (routes, WireGuard, containers, cloud
    controller, load balancer); the files, contacts and alert services; the tool
    that makes releases.

    ** How the parts interact

    Directory.  A client's bytes are cut into messages (packet.go), decoded
    (goldap), dispatched to a handler with the session of the connection
    (client.go, handler.go), whose replies are encoded and sent.  The handler is
    the directory: it checks the access rules (acl.go, with the patterns of
    path.Match), reads the store, and updates it in transactions.  The store is a
    B-tree in memory (mem.go), or a table of Postgres cached in a sorted map
    (psql.go, over pgcache), whose processes tell each other of their changes.

    Web services.  A request is authenticated by lib/httpauth against the directory
    (lib/ldap, with its pool of connections), handled by a handler that returns an
    error or a component, and answered by lib/httphandler or lib/webhandler.  The
    calendar server (lib/webdav/caldav) works on the backend of service/calendar,
    over a store in memory or one over cached tables and the cache of S3.

    Network.  A controller (lib/kubecontroller) hands the nodes of Kubernetes to the
    cluster of service/net, whose events the broker delivers to the router, to
    WireGuard and to the container network, which change the kernel.

    ** Files

    LDAP (src/lib/ldapsrv):
    - Asn1: goldap/asn1.go, bytes.go, the BER primitives and the cursor of a buffer.
    - Codec: the contract between writers, sizes and readers (class [Codec]), which
      every later type implements; encodings as bytes written forward.
    - LdapTypes: goldap/struct.go.  LdapPrim, LdapAttr, LdapFilter, LdapOps: one
      Section per type of the other files of goldap, with [X_write], [X_size],
      [readX] for the methods [write], [size] and the function [readX].
    - LdapMessage: goldap/protocol_op.go, message.go, read.go: the envelope.
    - LdapSrv: packet.go, handler.go, error.go, responsemessage.go, client.go: the
      framing on a buffered connection, the dispatch and the loop of a connection.
      The class [Handler] is the interface of the directory to the server.
    - LdapConn: the goroutines of client.go: reading, writing, and the watch for the end
      of the server, with the channels and the wait group between them, apart from the
      steps of the client.

    Go's standard library and third-party packages:
    - GoStrings, GoSearch: strings, unicode/utf8, strconv; GoPath: path, path/filepath;
      PathMatch: path.Match.  GoMaps: the orders that Go leaves open.
      GoBTree: google/btree.

    Directory (src/service/bottin):
    - StoreTypes: store/types.go.  MemStore: store/mem.go.  Psql: store/psql.go.
    - Acl: acl.go.  Bottin: bottin.go, hash.go, read.go, write.go, auth.go,
      memberof.go, util.go; [X_body] is the part of the handler [X] after its span
      and its metrics.
    - Hoare: two program logics for the monad.  BottinFrame: errors and frames.
      BottinInv: the invariant of the tree.  BottinSafe: every handler preserves it
      and returns.  BottinServe: the directory behind the server.  BottinSpec,
      BottinModify: what Bind, Search and Modify do.  BottinExamples: a sample
      directory, what goes wrong in it, witnesses.

    Caches and tables:
    - CacheMap: lib/pgcache/key.go, sorted_map.go.  Pgcache: notification_manager.go,
      table.go, over the class [Database], whose commit may be made although its
      answer is an error.  PgcacheSpec: what a process is promised.
      PgReplicas: several processes as a transition system.  PgExamples: executions
      that go wrong, sample environment, witnesses.
    - Sql: tables of Postgres, and when one stands for a map.  SqlStores: the rows
      and statements of service/bottin/store/psql.go and of
      service/calendar/store/online*.go.
    - S3Cache: lib/s3cache; the state has the requests made to S3, in order.  S3Spec: what
      it guarantees; its class [S3Holds] says what a bucket that only this process writes
      to holds after them.  S3Examples.

    Calendars (src/lib/webdav, src/service/calendar):
    - Caldav: caldav/caldav.go, match.go.  CalStore: store/types.go, store.go, mem.go,
      with the class [StoreLaws], the promise of a store.  CalOnline: store/online*.go.
      CalBackend: backend.  WebDav: internal, error.  CalServer: caldav/server.go,
      elements.go.  CalExamples.
    - DavServer: server.go and webdav.go of lib/webdav, the server of files.
      XmlRaw: internal/xml.go, the elements kept as tokens.

    Logs and DNS:
    - LogWorker, LogManager, LogExamples: service/log.  The worker is a transition
      system of the rounds of its loop.
    - Desec, DesecExamples: service/desec.

    Authentication and supervision:
    - Tmpl: lib/tmplstring.  LdapClient, LdapPool: lib/ldap.  HttpAuth: lib/httpauth,
      lib/webauth.  AuthExamples.
    - Broker: lib/broker.  Supervisor: lib/run.  HttpServers: the run of lib/httpsrv and
      lib/observability, and its health checks.

    Network and Kubernetes:
    - Kube: lib/kubeutil.  KubeController: lib/kubecontroller, its workers, the handlers of
      its informer and the delays of its queue.  Ccm: service/ccm.  LoadBalancer:
      service/loadbalancer.
    - NetTypes, NetCluster: service/net.  NetRouter, NetWireguard, NetCni: its
      packages router, wireguard, cni.  NetExamples.

    Web services and tools:
    - Linearize: lib/ui/linearize.go, dependency, the order of a page's dependencies.
      UiRender: lib/ui/render.go, style.go, context.go and lib/ui/http, what a page loads.
    - HttpHandler: lib/httphandler, lib/webhandler.  Kontakte: service/kontakte.
      Files: service/files and its webdav wrapper.  FilesWeb: service/files/web and
      the WebDAV handler.  Alert: service/alert.  Release: tools/release.

    ** Conventions

    A Go function is a computation of the monad [Go St A] of this file: it returns
    a value, an error or a panic, and leaves a state; [Diverge] is a loop that ran
    out of fuel.  Slices that are only read, or never shared, are lists; maps that
    are shared (the attributes of an entry) live in a heap.  Integers keep their
    width where the code can overflow.  Errors keep what [errors.Is] and the result
    code see: the format and the errors wrapped; the values printed are dropped.
    Goroutines are transition systems (LdapConn, Broker, LogWorker, LdapPool, Supervisor,
    PgReplicas, KubeController, Alert): an inductive step for each thing that one of them does
    between two others, and theorems on every reachable state.

    What is not in the repository is a class.  Of Go's library: [Context]
    (cancellation), [Unicode], [Env], [CalEnv], [S3Env], [LogEnv], [KeyEnv] (clocks,
    random identifiers, the disk and its failures), [RangeKeys], [RangeSubs],
    [RangeOrder], [RangeProps], [GoOrder] (iteration over maps, sorting), [Json],
    [JsonText], [WebhookJSON], [LogInput], [Wire] (decoding), [TemplateLang],
    [UpdateXML], [JsonList], [Sha256], [MD5], [HttpEnv].  Of packages and services:
    [BTree], [Backoff], [Database], [PgConn], [Ics], [Quoting], [NewRef], [DesecAPI], [LabelSyntax],
    [DirConn], [JWT], [KubeAPI], [WorkQueue], [LBClient], [NetParse], [Netlink],
    [WgDevice], [CniEnv], [FileSystem], [HackPad], [RootOps],
    [SessionCache], [Sqids], [Renderer], [GitHub],
    [Shell].  The documented behaviour that a theorem relies on is a class of laws
    (its name ends in Laws, or says what is assumed), and an instance shows that it
    can be met.  The operations of an environment take the number of calls made
    before, so that they may answer differently each time.

    ** What the theorems show

    - LDAP: round trip of messages; decoding ends on any bytes; serving is processing
      the requests in order, with one final reply for each; replies that fit are encoded.
    - Directory: every request, but two crashing shapes and additions of a DN with a
      slash, returns and keeps the tree well-formed; a failed one leaves the tree alone,
      though perhaps not the attributes member and memberof; the effect of a successful
      one; binding, searching (the subtree of a base and siblings whose name continues
      its), access control.
    - Stores: each refines a finite map, the two cannot be told apart as long as both
      accept what they are given, and the SQL statements of their tables implement the
      map that the caches take them for.
      (For references to objects this needs that a reference stored over another
      keeps its identifier: [refs_rows], and [second_creator_lost] where it does not.)
    - Cached tables: commits are coherent; a failed one leaves the cache alone, and the
      rows unless the database made it; under an orderly schedule all caches
      converge to the database, and executions where they do not.  S3 cache: entries
      keep their files, whatever fails.
    - Calendars: what a request can change, conditional updates, what a query
      returns; the online store keeps the promise of a store: what is put is read back,
      and a creation that fails changes at most the content of the object it was to replace.
    - Logs: no line is lost, doubled or reordered until a rotation fails; the retries
      of a rotation end.  DNS: what was applied is what is read back.
    - Authentication: who is let in, and as whom; connections are neither shared nor
      lost.  Supervision: the order of the starts, the error that is reported.
      Broker: messages arrive in order and at most once.
    - Controllers: how often a key is put back, and that no change is lost; the addresses of
      a service.  Network: the kernel ends with the routes, peers and rules of the cluster's
      nodes, and with nothing of its own left when a service stops without an error.
    - Files, pages, contacts, releases: what a user sees and changes, what a page loads,
      whose password is changed, what is checked before a tag is made.
    - Programming errors found on the way, as theorems or executions.

    ** Fuel

    [readFilter] and [forHasMoreData]: the length of the buffer plus one, since each
    round consumes a byte at least.  [serve]: the bytes of the connection plus one.
    [path.Match]: the length of the pattern.  [ValidString]: the length of the text.
    [follow]: the messages received plus one.  [drain]: the number of units plus one.
    [untilDone]: the number of tries.  [runWorker]: the items taken from the queue.
    [readChildren]: the tokens of the decoder plus one; [nextToken]: the height of the
    value plus two.  Theorems show that none of these runs out
    ([ReadLDAPMessage_terminates], [serve_pipeline], [Match_total], [request_safe],
    [Linearize_cached], [raw_replayed]); for the tries and the items the theorems hold of
    every number of them.

    ** Not modelled, and why

    - Deadlines and the loop that accepts LDAP connections; tracing, metrics and logs;
      listeners, flags, readiness checks and main functions: input and output around
      the modelled code (the rest of lib/httpsrv and lib/observability, httplog,
      httptrace, kubelog, kubeclient, cmd, log, cmd/).
    - Migrations and the opening of connections.
    - Two writers of the directory at once: the locks of mem.go make transactions
      atomic; the gap between a handler's reads and its commit is not modelled.
      Likewise the locks and the single flight of the S3 cache.
    - A process receives a notification in one step, and the retries of a fetch see
      one state of the database.
    - HTML pages and components, embedded assets, the download of stylesheets at
      build time; the WebDAV protocol of golang.org/x/net and XML encoding: glue, or
      code outside of the repository.  calendar/backend/filtering.go is a comment. *)

From stdpp Require Export base numbers list strings.
From Stdlib Require Export ZArith Lia.
From Stdlib Require Import Strings.Byte.

#[export] Set Default Proof Using "Type".
Set Warnings "-register-all".
Global Open Scope Z_scope.

(** ** Go integers *)

(** Two's complement wrap-around of a value stored in a signed [w]-bit
    integer. *)
Definition wrapS (w z : Z) : Z := (z + 2 ^ (w - 1)) mod 2 ^ w - 2 ^ (w - 1).

(** Conversion to [int64] (and to [int] on the 64-bit targets). *)
Definition int64 (z : Z) : Z := wrapS 64 z.

(** Conversion to [int32]. *)
Definition int32 (z : Z) : Z := wrapS 32 z.

(** Conversion to [uint8]. *)
Definition uint8 (z : Z) : Z := z mod 256.

Definition in_int32 (z : Z) : Prop := - 2 ^ 31 <= z < 2 ^ 31.
Definition in_int64 (z : Z) : Prop := - 2 ^ 63 <= z < 2 ^ 63.

Lemma wrapS_id (w z : Z) :
  0 < w -> - 2 ^ (w - 1) <= z < 2 ^ (w - 1) -> wrapS w z = z.
Proof.
  intros Hw Hz. unfold wrapS.
  assert (2 ^ w = 2 * 2 ^ (w - 1)) as Hp.
  { rewrite <- Z.pow_succ_r by lia. f_equal. lia. }
  rewrite Z.mod_small; lia.
Qed.

Lemma int64_id (z : Z) : in_int64 z -> int64 z = z.
Proof. intros H. apply wrapS_id; [lia | exact H]. Qed.

Lemma int32_id (z : Z) : in_int32 z -> int32 z = z.
Proof. intros H. apply wrapS_id; [lia | exact H]. Qed.

Lemma wrapS_range (w z : Z) :
  0 < w -> - 2 ^ (w - 1) <= wrapS w z < 2 ^ (w - 1).
Proof.
  intros Hw. unfold wrapS.
  assert (2 ^ w = 2 * 2 ^ (w - 1)) as Hp.
  { rewrite <- Z.pow_succ_r by lia. f_equal. lia. }
  pose proof (Z.mod_pos_bound (z + 2 ^ (w - 1)) (2 ^ w)). lia.
Qed.

Lemma int32_range (z : Z) : in_int32 (int32 z).
Proof. apply (wrapS_range 32 z). lia. Qed.

Lemma int64_range (z : Z) : in_int64 (int64 z).
Proof. apply (wrapS_range 64 z). lia. Qed.

(** ** Bytes *)

(** The value of a byte, and the truncating conversion [byte(z)]. *)
Definition byte_val (b : byte) : Z := Z.of_N (Byte.to_N b).

Definition byte_of (z : Z) : byte :=
  match Byte.of_N (Z.to_N (uint8 z)) with
  | Some b => b
  | None => x00
  end.

Lemma byte_val_range (b : byte) : 0 <= byte_val b < 256.
Proof. unfold byte_val. pose proof (Byte.to_N_bounded b). lia. Qed.

Lemma byte_of_val (b : byte) : byte_of (byte_val b) = b.
Proof.
  unfold byte_of, uint8, byte_val.
  pose proof (Byte.to_N_bounded b).
  rewrite Z.mod_small, N2Z.id, Byte.of_to_N by lia. reflexivity.
Qed.

Lemma byte_val_of (z : Z) : byte_val (byte_of z) = z mod 256.
Proof.
  unfold byte_of, uint8, byte_val.
  pose proof (Z.mod_pos_bound z 256).
  destruct (Byte.of_N (Z.to_N (z mod 256))) as [b|] eqn:E.
  - apply Byte.to_of_N in E. rewrite E. lia.
  - apply Byte.of_N_None_iff in E. lia.
Qed.

Lemma byte_val_of_small (z : Z) : 0 <= z < 256 -> byte_val (byte_of z) = z.
Proof. intros H. rewrite byte_val_of. apply Z.mod_small, H. Qed.

(** ** Slices

    A Go slice that is only read is a list; [len] is its length as an [int]. *)
Definition len {A} (l : list A) : Z := Z.of_nat (length l).

Lemma len_app {A} (l k : list A) : len (l ++ k) = len l + len k.
Proof. unfold len. rewrite length_app. lia. Qed.

Lemma len_nil {A} : len (@nil A) = 0.
Proof. reflexivity. Qed.

Lemma len_cons {A} (x : A) (l : list A) : len (x :: l) = 1 + len l.
Proof. unfold len. cbn [length]. lia. Qed.

Lemma len_nonneg {A} (l : list A) : 0 <= len l.
Proof. unfold len. lia. Qed.

(** [string(bytes)] and [[]byte(string)] conversions. *)
Definition bytes_of (s : string) : list byte := String.list_byte_of_string s.
Definition string_of (l : list byte) : string := String.string_of_list_byte l.

Lemma string_of_bytes_of (s : string) : string_of (bytes_of s) = s.
Proof. apply String.string_of_list_byte_of_string. Qed.

Lemma bytes_of_string_of (l : list byte) : bytes_of (string_of l) = l.
Proof. apply String.list_byte_of_string_of_list_byte. Qed.

(** ** Errors

    The error values of the program.  An error built from the text of another
    one keeps that error as a cause, but is not unwrappable: only [Errorf] (the
    [%w] verbs of [fmt.Errorf]), [CodeError] (lib/ldapsrv/error.go) and [HTTPError]
    (lib/webdav/error) matter to [errors.AsType]. Integers printed into a message are kept in [args]. *)
Inductive error : Type :=
| LdapError (msg : string) (args : list Z)
| LdapErrorIn (prefix : string) (cause : error)
| SyntaxError (msg : string) (args : list Z)
| StructuralError (msg : string)
| PlainError (msg : string)
| CodeError (code : Z) (msg : string)
| HTTPError (code : Z) (cause : error)
| Errorf (msg : string) (wrapped : list error).

(** [errors.Is(err, target)] for a target made by [errors.New], known by its text. *)
Fixpoint isError (target : string) (e : error) : bool :=
  match e with
  | PlainError msg => (msg =? target)%string
  | HTTPError _ cause => isError target cause
  | Errorf _ ws => existsb (isError target) ws
  | _ => false
  end.

(** ** Outcomes and the state monad

    A Go function either returns a value, returns an error, or panics.
    [Diverge] is the outcome of a loop whose fuel ran out; the termination
    theorems show that no function of the model ever produces it. *)
Inductive outcome (A : Type) : Type :=
| Ok (a : A)
| Err (e : error)
| Panic (msg : string)
| Diverge.
Arguments Ok {A} a.
Arguments Err {A} e.
Arguments Panic {A} msg.
Arguments Diverge {A}.

Definition obind {A B} (m : outcome A) (k : A -> outcome B) : outcome B :=
  match m with
  | Ok a => k a
  | Err e => Err e
  | Panic p => Panic p
  | Diverge => Diverge
  end.

(** Code that reads and writes a state [St]: the state survives an error, as the
    mutations done before a [return err] do. *)
Definition Go (St A : Type) : Type := St -> outcome A * St.

Definition ret {St A} (a : A) : Go St A := fun s => (Ok a, s).
Definition fail {St A} (e : error) : Go St A := fun s => (Err e, s).
Definition panic {St A} (msg : string) : Go St A := fun s => (Panic msg, s).
Definition get {St} : Go St St := fun s => (Ok s, s).
Definition put {St} (s : St) : Go St unit := fun _ => (Ok tt, s).
Definition modify {St} (f : St -> St) : Go St unit := fun s => (Ok tt, f s).
Definition lift {St A} (o : outcome A) : Go St A := fun s => (o, s).

Definition bind {St A B} (m : Go St A) (k : A -> Go St B) : Go St B :=
  fun s =>
    match m s with
    | (Ok a, s') => k a s'
    | (Err e, s') => (Err e, s')
    | (Panic p, s') => (Panic p, s')
    | (Diverge, s') => (Diverge, s')
    end.

Declare Scope go_scope.
Delimit Scope go_scope with go.
Notation "x <-- m ;; k" := (bind m (fun x => k))
  (at level 62, m at next level, right associativity) : go_scope.
Notation "m ;;; k" := (bind m (fun _ => k))
  (at level 62, right associativity) : go_scope.
Notation "x <-? m ;; k" := (obind m (fun x => k))
  (at level 62, m at next level, right associativity) : go_scope.
Notation "'let!' p := m 'in' k" := (bind m (fun x => match x with p => k end))
  (at level 10, p pattern, m at level 100, k at level 200) : go_scope.
Notation "'let?' p := m 'in' k" := (obind m (fun x => match x with p => k end))
  (at level 10, p pattern, m at level 100, k at level 200) : go_scope.
Open Scope go_scope.

(** [if err != nil { err = LdapError{prefix + err.Error()}; return }]. *)
Definition wrapErr {St A} (prefix : string) (m : Go St A) : Go St A :=
  fun s =>
    match m s with
    | (Err e, s') => (Err (LdapErrorIn prefix e), s')
    | r => r
    end.

(** [if err != nil { return fmt.Errorf(msg with %w, ws..., err) }]. *)
Definition wrapf {St A} (msg : string) (ws : list error) (m : Go St A) : Go St A :=
  fun s =>
    match m s with
    | (Err e, s') => (Err (Errorf msg (ws ++ [e])), s')
    | r => r
    end.

(** [for cond { body }], where the body threads a local value [x]. *)
Fixpoint while {St X} (fuel : nat) (cond : St -> bool) (body : X -> Go St X) (x : X)
    : Go St X :=
  fun s =>
    match fuel with
    | O => (Diverge, s)
    | S fuel' =>
        if cond s then (y <-- body x ;; while fuel' cond body y) s
        else (Ok x, s)
    end.

(** [for _, a := range l { body }], with a local value threaded through. *)
Fixpoint forEach {St A X} (l : list A) (x : X) (body : X -> A -> Go St X) : Go St X :=
  match l with
  | [] => ret x
  | a :: l' => y <-- body x a ;; forEach l' y body
  end.

(** What [ctx.Err()] returns each time it is asked. *)
Class Context : Type := { ctxErr : nat -> option error }.

(** A call that ends, with a value or an error. *)
Definition ends {A} (o : outcome A) : Prop :=
  match o with Ok _ | Err _ => True | _ => False end.

Lemma bind_ok {St A B} (m : Go St A) (k : A -> Go St B) s a s' :
  m s = (Ok a, s') -> bind m k s = k a s'.
Proof. unfold bind. now intros ->. Qed.

Lemma wrapErr_ok {St A} prefix (m : Go St A) s a s' :
  m s = (Ok a, s') -> wrapErr prefix m s = (Ok a, s').
Proof. unfold wrapErr. now intros ->. Qed.

Lemma wrapf_ok {St A} msg ws (m : Go St A) s a s' :
  m s = (Ok a, s') -> wrapf msg ws m s = (Ok a, s').
Proof. unfold wrapf. now intros ->. Qed.

(** Inversion of a successful sequence. *)
Lemma bind_ok_inv {St A B} (m : Go St A) (k : A -> Go St B) s b s' :
  bind m k s = (Ok b, s') ->
  exists a s1, m s = (Ok a, s1) /\ k a s1 = (Ok b, s').
Proof.
  unfold bind. destruct (m s) as [[a|e|p|] s1]; intros H; try discriminate.
  now exists a, s1.
Qed.

Lemma wrapErr_ok_inv {St A} prefix (m : Go St A) s a s' :
  wrapErr prefix m s = (Ok a, s') -> m s = (Ok a, s').
Proof. unfold wrapErr. now destruct (m s) as [[]]. Qed.

Lemma wrapf_ok_inv {St A} msg ws (m : Go St A) s a s' :
  wrapf msg ws m s = (Ok a, s') -> m s = (Ok a, s').
Proof. unfold wrapf. now destruct (m s) as [[]]. Qed.

Lemma obind_ok_inv {A B} (m : outcome A) (k : A -> outcome B) b :
  obind m k = Ok b -> exists a, m = Ok a /\ k a = Ok b.
Proof. destruct m; intros H; try discriminate. eauto. Qed.

(** Decompose hypotheses stating that a composite action succeeded. *)
Ltac go_inv :=
  repeat match goal with
  | H : bind _ _ _ = (Ok _, _) |- _ =>
      let a := fresh "a" in let s := fresh "s" in let H1 := fresh "Hm" in
      apply bind_ok_inv in H as (a & s & H1 & H)
  | H : wrapErr _ _ _ = (Ok _, _) |- _ => apply wrapErr_ok_inv in H
  | H : wrapf _ _ _ _ = (Ok _, _) |- _ => apply wrapf_ok_inv in H
  | H : obind _ _ = Ok _ |- _ =>
      let a := fresh "a" in let H1 := fresh "Ho" in
      apply obind_ok_inv in H as (a & H1 & H)
  | H : ret _ _ = (Ok _, _) |- _ => injection H as <- <-
  | H : fail _ _ = (Ok _, _) |- _ => discriminate H
  | H : panic _ _ = (Ok _, _) |- _ => discriminate H
  | H : (Ok _, _) = (Ok _, _) |- _ => injection H as <- <-
  end.

(** Case analysis on the first integer comparison of the goal. *)
Ltac zcase :=
  match goal with
  | |- context [Z.leb ?a ?b] => destruct (Z.leb_spec a b)
  | |- context [Z.ltb ?a ?b] => destruct (Z.ltb_spec a b)
  | |- context [Z.eqb ?a ?b] => destruct (Z.eqb_spec a b)
  end.

(** Lengths of concatenations, and linear arithmetic knowing that lengths are
    not negative. *)
Lemma len_singleton {A} (x : A) : len [x] = 1.
Proof. reflexivity. Qed.

Create Rewrite HintDb len.
#[export] Hint Rewrite @len_app @len_singleton @len_cons @len_nil : len.

Ltac len_simpl := autorewrite with len in *.

Ltac len_facts :=
  repeat match goal with
  | |- context [@len ?A ?l] =>
      lazymatch goal with
      | H : 0 <= len l |- _ => fail
      | _ => pose proof (@len_nonneg A l)
      end
  | _ : context [@len ?A ?l] |- _ =>
      lazymatch goal with
      | H : 0 <= len l |- _ => fail
      | _ => pose proof (@len_nonneg A l)
      end
  end.

Ltac len_lia := len_simpl; len_facts; lia.

(** Equality by evaluation to a value, left to the kernel's conversion. *)
Ltac eval_refl := match goal with |- _ = ?b => exact_no_check (eq_refl b) end.

(** A decidable proposition by evaluation. *)
Ltac eval_in := apply (bool_decide_unpack _); exact_no_check I.

(** An operation and what it returns, the state it leaves being whatever it is. *)
Lemma run_pair {St A} (m : Go St A) (s : St) (o : outcome A) : fst (m s) = o -> m s = (o, snd (m s)).
Proof. intros <-. apply surjective_pairing. Qed.

(** ** Goroutines

    What the transition systems of lib/ldap and lib/run share: their goroutines are a list
    of phases, and a step of one replaces its phase.  A sum over the phases, and the list
    of what they hold, change with that phase only. *)

Section Phases.
Open Scope nat_scope.

Lemma delete_insert_same {A} (l : list A) i y : delete i (<[i := y]> l) = delete i l.
Proof. revert i. induction l as [|a l IH]; intros [|i]; [done..|]. cbn. f_equal. apply IH. Qed.

Lemma replace_perm {A} (l : list A) i x y :
  l !! i = Some x -> l ≡ₚ x :: delete i l /\ <[i := y]> l ≡ₚ y :: delete i l.
Proof.
  intros H. split; [by apply delete_Permutation|].
  rewrite (delete_Permutation (<[i := y]> l) i y).
  - by rewrite delete_insert_same.
  - apply list_lookup_insert_eq. by eapply lookup_lt_Some.
Qed.

Lemma replace_sum {A} (f : A -> nat) l i x y :
  l !! i = Some x -> sum_list_with f (<[i := y]> l) + f x = sum_list_with f l + f y.
Proof.
  intros H. destruct (replace_perm l i x y H) as [H1 H2].
  apply (sum_list_with_Permutation_proper f) in H1, H2. cbn in *. lia.
Qed.

Lemma replace_omap {A} (f : A -> option nat) l i x y :
  l !! i = Some x -> exists k,
    omap f l ≡ₚ option_list (f x) ++ k /\ omap f (<[i := y]> l) ≡ₚ option_list (f y) ++ k.
Proof.
  intros H. destruct (replace_perm l i x y H) as [H1 H2]. exists (omap f (delete i l)).
  apply (omap_Permutation f) in H1, H2. cbn in *. by destruct (f x), (f y).
Qed.

Lemma sum_elem {A} (f : A -> nat) l i x : l !! i = Some x -> f x <= sum_list_with f l.
Proof.
  intros H. destruct (replace_perm l i x x H) as [H1 _].
  apply (sum_list_with_Permutation_proper f) in H1. rewrite H1. cbn. lia.
Qed.

Lemma sum_positive {A} (f : A -> nat) l :
  0 < sum_list_with f l -> exists i x, l !! i = Some x /\ 0 < f x.
Proof.
  induction l as [|a l IH]; cbn; [lia|]. intros H. destruct (decide (0 < f a)) as [Ha|Ha]; [by exists 0, a|].
  destruct IH as (i & x & H1 & H2); [lia|]. by exists (S i), x.
Qed.

End Phases.
