(* ===== verification/Hoare.v ===== *)
(** * Rules for stateful code

    Small program logics for the monad [Go].

    [steps I m F]: from a state that [I] holds of, [m] neither panics nor
    diverges, ends in a state that [I] holds of, and its value, if it does not
    fail, satisfies [F].

    [triple P m Q E]: from a state that [P] holds of, [m] neither panics nor
    diverges; its value and the state it leaves satisfy [Q], or it fails in a state
    that [E] holds of.

    [keeps I P m]: whatever happens, the states before and after [m] are related
    by the preorder [I], and an error satisfies [P]. *)

From stdpp Require Import base.
From S2P Require Import Prelude.
#[local] Open Scope Z_scope.

Section Steps.
Context {W : Type} (I : W -> Prop).

Definition steps {A} (m : Go W A) (F : A -> Prop) : Prop :=
  forall w, I w ->
    match m w with
    | (Ok a, w') => I w' /\ F a
    | (Err _, w') => I w'
    | _ => False
    end.

Lemma steps_weaken {A} (m : Go W A) (F G : A -> Prop) :
  steps m F -> (forall a, F a -> G a) -> steps m G.
Proof. intros H HG w Hw. specialize (H w Hw). destruct (m w) as [[] ?]; try done. destruct H; auto. Qed.

Lemma steps_ret {A} (a : A) (F : A -> Prop) : F a -> steps (ret a) F.
Proof. intros H w Hw. done. Qed.

Lemma steps_fail {A} e (F : A -> Prop) : steps (fail e) F.
Proof. intros w Hw. exact Hw. Qed.

Lemma steps_lift {A} (o : outcome A) (F : A -> Prop) :
  match o with Ok a => F a | Err _ => True | _ => False end -> steps (lift o) F.
Proof. intros H w Hw. unfold lift. destruct o; done. Qed.

Lemma steps_bind {A B} (m : Go W A) (k : A -> Go W B) (F : A -> Prop) (G : B -> Prop) :
  steps m F -> (forall a, F a -> steps (k a) G) -> steps (bind m k) G.
Proof.
  intros Hm Hk w Hw. specialize (Hm w Hw). unfold bind. destruct (m w) as [[a|e|p|] w']; try done.
  destruct Hm as [H1 H2]. now apply Hk.
Qed.

Lemma steps_wrapf {A} msg ws (m : Go W A) (F : A -> Prop) : steps m F -> steps (wrapf msg ws m) F.
Proof. intros Hm w Hw. specialize (Hm w Hw). unfold wrapf. now destruct (m w) as [[] ?]. Qed.

(** A loop with an invariant on its local value. *)
Lemma steps_forEach {A X} (l : list A) (x : X) (body : X -> A -> Go W X) (F : X -> Prop) :
  F x -> (forall x a, F x -> steps (body x a) F) -> steps (forEach l x body) F.
Proof.
  intros Hx Hb. revert x Hx. induction l as [|a l IH]; intros x Hx; cbn [forEach].
  - now apply steps_ret.
  - eapply steps_bind; [now apply Hb|]. auto.
Qed.
End Steps.

Section Triple.
Context {W : Type}.

Definition triple {A} (P : W -> Prop) (m : Go W A) (Q : A -> W -> Prop) (E : W -> Prop) : Prop :=
  forall w, P w ->
    match m w with
    | (Ok a, w') => Q a w'
    | (Err _, w') => E w'
    | _ => False
    end.

Lemma triple_weaken {A} (P P' : W -> Prop) (m : Go W A) (Q Q' : A -> W -> Prop) (E E' : W -> Prop) :
  triple P m Q E -> (forall w, P' w -> P w) -> (forall a w, Q a w -> Q' a w) -> (forall w, E w -> E' w) ->
  triple P' m Q' E'.
Proof. intros H HP HQ HE w Hw. specialize (H w (HP w Hw)). destruct (m w) as [[] ?]; auto. Qed.

Lemma triple_ret {A} (P : W -> Prop) (a : A) (Q : A -> W -> Prop) E :
  (forall w, P w -> Q a w) -> triple P (ret a) Q E.
Proof. intros H w Hw. now apply H. Qed.

Lemma triple_fail {A} (P : W -> Prop) e (Q : A -> W -> Prop) (E : W -> Prop) :
  (forall w, P w -> E w) -> triple P (fail e) Q E.
Proof. intros H w Hw. now apply H. Qed.

Lemma triple_bind {A B} (P : W -> Prop) (m : Go W A) (k : A -> Go W B) (R : A -> W -> Prop) Q E :
  triple P m R E -> (forall a, triple (R a) (k a) Q E) -> triple P (bind m k) Q E.
Proof.
  intros Hm Hk w Hw. specialize (Hm w Hw). unfold bind. destruct (m w) as [[a|e|p|] w']; try done.
  now apply Hk.
Qed.

Lemma triple_wrapf {A} (P : W -> Prop) msg ws (m : Go W A) Q E :
  triple P m Q E -> triple P (wrapf msg ws m) Q E.
Proof. intros Hm w Hw. specialize (Hm w Hw). unfold wrapf. now destruct (m w) as [[] ?]. Qed.

Lemma triple_forEach {A X} (l : list A) (x : X) (body : X -> A -> Go W X) (Inv : X -> W -> Prop) E :
  (forall x a, triple (Inv x) (body x a) Inv E) -> triple (Inv x) (forEach l x body) Inv E.
Proof.
  intros Hb. revert x. induction l as [|a l IH]; intros x; cbn [forEach].
  - now apply triple_ret.
  - eapply triple_bind; [apply Hb|]. auto.
Qed.
End Triple.

Section Keeps.
Context {W : Type} (I : W -> W -> Prop) `{!PreOrder I} (P : error -> Prop).

Definition keeps {A} (m : Go W A) : Prop :=
  forall w, I w (snd (m w)) /\ match fst (m w) with Err e => P e | _ => True end.

Lemma keeps_ret {A} (a : A) : keeps (ret a).
Proof using PreOrder0. intros w. split; [reflexivity|exact Logic.I]. Qed.

Lemma keeps_fail {A} e : P e -> keeps (@fail W A e).
Proof using PreOrder0. intros H w. split; [reflexivity|exact H]. Qed.

Lemma keeps_lift {A} (o : outcome A) :
  match o with Err e => P e | _ => True end -> keeps (lift o).
Proof using PreOrder0. intros H w. split; [reflexivity|exact H]. Qed.

Lemma keeps_bind {A B} (m : Go W A) (k : A -> Go W B) :
  keeps m -> (forall a, keeps (k a)) -> keeps (bind m k).
Proof using PreOrder0.
  intros Hm Hk w. unfold bind. specialize (Hm w). destruct (m w) as [[a|e| |] w']; cbn in *; try tauto.
  destruct Hm as [Hm _]. specialize (Hk a w'). split; [|tauto]. etrans; [exact Hm|tauto].
Qed.

Lemma keeps_forEach {A X} (l : list A) (x : X) (body : X -> A -> Go W X) :
  (forall x a, keeps (body x a)) -> keeps (forEach l x body).
Proof using PreOrder0.
  intros Hb. revert x. induction l as [|a l IH]; intros x; cbn [forEach]; [apply keeps_ret|].
  apply keeps_bind; auto.
Qed.
End Keeps.

(** The error of a wrapped action is the wrapping one. *)
Lemma keeps_wrapf {W A} (I : W -> W -> Prop) (P P' : error -> Prop) msg ws (m : Go W A) :
  keeps I P' m -> (forall e, P' e -> P (Errorf msg (ws ++ [e]))) -> keeps I P (wrapf msg ws m).
Proof.
  intros Hm HP w. specialize (Hm w). unfold wrapf. destruct (m w) as [[a|e| |] w']; cbn in *; try tauto.
  destruct Hm as [H1 H2]. auto.
Qed.

Lemma keeps_weaken {W A} (I I' : W -> W -> Prop) (P P' : error -> Prop) (m : Go W A) :
  keeps I P m -> (forall w w', I w w' -> I' w w') -> (forall e, P e -> P' e) -> keeps I' P' m.
Proof.
  intros Hm HI HP w. destruct (Hm w) as [H1 H2]. split; [auto|].
  destruct (fst (m w)); auto.
Qed.
