(* ===== verification/Asn1.v ===== *)
(** * BER primitives: lib/ldapsrv/goldap/asn1.go and bytes.go

    A [Bytes] is a buffer with a cursor.  Readers move the cursor forward;
    writers fill a pre-sized buffer from its end, so they move it backward and
    return the number of bytes written.  [int] is 64 bits wide; offsets and
    sizes are bounded by the buffer, so they are plain [Z], while the shifts of
    the integer and length parsers are written with their wrap-around. *)

From S2P Require Import Prelude.
From Stdlib Require Import Strings.Byte.

(** ** asn1.go: constants and tags *)

Definition tagBoolean := 1.
Definition tagInteger := 2.
Definition tagOctetString := 4.
Definition tagEnum := 10.
Definition tagSequence := 16.
Definition tagSet := 17.

Definition classUniversal := 0.
Definition classApplication := 1.
Definition classContextSpecific := 2.

Definition isCompound := true.
Definition isNotCompound := false.

Record TagAndLength : Type := mkTagAndLength {
  Class_ : Z;
  Tag : Z;
  Length : Z;
  IsCompound : bool
}.

Definition Z_of_bool (b : bool) : Z := if b then 1 else 0.

Definition ExpectClass (t : TagAndLength) (class : Z) : outcome unit :=
  if class =? Class_ t then Ok tt
  else Err (SyntaxError "ExpectClass: wrong tag class" [Class_ t; class]).

Definition ExpectTag (t : TagAndLength) (tag : Z) : outcome unit :=
  if tag =? Tag t then Ok tt
  else Err (SyntaxError "ExpectTag: wrong tag value" [Tag t; tag]).

Definition ExpectCompound (t : TagAndLength) (compound : bool) : outcome unit :=
  if Bool.eqb compound (IsCompound t) then Ok tt
  else Err (SyntaxError "ExpectCompound: wrong tag compound"
              [Z_of_bool (IsCompound t); Z_of_bool compound]).

(** [if err != nil { return LdapError{prefix + err} }] on a stateless call. *)
Definition wrapO {A} (prefix : string) (o : outcome A) : outcome A :=
  match o with Err e => Err (LdapErrorIn prefix e) | r => r end.

Definition Expect (t : TagAndLength) (class tag : Z) (compound : bool) : outcome unit :=
  _ <-? wrapO "Expect: " (ExpectClass t class) ;;
  _ <-? wrapO "Expect: " (ExpectTag t tag) ;;
  wrapO "Expect: " (ExpectCompound t compound).

(** ** Reading a byte slice *)

(** [bytes[i]] *)
Definition index (bytes : list byte) (i : Z) : outcome byte :=
  if i <? 0 then Panic "index out of range"
  else match nth_error bytes (Z.to_nat i) with
       | Some b => Ok b
       | None => Panic "index out of range"
       end.

(** [bytes[start:end]] *)
Definition slice (bytes : list byte) (start end_ : Z) : outcome (list byte) :=
  if (0 <=? start) && (start <=? end_) && (end_ <=? len bytes)
  then Ok (take (Z.to_nat (end_ - start)) (drop (Z.to_nat start) bytes))
  else Panic "slice bounds out of range".

(** ** BOOLEAN *)

Definition parseBool (bytes : list byte) : outcome bool :=
  if 1 <? len bytes then
    Err (SyntaxError "invalid boolean: should be encoded on one byte only" [])
  else
    (* on an empty slice the "no data to read" error is assigned, but the
       switch on [bytes[0]] follows without a return *)
    b0 <-? index bytes 0 ;;
    if byte_val b0 =? 0 then Ok false
    else if byte_val b0 =? 255 then Ok true
    else Err (SyntaxError "invalid boolean: should be 0x00 of 0xFF" []).

Definition sizeBool : Z := 1.

(** ** INTEGER *)

(** [for bytesRead := range bytes { ret <<= 8; ret |= int64(b) }] *)
Definition parseInt64_loop (bytes : list byte) : Z :=
  fold_left (fun r b => Z.lor (int64 (Z.shiftl r 8)) (byte_val b)) bytes 0.

Definition parseInt64 (bytes : list byte) : outcome Z :=
  if 8 <? len bytes then Err (StructuralError "integer too large")
  else
    let r := parseInt64_loop bytes in
    let sh := uint8 (64 - uint8 (uint8 (len bytes) * 8)) in
    Ok (Z.shiftr (int64 (Z.shiftl r sh)) sh).

(** [for i > 127 { n++; i >>= 8 }] *)
Fixpoint sizeInt64_pos (fuel : nat) (n i : Z) : Z * Z :=
  match fuel with
  | O => (n, i)
  | S f => if 127 <? i then sizeInt64_pos f (n + 1) (Z.shiftr i 8) else (n, i)
  end.

(** [for i < -128 { n++; i >>= 8 }] *)
Fixpoint sizeInt64_neg (fuel : nat) (n i : Z) : Z * Z :=
  match fuel with
  | O => (n, i)
  | S f => if i <? -128 then sizeInt64_neg f (n + 1) (Z.shiftr i 8) else (n, i)
  end.

(** Seven shifts by 8 bring any [int64] within the bounds. *)
Definition sizeInt64 (i : Z) : Z :=
  let '(n, i) := sizeInt64_pos 7 1 i in
  fst (sizeInt64_neg 7 n i).

Definition parseInt32 (bytes : list byte) : outcome Z :=
  ret64 <-? parseInt64 bytes ;;
  if negb (ret64 =? int32 ret64) then Err (StructuralError "integer too large")
  else Ok (int32 ret64).

Definition sizeInt32 (i : Z) : Z := sizeInt64 i.

(** ** Base 128 integers (tags above 30) *)

Fixpoint parseBase128Int_loop (fuel : nat) (bytes : list byte) (shifted offset r : Z)
    : outcome (Z * Z) :=
  match fuel with
  | O => Diverge
  | S f =>
      if offset <? len bytes then
        if 4 <? shifted then Err (StructuralError "base 128 integer too large")
        else
          b <-? index bytes offset ;;
          let r := Z.lor (int64 (Z.shiftl r 7)) (Z.land (byte_val b) 0x7f) in
          let offset := offset + 1 in
          if Z.land (byte_val b) 0x80 =? 0 then Ok (r, offset)
          else parseBase128Int_loop f bytes (shifted + 1) offset r
      else Err (SyntaxError "truncated base 128 integer" [])
  end.

(** The sixth iteration has [shifted = 5] and returns. *)
Definition parseBase128Int (bytes : list byte) (initOffset : Z) : outcome (Z * Z) :=
  parseBase128Int_loop 6 bytes 0 initOffset 0.

Fixpoint sizeBase128Int_loop (fuel : nat) (i size : Z) : Z :=
  match fuel with
  | O => size
  | S f => if 0 <? i then sizeBase128Int_loop f (Z.shiftr i 7) (size + 1) else size
  end.

Definition sizeBase128Int (value : Z) : Z := sizeBase128Int_loop 10 value 0.

(** ** Octet strings *)

Definition parseOctetString (bytes : list byte) : outcome (list byte) := Ok bytes.
Definition sizeOctetString (s : list byte) : Z := len s.

(** ** Tag and length *)

(** [for range numBytes { ... }] *)
Fixpoint parseLength_loop (numBytes : nat) (bytes : list byte) (offset l : Z)
    : outcome (Z * Z) :=
  match numBytes with
  | O => Ok (l, offset)
  | S n =>
      if len bytes <=? offset then Err (SyntaxError "truncated tag or length" [])
      else
        b <-? index bytes offset ;;
        let offset := offset + 1 in
        if Z.shiftl 1 23 <=? l then Err (StructuralError "length too large")
        else
          let l := Z.lor (int64 (Z.shiftl l 8)) (byte_val b) in
          if l =? 0 then Err (StructuralError "superfluous leading zeros in length")
          else parseLength_loop n bytes offset l
  end.

Definition parseTagAndLength (bytes : list byte) (initOffset : Z)
    : outcome (TagAndLength * Z) :=
  b <-? index bytes initOffset ;;
  let offset := initOffset + 1 in
  let class := Z.shiftr (byte_val b) 6 in
  let compound := Z.land (byte_val b) 0x20 =? 0x20 in
  let tag0 := Z.land (byte_val b) 0x1f in
  let? (tag, offset) :=
    (if tag0 =? 0x1f then parseBase128Int bytes offset else Ok (tag0, offset)) in
  if len bytes <=? offset then Err (SyntaxError "truncated tag or length" [])
  else
    b <-? index bytes offset ;;
    let offset := offset + 1 in
    if Z.land (byte_val b) 0x80 =? 0 then
      Ok (mkTagAndLength class tag (Z.land (byte_val b) 0x7f) compound, offset)
    else
      let numBytes := Z.land (byte_val b) 0x7f in
      if numBytes =? 0 then Err (SyntaxError "indefinite length found (not DER)" [])
      else
        let? (l, offset) := parseLength_loop (Z.to_nat numBytes) bytes offset 0 in
        Ok (mkTagAndLength class tag l compound, offset).

Fixpoint sizeLength_loop (fuel : nat) (length size : Z) : Z :=
  match fuel with
  | O => size
  | S f =>
      if 255 <? length then sizeLength_loop f (Z.shiftr length 8) (size + 1) else size
  end.

Definition sizeTagAndLength (tag length : Z) : Z :=
  let size := 1 in
  let size := if 31 <=? tag then size + sizeBase128Int tag else size in
  let size := size + 1 in
  if 128 <=? length then sizeLength_loop 8 length (size + 1) else size.

(** ** bytes.go: the buffer and its cursor *)

Record Bytes : Type := mkBytes {
  buf : list byte;
  offset : Z
}.

Definition NewBytes (offset : Z) (bytes : list byte) : Bytes := mkBytes bytes offset.

Definition HasMoreData (b : Bytes) : bool := offset b <? len (buf b).

(** The method [Bytes.ParseTagAndLength]: the cursor moves only on success. *)
Definition ParseTagAndLength : Go Bytes TagAndLength := fun b =>
  match parseTagAndLength (buf b) (offset b) with
  | Ok (t, off) => (Ok t, mkBytes (buf b) off)
  | Err e => (Err (LdapErrorIn "ParseTagAndLength: " e), b)
  | Panic p => (Panic p, b)
  | Diverge => (Diverge, b)
  end.

(** intermediate_response.go: parse, then restore the cursor. *)
Definition PreviewTagAndLength : Go Bytes TagAndLength := fun b =>
  let '(r, b') := ParseTagAndLength b in (r, mkBytes (buf b') (offset b)).

Definition ReadSubBytes {A} (class tag : Z) (callback : Go Bytes A) : Go Bytes A :=
  tagAndLength <-- wrapErr "ReadSubBytes:" ParseTagAndLength ;;
  lift (wrapO "ReadSubBytes:" (Expect tagAndLength class tag isCompound)) ;;;
  fun b =>
    let start := offset b in
    let end_ := offset b + Length tagAndLength in
    if len (buf b) <? end_ then
      (Err (LdapError "ReadSubBytes: data truncated" [Length tagAndLength; offset b]), b)
    else
      match slice (buf b) start end_ with
      | Ok sub =>
          match callback (mkBytes sub 0) with
          | (Ok a, subBytes) =>
              if HasMoreData subBytes then
                (Err (LdapError "ReadSubBytes: data too long"
                        [end_ - offset b; offset b]), b)
              else (Ok a, mkBytes (buf b) end_)
          | (Err e, subBytes) =>
              (Err (LdapErrorIn "ReadSubBytes:" e),
               mkBytes (buf b) (offset b + offset subBytes))
          | (Panic p, _) => (Panic p, b)
          | (Diverge, _) => (Diverge, b)
          end
      | Err e => (Err e, b)
      | Panic p => (Panic p, b)
      | Diverge => (Diverge, b)
      end.

Definition SizeSubBytes (tag : Z) (callback : Z) : Z :=
  let size := callback in
  size + sizeTagAndLength tag size.

(** The values [ReadPrimitiveSubBytes] returns as [any]. *)
Inductive primitive : Type :=
| PBool (b : bool)
| PInt32 (i : Z)
| PBytes (l : list byte).

Definition omap {A B} (f : A -> B) (o : outcome A) : outcome B :=
  a <-? o ;; Ok (f a).

Definition ReadPrimitiveSubBytes (class tag typeTag : Z) : Go Bytes primitive :=
  tagAndLength <-- wrapErr "ReadPrimitiveSubBytes:" ParseTagAndLength ;;
  lift (wrapO "ReadPrimitiveSubBytes:" (Expect tagAndLength class tag isNotCompound)) ;;;
  fun b =>
    let start := offset b in
    let end_ := offset b + Length tagAndLength in
    if len (buf b) <? end_ then
      (Err (LdapError "ReadPrimitiveSubBytes: data truncated"
              [Length tagAndLength; offset b; len (buf b) - start]), b)
    else
      let value :=
        subBytes <-? slice (buf b) start end_ ;;
        if typeTag =? tagBoolean then
          wrapO "ReadPrimitiveSubBytes:" (omap PBool (parseBool subBytes))
        else if typeTag =? tagInteger then
          wrapO "ReadPrimitiveSubBytes:" (omap PInt32 (parseInt32 subBytes))
        else if typeTag =? tagEnum then
          wrapO "ReadPrimitiveSubBytes:" (omap PInt32 (parseInt32 subBytes))
        else if typeTag =? tagOctetString then
          wrapO "ReadPrimitiveSubBytes:" (omap PBytes (parseOctetString subBytes))
        else Err (LdapError "ReadPrimitiveSubBytes: invalid type tag value" [typeTag])
      in
      match value with
      | Ok v => (Ok v, mkBytes (buf b) end_)
      | Err e => (Err e, b)
      | Panic p => (Panic p, b)
      | Diverge => (Diverge, b)
      end.

(** *** Writing, backward from the cursor *)

(** [copy(bytes[start:], b)] *)
Definition copy_at (bytes : list byte) (start : nat) (b : list byte) : list byte :=
  take start bytes ++ take (length bytes - start) b ++ drop (start + length b) bytes.

Definition writeBytes (b : list byte) : Go Bytes Z := fun st =>
  let size := len b in
  let start := offset st - size in
  if start <? 0 then (Panic "Not enough space for bytes", st)
  else if len (buf st) <? start then (Panic "slice bounds out of range", st)
  else (Ok size, mkBytes (copy_at (buf st) (Z.to_nat start) b) start).

Definition writeBool (b : bool) : Go Bytes Z :=
  if negb b then writeBytes [byte_of 0x00] else writeBytes [byte_of 0xff].

(** [for j := range n { b := i >> uint((n-1-j)*8); buf[j] = byte(b) }]; the
    scratch array has 8 bytes and [n <= 8] for an [int64]. *)
Definition int64_bytes (n : nat) (i : Z) : list byte :=
  map (fun j : nat => byte_of (Z.shiftr i (8 * (Z.of_nat n - 1 - Z.of_nat j)))) (seq 0 n).

Definition writeInt64 (i : Z) : Go Bytes Z :=
  let n := sizeInt64 i in
  if 8 <? n then panic "slice bounds out of range"
  else writeBytes (int64_bytes (Z.to_nat n) i) ;;; ret n.

Definition writeInt32 (i : Z) : Go Bytes Z := writeInt64 i.

Fixpoint writeBase128Int_loop (fuel : nat) (value size : Z) : Go Bytes Z :=
  match fuel with
  | O => fun st => (Diverge, st)
  | S f =>
      if (0 <? value) || (size =? 0) then
        let b := Z.land (uint8 value) 0x7f in
        let b := if value <? 128 then Z.lor b 0x80 else b in
        writeBytes [byte_of b] ;;; writeBase128Int_loop f (Z.shiftr value 7) (size + 1)
      else ret size
  end.

(** Ten groups of 7 bits exhaust an [int]. *)
Definition writeBase128Int (value : Z) : Go Bytes Z := writeBase128Int_loop 11 value 0.

Definition writeOctetString (s : list byte) : Go Bytes Z := writeBytes s.

(** [for val > 0 { lengthBytes++; writeBytes(byte(val & 0xff)); val >>= 8 }] *)
Fixpoint writeLength_loop (fuel : nat) (val lengthBytes : Z) : Go Bytes Z :=
  match fuel with
  | O => fun st => (Diverge, st)
  | S f =>
      if 0 <? val then
        writeBytes [byte_of (Z.land val 0xff)] ;;;
        writeLength_loop f (Z.shiftr val 8) (lengthBytes + 1)
      else ret lengthBytes
  end.

Definition writeTagAndLength (t : TagAndLength) : Go Bytes Z :=
  size <--
    (if Length t <? 0 then panic "Can't have a negative length"
     else if 128 <=? Length t then
       lengthBytes <-- writeLength_loop 9 (Length t) 0 ;;
       writeBytes [byte_of (Z.lor 0x80 (uint8 lengthBytes))] ;;;
       ret (lengthBytes + 1)
     else writeBytes [byte_of (Length t)]) ;;
  let b := uint8 (Z.shiftl (uint8 (Class_ t)) 6) in
  let b := if IsCompound t then Z.lor b 0x20 else b in
  let! (b, size) :=
    (if 31 <=? Tag t then
       s <-- writeBase128Int (Tag t) ;; ret (Z.lor b 0x1f, size + s)
     else ret (Z.lor b (uint8 (Tag t)), size)) in
  s <-- writeBytes [byte_of b] ;;
  ret (size + s).

Definition WriteTagAndLength (class : Z) (compound : bool) (tag length : Z) : Go Bytes Z :=
  writeTagAndLength (mkTagAndLength class tag length compound).

(** The dynamic types [WritePrimitiveSubBytes] and [SizePrimitiveSubBytes]
    switch on. *)
Inductive value : Type :=
| V_BOOLEAN (b : bool)
| V_INTEGER (i : Z)
| V_ENUMERATED (i : Z)
| V_OCTETSTRING (s : string).

Definition WritePrimitiveSubBytes (class tag : Z) (v : value) : Go Bytes Z :=
  size <--
    match v with
    | V_BOOLEAN b => writeBool b
    | V_INTEGER i => writeInt32 i
    | V_ENUMERATED i => writeInt32 i
    | V_OCTETSTRING s => writeOctetString (bytes_of s)
    end ;;
  s <-- WriteTagAndLength class isNotCompound tag size ;;
  ret (size + s).

(** boolean.go *)
Definition SizePrimitiveSubBytes (tag : Z) (v : value) : Z :=
  let size :=
    match v with
    | V_BOOLEAN _ => sizeBool
    | V_INTEGER i => sizeInt32 i
    | V_ENUMERATED i => sizeInt32 i
    | V_OCTETSTRING s => sizeOctetString (bytes_of s)
    end in
  size + sizeTagAndLength tag size.

(** [for bytes.HasMoreData() { body }].  Every iteration that returns moves the
    cursor, so the length of the buffer bounds the number of iterations. *)
Definition forHasMoreData {X} (body : X -> Go Bytes X) (x : X) : Go Bytes X := fun b =>
  while (S (length (buf b))) HasMoreData body x b.

(** ** Facts: slices *)

Lemma index_app (pre : list byte) (b : byte) (suf : list byte) :
  index (pre ++ b :: suf) (len pre) = Ok b.
Proof.
  unfold index, len. destruct (Z.ltb_spec (Z.of_nat (length pre)) 0); [lia|].
  rewrite Nat2Z.id, nth_error_app2, Nat.sub_diag by lia. reflexivity.
Qed.

Lemma index_ok_lt (l : list byte) (i : Z) (b : byte) :
  index l i = Ok b -> 0 <= i < len l.
Proof.
  unfold index, len. destruct (Z.ltb_spec i 0); [discriminate|].
  destruct (nth_error l (Z.to_nat i)) eqn:E; [|discriminate]. intros _.
  assert (nth_error l (Z.to_nat i) <> None) as H1 by congruence.
  apply nth_error_Some in H1. lia.
Qed.

Lemma index_cases (l : list byte) (i : Z) :
  (exists b, index l i = Ok b /\ 0 <= i < len l)
  \/ (index l i = Panic "index out of range" /\ (i < 0 \/ len l <= i)).
Proof.
  unfold index, len. destruct (Z.ltb_spec i 0); [right; split; [done|lia]|].
  destruct (nth_error l (Z.to_nat i)) eqn:E.
  - left. exists b. split; [done|].
    assert (nth_error l (Z.to_nat i) <> None) as H1 by congruence.
    apply nth_error_Some in H1. lia.
  - right. split; [done|]. apply nth_error_None in E. lia.
Qed.

Lemma slice_app (pre s suf : list byte) :
  slice (pre ++ s ++ suf) (len pre) (len pre + len s) = Ok s.
Proof.
  unfold slice. rewrite !len_app.
  pose proof (len_nonneg pre). pose proof (len_nonneg s). pose proof (len_nonneg suf).
  rewrite !(proj2 (Z.leb_le _ _)) by lia. cbn [andb].
  replace (len pre + len s - len pre) with (len s) by lia.
  unfold len. rewrite !Nat2Z.id, drop_app_length, take_app_length. reflexivity.
Qed.

Lemma slice_ok (l : list byte) (a b : Z) :
  0 <= a <= b -> b <= len l -> exists s, slice l a b = Ok s /\ len s = b - a.
Proof.
  intros Ha Hb. unfold slice.
  rewrite !(proj2 (Z.leb_le _ _)) by lia. cbn [andb].
  eexists. split; [reflexivity|].
  unfold len in *. rewrite length_take, length_drop. lia.
Qed.

Lemma copy_at_app (pre mid suf s : list byte) :
  length mid = length s ->
  copy_at (pre ++ mid ++ suf) (length pre) s = pre ++ s ++ suf.
Proof.
  intros Hl. unfold copy_at.
  rewrite take_app_length, <- Hl.
  rewrite (take_ge s) by (rewrite !length_app; lia).
  replace (length pre + length mid)%nat with (length (pre ++ mid)) by apply length_app.
  rewrite (app_assoc pre mid suf), drop_app_length. reflexivity.
Qed.

(** ** Facts: two's complement integers *)

Lemma wrapS_add_mult (w z k : Z) : 0 < w -> wrapS w (z + k * 2 ^ w) = wrapS w z.
Proof.
  intros Hw. unfold wrapS.
  replace (z + k * 2 ^ w + 2 ^ (w - 1)) with (z + 2 ^ (w - 1) + k * 2 ^ w) by lia.
  rewrite Z.mod_add by (apply Z.pow_nonzero; lia). reflexivity.
Qed.

Lemma lor_low_byte (r b : Z) : 0 <= b < 256 -> Z.lor (r * 256) b = r * 256 + b.
Proof.
  intros Hb. change 256 with (2 ^ 8) in *. rewrite <- Z.shiftl_mul_pow2 by lia.
  symmetry. rewrite Z.add_comm. rewrite <- Z.lxor_lor, Z.add_nocarry_lxor; [apply Z.lxor_comm| |].
  - apply Z.bits_inj'. intros n Hn. rewrite Z.land_spec, Z.bits_0.
    destruct (Z.ltb_spec n 8).
    + rewrite Z.shiftl_spec_low by lia. apply Bool.andb_false_r.
    + rewrite <- (Z.mod_small b (2 ^ 8)) by lia.
      rewrite Z.mod_pow2_bits_high by lia. reflexivity.
  - apply Z.bits_inj'. intros n Hn. rewrite Z.land_spec, Z.bits_0.
    destruct (Z.ltb_spec n 8).
    + rewrite Z.shiftl_spec_low by lia. reflexivity.
    + rewrite <- (Z.mod_small b (2 ^ 8)) by lia.
      rewrite Z.mod_pow2_bits_high by lia. apply Bool.andb_false_r.
Qed.

(** One step of the big-endian accumulation, with its wrap-around. *)
Lemma shift_or_step (r b : Z) :
  0 <= r < 2 ^ 56 -> 0 <= b < 256 ->
  Z.lor (int64 (Z.shiftl r 8)) b = int64 (r * 256 + b).
Proof.
  intros Hr Hb. rewrite Z.shiftl_mul_pow2 by lia. change (2 ^ 8) with 256.
  assert (forall z, 0 <= z < 2 ^ 64 -> int64 z = if z <? 2 ^ 63 then z else z - 2 ^ 64) as Hw.
  { intros z Hz. destruct (Z.ltb_spec z (2 ^ 63)).
    - apply int64_id. split; lia.
    - replace z with (z - 2 ^ 64 + 1 * 2 ^ 64) at 1 by lia.
      unfold int64. rewrite wrapS_add_mult by lia. apply int64_id. split; lia. }
  rewrite !Hw by lia.
  destruct (Z.ltb_spec (r * 256) (2 ^ 63)), (Z.ltb_spec (r * 256 + b) (2 ^ 63)); try lia.
  - now apply lor_low_byte.
  - replace (r * 256 - 2 ^ 64) with ((r - 2 ^ 56) * 256) by lia.
    rewrite lor_low_byte by lia. lia.
Qed.

Lemma shift_or_small (r b : Z) :
  0 <= r < 2 ^ 55 -> 0 <= b < 256 ->
  Z.lor (int64 (Z.shiftl r 8)) b = r * 256 + b.
Proof.
  intros Hr Hb. rewrite shift_or_step by lia. apply int64_id. split; lia.
Qed.

(** The bytes of [i], most significant first. *)
Lemma int64_bytes_S (n : nat) (i : Z) :
  int64_bytes (S n) i = int64_bytes n (Z.shiftr i 8) ++ [byte_of i].
Proof.
  unfold int64_bytes. rewrite seq_S, map_app. cbn [map].
  f_equal.
  - apply map_ext_in. intros j Hj. apply in_seq in Hj.
    rewrite Z.shiftr_shiftr by lia. f_equal. f_equal. lia.
  - replace (8 * (Z.of_nat (S n) - 1 - Z.of_nat (0 + n))) with 0 by lia.
    now rewrite Z.shiftr_0_r.
Qed.

Lemma length_int64_bytes (n : nat) (i : Z) : length (int64_bytes n i) = n.
Proof. unfold int64_bytes. rewrite length_map, length_seq. reflexivity. Qed.

Lemma parseInt64_loop_snoc (l : list byte) (b : byte) :
  parseInt64_loop (l ++ [b])
  = Z.lor (int64 (Z.shiftl (parseInt64_loop l) 8)) (byte_val b).
Proof. unfold parseInt64_loop. rewrite fold_left_app. reflexivity. Qed.

(** Accumulating at most seven bytes does not wrap. *)
Lemma parseInt64_loop_small (n : nat) (i : Z) :
  (n <= 7)%nat -> parseInt64_loop (int64_bytes n i) = i mod 2 ^ (8 * Z.of_nat n).
Proof.
  revert i. induction n as [|n IH]; intros i Hn.
  - rewrite Z.mod_1_r. reflexivity.
  - rewrite int64_bytes_S, parseInt64_loop_snoc, IH by lia. rewrite byte_val_of.
    assert (0 < 2 ^ (8 * Z.of_nat n) <= 2 ^ 48) as Hp.
    { split; [apply Z.pow_pos_nonneg; lia | apply Z.pow_le_mono_r; lia]. }
    pose proof (Z.mod_pos_bound (Z.shiftr i 8) (2 ^ (8 * Z.of_nat n))).
    pose proof (Z.mod_pos_bound i 256).
    rewrite shift_or_small by lia.
    replace (8 * Z.of_nat (S n)) with (8 + 8 * Z.of_nat n) by lia.
    rewrite Z.pow_add_r, Z.shiftr_div_pow2 by lia. change (2 ^ 8) with 256.
    rewrite Z.rem_mul_r by lia. lia.
Qed.

(** [parseInt64] inverts the big-endian encoding on [n] bytes of any value that
    fits in [8 n] signed bits. *)
Lemma parseInt64_bytes (n : nat) (i : Z) :
  (1 <= n <= 8)%nat -> - 2 ^ (8 * Z.of_nat n - 1) <= i < 2 ^ (8 * Z.of_nat n - 1) ->
  parseInt64 (int64_bytes n i) = Ok i.
Proof.
  intros Hn Hi. unfold parseInt64, len. rewrite length_int64_bytes.
  destruct (Z.ltb_spec 8 (Z.of_nat n)); [lia|].
  assert (uint8 (64 - uint8 (uint8 (Z.of_nat n) * 8)) = 64 - 8 * Z.of_nat n) as ->.
  { unfold uint8. rewrite (Z.mod_small (Z.of_nat n)) by lia.
    rewrite (Z.mod_small (_ * 8)) by lia. rewrite Z.mod_small; lia. }
  assert (exists k, parseInt64_loop (int64_bytes n i) = i + k * 2 ^ (8 * Z.of_nat n)) as [k ->].
  { destruct (decide (n <= 7)%nat) as [H7|H7].
    - rewrite parseInt64_loop_small by lia.
      exists (- (i / 2 ^ (8 * Z.of_nat n))).
      rewrite Z.mod_eq by (apply Z.pow_nonzero; lia). lia.
    - assert (n = 8%nat) as -> by lia.
      rewrite int64_bytes_S, parseInt64_loop_snoc, parseInt64_loop_small,
        byte_val_of by lia.
      change (2 ^ (8 * Z.of_nat 7)) with (2 ^ 56).
      pose proof (Z.mod_pos_bound (Z.shiftr i 8) (2 ^ 56)).
      pose proof (Z.mod_pos_bound i 256).
      rewrite shift_or_step by lia.
      rewrite Z.shiftr_div_pow2 by lia. change (2 ^ 8) with 256.
      replace ((i / 256) mod 2 ^ 56 * 256 + i mod 256) with (i mod (256 * 2 ^ 56))
        by (rewrite Z.rem_mul_r by lia; lia).
      change (256 * 2 ^ 56) with (2 ^ 64).
      rewrite Z.mod_eq by lia.
      replace (i - 2 ^ 64 * (i / 2 ^ 64)) with (i + (- (i / 2 ^ 64)) * 2 ^ 64) by lia.
      unfold int64. rewrite wrapS_add_mult by lia. exists 0.
      change (8 * Z.of_nat 8 - 1) with 63 in Hi.
      rewrite int64_id by (split; lia). lia. }
  f_equal.
  assert (2 ^ 64 = 2 ^ (64 - 8 * Z.of_nat n) * 2 ^ (8 * Z.of_nat n)) as H64.
  { rewrite <- Z.pow_add_r by lia. f_equal. lia. }
  assert (2 ^ 63 = 2 ^ (64 - 8 * Z.of_nat n) * 2 ^ (8 * Z.of_nat n - 1)) as H63.
  { rewrite <- Z.pow_add_r by lia. f_equal. lia. }
  assert (0 < 2 ^ (64 - 8 * Z.of_nat n)) as Hq by (apply Z.pow_pos_nonneg; lia).
  rewrite Z.shiftl_mul_pow2, Z.mul_add_distr_r by lia.
  replace (k * 2 ^ (8 * Z.of_nat n) * 2 ^ (64 - 8 * Z.of_nat n)) with (k * 2 ^ 64)
    by (rewrite H64; lia).
  unfold int64. rewrite wrapS_add_mult by lia.
  fold (int64 (i * 2 ^ (64 - 8 * Z.of_nat n))).
  assert (in_int64 (i * 2 ^ (64 - 8 * Z.of_nat n))) as Hin.
  { unfold in_int64. rewrite H63. split.
    - rewrite <- Z.mul_opp_r, (Z.mul_comm i). apply Z.mul_le_mono_nonneg_l; lia.
    - rewrite (Z.mul_comm i). apply Z.mul_lt_mono_pos_l; lia. }
  rewrite int64_id by exact Hin.
  rewrite Z.shiftr_div_pow2, Z.div_mul by lia. reflexivity.
Qed.

(** *** The size of an encoded integer *)

Lemma sizeInt64_pos_spec (f : nat) (n i0 : Z) :
  1 <= n -> 0 <= i0 < 2 ^ (8 * n + 8 * Z.of_nat f - 1) ->
  exists m i1,
    sizeInt64_pos f n (Z.shiftr i0 (8 * (n - 1))) = (m, i1)
    /\ n <= m <= n + Z.of_nat f /\ i0 < 2 ^ (8 * m - 1) /\ 0 <= i1 <= 127.
Proof.
  revert n. induction f as [|f IH]; intros n Hn Hi; cbn [sizeInt64_pos].
  - exists n, (Z.shiftr i0 (8 * (n - 1))). repeat split; try lia.
    + replace (8 * n + 8 * Z.of_nat 0 - 1) with (8 * n - 1) in Hi by lia. lia.
    + apply Z.shiftr_nonneg. lia.
    + rewrite Z.shiftr_div_pow2 by lia.
      enough (i0 / 2 ^ (8 * (n - 1)) < 128) by lia.
      apply Z.div_lt_upper_bound; [apply Z.pow_pos_nonneg; lia|].
      change 128 with (2 ^ 7). rewrite <- Z.pow_add_r by lia.
      replace (8 * (n - 1) + 7) with (8 * n + 8 * Z.of_nat 0 - 1) by lia. lia.
  - destruct (Z.ltb_spec 127 (Z.shiftr i0 (8 * (n - 1)))) as [Hlt|Hge].
    + rewrite Z.shiftr_shiftr by lia.
      replace (8 * (n - 1) + 8) with (8 * (n + 1 - 1)) by lia.
      destruct (IH (n + 1)) as (m & i1 & -> & Hm & Hb & Hi1); [lia| |].
      { replace (8 * (n + 1) + 8 * Z.of_nat f - 1) with (8 * n + 8 * Z.of_nat (S f) - 1) by lia.
        exact Hi. }
      exists m, i1. repeat split; lia.
    + exists n, (Z.shiftr i0 (8 * (n - 1))). repeat split; try lia.
      * rewrite Z.shiftr_div_pow2 in Hge by lia.
        assert (i0 / 2 ^ (8 * (n - 1)) < 2 ^ 7) as Hd by lia.
        replace (8 * n - 1) with (8 * (n - 1) + 7) by lia.
        rewrite Z.pow_add_r by lia.
        pose proof (Z.pow_pos_nonneg 2 (8 * (n - 1))).
        pose proof (Z.mul_succ_div_gt i0 (2 ^ (8 * (n - 1)))). nia.
      * apply Z.shiftr_nonneg. lia.
Qed.

Lemma sizeInt64_neg_spec (f : nat) (n i0 : Z) :
  1 <= n -> - 2 ^ (8 * n + 8 * Z.of_nat f - 1) <= i0 < 0 ->
  exists m i1,
    sizeInt64_neg f n (Z.shiftr i0 (8 * (n - 1))) = (m, i1)
    /\ n <= m <= n + Z.of_nat f /\ - 2 ^ (8 * m - 1) <= i0.
Proof.
  revert n. induction f as [|f IH]; intros n Hn Hi; cbn [sizeInt64_neg].
  - exists n, (Z.shiftr i0 (8 * (n - 1))). repeat split; try lia.
    replace (8 * n + 8 * Z.of_nat 0 - 1) with (8 * n - 1) in Hi by lia. lia.
  - destruct (Z.ltb_spec (Z.shiftr i0 (8 * (n - 1))) (-128)) as [Hlt|Hge].
    + rewrite Z.shiftr_shiftr by lia.
      replace (8 * (n - 1) + 8) with (8 * (n + 1 - 1)) by lia.
      destruct (IH (n + 1)) as (m & i1 & -> & Hm & Hb); [lia| |].
      { replace (8 * (n + 1) + 8 * Z.of_nat f - 1) with (8 * n + 8 * Z.of_nat (S f) - 1) by lia.
        exact Hi. }
      exists m, i1. repeat split; lia.
    + exists n, (Z.shiftr i0 (8 * (n - 1))). repeat split; try lia.
      rewrite Z.shiftr_div_pow2 in Hge by lia.
      replace (8 * n - 1) with (8 * (n - 1) + 7) by lia.
      rewrite Z.pow_add_r by lia.
      pose proof (Z.pow_pos_nonneg 2 (8 * (n - 1))).
      pose proof (Z.mul_div_le i0 (2 ^ (8 * (n - 1)))). nia.
Qed.

(** [sizeInt64 i] bytes are between 1 and 8, and enough for [i]. *)
Lemma sizeInt64_spec (i : Z) :
  in_int64 i ->
  1 <= sizeInt64 i <= 8
  /\ - 2 ^ (8 * sizeInt64 i - 1) <= i < 2 ^ (8 * sizeInt64 i - 1).
Proof.
  intros Hi. unfold in_int64 in Hi. unfold sizeInt64.
  assert (forall f n j, j <= 127 -> sizeInt64_pos f n j = (n, j)) as Hp0.
  { intros [|f] n j Hj; cbn [sizeInt64_pos]; [done|].
    destruct (Z.ltb_spec 127 j); [lia|done]. }
  assert (forall f n j, -128 <= j -> sizeInt64_neg f n j = (n, j)) as Hn0.
  { intros [|f] n j Hj; cbn [sizeInt64_neg]; [done|].
    destruct (Z.ltb_spec j (-128)); [lia|done]. }
  destruct (Z.le_gt_cases 0 i) as [Hpos|Hneg].
  - destruct (sizeInt64_pos_spec 7 1 i) as (m & i1 & E & Hm & Hb & Hi1);
      [lia | change (8 * 1 + 8 * Z.of_nat 7 - 1) with 63; lia |].
    change (8 * (1 - 1)) with 0 in E. rewrite Z.shiftr_0_r in E. rewrite E.
    rewrite Hn0 by lia. cbn [fst].
    assert (0 < 2 ^ (8 * m - 1)) by (apply Z.pow_pos_nonneg; lia). lia.
  - rewrite Hp0 by lia.
    destruct (sizeInt64_neg_spec 7 1 i) as (m & i1 & E & Hm & Hb);
      [lia | change (8 * 1 + 8 * Z.of_nat 7 - 1) with 63; lia |].
    change (8 * (1 - 1)) with 0 in E. rewrite Z.shiftr_0_r in E. rewrite E. cbn [fst].
    assert (0 < 2 ^ (8 * m - 1)) by (apply Z.pow_pos_nonneg; lia). lia.
Qed.

(** Decoding inverts encoding on every [int64]. *)
Lemma parseInt64_encoded (i : Z) :
  in_int64 i -> parseInt64 (int64_bytes (Z.to_nat (sizeInt64 i)) i) = Ok i.
Proof.
  intros Hi. destruct (sizeInt64_spec i Hi) as [Hn Hb].
  apply parseInt64_bytes; [lia|]. rewrite Z2Nat.id by lia. exact Hb.
Qed.

Lemma parseInt32_encoded (i : Z) :
  in_int32 i -> parseInt32 (int64_bytes (Z.to_nat (sizeInt64 i)) i) = Ok i.
Proof.
  intros Hi. unfold parseInt32.
  rewrite parseInt64_encoded by (unfold in_int32, in_int64 in *; lia).
  cbn [obind]. rewrite int32_id by exact Hi. now rewrite Z.eqb_refl.
Qed.
