(* ===== verification/Codec.v ===== *)
(** * The abstract contract of the BER codec

    The code writes a message backward into a buffer of the computed size and
    reads it forward through nested sub-buffers.  This file states what a
    writer, a size function and a reader promise to each other, independently
    of the message: the byte string [enc a] that denotes a value, [writes]
    (a writer puts that string just before the cursor and returns its length)
    and [readsP] (a reader consumes that string and returns the value).
    [Codec] is the interface the message components implement. *)

From S2P Require Import Prelude Asn1.
From Stdlib Require Import Strings.Byte.

(** ** The denotation of a tag-length-value element *)

(** The big-endian digits of a length, none for 0. *)
Fixpoint len_digits (fuel : nat) (l : Z) : list byte :=
  match fuel with
  | O => []
  | S f => if 0 <? l then len_digits f (Z.shiftr l 8) ++ [byte_of l] else []
  end.

Definition enc_len (l : Z) : list byte :=
  if l <? 128 then [byte_of l]
  else byte_of (128 + len (len_digits 8 l)) :: len_digits 8 l.

Definition header (class : Z) (compound : bool) (tag l : Z) : list byte :=
  byte_of (class * 64 + (if compound then 32 else 0) + tag) :: enc_len l.

Definition tlv (class : Z) (compound : bool) (tag : Z) (s : list byte) : list byte :=
  header class compound tag (len s) ++ s.

#[global] Arguments header : simpl never.
#[global] Arguments tlv : simpl never.

(** Contents whose length the parser accepts: [parseTagAndLength] refuses to
    shift a length above [1<<23]. *)
Definition fits (s : list byte) : Prop := len s < 2 ^ 31.

(** The class and the short-form tags the messages use. *)
Definition short_tag (class tag : Z) : Prop := 0 <= class < 4 /\ 0 <= tag < 31.

(** ** Contracts *)

(** [size += w] *)
Definition plus (size : Z) (w : Go Bytes Z) : Go Bytes Z := s <-- w ;; ret (size + s).
Notation "size += w" := (plus size w) (at level 60) : go_scope.

Definition writes (k : Z) (w : Go Bytes Z) (s : list byte) : Prop :=
  forall pre mid suf, length mid = length s ->
    w (mkBytes (pre ++ mid ++ suf) (len pre + len mid))
    = (Ok (k + len s), mkBytes (pre ++ s ++ suf) (len pre)).

Definition readsP {A} (P : list byte -> Prop) (rd : Go Bytes A) (s : list byte) (a : A)
    : Prop :=
  forall pre suf, P suf ->
    rd (mkBytes (pre ++ s ++ suf) (len pre))
    = (Ok a, mkBytes (pre ++ s ++ suf) (len pre + len s)).

Definition anySuffix (suf : list byte) : Prop := True.
Definition noSuffix (suf : list byte) : Prop := suf = [].

Abbreviation reads := (readsP anySuffix).
Abbreviation readsEnd := (readsP noSuffix).

(** A type of messages with its writer, its size, its reader and what they
    agree on. *)
Class Codec (A : Type) : Type := {
  enc : A -> list byte;
  wf : A -> Prop;
  c_write : A -> Go Bytes Z;
  c_size : A -> Z;
  c_read : Go Bytes A;
  c_writes a : wf a -> fits (enc a) -> writes 0 (c_write a) (enc a);
  c_sizes a : wf a -> fits (enc a) -> c_size a = len (enc a);
  c_reads a : wf a -> fits (enc a) -> reads c_read (enc a) a;
  c_nonempty a : enc a <> []
}.

Create HintDb codec.

(** ** Lemmas on lengths *)

Lemma len_digits_len (f : nat) (l : Z) : len (len_digits f l) <= Z.of_nat f.
Proof.
  revert l. induction f as [|f IH]; intros l; cbn [len_digits]; [rewrite len_nil; lia|].
  destruct (0 <? l); [|rewrite len_nil; lia]. rewrite len_app. specialize (IH (Z.shiftr l 8)).
  change (len [byte_of l]) with 1. lia.
Qed.

Lemma len_digits_S (f : nat) (l : Z) :
  0 < l -> len_digits (S f) l = len_digits f (Z.shiftr l 8) ++ [byte_of l].
Proof. intros Hl. cbn [len_digits]. now rewrite (proj2 (Z.ltb_lt _ _)). Qed.

Lemma len_digits_pos (f : nat) (l : Z) : 0 < l -> 1 <= len (len_digits (S f) l).
Proof.
  intros Hl. rewrite len_digits_S, len_app by done.
  pose proof (len_nonneg (len_digits f (Z.shiftr l 8))). change (len [byte_of l]) with 1. lia.
Qed.

(** Parsing the digits of a length accumulates the length. *)
Lemma parseLength_digits (f : nat) (l : Z) (n : nat) (pre suf : list byte) :
  0 <= l < 2 ^ 31 -> l < 2 ^ (8 * Z.of_nat f) ->
  parseLength_loop (length (len_digits f l) + n) (pre ++ len_digits f l ++ suf) (len pre) 0
  = parseLength_loop n (pre ++ len_digits f l ++ suf) (len pre + len (len_digits f l)) l.
Proof.
  revert l n suf. induction f as [|f IH]; intros l n suf Hl Hf.
  - change (8 * Z.of_nat 0) with 0 in Hf. assert (l = 0) as -> by lia.
    cbn [len_digits length Nat.add app]. change (len (@nil byte)) with 0.
    now rewrite Z.add_0_r.
  - destruct (Z.eq_dec l 0) as [->|Hnz].
    { cbn [len_digits Z.ltb Z.compare length Nat.add app]. change (len (@nil byte)) with 0.
      now rewrite Z.add_0_r. }
    assert (Z.shiftr l 8 = l / 256) as Hs by exact (Z.shiftr_div_pow2 l 8 ltac:(lia)).
    rewrite len_digits_S by lia.
    rewrite length_app, len_app. change (length [byte_of l]) with 1%nat.
    change (len [byte_of l]) with 1.
    rewrite <- Nat.add_assoc, <- !app_assoc. rewrite IH.
    2:{ rewrite Hs. split; [apply Z.div_pos; lia | apply Z.div_lt_upper_bound; lia]. }
    2:{ rewrite Hs. apply Z.div_lt_upper_bound; [lia|].
        replace (8 * Z.of_nat (S f)) with (8 + 8 * Z.of_nat f) in Hf by lia.
        rewrite Z.pow_add_r in Hf by lia. change (2 ^ 8) with 256 in Hf. lia. }
    set (ds := len_digits f (Z.shiftr l 8)) in *.
    cbn [Nat.add parseLength_loop].
    zcase; [len_lia|]. cbn [app].
    rewrite (app_assoc pre ds), <- (len_app pre ds), index_app. cbn [obind].
    rewrite byte_val_of, Hs.
    assert (l / 256 < 2 ^ 23) by (apply Z.div_lt_upper_bound; lia).
    assert (0 <= l / 256) by (apply Z.div_pos; lia).
    change (Z.shiftl 1 23) with (2 ^ 23).
    destruct (Z.leb_spec (2 ^ 23) (l / 256)); [lia|].
    pose proof (Z.mod_pos_bound l 256).
    rewrite shift_or_small by lia.
    replace (l / 256 * 256 + l mod 256) with l by (rewrite (Z.div_mod l 256) at 1; lia).
    destruct (Z.eqb_spec l 0); [lia|].
    rewrite <- (app_assoc pre ds), len_app, Z.add_assoc. reflexivity.
Qed.

(** The identifier octet splits back into class, constructed bit and tag. *)
Lemma identifier_octet (class tag : Z) (compound : bool) :
  short_tag class tag ->
  let b := class * 64 + (if compound then 32 else 0) + tag in
  0 <= b < 256
  /\ Z.shiftr b 6 = class
  /\ (Z.land b 0x20 =? 0x20) = compound
  /\ Z.land b 0x1f = tag
  /\ (tag =? 0x1f) = false
  /\ uint8 (Z.lor (if compound then Z.lor (uint8 (Z.shiftl (uint8 class) 6)) 0x20
            else uint8 (Z.shiftl (uint8 class) 6)) (uint8 tag)) = b.
Proof.
  intros [Hc Ht]. cbn zeta.
  assert (forallb (fun c => forallb (fun t =>
    let class := Z.of_nat c in let tag := Z.of_nat t in
    let b := class * 64 + (if compound then 32 else 0) + tag in
    (0 <=? b) && (b <? 256) && (Z.shiftr b 6 =? class)
    && Bool.eqb (Z.land b 0x20 =? 0x20) compound
    && (Z.land b 0x1f =? tag) && negb (tag =? 0x1f)
    && (uint8 (Z.lor (if compound then Z.lor (uint8 (Z.shiftl (uint8 class) 6)) 0x20
            else uint8 (Z.shiftl (uint8 class) 6)) (uint8 tag)) =? b))
    (seq 0 31)) (seq 0 4) = true) as H by (destruct compound; vm_compute; reflexivity).
  assert (In (Z.to_nat class) (seq 0 4)) as Hic by (apply in_seq; lia).
  assert (In (Z.to_nat tag) (seq 0 31)) as Hit by (apply in_seq; lia).
  pose proof (proj1 (forallb_forall _ _) H _ Hic) as H1.
  pose proof (proj1 (forallb_forall _ _) H1 _ Hit) as H2.
  clear H H1. cbn beta zeta in H2. rewrite !Z2Nat.id in H2 by lia. rename H2 into H.
  repeat (apply andb_prop in H as [H ?]).
  repeat match goal with
  | H : (_ =? _) = true |- _ => apply Z.eqb_eq in H
  | H : (_ <=? _) = true |- _ => apply Z.leb_le in H
  | H : (_ <? _) = true |- _ => apply Z.ltb_lt in H
  | H : Bool.eqb _ _ = true |- _ => apply Bool.eqb_prop in H
  | H : negb _ = true |- _ => apply Bool.negb_true_iff in H
  end.
  tauto.
Qed.

(** The two forms of the first octet of a length. *)
Lemma land_high_small l : 0 <= l < 128 -> Z.land l 0x80 = 0.
Proof.
  intros Hl. apply Z.bits_inj'. intros n Hn. rewrite Z.land_spec, Z.bits_0.
  rewrite <- (Z.mod_small l (2 ^ 7)) by lia.
  destruct (Z.ltb_spec n 7).
  - change 0x80 with (2 ^ 7). rewrite Z.pow2_bits_false by lia. apply Bool.andb_false_r.
  - rewrite Z.mod_pow2_bits_high by lia. reflexivity.
Qed.

Lemma land_low_small l : 0 <= l < 128 -> Z.land l 0x7f = l.
Proof.
  intros Hl. change 0x7f with (Z.ones 7). rewrite (Z.land_ones l 7), Z.mod_small by lia.
  reflexivity.
Qed.

Lemma land_long_form n :
  1 <= n <= 8 -> Z.land (128 + n) 0x80 = 128 /\ Z.land (128 + n) 0x7f = n.
Proof.
  intros Hn.
  assert (n = 1 \/ n = 2 \/ n = 3 \/ n = 4 \/ n = 5 \/ n = 6 \/ n = 7 \/ n = 8) as Hc by lia.
  repeat (destruct Hc as [-> | Hc]; [split; reflexivity|]). subst n. split; reflexivity.
Qed.

Lemma parseTagAndLength_header (class tag l : Z) (compound : bool) (pre suf : list byte) :
  short_tag class tag -> 0 <= l < 2 ^ 31 ->
  parseTagAndLength (pre ++ header class compound tag l ++ suf) (len pre)
  = Ok (mkTagAndLength class tag l compound, len pre + len (header class compound tag l)).
Proof.
  intros Hst Hl. destruct (identifier_octet class tag compound Hst)
    as (Hb & Hcl & Hcp & Htg & H31 & _).
  unfold parseTagAndLength, header.
  set (b := class * 64 + (if compound then 32 else 0) + tag) in *.
  cbn [app]. rewrite index_app. cbn [obind].
  rewrite byte_val_of_small by lia. rewrite Hcl, Hcp, Htg, H31. cbn [obind].
  assert (1 <= len (enc_len l)) as Hen.
  { unfold enc_len. destruct (l <? 128); len_lia. }
  zcase; [len_lia|].
  replace (len pre + 1) with (len (pre ++ [byte_of b])) by (rewrite len_app; reflexivity).
  replace (pre ++ byte_of b :: enc_len l ++ suf) with ((pre ++ [byte_of b]) ++ enc_len l ++ suf)
    by (rewrite <- app_assoc; reflexivity).
  unfold enc_len. destruct (Z.ltb_spec l 128) as [Hs|Hs].
  - cbn [app]. rewrite index_app. cbn [obind].
    rewrite byte_val_of_small by lia.
    rewrite land_high_small, land_low_small by lia. cbn [Z.eqb].
    f_equal. f_equal. len_lia.
  - cbn [app]. rewrite index_app. cbn [obind].
    pose proof (len_digits_len 8 l). pose proof (len_digits_pos 7 l ltac:(lia)) as Hpos.
    change (Z.of_nat 8) with 8 in *.
    set (ds := len_digits 8 l) in *.
    rewrite byte_val_of_small by lia.
    destruct (land_long_form (len ds)) as [-> ->]; [lia|]. cbn [Z.eqb].
    destruct (Z.eqb_spec (len ds) 0); [lia|].
    replace (Z.to_nat (len ds)) with (length ds + 0)%nat by (unfold len; lia).
    set (pre' := (pre ++ [byte_of b]) ++ [byte_of (128 + len ds)]).
    replace ((pre ++ [byte_of b]) ++ byte_of (128 + len ds) :: ds ++ suf)
      with (pre' ++ ds ++ suf) by (unfold pre'; now rewrite <- (app_assoc _ [_])).
    replace (len (pre ++ [byte_of b]) + 1) with (len pre') by (unfold pre'; len_lia).
    unfold ds. rewrite parseLength_digits by (change (8 * Z.of_nat 8) with 64; lia).
    fold ds. cbn [parseLength_loop obind]. f_equal. f_equal. unfold pre'.
    len_lia.
Qed.

(** ** Writers *)

Lemma writes_bytes (s : list byte) : writes 0 (writeBytes s) s.
Proof.
  intros pre mid suf Hl. unfold writeBytes. cbn [offset buf].
  assert (len mid = len s) as Hlen by (unfold len; lia).
  zcase; [len_lia|]. zcase; [len_lia|].
  replace (len pre + len mid - len s) with (len pre) by lia.
  rewrite Z.add_0_l. unfold len at 2. rewrite Nat2Z.id, copy_at_app by done. reflexivity.
Qed.

Lemma writes_ret (k : Z) : writes k (ret k) [].
Proof.
  intros pre mid suf Hl. destruct mid; [|discriminate].
  unfold ret. rewrite !len_nil, !Z.add_0_r. reflexivity.
Qed.

(** The second writer of a sequence writes before the first one's bytes. *)
Lemma writes_bind (k : Z) (m : Go Bytes Z) (f : Z -> Go Bytes Z) (s1 s2 : list byte) :
  writes k m s1 -> writes (k + len s1) (f (k + len s1)) s2 -> writes k (bind m f) (s2 ++ s1).
Proof.
  intros H1 H2 pre mid suf Hl. rewrite length_app in Hl.
  assert (exists m2 m1, mid = m2 ++ m1 /\ length m2 = length s2) as (m2 & m1 & -> & Hl2).
  { exists (take (length s2) mid), (drop (length s2) mid).
    rewrite take_drop, length_take. split; [done|lia]. }
  assert (length m1 = length s1) as Hl1 by (rewrite length_app in Hl; lia).
  rewrite <- (app_assoc m2 m1), (app_assoc pre m2).
  rewrite (len_app m2), Z.add_assoc, <- (len_app pre m2).
  erewrite bind_ok by (apply H1; exact Hl1).
  rewrite <- (app_assoc pre m2), (len_app pre m2), H2 by exact Hl2.
  rewrite <- (app_assoc s2 s1). f_equal. f_equal. len_lia.
Qed.

Lemma writes_plus (k : Z) (w : Go Bytes Z) (s : list byte) :
  writes 0 w s -> writes k (k += w) s.
Proof.
  intros H pre mid suf Hl. unfold plus. erewrite bind_ok by (apply H; exact Hl).
  unfold ret. rewrite Z.add_0_l. reflexivity.
Qed.

Lemma writes_step (k : Z) (w : Go Bytes Z) (f : Z -> Go Bytes Z) (s1 s2 : list byte) :
  writes 0 w s1 -> writes (k + len s1) (f (k + len s1)) s2 ->
  writes k (bind (k += w) f) (s2 ++ s1).
Proof. intros H1 H2. apply writes_bind; [now apply writes_plus | done]. Qed.

(** A writer that ignores the count of the first one and returns its own. *)
Lemma writes_seq_count (n : Z) (w : Go Bytes Z) (s : list byte) :
  writes 0 w s -> n = len s -> writes 0 (w ;;; ret n) s.
Proof.
  intros H -> pre mid suf Hl. erewrite bind_ok by (apply H; exact Hl). reflexivity.
Qed.

Lemma writes_length_loop (f : nat) (l k : Z) :
  0 <= l < 2 ^ (8 * Z.of_nat f) -> writes k (writeLength_loop (S f) l k) (len_digits f l).
Proof.
  revert l k. induction f as [|f IH]; intros l k Hl.
  - change (8 * Z.of_nat 0) with 0 in Hl. assert (l = 0) as -> by lia. apply writes_ret.
  - destruct (Z.eq_dec l 0) as [->|Hnz]; [apply writes_ret|].
    rewrite len_digits_S by lia. remember (S f) as g.
    cbn [writeLength_loop]. rewrite (proj2 (Z.ltb_lt _ _)) by lia. subst g.
    intros pre mid suf Hlen.
    assert (writes k (k += writeBytes [byte_of (Z.land l 0xff)]) [byte_of l]) as Hb.
    { apply writes_plus.
      assert (byte_of (Z.land l 0xff) = byte_of l) as ->; [|apply writes_bytes].
      change 0xff with (Z.ones 8). rewrite Z.land_ones by lia.
      unfold byte_of, uint8. now rewrite Z.mod_mod. }
    assert (writes (k + 1) (writeLength_loop (S f) (Z.shiftr l 8) (k + 1))
              (len_digits f (Z.shiftr l 8))) as Hr.
    { apply IH. rewrite Z.shiftr_div_pow2 by lia. change (2 ^ 8) with 256.
      split; [apply Z.div_pos; lia | apply Z.div_lt_upper_bound; [lia|]].
      replace (8 * Z.of_nat (S f)) with (8 + 8 * Z.of_nat f) in Hl by lia.
      rewrite Z.pow_add_r in Hl by lia. change (2 ^ 8) with 256 in Hl. lia. }
    pose proof (writes_bind k _ (fun _ => writeLength_loop (S f) (Z.shiftr l 8) (k + 1))
                  _ _ Hb Hr) as H.
    rewrite <- (H pre mid suf Hlen). unfold plus, bind.
    destruct (writeBytes _ _) as [[] ?]; reflexivity.
Qed.

Lemma writes_enc_len (l : Z) :
  0 <= l < 2 ^ 31 ->
  writes 0
    (if l <? 0 then panic "Can't have a negative length"
     else if 128 <=? l then
       lengthBytes <-- writeLength_loop 9 l 0 ;;
       writeBytes [byte_of (Z.lor 0x80 (uint8 lengthBytes))] ;;;
       ret (lengthBytes + 1)
     else writeBytes [byte_of l]) (enc_len l).
Proof.
  intros Hl. unfold enc_len. rewrite (proj2 (Z.ltb_ge l 0)) by lia.
  destruct (Z.leb_spec 128 l), (Z.ltb_spec l 128); try lia.
  - change (writes 0
      (bind (writeLength_loop 9 l 0) (fun n =>
         writeBytes [byte_of (Z.lor 0x80 (uint8 n))] ;;; ret (n + 1)))
      ([byte_of (128 + len (len_digits 8 l))] ++ len_digits 8 l)).
    pose proof (len_digits_len 8 l). pose proof (len_digits_pos 7 l ltac:(lia)).
    apply writes_bind.
    + apply writes_length_loop. change (8 * Z.of_nat 8) with 64. lia.
    + rewrite Z.add_0_l. set (n := len (len_digits 8 l)) in *.
      assert (Z.lor 0x80 (uint8 n) = 128 + n) as ->.
      { unfold uint8. rewrite Z.mod_small by lia.
        assert (n = 1 \/ n = 2 \/ n = 3 \/ n = 4 \/ n = 5 \/ n = 6 \/ n = 7 \/ n = 8) as Hc by lia.
        repeat (destruct Hc as [-> | Hc]; [reflexivity|]). now rewrite Hc. }
      intros pre mid suf Hlen. erewrite bind_ok by (apply writes_bytes; exact Hlen).
      reflexivity.
  - apply writes_bytes.
Qed.

(** [WriteTagAndLength] writes the header of an element. *)
Lemma writes_header (class tag l : Z) (compound : bool) :
  short_tag class tag -> 0 <= l < 2 ^ 31 ->
  writes 0 (WriteTagAndLength class compound tag l) (header class compound tag l).
Proof.
  intros Hst Hl. destruct (identifier_octet class tag compound Hst)
    as (Hb & _ & _ & _ & _ & Ho).
  unfold WriteTagAndLength, writeTagAndLength, header. cbn [Class_ Tag Length IsCompound].
  change (byte_of (class * 64 + (if compound then 32 else 0) + tag) :: enc_len l)
    with ([byte_of (class * 64 + (if compound then 32 else 0) + tag)] ++ enc_len l).
  apply writes_bind; [now apply writes_enc_len|].
  destruct Hst as [_ Ht]. destruct (Z.leb_spec 31 tag); [lia|].
  intros pre mid suf Hlen. erewrite bind_ok by reflexivity. cbn beta iota zeta.
  match goal with
  | |- context [byte_of (Z.lor ?x (uint8 tag))] =>
      replace (byte_of (Z.lor x (uint8 tag)))
        with (byte_of (class * 64 + (if compound then 32 else 0) + tag))
  end.
  2:{ rewrite <- Ho. unfold byte_of, uint8. now rewrite !Z.mod_mod by lia. }
  exact (writes_plus _ _ _ (writes_bytes _) pre mid suf Hlen).
Qed.

(** The element around contents already written. *)
Lemma writes_tlv (w : Go Bytes Z) (class tag : Z) (compound : bool) (s : list byte) :
  short_tag class tag -> fits s -> writes 0 w s ->
  writes 0 (size <-- w ;; size += WriteTagAndLength class compound tag size)
    (tlv class compound tag s).
Proof.
  intros Hst Hf Hw. unfold tlv. apply writes_bind; [done|].
  rewrite Z.add_0_l. apply writes_plus, writes_header; [done|].
  split; [apply len_nonneg | exact Hf].
Qed.

(** [for _, v := range slices.Backward(l) { size += v.write(bytes) }]: the last
    element is written first. *)
Definition writeBackward {A} (w : A -> Go Bytes Z) : list A -> Z -> Go Bytes Z :=
  fix go l size :=
    match l with
    | [] => ret size
    | v :: l' => size <-- go l' size ;; size += w v
    end.

Lemma writes_backward {A} (w : A -> Go Bytes Z) (e : A -> list byte) (l : list A) (k : Z) :
  Forall (fun a => writes 0 (w a) (e a)) l ->
  writes k (writeBackward w l k) (concat (map e l)).
Proof.
  intros H. induction H as [|a l Ha _ IH]; [apply writes_ret|].
  cbn [writeBackward map concat]. apply writes_bind; [exact IH|]. now apply writes_plus.
Qed.

(** ** Sizes *)

Lemma sizeLength_digits (f g : nat) (l k : Z) :
  (f <= g)%nat -> 0 < l < 2 ^ (8 * Z.of_nat (S f)) ->
  sizeLength_loop g l k = k - 1 + len (len_digits (S f) l).
Proof.
  revert g l k. induction f as [|f IH]; intros g l k Hg Hl.
  - change (2 ^ (8 * Z.of_nat 1)) with 256 in Hl.
    rewrite len_digits_S by lia. cbn [len_digits app]. change (len [byte_of l]) with 1.
    destruct g; cbn [sizeLength_loop]; [|zcase]; lia.
  - destruct g as [|g]; [lia|]. cbn [sizeLength_loop].
    rewrite len_digits_S, len_app by lia. change (len [byte_of l]) with 1.
    assert (Z.shiftr l 8 = l / 256) as Hs by exact (Z.shiftr_div_pow2 l 8 ltac:(lia)).
    zcase.
    + rewrite (IH g); [lia|lia|]. rewrite Hs. split; [apply Z.div_str_pos; lia|].
      apply Z.div_lt_upper_bound; [lia|].
      replace (8 * Z.of_nat (S (S f))) with (8 + 8 * Z.of_nat (S f)) in Hl by lia.
      rewrite Z.pow_add_r in Hl by lia. change (2 ^ 8) with 256 in Hl. lia.
    + rewrite Hs, Z.div_small by lia. cbn [len_digits Z.ltb Z.compare].
      change (len (@nil byte)) with 0. lia.
Qed.

Lemma len_header (class tag l : Z) (compound : bool) :
  short_tag class tag -> 0 <= l < 2 ^ 31 ->
  len (header class compound tag l) = sizeTagAndLength tag l.
Proof.
  intros [_ Ht] Hl. unfold header, sizeTagAndLength, enc_len.
  destruct (Z.leb_spec 31 tag); [lia|].
  destruct (Z.leb_spec 128 l), (Z.ltb_spec l 128); try lia.
  - rewrite !len_cons, (sizeLength_digits 7) by (change (8 * Z.of_nat 8) with 64; lia). lia.
  - len_lia.
Qed.

Lemma len_tlv (class tag : Z) (compound : bool) (s : list byte) :
  short_tag class tag -> fits s ->
  len (tlv class compound tag s) = len s + sizeTagAndLength tag (len s).
Proof.
  intros Hst Hf. unfold tlv. rewrite len_app, len_header; [lia|done|].
  split; [apply len_nonneg | exact Hf].
Qed.

(** [for _, a := range l { size += a.size() }] *)
Definition sumSizes {A} (size : A -> Z) (l : list A) : Z :=
  fold_left (fun n a => n + size a) l 0.

Lemma sumSizes_concat {A} (sz : A -> Z) (e : A -> list byte) (l : list A) :
  Forall (fun a => sz a = len (e a)) l -> sumSizes sz l = len (concat (map e l)).
Proof.
  intros H. unfold sumSizes.
  assert (forall k, fold_left (fun n a => n + sz a) l k = k + len (concat (map e l))) as Hg.
  { induction H as [|a l Ha _ IH]; intros k; cbn [fold_left map concat].
    - change (len (@nil byte)) with 0. lia.
    - rewrite IH, Ha, len_app. lia. }
  rewrite Hg. lia.
Qed.

(** A part of contents that fit also fits. *)
Lemma fits_app (s1 s2 : list byte) : fits (s1 ++ s2) <-> len s1 + len s2 < 2 ^ 31.
Proof. unfold fits. now rewrite len_app. Qed.

Lemma fits_app_l (s1 s2 : list byte) : fits (s1 ++ s2) -> fits s1.
Proof. unfold fits. intros H. len_lia. Qed.

Lemma fits_app_r (s1 s2 : list byte) : fits (s1 ++ s2) -> fits s2.
Proof. unfold fits. intros H. len_lia. Qed.

Lemma fits_tlv (class tag : Z) (compound : bool) (s : list byte) :
  fits (tlv class compound tag s) -> fits s.
Proof. apply fits_app_r. Qed.

Lemma fits_concat {A} (e : A -> list byte) (l : list A) :
  fits (concat (map e l)) -> Forall (fun a => fits (e a)) l.
Proof.
  induction l as [|a l IH]; intros H; constructor.
  - exact (fits_app_l _ _ H).
  - apply IH. exact (fits_app_r _ _ H).
Qed.

Lemma tlv_nonempty (class tag : Z) (compound : bool) (s : list byte) :
  tlv class compound tag s <> [].
Proof. unfold tlv, header. discriminate. Qed.

(** ** Readers *)

Lemma readsP_weaken {A} (P Q : list byte -> Prop) (rd : Go Bytes A) s a :
  readsP P rd s a -> (forall suf, Q suf -> P suf) -> readsP Q rd s a.
Proof. intros H HP pre suf Hs. now apply H, HP. Qed.

Lemma reads_any {A} P (rd : Go Bytes A) s a : reads rd s a -> readsP P rd s a.
Proof. intros H. eapply readsP_weaken; [exact H | done]. Qed.

Lemma readsP_ret {A} P (a : A) : readsP P (ret a) [] a.
Proof. intros pre suf _. unfold ret. rewrite len_nil, Z.add_0_r. reflexivity. Qed.

Lemma readsP_bind_gen {A B} (P Q : list byte -> Prop) (m : Go Bytes A) (k : A -> Go Bytes B)
    s1 s2 a b :
  readsP P m s1 a -> (forall suf, Q suf -> P (s2 ++ suf)) -> readsP Q (k a) s2 b ->
  readsP Q (bind m k) (s1 ++ s2) b.
Proof.
  intros H1 HPQ H2 pre suf Hs. rewrite <- (app_assoc s1 s2).
  erewrite bind_ok by (apply H1, HPQ, Hs).
  rewrite (app_assoc pre s1), <- (len_app pre s1), H2 by exact Hs.
  rewrite <- (app_assoc pre s1), !len_app, Z.add_assoc. reflexivity.
Qed.

Lemma readsP_bind {A B} P (m : Go Bytes A) (k : A -> Go Bytes B) s1 s2 a b :
  reads m s1 a -> readsP P (k a) s2 b -> readsP P (bind m k) (s1 ++ s2) b.
Proof. intros H1 H2. now apply (readsP_bind_gen anySuffix _ _ _ _ _ a). Qed.

(** The last read of a sequence, followed by a pure computation. *)
Lemma readsP_last {A B} P (m : Go Bytes A) (k : A -> Go Bytes B) s a b :
  readsP P m s a -> readsP P (k a) [] b -> readsP P (bind m k) s b.
Proof.
  intros H1 H2. rewrite <- (app_nil_r s). now apply (readsP_bind_gen P _ _ _ _ _ a).
Qed.

Lemma readsP_wrap {A} P prefix (m : Go Bytes A) s a :
  readsP P m s a -> readsP P (wrapErr prefix m) s a.
Proof. intros H pre suf Hs. now apply wrapErr_ok, H. Qed.

Lemma readsP_wrapf {A} P msg ws (m : Go Bytes A) s a :
  readsP P m s a -> readsP P (wrapf msg ws m) s a.
Proof. intros H pre suf Hs. now apply wrapf_ok, H. Qed.

Lemma reads_tag (class tag l : Z) (compound : bool) :
  short_tag class tag -> 0 <= l < 2 ^ 31 ->
  reads ParseTagAndLength (header class compound tag l) (mkTagAndLength class tag l compound).
Proof.
  intros Hst Hl pre suf _. unfold ParseTagAndLength. cbn [buf offset].
  now rewrite parseTagAndLength_header.
Qed.

Lemma Expect_same (class tag l : Z) (compound : bool) :
  Expect (mkTagAndLength class tag l compound) class tag compound = Ok tt.
Proof.
  unfold Expect, ExpectClass, ExpectTag, ExpectCompound. cbn [Class_ Tag IsCompound].
  now rewrite !Z.eqb_refl, Bool.eqb_reflx.
Qed.

(** Reading the sub-buffer of a constructed element. *)
Lemma reads_sub {A} (class tag : Z) (cb : Go Bytes A) (s : list byte) (a : A) :
  short_tag class tag -> fits s -> readsEnd cb s a ->
  reads (ReadSubBytes class tag cb) (tlv class true tag s) a.
Proof.
  intros Hst Hf Hcb pre suf _. unfold ReadSubBytes, tlv. rewrite <- (app_assoc _ s suf).
  erewrite bind_ok by (apply wrapErr_ok, reads_tag; [done | split; [apply len_nonneg | exact Hf] | done]).
  rewrite Expect_same. erewrite bind_ok by reflexivity. cbn beta.
  set (h := header class true tag (len s)). cbn [buf offset Length].
  zcase; [len_lia|].
  rewrite (app_assoc pre h), <- (len_app pre h), slice_app.
  specialize (Hcb [] [] eq_refl). rewrite app_nil_r in Hcb. cbn [app] in Hcb.
  change (len (@nil byte)) with 0 in Hcb. rewrite Hcb. rewrite Z.add_0_l.
  unfold HasMoreData. cbn [buf offset]. rewrite Z.ltb_irrefl.
  rewrite <- (app_assoc pre h), !len_app, Z.add_assoc. reflexivity.
Qed.

(** The contents of each primitive type. *)
Definition primitive_contents (v : primitive) : list byte :=
  match v with
  | PBool b => [byte_of (if b then 255 else 0)]
  | PInt32 i => int64_bytes (Z.to_nat (sizeInt64 i)) i
  | PBytes l => l
  end.

Definition primitive_typed (typeTag : Z) (v : primitive) : Prop :=
  match v with
  | PBool _ => typeTag = tagBoolean
  | PInt32 i => (typeTag = tagInteger \/ typeTag = tagEnum) /\ in_int32 i
  | PBytes _ => typeTag = tagOctetString
  end.

Lemma reads_primitive (class tag typeTag : Z) (v : primitive) :
  short_tag class tag -> fits (primitive_contents v) -> primitive_typed typeTag v ->
  reads (ReadPrimitiveSubBytes class tag typeTag)
    (tlv class false tag (primitive_contents v)) v.
Proof.
  intros Hst Hf Hv pre suf _. unfold ReadPrimitiveSubBytes, tlv.
  set (s := primitive_contents v) in *. rewrite <- (app_assoc _ s suf).
  erewrite bind_ok by (apply wrapErr_ok, reads_tag; [done | split; [apply len_nonneg | exact Hf] | done]).
  rewrite Expect_same. erewrite bind_ok by reflexivity. cbn beta.
  set (h := header class false tag (len s)). cbn [buf offset Length].
  zcase; [len_lia|].
  rewrite (app_assoc pre h), <- (len_app pre h), slice_app. cbn [obind].
  rewrite <- (app_assoc pre h), !len_app, Z.add_assoc.
  destruct v as [[]|i|l]; cbn [primitive_typed primitive_contents] in *.
  - subst. reflexivity.
  - subst. reflexivity.
  - destruct Hv as [[-> | ->] Hi]; cbn [Z.eqb Pos.eqb tagInteger tagBoolean tagEnum];
      unfold s; rewrite parseInt32_encoded by done; reflexivity.
  - subst. reflexivity.
Qed.

(** ** Loops over the rest of a buffer *)

Lemma HasMoreData_true (pre s suf : list byte) :
  s <> [] -> HasMoreData (mkBytes (pre ++ s ++ suf) (len pre)) = true.
Proof.
  intros Hs. unfold HasMoreData. cbn [buf offset]. apply Z.ltb_lt.
  destruct s; [done|]. len_lia.
Qed.

Lemma HasMoreData_end (s : list byte) : HasMoreData (mkBytes s (len s)) = false.
Proof. unfold HasMoreData. cbn [buf offset]. apply Z.ltb_irrefl. Qed.

(** [chain body x s y]: the iterations started with the local value [x] consume
    the non-empty chunks of [s] one after the other and end with [y]. *)
Inductive chain {X} (body : X -> Go Bytes X) : X -> list byte -> X -> Prop :=
| chain_nil x : chain body x [] x
| chain_cons x s y s' z :
    s <> [] -> reads (body x) s y -> chain body y s' z -> chain body x (s ++ s') z.

Lemma readsEnd_loop {X} (body : X -> Go Bytes X) (x y : X) (s : list byte) :
  chain body x s y -> readsEnd (forHasMoreData body x) s y.
Proof.
  intros Hc pre suf ->. rewrite app_nil_r. unfold forHasMoreData. cbn [buf].
  assert (length s < S (length (pre ++ s)))%nat as Hn by (rewrite length_app; lia).
  revert Hn. generalize (S (length (pre ++ s))) as n. intros n.
  revert pre n. induction Hc as [x|x s y s' z Hne Hb Hc IH]; intros pre n Hn.
  - destruct n as [|n]; [cbn in Hn; lia|].
    cbn [while]. rewrite !app_nil_r, HasMoreData_end. change (len (@nil byte)) with 0.
    now rewrite Z.add_0_r.
  - destruct n as [|n]; [lia|]. cbn [while].
    rewrite HasMoreData_true by done.
    erewrite bind_ok by (apply Hb; done).
    rewrite (app_assoc pre s s'), <- (len_app pre s), IH.
    + rewrite !len_app, Z.add_assoc. reflexivity.
    + rewrite length_app in Hn. destruct s; [done|]. cbn in Hn. lia.
Qed.

(** The common loop: read an element, append it. *)
Definition readAll {A} (rd : Z -> Go Bytes A) : Go Bytes (list A) :=
  forHasMoreData (fun acc => a <-- rd (1 + len acc) ;; ret (acc ++ [a])) [].

Lemma readsEnd_all {A} (rd : Z -> Go Bytes A) (e : A -> list byte) (l : list A) :
  Forall (fun a => e a <> [] /\ forall count, reads (rd count) (e a) a) l ->
  readsEnd (readAll rd) (concat (map e l)) l.
Proof.
  intros H. apply readsEnd_loop.
  assert (forall acc, chain (fun acc => a <-- rd (1 + len acc) ;; ret (acc ++ [a])) acc
            (concat (map e l)) (acc ++ l)) as Hg; [|apply (Hg [])].
  induction H as [|a l [Hne Ha] _ IH]; intros acc; cbn [map concat].
  - rewrite app_nil_r. constructor.
  - apply (chain_cons _ _ _ (acc ++ [a])); [done| |].
    + eapply readsP_last; [apply Ha | apply readsP_ret].
    + replace (acc ++ a :: l) with ((acc ++ [a]) ++ l) by (now rewrite <- app_assoc).
      apply IH.
Qed.

(** ** Looking at the next tag *)

Definition peeks {A} (m : Go Bytes A) (s : list byte) (a : A) : Prop :=
  forall pre suf, m (mkBytes (pre ++ s ++ suf) (len pre))
                  = (Ok a, mkBytes (pre ++ s ++ suf) (len pre)).

Lemma peeks_preview (class tag : Z) (compound : bool) (s rest : list byte) :
  short_tag class tag -> fits s ->
  peeks PreviewTagAndLength (tlv class compound tag s ++ rest)
    (mkTagAndLength class tag (len s) compound).
Proof.
  intros Hst Hf pre suf. unfold PreviewTagAndLength, tlv.
  rewrite <- !app_assoc. rewrite reads_tag; [|done| |done].
  - reflexivity.
  - split; [apply len_nonneg | exact Hf].
Qed.

Lemma peeks_wrap {A} prefix (m : Go Bytes A) s a :
  peeks m s a -> peeks (wrapErr prefix m) s a.
Proof. intros H pre suf. now apply wrapErr_ok. Qed.

Lemma peeks_lift {A} (a : A) s : peeks (lift (Ok a)) s a.
Proof. intros pre suf. reflexivity. Qed.

Lemma readsP_peek {A B} P (m : Go Bytes A) (k : A -> Go Bytes B) s a b :
  peeks m s a -> readsP P (k a) s b -> readsP P (bind m k) s b.
Proof. intros H1 H2 pre suf Hs. erewrite bind_ok by apply H1. now apply H2. Qed.

(** ** Optional trailing elements

    The code repeats, for every optional field,
    [if bytes.HasMoreData() { tag = PreviewTagAndLength(); if tag.Tag == T
    { v = readTaggedX(...); field = &v } }]. *)
Definition readOptional {A} (fn : string) (tag : Z) (rd : Go Bytes A) : Go Bytes (option A) :=
  fun b =>
    if HasMoreData b then
      (t <-- wrapErr fn PreviewTagAndLength ;;
       if Tag t =? tag then a <-- wrapErr fn rd ;; ret (Some a) else ret None) b
    else (Ok None, b).

(** An element with another tag follows; nothing or such an element follows. *)
Definition nextOther (tag : Z) (suf : list byte) : Prop :=
  exists class compound t s rest,
    suf = tlv class compound t s ++ rest /\ short_tag class t /\ fits s /\ t <> tag.

Definition notNext (tag : Z) (suf : list byte) : Prop := suf = [] \/ nextOther tag suf.

Lemma readOptional_none {A} fn tag (rd : Go Bytes A) :
  readsP (notNext tag) (readOptional fn tag rd) [] None.
Proof.
  intros pre suf Hs. cbn [app]. rewrite len_nil, Z.add_0_r. unfold readOptional.
  destruct Hs as [-> | (class & compound & t & s & rest & -> & Hst & Hf & Hne)].
  - rewrite app_nil_r, HasMoreData_end. reflexivity.
  - pose proof (peeks_preview class t compound s rest Hst Hf pre []) as Hp.
    rewrite app_nil_r in Hp.
    rewrite <- (app_nil_r (_ ++ rest)), HasMoreData_true, app_nil_r
      by (intros [Ht _]%app_nil; now apply (tlv_nonempty class t compound s)).
    erewrite bind_ok by (apply wrapErr_ok, Hp). cbn [Tag].
    rewrite (proj2 (Z.eqb_neq _ _)) by done. reflexivity.
Qed.

Lemma readOptional_some {A} P fn class compound tag (rd : Go Bytes A) s a :
  short_tag class tag -> fits s ->
  readsP P rd (tlv class compound tag s) a ->
  readsP P (readOptional fn tag rd) (tlv class compound tag s) (Some a).
Proof.
  intros Hst Hf Hr pre suf Hs. unfold readOptional.
  rewrite HasMoreData_true by apply tlv_nonempty.
  pose proof (peeks_preview class tag compound s suf Hst Hf pre []) as Hp.
  rewrite app_nil_r in Hp.
  erewrite bind_ok by (apply wrapErr_ok, Hp). cbn [Tag]. rewrite Z.eqb_refl.
  erewrite bind_ok by (apply wrapErr_ok, Hr, Hs). reflexivity.
Qed.

Lemma notNext_nil tag : notNext tag [].
Proof. now left. Qed.

Lemma notNext_tlv tag class compound t s rest :
  short_tag class t -> fits s -> t <> tag -> notNext tag (tlv class compound t s ++ rest).
Proof. intros. right. now exists class, compound, t, s, rest. Qed.

(** The same without the test for more data: a tag has to follow. *)
Definition readIfTag {A} (fn : string) (tag : Z) (rd : Go Bytes A) : Go Bytes (option A) :=
  t <-- wrapErr fn PreviewTagAndLength ;;
  if Tag t =? tag then a <-- wrapErr fn rd ;; ret (Some a) else ret None.

Lemma nextOther_tlv tag class compound t s rest :
  short_tag class t -> fits s -> t <> tag -> nextOther tag (tlv class compound t s ++ rest).
Proof. intros. now exists class, compound, t, s, rest. Qed.

Lemma readIfTag_none {A} fn tag (rd : Go Bytes A) :
  readsP (nextOther tag) (readIfTag fn tag rd) [] None.
Proof.
  intros pre suf (class & compound & t & s & rest & -> & Hst & Hf & Hne).
  cbn [app]. rewrite len_nil, Z.add_0_r. unfold readIfTag.
  pose proof (peeks_preview class t compound s rest Hst Hf pre []) as Hp.
  rewrite app_nil_r in Hp.
  erewrite bind_ok by (apply wrapErr_ok, Hp). cbn [Tag].
  rewrite (proj2 (Z.eqb_neq _ _)) by done. reflexivity.
Qed.

Lemma readIfTag_some {A} P fn class compound tag (rd : Go Bytes A) s a :
  short_tag class tag -> fits s ->
  readsP P rd (tlv class compound tag s) a ->
  readsP P (readIfTag fn tag rd) (tlv class compound tag s) (Some a).
Proof.
  intros Hst Hf Hr pre suf Hs. unfold readIfTag.
  pose proof (peeks_preview class tag compound s suf Hst Hf pre []) as Hp.
  rewrite app_nil_r in Hp.
  erewrite bind_ok by (apply wrapErr_ok, Hp). cbn [Tag]. rewrite Z.eqb_refl.
  erewrite bind_ok by (apply wrapErr_ok, Hr, Hs). reflexivity.
Qed.

(** [if bytes.HasMoreData() { v = readX(bytes); field = &v }], whatever the
    next tag is. *)
Definition readMore {A} (fn : string) (rd : Go Bytes A) : Go Bytes (option A) :=
  fun b =>
    if HasMoreData b then (a <-- wrapErr fn rd ;; ret (Some a)) b else (Ok None, b).

Definition enc_opt {A} (e : A -> list byte) (o : option A) : list byte :=
  match o with Some a => e a | None => [] end.

(** [if field != nil { size += field.write(bytes) }] and its size. *)
Definition write_opt {A} (w : A -> Go Bytes Z) (o : option A) (size : Z) : Go Bytes Z :=
  match o with Some a => size += w a | None => ret size end.

Definition size_opt {A} (sz : A -> Z) (o : option A) (size : Z) : Z :=
  match o with Some a => size + sz a | None => size end.

Lemma writes_opt {A} (w : A -> Go Bytes Z) (e : A -> list byte) (o : option A) (k : Z) :
  (forall a, o = Some a -> writes 0 (w a) (e a)) -> writes k (write_opt w o k) (enc_opt e o).
Proof.
  intros H. destruct o as [a|]; cbn; [apply writes_plus; auto | apply writes_ret].
Qed.

Lemma size_opt_len {A} (sz : A -> Z) (e : A -> list byte) (o : option A) (k : Z) :
  (forall a, o = Some a -> sz a = len (e a)) -> size_opt sz o k = k + len (enc_opt e o).
Proof.
  intros H. destruct o as [a|]; cbn [size_opt enc_opt]; [now rewrite H|].
  change (len (@nil byte)) with 0. lia.
Qed.

(** An optional element, present or not, before something else. *)
Lemma reads_optional {A} fn class compound tag (rd : Go Bytes A) (c : A -> list byte) o :
  short_tag class tag -> (forall a, o = Some a -> fits (c a)) ->
  (forall a, o = Some a -> reads rd (tlv class compound tag (c a)) a) ->
  readsP (notNext tag) (readOptional fn tag rd)
    (enc_opt (fun a => tlv class compound tag (c a)) o) o.
Proof.
  intros Hst Hf Hr. destruct o as [a|]; cbn [enc_opt].
  - apply readOptional_some; [done|now apply Hf|]. now apply reads_any, Hr.
  - apply readOptional_none.
Qed.

Lemma readsEnd_more {A} fn (rd : Go Bytes A) (e : A -> list byte) o :
  (forall a, o = Some a -> e a <> [] /\ readsP noSuffix rd (e a) a) ->
  readsEnd (readMore fn rd) (enc_opt e o) o.
Proof.
  intros H pre suf ->. unfold readMore. destruct o as [a|]; cbn [enc_opt].
  - destruct (H a eq_refl) as [Hne Hr]. rewrite HasMoreData_true by done.
    erewrite bind_ok by (now apply wrapErr_ok, Hr). reflexivity.
  - cbn [app]. rewrite app_nil_r, HasMoreData_end. change (len (@nil byte)) with 0.
    now rewrite Z.add_0_r.
Qed.

(** ** Termination

    [terminates n d m]: on a buffer of at most [n] bytes, [m] never runs out of
    fuel, and when it succeeds it leaves the bytes alone and has moved the
    cursor by at least [d] bytes, within the buffer. *)
Definition terminates {A} (n d : Z) (m : Go Bytes A) : Prop :=
  forall b, 0 <= offset b <= len (buf b) -> len (buf b) <= n ->
  match m b with
  | (Ok _, b') => buf b' = buf b /\ offset b + d <= offset b' <= len (buf b)
  | (Err _, _) | (Panic _, _) => True
  | (Diverge, _) => False
  end.

Create HintDb terminates discriminated.

Lemma terminates_weaken {A} n d d' (m : Go Bytes A) :
  terminates n d m -> d' <= d -> terminates n d' m.
Proof.
  intros H Hd b Hb Hn. specialize (H b Hb Hn).
  destruct (m b) as [[] ?]; try done. destruct H. split; [done|lia].
Qed.

Lemma terminates_ret {A} n (a : A) : terminates n 0 (ret a).
Proof. intros b Hb Hn. cbn. split; [done|lia]. Qed.

Lemma terminates_fail {A} n d (e : error) : terminates n d (@fail Bytes A e).
Proof. intros b Hb Hn. exact I. Qed.

Lemma terminates_panic {A} n d msg : terminates n d (@panic Bytes A msg).
Proof. intros b Hb Hn. exact I. Qed.

Lemma terminates_bind {A B} n d1 d2 (m : Go Bytes A) (k : A -> Go Bytes B) :
  0 <= d1 -> terminates n d1 m -> (forall a, terminates n d2 (k a)) ->
  terminates n (d1 + d2) (bind m k).
Proof.
  intros Hd1 Hm Hk b Hb Hn. specialize (Hm b Hb Hn). unfold bind.
  destruct (m b) as [[a|e|p|] b']; try done. destruct Hm as [Hbuf Hoff].
  specialize (Hk a b'). rewrite Hbuf in Hk. specialize (Hk ltac:(lia) Hn).
  destruct (k a b') as [[] b'']; try done.
  destruct Hk as [-> ?]. split; [done|lia].
Qed.

(** The two uses: the first part moves the cursor, or no part has to. *)
Lemma terminates_bind_l {A B} n d (m : Go Bytes A) (k : A -> Go Bytes B) :
  0 <= d -> terminates n d m -> (forall a, terminates n 0 (k a)) -> terminates n d (bind m k).
Proof. intros Hd Hm Hk. rewrite <- (Z.add_0_r d). now apply terminates_bind. Qed.

Lemma terminates_bind_r {A B} n d (m : Go Bytes A) (k : A -> Go Bytes B) :
  terminates n 0 m -> (forall a, terminates n d (k a)) -> terminates n d (bind m k).
Proof. intros Hm Hk. rewrite <- (Z.add_0_l d). now apply terminates_bind. Qed.

Lemma terminates_wrap {A} n d prefix (m : Go Bytes A) :
  terminates n d m -> terminates n d (wrapErr prefix m).
Proof.
  intros H b Hb Hn. specialize (H b Hb Hn). unfold wrapErr.
  destruct (m b) as [[] ?]; done.
Qed.

Lemma terminates_wrapf {A} n d msg ws (m : Go Bytes A) :
  terminates n d m -> terminates n d (wrapf msg ws m).
Proof.
  intros H b Hb Hn. specialize (H b Hb Hn). unfold wrapf.
  destruct (m b) as [[] ?]; done.
Qed.

Lemma terminates_lift {A} n (o : outcome A) : o <> Diverge -> terminates n 0 (lift o).
Proof. intros Ho b Hb Hn. unfold lift. destruct o; try done. split; [done|lia]. Qed.

Lemma wrapO_converges {A} prefix (o : outcome A) : o <> Diverge -> wrapO prefix o <> Diverge.
Proof. now destruct o. Qed.

Lemma Expect_converges t class tag compound : Expect t class tag compound <> Diverge.
Proof.
  unfold Expect, ExpectClass, ExpectTag, ExpectCompound.
  destruct (class =? _); cbn; [|done]. destruct (tag =? _); cbn; [|done].
  destruct (Bool.eqb _ _); done.
Qed.

Lemma parseBase128Int_loop_bounds (fuel : nat) bytes shifted offset r :
  0 <= offset -> 6 <= shifted + Z.of_nat fuel -> (1 <= fuel)%nat ->
  match parseBase128Int_loop fuel bytes shifted offset r with
  | Ok (_, offset') => offset + 1 <= offset' <= len bytes
  | Err _ | Panic _ => True
  | Diverge => False
  end.
Proof.
  revert shifted offset r. induction fuel as [|fuel IH]; intros shifted offset r Ho Hs Hf; [lia|].
  cbn [parseBase128Int_loop]. destruct (Z.ltb_spec offset (len bytes)); [|done].
  destruct (Z.ltb_spec 4 shifted); [done|].
  destruct (index_cases bytes offset) as [(b & -> & Hb)|[-> ?]]; cbn [obind]; [|done].
  destruct (Z.land (byte_val b) 128 =? 0); [lia|].
  specialize (IH (shifted + 1) (offset + 1) (Z.lor (int64 (Z.shiftl r 7)) (Z.land (byte_val b) 0x7f))
    ltac:(lia) ltac:(lia) ltac:(lia)).
  destruct (parseBase128Int_loop _ _ _ _ _) as [[]| | |]; try done. lia.
Qed.

Lemma parseLength_loop_bounds (n : nat) bytes offset l :
  0 <= offset <= len bytes -> 0 <= l < 2 ^ 31 ->
  match parseLength_loop n bytes offset l with
  | Ok (l', offset') => offset <= offset' <= len bytes /\ 0 <= l' < 2 ^ 31
  | Err _ | Panic _ => True
  | Diverge => False
  end.
Proof.
  revert offset l. induction n as [|n IH]; intros offset l Ho Hl; cbn [parseLength_loop]; [lia|].
  destruct (Z.leb_spec (len bytes) offset); [done|].
  destruct (index_cases bytes offset) as [(b & -> & Hb)|[-> ?]]; cbn [obind]; [|done].
  change (Z.shiftl 1 23) with (2 ^ 23).
  destruct (Z.leb_spec (2 ^ 23) l); [done|].
  pose proof (byte_val_range b). rewrite shift_or_small by lia.
  destruct (_ =? 0); [done|].
  specialize (IH (offset + 1) (l * 256 + byte_val b) ltac:(lia) ltac:(lia)).
  destruct (parseLength_loop _ _ _ _) as [[]| | |]; try done. lia.
Qed.

(** A parsed header has at least two bytes and a length that is not negative
    and below 2^31. *)
Lemma parseTagAndLength_bounds bytes offset :
  0 <= offset ->
  match parseTagAndLength bytes offset with
  | Ok (t, offset') => offset + 2 <= offset' <= len bytes /\ 0 <= Length t < 2 ^ 31
  | Err _ | Panic _ => True
  | Diverge => False
  end.
Proof.
  intros Ho. unfold parseTagAndLength.
  destruct (index_cases bytes offset) as [(b & -> & Hb)|[-> ?]]; cbn [obind]; [|done].
  set (tl := if _ =? 0x1f then parseBase128Int _ _ else _).
  assert (match tl with
          | Ok (_, o) => offset + 1 <= o
          | Err _ | Panic _ => True | Diverge => False end) as Htl.
  { unfold tl. destruct (_ =? _); [|lia].
    pose proof (parseBase128Int_loop_bounds 6 bytes 0 (offset + 1) 0
      ltac:(lia) ltac:(lia) ltac:(lia)) as Hp.
    unfold parseBase128Int. destruct (parseBase128Int_loop _ _ _ _ _) as [[]| | |]; try done. lia. }
  destruct tl as [[tag o]| | |]; cbn [obind]; try done.
  destruct (Z.leb_spec (len bytes) o); [done|].
  destruct (index_cases bytes o) as [(b' & -> & Hb')|[-> ?]]; cbn [obind]; [|done].
  assert (0 <= Z.land (byte_val b') 0x7f < 128) as Hl.
  { change 0x7f with (Z.ones 7). rewrite Z.land_ones by lia.
    change 128 with (2 ^ 7). apply Z.mod_pos_bound. lia. }
  destruct (Z.land (byte_val b') 0x80 =? 0); [cbn [Length]; lia|].
  destruct (_ =? 0); [done|].
  pose proof (parseLength_loop_bounds (Z.to_nat (Z.land (byte_val b') 0x7f)) bytes (o + 1) 0
    ltac:(lia) ltac:(lia)) as Hp.
  destruct (parseLength_loop _ _ _ _) as [[]| | |]; cbn [obind]; try done. cbn [Length]. lia.
Qed.

Lemma ParseTagAndLength_bounds b :
  0 <= offset b <= len (buf b) ->
  match ParseTagAndLength b with
  | (Ok t, b') => buf b' = buf b /\ offset b + 2 <= offset b' <= len (buf b)
                  /\ 0 <= Length t < 2 ^ 31
  | (Err _, _) | (Panic _, _) => True
  | (Diverge, _) => False
  end.
Proof.
  intros Hb. unfold ParseTagAndLength.
  pose proof (parseTagAndLength_bounds (buf b) (offset b) ltac:(lia)) as Hp.
  destruct (parseTagAndLength _ _) as [[t o]| | |]; try done.
Qed.

Lemma terminates_preview n : terminates n 0 PreviewTagAndLength.
Proof.
  intros b Hb Hn. unfold PreviewTagAndLength.
  pose proof (ParseTagAndLength_bounds b Hb) as Hp.
  destruct (ParseTagAndLength b) as [[t| | |] b']; try done.
  cbn [buf offset]. destruct Hp as (-> & ? & ?). split; [done|lia].
Qed.

Lemma terminates_sub {A} n class tag (cb : Go Bytes A) :
  terminates (n - 2) 0 cb -> terminates n 2 (ReadSubBytes class tag cb).
Proof.
  intros Hcb b Hb Hn. unfold ReadSubBytes.
  pose proof (ParseTagAndLength_bounds b Hb) as Hp. unfold bind, wrapErr.
  destruct (ParseTagAndLength b) as [[t| | |] b']; try done.
  destruct Hp as (Hbuf & Hoff & Hl). unfold lift.
  pose proof (wrapO_converges "ReadSubBytes:" _ (Expect_converges t class tag isCompound)) as He.
  destruct (wrapO _ _) as [u| | |]; try done. cbn beta. rewrite Hbuf.
  destruct (Z.ltb_spec (len (buf b)) (offset b' + Length t)); [done|].
  destruct (slice_ok (buf b) (offset b') (offset b' + Length t) ltac:(lia) ltac:(lia))
    as (s & -> & Hs).
  specialize (Hcb (mkBytes s 0)). cbn [buf offset] in Hcb. len_facts.
  specialize (Hcb ltac:(lia) ltac:(lia)).
  destruct (cb (mkBytes s 0)) as [[a| | |] sub]; try done.
  destruct (HasMoreData sub); [done|]. cbn [buf offset]. split; [done|lia].
Qed.

Lemma parseBool_converges s : parseBool s <> Diverge.
Proof.
  unfold parseBool. destruct (_ <? _); [done|].
  destruct (index_cases s 0) as [(b & -> & _)|[-> _]]; cbn; [|done].
  destruct (_ =? 0); [done|]. destruct (_ =? 255); done.
Qed.

Lemma parseInt32_converges s : parseInt32 s <> Diverge.
Proof.
  unfold parseInt32, parseInt64. destruct (_ <? _); cbn; [done|]. destruct (negb _); done.
Qed.

Lemma terminates_primitive n class tag typeTag :
  terminates n 2 (ReadPrimitiveSubBytes class tag typeTag).
Proof.
  intros b Hb Hn. unfold ReadPrimitiveSubBytes.
  pose proof (ParseTagAndLength_bounds b Hb) as Hp. unfold bind, wrapErr.
  destruct (ParseTagAndLength b) as [[t| | |] b']; try done.
  destruct Hp as (Hbuf & Hoff & Hl). unfold lift.
  pose proof (wrapO_converges "ReadPrimitiveSubBytes:" _
    (Expect_converges t class tag isNotCompound)) as He.
  destruct (wrapO _ _) as [u| | |]; try done. cbn beta. rewrite Hbuf.
  destruct (Z.ltb_spec (len (buf b)) (offset b' + Length t)); [done|].
  destruct (slice_ok (buf b) (offset b') (offset b' + Length t) ltac:(lia) ltac:(lia))
    as (s & -> & Hs). cbn [obind].
  set (value := if typeTag =? tagBoolean then _ else _).
  assert (value <> Diverge) as Hv.
  { unfold value, omap.
    pose proof (parseBool_converges s). pose proof (parseInt32_converges s).
    destruct (typeTag =? tagBoolean); [now destruct (parseBool s)|].
    destruct (typeTag =? tagInteger); [now destruct (parseInt32 s)|].
    destruct (typeTag =? tagEnum); [now destruct (parseInt32 s)|].
    destruct (typeTag =? tagOctetString); done. }
  destruct value; try done. cbn [buf offset]. split; [done|lia].
Qed.

(** A loop whose iterations move the cursor ends. *)
Lemma terminates_loop {X} n (body : X -> Go Bytes X) (x : X) :
  (forall y, terminates n 1 (body y)) -> terminates n 0 (forHasMoreData body x).
Proof.
  intros Hbody b Hb Hn. unfold forHasMoreData.
  assert (len (buf b) - offset b < Z.of_nat (S (length (buf b)))) as Hf by (unfold len; lia).
  revert Hf. generalize (S (length (buf b))) as fuel. intros fuel.
  revert x b Hb Hn. induction fuel as [|fuel IH]; intros x b Hb Hn Hf; [lia|].
  cbn [while]. unfold HasMoreData. destruct (Z.ltb_spec (offset b) (len (buf b))).
  - unfold bind. specialize (Hbody x b Hb Hn).
    destruct (body x b) as [[y| | |] b']; try done. destruct Hbody as [Hbuf Hoff].
    specialize (IH y b'). rewrite Hbuf in IH. specialize (IH ltac:(lia) Hn ltac:(lia)).
    destruct (while _ _ _ _ _) as [[] b'']; try done. destruct IH as [-> ?]. split; [done|lia].
  - cbn. split; [done|lia].
Qed.

Lemma terminates_all {A} n (rd : Z -> Go Bytes A) :
  (forall i, terminates n 1 (rd i)) -> terminates n 0 (readAll rd).
Proof.
  intros H. apply terminates_loop. intros acc.
  apply terminates_bind_l; [lia|apply H|intros; apply terminates_ret].
Qed.

Lemma terminates_optional {A} n fn tag (rd : Go Bytes A) :
  terminates n 0 rd -> terminates n 0 (readOptional fn tag rd).
Proof.
  intros Hrd b Hb Hn. unfold readOptional. destruct (HasMoreData b); [|cbn; split; [done|lia]].
  apply (terminates_bind_l n 0); [lia| | |done|done].
  - apply terminates_wrap, terminates_preview.
  - intros t. destruct (_ =? _); [|apply terminates_ret].
    apply terminates_bind_l; [lia|now apply terminates_wrap|intros; apply terminates_ret].
Qed.

Lemma terminates_more {A} n fn (rd : Go Bytes A) :
  terminates n 0 rd -> terminates n 0 (readMore fn rd).
Proof.
  intros Hrd b Hb Hn. unfold readMore. destruct (HasMoreData b); [|cbn; split; [done|lia]].
  apply (terminates_bind_l n 0); [lia|now apply terminates_wrap|intros; apply terminates_ret|done|done].
Qed.

(** ** Lists of elements *)

Section CodecList.
Context {A : Type} (C : Codec A).

Definition enc_list (l : list A) : list byte := concat (map enc l).

Lemma writes_list (l : list A) (k : Z) :
  Forall wf l -> fits (enc_list l) -> writes k (writeBackward c_write l k) (enc_list l).
Proof.
  intros Hwf Hf. apply writes_backward. apply fits_concat in Hf.
  induction Hwf as [|a l Ha Hl IH]; constructor; apply Forall_cons in Hf as [Hfa Hf].
  - now apply c_writes.
  - now apply IH.
Qed.

Lemma size_list (l : list A) :
  Forall wf l -> fits (enc_list l) -> sumSizes c_size l = len (enc_list l).
Proof.
  intros Hwf Hf. apply sumSizes_concat. apply fits_concat in Hf.
  induction Hwf as [|a l Ha Hl IH]; constructor; apply Forall_cons in Hf as [Hfa Hf].
  - now apply c_sizes.
  - now apply IH.
Qed.

Lemma reads_list (fn : string) (l : list A) :
  Forall wf l -> fits (enc_list l) ->
  readsEnd (readAll (fun _ => wrapErr fn c_read)) (enc_list l) l.
Proof.
  intros Hwf Hf. apply readsEnd_all. apply fits_concat in Hf.
  induction Hwf as [|a l Ha Hl IH]; constructor; apply Forall_cons in Hf as [Hfa Hf].
  - split; [apply c_nonempty|]. intros _. now apply readsP_wrap, c_reads.
  - now apply IH.
Qed.
End CodecList.

(** ** Tactics of the message components *)

Lemma writes_eq (k : Z) (w : Go Bytes Z) (s s' : list byte) :
  writes k w s -> s = s' -> writes k w s'.
Proof. now intros H ->. Qed.

Lemma writes_header_plus (k class tag : Z) (compound : bool) :
  short_tag class tag -> 0 <= k < 2 ^ 31 ->
  writes k (k += WriteTagAndLength class compound tag k) (header class compound tag k).
Proof. intros Hst Hk. now apply writes_plus, writes_header. Qed.

Lemma size_tlv (k class tag tag' : Z) (compound : bool) (s : list byte) :
  k = len s -> short_tag class tag -> short_tag class tag' -> fits s ->
  k + sizeTagAndLength tag' k = len (tlv class compound tag s).
Proof.
  intros -> Hst [_ Ht'] Hf. rewrite len_tlv by done.
  destruct Hst as [_ Ht]. unfold sizeTagAndLength.
  destruct (Z.leb_spec 31 tag), (Z.leb_spec 31 tag'); lia.
Qed.

(** Side conditions on tags and on lengths. *)
Ltac tag_side := first [ assumption | split; vm_compute; split; congruence ].

Ltac fits_side :=
  first [ assumption
        | cbn [enc_opt] in *; unfold fits, tlv in *; len_simpl; len_facts; lia ].

#[export] Hint Extern 1 (fits _) => fits_side : codec.
#[export] Hint Extern 1 (short_tag _ _) => tag_side : codec.

(** The wrappers around the primitive readers, writers and sizes. *)
Create HintDb prims.
#[export] Hint Unfold isCompound isNotCompound : prims.

(** A writer that is a sequence of [size += w] steps; the writers of the
    components come from the [codec] hints. *)
Ltac writes_step_auto :=
  first
    [ apply writes_header_plus; [tag_side | fits_side]
    | eapply writes_step;
        [ first [ apply writes_header; [tag_side | fits_side] | solve [eauto with codec] ] | ]
    | eapply writes_bind; [ solve [eauto with codec] | ]
    | solve [apply writes_plus; eauto with codec]
    | solve [eauto with codec] ].

(** Equality of two groupings of the same bytes. *)
Ltac bytes_eq :=
  lazymatch goal with |- @eq (list byte) _ _ => idtac end;
  unfold tlv; rewrite <- ?app_assoc, ?app_nil_r, ?Z.add_0_l;
  repeat first [ reflexivity | apply f_equal2; [ first [reflexivity | f_equal; len_lia ] | ]
               | f_equal; len_lia ].

Ltac writes_auto :=
  autounfold with prims;
  eapply writes_eq;
    [ repeat (writes_step_auto; cbn beta iota; rewrite ?Z.add_0_l) | bytes_eq ].

(** The parts of contents that fit also fit. *)
Ltac fits_inv :=
  cbv beta in *;
  repeat match goal with
  | H : fits (tlv ?c ?k ?t ?s) |- _ => pose proof (fits_tlv _ _ _ _ H); revert H
  | H : fits (?a ++ ?b) |- _ =>
      pose proof (fits_app_l _ _ H); pose proof (fits_app_r _ _ H); revert H
  end; intros.

(** A sequence of reads that ends the buffer or not. *)
Ltac reads_one := solve [eauto with codec | apply reads_any; eauto with codec].

Ltac reads_auto :=
  autounfold with prims;
  repeat first
    [ apply readsP_ret
    | reads_one
    | eapply readsP_bind; [ reads_one | ]; cbn beta iota
    | eapply readsP_last; [ reads_one | ]; cbn beta iota ].
