(* ===== verification/LdapTypes.v ===== *)
(** * LDAP messages: the types of lib/ldapsrv/goldap/struct.go

    The named string types of the source ([LDAPString], [LDAPDN], ...) are all
    byte strings; the pointers of optional fields are options; the interface
    types with a closed set of implementations in the source are inductive
    types with one constructor per implementation. *)

From S2P Require Import Prelude.
Set Warnings "-register-all".

(** ** Primitive types *)

Definition OCTETSTRING : Type := string.
Definition INTEGER : Type := Z.
Definition BOOLEAN : Type := bool.
Definition ENUMERATED : Type := Z.

Definition MessageID : Type := INTEGER.
Definition maxInt : INTEGER := 2147483647.
Definition LDAPString : Type := OCTETSTRING.
Definition LDAPOID : Type := OCTETSTRING.
Definition LDAPDN : Type := LDAPString.
Definition RelativeLDAPDN : Type := LDAPString.
Definition AttributeDescription : Type := LDAPString.
Definition AttributeValue : Type := OCTETSTRING.
Definition AssertionValue : Type := OCTETSTRING.
Definition MatchingRuleID : Type := LDAPString.
Definition URI : Type := LDAPString.

Record AttributeValueAssertion : Type := mkAttributeValueAssertion {
  attributeDesc : AttributeDescription;
  assertionValue : AssertionValue
}.

Record PartialAttribute : Type := mkPartialAttribute {
  pa_type : AttributeDescription;
  pa_vals : list AttributeValue
}.

Definition Attribute : Type := PartialAttribute.
Definition PartialAttributeList : Type := list PartialAttribute.
Definition AttributeList : Type := list Attribute.
Definition AttributeSelection : Type := list LDAPString.

(** ** Results *)

Definition Referral : Type := list URI.

Record LDAPResult : Type := mkLDAPResult {
  referral : option Referral;
  matchedDN : LDAPDN;
  diagnosticMessage : LDAPString;
  resultCode : ENUMERATED
}.

Definition TagLDAPResultReferral := 3.

Definition ResultCodeSuccess : ENUMERATED := 0.
Definition ResultCodeOperationsError : ENUMERATED := 1.
Definition ResultCodeProtocolError : ENUMERATED := 2.
Definition ResultCodeTimeLimitExceeded : ENUMERATED := 3.
Definition ResultCodeSizeLimitExceeded : ENUMERATED := 4.
Definition ResultCodeCompareFalse : ENUMERATED := 5.
Definition ResultCodeCompareTrue : ENUMERATED := 6.
Definition ResultCodeAuthMethodNotSupported : ENUMERATED := 7.
Definition ResultCodeStrongerAuthRequired : ENUMERATED := 8.
Definition ResultCodeReferral : ENUMERATED := 10.
Definition ResultCodeAdminLimitExceeded : ENUMERATED := 11.
Definition ResultCodeUnavailableCriticalExtension : ENUMERATED := 12.
Definition ResultCodeConfidentialityRequired : ENUMERATED := 13.
Definition ResultCodeSaslBindInProgress : ENUMERATED := 14.
Definition ResultCodeNoSuchAttribute : ENUMERATED := 16.
Definition ResultCodeUndefinedAttributeType : ENUMERATED := 17.
Definition ResultCodeInappropriateMatching : ENUMERATED := 18.
Definition ResultCodeConstraintViolation : ENUMERATED := 19.
Definition ResultCodeAttributeOrValueExists : ENUMERATED := 20.
Definition ResultCodeInvalidAttributeSyntax : ENUMERATED := 21.
Definition ResultCodeNoSuchObject : ENUMERATED := 32.
Definition ResultCodeAliasProblem : ENUMERATED := 33.
Definition ResultCodeInvalidDNSyntax : ENUMERATED := 34.
Definition ResultCodeAliasDereferencingProblem : ENUMERATED := 36.
Definition ResultCodeInappropriateAuthentication : ENUMERATED := 48.
Definition ResultCodeInvalidCredentials : ENUMERATED := 49.
Definition ResultCodeInsufficientAccessRights : ENUMERATED := 50.
Definition ResultCodeBusy : ENUMERATED := 51.
Definition ResultCodeUnavailable : ENUMERATED := 52.
Definition ResultCodeUnwillingToPerform : ENUMERATED := 53.
Definition ResultCodeLoopDetect : ENUMERATED := 54.
Definition ResultCodeNamingViolation : ENUMERATED := 64.
Definition ResultCodeObjectClassViolation : ENUMERATED := 65.
Definition ResultCodeNotAllowedOnNonLeaf : ENUMERATED := 66.
Definition ResultCodeNotAllowedOnRDN : ENUMERATED := 67.
Definition ResultCodeEntryAlreadyExists : ENUMERATED := 68.
Definition ResultCodeObjectClassModsProhibited : ENUMERATED := 69.
Definition ResultCodeAffectsMultipleDSAs : ENUMERATED := 71.
Definition ResultCodeOther : ENUMERATED := 80.

Definition EnumeratedLDAPResultCode : list (ENUMERATED * string) := [
  (ResultCodeSuccess, "success"%string);
  (ResultCodeOperationsError, "operationsError"%string);
  (ResultCodeProtocolError, "protocolError"%string);
  (ResultCodeTimeLimitExceeded, "timeLimitExceeded"%string);
  (ResultCodeSizeLimitExceeded, "sizeLimitExceeded"%string);
  (ResultCodeCompareFalse, "compareFalse"%string);
  (ResultCodeCompareTrue, "compareTrue"%string);
  (ResultCodeAuthMethodNotSupported, "authMethodNotSupported"%string);
  (ResultCodeStrongerAuthRequired, "strongerAuthRequired"%string);
  (ResultCodeReferral, "referral"%string);
  (ResultCodeAdminLimitExceeded, "adminLimitExceeded"%string);
  (ResultCodeUnavailableCriticalExtension, "unavailableCriticalExtension"%string);
  (ResultCodeConfidentialityRequired, "confidentialityRequired"%string);
  (ResultCodeSaslBindInProgress, "saslBindInProgress"%string);
  (ResultCodeNoSuchAttribute, "noSuchAttribute"%string);
  (ResultCodeUndefinedAttributeType, "undefinedAttributeType"%string);
  (ResultCodeInappropriateMatching, "inappropriateMatching"%string);
  (ResultCodeConstraintViolation, "constraintViolation"%string);
  (ResultCodeAttributeOrValueExists, "attributeOrValueExists"%string);
  (ResultCodeInvalidAttributeSyntax, "invalidAttributeSyntax"%string);
  (ResultCodeNoSuchObject, "noSuchObject"%string);
  (ResultCodeAliasProblem, "aliasProblem"%string);
  (ResultCodeInvalidDNSyntax, "invalidDNSyntax"%string);
  (ResultCodeAliasDereferencingProblem, "aliasDereferencingProblem"%string);
  (ResultCodeInappropriateAuthentication, "inappropriateAuthentication"%string);
  (ResultCodeInvalidCredentials, "invalidCredentials"%string);
  (ResultCodeInsufficientAccessRights, "insufficientAccessRights"%string);
  (ResultCodeBusy, "busy"%string);
  (ResultCodeUnavailable, "unavailable"%string);
  (ResultCodeUnwillingToPerform, "unwillingToPerform"%string);
  (ResultCodeLoopDetect, "loopDetect"%string);
  (ResultCodeNamingViolation, "namingViolation"%string);
  (ResultCodeObjectClassViolation, "objectClassViolation"%string);
  (ResultCodeNotAllowedOnNonLeaf, "notAllowedOnNonLeaf"%string);
  (ResultCodeNotAllowedOnRDN, "notAllowedOnRDN"%string);
  (ResultCodeEntryAlreadyExists, "entryAlreadyExists"%string);
  (ResultCodeObjectClassModsProhibited, "objectClassModsProhibited"%string);
  (ResultCodeAffectsMultipleDSAs, "affectsMultipleDSAs"%string);
  (ResultCodeOther, "other"%string)].

(** ** Controls *)

Record Control : Type := mkControl {
  controlValue : option OCTETSTRING;
  controlType : LDAPOID;
  criticality : BOOLEAN
}.

Definition Controls : Type := list Control.
Definition TagLDAPMessageControls := 0.

(** ** Bind *)

Definition TagBindRequest := 0.
Definition BindRequestVersionMin := 1.
Definition BindRequestVersionMax := 127.
Definition TagAuthenticationChoiceSimple := 0.
Definition TagAuthenticationChoiceSaslCredentials := 3.

Record SaslCredentials : Type := mkSaslCredentials {
  credentials : option OCTETSTRING;
  mechanism : LDAPString
}.

(** The nil interface is the zero value of [BindRequest.authentication]. *)
Inductive AuthenticationChoice : Type :=
| AuthNil
| AuthSimple (s : OCTETSTRING)
| AuthSasl (s : SaslCredentials).

Record BindRequest : Type := mkBindRequest {
  authentication : AuthenticationChoice;
  br_name : LDAPDN;
  version : INTEGER
}.

Definition TagBindResponse := 1.
Definition TagBindResponseServerSaslCreds := 7.

Record BindResponse : Type := mkBindResponse {
  br_result : LDAPResult;
  serverSaslCreds : option OCTETSTRING
}.

Definition TagUnbindRequest := 2.

(** ** Password modification (an extended operation) *)

Record PasswordModifyRequest : Type := mkPasswordModifyRequest {
  userIdentity : option OCTETSTRING;
  oldPassword : option OCTETSTRING;
  newPassword : option OCTETSTRING
}.

Definition TagPasswordModifyRequestUserIdentity := 0.
Definition TagPasswordModifyRequestOldPassword := 1.
Definition TagPasswordModifyRequestNewPassword := 2.

(** ** Search *)

Definition TagSearchRequest := 3.

Definition SearchRequestScopeBaseObject := 0.
Definition SearchRequestSingleLevel := 1.
Definition SearchRequestHomeSubtree := 2.

Definition EnumeratedSearchRequestScope : list (ENUMERATED * string) := [
  (SearchRequestScopeBaseObject, "baseObject"%string);
  (SearchRequestSingleLevel, "singleLevel"%string);
  (SearchRequestHomeSubtree, "homeSubtree"%string)].

Definition EnumeratedSearchRequestDerefAliases : list (ENUMERATED * string) := [
  (0, "neverDerefAliases"%string);
  (1, "derefInSearching"%string);
  (2, "derefFindingBaseObj"%string);
  (3, "derefAlways"%string)].

Definition TagFilterAnd := 0.
Definition TagFilterOr := 1.
Definition TagFilterNot := 2.
Definition TagFilterEqualityMatch := 3.
Definition TagFilterSubstrings := 4.
Definition TagFilterGreaterOrEqual := 5.
Definition TagFilterLessOrEqual := 6.
Definition TagFilterPresent := 7.
Definition TagFilterApproxMatch := 8.
Definition TagFilterExtensibleMatch := 9.

Definition TagSubstringInitial := 0.
Definition TagSubstringAny := 1.
Definition TagSubstringFinal := 2.

Inductive Substring : Type :=
| SubstringInitial (v : AssertionValue)
| SubstringAny (v : AssertionValue)
| SubstringFinal (v : AssertionValue).

Record SubstringFilter : Type := mkSubstringFilter {
  sf_type : AttributeDescription;
  sf_substrings : list Substring
}.

Record MatchingRuleAssertion : Type := mkMatchingRuleAssertion {
  matchingRule : option MatchingRuleID;
  mra_type : option AttributeDescription;
  matchValue : AssertionValue;
  dnAttributes : BOOLEAN
}.

Definition TagMatchingRuleAssertionMatchingRule := 1.
Definition TagMatchingRuleAssertionType := 2.
Definition TagMatchingRuleAssertionMatchValue := 3.
Definition TagMatchingRuleAssertionDnAttributes := 4.

Inductive Filter : Type :=
| FilterAnd (l : list Filter)
| FilterOr (l : list Filter)
| FilterNot (f : Filter)
| FilterEqualityMatch (a : AttributeValueAssertion)
| FilterSubstrings (s : SubstringFilter)
| FilterGreaterOrEqual (a : AttributeValueAssertion)
| FilterLessOrEqual (a : AttributeValueAssertion)
| FilterPresent (d : AttributeDescription)
| FilterApproxMatch (a : AttributeValueAssertion)
| FilterExtensibleMatch (m : MatchingRuleAssertion).

Record SearchRequest : Type := mkSearchRequest {
  sr_filter : Filter;
  baseObject : LDAPDN;
  sr_attributes : AttributeSelection;
  scope : ENUMERATED;
  derefAliases : ENUMERATED;
  sizeLimit : INTEGER;
  timeLimit : INTEGER;
  typesOnly : BOOLEAN
}.

Definition TagSearchResultEntry := 4.

Record SearchResultEntry : Type := mkSearchResultEntry {
  objectName : LDAPDN;
  sre_attributes : PartialAttributeList
}.

Definition TagSearchResultReference := 19.
Definition SearchResultReference : Type := list URI.
Definition TagSearchResultDone := 5.

(** ** Modification *)

Definition TagModifyRequest := 6.

Record ModifyRequestChange : Type := mkModifyRequestChange {
  modification : PartialAttribute;
  operation : ENUMERATED
}.

Record ModifyRequest : Type := mkModifyRequest {
  mr_object : LDAPDN;
  changes : list ModifyRequestChange
}.

Definition ModifyRequestChangeOperationAdd := 0.
Definition ModifyRequestChangeOperationDelete := 1.
Definition ModifyRequestChangeOperationReplace := 2.

Definition EnumeratedModifyRequestChangeOperation : list (ENUMERATED * string) := [
  (ModifyRequestChangeOperationAdd, "add"%string);
  (ModifyRequestChangeOperationDelete, "delete"%string);
  (ModifyRequestChangeOperationReplace, "replace"%string)].

Definition TagModifyResponse := 7.
Definition TagAddRequest := 8.

Record AddRequest : Type := mkAddRequest {
  ar_entry : LDAPDN;
  ar_attributes : AttributeList
}.

Definition TagAddResponse := 9.
Definition TagDelRequest := 10.
Definition DelRequest : Type := LDAPDN.
Definition TagDelResponse := 11.
Definition TagModifyDNRequest := 12.

Record ModifyDNRequest : Type := mkModifyDNRequest {
  newSuperior : option LDAPDN;
  mdn_entry : LDAPDN;
  newrdn : RelativeLDAPDN;
  deleteoldrdn : BOOLEAN
}.

Definition TagModifyDNRequestNewSuperior := 0.
Definition TagModifyDNResponse := 13.
Definition TagCompareRequest := 14.

Record CompareRequest : Type := mkCompareRequest {
  cr_entry : LDAPDN;
  ava : AttributeValueAssertion
}.

Definition TagCompareResponse := 15.
Definition TagAbandonRequest := 16.
Definition AbandonRequest : Type := MessageID.

(** ** Extended operations *)

Definition TagExtendedRequest := 23.

Record ExtendedRequest : Type := mkExtendedRequest {
  requestValue : option OCTETSTRING;
  requestName : LDAPOID
}.

Definition TagExtendedRequestName := 0.
Definition TagExtendedRequestValue := 1.
Definition TagExtendedResponse := 24.

Record ExtendedResponse : Type := mkExtendedResponse {
  er_result : LDAPResult;
  er_responseName : option LDAPOID;
  er_responseValue : option OCTETSTRING
}.

Definition TagExtendedResponseName := 10.
Definition TagExtendedResponseValue := 11.
Definition TagIntermediateResponse := 25.

Record IntermediateResponse : Type := mkIntermediateResponse {
  ir_responseName : option LDAPOID;
  ir_responseValue : option OCTETSTRING
}.

Definition TagIntermediateResponseName := 0.
Definition TagIntermediateResponseValue := 1.

(** ** Messages

    The implementations of the interface [ProtocolOp] that the source builds;
    the plain [LDAPResult] is the one lib/ldapsrv/handler.go writes in reply to
    an operation it does not know. *)
Inductive ProtocolOp : Type :=
| OpBindRequest (r : BindRequest)
| OpBindResponse (r : BindResponse)
| OpUnbindRequest
| OpSearchRequest (r : SearchRequest)
| OpSearchResultEntry (r : SearchResultEntry)
| OpSearchResultDone (r : LDAPResult)
| OpSearchResultReference (r : SearchResultReference)
| OpModifyRequest (r : ModifyRequest)
| OpModifyResponse (r : LDAPResult)
| OpAddRequest (r : AddRequest)
| OpAddResponse (r : LDAPResult)
| OpDelRequest (r : DelRequest)
| OpDelResponse (r : LDAPResult)
| OpModifyDNRequest (r : ModifyDNRequest)
| OpModifyDNResponse (r : LDAPResult)
| OpCompareRequest (r : CompareRequest)
| OpCompareResponse (r : LDAPResult)
| OpAbandonRequest (r : AbandonRequest)
| OpExtendedRequest (r : ExtendedRequest)
| OpExtendedResponse (r : ExtendedResponse)
| OpIntermediateResponse (r : IntermediateResponse)
| OpLDAPResult (r : LDAPResult).

Record LDAPMessage : Type := mkLDAPMessage {
  protocolOp : ProtocolOp;
  controls : option Controls;
  messageID : MessageID
}.

(** Nested induction on filters. *)
Section FilterInd.
Variable P : Filter -> Prop.
Hypothesis HAnd : forall l, Forall P l -> P (FilterAnd l).
Hypothesis HOr : forall l, Forall P l -> P (FilterOr l).
Hypothesis HNot : forall f, P f -> P (FilterNot f).
Hypothesis HEq : forall a, P (FilterEqualityMatch a).
Hypothesis HSub : forall s, P (FilterSubstrings s).
Hypothesis HGe : forall a, P (FilterGreaterOrEqual a).
Hypothesis HLe : forall a, P (FilterLessOrEqual a).
Hypothesis HPres : forall d, P (FilterPresent d).
Hypothesis HApp : forall a, P (FilterApproxMatch a).
Hypothesis HExt : forall m, P (FilterExtensibleMatch m).

Fixpoint Filter_nested_ind (f : Filter) : P f :=
  let fix all (l : list Filter) : Forall P l :=
    match l with
    | [] => Forall_nil_2 P
    | g :: l' => Forall_cons_2 P g l' (Filter_nested_ind g) (all l')
    end in
  match f with
  | FilterAnd l => HAnd l (all l)
  | FilterOr l => HOr l (all l)
  | FilterNot g => HNot g (Filter_nested_ind g)
  | FilterEqualityMatch a => HEq a
  | FilterSubstrings s => HSub s
  | FilterGreaterOrEqual a => HGe a
  | FilterLessOrEqual a => HLe a
  | FilterPresent d => HPres d
  | FilterApproxMatch a => HApp a
  | FilterExtensibleMatch m => HExt m
  end.
End FilterInd.
