(* ===== verification/LdapPrim.v ===== *)
(** * Primitive LDAP values

    lib/ldapsrv/goldap: integer.go, boolean.go, octetstring.go, enumerated.go,
    message_id.go, string.go, dn.go, relative_ldap_dn.go, oid.go, uri.go,
    attribute_description.go, attribute_value.go, assertion_value.go and
    matching_rule_id.go.  Each value is written as a primitive element, with
    its universal tag or with a tag given by the context. *)

From S2P Require Import Prelude Asn1 Codec LdapTypes.
From Stdlib Require Import Strings.Byte.

(** ** Type assertions on the result of [ReadPrimitiveSubBytes] *)

Definition assert_int32 (v : primitive) : Go Bytes Z :=
  match v with PInt32 i => ret i | _ => panic "interface conversion" end.

Definition assert_bool (v : primitive) : Go Bytes bool :=
  match v with PBool b => ret b | _ => panic "interface conversion" end.

Definition assert_bytes (v : primitive) : Go Bytes (list byte) :=
  match v with PBytes l => ret l | _ => panic "interface conversion" end.

(** ** integer.go *)

Definition readINTEGER : Go Bytes INTEGER :=
  v <-- wrapErr "readINTEGER:" (ReadPrimitiveSubBytes classUniversal tagInteger tagInteger) ;;
  assert_int32 v.

Definition readTaggedINTEGER (class tag : Z) : Go Bytes INTEGER :=
  v <-- wrapErr "readTaggedINTEGER:" (ReadPrimitiveSubBytes class tag tagInteger) ;;
  assert_int32 v.

Definition readTaggedPositiveINTEGER (class tag : Z) : Go Bytes INTEGER :=
  r <-- wrapErr "readTaggedPositiveINTEGER:" (readTaggedINTEGER class tag) ;;
  if (r <? 0) || (maxInt <? r)
  then fail (LdapError "readTaggedPositiveINTEGER: Invalid INTEGER value" [r; maxInt])
  else ret r.

Definition readPositiveINTEGER : Go Bytes INTEGER :=
  readTaggedPositiveINTEGER classUniversal tagInteger.

Definition INTEGER_write (i : INTEGER) : Go Bytes Z :=
  WritePrimitiveSubBytes classUniversal tagInteger (V_INTEGER i).

Definition INTEGER_writeTagged (i : INTEGER) (class tag : Z) : Go Bytes Z :=
  WritePrimitiveSubBytes class tag (V_INTEGER i).

Definition INTEGER_size (i : INTEGER) : Z := SizePrimitiveSubBytes tagInteger (V_INTEGER i).

Definition INTEGER_sizeTagged (i : INTEGER) (tag : Z) : Z :=
  SizePrimitiveSubBytes tag (V_INTEGER i).

(** ** message_id.go *)

Definition readTaggedMessageID (class tag : Z) : Go Bytes MessageID :=
  wrapErr "readTaggedMessageID:" (readTaggedPositiveINTEGER class tag).

Definition readMessageID : Go Bytes MessageID := readTaggedMessageID classUniversal tagInteger.
Definition MessageID_write (m : MessageID) : Go Bytes Z := INTEGER_write m.
Definition MessageID_writeTagged (m : MessageID) (class tag : Z) : Go Bytes Z :=
  INTEGER_writeTagged m class tag.
Definition MessageID_size (m : MessageID) : Z := INTEGER_size m.
Definition MessageID_sizeTagged (m : MessageID) (tag : Z) : Z := INTEGER_sizeTagged m tag.

(** ** boolean.go *)

Definition readBOOLEAN : Go Bytes BOOLEAN :=
  v <-- wrapErr "readBOOLEAN:" (ReadPrimitiveSubBytes classUniversal tagBoolean tagBoolean) ;;
  assert_bool v.

Definition readTaggedBOOLEAN (class tag : Z) : Go Bytes BOOLEAN :=
  v <-- wrapErr "readTaggedBOOLEAN:" (ReadPrimitiveSubBytes class tag tagBoolean) ;;
  assert_bool v.

Definition BOOLEAN_write (b : BOOLEAN) : Go Bytes Z :=
  WritePrimitiveSubBytes classUniversal tagBoolean (V_BOOLEAN b).

Definition BOOLEAN_writeTagged (b : BOOLEAN) (class tag : Z) : Go Bytes Z :=
  WritePrimitiveSubBytes class tag (V_BOOLEAN b).

Definition BOOLEAN_size (b : BOOLEAN) : Z := SizePrimitiveSubBytes tagBoolean (V_BOOLEAN b).

Definition BOOLEAN_sizeTagged (b : BOOLEAN) (tag : Z) : Z :=
  SizePrimitiveSubBytes tag (V_BOOLEAN b).

(** ** enumerated.go *)

(** [_, ok := allowedValues[ret]] *)
Definition allowed (values : list (ENUMERATED * string)) (e : ENUMERATED) : bool :=
  existsb (fun '(v, _) => v =? e) values.
#[global] Arguments allowed : simpl never.

Definition readENUMERATED (allowedValues : list (ENUMERATED * string)) : Go Bytes ENUMERATED :=
  v <-- wrapErr "readENUMERATED:" (ReadPrimitiveSubBytes classUniversal tagEnum tagEnum) ;;
  r <-- assert_int32 v ;;
  if negb (allowed allowedValues r)
  then fail (LdapError "readENUMERATED: Invalid ENUMERATED VALUE" [r])
  else ret r.

Definition ENUMERATED_write (e : ENUMERATED) : Go Bytes Z :=
  WritePrimitiveSubBytes classUniversal tagEnum (V_ENUMERATED e).

Definition ENUMERATED_writeTagged (e : ENUMERATED) (class tag : Z) : Go Bytes Z :=
  WritePrimitiveSubBytes class tag (V_ENUMERATED e).

Definition ENUMERATED_size (e : ENUMERATED) : Z := SizePrimitiveSubBytes tagEnum (V_ENUMERATED e).

(** ** octetstring.go *)

Definition readOCTETSTRING : Go Bytes OCTETSTRING :=
  v <-- wrapErr "readOCTETSTRING:"
          (ReadPrimitiveSubBytes classUniversal tagOctetString tagOctetString) ;;
  l <-- assert_bytes v ;;
  ret (string_of l).

Definition readTaggedOCTETSTRING (class tag : Z) : Go Bytes OCTETSTRING :=
  v <-- wrapErr "readTaggedOCTETSTRING:" (ReadPrimitiveSubBytes class tag tagOctetString) ;;
  l <-- assert_bytes v ;;
  ret (string_of l).

Definition OCTETSTRING_write (o : OCTETSTRING) : Go Bytes Z :=
  WritePrimitiveSubBytes classUniversal tagOctetString (V_OCTETSTRING o).

Definition OCTETSTRING_writeTagged (o : OCTETSTRING) (class tag : Z) : Go Bytes Z :=
  WritePrimitiveSubBytes class tag (V_OCTETSTRING o).

Definition OCTETSTRING_size (o : OCTETSTRING) : Z :=
  SizePrimitiveSubBytes tagOctetString (V_OCTETSTRING o).

Definition OCTETSTRING_sizeTagged (o : OCTETSTRING) (tag : Z) : Z :=
  SizePrimitiveSubBytes tag (V_OCTETSTRING o).

(** ** string.go *)

Definition readTaggedLDAPString (class tag : Z) : Go Bytes LDAPString :=
  wrapErr "readTaggedLDAPString:" (readTaggedOCTETSTRING class tag).

Definition readLDAPString : Go Bytes LDAPString := readTaggedLDAPString classUniversal tagOctetString.
Definition LDAPString_write (s : LDAPString) : Go Bytes Z := OCTETSTRING_write s.
Definition LDAPString_writeTagged (s : LDAPString) (class tag : Z) : Go Bytes Z :=
  OCTETSTRING_writeTagged s class tag.
Definition LDAPString_size (s : LDAPString) : Z := OCTETSTRING_size s.
Definition LDAPString_sizeTagged (s : LDAPString) (tag : Z) : Z := OCTETSTRING_sizeTagged s tag.

(** ** dn.go and relative_ldap_dn.go *)

Definition readLDAPDN : Go Bytes LDAPDN := wrapErr "readLDAPDN:" readLDAPString.
Definition readTaggedLDAPDN (class tag : Z) : Go Bytes LDAPDN :=
  wrapErr "readTaggedLDAPDN:" (readTaggedLDAPString class tag).
Definition readRelativeLDAPDN : Go Bytes RelativeLDAPDN :=
  wrapErr "readRelativeLDAPDN:" readLDAPString.
Definition LDAPDN_write (l : LDAPDN) : Go Bytes Z := LDAPString_write l.
Definition LDAPDN_writeTagged (l : LDAPDN) (class tag : Z) : Go Bytes Z :=
  LDAPString_writeTagged l class tag.
Definition LDAPDN_size (l : LDAPDN) : Z := LDAPString_size l.
Definition LDAPDN_sizeTagged (l : LDAPDN) (tag : Z) : Z := LDAPString_sizeTagged l tag.
Definition RelativeLDAPDN_write (r : RelativeLDAPDN) : Go Bytes Z := LDAPString_write r.
Definition RelativeLDAPDN_size (r : RelativeLDAPDN) : Z := LDAPString_size r.

(** ** oid.go *)

Definition readTaggedLDAPOID (class tag : Z) : Go Bytes LDAPOID :=
  wrapErr "readTaggedLDAPOID:" (readTaggedOCTETSTRING class tag).
Definition readLDAPOID : Go Bytes LDAPOID := readTaggedLDAPOID classUniversal tagOctetString.
Definition LDAPOID_write (l : LDAPOID) : Go Bytes Z := OCTETSTRING_write l.
Definition LDAPOID_writeTagged (l : LDAPOID) (class tag : Z) : Go Bytes Z :=
  OCTETSTRING_writeTagged l class tag.
Definition LDAPOID_size (l : LDAPOID) : Z := OCTETSTRING_size l.
Definition LDAPOID_sizeTagged (l : LDAPOID) (tag : Z) : Z := OCTETSTRING_sizeTagged l tag.

(** ** uri.go *)

Definition readURI : Go Bytes URI := wrapErr "readURI:" readLDAPString.
Definition URI_write (u : URI) : Go Bytes Z := LDAPString_write u.
Definition URI_size (u : URI) : Z := LDAPString_size u.

(** ** attribute_description.go *)

Definition readAttributeDescription : Go Bytes AttributeDescription :=
  wrapErr "readAttributeDescription:" readLDAPString.
Definition readTaggedAttributeDescription (class tag : Z) : Go Bytes AttributeDescription :=
  wrapErr "readTaggedAttributeDescription:" (readTaggedLDAPString class tag).
Definition AttributeDescription_size (d : AttributeDescription) : Z := LDAPString_size d.
Definition AttributeDescription_sizeTagged (d : AttributeDescription) (tag : Z) : Z :=
  LDAPString_sizeTagged d tag.
Definition AttributeDescription_write (d : AttributeDescription) : Go Bytes Z :=
  LDAPString_write d.
Definition AttributeDescription_writeTagged (d : AttributeDescription) (class tag : Z)
    : Go Bytes Z := LDAPString_writeTagged d class tag.

(** ** attribute_value.go, assertion_value.go, matching_rule_id.go *)

Definition readAttributeValue : Go Bytes AttributeValue :=
  wrapErr "readAttributeValue:" readOCTETSTRING.
Definition AttributeValue_write (v : AttributeValue) : Go Bytes Z := OCTETSTRING_write v.
Definition AttributeValue_size (v : AttributeValue) : Z := OCTETSTRING_size v.

Definition readAssertionValue : Go Bytes AssertionValue :=
  wrapErr "readAssertionValue:" readOCTETSTRING.
Definition readTaggedAssertionValue (class tag : Z) : Go Bytes AssertionValue :=
  wrapErr "readTaggedAssertionValue:" (readTaggedOCTETSTRING class tag).
Definition AssertionValue_size (a : AssertionValue) : Z := OCTETSTRING_size a.
Definition AssertionValue_sizeTagged (a : AssertionValue) (tag : Z) : Z :=
  OCTETSTRING_sizeTagged a tag.
Definition AssertionValue_write (a : AssertionValue) : Go Bytes Z := OCTETSTRING_write a.
Definition AssertionValue_writeTagged (a : AssertionValue) (class tag : Z) : Go Bytes Z :=
  OCTETSTRING_writeTagged a class tag.

Definition readTaggedMatchingRuleID (class tag : Z) : Go Bytes MatchingRuleID :=
  wrapErr "readTaggedMatchingRuleId:" (readTaggedLDAPString class tag).
Definition MatchingRuleID_writeTagged (m : MatchingRuleID) (class tag : Z) : Go Bytes Z :=
  LDAPString_writeTagged m class tag.
Definition MatchingRuleID_sizeTagged (m : MatchingRuleID) (tag : Z) : Z :=
  LDAPString_sizeTagged m tag.

Create Rewrite HintDb sizes.

(** ** Denotations *)

Definition contents (v : value) : list byte :=
  match v with
  | V_BOOLEAN b => primitive_contents (PBool b)
  | V_INTEGER i => primitive_contents (PInt32 i)
  | V_ENUMERATED i => primitive_contents (PInt32 i)
  | V_OCTETSTRING s => primitive_contents (PBytes (bytes_of s))
  end.

Definition enc_int (class tag i : Z) : list byte := tlv class false tag (contents (V_INTEGER i)).
Definition enc_bool (class tag : Z) (b : bool) : list byte :=
  tlv class false tag (contents (V_BOOLEAN b)).
Definition enc_str (class tag : Z) (s : string) : list byte :=
  tlv class false tag (contents (V_OCTETSTRING s)).

#[global] Arguments enc_int : simpl never.
#[global] Arguments enc_bool : simpl never.
#[global] Arguments enc_str : simpl never.

(** The encodings with the universal tags. *)
Abbreviation enc_INTEGER := (enc_int classUniversal tagInteger).
Abbreviation enc_ENUMERATED := (enc_int classUniversal tagEnum).
Abbreviation enc_BOOLEAN := (enc_bool classUniversal tagBoolean).
Abbreviation enc_OCTETSTRING := (enc_str classUniversal tagOctetString).

Lemma fits_str (class tag : Z) (s : string) :
  fits (enc_str class tag s) -> fits (contents (V_OCTETSTRING s)).
Proof. apply (fits_tlv class tag false). Qed.

(** ** Writing and sizes *)

Definition value_ok (v : value) : Prop :=
  match v with
  | V_INTEGER i | V_ENUMERATED i => in_int32 i
  | _ => True
  end.

Lemma len_contents v :
  value_ok v ->
  match v with
  | V_BOOLEAN _ => sizeBool
  | V_INTEGER i => sizeInt32 i
  | V_ENUMERATED i => sizeInt32 i
  | V_OCTETSTRING s => sizeOctetString (bytes_of s)
  end = len (contents v).
Proof.
  assert (forall i, in_int32 i -> sizeInt64 i = Z.of_nat (Z.to_nat (sizeInt64 i))) as Hsz.
  { intros i Hi. destruct (sizeInt64_spec i) as [? _]; [unfold in_int32, in_int64 in *; lia|].
    lia. }
  destruct v as [b|i|i|s]; cbn [value_ok contents primitive_contents]; intros Hv.
  - reflexivity.
  - unfold len. rewrite length_int64_bytes. now apply Hsz.
  - unfold len. rewrite length_int64_bytes. now apply Hsz.
  - reflexivity.
Qed.

Lemma writes_value class tag v :
  short_tag class tag -> value_ok v -> fits (contents v) ->
  writes 0 (WritePrimitiveSubBytes class tag v) (tlv class false tag (contents v)).
Proof.
  intros Hst Hv Hf. unfold WritePrimitiveSubBytes.
  apply (writes_tlv _ class tag false); [done|done|].
  pose proof (len_contents v Hv) as Hl.
  destruct v as [[]|i|i|s]; cbn [contents primitive_contents value_ok] in *.
  - apply writes_bytes.
  - apply writes_bytes.
  - unfold writeInt32, writeInt64. destruct (sizeInt64_spec i) as [Hs _];
      [unfold in_int32, in_int64 in *; lia|].
    rewrite (proj2 (Z.ltb_ge 8 (sizeInt64 i))) by lia.
    apply writes_seq_count; [apply writes_bytes | exact Hl].
  - unfold writeInt32, writeInt64. destruct (sizeInt64_spec i) as [Hs _];
      [unfold in_int32, in_int64 in *; lia|].
    rewrite (proj2 (Z.ltb_ge 8 (sizeInt64 i))) by lia.
    apply writes_seq_count; [apply writes_bytes | exact Hl].
  - apply writes_bytes.
Qed.

Lemma size_value class tag v :
  short_tag class tag -> value_ok v -> fits (contents v) ->
  SizePrimitiveSubBytes tag v = len (tlv class false tag (contents v)).
Proof.
  intros Hst Hv Hf. unfold SizePrimitiveSubBytes. rewrite len_tlv by done.
  now rewrite (len_contents v Hv).
Qed.

(** ** Reading *)

Lemma reads_int class tag i :
  short_tag class tag -> in_int32 i ->
  fits (contents (V_INTEGER i)) ->
  reads (readTaggedINTEGER class tag) (enc_int class tag i) i.
Proof.
  intros Hst Hi Hf. unfold readTaggedINTEGER, enc_int.
  eapply readsP_last; [apply readsP_wrap, (reads_primitive _ _ _ (PInt32 i))|]; [done|done| |].
  - split; [now left|done].
  - apply readsP_ret.
Qed.

Lemma reads_positive class tag i :
  short_tag class tag -> 0 <= i < 2 ^ 31 ->
  fits (contents (V_INTEGER i)) ->
  reads (readTaggedPositiveINTEGER class tag) (enc_int class tag i) i.
Proof.
  intros Hst Hi Hf. unfold readTaggedPositiveINTEGER.
  eapply readsP_last; [apply readsP_wrap, reads_int; [done| |done]|].
  - unfold in_int32. lia.
  - destruct (Z.ltb_spec i 0); [lia|].
    destruct (Z.ltb_spec maxInt i); [unfold maxInt in *; lia|]. apply readsP_ret.
Qed.

Lemma reads_enum values e :
  allowed values e = true -> in_int32 e -> fits (contents (V_ENUMERATED e)) ->
  reads (readENUMERATED values) (enc_ENUMERATED e) e.
Proof.
  intros Ha He Hf. unfold readENUMERATED, enc_int.
  eapply readsP_last; [apply readsP_wrap, (reads_primitive _ _ _ (PInt32 e))|]; [tag_side|done| |].
  - split; [now right|done].
  - eapply readsP_last; [apply readsP_ret|]. rewrite Ha. apply readsP_ret.
Qed.

Lemma reads_bool class tag b :
  short_tag class tag -> reads (readTaggedBOOLEAN class tag) (enc_bool class tag b) b.
Proof.
  intros Hst. unfold readTaggedBOOLEAN, enc_bool.
  eapply readsP_last; [apply readsP_wrap, (reads_primitive _ _ _ (PBool b))|]; [done| |done|].
  - unfold fits. destruct b; reflexivity.
  - apply readsP_ret.
Qed.

Lemma reads_str class tag s :
  short_tag class tag -> fits (enc_str class tag s) ->
  reads (readTaggedOCTETSTRING class tag) (enc_str class tag s) s.
Proof.
  intros Hst Hf. unfold readTaggedOCTETSTRING, enc_str.
  eapply readsP_last;
    [apply readsP_wrap, (reads_primitive _ _ _ (PBytes (bytes_of s)))|]; [done| |done|].
  - exact (fits_tlv class tag false _ Hf).
  - eapply readsP_last; [apply readsP_ret|]. rewrite string_of_bytes_of. apply readsP_ret.
Qed.

(** *** The untagged readers *)

Lemma reads_INTEGER i :
  in_int32 i -> fits (enc_INTEGER i) -> reads readINTEGER (enc_INTEGER i) i.
Proof.
  intros Hi Hf. unfold readINTEGER.
  eapply readsP_last; [apply readsP_wrap, (reads_primitive _ _ _ (PInt32 i))|]; [tag_side| | |].
  - exact (fits_tlv classUniversal tagInteger false _ Hf).
  - split; [now left|done].
  - apply readsP_ret.
Qed.

Lemma reads_BOOLEAN b : reads readBOOLEAN (enc_BOOLEAN b) b.
Proof.
  unfold readBOOLEAN.
  eapply readsP_last; [apply readsP_wrap, (reads_primitive _ _ _ (PBool b))|]; [tag_side| |done|].
  - unfold fits. destruct b; reflexivity.
  - apply readsP_ret.
Qed.

Lemma reads_OCTETSTRING s :
  fits (enc_OCTETSTRING s) -> reads readOCTETSTRING (enc_OCTETSTRING s) s.
Proof.
  intros Hf. unfold readOCTETSTRING.
  eapply readsP_last;
    [apply readsP_wrap, (reads_primitive _ _ _ (PBytes (bytes_of s)))|]; [tag_side| |done|].
  - exact (fits_tlv classUniversal tagOctetString false _ Hf).
  - eapply readsP_last; [apply readsP_ret|]. rewrite string_of_bytes_of. apply readsP_ret.
Qed.

(** The named string types all read the octet string they wrap. *)
Lemma reads_LDAPString s :
  fits (enc_OCTETSTRING s) -> reads readLDAPString (enc_OCTETSTRING s) s.
Proof. intros Hf. apply readsP_wrap, reads_str; [tag_side | done]. Qed.

Lemma reads_wrapped_string fn s :
  fits (enc_OCTETSTRING s) -> reads (wrapErr fn readLDAPString) (enc_OCTETSTRING s) s.
Proof. intros Hf. now apply readsP_wrap, reads_LDAPString. Qed.

Lemma reads_wrapped_octets fn s :
  fits (enc_OCTETSTRING s) -> reads (wrapErr fn readOCTETSTRING) (enc_OCTETSTRING s) s.
Proof. intros Hf. now apply readsP_wrap, reads_OCTETSTRING. Qed.

Lemma reads_wrapped_tagged fn class tag s :
  short_tag class tag -> fits (enc_str class tag s) ->
  reads (wrapErr fn (readTaggedOCTETSTRING class tag)) (enc_str class tag s) s.
Proof. intros Hst Hf. now apply readsP_wrap, reads_str. Qed.

(** ** Writers and sizes by denotation *)

Lemma writes_int class tag i :
  short_tag class tag -> in_int32 i -> fits (enc_int class tag i) ->
  writes 0 (WritePrimitiveSubBytes class tag (V_INTEGER i)) (enc_int class tag i).
Proof.
  intros Hst Hi Hf. apply writes_value; [done..|]. exact (fits_tlv class tag false _ Hf).
Qed.

Lemma writes_enum class tag i :
  short_tag class tag -> in_int32 i -> fits (enc_int class tag i) ->
  writes 0 (WritePrimitiveSubBytes class tag (V_ENUMERATED i)) (enc_int class tag i).
Proof.
  intros Hst Hi Hf. apply (writes_value class tag (V_ENUMERATED i)); [done..|].
  exact (fits_tlv class tag false _ Hf).
Qed.

Lemma fits_bool b : fits (contents (V_BOOLEAN b)).
Proof. destruct b; reflexivity. Qed.

Lemma writes_bool class tag b :
  short_tag class tag ->
  writes 0 (WritePrimitiveSubBytes class tag (V_BOOLEAN b)) (enc_bool class tag b).
Proof. intros Hst. apply writes_value; [done..|]. now apply fits_bool. Qed.

Lemma writes_str class tag s :
  short_tag class tag -> fits (enc_str class tag s) ->
  writes 0 (WritePrimitiveSubBytes class tag (V_OCTETSTRING s)) (enc_str class tag s).
Proof.
  intros Hst Hf. apply writes_value; [done..|]. exact (fits_tlv class tag false _ Hf).
Qed.

Lemma size_int class tag i :
  short_tag class tag -> in_int32 i -> fits (enc_int class tag i) ->
  SizePrimitiveSubBytes tag (V_INTEGER i) = len (enc_int class tag i).
Proof.
  intros Hst Hi Hf. apply size_value; [done..|]. exact (fits_tlv class tag false _ Hf).
Qed.

Lemma size_enum class tag i :
  short_tag class tag -> in_int32 i -> fits (enc_int class tag i) ->
  SizePrimitiveSubBytes tag (V_ENUMERATED i) = len (enc_int class tag i).
Proof.
  intros Hst Hi Hf. apply (size_value class tag (V_ENUMERATED i)); [done..|].
  exact (fits_tlv class tag false _ Hf).
Qed.

Lemma size_bool class tag b :
  short_tag class tag ->
  SizePrimitiveSubBytes tag (V_BOOLEAN b) = len (enc_bool class tag b).
Proof. intros Hst. apply size_value; [done..|]. now apply fits_bool. Qed.

Lemma size_str class tag s :
  short_tag class tag -> fits (enc_str class tag s) ->
  SizePrimitiveSubBytes tag (V_OCTETSTRING s) = len (enc_str class tag s).
Proof.
  intros Hst Hf. apply size_value; [done..|]. exact (fits_tlv class tag false _ Hf).
Qed.

(** An encoded [int32] takes at most six bytes. *)
Lemma fits_int class tag i : short_tag class tag -> in_int32 i -> fits (enc_int class tag i).
Proof.
  intros Hst Hi.
  assert (len (contents (V_INTEGER i)) <= 8) as Hl.
  { rewrite <- (len_contents (V_INTEGER i)) by done. unfold sizeInt32.
    destruct (sizeInt64_spec i); [unfold in_int32, in_int64 in *; lia|]. lia. }
  unfold fits, enc_int. rewrite len_tlv by (try done; unfold fits; lia).
  destruct Hst as [_ Ht]. unfold sizeTagAndLength.
  destruct (Z.leb_spec 31 tag); [lia|].
  destruct (Z.leb_spec 128 (len (contents (V_INTEGER i)))); lia.
Qed.

(** ** Termination *)

Lemma terminates_assert_int32 n v : terminates n 0 (assert_int32 v).
Proof. destruct v; [apply terminates_panic|apply terminates_ret|apply terminates_panic]. Qed.

Lemma terminates_assert_bool n v : terminates n 0 (assert_bool v).
Proof. destruct v; [apply terminates_ret|apply terminates_panic|apply terminates_panic]. Qed.

Lemma terminates_assert_bytes n v : terminates n 0 (assert_bytes v).
Proof. destruct v; [apply terminates_panic|apply terminates_panic|apply terminates_ret]. Qed.

#[export] Hint Resolve terminates_assert_int32 terminates_assert_bool terminates_assert_bytes
  terminates_primitive terminates_preview terminates_ret terminates_fail terminates_panic
  : terminates.

(** Termination of straight-line readers: sequences, wrapped errors and
    branches; the leaves come from the [terminates] hints. *)
Ltac terminates_step :=
  lazymatch goal with
  | |- terminates _ _ (wrapErr _ _) => apply terminates_wrap
  | |- terminates _ _ (wrapf _ _ _) => apply terminates_wrapf
  | |- terminates _ _ (bind _ _) => apply terminates_bind_l; [lia| |intros ?; cbn beta]
  | |- terminates _ _ (readOptional _ _ _) => apply terminates_optional
  | |- terminates _ _ (readMore _ _) => apply terminates_more
  | |- terminates _ 2 (ReadSubBytes _ _ _) => apply terminates_sub
  | |- terminates _ _ (readAll _) => apply terminates_all; intros ?
  | |- terminates _ _ (if ?c then _ else _) => destruct c
  | |- terminates _ _ (match ?c with _ => _ end) => destruct c
  | |- terminates _ 0 (lift _) => apply terminates_lift
  | |- terminates _ 0 (forHasMoreData _ _) => apply terminates_loop; intros ?
  | |- terminates _ _ (ReadSubBytes _ _ _) =>
      eapply terminates_weaken; [apply terminates_sub|lia]
  | |- terminates _ _ _ => eapply terminates_weaken; [solve [eauto with terminates]|lia]
  end.

Ltac terminates_auto := repeat first [ solve [eauto with terminates] | terminates_step ].

Lemma terminates_INTEGER n : terminates n 2 readINTEGER.
Proof. unfold readINTEGER. terminates_auto. Qed.
Lemma terminates_taggedINTEGER n class tag : terminates n 2 (readTaggedINTEGER class tag).
Proof. unfold readTaggedINTEGER. terminates_auto. Qed.
#[export] Hint Resolve terminates_INTEGER terminates_taggedINTEGER : terminates.
Lemma terminates_positive n class tag : terminates n 2 (readTaggedPositiveINTEGER class tag).
Proof. unfold readTaggedPositiveINTEGER. terminates_auto. Qed.
#[export] Hint Resolve terminates_positive : terminates.
Lemma terminates_positiveINTEGER n : terminates n 2 readPositiveINTEGER.
Proof. unfold readPositiveINTEGER. terminates_auto. Qed.
Lemma terminates_taggedMessageID n class tag : terminates n 2 (readTaggedMessageID class tag).
Proof. unfold readTaggedMessageID. terminates_auto. Qed.
#[export] Hint Resolve terminates_positiveINTEGER terminates_taggedMessageID : terminates.
Lemma terminates_messageID n : terminates n 2 readMessageID.
Proof. unfold readMessageID. terminates_auto. Qed.
Lemma terminates_BOOLEAN n : terminates n 2 readBOOLEAN.
Proof. unfold readBOOLEAN. terminates_auto. Qed.
Lemma terminates_taggedBOOLEAN n class tag : terminates n 2 (readTaggedBOOLEAN class tag).
Proof. unfold readTaggedBOOLEAN. terminates_auto. Qed.
Lemma terminates_ENUMERATED n values : terminates n 2 (readENUMERATED values).
Proof. unfold readENUMERATED. terminates_auto. Qed.
Lemma terminates_OCTETSTRING n : terminates n 2 readOCTETSTRING.
Proof. unfold readOCTETSTRING. terminates_auto. Qed.
Lemma terminates_taggedOCTETSTRING n class tag : terminates n 2 (readTaggedOCTETSTRING class tag).
Proof. unfold readTaggedOCTETSTRING. terminates_auto. Qed.
#[export] Hint Resolve terminates_messageID terminates_BOOLEAN terminates_taggedBOOLEAN
  terminates_ENUMERATED terminates_OCTETSTRING terminates_taggedOCTETSTRING : terminates.
Lemma terminates_taggedLDAPString n class tag : terminates n 2 (readTaggedLDAPString class tag).
Proof. unfold readTaggedLDAPString. terminates_auto. Qed.
#[export] Hint Resolve terminates_taggedLDAPString : terminates.
Lemma terminates_LDAPString n : terminates n 2 readLDAPString.
Proof. unfold readLDAPString. terminates_auto. Qed.
#[export] Hint Resolve terminates_LDAPString : terminates.

#[export] Hint Resolve terminates_wrap : terminates.

(** The remaining string readers and all writers and sizes of the primitive
    types are wrappers. *)
#[export] Hint Unfold readLDAPDN readTaggedLDAPDN readRelativeLDAPDN readTaggedLDAPOID
  readLDAPOID readURI readAttributeDescription readTaggedAttributeDescription
  readAttributeValue readAssertionValue readTaggedAssertionValue readTaggedMatchingRuleID
  readMessageID readTaggedMessageID readPositiveINTEGER
  readTaggedLDAPString
  INTEGER_write INTEGER_writeTagged INTEGER_size INTEGER_sizeTagged
  MessageID_write MessageID_writeTagged MessageID_size MessageID_sizeTagged
  BOOLEAN_write BOOLEAN_writeTagged BOOLEAN_size BOOLEAN_sizeTagged
  ENUMERATED_write ENUMERATED_writeTagged ENUMERATED_size
  OCTETSTRING_write OCTETSTRING_writeTagged OCTETSTRING_size OCTETSTRING_sizeTagged
  LDAPString_write LDAPString_writeTagged LDAPString_size LDAPString_sizeTagged
  LDAPDN_write LDAPDN_writeTagged LDAPDN_size LDAPDN_sizeTagged
  RelativeLDAPDN_write RelativeLDAPDN_size
  LDAPOID_write LDAPOID_writeTagged LDAPOID_size LDAPOID_sizeTagged
  URI_write URI_size
  AttributeDescription_write AttributeDescription_writeTagged
  AttributeDescription_size AttributeDescription_sizeTagged
  AttributeValue_write AttributeValue_size
  AssertionValue_write AssertionValue_writeTagged AssertionValue_size AssertionValue_sizeTagged
  MatchingRuleID_writeTagged MatchingRuleID_sizeTagged
  : prims.

#[export] Hint Resolve writes_int writes_enum writes_bool writes_str
  reads_int reads_positive reads_enum reads_bool reads_str
  reads_INTEGER reads_BOOLEAN reads_OCTETSTRING reads_LDAPString readsP_wrap
  fits_bool : codec.
Lemma size_enum_int tag i :
  SizePrimitiveSubBytes tag (V_ENUMERATED i) = SizePrimitiveSubBytes tag (V_INTEGER i).
Proof. reflexivity. Qed.
#[export] Hint Rewrite size_enum_int : sizes.
#[export] Hint Rewrite <- size_int size_bool size_str
  using (first [tag_side | fits_side | assumption]) : sizes.

#[export] Hint Rewrite len_tlv using (first [tag_side | fits_side | assumption]) : sizes.

(** The names of the string types are not told apart. *)
Create HintDb prim_types.
#[export] Hint Unfold AttributeValue AttributeDescription AssertionValue MatchingRuleID URI
  LDAPString LDAPDN RelativeLDAPDN LDAPOID OCTETSTRING : prim_types.

(** Sizes: both sides are sums of the sizes of the components. *)
Ltac size_sum :=
  autounfold with prims;
  repeat (progress (len_simpl; autorewrite with sizes));
  autounfold with prims prim_types; len_simpl; lia.

Ltac size_auto :=
  lazymatch goal with
  | |- _ = len (tlv _ _ _ _) => apply size_tlv; [size_sum | tag_side | tag_side | assumption]
  | |- _ => size_sum
  end.

(** ** The octet strings as a codec *)

#[export, program] Instance OCTETSTRING_Codec : Codec OCTETSTRING := {|
  enc := enc_OCTETSTRING;
  wf := fun _ => True;
  c_write := OCTETSTRING_write;
  c_size := OCTETSTRING_size;
  c_read := readOCTETSTRING
|}.
Next Obligation. intros a _ Hf. now apply writes_str; [tag_side|]. Qed.
Next Obligation. intros a _ Hf. now apply size_str; [tag_side|]. Qed.
Next Obligation. intros a _ Hf. now apply reads_OCTETSTRING. Qed.
Next Obligation. intros a. apply tlv_nonempty. Qed.
