(* ===== verification/LdapAttr.v ===== *)
(** * Attributes, results, controls and credentials

    lib/ldapsrv/goldap: attribute_value_assertion.go, partial_attribute.go,
    attribute.go, attribute_list.go, partial_attribute_list.go,
    attribute_selection.go, referral.go, result.go, control.go, controls.go,
    sasl_credentials.go and authentication_choice.go.  For every type: the
    definitions that translate its methods, its denotation as bytes, and the
    contract of Codec.v. *)

From S2P Require Import Prelude Asn1 Codec LdapTypes LdapPrim.
From Stdlib Require Import Strings.Byte.

(** ** Lists of octet strings, under the names they are read with *)

Definition enc_strings (l : list OCTETSTRING) : list byte := concat (map enc_OCTETSTRING l).
#[global] Arguments enc_strings : simpl never.

Lemma writes_strings (l : list OCTETSTRING) (k : Z) :
  fits (enc_strings l) -> writes k (writeBackward OCTETSTRING_write l k) (enc_strings l).
Proof. apply (writes_list OCTETSTRING_Codec), Forall_true. done. Qed.

Lemma size_strings (l : list OCTETSTRING) :
  fits (enc_strings l) -> sumSizes OCTETSTRING_size l = len (enc_strings l).
Proof. apply (size_list OCTETSTRING_Codec), Forall_true. done. Qed.

(** A reader of octet strings, repeated to the end of the buffer. *)
Lemma readsEnd_strings (rd : Go Bytes OCTETSTRING) fn (l : list OCTETSTRING) :
  (forall s, fits (enc_OCTETSTRING s) -> reads rd (enc_OCTETSTRING s) s) ->
  fits (enc_strings l) ->
  readsEnd (readAll (fun _ => wrapErr fn rd)) (enc_strings l) l.
Proof.
  intros Hrd Hf. apply readsEnd_all. apply fits_concat in Hf.
  eapply Forall_impl; [exact Hf|]. intros s Hs. split; [apply tlv_nonempty|].
  intros _. now apply readsP_wrap, Hrd.
Qed.

Lemma reads_values fn l :
  fits (enc_strings l) ->
  readsEnd (readAll (fun _ => wrapErr fn readAttributeValue)) (enc_strings l) l.
Proof. apply readsEnd_strings. apply reads_wrapped_octets. Qed.

Lemma reads_strings fn l :
  fits (enc_strings l) ->
  readsEnd (readAll (fun _ => wrapErr fn readLDAPString)) (enc_strings l) l.
Proof. apply readsEnd_strings. apply reads_LDAPString. Qed.

Lemma reads_uris fn l :
  fits (enc_strings l) -> readsEnd (readAll (fun _ => wrapErr fn readURI)) (enc_strings l) l.
Proof. apply readsEnd_strings. apply reads_wrapped_string. Qed.

#[export] Hint Rewrite <- size_strings using assumption : sizes.
#[export] Hint Resolve writes_strings reads_values reads_strings reads_uris reads_sub : codec.

(** ** attribute_value_assertion.go *)

Definition AttributeValueAssertion_readComponents : Go Bytes AttributeValueAssertion :=
  attributeDesc <-- wrapErr "readComponents:" readAttributeDescription ;;
  assertionValue <-- wrapErr "readComponents:" readAssertionValue ;;
  ret (mkAttributeValueAssertion attributeDesc assertionValue).

Definition readAttributeValueAssertion : Go Bytes AttributeValueAssertion :=
  wrapErr "readAttributeValueAssertion:"
    (ReadSubBytes classUniversal tagSequence AttributeValueAssertion_readComponents).

Definition readTaggedAttributeValueAssertion (class tag : Z) : Go Bytes AttributeValueAssertion :=
  wrapErr "readTaggedAttributeValueAssertion:"
    (ReadSubBytes class tag AttributeValueAssertion_readComponents).

Definition AttributeValueAssertion_writeTagged (assertion : AttributeValueAssertion)
    (class tag : Z) : Go Bytes Z :=
  size <-- 0 += AssertionValue_write (assertionValue assertion) ;;
  size <-- size += AttributeDescription_write (attributeDesc assertion) ;;
  size += WriteTagAndLength class isCompound tag size.

Definition AttributeValueAssertion_write (assertion : AttributeValueAssertion) : Go Bytes Z :=
  size <-- 0 += AssertionValue_write (assertionValue assertion) ;;
  size <-- size += AttributeDescription_write (attributeDesc assertion) ;;
  size += WriteTagAndLength classUniversal isCompound tagSequence size.

Definition AttributeValueAssertion_sizeTagged (assertion : AttributeValueAssertion) (tag : Z) : Z :=
  let size := 0 + AttributeDescription_size (attributeDesc assertion) in
  let size := size + AssertionValue_size (assertionValue assertion) in
  size + sizeTagAndLength tag size.

Definition AttributeValueAssertion_size (assertion : AttributeValueAssertion) : Z :=
  let size := 0 + AttributeDescription_size (attributeDesc assertion) in
  let size := size + AssertionValue_size (assertionValue assertion) in
  size + sizeTagAndLength tagSequence size.

Definition ava_contents (a : AttributeValueAssertion) : list byte :=
  enc_OCTETSTRING (attributeDesc a) ++ enc_OCTETSTRING (assertionValue a).

Lemma writes_ava (a : AttributeValueAssertion) (class tag : Z) :
  short_tag class tag -> fits (ava_contents a) ->
  writes 0 (AttributeValueAssertion_writeTagged a class tag) (tlv class true tag (ava_contents a)).
Proof.
  intros Hst Hf. unfold ava_contents in *. fits_inv.
  unfold AttributeValueAssertion_writeTagged. writes_auto.
Qed.

Lemma size_ava (a : AttributeValueAssertion) (class tag : Z) :
  short_tag class tag -> fits (ava_contents a) ->
  AttributeValueAssertion_sizeTagged a tag = len (tlv class true tag (ava_contents a)).
Proof.
  intros Hst Hf. unfold AttributeValueAssertion_sizeTagged.
  apply size_tlv; [|done..].
  unfold ava_contents in *. fits_inv. size_auto.
Qed.

Lemma reads_ava_components (a : AttributeValueAssertion) :
  fits (ava_contents a) ->
  readsEnd AttributeValueAssertion_readComponents (ava_contents a) a.
Proof.
  intros Hf. destruct a. unfold AttributeValueAssertion_readComponents, ava_contents in *.
  cbn in *. fits_inv. reads_auto.
Qed.

Lemma reads_ava (a : AttributeValueAssertion) (class tag : Z) :
  short_tag class tag -> fits (ava_contents a) ->
  reads (readTaggedAttributeValueAssertion class tag) (tlv class true tag (ava_contents a)) a.
Proof. intros Hst Hf. now apply readsP_wrap, reads_sub, reads_ava_components. Qed.

Lemma terminates_ava n class tag : terminates n 2 (readTaggedAttributeValueAssertion class tag).
Proof.
  unfold readTaggedAttributeValueAssertion, AttributeValueAssertion_readComponents.
  autounfold with prims. terminates_auto.
Qed.
#[export] Hint Resolve terminates_ava : terminates.

#[export, program] Instance AVA_Codec : Codec AttributeValueAssertion := {|
  enc := fun a => tlv classUniversal true tagSequence (ava_contents a);
  wf := fun _ => True;
  c_write := AttributeValueAssertion_write;
  c_size := AttributeValueAssertion_size;
  c_read := readAttributeValueAssertion
|}.
Next Obligation. intros a _ Hf. apply writes_ava; [tag_side|exact (fits_tlv _ _ _ _ Hf)]. Qed.
Next Obligation. intros a _ Hf. apply size_ava; [tag_side|exact (fits_tlv _ _ _ _ Hf)]. Qed.
Next Obligation.
  intros a _ Hf. apply readsP_wrap, reads_sub, reads_ava_components; [tag_side|exact (fits_tlv _ _ _ _ Hf)..].
Qed.
Next Obligation. intros a. apply tlv_nonempty. Qed.

(** ** partial_attribute.go and partial_attribute_list.go *)

Definition PartialAttribute_readValsComponents : Go Bytes (list AttributeValue) :=
  readAll (fun _ => wrapErr "readValsComponents:" readAttributeValue).

Definition PartialAttribute_readComponents : Go Bytes PartialAttribute :=
  type_ <-- wrapErr "readComponents:" readAttributeDescription ;;
  vals <-- wrapErr "readComponents:"
             (ReadSubBytes classUniversal tagSet PartialAttribute_readValsComponents) ;;
  ret (mkPartialAttribute type_ vals).

Definition readPartialAttribute : Go Bytes PartialAttribute :=
  wrapErr "readPartialAttribute:"
    (ReadSubBytes classUniversal tagSequence PartialAttribute_readComponents).

Definition PartialAttribute_write (p : PartialAttribute) : Go Bytes Z :=
  size <-- writeBackward AttributeValue_write (pa_vals p) 0 ;;
  size <-- size += WriteTagAndLength classUniversal isCompound tagSet size ;;
  size <-- size += AttributeDescription_write (pa_type p) ;;
  size += WriteTagAndLength classUniversal isCompound tagSequence size.

Definition PartialAttribute_size (p : PartialAttribute) : Z :=
  let size := sumSizes AttributeValue_size (pa_vals p) in
  let size := size + sizeTagAndLength tagSet size in
  let size := size + AttributeDescription_size (pa_type p) in
  size + sizeTagAndLength tagSequence size.

Definition pa_set (p : PartialAttribute) : list byte := enc_strings (pa_vals p).

Definition pa_contents (p : PartialAttribute) : list byte :=
  enc_OCTETSTRING (pa_type p) ++ tlv classUniversal true tagSet (pa_set p).

#[export, program] Instance PartialAttribute_Codec : Codec PartialAttribute := {|
  enc := fun p => tlv classUniversal true tagSequence (pa_contents p);
  wf := fun _ => True;
  c_write := PartialAttribute_write;
  c_size := PartialAttribute_size;
  c_read := readPartialAttribute
|}.
Next Obligation.
  intros p _ Hf. unfold pa_contents, pa_set in *. fits_inv. unfold PartialAttribute_write.
  writes_auto.
Qed.
Next Obligation.
  intros p _ Hf. unfold pa_contents, pa_set in *. unfold PartialAttribute_size.
  fits_inv. size_auto.
Qed.
Next Obligation.
  intros [type_ vals] _ Hf. unfold pa_contents, pa_set in *. cbn in *. fits_inv.
  apply readsP_wrap, reads_sub; [tag_side|done|]. unfold PartialAttribute_readComponents. reads_auto.
Qed.
Next Obligation. intros p. apply tlv_nonempty. Qed.

(** The contract of a partial attribute, spelled out. *)
Lemma writes_pa p :
  fits (tlv classUniversal true tagSequence (pa_contents p)) ->
  writes 0 (PartialAttribute_write p) (tlv classUniversal true tagSequence (pa_contents p)).
Proof. exact (c_writes p I). Qed.

Lemma size_pa p :
  fits (tlv classUniversal true tagSequence (pa_contents p)) ->
  PartialAttribute_size p = len (tlv classUniversal true tagSequence (pa_contents p)).
Proof. exact (c_sizes p I). Qed.

Lemma reads_pa p :
  fits (tlv classUniversal true tagSequence (pa_contents p)) ->
  reads readPartialAttribute (tlv classUniversal true tagSequence (pa_contents p)) p.
Proof. exact (c_reads p I). Qed.
#[export] Hint Resolve writes_pa reads_pa : codec.

Lemma terminates_PartialAttribute n : terminates n 2 readPartialAttribute.
Proof.
  unfold readPartialAttribute, PartialAttribute_readComponents, PartialAttribute_readValsComponents.
  autounfold with prims. terminates_auto.
Qed.
#[export] Hint Resolve terminates_PartialAttribute : terminates.

Definition PartialAttributeList_readComponents : Go Bytes PartialAttributeList :=
  readAll (fun _ => wrapErr "readComponents:" readPartialAttribute).

Definition readPartialAttributeList : Go Bytes PartialAttributeList :=
  wrapErr "readPartialAttributeList:"
    (ReadSubBytes classUniversal tagSequence PartialAttributeList_readComponents).

Definition PartialAttributeList_write (p : PartialAttributeList) : Go Bytes Z :=
  size <-- writeBackward PartialAttribute_write p 0 ;;
  size += WriteTagAndLength classUniversal isCompound tagSequence size.

Definition PartialAttributeList_size (p : PartialAttributeList) : Z :=
  let size := sumSizes PartialAttribute_size p in
  size + sizeTagAndLength tagSequence size.

(** [PartialAttributeList.add] *)
Definition PartialAttributeList_add (p : PartialAttributeList) (a : PartialAttribute)
    : PartialAttributeList := p ++ [a].

(** A SEQUENCE OF, from the codec of its elements. *)
Section SequenceOf.
Context {A : Type} (C : Codec A).

Lemma writes_sequence (l : list A) (class tag : Z) :
  short_tag class tag -> Forall wf l -> fits (enc_list C l) ->
  writes 0 (size <-- writeBackward c_write l 0 ;; size += WriteTagAndLength class isCompound tag size)
    (tlv class true tag (enc_list C l)).
Proof. intros Hst Hwf Hf. apply writes_tlv; [done..|]. now apply writes_list. Qed.

Lemma size_sequence (l : list A) (class tag : Z) :
  short_tag class tag -> Forall wf l -> fits (enc_list C l) ->
  sumSizes c_size l + sizeTagAndLength tag (sumSizes c_size l)
  = len (tlv class true tag (enc_list C l)).
Proof. intros Hst Hwf Hf. apply size_tlv; [now apply size_list|done..]. Qed.

Lemma reads_sequence fn (l : list A) (class tag : Z) :
  short_tag class tag -> Forall wf l -> fits (enc_list C l) ->
  reads (ReadSubBytes class tag (readAll (fun _ => wrapErr fn c_read)))
    (tlv class true tag (enc_list C l)) l.
Proof. intros Hst Hwf Hf. apply reads_sub; [done..|]. now apply reads_list. Qed.
End SequenceOf.

#[export, program] Instance PartialAttributeList_Codec : Codec PartialAttributeList := {|
  enc := fun p => tlv classUniversal true tagSequence (enc_list PartialAttribute_Codec p);
  wf := fun _ => True;
  c_write := PartialAttributeList_write;
  c_size := PartialAttributeList_size;
  c_read := readPartialAttributeList
|}.
Next Obligation.
  intros p _ Hf. apply (writes_sequence PartialAttribute_Codec);
    [tag_side|now apply Forall_true|exact (fits_tlv _ _ _ _ Hf)].
Qed.
Next Obligation.
  intros p _ Hf. apply (size_sequence PartialAttribute_Codec);
    [tag_side|now apply Forall_true|exact (fits_tlv _ _ _ _ Hf)].
Qed.
Next Obligation.
  intros p _ Hf. apply readsP_wrap, (reads_sequence PartialAttribute_Codec);
    [tag_side|now apply Forall_true|exact (fits_tlv _ _ _ _ Hf)].
Qed.
Next Obligation. intros p. apply tlv_nonempty. Qed.

Lemma terminates_PartialAttributeList n : terminates n 2 readPartialAttributeList.
Proof.
  unfold readPartialAttributeList, PartialAttributeList_readComponents. terminates_auto.
Qed.
#[export] Hint Resolve terminates_PartialAttributeList : terminates.

(** ** attribute.go and attribute_list.go *)

Definition readAttribute : Go Bytes Attribute :=
  par <-- wrapErr "readAttribute:" readPartialAttribute ;;
  if len (pa_vals par) =? 0
  then fail (LdapError "readAttribute: expecting at least one value" [])
  else ret par.

Definition Attribute_size (attribute : Attribute) : Z := PartialAttribute_size attribute.
Definition Attribute_write (attribute : Attribute) : Go Bytes Z := PartialAttribute_write attribute.

#[program] Definition Attribute_Codec : Codec Attribute := {|
  enc := enc (Codec := PartialAttribute_Codec);
  wf := fun a => pa_vals a <> [];
  c_write := Attribute_write;
  c_size := Attribute_size;
  c_read := readAttribute
|}.
Next Obligation. intros a _ Hf. now apply (c_writes (Codec := PartialAttribute_Codec)). Qed.
Next Obligation. intros a _ Hf. now apply (c_sizes (Codec := PartialAttribute_Codec)). Qed.
Next Obligation.
  intros a Hwf Hf. cbn beta in Hwf. unfold readAttribute.
  eapply readsP_last; [now apply readsP_wrap, (c_reads (Codec := PartialAttribute_Codec))|].
  destruct (Z.eqb_spec (len (pa_vals a)) 0); [|apply readsP_ret].
  destruct (pa_vals a); [done|]. len_lia.
Qed.
Next Obligation. intros a. apply (c_nonempty (Codec := PartialAttribute_Codec)). Qed.

Lemma terminates_Attribute n : terminates n 2 readAttribute.
Proof. unfold readAttribute. terminates_auto. Qed.
#[export] Hint Resolve terminates_Attribute : terminates.

Definition AttributeList_readComponents : Go Bytes AttributeList :=
  readAll (fun _ => wrapErr "readComponents:" readAttribute).

Definition readAttributeList : Go Bytes AttributeList :=
  wrapErr "readAttributeList:"
    (ReadSubBytes classUniversal tagSequence AttributeList_readComponents).

Definition AttributeList_size (list : AttributeList) : Z :=
  let size := sumSizes Attribute_size list in
  size + sizeTagAndLength tagSequence size.

Definition AttributeList_write (list : AttributeList) : Go Bytes Z :=
  size <-- writeBackward Attribute_write list 0 ;;
  size += WriteTagAndLength classUniversal isCompound tagSequence size.

#[program] Definition AttributeList_Codec : Codec AttributeList := {|
  enc := fun l => tlv classUniversal true tagSequence (enc_list Attribute_Codec l);
  wf := Forall (wf (Codec := Attribute_Codec));
  c_write := AttributeList_write;
  c_size := AttributeList_size;
  c_read := readAttributeList
|}.
Next Obligation.
  intros l Hwf Hf. apply (writes_sequence Attribute_Codec);
    [tag_side|done|exact (fits_tlv _ _ _ _ Hf)].
Qed.
Next Obligation.
  intros l Hwf Hf. apply (size_sequence Attribute_Codec);
    [tag_side|done|exact (fits_tlv _ _ _ _ Hf)].
Qed.
Next Obligation.
  intros l Hwf Hf. apply readsP_wrap, (reads_sequence Attribute_Codec);
    [tag_side|done|exact (fits_tlv _ _ _ _ Hf)].
Qed.
Next Obligation. intros p. apply tlv_nonempty. Qed.

Lemma terminates_AttributeList n : terminates n 2 readAttributeList.
Proof. unfold readAttributeList, AttributeList_readComponents. terminates_auto. Qed.
#[export] Hint Resolve terminates_AttributeList : terminates.

(** ** attribute_selection.go *)

Definition AttributeSelection_readComponents : Go Bytes AttributeSelection :=
  readAll (fun _ => wrapErr "readComponents:" readLDAPString).

Definition readAttributeSelection : Go Bytes AttributeSelection :=
  wrapErr "readAttributeSelection:"
    (ReadSubBytes classUniversal tagSequence AttributeSelection_readComponents).

Definition AttributeSelection_write (selection : AttributeSelection) : Go Bytes Z :=
  size <-- writeBackward LDAPString_write selection 0 ;;
  size += WriteTagAndLength classUniversal isCompound tagSequence size.

Definition AttributeSelection_size (selection : AttributeSelection) : Z :=
  let size := sumSizes LDAPString_size selection in
  size + sizeTagAndLength tagSequence size.

#[program] Definition AttributeSelection_Codec : Codec AttributeSelection := {|
  enc := fun l => tlv classUniversal true tagSequence (enc_strings l);
  wf := fun _ => True;
  c_write := AttributeSelection_write;
  c_size := AttributeSelection_size;
  c_read := readAttributeSelection
|}.
Next Obligation. intros l _ Hf. fits_inv. unfold AttributeSelection_write. writes_auto. Qed.
Next Obligation. intros l _ Hf. fits_inv. unfold AttributeSelection_size. size_auto. Qed.
Next Obligation.
  intros l _ Hf. apply readsP_wrap, reads_sub, reads_strings;
    [tag_side|exact (fits_tlv _ _ _ _ Hf)..].
Qed.
Next Obligation. intros l. apply tlv_nonempty. Qed.

Lemma terminates_AttributeSelection n : terminates n 2 readAttributeSelection.
Proof. unfold readAttributeSelection, AttributeSelection_readComponents. terminates_auto. Qed.
#[export] Hint Resolve terminates_AttributeSelection : terminates.

(** ** referral.go *)

Definition Referral_readComponents : Go Bytes Referral :=
  r <-- readAll (fun _ => wrapErr "readComponents:" readURI) ;;
  if len r =? 0
  then fail (LdapError "readComponents: expecting at least one URI" [])
  else ret r.

Definition readTaggedReferral (class tag : Z) : Go Bytes Referral :=
  wrapErr "readTaggedReferral:" (ReadSubBytes class tag Referral_readComponents).

Definition Referral_writeTagged (r : Referral) (class tag : Z) : Go Bytes Z :=
  size <-- writeBackward URI_write r 0 ;;
  size += WriteTagAndLength class isCompound tag size.

Definition Referral_sizeTagged (r : Referral) (tag : Z) : Z :=
  let size := sumSizes URI_size r in
  size + sizeTagAndLength tag size.

Definition enc_referral (r : Referral) : list byte :=
  tlv classContextSpecific true TagLDAPResultReferral (enc_strings r).
#[global] Arguments enc_referral : simpl never.

Lemma writes_referral (r : Referral) :
  fits (enc_referral r) ->
  writes 0 (Referral_writeTagged r classContextSpecific TagLDAPResultReferral) (enc_referral r).
Proof. unfold enc_referral. intros Hf. fits_inv. unfold Referral_writeTagged. writes_auto. Qed.

Lemma size_referral (r : Referral) :
  fits (enc_referral r) -> Referral_sizeTagged r TagLDAPResultReferral = len (enc_referral r).
Proof. unfold enc_referral. intros Hf. fits_inv. unfold Referral_sizeTagged. size_auto. Qed.

Lemma reads_referral (r : Referral) :
  fits (enc_referral r) -> r <> [] ->
  reads (readTaggedReferral classContextSpecific TagLDAPResultReferral) (enc_referral r) r.
Proof.
  unfold enc_referral. intros Hf Hne. fits_inv.
  apply readsP_wrap, reads_sub; [tag_side|done|]. unfold Referral_readComponents.
  eapply readsP_last; [now apply reads_uris|].
  destruct r; [done|]. rewrite (proj2 (Z.eqb_neq _ _)) by len_lia. apply readsP_ret.
Qed.

Lemma terminates_Referral n class tag : terminates n 2 (readTaggedReferral class tag).
Proof.
  unfold readTaggedReferral, Referral_readComponents. autounfold with prims. terminates_auto.
Qed.
#[export] Hint Resolve terminates_Referral : terminates.

(** ** result.go *)

Definition LDAPResult_readComponents : Go Bytes LDAPResult :=
  resultCode <-- wrapErr "readComponents:" (readENUMERATED EnumeratedLDAPResultCode) ;;
  matchedDN <-- wrapErr "readComponents:" readLDAPDN ;;
  diagnosticMessage <-- wrapErr "readComponents:" readLDAPString ;;
  referral <-- readOptional "readComponents:" TagLDAPResultReferral
                 (readTaggedReferral classContextSpecific TagLDAPResultReferral) ;;
  ret (mkLDAPResult referral matchedDN diagnosticMessage resultCode).

Definition readTaggedLDAPResult (class tag : Z) : Go Bytes LDAPResult :=
  wrapErr "readTaggedLDAPResult:" (ReadSubBytes class tag LDAPResult_readComponents).

Definition LDAPResult_writeComponents (l : LDAPResult) : Go Bytes Z :=
  size <-- write_opt (fun r => Referral_writeTagged r classContextSpecific TagLDAPResultReferral)
             (referral l) 0 ;;
  size <-- size += LDAPString_write (diagnosticMessage l) ;;
  size <-- size += LDAPDN_write (matchedDN l) ;;
  size += ENUMERATED_write (resultCode l).

Definition LDAPResult_write (l : LDAPResult) : Go Bytes Z :=
  size <-- 0 += LDAPResult_writeComponents l ;;
  size += WriteTagAndLength classUniversal isCompound tagSequence size.

Definition LDAPResult_writeTagged (l : LDAPResult) (class tag : Z) : Go Bytes Z :=
  size <-- 0 += LDAPResult_writeComponents l ;;
  size += WriteTagAndLength class isCompound tag size.

Definition LDAPResult_sizeComponents (l : LDAPResult) : Z :=
  let size := size_opt (fun r => Referral_sizeTagged r TagLDAPResultReferral) (referral l) 0 in
  let size := size + LDAPString_size (diagnosticMessage l) in
  let size := size + LDAPDN_size (matchedDN l) in
  size + ENUMERATED_size (resultCode l).

Definition LDAPResult_size (l : LDAPResult) : Z :=
  let size := 0 + LDAPResult_sizeComponents l in
  size + sizeTagAndLength tagSequence size.

Definition LDAPResult_sizeTagged (l : LDAPResult) (tag : Z) : Z :=
  let size := 0 + LDAPResult_sizeComponents l in
  size + sizeTagAndLength tag size.

(** [SetResultCode], [SeMatchedDN], [SetDiagnosticMessage] and [SetReferral]. *)
Definition SetResultCode (l : LDAPResult) (code : ENUMERATED) : LDAPResult :=
  mkLDAPResult (referral l) (matchedDN l) (diagnosticMessage l) code.
Definition SeMatchedDN (l : LDAPResult) (code : string) : LDAPResult :=
  mkLDAPResult (referral l) code (diagnosticMessage l) (resultCode l).
Definition SetDiagnosticMessage (l : LDAPResult) (code : string) : LDAPResult :=
  mkLDAPResult (referral l) (matchedDN l) code (resultCode l).
Definition SetReferral (l : LDAPResult) (r : option Referral) : LDAPResult :=
  mkLDAPResult r (matchedDN l) (diagnosticMessage l) (resultCode l).

(** The values of an enumeration are small. *)
Lemma allowed_in_int32 (values : list (ENUMERATED * string)) e :
  forallb (fun '(v, _) => (0 <=? v) && (v <? 128)) values = true ->
  allowed values e = true -> in_int32 e.
Proof.
  intros Hv. unfold allowed. rewrite existsb_exists. intros ((v, s) & Hin & He%Z.eqb_eq).
  pose proof (proj1 (forallb_forall _ _) Hv _ Hin) as [? ?]%andb_prop. unfold in_int32. lia.
Qed.

Lemma reads_enumerated values e :
  forallb (fun '(v, _) => (0 <=? v) && (v <? 128)) values = true ->
  allowed values e = true -> reads (readENUMERATED values) (enc_ENUMERATED e) e.
Proof.
  intros Hv He. pose proof (allowed_in_int32 _ _ Hv He) as Hi.
  apply reads_enum; [done..|].
  exact (fits_tlv classUniversal tagEnum false _ (fits_int classUniversal tagEnum e ltac:(tag_side) Hi)).
Qed.

Definition result_contents (l : LDAPResult) : list byte :=
  enc_ENUMERATED (resultCode l) ++ enc_OCTETSTRING (matchedDN l)
  ++ enc_OCTETSTRING (diagnosticMessage l) ++ enc_opt enc_referral (referral l).

Definition result_wf (l : LDAPResult) : Prop :=
  allowed EnumeratedLDAPResultCode (resultCode l) = true /\ referral l <> Some [].

(** Optional fields, instantiated for the proof search. *)
Lemma writes_opt_referral (o : option Referral) (k : Z) :
  fits (enc_opt enc_referral o) ->
  writes k (write_opt (fun r => Referral_writeTagged r classContextSpecific TagLDAPResultReferral) o k)
    (enc_opt enc_referral o).
Proof. intros Hf. apply writes_opt. intros r ->. now apply writes_referral. Qed.

Lemma writes_opt_str (class tag : Z) (o : option string) (k : Z) :
  short_tag class tag -> fits (enc_opt (enc_str class tag) o) ->
  writes k (write_opt (fun s => OCTETSTRING_writeTagged s class tag) o k)
    (enc_opt (enc_str class tag) o).
Proof. intros Hst Hf. apply writes_opt. intros s ->. now apply writes_str. Qed.

Lemma size_opt_referral (o : option Referral) (k : Z) :
  fits (enc_opt enc_referral o) ->
  size_opt (fun r => Referral_sizeTagged r TagLDAPResultReferral) o k
  = k + len (enc_opt enc_referral o).
Proof. intros Hf. apply size_opt_len. intros r ->. now apply size_referral. Qed.

Lemma size_opt_str (class tag : Z) (o : option string) (k : Z) :
  short_tag class tag -> fits (enc_opt (enc_str class tag) o) ->
  size_opt (fun s => OCTETSTRING_sizeTagged s tag) o k
  = k + len (enc_opt (enc_str class tag) o).
Proof. intros Hst Hf. apply size_opt_len. intros s ->. now apply size_str. Qed.

Lemma reads_opt_str fn (class tag : Z) (o : option string) (rd : Go Bytes string) :
  short_tag class tag -> fits (enc_opt (enc_str class tag) o) ->
  (forall s, fits (enc_str class tag s) -> reads rd (enc_str class tag s) s) ->
  readsP (notNext tag) (readOptional fn tag rd) (enc_opt (enc_str class tag) o) o.
Proof.
  intros Hst Hf Hrd. apply (reads_optional fn class false); [done| |].
  - intros s ->. exact (fits_str _ _ _ Hf).
  - intros s ->. now apply Hrd.
Qed.

(** An absent optional field lets what follows show. *)
Lemma notNext_opt_str (tag class t : Z) (o : option string) (rest : list byte) :
  short_tag class t -> t <> tag -> fits (enc_opt (enc_str class t) o) -> notNext tag rest ->
  notNext tag (enc_opt (enc_str class t) o ++ rest).
Proof.
  intros Hst Hne Hf Hr. destruct o as [s|]; cbn [enc_opt app]; [|done].
  apply notNext_tlv; [done| |done]. exact (fits_str _ _ _ Hf).
Qed.
#[export] Hint Resolve writes_opt_referral writes_opt_str : codec.

Lemma writes_result (l : LDAPResult) :
  result_wf l -> fits (result_contents l) ->
  writes 0 (LDAPResult_writeComponents l) (result_contents l).
Proof.
  intros [Hc _] Hf. unfold result_contents in *. fits_inv.
  assert (in_int32 (resultCode l)) by (eapply allowed_in_int32; [|exact Hc]; reflexivity).
  unfold LDAPResult_writeComponents. writes_auto.
Qed.

Lemma size_result (l : LDAPResult) :
  result_wf l -> fits (result_contents l) ->
  LDAPResult_sizeComponents l = len (result_contents l).
Proof.
  intros [Hc _] Hf. unfold result_contents in *. fits_inv.
  assert (in_int32 (resultCode l)) by (eapply allowed_in_int32; [|exact Hc]; reflexivity).
  unfold LDAPResult_sizeComponents. rewrite size_opt_referral by done. size_auto.
Qed.

(** The components of a result end where no referral follows. *)
Lemma reads_result (l : LDAPResult) :
  result_wf l -> fits (result_contents l) ->
  readsP (notNext TagLDAPResultReferral) LDAPResult_readComponents (result_contents l) l.
Proof.
  intros [Hc Hr] Hf. destruct l as [rf dn msg code]. unfold result_contents in *. cbn in *.
  fits_inv. assert (fits (enc_opt enc_referral rf)) as Hrf by done.
  unfold LDAPResult_readComponents. autounfold with prims.
  eapply readsP_bind; [apply readsP_wrap, reads_enumerated; [reflexivity|done]|].
  eapply readsP_bind; [reads_one|]. eapply readsP_bind; [reads_one|].
  eapply readsP_last; [|apply readsP_ret].
  apply (reads_optional _ classContextSpecific true _ _ enc_strings); [tag_side| |].
  - intros r ->. exact (fits_tlv classContextSpecific TagLDAPResultReferral true _ Hrf).
  - intros r ->. apply reads_referral; [done|intros ->; now apply Hr].
Qed.

Lemma terminates_result n : terminates n 2 LDAPResult_readComponents.
Proof. unfold LDAPResult_readComponents. autounfold with prims. terminates_auto. Qed.
#[export] Hint Resolve terminates_result : terminates.

Lemma terminates_taggedResult n class tag : terminates n 2 (readTaggedLDAPResult class tag).
Proof. unfold readTaggedLDAPResult. terminates_auto. Qed.
#[export] Hint Resolve terminates_taggedResult : terminates.

Lemma writes_taggedResult (l : LDAPResult) (class tag : Z) :
  short_tag class tag -> result_wf l -> fits (result_contents l) ->
  writes 0 (LDAPResult_writeTagged l class tag) (tlv class true tag (result_contents l)).
Proof.
  intros Hst Hwf Hf. pose proof (writes_result l Hwf Hf).
  unfold LDAPResult_writeTagged. writes_auto.
Qed.

Lemma size_taggedResult (l : LDAPResult) (class tag : Z) :
  short_tag class tag -> result_wf l -> fits (result_contents l) ->
  LDAPResult_sizeTagged l tag = len (tlv class true tag (result_contents l)).
Proof.
  intros Hst Hwf Hf. unfold LDAPResult_sizeTagged. apply size_tlv; [|done..].
  rewrite size_result by done. lia.
Qed.

Lemma reads_taggedResult (l : LDAPResult) (class tag : Z) :
  short_tag class tag -> result_wf l -> fits (result_contents l) ->
  reads (readTaggedLDAPResult class tag) (tlv class true tag (result_contents l)) l.
Proof.
  intros Hst Hwf Hf. apply readsP_wrap, reads_sub; [done..|].
  eapply readsP_weaken; [now apply reads_result|]. intros suf ->. apply notNext_nil.
Qed.

(** ** control.go and controls.go *)

Definition ErrCriticalityNotSpecified : error :=
  PlainError "readComponents: criticality default value FALSE should not be specified".

Definition Control_readComponents : Go Bytes Control :=
  controlType <-- wrapErr "readComponents:" readLDAPOID ;;
  read <-- readOptional "readComponents:" tagBoolean readBOOLEAN ;;
  criticality <-- match read with
                  | Some criticality =>
                      if negb criticality then fail ErrCriticalityNotSpecified
                      else ret criticality
                  | None => ret false
                  end ;;
  controlValue <-- readMore "readComponents:" readOCTETSTRING ;;
  ret (mkControl controlValue controlType criticality).

Definition readControl : Go Bytes Control :=
  wrapErr "readControl:" (ReadSubBytes classUniversal tagSequence Control_readComponents).

Definition Control_write (control : Control) : Go Bytes Z :=
  size <-- write_opt OCTETSTRING_write (controlValue control) 0 ;;
  size <-- (if criticality control then size += BOOLEAN_write (criticality control)
            else ret size) ;;
  size <-- size += LDAPOID_write (controlType control) ;;
  size += WriteTagAndLength classUniversal isCompound tagSequence size.

Definition Control_size (control : Control) : Z :=
  let size := size_opt OCTETSTRING_size (controlValue control) 0 in
  let size := if criticality control then size + BOOLEAN_size (criticality control) else size in
  let size := size + LDAPOID_size (controlType control) in
  size + sizeTagAndLength tagSequence size.

Definition control_contents (c : Control) : list byte :=
  enc_OCTETSTRING (controlType c)
  ++ (if criticality c then enc_BOOLEAN true else [])
  ++ enc_opt enc_OCTETSTRING (controlValue c).

#[export, program] Instance Control_Codec : Codec Control := {|
  enc := fun c => tlv classUniversal true tagSequence (control_contents c);
  wf := fun _ => True;
  c_write := Control_write;
  c_size := Control_size;
  c_read := readControl
|}.
Next Obligation.
  intros [v t c] _ Hf. unfold control_contents, Control_write in *. cbn in *. fits_inv.
  assert (writes (0 + len (enc_opt enc_OCTETSTRING v))
    (if c then 0 + len (enc_opt enc_OCTETSTRING v) += BOOLEAN_write c
     else ret (0 + len (enc_opt enc_OCTETSTRING v))) (if c then enc_BOOLEAN true else [])) as Hc.
  { destruct c; [apply writes_plus, writes_bool; tag_side|apply writes_ret]. }
  eapply writes_eq.
  { eapply writes_bind; [now apply (writes_opt_str classUniversal)|].
    eapply writes_bind; [exact Hc|]. rewrite Z.add_0_l.
    replace (len (enc_opt enc_OCTETSTRING v) + len (if c then enc_BOOLEAN true else [])) with
      (len ((if c then enc_BOOLEAN true else []) ++ enc_opt enc_OCTETSTRING v)) by len_lia.
    autounfold with prims. repeat (writes_step_auto; rewrite ?Z.add_0_l). }
  bytes_eq.
Qed.
Next Obligation.
  intros [v t c] _ Hf. unfold control_contents, Control_size in *. cbn in *. fits_inv.
  apply size_tlv; [|tag_side|tag_side|done].
  rewrite (size_opt_str classUniversal tagOctetString) by done.
  destruct c; autounfold with prims; [rewrite (size_bool classUniversal) by tag_side|];
    rewrite (size_str classUniversal) by done; len_lia.
Qed.
Next Obligation.
  intros [v t c] _ Hf. unfold control_contents in *. cbn in *. fits_inv.
  assert (fits (enc_opt enc_OCTETSTRING v)) as Hv by done.
  apply readsP_wrap, reads_sub; [tag_side|done|]. unfold Control_readComponents.
  autounfold with prims. eapply readsP_bind; [reads_one|].
  apply (readsP_bind_gen (notNext tagBoolean) _ _ _ _ _ (if c then Some true else None)).
  { destruct c; [|apply readOptional_none].
    apply readOptional_some; [tag_side|apply fits_bool|apply reads_any, reads_BOOLEAN]. }
  { intros suf ->. rewrite app_nil_r. destruct v; [|apply notNext_nil].
    cbn [enc_opt]. rewrite <- (app_nil_r (enc_OCTETSTRING _)).
    apply notNext_tlv; [tag_side| |done]. exact (fits_str _ _ _ Hv). }
  replace (enc_opt enc_OCTETSTRING v) with ([] ++ enc_opt enc_OCTETSTRING v) by done.
  apply (readsP_bind _ _ _ _ _ c); [destruct c; apply readsP_ret|].
  eapply readsP_last; [|apply readsP_ret]. apply readsEnd_more. intros a ->.
  split; [apply tlv_nonempty|]. now apply reads_any, reads_OCTETSTRING.
Qed.
Next Obligation. intros c. apply tlv_nonempty. Qed.

Lemma terminates_Control n : terminates n 2 readControl.
Proof.
  unfold readControl, Control_readComponents. autounfold with prims. terminates_auto.
Qed.
#[export] Hint Resolve terminates_Control : terminates.

Definition Controls_readComponents : Go Bytes Controls :=
  readAll (fun _ => wrapErr "readComponents:" readControl).

Definition readTaggedControls (class tag : Z) : Go Bytes Controls :=
  wrapErr "readTaggedControls:" (ReadSubBytes class tag Controls_readComponents).

Definition Controls_writeTagged (controls : Controls) (class tag : Z) : Go Bytes Z :=
  size <-- writeBackward Control_write controls 0 ;;
  size += WriteTagAndLength class isCompound tag size.

Definition Controls_sizeTagged (controls : Controls) (tag : Z) : Z :=
  let size := sumSizes Control_size controls in
  size + sizeTagAndLength tag size.

Definition controls_contents (l : Controls) : list byte := enc_list Control_Codec l.
Definition enc_controls (l : Controls) : list byte :=
  tlv classContextSpecific true TagLDAPMessageControls (controls_contents l).
#[global] Arguments enc_controls : simpl never.

Lemma writes_controls (l : Controls) :
  fits (enc_controls l) ->
  writes 0 (Controls_writeTagged l classContextSpecific TagLDAPMessageControls) (enc_controls l).
Proof.
  intros Hf. apply (writes_sequence Control_Codec);
    [tag_side|now apply Forall_true|exact (fits_tlv classContextSpecific TagLDAPMessageControls true _ Hf)].
Qed.

Lemma size_controls (l : Controls) :
  fits (enc_controls l) ->
  Controls_sizeTagged l TagLDAPMessageControls = len (enc_controls l).
Proof.
  intros Hf. apply (size_sequence Control_Codec);
    [tag_side|now apply Forall_true|exact (fits_tlv classContextSpecific TagLDAPMessageControls true _ Hf)].
Qed.

Lemma reads_controls (l : Controls) :
  fits (enc_controls l) ->
  reads (readTaggedControls classContextSpecific TagLDAPMessageControls) (enc_controls l) l.
Proof.
  intros Hf. apply readsP_wrap, (reads_sequence Control_Codec);
    [tag_side|now apply Forall_true|exact (fits_tlv classContextSpecific TagLDAPMessageControls true _ Hf)].
Qed.

Lemma terminates_Controls n class tag : terminates n 2 (readTaggedControls class tag).
Proof. unfold readTaggedControls, Controls_readComponents. terminates_auto. Qed.
#[export] Hint Resolve terminates_Controls : terminates.

(** ** sasl_credentials.go *)

Definition SaslCredentials_readComponents : Go Bytes SaslCredentials :=
  mechanism <-- wrapErr "readComponents:" readLDAPString ;;
  credentials <-- readMore "readComponents:" readOCTETSTRING ;;
  ret (mkSaslCredentials credentials mechanism).

Definition readSaslCredentials : Go Bytes SaslCredentials :=
  wrapErr "readSaslCredentials:"
    (ReadSubBytes classContextSpecific TagAuthenticationChoiceSaslCredentials
       SaslCredentials_readComponents).

Definition SaslCredentials_writeTagged (s : SaslCredentials) (class tag : Z) : Go Bytes Z :=
  size <-- write_opt OCTETSTRING_write (credentials s) 0 ;;
  size <-- size += LDAPString_write (mechanism s) ;;
  size += WriteTagAndLength class isCompound tag size.

Definition SaslCredentials_sizeTagged (s : SaslCredentials) (tag : Z) : Z :=
  let size := size_opt OCTETSTRING_size (credentials s) 0 in
  let size := size + LDAPString_size (mechanism s) in
  size + sizeTagAndLength tag size.

Definition sasl_contents (s : SaslCredentials) : list byte :=
  enc_OCTETSTRING (mechanism s) ++ enc_opt enc_OCTETSTRING (credentials s).

(** ** authentication_choice.go *)

Definition readAuthenticationChoice : Go Bytes AuthenticationChoice :=
  tagAndLength <-- wrapErr "readAuthenticationChoice:" PreviewTagAndLength ;;
  wrapErr "readAuthenticationChoice:" (lift (ExpectClass tagAndLength classContextSpecific)) ;;;
  let tag := Tag tagAndLength in
  if tag =? TagAuthenticationChoiceSimple then
    wrapErr "readAuthenticationChoice:"
      (s <-- readTaggedOCTETSTRING classContextSpecific TagAuthenticationChoiceSimple ;;
       ret (AuthSimple s))
  else if tag =? TagAuthenticationChoiceSaslCredentials then
    wrapErr "readAuthenticationChoice:" (s <-- readSaslCredentials ;; ret (AuthSasl s))
  else
    fail (LdapError "readAuthenticationChoice: invalid tag value for AuthenticationChoice" [tag]).

Definition enc_auth (a : AuthenticationChoice) : list byte :=
  match a with
  | AuthNil => []
  | AuthSimple s => enc_str classContextSpecific TagAuthenticationChoiceSimple s
  | AuthSasl s =>
      tlv classContextSpecific true TagAuthenticationChoiceSaslCredentials (sasl_contents s)
  end.
#[global] Arguments enc_auth : simpl never.

Lemma writes_sasl (s : SaslCredentials) :
  fits (sasl_contents s) ->
  writes 0 (SaslCredentials_writeTagged s classContextSpecific TagAuthenticationChoiceSaslCredentials)
    (enc_auth (AuthSasl s)).
Proof.
  intros Hf. unfold enc_auth, SaslCredentials_writeTagged. eapply writes_eq.
  { eapply writes_bind; [apply (writes_opt_str classUniversal); [tag_side|]|].
    - unfold sasl_contents in Hf. now fits_inv.
    - unfold sasl_contents in Hf. fits_inv. autounfold with prims.
      repeat (writes_step_auto; rewrite ?Z.add_0_l). }
  unfold sasl_contents. bytes_eq.
Qed.

Lemma size_sasl (s : SaslCredentials) :
  fits (sasl_contents s) ->
  SaslCredentials_sizeTagged s TagAuthenticationChoiceSaslCredentials
  = len (enc_auth (AuthSasl s)).
Proof.
  intros Hf. unfold enc_auth, SaslCredentials_sizeTagged. apply size_tlv; [|tag_side|tag_side|done].
  unfold sasl_contents in *. fits_inv. rewrite (size_opt_str classUniversal tagOctetString) by done. size_auto.
Qed.

Lemma reads_auth (a : AuthenticationChoice) :
  a <> AuthNil -> fits (enc_auth a) -> reads readAuthenticationChoice (enc_auth a) a.
Proof.
  intros Hne Hf. destruct a as [|s|s]; [done| |]; unfold readAuthenticationChoice, enc_auth in *.
  - eapply readsP_peek; [apply peeks_wrap|].
    { rewrite <- (app_nil_r (enc_str _ _ _)). apply peeks_preview; [tag_side|].
      exact (fits_str _ _ _ Hf). }
    eapply readsP_peek; [apply peeks_wrap, peeks_lift|]. cbn [Tag Z.eqb].
    apply readsP_wrap. eapply readsP_last; [apply reads_str; [tag_side|done]|apply readsP_ret].
  - fits_inv. eapply readsP_peek; [apply peeks_wrap|].
    { rewrite <- (app_nil_r (tlv _ _ _ _)). apply peeks_preview; [tag_side|done]. }
    eapply readsP_peek; [apply peeks_wrap, peeks_lift|]. cbn [Tag].
    apply readsP_wrap. eapply readsP_last; [|apply readsP_ret].
    apply readsP_wrap, reads_sub; [tag_side|done|].
    destruct s as [c m]. unfold SaslCredentials_readComponents, sasl_contents in *. cbn in *.
    fits_inv. eapply readsP_bind; [reads_one|].
    eapply readsP_last; [|apply readsP_ret]. apply readsEnd_more. intros b ->.
    split; [apply tlv_nonempty|]. now apply reads_any, reads_OCTETSTRING.
Qed.

Lemma ExpectClass_converges t class : ExpectClass t class <> Diverge.
Proof. unfold ExpectClass. now destruct (_ =? _). Qed.

Lemma terminates_auth n : terminates n 0 readAuthenticationChoice.
Proof.
  unfold readAuthenticationChoice, readSaslCredentials, SaslCredentials_readComponents.
  terminates_auto. apply ExpectClass_converges.
Qed.
#[export] Hint Resolve terminates_auth : terminates.
