(* ===== verification/LdapFilter.v ===== *)
(** * Search filters

    lib/ldapsrv/goldap: matching_rule_assertion.go, filter_substring.go,
    filter.go, filter_and.go, filter_or.go, filter_not.go, filter_present.go,
    filter_equality_match.go, filter_greater_or_equal.go,
    filter_less_or_equal.go, filter_approx_match.go,
    filter_extensible_match.go, and the filter printer of search_request.go.

    The readers of the filters are mutually recursive; the model closes the
    recursion with the length of the buffer as fuel: every nested filter is
    read in a sub-buffer shorter by the two bytes of its header at least. *)

From stdpp Require Import pretty.
From S2P Require Import Prelude Asn1 Codec LdapTypes LdapPrim LdapAttr.
#[local] Open Scope Z_scope.
From Stdlib Require Import Strings.Byte.

(** ** matching_rule_assertion.go *)

Definition MatchingRuleAssertion_readMatchingRule : Go Bytes (option MatchingRuleID) :=
  readIfTag "readMatchingRule: " TagMatchingRuleAssertionMatchingRule
    (readTaggedMatchingRuleID classContextSpecific TagMatchingRuleAssertionMatchingRule).

Definition MatchingRuleAssertion_readType : Go Bytes (option AttributeDescription) :=
  readIfTag "readType: " TagMatchingRuleAssertionType
    (readTaggedAttributeDescription classContextSpecific TagMatchingRuleAssertionType).

Definition MatchingRuleAssertion_readComponents : Go Bytes MatchingRuleAssertion :=
  matchingRule <-- wrapErr "readComponents: " MatchingRuleAssertion_readMatchingRule ;;
  type_ <-- wrapErr "readComponents: " MatchingRuleAssertion_readType ;;
  matchValue <-- wrapErr "readComponents: "
    (readTaggedAssertionValue classContextSpecific TagMatchingRuleAssertionMatchValue) ;;
  dnAttributes <-- wrapErr "readComponents: "
    (readTaggedBOOLEAN classContextSpecific TagMatchingRuleAssertionDnAttributes) ;;
  ret (mkMatchingRuleAssertion matchingRule type_ matchValue dnAttributes).

Definition readTaggedMatchingRuleAssertion (class tag : Z) : Go Bytes MatchingRuleAssertion :=
  wrapErr "readTaggedMatchingRuleAssertion:"
    (ReadSubBytes class tag MatchingRuleAssertion_readComponents).

Definition MatchingRuleAssertion_writeTagged (m : MatchingRuleAssertion) (class tag : Z)
    : Go Bytes Z :=
  size <-- (if dnAttributes m
            then 0 += BOOLEAN_writeTagged (dnAttributes m) classContextSpecific
                        TagMatchingRuleAssertionDnAttributes
            else ret 0) ;;
  size <-- size += AssertionValue_writeTagged (matchValue m) classContextSpecific
                     TagMatchingRuleAssertionMatchValue ;;
  size <-- write_opt (fun t => AttributeDescription_writeTagged t classContextSpecific
                                 TagMatchingRuleAssertionType) (mra_type m) size ;;
  size <-- write_opt (fun r => MatchingRuleID_writeTagged r classContextSpecific
                                 TagMatchingRuleAssertionMatchingRule) (matchingRule m) size ;;
  size += WriteTagAndLength class isCompound tag size.

Definition MatchingRuleAssertion_sizeTagged (m : MatchingRuleAssertion) (tag : Z) : Z :=
  let size := size_opt (fun r => MatchingRuleID_sizeTagged r TagMatchingRuleAssertionMatchingRule)
                (matchingRule m) 0 in
  let size := size_opt (fun t => AttributeDescription_sizeTagged t TagMatchingRuleAssertionType)
                (mra_type m) size in
  let size := size + AssertionValue_sizeTagged (matchValue m) TagMatchingRuleAssertionMatchValue in
  let size := if dnAttributes m
              then size + BOOLEAN_sizeTagged (dnAttributes m) TagMatchingRuleAssertionDnAttributes
              else size in
  size + sizeTagAndLength tag size.

(** ** filter_substring.go *)

(** The body of the loop of [readSubstringsComponents]: the counts of initial
    and final substrings and the substrings read so far. *)
Definition SubstringFilter_readSubstring (x : Z * Z * list Substring)
    : Go Bytes (Z * Z * list Substring) :=
  let '(foundInitial, foundFinal, substrings) := x in
  tagAndLength <-- wrapErr "readSubstringsComponents:" PreviewTagAndLength ;;
  let tag := Tag tagAndLength in
  if tag =? TagSubstringInitial then
    let foundInitial := foundInitial + 1 in
    if 1 <? foundInitial
    then fail (LdapError "readSubstringsComponents: initial can occur at most once" [])
    else
      assertionvalue <-- wrapErr "readSubstringsComponents:"
        (readTaggedAssertionValue classContextSpecific TagSubstringInitial) ;;
      ret (foundInitial, foundFinal, substrings ++ [SubstringInitial assertionvalue])
  else if tag =? TagSubstringAny then
    assertionvalue <-- wrapErr "readSubstringsComponents:"
      (readTaggedAssertionValue classContextSpecific TagSubstringAny) ;;
    ret (foundInitial, foundFinal, substrings ++ [SubstringAny assertionvalue])
  else if tag =? TagSubstringFinal then
    let foundFinal := foundFinal + 1 in
    if 1 <? foundFinal
    then fail (LdapError "readSubstringsComponents: final can occur at most once" [])
    else
      assertionvalue <-- wrapErr "readSubstringsComponents:"
        (readTaggedAssertionValue classContextSpecific TagSubstringFinal) ;;
      ret (foundInitial, foundFinal, substrings ++ [SubstringFinal assertionvalue])
  else fail (LdapError "readSubstringsComponents: invalid tag" [tag]).

Definition SubstringFilter_readSubstringsComponents : Go Bytes (list Substring) :=
  x <-- forHasMoreData SubstringFilter_readSubstring (0, 0, []) ;;
  let '(_, _, substrings) := x in
  if len substrings =? 0
  then fail (LdapError "readSubstringsComponents: expecting at least one substring" [])
  else ret substrings.

Definition SubstringFilter_readSubstrings : Go Bytes (list Substring) :=
  wrapErr "readSubstrings:"
    (ReadSubBytes classUniversal tagSequence SubstringFilter_readSubstringsComponents).

Definition SubstringFilter_readComponents : Go Bytes SubstringFilter :=
  type_ <-- wrapErr "readComponents:" readAttributeDescription ;;
  substrings <-- wrapErr "readComponents:" SubstringFilter_readSubstrings ;;
  ret (mkSubstringFilter type_ substrings).

Definition readTaggedSubstringFilter (class tag : Z) : Go Bytes SubstringFilter :=
  wrapErr "readTaggedSubstringFilter:" (ReadSubBytes class tag SubstringFilter_readComponents).

(** The type switch on a substring in [writeTagged] and in [sizeTagged]. *)
Definition Substring_writeTagged (substring : Substring) : Go Bytes Z :=
  match substring with
  | SubstringInitial v => AssertionValue_writeTagged v classContextSpecific TagSubstringInitial
  | SubstringAny v => AssertionValue_writeTagged v classContextSpecific TagSubstringAny
  | SubstringFinal v => AssertionValue_writeTagged v classContextSpecific TagSubstringFinal
  end.

Definition Substring_sizeTagged (substring : Substring) : Z :=
  match substring with
  | SubstringInitial v => AssertionValue_sizeTagged v TagSubstringInitial
  | SubstringAny v => AssertionValue_sizeTagged v TagSubstringAny
  | SubstringFinal v => AssertionValue_sizeTagged v TagSubstringFinal
  end.

Definition SubstringFilter_writeTagged (s : SubstringFilter) (class tag : Z) : Go Bytes Z :=
  size <-- writeBackward Substring_writeTagged (sf_substrings s) 0 ;;
  size <-- size += WriteTagAndLength classUniversal isCompound tagSequence size ;;
  size <-- size += AttributeDescription_write (sf_type s) ;;
  size += WriteTagAndLength class isCompound tag size.

Definition SubstringFilter_sizeTagged (s : SubstringFilter) (tag : Z) : Z :=
  let size := sumSizes Substring_sizeTagged (sf_substrings s) in
  let size := size + sizeTagAndLength tagSequence size in
  let size := size + AttributeDescription_size (sf_type s) in
  size + sizeTagAndLength tag size.

(** ** The readers of the filters without nested filters *)

Definition readFilterEqualityMatch : Go Bytes AttributeValueAssertion :=
  wrapErr "readFilterEqualityMatch:"
    (readTaggedAttributeValueAssertion classContextSpecific TagFilterEqualityMatch).
Definition readFilterSubstrings : Go Bytes SubstringFilter :=
  wrapErr "readFilterSubstrings:"
    (readTaggedSubstringFilter classContextSpecific TagFilterSubstrings).
Definition readFilterGreaterOrEqual : Go Bytes AttributeValueAssertion :=
  wrapErr "readFilterGreaterOrEqual:"
    (readTaggedAttributeValueAssertion classContextSpecific TagFilterGreaterOrEqual).
Definition readFilterLessOrEqual : Go Bytes AttributeValueAssertion :=
  wrapErr "readFilterLessOrEqual:"
    (readTaggedAttributeValueAssertion classContextSpecific TagFilterLessOrEqual).
Definition readFilterPresent : Go Bytes AttributeDescription :=
  wrapErr "readFilterPresent:"
    (readTaggedAttributeDescription classContextSpecific TagFilterPresent).
Definition readFilterApproxMatch : Go Bytes AttributeValueAssertion :=
  wrapErr "readFilterApproxMatch:"
    (readTaggedAttributeValueAssertion classContextSpecific TagFilterApproxMatch).
Definition readFilterExtensibleMatch : Go Bytes MatchingRuleAssertion :=
  wrapErr "readFilterExtensibleMatch:"
    (readTaggedMatchingRuleAssertion classContextSpecific TagFilterExtensibleMatch).

(** ** The recursive filters: their readers take the reader of a filter *)

Definition FilterAnd_readComponents (readFilter : Go Bytes Filter) : Go Bytes (list Filter) :=
  l <-- readAll (fun count =>
          wrapErr ("readComponents (filter " ++ pretty count ++ "):")%string readFilter) ;;
  if len l =? 0
  then fail (LdapError "readComponents: expecting at least one Filter" [])
  else ret l.

Definition readFilterAnd (readFilter : Go Bytes Filter) : Go Bytes (list Filter) :=
  wrapErr "readFilterAnd:"
    (ReadSubBytes classContextSpecific TagFilterAnd (FilterAnd_readComponents readFilter)).

Definition FilterOr_readComponents (readFilter : Go Bytes Filter) : Go Bytes (list Filter) :=
  l <-- readAll (fun count =>
          wrapErr ("readComponents (filter " ++ pretty count ++ "): ")%string readFilter) ;;
  if len l =? 0
  then fail (LdapError "readComponents: expecting at least one Filter" [])
  else ret l.

Definition readFilterOr (readFilter : Go Bytes Filter) : Go Bytes (list Filter) :=
  wrapErr "readFilterOr:"
    (ReadSubBytes classContextSpecific TagFilterOr (FilterOr_readComponents readFilter)).

Definition FilterNot_readComponents (readFilter : Go Bytes Filter) : Go Bytes Filter :=
  wrapErr "readComponents:" readFilter.

Definition readFilterNot (readFilter : Go Bytes Filter) : Go Bytes Filter :=
  wrapErr "readFilterNot:"
    (ReadSubBytes classContextSpecific TagFilterNot (FilterNot_readComponents readFilter)).

(** The [switch] of [readFilter]. *)
Definition readFilterTag (readFilter : Go Bytes Filter) (tag : Z) : Go Bytes Filter :=
  if tag =? TagFilterAnd then l <-- readFilterAnd readFilter ;; ret (FilterAnd l)
  else if tag =? TagFilterOr then l <-- readFilterOr readFilter ;; ret (FilterOr l)
  else if tag =? TagFilterNot then f <-- readFilterNot readFilter ;; ret (FilterNot f)
  else if tag =? TagFilterEqualityMatch then
    a <-- readFilterEqualityMatch ;; ret (FilterEqualityMatch a)
  else if tag =? TagFilterSubstrings then
    s <-- readFilterSubstrings ;; ret (FilterSubstrings s)
  else if tag =? TagFilterGreaterOrEqual then
    a <-- readFilterGreaterOrEqual ;; ret (FilterGreaterOrEqual a)
  else if tag =? TagFilterLessOrEqual then
    a <-- readFilterLessOrEqual ;; ret (FilterLessOrEqual a)
  else if tag =? TagFilterPresent then
    d <-- readFilterPresent ;; ret (FilterPresent d)
  else if tag =? TagFilterApproxMatch then
    a <-- readFilterApproxMatch ;; ret (FilterApproxMatch a)
  else if tag =? TagFilterExtensibleMatch then
    m <-- readFilterExtensibleMatch ;; ret (FilterExtensibleMatch m)
  else fail (LdapError "readFilter: invalid tag value for filter" [tag]).

Fixpoint readFilter_fuel (fuel : nat) : Go Bytes Filter :=
  match fuel with
  | O => lift Diverge
  | S fuel' =>
      tagAndLength <-- wrapErr "readFilter:" PreviewTagAndLength ;;
      wrapErr "readFilter:" (lift (ExpectClass tagAndLength classContextSpecific)) ;;;
      wrapErr "readFilter:" (readFilterTag (readFilter_fuel fuel') (Tag tagAndLength))
  end.

Definition readFilter : Go Bytes Filter :=
  fun b => readFilter_fuel (S (length (buf b))) b.

(** ** Writing and sizes

    The methods of every implementation of the interface; those of the nested
    filters take the method of a filter. *)

Definition FilterAnd_write (write : Filter -> Go Bytes Z) (l : list Filter) : Go Bytes Z :=
  size <-- writeBackward write l 0 ;;
  size += WriteTagAndLength classContextSpecific isCompound TagFilterAnd size.

Definition FilterAnd_size (filterSize : Filter -> Z) (l : list Filter) : Z :=
  let size := sumSizes filterSize l in size + sizeTagAndLength TagFilterAnd size.

Definition FilterOr_write (write : Filter -> Go Bytes Z) (l : list Filter) : Go Bytes Z :=
  size <-- writeBackward write l 0 ;;
  size += WriteTagAndLength classContextSpecific isCompound TagFilterOr size.

Definition FilterOr_size (filterSize : Filter -> Z) (l : list Filter) : Z :=
  let size := sumSizes filterSize l in size + sizeTagAndLength TagFilterOr size.

Definition FilterNot_write (write : Filter -> Go Bytes Z) (f : Filter) : Go Bytes Z :=
  size <-- write f ;;
  size += WriteTagAndLength classContextSpecific isCompound TagFilterNot size.

Definition FilterNot_size (filterSize : Filter -> Z) (f : Filter) : Z :=
  let size := filterSize f in size + sizeTagAndLength tagSequence size.

Definition FilterEqualityMatch_write (f : AttributeValueAssertion) : Go Bytes Z :=
  AttributeValueAssertion_writeTagged f classContextSpecific TagFilterEqualityMatch.
Definition FilterEqualityMatch_size (f : AttributeValueAssertion) : Z :=
  AttributeValueAssertion_sizeTagged f TagFilterEqualityMatch.
Definition FilterSubstrings_write (f : SubstringFilter) : Go Bytes Z :=
  SubstringFilter_writeTagged f classContextSpecific TagFilterSubstrings.
Definition FilterSubstrings_size (f : SubstringFilter) : Z :=
  SubstringFilter_sizeTagged f TagFilterSubstrings.
Definition FilterGreaterOrEqual_write (f : AttributeValueAssertion) : Go Bytes Z :=
  AttributeValueAssertion_writeTagged f classContextSpecific TagFilterGreaterOrEqual.
Definition FilterGreaterOrEqual_size (f : AttributeValueAssertion) : Z :=
  AttributeValueAssertion_sizeTagged f TagFilterGreaterOrEqual.
Definition FilterLessOrEqual_write (f : AttributeValueAssertion) : Go Bytes Z :=
  AttributeValueAssertion_writeTagged f classContextSpecific TagFilterLessOrEqual.
Definition FilterLessOrEqual_size (f : AttributeValueAssertion) : Z :=
  AttributeValueAssertion_sizeTagged f TagFilterLessOrEqual.
Definition FilterPresent_write (f : AttributeDescription) : Go Bytes Z :=
  AttributeDescription_writeTagged f classContextSpecific TagFilterPresent.
Definition FilterPresent_size (f : AttributeDescription) : Z :=
  AttributeDescription_sizeTagged f TagFilterPresent.
Definition FilterApproxMatch_write (f : AttributeValueAssertion) : Go Bytes Z :=
  AttributeValueAssertion_writeTagged f classContextSpecific TagFilterApproxMatch.
Definition FilterApproxMatch_size (f : AttributeValueAssertion) : Z :=
  AttributeValueAssertion_sizeTagged f TagFilterApproxMatch.
Definition FilterExtensibleMatch_write (f : MatchingRuleAssertion) : Go Bytes Z :=
  MatchingRuleAssertion_writeTagged f classContextSpecific TagFilterExtensibleMatch.
Definition FilterExtensibleMatch_size (f : MatchingRuleAssertion) : Z :=
  MatchingRuleAssertion_sizeTagged f TagFilterExtensibleMatch.

(** The dynamic dispatch on the interface [Filter]. *)
Fixpoint Filter_write (f : Filter) : Go Bytes Z :=
  match f with
  | FilterAnd l => FilterAnd_write Filter_write l
  | FilterOr l => FilterOr_write Filter_write l
  | FilterNot g => FilterNot_write Filter_write g
  | FilterEqualityMatch a => FilterEqualityMatch_write a
  | FilterSubstrings s => FilterSubstrings_write s
  | FilterGreaterOrEqual a => FilterGreaterOrEqual_write a
  | FilterLessOrEqual a => FilterLessOrEqual_write a
  | FilterPresent d => FilterPresent_write d
  | FilterApproxMatch a => FilterApproxMatch_write a
  | FilterExtensibleMatch m => FilterExtensibleMatch_write m
  end.

Fixpoint Filter_size (f : Filter) : Z :=
  match f with
  | FilterAnd l => FilterAnd_size Filter_size l
  | FilterOr l => FilterOr_size Filter_size l
  | FilterNot g => FilterNot_size Filter_size g
  | FilterEqualityMatch a => FilterEqualityMatch_size a
  | FilterSubstrings s => FilterSubstrings_size s
  | FilterGreaterOrEqual a => FilterGreaterOrEqual_size a
  | FilterLessOrEqual a => FilterLessOrEqual_size a
  | FilterPresent d => FilterPresent_size d
  | FilterApproxMatch a => FilterApproxMatch_size a
  | FilterExtensibleMatch m => FilterExtensibleMatch_size m
  end.

(** ** The printer of search_request.go

    The errors of [decompileFilter] only come from a recovered panic, and no
    case of the switch can panic; an extensible match has no case. *)
Definition Substring_decompile (fs : Substring) : string :=
  match fs with
  | SubstringInitial v => v ++ "*"
  | SubstringAny v => "*" ++ v ++ "*"
  | SubstringFinal v => "*" ++ v
  end.

Fixpoint decompileFilter (packet : Filter) : string :=
  "(" ++ match packet with
         | FilterAnd l => "&" ++ String.concat "" (map decompileFilter l)
         | FilterOr l => "|" ++ String.concat "" (map decompileFilter l)
         | FilterNot f => "!" ++ decompileFilter f
         | FilterSubstrings f =>
             sf_type f ++ "=" ++ String.concat "" (map Substring_decompile (sf_substrings f))
         | FilterEqualityMatch f => attributeDesc f ++ "=" ++ assertionValue f
         | FilterGreaterOrEqual f => attributeDesc f ++ ">=" ++ assertionValue f
         | FilterLessOrEqual f => attributeDesc f ++ "<=" ++ assertionValue f
         | FilterPresent f => f ++ "=*"
         | FilterApproxMatch f => attributeDesc f ++ "~=" ++ assertionValue f
         | FilterExtensibleMatch _ => ""
         end ++ ")".

(** ** Denotations *)

Definition mra_contents (m : MatchingRuleAssertion) : list byte :=
  enc_opt (enc_str classContextSpecific TagMatchingRuleAssertionMatchingRule) (matchingRule m)
  ++ enc_opt (enc_str classContextSpecific TagMatchingRuleAssertionType) (mra_type m)
  ++ enc_str classContextSpecific TagMatchingRuleAssertionMatchValue (matchValue m)
  ++ (if dnAttributes m
      then enc_bool classContextSpecific TagMatchingRuleAssertionDnAttributes true else []).

Definition enc_substring (s : Substring) : list byte :=
  match s with
  | SubstringInitial v => enc_str classContextSpecific TagSubstringInitial v
  | SubstringAny v => enc_str classContextSpecific TagSubstringAny v
  | SubstringFinal v => enc_str classContextSpecific TagSubstringFinal v
  end.

Definition enc_substrings (l : list Substring) : list byte := concat (map enc_substring l).
#[global] Arguments enc_substring : simpl never.
#[global] Arguments enc_substrings : simpl never.

Definition sf_contents (s : SubstringFilter) : list byte :=
  enc_OCTETSTRING (sf_type s)
  ++ tlv classUniversal true tagSequence (enc_substrings (sf_substrings s)).

Fixpoint enc_filter (f : Filter) : list byte :=
  match f with
  | FilterAnd l => tlv classContextSpecific true TagFilterAnd (concat (map enc_filter l))
  | FilterOr l => tlv classContextSpecific true TagFilterOr (concat (map enc_filter l))
  | FilterNot g => tlv classContextSpecific true TagFilterNot (enc_filter g)
  | FilterEqualityMatch a =>
      tlv classContextSpecific true TagFilterEqualityMatch (ava_contents a)
  | FilterSubstrings s => tlv classContextSpecific true TagFilterSubstrings (sf_contents s)
  | FilterGreaterOrEqual a =>
      tlv classContextSpecific true TagFilterGreaterOrEqual (ava_contents a)
  | FilterLessOrEqual a => tlv classContextSpecific true TagFilterLessOrEqual (ava_contents a)
  | FilterPresent d => enc_str classContextSpecific TagFilterPresent d
  | FilterApproxMatch a => tlv classContextSpecific true TagFilterApproxMatch (ava_contents a)
  | FilterExtensibleMatch m =>
      tlv classContextSpecific true TagFilterExtensibleMatch (mra_contents m)
  end.

(** At most one initial and one final substring, and at least one substring. *)
Definition is_initial (s : Substring) : bool :=
  match s with SubstringInitial _ => true | _ => false end.
Definition is_final (s : Substring) : bool :=
  match s with SubstringFinal _ => true | _ => false end.
Definition count (p : Substring -> bool) (l : list Substring) : Z := len (List.filter p l).

Definition sf_wf (s : SubstringFilter) : Prop :=
  sf_substrings s <> [] /\ count is_initial (sf_substrings s) <= 1
  /\ count is_final (sf_substrings s) <= 1.

(** The filters the readers accept: no empty set, and an extensible match has
    its [dnAttributes] set, which the reader does not take as optional. *)
Fixpoint filter_wf (f : Filter) : Prop :=
  match f with
  | FilterAnd l | FilterOr l => l <> [] /\ foldr (fun g P => filter_wf g /\ P) True l
  | FilterNot g => filter_wf g
  | FilterSubstrings s => sf_wf s
  | FilterExtensibleMatch m => dnAttributes m = true
  | _ => True
  end.

(** ** The contract of a matching rule assertion *)

Lemma writes_mra (m : MatchingRuleAssertion) (class tag : Z) :
  short_tag class tag -> fits (mra_contents m) ->
  writes 0 (MatchingRuleAssertion_writeTagged m class tag) (tlv class true tag (mra_contents m)).
Proof.
  intros Hst Hf. destruct m as [r t v d].
  unfold mra_contents, MatchingRuleAssertion_writeTagged in *. cbn in *. fits_inv.
  set (bd := if d then enc_bool classContextSpecific TagMatchingRuleAssertionDnAttributes true
             else []) in *.
  assert (writes 0 (if d then 0 += BOOLEAN_writeTagged d classContextSpecific
                        TagMatchingRuleAssertionDnAttributes else ret 0) bd) as Hd.
  { subst bd. destruct d; [apply writes_plus, writes_bool; tag_side|apply writes_ret]. }
  eapply writes_eq.
  { eapply writes_bind; [exact Hd|]. rewrite Z.add_0_l. autounfold with prims.
    eapply writes_step; [eauto with codec|].
    eapply writes_bind; [apply (writes_opt_str classContextSpecific TagMatchingRuleAssertionType);
      [tag_side|done]|].
    eapply writes_bind; [apply (writes_opt_str classContextSpecific
      TagMatchingRuleAssertionMatchingRule); [tag_side|done]|].
    apply writes_header_plus; [done|fits_side]. }
  bytes_eq.
Qed.

Lemma size_mra (m : MatchingRuleAssertion) (class tag : Z) :
  short_tag class tag -> fits (mra_contents m) ->
  MatchingRuleAssertion_sizeTagged m tag = len (tlv class true tag (mra_contents m)).
Proof.
  intros Hst Hf. unfold MatchingRuleAssertion_sizeTagged. apply size_tlv; [|done..].
  destruct m as [r t v d]. unfold mra_contents in *. cbn in *. fits_inv.
  rewrite (size_opt_str classContextSpecific TagMatchingRuleAssertionType t) by
    first [tag_side | done].
  rewrite (size_opt_str classContextSpecific TagMatchingRuleAssertionMatchingRule r) by
    first [tag_side | done].
  destruct d; size_auto.
Qed.

(** The components before [dnAttributes]: each is read, and stops where the
    next one starts. *)
Lemma mra_parts (m : MatchingRuleAssertion) :
  fits (mra_contents m) ->
  let r := enc_opt (enc_str classContextSpecific TagMatchingRuleAssertionMatchingRule)
             (matchingRule m) in
  let t := enc_opt (enc_str classContextSpecific TagMatchingRuleAssertionType) (mra_type m) in
  let v := enc_str classContextSpecific TagMatchingRuleAssertionMatchValue (matchValue m) in
  readsP (nextOther TagMatchingRuleAssertionMatchingRule)
    (wrapErr "readComponents: " MatchingRuleAssertion_readMatchingRule) r (matchingRule m)
  /\ readsP (nextOther TagMatchingRuleAssertionType)
       (wrapErr "readComponents: " MatchingRuleAssertion_readType) t (mra_type m)
  /\ reads (wrapErr "readComponents: "
       (readTaggedAssertionValue classContextSpecific TagMatchingRuleAssertionMatchValue)) v
       (matchValue m)
  /\ (forall rest, nextOther TagMatchingRuleAssertionType (v ++ rest))
  /\ (forall rest, nextOther TagMatchingRuleAssertionMatchingRule (t ++ v ++ rest)).
Proof.
  intros Hf. destruct m as [r t v d]. unfold mra_contents in Hf. cbn in *. fits_inv.
  assert (fits (enc_opt (enc_str classContextSpecific TagMatchingRuleAssertionMatchingRule) r))
    as Hr by done.
  assert (fits (enc_opt (enc_str classContextSpecific TagMatchingRuleAssertionType) t))
    as Ht by done.
  assert (fits (enc_str classContextSpecific TagMatchingRuleAssertionMatchValue v)) as Hv by done.
  assert (forall tag, tag <> TagMatchingRuleAssertionMatchValue -> forall rest,
    nextOther tag (enc_str classContextSpecific TagMatchingRuleAssertionMatchValue v ++ rest)) as Hnv.
  { intros tag Hne rest. apply nextOther_tlv; [tag_side| |congruence]. exact (fits_str _ _ _ Hv). }
  split; [|split; [|split; [|split]]].
  - apply readsP_wrap. destruct r as [r|]; [|apply readIfTag_none].
    apply readIfTag_some; [tag_side|exact (fits_str _ _ _ Hr)|].
    unfold readTaggedMatchingRuleID. autounfold with prims. reads_one.
  - apply readsP_wrap. destruct t as [t|]; [|apply readIfTag_none].
    apply readIfTag_some; [tag_side|exact (fits_str _ _ _ Ht)|]. autounfold with prims. reads_one.
  - autounfold with prims. reads_one.
  - now apply Hnv.
  - intros rest. destruct t as [t|]; cbn [enc_opt app]; [|now apply Hnv].
    apply nextOther_tlv; [tag_side|exact (fits_str _ _ _ Ht)|discriminate].
Qed.

Lemma reads_mra (m : MatchingRuleAssertion) (class tag : Z) :
  short_tag class tag -> fits (mra_contents m) -> dnAttributes m = true ->
  reads (readTaggedMatchingRuleAssertion class tag) (tlv class true tag (mra_contents m)) m.
Proof.
  intros Hst Hf Hd. apply readsP_wrap, reads_sub; [done..|].
  destruct (mra_parts m Hf) as (Hr & Ht & Hv & Hn2 & Hn1).
  unfold MatchingRuleAssertion_readComponents, mra_contents. rewrite Hd.
  eapply readsP_bind_gen; [exact Hr|intros suf _; rewrite <- !app_assoc; apply Hn1|].
  eapply readsP_bind_gen; [exact Ht|intros suf _; rewrite <- !app_assoc; apply Hn2|].
  eapply readsP_bind; [exact Hv|].
  eapply readsP_last; [apply readsP_wrap, reads_any, reads_bool; tag_side|].
  destruct m. cbn in *. subst. apply readsP_ret.
Qed.

(** ** The contract of a substring filter *)

Lemma writes_substrings (l : list Substring) (k : Z) :
  fits (enc_substrings l) -> writes k (writeBackward Substring_writeTagged l k) (enc_substrings l).
Proof.
  intros Hf. apply writes_backward. apply fits_concat in Hf.
  eapply Forall_impl; [exact Hf|]. intros [v|v|v] Hv; unfold enc_substring in *;
    (apply writes_str; [tag_side|done]).
Qed.

Lemma size_substrings (l : list Substring) :
  fits (enc_substrings l) -> sumSizes Substring_sizeTagged l = len (enc_substrings l).
Proof.
  intros Hf. apply sumSizes_concat. apply fits_concat in Hf.
  eapply Forall_impl; [exact Hf|]. intros [v|v|v] Hv; unfold enc_substring in *;
    (apply size_str; [tag_side|done]).
Qed.
#[export] Hint Resolve writes_substrings : codec.
#[export] Hint Rewrite <- size_substrings using assumption : sizes.

Lemma writes_sf (s : SubstringFilter) (class tag : Z) :
  short_tag class tag -> fits (sf_contents s) ->
  writes 0 (SubstringFilter_writeTagged s class tag) (tlv class true tag (sf_contents s)).
Proof.
  intros Hst Hf. unfold sf_contents, SubstringFilter_writeTagged in *. fits_inv. writes_auto.
Qed.

Lemma size_sf (s : SubstringFilter) (class tag : Z) :
  short_tag class tag -> fits (sf_contents s) ->
  SubstringFilter_sizeTagged s tag = len (tlv class true tag (sf_contents s)).
Proof.
  intros Hst Hf. unfold SubstringFilter_sizeTagged. apply size_tlv; [|done..].
  unfold sf_contents in *. fits_inv. size_auto.
Qed.

(** One iteration of the loop reads one substring and counts it. *)
Lemma reads_substring (s : Substring) (i f : Z) (acc : list Substring) :
  fits (enc_substring s) ->
  i + count is_initial [s] <= 1 -> f + count is_final [s] <= 1 ->
  reads (SubstringFilter_readSubstring (i, f, acc)) (enc_substring s)
    (i + count is_initial [s], f + count is_final [s], acc ++ [s]).
Proof.
  intros Hf Hi Hn. unfold SubstringFilter_readSubstring.
  destruct s as [v|v|v]; unfold enc_substring, count in *; cbn [List.filter is_initial is_final] in *;
    change (len (@nil Substring)) with 0 in *; rewrite ?Z.add_0_r in *; rewrite ?len_singleton in *;
    (eapply readsP_peek;
      [apply peeks_wrap; rewrite <- (app_nil_r (enc_str _ _ _)); apply peeks_preview;
        [tag_side|exact (fits_str _ _ _ Hf)]|]);
    cbn [Tag Z.eqb TagSubstringInitial TagSubstringAny TagSubstringFinal Pos.eqb];
    try (rewrite (proj2 (Z.ltb_ge _ _)) by lia);
    autounfold with prims;
    (eapply readsP_last; [reads_one|apply readsP_ret]).
Qed.

Lemma count_cons p s l : count p (s :: l) = count p [s] + count p l.
Proof. unfold count. cbn [List.filter]. destruct (p s); len_lia. Qed.

Lemma count_nonneg p l : 0 <= count p l.
Proof. apply len_nonneg. Qed.

Lemma chain_substrings (l : list Substring) (i f : Z) (acc : list Substring) :
  fits (enc_substrings l) ->
  i + count is_initial l <= 1 -> f + count is_final l <= 1 ->
  chain SubstringFilter_readSubstring (i, f, acc) (enc_substrings l)
    (i + count is_initial l, f + count is_final l, acc ++ l).
Proof.
  revert i f acc. induction l as [|s l IH]; intros i f acc Hf Hi Hn.
  - change (count is_initial []) with 0. change (count is_final []) with 0.
    rewrite !Z.add_0_r, app_nil_r. constructor.
  - rewrite (count_cons is_initial), (count_cons is_final) in *.
    pose proof (count_nonneg is_initial l). pose proof (count_nonneg is_final l).
    unfold enc_substrings in *. cbn [map concat] in *. fits_inv.
    apply (chain_cons _ _ _ (i + count is_initial [s], f + count is_final [s], acc ++ [s])).
    + unfold enc_substring. destruct s; apply tlv_nonempty.
    + apply reads_substring; [done|lia|lia].
    + rewrite !Z.add_assoc. replace (acc ++ s :: l) with ((acc ++ [s]) ++ l)
        by (now rewrite <- app_assoc).
      apply IH; [done|lia|lia].
Qed.

Lemma reads_sf (s : SubstringFilter) (class tag : Z) :
  short_tag class tag -> fits (sf_contents s) -> sf_wf s ->
  reads (readTaggedSubstringFilter class tag) (tlv class true tag (sf_contents s)) s.
Proof.
  intros Hst Hf (Hne & Hi & Hn). apply readsP_wrap, reads_sub; [done..|].
  destruct s as [t l]. unfold sf_contents, SubstringFilter_readComponents in *. cbn in *. fits_inv.
  autounfold with prims. eapply readsP_bind; [reads_one|].
  eapply readsP_last; [|apply readsP_ret].
  apply readsP_wrap, readsP_wrap, reads_any, reads_sub; [tag_side|done|].
  unfold SubstringFilter_readSubstringsComponents.
  eapply readsP_last; [apply readsEnd_loop, chain_substrings; [done|lia|lia]|].
  cbn [app]. destruct l; [done|]. rewrite (proj2 (Z.eqb_neq _ _)) by len_lia. apply readsP_ret.
Qed.

(** ** The contract of the filters *)

Lemma Forall_and_foldr {A} (P : A -> Prop) (l : list A) :
  foldr (fun a Q => P a /\ Q) True l -> Forall P l.
Proof. induction l; cbn; [constructor|]. intros [? ?]. constructor; auto. Qed.

Lemma enc_filter_nonempty f : enc_filter f <> [].
Proof. destruct f; apply tlv_nonempty. Qed.

(** The lists of nested filters. *)
Lemma Forall_nested {P Q : Filter -> Prop} (l : list Filter) :
  Forall (fun f => fits (enc_filter f) -> Q f) l ->
  fits (concat (map enc_filter l)) -> Forall Q l.
Proof.
  intros H Hf. apply fits_concat in Hf. rewrite Forall_forall in *. auto.
Qed.

Lemma writes_filter (f : Filter) :
  fits (enc_filter f) -> writes 0 (Filter_write f) (enc_filter f).
Proof.
  induction f as [l IH|l IH|g IH|a|s|a|a|d|a|m] using Filter_nested_ind;
    cbn [Filter_write enc_filter]; intros Hf; fits_inv.
  - apply writes_tlv; [tag_side|done|]. apply writes_backward. now apply (Forall_nested (P := fun _ => True)).
  - apply writes_tlv; [tag_side|done|]. apply writes_backward. now apply (Forall_nested (P := fun _ => True)).
  - apply writes_tlv; [tag_side|done|]. now apply IH.
  - apply writes_ava; [tag_side|done].
  - apply writes_sf; [tag_side|done].
  - apply writes_ava; [tag_side|done].
  - apply writes_ava; [tag_side|done].
  - apply writes_str; [tag_side|done].
  - apply writes_ava; [tag_side|done].
  - apply writes_mra; [tag_side|done].
Qed.

Lemma size_filter (f : Filter) : fits (enc_filter f) -> Filter_size f = len (enc_filter f).
Proof.
  induction f as [l IH|l IH|g IH|a|s|a|a|d|a|m] using Filter_nested_ind;
    cbn [Filter_size enc_filter]; intros Hf; fits_inv.
  - apply size_tlv; [|tag_side..|done]. apply sumSizes_concat. now apply (Forall_nested (P := fun _ => True)).
  - apply size_tlv; [|tag_side..|done]. apply sumSizes_concat. now apply (Forall_nested (P := fun _ => True)).
  - apply size_tlv; [|tag_side..|done]. now apply IH.
  - apply size_ava; [tag_side|done].
  - apply size_sf; [tag_side|done].
  - apply size_ava; [tag_side|done].
  - apply size_ava; [tag_side|done].
  - apply (size_str classContextSpecific); [tag_side|done].
  - apply size_ava; [tag_side|done].
  - apply size_mra; [tag_side|done].
Qed.

(** [readFilter] dispatches on the tag of the filter it reads. *)
Lemma readsP_filter (fuel : nat) class compound tag s (f : Filter) :
  class = classContextSpecific -> short_tag class tag -> fits s ->
  reads (readFilterTag (readFilter_fuel fuel) tag) (tlv class compound tag s) f ->
  reads (readFilter_fuel (S fuel)) (tlv class compound tag s) f.
Proof.
  intros -> Hst Hf Hr. cbn [readFilter_fuel].
  eapply readsP_peek;
    [apply peeks_wrap; rewrite <- (app_nil_r (tlv _ _ _ _)); now apply peeks_preview|].
  eapply readsP_peek; [apply peeks_wrap; apply (peeks_lift tt)|]. cbn [Tag].
  now apply readsP_wrap.
Qed.

(** The set of filters of a conjunction or a disjunction. *)
Lemma reads_filters fn (rd : Go Bytes Filter) (l : list Filter) e :
  l <> [] -> Forall (fun f => reads rd (enc_filter f) f) l ->
  readsEnd
    (r <-- readAll (fun count => wrapErr (fn count) rd) ;;
     if len r =? 0 then fail e else ret r)
    (concat (map enc_filter l)) l.
Proof.
  intros Hne H. eapply readsP_last.
  - apply readsEnd_all. eapply Forall_impl; [exact H|]. intros f Hf.
    split; [apply enc_filter_nonempty|]. intros n. now apply readsP_wrap.
  - destruct l; [done|]. rewrite (proj2 (Z.eqb_neq _ _)) by len_lia. apply readsP_ret.
Qed.

Ltac filter_case compound tag :=
  apply (readsP_filter _ _ compound tag); [reflexivity|tag_side|assumption|];
  unfold readFilterTag;
  cbn [Z.eqb Pos.eqb TagFilterAnd TagFilterOr TagFilterNot TagFilterEqualityMatch
       TagFilterSubstrings TagFilterGreaterOrEqual TagFilterLessOrEqual TagFilterPresent
       TagFilterApproxMatch TagFilterExtensibleMatch];
  eapply readsP_last; [apply readsP_wrap|apply readsP_ret].

Lemma len_tlv_lt class compound tag s : len s + 2 <= len (tlv class compound tag s).
Proof.
  unfold tlv, header, enc_len. destruct (_ <? _); len_lia.
Qed.

Lemma enc_filter_nested (f : Filter) (l : list Filter) :
  f ∈ l -> len (enc_filter f) <= len (concat (map enc_filter l)).
Proof.
  induction l as [|g l IH]; [intros H; now apply not_elem_of_nil in H|].
  intros [->|H]%elem_of_cons; cbn [map concat]; rewrite len_app; len_facts; [lia|].
  specialize (IH H). lia.
Qed.

Lemma enc_filter_pos (f : Filter) : 1 <= len (enc_filter f).
Proof. pose proof (enc_filter_nonempty f). destruct (enc_filter f); [done|len_lia]. Qed.

(** The nested filters are shorter, so less fuel reads them. *)
Lemma reads_nested (l : list Filter) (n : nat) class tag :
  Forall (fun f => forall fuel, filter_wf f -> fits (enc_filter f) ->
    len (enc_filter f) <= Z.of_nat fuel -> reads (readFilter_fuel fuel) (enc_filter f) f) l ->
  foldr (fun g P => filter_wf g /\ P) True l -> fits (concat (map enc_filter l)) ->
  len (tlv class true tag (concat (map enc_filter l))) <= Z.of_nat (S n) ->
  Forall (fun f => reads (readFilter_fuel n) (enc_filter f) f) l.
Proof.
  intros IH Hwf%Forall_and_foldr Hf%fits_concat Hl.
  pose proof (len_tlv_lt class true tag (concat (map enc_filter l))).
  rewrite Forall_forall in *. intros f Hin.
  pose proof (enc_filter_nested f l Hin). apply IH; auto. lia.
Qed.

(** Every filter that the readers accept is read back, given enough fuel. *)
Lemma reads_filter_fuel (f : Filter) (fuel : nat) :
  filter_wf f -> fits (enc_filter f) -> len (enc_filter f) <= Z.of_nat fuel ->
  reads (readFilter_fuel fuel) (enc_filter f) f.
Proof.
  revert fuel. induction f as [l IH|l IH|g IH|a|s|a|a|d|a|m] using Filter_nested_ind;
    intros fuel Hwf Hf Hl;
    (destruct fuel as [|n];
      [exfalso; match type of Hl with len (enc_filter ?f) <= _ =>
         pose proof (enc_filter_pos f) end; lia|]);
    cbn [enc_filter filter_wf] in *; fits_inv.
  - filter_case true TagFilterAnd. destruct Hwf. apply reads_sub; [tag_side|done|].
    apply reads_filters; [done|]. now apply (reads_nested _ _ classContextSpecific TagFilterAnd).
  - filter_case true TagFilterOr. destruct Hwf. apply reads_sub; [tag_side|done|].
    apply reads_filters; [done|]. now apply (reads_nested _ _ classContextSpecific TagFilterOr).
  - filter_case true TagFilterNot. apply reads_sub; [tag_side|done|].
    pose proof (len_tlv_lt classContextSpecific true TagFilterNot (enc_filter g)).
    apply readsP_wrap, reads_any, IH; [done|done|lia].
  - filter_case true TagFilterEqualityMatch. apply reads_ava; [tag_side|done].
  - filter_case true TagFilterSubstrings. apply reads_sf; [tag_side|done|done].
  - filter_case true TagFilterGreaterOrEqual. apply reads_ava; [tag_side|done].
  - filter_case true TagFilterLessOrEqual. apply reads_ava; [tag_side|done].
  - pose proof (fits_str _ _ _ Hf). filter_case false TagFilterPresent.
    autounfold with prims. reads_one.
  - filter_case true TagFilterApproxMatch. apply reads_ava; [tag_side|done].
  - filter_case true TagFilterExtensibleMatch. apply reads_mra; [tag_side|done|done].
Qed.

Lemma reads_filter (f : Filter) :
  filter_wf f -> fits (enc_filter f) -> reads readFilter (enc_filter f) f.
Proof.
  intros Hwf Hf pre suf Hs. unfold readFilter. cbn [buf].
  apply reads_filter_fuel; [done|done| |done]. unfold len. rewrite !length_app. lia.
Qed.

#[export, program] Instance Filter_Codec : Codec Filter := {|
  enc := enc_filter; wf := filter_wf;
  c_write := Filter_write; c_size := Filter_size; c_read := readFilter
|}.
Next Obligation. intros f _ Hf. now apply writes_filter. Qed.
Next Obligation. intros f _ Hf. now apply size_filter. Qed.
Next Obligation. intros f Hwf Hf. now apply reads_filter. Qed.
Next Obligation. apply enc_filter_nonempty. Qed.

(** ** Termination *)

Lemma terminates_mra n class tag : terminates n 2 (readTaggedMatchingRuleAssertion class tag).
Proof.
  unfold readTaggedMatchingRuleAssertion, MatchingRuleAssertion_readComponents,
    MatchingRuleAssertion_readMatchingRule, MatchingRuleAssertion_readType, readIfTag.
  autounfold with prims. terminates_auto.
Qed.

Lemma terminates_substring n x : terminates n 2 (SubstringFilter_readSubstring x).
Proof.
  destruct x as [[i f] l]. unfold SubstringFilter_readSubstring. autounfold with prims.
  apply terminates_bind_r; [terminates_auto|]. intros t.
  repeat case_match; terminates_auto.
Qed.

Lemma terminates_sf n class tag : terminates n 2 (readTaggedSubstringFilter class tag).
Proof.
  unfold readTaggedSubstringFilter, SubstringFilter_readComponents,
    SubstringFilter_readSubstrings, SubstringFilter_readSubstringsComponents.
  pose proof terminates_substring. autounfold with prims. terminates_auto.
Qed.
#[export] Hint Resolve terminates_mra terminates_sf : terminates.

Lemma terminates_filter_fuel (fuel : nat) n :
  n < Z.of_nat fuel -> terminates n 2 (readFilter_fuel fuel).
Proof.
  revert n. induction fuel as [|fuel IH]; intros n Hn.
  { intros b Hb Hl. len_facts. lia. }
  cbn [readFilter_fuel]. apply terminates_bind_r; [terminates_auto|]. intros t.
  apply terminates_bind_r; [terminates_auto; apply ExpectClass_converges|]. intros _.
  apply terminates_wrap.
  assert (forall m, m <= n - 2 -> terminates m 2 (readFilter_fuel fuel)) as Hrec
    by (intros m Hm; apply IH; lia).
  unfold readFilterTag, readFilterAnd, readFilterOr, readFilterNot, FilterAnd_readComponents,
    FilterOr_readComponents, FilterNot_readComponents, readFilterEqualityMatch,
    readFilterSubstrings, readFilterGreaterOrEqual, readFilterLessOrEqual, readFilterPresent,
    readFilterApproxMatch, readFilterExtensibleMatch. autounfold with prims.
  repeat (case_match; [terminates_auto|]); terminates_auto.
  all: eapply terminates_weaken; [apply Hrec; lia|lia].
Qed.

Lemma terminates_filter n : terminates n 2 readFilter.
Proof.
  intros b Hb Hn. unfold readFilter.
  apply (terminates_filter_fuel _ (len (buf b))); [unfold len; lia|done|lia].
Qed.
#[export] Hint Resolve terminates_filter : terminates.
