(* ===== verification/LdapOps.v ===== *)
(** * Requests and responses

    lib/ldapsrv/goldap: bind_request.go, bind_response.go, unbind_request.go,
    search_request.go, search_result_entry.go, search_result_done.go,
    search_result_reference.go, modify_request.go, modify_request_change.go,
    modify_response.go, add_request.go, add_response.go, del_request.go,
    del_response.go, modify_dn_request.go, modify_dn_response.go,
    compare_request.go, compare_response.go, abandon_request.go,
    extended_request.go, extended_response.go, intermediate_response.go and
    password_modify_request.go.  The definitions come first, then the
    denotations and the contracts. *)

From S2P Require Import Prelude Asn1 Codec LdapTypes LdapPrim LdapAttr LdapFilter.
From Stdlib Require Import Strings.Byte.

(** ** bind_request.go *)

(** [AuthenticationSimple] panics when the credentials are not simple. *)
Definition AuthenticationSimple (request : BindRequest) : outcome OCTETSTRING :=
  match authentication request with
  | AuthSimple s => Ok s
  | _ => Panic "interface conversion"
  end.

(** [AuthenticationChoice] *)
Definition AuthenticationChoiceName (request : BindRequest) : string :=
  match authentication request with
  | AuthSimple _ => "simple"
  | AuthSasl _ => "sasl"
  | AuthNil => ""
  end.

Definition BindRequest_readComponents : Go Bytes BindRequest :=
  version <-- wrapErr "readComponents:" readINTEGER ;;
  if (version <? BindRequestVersionMin) || (BindRequestVersionMax <? version)
  then fail (LdapError "readComponents: invalid version"
               [version; BindRequestVersionMin; BindRequestVersionMax])
  else
    name <-- wrapErr "readComponents:" readLDAPDN ;;
    authentication <-- wrapErr "readComponents:" readAuthenticationChoice ;;
    ret (mkBindRequest authentication name version).

Definition readBindRequest : Go Bytes BindRequest :=
  wrapErr "readBindRequest:"
    (ReadSubBytes classApplication TagBindRequest BindRequest_readComponents).

Definition BindRequest_write (request : BindRequest) : Go Bytes Z :=
  size <-- match authentication request with
           | AuthSimple s =>
               0 += OCTETSTRING_writeTagged s classContextSpecific TagAuthenticationChoiceSimple
           | AuthSasl s =>
               0 += SaslCredentials_writeTagged s classContextSpecific
                      TagAuthenticationChoiceSaslCredentials
           | AuthNil => panic "Unknown authentication choice"
           end ;;
  size <-- size += LDAPDN_write (br_name request) ;;
  size <-- size += INTEGER_write (version request) ;;
  size += WriteTagAndLength classApplication isCompound TagBindRequest size.

Definition BindRequest_size (request : BindRequest) : outcome Z :=
  let size := 0 + INTEGER_size (version request) in
  let size := size + LDAPDN_size (br_name request) in
  size <-? match authentication request with
           | AuthSimple s => Ok (size + OCTETSTRING_sizeTagged s TagAuthenticationChoiceSimple)
           | AuthSasl s =>
               Ok (size + SaslCredentials_sizeTagged s TagAuthenticationChoiceSaslCredentials)
           | AuthNil => Panic "Unknown authentication choice"
           end ;;
  Ok (size + sizeTagAndLength TagBindRequest size).

(** ** bind_response.go *)

Definition BindResponse_readComponents : Go Bytes BindResponse :=
  result <-- wrapf "error while reading LDAP result" [] LDAPResult_readComponents ;;
  serverSaslCreds <-- readOptional "readComponents:" TagBindResponseServerSaslCreds
    (readTaggedOCTETSTRING classContextSpecific TagBindResponseServerSaslCreds) ;;
  ret (mkBindResponse result serverSaslCreds).

Definition readBindResponse : Go Bytes BindResponse :=
  wrapErr "readBindResponse:"
    (ReadSubBytes classApplication TagBindResponse BindResponse_readComponents).

Definition BindResponse_write (response : BindResponse) : Go Bytes Z :=
  size <-- write_opt (fun c => OCTETSTRING_writeTagged c classContextSpecific
                                 TagBindResponseServerSaslCreds) (serverSaslCreds response) 0 ;;
  size <-- size += LDAPResult_writeComponents (br_result response) ;;
  size += WriteTagAndLength classApplication isCompound TagBindResponse size.

Definition BindResponse_size (response : BindResponse) : Z :=
  let size := size_opt (fun c => OCTETSTRING_sizeTagged c TagBindResponseServerSaslCreds)
                (serverSaslCreds response) 0 in
  let size := size + LDAPResult_sizeComponents (br_result response) in
  size + sizeTagAndLength TagBindResponse size.

(** ** unbind_request.go *)

Definition readUnbindRequest : Go Bytes unit :=
  tagAndLength <-- wrapErr "readUnbindRequest:" ParseTagAndLength ;;
  wrapErr "readUnbindRequest:"
    (lift (Expect tagAndLength classApplication TagUnbindRequest isNotCompound)) ;;;
  if negb (Length tagAndLength =? 0)
  then fail (LdapError "readUnbindRequest: expecting NULL" [])
  else ret tt.

Definition UnbindRequest_write : Go Bytes Z :=
  0 += WriteTagAndLength classApplication isNotCompound TagUnbindRequest 0.

Definition UnbindRequest_size : Z := sizeTagAndLength TagUnbindRequest 0.

(** ** search_request.go *)

Definition SearchRequest_readComponents : Go Bytes SearchRequest :=
  baseObject <-- wrapErr "readComponents:" readLDAPDN ;;
  scope <-- wrapErr "readComponents:" (readENUMERATED EnumeratedSearchRequestScope) ;;
  derefAliases <-- wrapErr "readComponents:"
                     (readENUMERATED EnumeratedSearchRequestDerefAliases) ;;
  sizeLimit <-- wrapErr "readComponents:" readPositiveINTEGER ;;
  timeLimit <-- wrapErr "readComponents:" readPositiveINTEGER ;;
  typesOnly <-- wrapErr "readComponents:" readBOOLEAN ;;
  filter <-- wrapErr "readComponents:" readFilter ;;
  attributes <-- wrapErr "readComponents:" readAttributeSelection ;;
  ret (mkSearchRequest filter baseObject attributes scope derefAliases sizeLimit timeLimit
         typesOnly).

Definition readSearchRequest : Go Bytes SearchRequest :=
  wrapErr "readSearchRequest:"
    (ReadSubBytes classApplication TagSearchRequest SearchRequest_readComponents).

Definition SearchRequest_write (s : SearchRequest) : Go Bytes Z :=
  size <-- 0 += AttributeSelection_write (sr_attributes s) ;;
  size <-- size += Filter_write (sr_filter s) ;;
  size <-- size += BOOLEAN_write (typesOnly s) ;;
  size <-- size += INTEGER_write (timeLimit s) ;;
  size <-- size += INTEGER_write (sizeLimit s) ;;
  size <-- size += ENUMERATED_write (derefAliases s) ;;
  size <-- size += ENUMERATED_write (scope s) ;;
  size <-- size += LDAPDN_write (baseObject s) ;;
  size += WriteTagAndLength classApplication isCompound TagSearchRequest size.

Definition SearchRequest_size (s : SearchRequest) : Z :=
  let size := 0 + LDAPDN_size (baseObject s) in
  let size := size + ENUMERATED_size (scope s) in
  let size := size + ENUMERATED_size (derefAliases s) in
  let size := size + INTEGER_size (sizeLimit s) in
  let size := size + INTEGER_size (timeLimit s) in
  let size := size + BOOLEAN_size (typesOnly s) in
  let size := size + Filter_size (sr_filter s) in
  let size := size + AttributeSelection_size (sr_attributes s) in
  size + sizeTagAndLength TagSearchRequest size.

Definition FilterString (s : SearchRequest) : string := decompileFilter (sr_filter s).

(** ** search_result_entry.go, search_result_done.go, search_result_reference.go *)

Definition SearchResultEntry_readComponents : Go Bytes SearchResultEntry :=
  objectName <-- wrapErr "readComponents:" readLDAPDN ;;
  attributes <-- wrapErr "readComponents:" readPartialAttributeList ;;
  ret (mkSearchResultEntry objectName attributes).

Definition readSearchResultEntry : Go Bytes SearchResultEntry :=
  wrapErr "readSearchResultEntry:"
    (ReadSubBytes classApplication TagSearchResultEntry SearchResultEntry_readComponents).

Definition SearchResultEntry_write (s : SearchResultEntry) : Go Bytes Z :=
  size <-- 0 += PartialAttributeList_write (sre_attributes s) ;;
  size <-- size += LDAPDN_write (objectName s) ;;
  size += WriteTagAndLength classApplication isCompound TagSearchResultEntry size.

Definition SearchResultEntry_size (s : SearchResultEntry) : Z :=
  let size := 0 + LDAPDN_size (objectName s) in
  let size := size + PartialAttributeList_size (sre_attributes s) in
  size + sizeTagAndLength tagSequence size.

Definition SetObjectName (s : SearchResultEntry) (on : string) : SearchResultEntry :=
  mkSearchResultEntry on (sre_attributes s).

Definition AddAttribute (s : SearchResultEntry) (name : AttributeDescription)
    (values : list AttributeValue) : SearchResultEntry :=
  mkSearchResultEntry (objectName s)
    (PartialAttributeList_add (sre_attributes s) (mkPartialAttribute name values)).

Definition readSearchResultDone : Go Bytes LDAPResult :=
  wrapErr "readSearchResultDone:" (readTaggedLDAPResult classApplication TagSearchResultDone).
Definition SearchResultDone_write (s : LDAPResult) : Go Bytes Z :=
  LDAPResult_writeTagged s classApplication TagSearchResultDone.
Definition SearchResultDone_size (s : LDAPResult) : Z :=
  LDAPResult_sizeTagged s TagSearchResultDone.

Definition SearchResultReference_readComponents : Go Bytes SearchResultReference :=
  s <-- readAll (fun _ => wrapErr "readComponents:" readURI) ;;
  if len s =? 0
  then fail (LdapError "readComponents: expecting at least one URI" [])
  else ret s.

Definition readSearchResultReference : Go Bytes SearchResultReference :=
  wrapErr "readSearchResultReference:"
    (ReadSubBytes classApplication TagSearchResultReference SearchResultReference_readComponents).

Definition SearchResultReference_write (s : SearchResultReference) : Go Bytes Z :=
  size <-- writeBackward URI_write s 0 ;;
  size += WriteTagAndLength classApplication isCompound TagSearchResultReference size.

Definition SearchResultReference_size (s : SearchResultReference) : Z :=
  let size := sumSizes URI_size s in
  size + sizeTagAndLength tagSequence size.

(** ** modify_request_change.go, modify_request.go and modify_response.go *)

Definition ModifyRequestChange_readComponents : Go Bytes ModifyRequestChange :=
  operation <-- wrapErr "readComponents:" (readENUMERATED EnumeratedModifyRequestChangeOperation) ;;
  modification <-- wrapErr "readComponents:" readPartialAttribute ;;
  ret (mkModifyRequestChange modification operation).

Definition readModifyRequestChange : Go Bytes ModifyRequestChange :=
  wrapErr "readModifyRequestChange:"
    (ReadSubBytes classUniversal tagSequence ModifyRequestChange_readComponents).

Definition ModifyRequestChange_write (m : ModifyRequestChange) : Go Bytes Z :=
  size <-- 0 += PartialAttribute_write (modification m) ;;
  size <-- size += ENUMERATED_write (operation m) ;;
  size += WriteTagAndLength classUniversal isCompound tagSequence size.

Definition ModifyRequestChange_size (m : ModifyRequestChange) : Z :=
  let size := 0 + ENUMERATED_size (operation m) in
  let size := size + PartialAttribute_size (modification m) in
  size + sizeTagAndLength tagSequence size.

Definition ModifyRequest_readChanges : Go Bytes (list ModifyRequestChange) :=
  readAll (fun _ => wrapErr "readChanges:" readModifyRequestChange).

Definition ModifyRequest_readComponents : Go Bytes ModifyRequest :=
  object <-- wrapErr "readComponents:" readLDAPDN ;;
  changes <-- ReadSubBytes classUniversal tagSequence ModifyRequest_readChanges ;;
  ret (mkModifyRequest object changes).

Definition readModifyRequest : Go Bytes ModifyRequest :=
  wrapErr "readModifyRequest:"
    (ReadSubBytes classApplication TagModifyRequest ModifyRequest_readComponents).

Definition ModifyRequest_write (m : ModifyRequest) : Go Bytes Z :=
  size <-- writeBackward ModifyRequestChange_write (changes m) 0 ;;
  size <-- size += WriteTagAndLength classUniversal isCompound tagSequence size ;;
  size <-- size += LDAPDN_write (mr_object m) ;;
  size += WriteTagAndLength classApplication isCompound TagModifyRequest size.

Definition ModifyRequest_size (m : ModifyRequest) : Z :=
  let size := sumSizes ModifyRequestChange_size (changes m) in
  let size := size + sizeTagAndLength tagSequence size in
  let size := size + LDAPDN_size (mr_object m) in
  size + sizeTagAndLength TagModifyRequest size.

Definition readModifyResponse : Go Bytes LDAPResult :=
  wrapErr "readModifyResponse:" (readTaggedLDAPResult classApplication TagModifyResponse).
Definition ModifyResponse_write (m : LDAPResult) : Go Bytes Z :=
  LDAPResult_writeTagged m classApplication TagModifyResponse.
Definition ModifyResponse_size (m : LDAPResult) : Z := LDAPResult_sizeTagged m TagModifyResponse.

(** ** add_request.go and add_response.go *)

Definition AddRequest_readComponents : Go Bytes AddRequest :=
  entry <-- wrapErr "readComponents:" readLDAPDN ;;
  attributes <-- wrapErr "readComponents:" readAttributeList ;;
  ret (mkAddRequest entry attributes).

Definition readAddRequest : Go Bytes AddRequest :=
  wrapErr "readAddRequest:" (ReadSubBytes classApplication TagAddRequest AddRequest_readComponents).

Definition AddRequest_size (add : AddRequest) : Z :=
  let size := 0 + LDAPDN_size (ar_entry add) in
  let size := size + AttributeList_size (ar_attributes add) in
  size + sizeTagAndLength TagAddRequest size.

Definition AddRequest_write (add : AddRequest) : Go Bytes Z :=
  size <-- 0 += AttributeList_write (ar_attributes add) ;;
  size <-- size += LDAPDN_write (ar_entry add) ;;
  size += WriteTagAndLength classApplication isCompound TagAddRequest size.

Definition readAddResponse : Go Bytes LDAPResult :=
  wrapErr "readAddResponse:" (readTaggedLDAPResult classApplication TagAddResponse).
Definition AddResponse_write (a : LDAPResult) : Go Bytes Z :=
  LDAPResult_writeTagged a classApplication TagAddResponse.
Definition AddResponse_size (a : LDAPResult) : Z := LDAPResult_sizeTagged a TagAddResponse.

(** ** del_request.go and del_response.go *)

Definition readDelRequest : Go Bytes DelRequest :=
  wrapErr "readDelRequest:" (readTaggedLDAPDN classApplication TagDelRequest).
Definition DelRequest_write (del : DelRequest) : Go Bytes Z :=
  LDAPDN_writeTagged del classApplication TagDelRequest.
Definition DelRequest_size (del : DelRequest) : Z := LDAPDN_sizeTagged del TagDelRequest.

Definition readDelResponse : Go Bytes LDAPResult :=
  wrapErr "readDelResponse:" (readTaggedLDAPResult classApplication TagDelResponse).
Definition DelResponse_write (del : LDAPResult) : Go Bytes Z :=
  LDAPResult_writeTagged del classApplication TagDelResponse.
Definition DelResponse_size (del : LDAPResult) : Z := LDAPResult_sizeTagged del TagDelResponse.

(** ** modify_dn_request.go and modify_dn_response.go *)

Definition ModifyDNRequest_readComponents : Go Bytes ModifyDNRequest :=
  entry <-- wrapErr "readComponents:" readLDAPDN ;;
  newrdn <-- wrapErr "readComponents:" readRelativeLDAPDN ;;
  deleteoldrdn <-- wrapErr "readComponents:" readBOOLEAN ;;
  newSuperior <-- readOptional "readComponents:" TagModifyDNRequestNewSuperior
    (readTaggedLDAPDN classContextSpecific TagModifyDNRequestNewSuperior) ;;
  ret (mkModifyDNRequest newSuperior entry newrdn deleteoldrdn).

Definition readModifyDNRequest : Go Bytes ModifyDNRequest :=
  wrapErr "readModifyDNRequest:"
    (ReadSubBytes classApplication TagModifyDNRequest ModifyDNRequest_readComponents).

Definition ModifyDNRequest_write (m : ModifyDNRequest) : Go Bytes Z :=
  size <-- write_opt (fun s => LDAPDN_writeTagged s classContextSpecific
                                 TagModifyDNRequestNewSuperior) (newSuperior m) 0 ;;
  size <-- size += BOOLEAN_write (deleteoldrdn m) ;;
  size <-- size += RelativeLDAPDN_write (newrdn m) ;;
  size <-- size += LDAPDN_write (mdn_entry m) ;;
  size += WriteTagAndLength classApplication isCompound TagModifyDNRequest size.

Definition ModifyDNRequest_size (m : ModifyDNRequest) : Z :=
  let size := 0 + LDAPDN_size (mdn_entry m) in
  let size := size + RelativeLDAPDN_size (newrdn m) in
  let size := size + BOOLEAN_size (deleteoldrdn m) in
  let size := size_opt (fun s => LDAPDN_sizeTagged s TagModifyDNRequestNewSuperior)
                (newSuperior m) size in
  size + sizeTagAndLength TagModifyDNRequest size.

Definition readModifyDNResponse : Go Bytes LDAPResult :=
  wrapErr "readModifyDNResponse:" (readTaggedLDAPResult classApplication TagModifyDNResponse).
Definition ModifyDNResponse_write (m : LDAPResult) : Go Bytes Z :=
  LDAPResult_writeTagged m classApplication TagModifyDNResponse.
Definition ModifyDNResponse_size (m : LDAPResult) : Z :=
  LDAPResult_sizeTagged m TagModifyDNResponse.

(** ** compare_request.go and compare_response.go *)

Definition CompareRequest_readComponents : Go Bytes CompareRequest :=
  entry <-- wrapErr "readComponents:" readLDAPDN ;;
  ava <-- wrapErr "readComponents:" readAttributeValueAssertion ;;
  ret (mkCompareRequest entry ava).

Definition readCompareRequest : Go Bytes CompareRequest :=
  wrapErr "readCompareRequest:"
    (ReadSubBytes classApplication TagCompareRequest CompareRequest_readComponents).

Definition CompareRequest_write (request : CompareRequest) : Go Bytes Z :=
  size <-- 0 += AttributeValueAssertion_write (ava request) ;;
  size <-- size += LDAPDN_write (cr_entry request) ;;
  size += WriteTagAndLength classApplication isCompound TagCompareRequest size.

Definition CompareRequest_size (request : CompareRequest) : Z :=
  let size := 0 + LDAPDN_size (cr_entry request) in
  let size := size + AttributeValueAssertion_size (ava request) in
  size + sizeTagAndLength TagCompareRequest size.

Definition readCompareResponse : Go Bytes LDAPResult :=
  wrapErr "readCompareResponse:" (readTaggedLDAPResult classApplication TagCompareResponse).
Definition CompareResponse_write (response : LDAPResult) : Go Bytes Z :=
  LDAPResult_writeTagged response classApplication TagCompareResponse.
Definition CompareResponse_size (response : LDAPResult) : Z :=
  LDAPResult_sizeTagged response TagCompareResponse.

(** ** abandon_request.go *)

Definition readAbandonRequest : Go Bytes AbandonRequest :=
  wrapErr "readAbandonRequest:" (readTaggedMessageID classApplication TagAbandonRequest).
Definition AbandonRequest_size (abandon : AbandonRequest) : Z :=
  MessageID_sizeTagged abandon TagAbandonRequest.
Definition AbandonRequest_write (abandon : AbandonRequest) : Go Bytes Z :=
  MessageID_writeTagged abandon classApplication TagAbandonRequest.

(** ** extended_request.go, extended_response.go and intermediate_response.go *)

Definition ExtendedRequest_readComponents : Go Bytes ExtendedRequest :=
  requestName <-- wrapErr "readComponents:"
    (readTaggedLDAPOID classContextSpecific TagExtendedRequestName) ;;
  requestValue <-- readOptional "readComponents:" TagExtendedRequestValue
    (readTaggedOCTETSTRING classContextSpecific TagExtendedRequestValue) ;;
  ret (mkExtendedRequest requestValue requestName).

Definition readExtendedRequest : Go Bytes ExtendedRequest :=
  wrapErr "readExtendedRequest:"
    (ReadSubBytes classApplication TagExtendedRequest ExtendedRequest_readComponents).

Definition ExtendedRequest_write (extended : ExtendedRequest) : Go Bytes Z :=
  size <-- write_opt (fun v => OCTETSTRING_writeTagged v classContextSpecific
                                 TagExtendedRequestValue) (requestValue extended) 0 ;;
  size <-- size += LDAPOID_writeTagged (requestName extended) classContextSpecific
                     TagExtendedRequestName ;;
  size += WriteTagAndLength classApplication isCompound TagExtendedRequest size.

Definition ExtendedRequest_size (extended : ExtendedRequest) : Z :=
  let size := 0 + LDAPOID_sizeTagged (requestName extended) TagExtendedRequestName in
  let size := size_opt (fun v => OCTETSTRING_sizeTagged v TagExtendedRequestValue)
                (requestValue extended) size in
  size + sizeTagAndLength TagExtendedRequest size.

Definition ExtendedResponse_readComponents : Go Bytes ExtendedResponse :=
  result <-- wrapf "error while reading LDAP result" [] LDAPResult_readComponents ;;
  responseName <-- readOptional "readComponents:" TagExtendedResponseName
    (readTaggedLDAPOID classContextSpecific TagExtendedResponseName) ;;
  responseValue <-- readOptional "readComponents:" TagExtendedResponseValue
    (readTaggedOCTETSTRING classContextSpecific TagExtendedResponseValue) ;;
  ret (mkExtendedResponse result responseName responseValue).

Definition readExtendedResponse : Go Bytes ExtendedResponse :=
  wrapErr "readExtendedResponse:"
    (ReadSubBytes classApplication TagExtendedResponse ExtendedResponse_readComponents).

Definition ExtendedResponse_write (extended : ExtendedResponse) : Go Bytes Z :=
  size <-- write_opt (fun v => OCTETSTRING_writeTagged v classContextSpecific
                                 TagExtendedResponseValue) (er_responseValue extended) 0 ;;
  size <-- write_opt (fun n => LDAPOID_writeTagged n classContextSpecific
                                 TagExtendedResponseName) (er_responseName extended) size ;;
  size <-- size += LDAPResult_writeComponents (er_result extended) ;;
  size += WriteTagAndLength classApplication isCompound TagExtendedResponse size.

Definition ExtendedResponse_size (extended : ExtendedResponse) : Z :=
  let size := 0 + LDAPResult_sizeComponents (er_result extended) in
  let size := size_opt (fun n => LDAPOID_sizeTagged n TagExtendedResponseName)
                (er_responseName extended) size in
  let size := size_opt (fun v => OCTETSTRING_sizeTagged v TagExtendedResponseValue)
                (er_responseValue extended) size in
  size + sizeTagAndLength TagExtendedResponse size.

Definition IntermediateResponse_readComponents : Go Bytes IntermediateResponse :=
  responseName <-- readOptional "readComponents:" TagIntermediateResponseName
    (readTaggedLDAPOID classContextSpecific TagIntermediateResponseName) ;;
  responseValue <-- readOptional "readComponents:" TagIntermediateResponseValue
    (readTaggedOCTETSTRING classContextSpecific TagIntermediateResponseValue) ;;
  ret (mkIntermediateResponse responseName responseValue).

Definition readIntermediateResponse : Go Bytes IntermediateResponse :=
  wrapErr "readIntermediateResponse:"
    (ReadSubBytes classApplication TagIntermediateResponse IntermediateResponse_readComponents).

Definition IntermediateResponse_write (i : IntermediateResponse) : Go Bytes Z :=
  size <-- write_opt (fun v => OCTETSTRING_writeTagged v classContextSpecific
                                 TagIntermediateResponseValue) (ir_responseValue i) 0 ;;
  size <-- write_opt (fun n => LDAPOID_writeTagged n classContextSpecific
                                 TagIntermediateResponseName) (ir_responseName i) size ;;
  size += WriteTagAndLength classApplication isCompound TagIntermediateResponse size.

Definition IntermediateResponse_size (i : IntermediateResponse) : Z :=
  let size := size_opt (fun n => LDAPOID_sizeTagged n TagIntermediateResponseName)
                (ir_responseName i) 0 in
  let size := size_opt (fun v => OCTETSTRING_sizeTagged v TagIntermediateResponseValue)
                (ir_responseValue i) size in
  size + sizeTagAndLength TagIntermediateResponse size.

(** ** password_modify_request.go *)

Definition readOptionalOctetString (expectedTag : Z) : Go Bytes (option OCTETSTRING) :=
  readOptional "readComponents:" expectedTag
    (readTaggedOCTETSTRING classContextSpecific expectedTag).

Definition PasswordModifyRequest_readComponents : Go Bytes PasswordModifyRequest :=
  userIdentity <-- readOptionalOctetString TagPasswordModifyRequestUserIdentity ;;
  oldPassword <-- readOptionalOctetString TagPasswordModifyRequestOldPassword ;;
  newPassword <-- readOptionalOctetString TagPasswordModifyRequestNewPassword ;;
  ret (mkPasswordModifyRequest userIdentity oldPassword newPassword).

Definition readPasswordModifyRequest : Go Bytes PasswordModifyRequest :=
  wrapErr "readPasswordModifyRequest:"
    (ReadSubBytes classUniversal tagSequence PasswordModifyRequest_readComponents).

Definition PasswordModifyRequest_write (request : PasswordModifyRequest) : Go Bytes Z :=
  size <-- write_opt (fun s => OCTETSTRING_writeTagged s classContextSpecific
             TagPasswordModifyRequestUserIdentity) (userIdentity request) 0 ;;
  size <-- write_opt (fun s => OCTETSTRING_writeTagged s classContextSpecific
             TagPasswordModifyRequestOldPassword) (oldPassword request) size ;;
  write_opt (fun s => OCTETSTRING_writeTagged s classContextSpecific
    TagPasswordModifyRequestNewPassword) (newPassword request) size.

Definition PasswordModifyRequest_size (request : PasswordModifyRequest) : Z :=
  let size := size_opt (fun s => OCTETSTRING_sizeTagged s TagPasswordModifyRequestUserIdentity)
                (userIdentity request) 0 in
  let size := size_opt (fun s => OCTETSTRING_sizeTagged s TagPasswordModifyRequestOldPassword)
                (oldPassword request) size in
  size_opt (fun s => OCTETSTRING_sizeTagged s TagPasswordModifyRequestNewPassword)
    (newPassword request) size.

Definition ErrMissingRequestValue : error := PlainError "missing RequestValue".

(** [ExtendedRequest.PasswordModifyRequest] reads the request value in a
    buffer of its own. *)
Definition ExtendedRequest_PasswordModifyRequest (extended : ExtendedRequest)
    : outcome PasswordModifyRequest :=
  match requestValue extended with
  | None => Err ErrMissingRequestValue
  | Some v =>
      fst (wrapf "error parsing RequestValue as PasswordModifyRequest" []
             readPasswordModifyRequest (NewBytes 0 (bytes_of v)))
  end.

(** ** Denotations: the contents of each operation *)

Definition bind_request_contents (r : BindRequest) : list byte :=
  enc_INTEGER (version r) ++ enc_OCTETSTRING (br_name r) ++ enc_auth (authentication r).

Definition bind_response_contents (r : BindResponse) : list byte :=
  result_contents (br_result r)
  ++ enc_opt (enc_str classContextSpecific TagBindResponseServerSaslCreds) (serverSaslCreds r).

Definition search_request_contents (s : SearchRequest) : list byte :=
  enc_OCTETSTRING (baseObject s) ++ enc_ENUMERATED (scope s) ++ enc_ENUMERATED (derefAliases s)
  ++ enc_INTEGER (sizeLimit s) ++ enc_INTEGER (timeLimit s) ++ enc_BOOLEAN (typesOnly s)
  ++ enc_filter (sr_filter s)
  ++ tlv classUniversal true tagSequence (enc_strings (sr_attributes s)).

Definition pal_contents (p : PartialAttributeList) : list byte := enc_list PartialAttribute_Codec p.
#[global] Arguments pal_contents : simpl never.

Definition search_entry_contents (s : SearchResultEntry) : list byte :=
  enc_OCTETSTRING (objectName s)
  ++ tlv classUniversal true tagSequence (pal_contents (sre_attributes s)).

Definition change_contents (m : ModifyRequestChange) : list byte :=
  enc_ENUMERATED (operation m)
  ++ tlv classUniversal true tagSequence (pa_contents (modification m)).

Definition change_wf (m : ModifyRequestChange) : Prop :=
  allowed EnumeratedModifyRequestChangeOperation (operation m) = true.

Definition al_contents (l : AttributeList) : list byte := enc_list Attribute_Codec l.
#[global] Arguments al_contents : simpl never.

Definition add_request_contents (r : AddRequest) : list byte :=
  enc_OCTETSTRING (ar_entry r) ++ tlv classUniversal true tagSequence (al_contents (ar_attributes r)).

Definition modify_dn_contents (m : ModifyDNRequest) : list byte :=
  enc_OCTETSTRING (mdn_entry m) ++ enc_OCTETSTRING (newrdn m) ++ enc_BOOLEAN (deleteoldrdn m)
  ++ enc_opt (enc_str classContextSpecific TagModifyDNRequestNewSuperior) (newSuperior m).

Definition compare_contents (r : CompareRequest) : list byte :=
  enc_OCTETSTRING (cr_entry r) ++ tlv classUniversal true tagSequence (ava_contents (ava r)).

Definition extended_request_contents (r : ExtendedRequest) : list byte :=
  enc_str classContextSpecific TagExtendedRequestName (requestName r)
  ++ enc_opt (enc_str classContextSpecific TagExtendedRequestValue) (requestValue r).

Definition extended_response_contents (r : ExtendedResponse) : list byte :=
  result_contents (er_result r)
  ++ enc_opt (enc_str classContextSpecific TagExtendedResponseName) (er_responseName r)
  ++ enc_opt (enc_str classContextSpecific TagExtendedResponseValue) (er_responseValue r).

Definition intermediate_contents (r : IntermediateResponse) : list byte :=
  enc_opt (enc_str classContextSpecific TagIntermediateResponseName) (ir_responseName r)
  ++ enc_opt (enc_str classContextSpecific TagIntermediateResponseValue) (ir_responseValue r).

(** ** Bind *)

Definition bind_request_wf (r : BindRequest) : Prop :=
  BindRequestVersionMin <= version r <= BindRequestVersionMax /\ authentication r <> AuthNil.

Lemma version_in_int32 v : BindRequestVersionMin <= v <= BindRequestVersionMax -> in_int32 v.
Proof. unfold BindRequestVersionMin, BindRequestVersionMax, in_int32. lia. Qed.
#[export] Hint Resolve version_in_int32 : codec.

Abbreviation op_tlv := (tlv classApplication true).

Lemma writes_bind_request (r : BindRequest) :
  bind_request_wf r -> fits (bind_request_contents r) ->
  writes 0 (BindRequest_write r) (op_tlv TagBindRequest (bind_request_contents r)).
Proof.
  intros [Hv Ha] Hf. destruct r as [a n v]. unfold bind_request_contents, BindRequest_write in *.
  cbn in *. fits_inv. pose proof (version_in_int32 _ Hv). destruct a as [|s|s]; [done| |];
    unfold enc_auth in *; fits_inv; [|pose proof (writes_sasl s ltac:(assumption)) as Hs;
    unfold enc_auth in Hs]; writes_auto.
Qed.

Lemma size_bind_request (r : BindRequest) :
  bind_request_wf r -> fits (bind_request_contents r) ->
  BindRequest_size r = Ok (len (op_tlv TagBindRequest (bind_request_contents r))).
Proof.
  intros [Hv Ha] Hf. destruct r as [a n v]. unfold BindRequest_size.
  cbn [version br_name authentication].
  assert (forall k, k = len (bind_request_contents (mkBindRequest a n v)) ->
    Ok (k + sizeTagAndLength TagBindRequest k)
    = Ok (len (op_tlv TagBindRequest (bind_request_contents (mkBindRequest a n v))))) as Hk.
  { intros k Hk. f_equal. apply size_tlv; [exact Hk|tag_side..|done]. }
  cbn in Hv, Ha. pose proof (version_in_int32 _ Hv).
  unfold bind_request_contents in *. cbn in Hf |- *. fits_inv.
  destruct a as [|s|s]; [done| |]; cbn [obind]; apply Hk; clear Hk;
    unfold enc_auth in *; fits_inv.
  - cbn. size_auto.
  - rewrite (size_sasl s) by done. unfold enc_auth. cbn. len_simpl.
    autounfold with prims. rewrite (size_int classUniversal tagInteger) by first [tag_side|done].
    rewrite (size_str classUniversal tagOctetString) by first [tag_side|done]. lia.
Qed.

Lemma reads_bind_request (r : BindRequest) :
  bind_request_wf r -> fits (bind_request_contents r) ->
  reads readBindRequest (op_tlv TagBindRequest (bind_request_contents r)) r.
Proof.
  intros [Hv Ha] Hf. apply readsP_wrap, reads_sub; [tag_side|done|].
  destruct r as [a n v]. unfold bind_request_contents, BindRequest_readComponents in *.
  cbn in *. fits_inv. pose proof (version_in_int32 _ Hv). autounfold with prims.
  eapply readsP_bind; [apply readsP_wrap, reads_INTEGER; done|].
  rewrite (proj2 (Z.ltb_ge _ _)) by lia. rewrite (proj2 (Z.ltb_ge _ _)) by lia. cbn [orb].
  eapply readsP_bind; [reads_one|].
  eapply readsP_last; [|apply readsP_ret]. now apply readsP_wrap, reads_any, reads_auth.
Qed.

Lemma writes_bind_response (r : BindResponse) :
  result_wf (br_result r) -> fits (bind_response_contents r) ->
  writes 0 (BindResponse_write r) (op_tlv TagBindResponse (bind_response_contents r)).
Proof.
  intros Hw Hf. unfold bind_response_contents, BindResponse_write in *. fits_inv.
  pose proof (writes_result _ Hw ltac:(assumption)). 
  eapply writes_eq.
  { eapply writes_bind; [apply (writes_opt_str classContextSpecific); [tag_side|done]|].
    autounfold with prims. repeat (writes_step_auto; rewrite ?Z.add_0_l). }
  bytes_eq.
Qed.

Lemma size_bind_response (r : BindResponse) :
  result_wf (br_result r) -> fits (bind_response_contents r) ->
  BindResponse_size r = len (op_tlv TagBindResponse (bind_response_contents r)).
Proof.
  intros Hw Hf. unfold BindResponse_size. apply size_tlv; [|tag_side..|done].
  unfold bind_response_contents in *. fits_inv.
  rewrite (size_opt_str classContextSpecific) by first [tag_side|done].
  rewrite size_result by done. len_lia.
Qed.

(** A result followed by optional strings with larger tags. *)
Lemma reads_result_then {A} (l : LDAPResult) (k : LDAPResult -> Go Bytes A) s a :
  result_wf l -> fits (result_contents l) ->
  notNext TagLDAPResultReferral s ->
  readsEnd (k l) s a ->
  readsEnd (r <-- wrapf "error while reading LDAP result" [] LDAPResult_readComponents ;; k r)
    (result_contents l ++ s) a.
Proof.
  intros Hw Hf Hn Hk. eapply readsP_bind_gen; [now apply readsP_wrapf, reads_result| |exact Hk].
  intros suf ->. now rewrite app_nil_r.
Qed.

Lemma reads_bind_response (r : BindResponse) :
  result_wf (br_result r) -> fits (bind_response_contents r) ->
  reads readBindResponse (op_tlv TagBindResponse (bind_response_contents r)) r.
Proof.
  intros Hw Hf. apply readsP_wrap, reads_sub; [tag_side|done|].
  destruct r as [l c]. unfold bind_response_contents, BindResponse_readComponents in *.
  cbn in *. fits_inv. apply reads_result_then; [done|done| |].
  - rewrite <- (app_nil_r (enc_opt _ _)).
    apply notNext_opt_str; [tag_side|discriminate|done|apply notNext_nil].
  - eapply readsP_last; [|apply readsP_ret].
    eapply readsP_weaken; [apply reads_opt_str; [tag_side|done|]|].
    + intros s Hs. now apply reads_str; [tag_side|].
    + intros suf ->. apply notNext_nil.
Qed.

(** ** Search *)

Definition search_request_wf (s : SearchRequest) : Prop :=
  allowed EnumeratedSearchRequestScope (scope s) = true
  /\ allowed EnumeratedSearchRequestDerefAliases (derefAliases s) = true
  /\ 0 <= sizeLimit s < 2 ^ 31 /\ 0 <= timeLimit s < 2 ^ 31.

Lemma positive_in_int32 i : 0 <= i < 2 ^ 31 -> in_int32 i.
Proof. unfold in_int32. lia. Qed.

(** The encodings of the integers of a search request. *)
Lemma search_request_ints (s : SearchRequest) :
  search_request_wf s ->
  in_int32 (scope s) /\ in_int32 (derefAliases s) /\ in_int32 (sizeLimit s)
  /\ in_int32 (timeLimit s).
Proof.
  intros (Hs & Hd & Hl & Ht). repeat split;
    first [ apply (allowed_in_int32 EnumeratedSearchRequestScope); [reflexivity|done]
          | apply (allowed_in_int32 EnumeratedSearchRequestDerefAliases); [reflexivity|done]
          | lia ].
Qed.

#[export] Hint Resolve writes_filter : codec.
#[export] Hint Rewrite <- size_filter using assumption : sizes.

Lemma writes_selection l :
  fits (enc_strings l) ->
  writes 0 (AttributeSelection_write l) (tlv classUniversal true tagSequence (enc_strings l)).
Proof. intros Hf. unfold AttributeSelection_write. writes_auto. Qed.
#[export] Hint Resolve writes_selection : codec.

Lemma writes_search_request (s : SearchRequest) :
  search_request_wf s -> fits (search_request_contents s) ->
  writes 0 (SearchRequest_write s) (op_tlv TagSearchRequest (search_request_contents s)).
Proof.
  intros Hw Hf. destruct (search_request_ints s Hw) as (? & ? & ? & ?).
  unfold search_request_contents, SearchRequest_write in *. fits_inv. writes_auto.
Qed.

Lemma size_search_request (s : SearchRequest) :
  search_request_wf s -> fits (search_request_contents s) ->
  SearchRequest_size s = len (op_tlv TagSearchRequest (search_request_contents s)).
Proof.
  intros Hw Hf. destruct (search_request_ints s Hw) as (? & ? & ? & ?).
  unfold SearchRequest_size. apply size_tlv; [|tag_side..|done].
  unfold search_request_contents in *. fits_inv. unfold AttributeSelection_size. size_auto.
Qed.

Lemma reads_search_request (s : SearchRequest) :
  search_request_wf s -> filter_wf (sr_filter s) -> fits (search_request_contents s) ->
  reads readSearchRequest (op_tlv TagSearchRequest (search_request_contents s)) s.
Proof.
  intros Hw Hfi Hf. destruct (search_request_ints s Hw) as (? & ? & ? & ?).
  destruct Hw as (Hs & Hd & Hl & Ht). apply readsP_wrap, reads_sub; [tag_side|done|].
  destruct s as [f b a sc d sl tl ty].
  unfold search_request_contents, SearchRequest_readComponents in *. cbn in *. fits_inv.
  assert (forall i, 0 <= i < 2 ^ 31 -> reads readPositiveINTEGER (enc_INTEGER i) i) as Hpos.
  { intros i Hi. apply reads_positive; [tag_side|done|].
    apply (fits_tlv classUniversal tagInteger false), fits_int; [tag_side|].
    now apply positive_in_int32. }
  eapply readsP_bind; [autounfold with prims; reads_one|].
  eapply readsP_bind; [apply readsP_wrap, reads_enumerated; [reflexivity|done]|].
  eapply readsP_bind; [apply readsP_wrap, reads_enumerated; [reflexivity|done]|].
  eapply readsP_bind; [now apply readsP_wrap, Hpos|].
  eapply readsP_bind; [now apply readsP_wrap, Hpos|].
  eapply readsP_bind; [apply readsP_wrap, reads_BOOLEAN|].
  eapply readsP_bind; [now apply readsP_wrap, reads_filter|].
  eapply readsP_last; [|apply readsP_ret].
  now apply readsP_wrap, reads_any, (c_reads (Codec := AttributeSelection_Codec)).
Qed.

Lemma writes_pal p :
  fits (pal_contents p) ->
  writes 0 (PartialAttributeList_write p) (tlv classUniversal true tagSequence (pal_contents p)).
Proof.
  intros Hf. apply (writes_sequence PartialAttribute_Codec); [tag_side|now apply Forall_true|done].
Qed.

Lemma size_pal p :
  fits (pal_contents p) ->
  PartialAttributeList_size p = len (tlv classUniversal true tagSequence (pal_contents p)).
Proof.
  intros Hf. apply (size_sequence PartialAttribute_Codec); [tag_side|now apply Forall_true|done].
Qed.

Lemma reads_pal p :
  fits (pal_contents p) ->
  reads readPartialAttributeList (tlv classUniversal true tagSequence (pal_contents p)) p.
Proof.
  intros Hf. apply readsP_wrap, (reads_sequence PartialAttribute_Codec);
    [tag_side|now apply Forall_true|done].
Qed.
#[export] Hint Resolve writes_pal reads_pal : codec.

Lemma writes_search_entry (s : SearchResultEntry) :
  fits (search_entry_contents s) ->
  writes 0 (SearchResultEntry_write s) (op_tlv TagSearchResultEntry (search_entry_contents s)).
Proof.
  intros Hf. unfold search_entry_contents, SearchResultEntry_write in *. fits_inv. writes_auto.
Qed.

Lemma size_search_entry (s : SearchResultEntry) :
  fits (search_entry_contents s) ->
  SearchResultEntry_size s = len (op_tlv TagSearchResultEntry (search_entry_contents s)).
Proof.
  intros Hf. unfold SearchResultEntry_size. apply size_tlv; [|tag_side..|done].
  unfold search_entry_contents in *. fits_inv. rewrite size_pal by done.
  rewrite len_app. autounfold with prims.
  rewrite (size_str classUniversal tagOctetString) by first [tag_side|done]. lia.
Qed.

Lemma reads_search_entry (s : SearchResultEntry) :
  fits (search_entry_contents s) ->
  reads readSearchResultEntry (op_tlv TagSearchResultEntry (search_entry_contents s)) s.
Proof.
  intros Hf. apply readsP_wrap, reads_sub; [tag_side|done|].
  destruct s. unfold search_entry_contents, SearchResultEntry_readComponents in *. cbn in *.
  fits_inv. reads_auto.
Qed.

Lemma writes_search_reference (s : SearchResultReference) :
  fits (enc_strings s) ->
  writes 0 (SearchResultReference_write s) (op_tlv TagSearchResultReference (enc_strings s)).
Proof. intros Hf. unfold SearchResultReference_write. writes_auto. Qed.

Lemma size_search_reference (s : SearchResultReference) :
  fits (enc_strings s) ->
  SearchResultReference_size s = len (op_tlv TagSearchResultReference (enc_strings s)).
Proof. intros Hf. unfold SearchResultReference_size. size_auto. Qed.

Lemma reads_search_reference (s : SearchResultReference) :
  s <> [] -> fits (enc_strings s) ->
  reads readSearchResultReference (op_tlv TagSearchResultReference (enc_strings s)) s.
Proof.
  intros Hne Hf. apply readsP_wrap, reads_sub; [tag_side|done|].
  unfold SearchResultReference_readComponents. eapply readsP_last; [now apply reads_uris|].
  destruct s; [done|]. rewrite (proj2 (Z.eqb_neq _ _)) by len_lia. apply readsP_ret.
Qed.

(** ** Modify *)

#[export, program] Instance ModifyRequestChange_Codec : Codec ModifyRequestChange := {|
  enc := fun m => tlv classUniversal true tagSequence (change_contents m);
  wf := change_wf;
  c_write := ModifyRequestChange_write;
  c_size := ModifyRequestChange_size;
  c_read := readModifyRequestChange
|}.
Next Obligation.
  intros m Hw Hf. assert (in_int32 (operation m)) by
    (apply (allowed_in_int32 EnumeratedModifyRequestChangeOperation); [reflexivity|done]).
  unfold change_contents, ModifyRequestChange_write in *. fits_inv.
  writes_auto.
Qed.
Next Obligation.
  intros m Hw Hf. assert (in_int32 (operation m)) by
    (apply (allowed_in_int32 EnumeratedModifyRequestChangeOperation); [reflexivity|done]).
  unfold ModifyRequestChange_size. apply size_tlv; [|tag_side..|exact (fits_tlv _ _ _ _ Hf)].
  unfold change_contents in *. fits_inv. rewrite len_app.
  rewrite size_pa by done.
  autounfold with prims. rewrite size_enum_int.
  rewrite (size_int classUniversal tagEnum) by first [tag_side|done]. lia.
Qed.
Next Obligation.
  intros m Hw Hf. destruct m as [p o]. unfold change_wf, change_contents in *. cbn in *. fits_inv.
  apply readsP_wrap, reads_sub; [tag_side|done|]. unfold ModifyRequestChange_readComponents.
  eapply readsP_bind; [apply readsP_wrap, reads_enumerated; [reflexivity|done]|].
  eapply readsP_last; [|apply readsP_ret].
  now apply readsP_wrap, reads_any, (c_reads (Codec := PartialAttribute_Codec)).
Qed.
Next Obligation. intros m. apply tlv_nonempty. Qed.

Definition changes_contents (l : list ModifyRequestChange) : list byte :=
  enc_list ModifyRequestChange_Codec l.
#[global] Arguments changes_contents : simpl never.

Definition modify_request_contents (m : ModifyRequest) : list byte :=
  enc_OCTETSTRING (mr_object m)
  ++ tlv classUniversal true tagSequence (changes_contents (changes m)).

Lemma writes_modify_request (m : ModifyRequest) :
  Forall change_wf (changes m) -> fits (modify_request_contents m) ->
  writes 0 (ModifyRequest_write m) (op_tlv TagModifyRequest (modify_request_contents m)).
Proof.
  intros Hw Hf. unfold modify_request_contents, ModifyRequest_write in *. fits_inv.
  pose proof (writes_list ModifyRequestChange_Codec (changes m) 0 Hw ltac:(assumption)) as Hl.
  cbn [c_write ModifyRequestChange_Codec] in Hl. fold (changes_contents (changes m)) in Hl.
  writes_auto.
Qed.

Lemma size_modify_request (m : ModifyRequest) :
  Forall change_wf (changes m) -> fits (modify_request_contents m) ->
  ModifyRequest_size m = len (op_tlv TagModifyRequest (modify_request_contents m)).
Proof.
  intros Hw Hf. unfold ModifyRequest_size. apply size_tlv; [|tag_side..|done].
  unfold modify_request_contents in *. fits_inv. rewrite len_app.
  rewrite (size_sequence ModifyRequestChange_Codec _ classUniversal)
    by first [tag_side|done]. autounfold with prims.
  rewrite (size_str classUniversal tagOctetString) by first [tag_side|done].
  unfold changes_contents. lia.
Qed.

Lemma reads_modify_request (m : ModifyRequest) :
  Forall change_wf (changes m) -> fits (modify_request_contents m) ->
  reads readModifyRequest (op_tlv TagModifyRequest (modify_request_contents m)) m.
Proof.
  intros Hw Hf. apply readsP_wrap, reads_sub; [tag_side|done|].
  destruct m as [o c]. unfold modify_request_contents, ModifyRequest_readComponents in *. cbn in *.
  fits_inv. eapply readsP_bind; [autounfold with prims; reads_one|].
  eapply readsP_last; [|apply readsP_ret].
  apply reads_any, (reads_sequence ModifyRequestChange_Codec); [tag_side|done|done].
Qed.

(** ** Add *)

Definition attributes_wf (l : AttributeList) : Prop := Forall (fun a => pa_vals a <> []) l.

Lemma writes_add_request (r : AddRequest) :
  attributes_wf (ar_attributes r) -> fits (add_request_contents r) ->
  writes 0 (AddRequest_write r) (op_tlv TagAddRequest (add_request_contents r)).
Proof.
  intros Hw Hf. unfold add_request_contents, AddRequest_write in *. fits_inv.
  assert (writes 0 (AttributeList_write (ar_attributes r))
    (tlv classUniversal true tagSequence (al_contents (ar_attributes r)))) as Hl.
  { apply (writes_sequence Attribute_Codec); [tag_side|done|done]. }
  writes_auto.
Qed.

Lemma size_add_request (r : AddRequest) :
  attributes_wf (ar_attributes r) -> fits (add_request_contents r) ->
  AddRequest_size r = len (op_tlv TagAddRequest (add_request_contents r)).
Proof.
  intros Hw Hf. unfold AddRequest_size. apply size_tlv; [|tag_side..|done].
  unfold add_request_contents in *. fits_inv. rewrite len_app. unfold AttributeList_size.
  rewrite (size_sequence Attribute_Codec _ classUniversal) by first [tag_side|done].
  autounfold with prims. rewrite (size_str classUniversal tagOctetString) by first [tag_side|done].
  unfold al_contents. lia.
Qed.

Lemma reads_add_request (r : AddRequest) :
  attributes_wf (ar_attributes r) -> fits (add_request_contents r) ->
  reads readAddRequest (op_tlv TagAddRequest (add_request_contents r)) r.
Proof.
  intros Hw Hf. apply readsP_wrap, reads_sub; [tag_side|done|].
  destruct r as [e l]. unfold add_request_contents, AddRequest_readComponents in *. cbn in *.
  fits_inv. eapply readsP_bind; [autounfold with prims; reads_one|].
  eapply readsP_last; [|apply readsP_ret].
  apply readsP_wrap, readsP_wrap, reads_any, (reads_sequence Attribute_Codec);
    [tag_side|done|done].
Qed.

(** ** Modify DN and compare *)

Lemma writes_modify_dn (m : ModifyDNRequest) :
  fits (modify_dn_contents m) ->
  writes 0 (ModifyDNRequest_write m) (op_tlv TagModifyDNRequest (modify_dn_contents m)).
Proof.
  intros Hf. unfold modify_dn_contents, ModifyDNRequest_write in *. fits_inv.
  eapply writes_eq.
  { eapply writes_bind; [apply (writes_opt_str classContextSpecific); [tag_side|done]|].
    assert (writes 0 (BOOLEAN_write (deleteoldrdn m)) (enc_BOOLEAN (deleteoldrdn m)))
      by (apply writes_bool; tag_side).
    eapply writes_step; [eassumption|]. autounfold with prims.
    repeat (writes_step_auto; rewrite ?Z.add_0_l). }
  bytes_eq.
Qed.

Lemma size_modify_dn (m : ModifyDNRequest) :
  fits (modify_dn_contents m) ->
  ModifyDNRequest_size m = len (op_tlv TagModifyDNRequest (modify_dn_contents m)).
Proof.
  intros Hf. unfold ModifyDNRequest_size. apply size_tlv; [|tag_side..|done].
  unfold modify_dn_contents in *. fits_inv.
  rewrite (size_opt_str classContextSpecific TagModifyDNRequestNewSuperior) by
    first [tag_side|done].
  size_auto.
Qed.

Lemma reads_modify_dn (m : ModifyDNRequest) :
  fits (modify_dn_contents m) ->
  reads readModifyDNRequest (op_tlv TagModifyDNRequest (modify_dn_contents m)) m.
Proof.
  intros Hf. apply readsP_wrap, reads_sub; [tag_side|done|].
  destruct m as [s e n d]. unfold modify_dn_contents, ModifyDNRequest_readComponents in *.
  cbn in *. fits_inv.
  eapply readsP_bind; [autounfold with prims; reads_one|].
  eapply readsP_bind; [autounfold with prims; reads_one|].
  eapply readsP_bind; [apply readsP_wrap, reads_BOOLEAN|].
  eapply readsP_last; [|apply readsP_ret].
  eapply readsP_weaken; [apply reads_opt_str; [tag_side|done|]|intros suf ->; apply notNext_nil].
  intros v Hv. autounfold with prims. reads_one.
Qed.

Lemma writes_compare (r : CompareRequest) :
  fits (compare_contents r) ->
  writes 0 (CompareRequest_write r) (op_tlv TagCompareRequest (compare_contents r)).
Proof.
  intros Hf. unfold compare_contents, CompareRequest_write in *. fits_inv.
  assert (writes 0 (AttributeValueAssertion_write (ava r))
    (tlv classUniversal true tagSequence (ava_contents (ava r)))) as Ha
    by (apply writes_ava; [tag_side|done]).
  writes_auto.
Qed.

Lemma size_compare (r : CompareRequest) :
  fits (compare_contents r) ->
  CompareRequest_size r = len (op_tlv TagCompareRequest (compare_contents r)).
Proof.
  intros Hf. unfold CompareRequest_size. apply size_tlv; [|tag_side..|done].
  unfold compare_contents in *. fits_inv. rewrite len_app.
  change (AttributeValueAssertion_size (ava r))
    with (AttributeValueAssertion_sizeTagged (ava r) tagSequence).
  rewrite (size_ava _ classUniversal) by first [tag_side|done]. autounfold with prims.
  rewrite (size_str classUniversal tagOctetString) by first [tag_side|done]. lia.
Qed.

Lemma reads_compare (r : CompareRequest) :
  fits (compare_contents r) ->
  reads readCompareRequest (op_tlv TagCompareRequest (compare_contents r)) r.
Proof.
  intros Hf. apply readsP_wrap, reads_sub; [tag_side|done|].
  destruct r as [e a]. unfold compare_contents, CompareRequest_readComponents in *. cbn in *.
  fits_inv. eapply readsP_bind; [autounfold with prims; reads_one|].
  eapply readsP_last; [|apply readsP_ret].
  apply readsP_wrap, reads_any. apply (c_reads (Codec := AVA_Codec)); done.
Qed.

(** ** Extended operations *)

Lemma writes_extended_request (r : ExtendedRequest) :
  fits (extended_request_contents r) ->
  writes 0 (ExtendedRequest_write r) (op_tlv TagExtendedRequest (extended_request_contents r)).
Proof.
  intros Hf. unfold extended_request_contents, ExtendedRequest_write in *. fits_inv.
  eapply writes_eq.
  { eapply writes_bind; [apply (writes_opt_str classContextSpecific); [tag_side|done]|].
    autounfold with prims. repeat (writes_step_auto; rewrite ?Z.add_0_l). }
  bytes_eq.
Qed.

Lemma size_extended_request (r : ExtendedRequest) :
  fits (extended_request_contents r) ->
  ExtendedRequest_size r = len (op_tlv TagExtendedRequest (extended_request_contents r)).
Proof.
  intros Hf. unfold ExtendedRequest_size. apply size_tlv; [|tag_side..|done].
  unfold extended_request_contents in *. fits_inv.
  rewrite (size_opt_str classContextSpecific TagExtendedRequestValue) by first [tag_side|done].
  size_auto.
Qed.

Lemma reads_extended_request (r : ExtendedRequest) :
  fits (extended_request_contents r) ->
  reads readExtendedRequest (op_tlv TagExtendedRequest (extended_request_contents r)) r.
Proof.
  intros Hf. apply readsP_wrap, reads_sub; [tag_side|done|].
  destruct r as [v n]. unfold extended_request_contents, ExtendedRequest_readComponents in *.
  cbn in *. fits_inv. eapply readsP_bind; [autounfold with prims; reads_one|].
  eapply readsP_last; [|apply readsP_ret].
  eapply readsP_weaken; [apply reads_opt_str; [tag_side|done|]|intros suf ->; apply notNext_nil].
  intros s Hs. reads_one.
Qed.

(** Two optional strings, the second with the larger tag. *)
Lemma reads_two_strings {A} fn t1 t2 o1 o2 (rd1 rd2 : Go Bytes string)
    (k : option string -> option string -> A) :
  short_tag classContextSpecific t1 -> short_tag classContextSpecific t2 -> t2 <> t1 ->
  fits (enc_opt (enc_str classContextSpecific t1) o1) ->
  fits (enc_opt (enc_str classContextSpecific t2) o2) ->
  (forall s, fits (enc_str classContextSpecific t1 s) ->
     reads rd1 (enc_str classContextSpecific t1 s) s) ->
  (forall s, fits (enc_str classContextSpecific t2 s) ->
     reads rd2 (enc_str classContextSpecific t2 s) s) ->
  readsEnd (a <-- readOptional fn t1 rd1 ;; b <-- readOptional fn t2 rd2 ;; ret (k a b))
    (enc_opt (enc_str classContextSpecific t1) o1 ++ enc_opt (enc_str classContextSpecific t2) o2)
    (k o1 o2).
Proof.
  intros H1 H2 Hne Hf1 Hf2 Hr1 Hr2.
  eapply readsP_bind_gen; [now apply reads_opt_str| |].
  - intros suf ->. apply notNext_opt_str; [done|done|done|apply notNext_nil].
  - eapply readsP_last; [|apply readsP_ret].
    eapply readsP_weaken; [now apply reads_opt_str|intros suf ->; apply notNext_nil].
Qed.

Lemma writes_extended_response (r : ExtendedResponse) :
  result_wf (er_result r) -> fits (extended_response_contents r) ->
  writes 0 (ExtendedResponse_write r) (op_tlv TagExtendedResponse (extended_response_contents r)).
Proof.
  intros Hw Hf. unfold extended_response_contents, ExtendedResponse_write in *. fits_inv.
  pose proof (writes_result _ Hw ltac:(assumption)).
  eapply writes_eq.
  { eapply writes_bind; [apply (writes_opt_str classContextSpecific TagExtendedResponseValue);
      [tag_side|done]|].
    eapply writes_bind; [apply (writes_opt_str classContextSpecific TagExtendedResponseName);
      [tag_side|done]|].
    autounfold with prims. repeat (writes_step_auto; rewrite ?Z.add_0_l). }
  bytes_eq.
Qed.

Lemma size_extended_response (r : ExtendedResponse) :
  result_wf (er_result r) -> fits (extended_response_contents r) ->
  ExtendedResponse_size r = len (op_tlv TagExtendedResponse (extended_response_contents r)).
Proof.
  intros Hw Hf. unfold ExtendedResponse_size. apply size_tlv; [|tag_side..|done].
  unfold extended_response_contents in *. fits_inv.
  rewrite (size_opt_str classContextSpecific TagExtendedResponseValue (er_responseValue r))
    by first [tag_side|done].
  rewrite (size_opt_str classContextSpecific TagExtendedResponseName (er_responseName r))
    by first [tag_side|done].
  rewrite size_result by done. len_lia.
Qed.

Lemma reads_extended_response (r : ExtendedResponse) :
  result_wf (er_result r) -> fits (extended_response_contents r) ->
  reads readExtendedResponse (op_tlv TagExtendedResponse (extended_response_contents r)) r.
Proof.
  intros Hw Hf. apply readsP_wrap, reads_sub; [tag_side|done|].
  destruct r as [l n v]. unfold extended_response_contents, ExtendedResponse_readComponents in *.
  cbn in *. fits_inv. apply reads_result_then; [done|done| |].
  - apply notNext_opt_str; [tag_side|discriminate|done|]. rewrite <- (app_nil_r (enc_opt _ _)).
    apply notNext_opt_str; [tag_side|discriminate|done|apply notNext_nil].
  - apply (reads_two_strings _ _ _ _ _ _ _ (mkExtendedResponse l));
      [tag_side|tag_side|discriminate|done|done| |];
      intros s Hs; autounfold with prims; reads_one.
Qed.

Lemma writes_intermediate (r : IntermediateResponse) :
  fits (intermediate_contents r) ->
  writes 0 (IntermediateResponse_write r)
    (op_tlv TagIntermediateResponse (intermediate_contents r)).
Proof.
  intros Hf. unfold intermediate_contents, IntermediateResponse_write in *. fits_inv.
  eapply writes_eq.
  { eapply writes_bind; [apply (writes_opt_str classContextSpecific TagIntermediateResponseValue);
      [tag_side|done]|].
    eapply writes_bind; [apply (writes_opt_str classContextSpecific TagIntermediateResponseName);
      [tag_side|done]|].
    rewrite Z.add_0_l. apply writes_header_plus; [tag_side|fits_side]. }
  bytes_eq.
Qed.

Lemma size_intermediate (r : IntermediateResponse) :
  fits (intermediate_contents r) ->
  IntermediateResponse_size r = len (op_tlv TagIntermediateResponse (intermediate_contents r)).
Proof.
  intros Hf. unfold IntermediateResponse_size. apply size_tlv; [|tag_side..|done].
  unfold intermediate_contents in *. fits_inv.
  rewrite (size_opt_str classContextSpecific TagIntermediateResponseValue (ir_responseValue r))
    by first [tag_side|done].
  rewrite (size_opt_str classContextSpecific TagIntermediateResponseName (ir_responseName r))
    by first [tag_side|done].
  len_lia.
Qed.

Lemma reads_intermediate (r : IntermediateResponse) :
  fits (intermediate_contents r) ->
  reads readIntermediateResponse (op_tlv TagIntermediateResponse (intermediate_contents r)) r.
Proof.
  intros Hf. apply readsP_wrap, reads_sub; [tag_side|done|].
  destruct r as [n v]. unfold intermediate_contents, IntermediateResponse_readComponents in *.
  cbn in *. fits_inv.
  apply (reads_two_strings _ _ _ _ _ _ _ mkIntermediateResponse);
    [tag_side|tag_side|discriminate|done|done| |];
    intros s Hs; autounfold with prims; reads_one.
Qed.

(** ** Termination *)

Lemma terminates_BindRequest n : terminates n 2 readBindRequest.
Proof.
  unfold readBindRequest, BindRequest_readComponents. autounfold with prims. terminates_auto.
Qed.
Lemma terminates_BindResponse n : terminates n 2 readBindResponse.
Proof. unfold readBindResponse, BindResponse_readComponents. terminates_auto. Qed.

Lemma terminates_parse n : terminates n 2 ParseTagAndLength.
Proof.
  intros b Hb Hn. pose proof (ParseTagAndLength_bounds b Hb) as Hp.
  destruct (ParseTagAndLength b) as [[t| | |] b']; try done. tauto.
Qed.
#[export] Hint Resolve terminates_parse : terminates.

Lemma terminates_UnbindRequest n : terminates n 2 readUnbindRequest.
Proof. unfold readUnbindRequest. terminates_auto. apply Expect_converges. Qed.
Lemma terminates_SearchRequest n : terminates n 2 readSearchRequest.
Proof.
  unfold readSearchRequest, SearchRequest_readComponents. autounfold with prims. terminates_auto.
Qed.
Lemma terminates_SearchResultEntry n : terminates n 2 readSearchResultEntry.
Proof.
  unfold readSearchResultEntry, SearchResultEntry_readComponents. autounfold with prims.
  terminates_auto.
Qed.
Lemma terminates_SearchResultReference n : terminates n 2 readSearchResultReference.
Proof.
  unfold readSearchResultReference, SearchResultReference_readComponents. autounfold with prims.
  terminates_auto.
Qed.
Lemma terminates_ModifyRequestChange n : terminates n 2 readModifyRequestChange.
Proof. unfold readModifyRequestChange, ModifyRequestChange_readComponents. terminates_auto. Qed.
#[export] Hint Resolve terminates_ModifyRequestChange : terminates.
Lemma terminates_ModifyRequest n : terminates n 2 readModifyRequest.
Proof.
  unfold readModifyRequest, ModifyRequest_readComponents, ModifyRequest_readChanges.
  autounfold with prims. terminates_auto.
Qed.
Lemma terminates_AddRequest n : terminates n 2 readAddRequest.
Proof.
  unfold readAddRequest, AddRequest_readComponents. autounfold with prims. terminates_auto.
Qed.
Lemma terminates_ModifyDNRequest n : terminates n 2 readModifyDNRequest.
Proof.
  unfold readModifyDNRequest, ModifyDNRequest_readComponents. autounfold with prims.
  terminates_auto.
Qed.
Lemma terminates_AttributeValueAssertion n : terminates n 2 readAttributeValueAssertion.
Proof.
  unfold readAttributeValueAssertion, AttributeValueAssertion_readComponents.
  autounfold with prims. terminates_auto.
Qed.
#[export] Hint Resolve terminates_AttributeValueAssertion : terminates.
Lemma terminates_CompareRequest n : terminates n 2 readCompareRequest.
Proof.
  unfold readCompareRequest, CompareRequest_readComponents. autounfold with prims.
  terminates_auto.
Qed.
Lemma terminates_ExtendedRequest n : terminates n 2 readExtendedRequest.
Proof.
  unfold readExtendedRequest, ExtendedRequest_readComponents. autounfold with prims.
  terminates_auto.
Qed.
Lemma terminates_ExtendedResponse n : terminates n 2 readExtendedResponse.
Proof.
  unfold readExtendedResponse, ExtendedResponse_readComponents. autounfold with prims.
  terminates_auto.
Qed.
Lemma terminates_IntermediateResponse n : terminates n 2 readIntermediateResponse.
Proof.
  unfold readIntermediateResponse, IntermediateResponse_readComponents. autounfold with prims.
  terminates_auto.
Qed.
#[export] Hint Resolve terminates_BindRequest terminates_BindResponse terminates_UnbindRequest
  terminates_SearchRequest terminates_SearchResultEntry terminates_SearchResultReference
  terminates_ModifyRequest terminates_AddRequest terminates_ModifyDNRequest
  terminates_CompareRequest terminates_ExtendedRequest terminates_ExtendedResponse
  terminates_IntermediateResponse : terminates.
