(* ===== verification/LdapMessage.v ===== *)
(** * LDAP messages

    lib/ldapsrv/goldap: protocol_op.go and message.go, with [ReadLDAPMessage]
    of read.go: the choice of the operation by its tag, the envelope with the
    message ID and the controls, and the top-level [Write], which recovers from
    the panics of the writers.  The theorems state what the codec promises to
    the rest of lib/ldapsrv. *)

From S2P Require Import Prelude Asn1 Codec LdapTypes LdapPrim LdapAttr LdapFilter LdapOps.
From Stdlib Require Import Strings.Byte.

(** ** protocol_op.go *)

Definition op {A} (mk : A -> ProtocolOp) (rd : Go Bytes A) : Go Bytes ProtocolOp :=
  a <-- rd ;; ret (mk a).

(** The [switch] of [readProtocolOp]. *)
Definition readProtocolOpTag (tag : Z) : Go Bytes ProtocolOp :=
  if tag =? TagBindRequest then op OpBindRequest readBindRequest
  else if tag =? TagBindResponse then op OpBindResponse readBindResponse
  else if tag =? TagUnbindRequest then op (fun _ => OpUnbindRequest) readUnbindRequest
  else if tag =? TagSearchRequest then op OpSearchRequest readSearchRequest
  else if tag =? TagSearchResultEntry then op OpSearchResultEntry readSearchResultEntry
  else if tag =? TagSearchResultDone then op OpSearchResultDone readSearchResultDone
  else if tag =? TagSearchResultReference then
    op OpSearchResultReference readSearchResultReference
  else if tag =? TagModifyRequest then op OpModifyRequest readModifyRequest
  else if tag =? TagModifyResponse then op OpModifyResponse readModifyResponse
  else if tag =? TagAddRequest then op OpAddRequest readAddRequest
  else if tag =? TagAddResponse then op OpAddResponse readAddResponse
  else if tag =? TagDelRequest then op OpDelRequest readDelRequest
  else if tag =? TagDelResponse then op OpDelResponse readDelResponse
  else if tag =? TagModifyDNRequest then op OpModifyDNRequest readModifyDNRequest
  else if tag =? TagModifyDNResponse then op OpModifyDNResponse readModifyDNResponse
  else if tag =? TagCompareRequest then op OpCompareRequest readCompareRequest
  else if tag =? TagCompareResponse then op OpCompareResponse readCompareResponse
  else if tag =? TagAbandonRequest then op OpAbandonRequest readAbandonRequest
  else if tag =? TagExtendedRequest then op OpExtendedRequest readExtendedRequest
  else if tag =? TagExtendedResponse then op OpExtendedResponse readExtendedResponse
  else if tag =? TagIntermediateResponse then
    op OpIntermediateResponse readIntermediateResponse
  else fail (LdapError "readProtocolOp: invalid tag value for protocolOp" [tag]).

Definition readProtocolOp : Go Bytes ProtocolOp :=
  tagAndLength <-- wrapErr "readProtocolOp:" PreviewTagAndLength ;;
  wrapErr "readProtocolOp:" (readProtocolOpTag (Tag tagAndLength)).

(** The methods [write] and [size] of the interface. *)
Definition ProtocolOp_write (o : ProtocolOp) : Go Bytes Z :=
  match o with
  | OpBindRequest r => BindRequest_write r
  | OpBindResponse r => BindResponse_write r
  | OpUnbindRequest => UnbindRequest_write
  | OpSearchRequest r => SearchRequest_write r
  | OpSearchResultEntry r => SearchResultEntry_write r
  | OpSearchResultDone r => SearchResultDone_write r
  | OpSearchResultReference r => SearchResultReference_write r
  | OpModifyRequest r => ModifyRequest_write r
  | OpModifyResponse r => ModifyResponse_write r
  | OpAddRequest r => AddRequest_write r
  | OpAddResponse r => AddResponse_write r
  | OpDelRequest r => DelRequest_write r
  | OpDelResponse r => DelResponse_write r
  | OpModifyDNRequest r => ModifyDNRequest_write r
  | OpModifyDNResponse r => ModifyDNResponse_write r
  | OpCompareRequest r => CompareRequest_write r
  | OpCompareResponse r => CompareResponse_write r
  | OpAbandonRequest r => AbandonRequest_write r
  | OpExtendedRequest r => ExtendedRequest_write r
  | OpExtendedResponse r => ExtendedResponse_write r
  | OpIntermediateResponse r => IntermediateResponse_write r
  | OpLDAPResult r => LDAPResult_write r
  end.

Definition ProtocolOp_size (o : ProtocolOp) : outcome Z :=
  match o with
  | OpBindRequest r => BindRequest_size r
  | OpBindResponse r => Ok (BindResponse_size r)
  | OpUnbindRequest => Ok UnbindRequest_size
  | OpSearchRequest r => Ok (SearchRequest_size r)
  | OpSearchResultEntry r => Ok (SearchResultEntry_size r)
  | OpSearchResultDone r => Ok (SearchResultDone_size r)
  | OpSearchResultReference r => Ok (SearchResultReference_size r)
  | OpModifyRequest r => Ok (ModifyRequest_size r)
  | OpModifyResponse r => Ok (ModifyResponse_size r)
  | OpAddRequest r => Ok (AddRequest_size r)
  | OpAddResponse r => Ok (AddResponse_size r)
  | OpDelRequest r => Ok (DelRequest_size r)
  | OpDelResponse r => Ok (DelResponse_size r)
  | OpModifyDNRequest r => Ok (ModifyDNRequest_size r)
  | OpModifyDNResponse r => Ok (ModifyDNResponse_size r)
  | OpCompareRequest r => Ok (CompareRequest_size r)
  | OpCompareResponse r => Ok (CompareResponse_size r)
  | OpAbandonRequest r => Ok (AbandonRequest_size r)
  | OpExtendedRequest r => Ok (ExtendedRequest_size r)
  | OpExtendedResponse r => Ok (ExtendedResponse_size r)
  | OpIntermediateResponse r => Ok (IntermediateResponse_size r)
  | OpLDAPResult r => Ok (LDAPResult_size r)
  end.

(** ** message.go *)

Definition LDAPMessage_readComponents : Go Bytes LDAPMessage :=
  messageID <-- wrapErr "readComponents:" readMessageID ;;
  protocolOp <-- wrapErr "readComponents:" readProtocolOp ;;
  controls <-- readOptional "readComponents:" TagLDAPMessageControls
    (readTaggedControls classContextSpecific TagLDAPMessageControls) ;;
  ret (mkLDAPMessage protocolOp controls messageID).

Definition LDAPMessage_size (l : LDAPMessage) : outcome Z :=
  let size := 0 + MessageID_size (messageID l) in
  opSize <-? ProtocolOp_size (protocolOp l) ;;
  let size := size + opSize in
  let size := size_opt (fun c => Controls_sizeTagged c TagLDAPMessageControls)
                (controls l) size in
  Ok (size + sizeTagAndLength tagSequence size).

(** The part of [Write] that runs on the buffer. *)
Definition LDAPMessage_writeMessage (l : LDAPMessage) : Go Bytes Z :=
  size <-- write_opt (fun c => Controls_writeTagged c classContextSpecific
                                 TagLDAPMessageControls) (controls l) 0 ;;
  size <-- size += ProtocolOp_write (protocolOp l) ;;
  size <-- size += MessageID_write (messageID l) ;;
  size += WriteTagAndLength classUniversal isCompound tagSequence size.

(** [Write]: a panic becomes an error, and so does a size that is wrong. *)
Definition LDAPMessage_Write (l : LDAPMessage) : outcome Bytes :=
  match LDAPMessage_size l with
  | Panic msg => Err (LdapError ("Error in LDAPMessage.Write: " ++ msg) [])
  | Err e => Err e
  | Diverge => Diverge
  | Ok totalSize =>
      let bytes := mkBytes (repeat x00 (Z.to_nat totalSize)) totalSize in
      match LDAPMessage_writeMessage l bytes with
      | (Panic msg, _) => Err (LdapError ("Error in LDAPMessage.Write: " ++ msg) [])
      | (Err e, _) => Err e
      | (Diverge, _) => Diverge
      | (Ok size, bytes) =>
          if negb (size =? totalSize) || negb (offset bytes =? 0)
          then Err (LdapError "Something went wrong while writing the message !"
                      [size; totalSize; offset bytes])
          else Ok bytes
      end
  end.

Definition SetMessageID (l : LDAPMessage) (ID : MessageID) : LDAPMessage :=
  mkLDAPMessage (protocolOp l) (controls l) ID.

(** [ReadLDAPMessage] of read.go *)
Definition ReadLDAPMessage : Go Bytes LDAPMessage :=
  wrapErr "ReadLDAPMessage:"
    (ReadSubBytes classUniversal tagSequence LDAPMessage_readComponents).

(** ** Denotation of the operations *)

Definition enc_op (o : ProtocolOp) : list byte :=
  match o with
  | OpBindRequest r => op_tlv TagBindRequest (bind_request_contents r)
  | OpBindResponse r => op_tlv TagBindResponse (bind_response_contents r)
  | OpUnbindRequest => tlv classApplication false TagUnbindRequest []
  | OpSearchRequest r => op_tlv TagSearchRequest (search_request_contents r)
  | OpSearchResultEntry r => op_tlv TagSearchResultEntry (search_entry_contents r)
  | OpSearchResultDone r => op_tlv TagSearchResultDone (result_contents r)
  | OpSearchResultReference r => op_tlv TagSearchResultReference (enc_strings r)
  | OpModifyRequest r => op_tlv TagModifyRequest (modify_request_contents r)
  | OpModifyResponse r => op_tlv TagModifyResponse (result_contents r)
  | OpAddRequest r => op_tlv TagAddRequest (add_request_contents r)
  | OpAddResponse r => op_tlv TagAddResponse (result_contents r)
  | OpDelRequest r => enc_str classApplication TagDelRequest r
  | OpDelResponse r => op_tlv TagDelResponse (result_contents r)
  | OpModifyDNRequest r => op_tlv TagModifyDNRequest (modify_dn_contents r)
  | OpModifyDNResponse r => op_tlv TagModifyDNResponse (result_contents r)
  | OpCompareRequest r => op_tlv TagCompareRequest (compare_contents r)
  | OpCompareResponse r => op_tlv TagCompareResponse (result_contents r)
  | OpAbandonRequest r => enc_int classApplication TagAbandonRequest r
  | OpExtendedRequest r => op_tlv TagExtendedRequest (extended_request_contents r)
  | OpExtendedResponse r => op_tlv TagExtendedResponse (extended_response_contents r)
  | OpIntermediateResponse r => op_tlv TagIntermediateResponse (intermediate_contents r)
  | OpLDAPResult r => tlv classUniversal true tagSequence (result_contents r)
  end.

(** The operations whose fields are in range. *)
Definition op_wf (o : ProtocolOp) : Prop :=
  match o with
  | OpBindRequest r => bind_request_wf r
  | OpBindResponse r => result_wf (br_result r)
  | OpSearchRequest r => search_request_wf r
  | OpSearchResultReference r => r <> []
  | OpModifyRequest r => Forall change_wf (changes r)
  | OpAddRequest r => attributes_wf (ar_attributes r)
  | OpAbandonRequest r => 0 <= r < 2 ^ 31
  | OpExtendedResponse r => result_wf (er_result r)
  | OpSearchResultDone r | OpModifyResponse r | OpAddResponse r | OpDelResponse r
  | OpModifyDNResponse r | OpCompareResponse r | OpLDAPResult r => result_wf r
  | OpUnbindRequest | OpSearchResultEntry _ | OpDelRequest _ | OpModifyDNRequest _
  | OpCompareRequest _ | OpExtendedRequest _ | OpIntermediateResponse _ => True
  end.

(** The operations the readers accept: the filter of a search is one the reader
    of filters accepts, and a plain result, which is written with the tag of a
    sequence, is not one of the choices of the protocol. *)
Definition op_readable (o : ProtocolOp) : Prop :=
  match o with
  | OpSearchRequest r => filter_wf (sr_filter r)
  | OpLDAPResult _ => False
  | _ => True
  end.

Lemma writes_op (o : ProtocolOp) :
  op_wf o -> fits (enc_op o) -> writes 0 (ProtocolOp_write o) (enc_op o).
Proof.
  intros Hw Hf.
  destruct o; cbn [op_wf enc_op ProtocolOp_write] in *; fits_inv.
  - now apply writes_bind_request.
  - now apply writes_bind_response.
  - unfold UnbindRequest_write, tlv. rewrite app_nil_r.
    apply writes_plus, writes_header; [tag_side|len_lia].
  - now apply writes_search_request.
  - now apply writes_search_entry.
  - apply writes_taggedResult; [tag_side|done|done].
  - now apply writes_search_reference.
  - now apply writes_modify_request.
  - apply writes_taggedResult; [tag_side|done|done].
  - now apply writes_add_request.
  - apply writes_taggedResult; [tag_side|done|done].
  - apply writes_str; [tag_side|done].
  - apply writes_taggedResult; [tag_side|done|done].
  - now apply writes_modify_dn.
  - apply writes_taggedResult; [tag_side|done|done].
  - now apply writes_compare.
  - apply writes_taggedResult; [tag_side|done|done].
  - apply writes_int; [tag_side|now apply positive_in_int32|done].
  - now apply writes_extended_request.
  - now apply writes_extended_response.
  - now apply writes_intermediate.
  - apply writes_taggedResult; [tag_side|done|done].
Qed.

Lemma size_op (o : ProtocolOp) :
  op_wf o -> fits (enc_op o) -> ProtocolOp_size o = Ok (len (enc_op o)).
Proof.
  intros Hw Hf.
  destruct o; cbn [op_wf enc_op ProtocolOp_size] in *; fits_inv.
  - now apply size_bind_request.
  - f_equal. now apply size_bind_response.
  - f_equal.
  - f_equal. now apply size_search_request.
  - f_equal. now apply size_search_entry.
  - f_equal. apply size_taggedResult; [tag_side|done|done].
  - f_equal. now apply size_search_reference.
  - f_equal. now apply size_modify_request.
  - f_equal. apply size_taggedResult; [tag_side|done|done].
  - f_equal. now apply size_add_request.
  - f_equal. apply size_taggedResult; [tag_side|done|done].
  - f_equal. apply (size_str classApplication); [tag_side|done].
  - f_equal. apply size_taggedResult; [tag_side|done|done].
  - f_equal. now apply size_modify_dn.
  - f_equal. apply size_taggedResult; [tag_side|done|done].
  - f_equal. now apply size_compare.
  - f_equal. apply size_taggedResult; [tag_side|done|done].
  - f_equal. apply (size_int classApplication); [tag_side|now apply positive_in_int32|done].
  - f_equal. now apply size_extended_request.
  - f_equal. now apply size_extended_response.
  - f_equal. now apply size_intermediate.
  - f_equal. apply size_taggedResult; [tag_side|done|done].
Qed.

(** [readProtocolOp] dispatches on the tag of the operation it reads. *)
Lemma reads_op_tag compound tag s o :
  short_tag classApplication tag -> fits s ->
  reads (readProtocolOpTag tag) (tlv classApplication compound tag s) o ->
  reads readProtocolOp (tlv classApplication compound tag s) o.
Proof.
  intros Hst Hf Hr. unfold readProtocolOp.
  eapply readsP_peek;
    [apply peeks_wrap; rewrite <- (app_nil_r (tlv _ _ _ _)); now apply peeks_preview|].
  now apply readsP_wrap.
Qed.

Lemma reads_unbind : reads readUnbindRequest (tlv classApplication false TagUnbindRequest []) tt.
Proof.
  unfold readUnbindRequest, tlv. rewrite app_nil_r.
  eapply readsP_last; [apply readsP_wrap, reads_tag; [tag_side|len_lia]|].
  eapply readsP_last; [apply readsP_wrap|].
  - rewrite Expect_same. intros pre suf _. unfold lift. rewrite len_nil, Z.add_0_r. reflexivity.
  - apply readsP_ret.
Qed.

Ltac op_case compound tag :=
  apply (reads_op_tag compound tag); [tag_side|first [assumption|reflexivity]|];
  match goal with |- context [readProtocolOpTag ?t] =>
    let r := eval cbv [readProtocolOpTag Z.eqb Pos.eqb TagBindRequest TagBindResponse
      TagUnbindRequest TagSearchRequest TagSearchResultEntry TagSearchResultDone
      TagSearchResultReference TagModifyRequest TagModifyResponse TagAddRequest TagAddResponse
      TagDelRequest TagDelResponse TagModifyDNRequest TagModifyDNResponse TagCompareRequest
      TagCompareResponse TagAbandonRequest TagExtendedRequest TagExtendedResponse
      TagIntermediateResponse] in (readProtocolOpTag t) in
    change (readProtocolOpTag t) with r
  end;
  eapply readsP_last; [|apply readsP_ret].

Lemma reads_op (o : ProtocolOp) :
  op_wf o -> op_readable o -> fits (enc_op o) -> reads readProtocolOp (enc_op o) o.
Proof.
  intros Hw Hp Hf. destruct o; try destruct Hp; cbn [op_wf op_readable enc_op] in *; fits_inv.
  - op_case true TagBindRequest. now apply reads_bind_request.
  - op_case true TagBindResponse. now apply reads_bind_response.
  - op_case false TagUnbindRequest. apply reads_unbind.
  - op_case true TagSearchRequest. now apply reads_search_request.
  - op_case true TagSearchResultEntry. now apply reads_search_entry.
  - op_case true TagSearchResultDone. apply readsP_wrap, reads_taggedResult; [tag_side|done..].
  - op_case true TagSearchResultReference. now apply reads_search_reference.
  - op_case true TagModifyRequest. now apply reads_modify_request.
  - op_case true TagModifyResponse. apply readsP_wrap, reads_taggedResult; [tag_side|done..].
  - op_case true TagAddRequest. now apply reads_add_request.
  - op_case true TagAddResponse. apply readsP_wrap, reads_taggedResult; [tag_side|done..].
  - pose proof (fits_str _ _ _ Hf). op_case false TagDelRequest. unfold readDelRequest.
    autounfold with prims. reads_one.
  - op_case true TagDelResponse. apply readsP_wrap, reads_taggedResult; [tag_side|done..].
  - op_case true TagModifyDNRequest. now apply reads_modify_dn.
  - op_case true TagModifyDNResponse. apply readsP_wrap, reads_taggedResult; [tag_side|done..].
  - op_case true TagCompareRequest. now apply reads_compare.
  - op_case true TagCompareResponse. apply readsP_wrap, reads_taggedResult; [tag_side|done..].
  - pose proof (fits_tlv classApplication TagAbandonRequest false _ Hf).
    op_case false TagAbandonRequest.
    apply readsP_wrap, readsP_wrap, reads_positive; [tag_side|done|done].
  - op_case true TagExtendedRequest. now apply reads_extended_request.
  - op_case true TagExtendedResponse. now apply reads_extended_response.
  - op_case true TagIntermediateResponse. now apply reads_intermediate.
Qed.

(** ** Denotation of a message *)

Definition message_contents (l : LDAPMessage) : list byte :=
  enc_INTEGER (messageID l) ++ enc_op (protocolOp l) ++ enc_opt enc_controls (controls l).

Definition enc_message (l : LDAPMessage) : list byte :=
  tlv classUniversal true tagSequence (message_contents l).
#[global] Arguments enc_message : simpl never.

Definition message_wf (l : LDAPMessage) : Prop :=
  0 <= messageID l < 2 ^ 31 /\ op_wf (protocolOp l).

Lemma writes_opt_controls (o : option Controls) (k : Z) :
  fits (enc_opt enc_controls o) ->
  writes k (write_opt (fun c => Controls_writeTagged c classContextSpecific
                                  TagLDAPMessageControls) o k) (enc_opt enc_controls o).
Proof. intros Hf. apply writes_opt. intros c ->. now apply writes_controls. Qed.

Lemma writes_message (l : LDAPMessage) :
  message_wf l -> fits (message_contents l) -> writes 0 (LDAPMessage_writeMessage l) (enc_message l).
Proof.
  intros [Hi Ho] Hf. unfold enc_message, message_contents, LDAPMessage_writeMessage in *. fits_inv.
  pose proof (positive_in_int32 _ Hi). pose proof (writes_op _ Ho ltac:(assumption)).
  eapply writes_eq.
  { eapply writes_bind; [now apply writes_opt_controls|]. autounfold with prims.
    repeat (writes_step_auto; rewrite ?Z.add_0_l). }
  bytes_eq.
Qed.

Lemma size_message (l : LDAPMessage) :
  message_wf l -> fits (message_contents l) -> LDAPMessage_size l = Ok (len (enc_message l)).
Proof.
  intros [Hi Ho] Hf. unfold LDAPMessage_size.
  assert (fits (enc_op (protocolOp l)) /\ fits (enc_opt enc_controls (controls l)))
    as [Hfo Hfc] by (unfold message_contents in Hf; fits_inv; done).
  rewrite (size_op _ Ho Hfo). cbn [obind]. f_equal.
  apply size_tlv; [|tag_side..|done].
  rewrite (size_opt_len _ enc_controls) by
    (intros c Hc; rewrite Hc in Hfc; now apply size_controls).
  apply positive_in_int32 in Hi. unfold message_contents. autounfold with prims.
  rewrite (size_int classUniversal tagInteger);
    [len_lia | tag_side | done | apply fits_int; [tag_side|done]].
Qed.

Lemma reads_message (l : LDAPMessage) :
  message_wf l -> op_readable (protocolOp l) -> fits (message_contents l) ->
  reads ReadLDAPMessage (enc_message l) l.
Proof.
  intros [Hi Ho] Hp Hf. apply readsP_wrap, reads_sub; [tag_side|done|].
  destruct l as [o c i]. unfold message_contents, LDAPMessage_readComponents in *. cbn in Hi, Ho, Hp, Hf.
  cbn [messageID protocolOp controls]. fits_inv.
  assert (fits (enc_opt enc_controls c)) as Hfc by done.
  eapply readsP_bind; [apply readsP_wrap, readsP_wrap, reads_positive; [tag_side|done|]|].
  { apply (fits_tlv classUniversal tagInteger false). now apply fits_int, positive_in_int32. }
  eapply readsP_bind; [now apply readsP_wrap, reads_op|].
  eapply readsP_last; [|apply readsP_ret].
  eapply readsP_weaken; [|intros suf ->; apply notNext_nil].
  apply (reads_optional _ classContextSpecific true _ _ controls_contents); [tag_side| |].
  - intros v ->. exact (fits_tlv classContextSpecific TagLDAPMessageControls true _ Hfc).
  - intros v ->. now apply reads_controls.
Qed.

(** A writer on a fresh buffer of the right size fills it. *)
Lemma writes_fresh (w : Go Bytes Z) (s : list byte) (n : Z) :
  writes 0 w s -> n = len s ->
  w (mkBytes (repeat x00 (Z.to_nat n)) n) = (Ok n, mkBytes s 0).
Proof.
  intros Hw ->. unfold len at 1. rewrite Nat2Z.id.
  specialize (Hw [] (repeat x00 (length s)) [] (repeat_length _ _)). cbn [app] in Hw.
  rewrite !app_nil_r in Hw. unfold len in Hw |- *. rewrite repeat_length in Hw. exact Hw.
Qed.

Lemma Write_message (l : LDAPMessage) :
  message_wf l -> fits (message_contents l) ->
  LDAPMessage_Write l = Ok (mkBytes (enc_message l) 0).
Proof.
  intros Hwf Hf. unfold LDAPMessage_Write. rewrite (size_message l Hwf Hf).
  rewrite (writes_fresh _ _ _ (writes_message l Hwf Hf) eq_refl).
  rewrite Z.eqb_refl. reflexivity.
Qed.

(** [LDAPMessage.Write] of a message whose fields are in range succeeds:
    the computed size is the number of bytes written, the buffer is filled
    exactly (final offset 0), and the bytes are the nested TLV encoding of the
    message. *)
Theorem Write_encodes (l : LDAPMessage)
    (Hwf : message_wf l) (Hfits : fits (message_contents l)) :
  LDAPMessage_size l = Ok (len (enc_message l))
  /\ LDAPMessage_Write l = Ok (mkBytes (enc_message l) 0).
Proof. split; [now apply size_message | now apply Write_message]. Qed.

(** C2: what [LDAPMessage.Write] produces for a well-formed message that can be read
    back ([op_readable]: [plain_result_unreadable] and [extensible_match_default_unreadable]
    are messages that cannot) and whose contents fit in 31 bits of length,
    [ReadLDAPMessage] reads back as the same message, and the read stops exactly at the
    end of the message whatever surrounds it in the buffer. *)
Theorem message_roundtrip (l : LDAPMessage) (pre suf : list byte)
    (Hwf : message_wf l) (Hop : op_readable (protocolOp l))
    (Hfits : fits (message_contents l)) :
  exists b, LDAPMessage_Write l = Ok b /\ offset b = 0
    /\ ReadLDAPMessage (mkBytes (pre ++ buf b ++ suf) (len pre))
       = (Ok l, mkBytes (pre ++ buf b ++ suf) (len pre + len (buf b))).
Proof.
  exists (mkBytes (enc_message l) 0).
  split; [now apply Write_message|]. split; [reflexivity|]. cbn [buf].
  now apply reads_message.
Qed.

(** ** Termination on any input *)

Lemma terminates_op {A} n (mk : A -> ProtocolOp) (rd : Go Bytes A) :
  terminates n 2 rd -> terminates n 2 (op mk rd).
Proof. intros H. unfold op. terminates_auto. Qed.

Lemma terminates_DelRequest n : terminates n 2 readDelRequest.
Proof. unfold readDelRequest. autounfold with prims. terminates_auto. Qed.
Lemma terminates_AbandonRequest n : terminates n 2 readAbandonRequest.
Proof. unfold readAbandonRequest. terminates_auto. Qed.
#[export] Hint Resolve terminates_DelRequest terminates_AbandonRequest : terminates.

Lemma terminates_ProtocolOp n : terminates n 2 readProtocolOp.
Proof.
  unfold readProtocolOp. apply terminates_bind_r; [terminates_auto|]. intros t.
  apply terminates_wrap. unfold readProtocolOpTag, readSearchResultDone, readModifyResponse,
    readAddResponse, readDelResponse, readModifyDNResponse, readCompareResponse.
  repeat (case_match; [apply terminates_op; eauto with terminates|]).
  apply terminates_fail.
Qed.
#[export] Hint Resolve terminates_ProtocolOp : terminates.

Lemma terminates_message n : terminates n 2 ReadLDAPMessage.
Proof. unfold ReadLDAPMessage, LDAPMessage_readComponents. terminates_auto. Qed.

(** C39: on any bytes, [ReadLDAPMessage] comes to an end (with a message, an
    error or a panic): no loop over the rest of a buffer and no nesting of
    filters goes on for ever.  When it succeeds it has left the bytes alone and
    consumed at least a header, without leaving the buffer. *)
Theorem ReadLDAPMessage_terminates (b : Bytes) (Hb : 0 <= offset b <= len (buf b)) :
  match ReadLDAPMessage b with
  | (Ok _, b') => buf b' = buf b /\ offset b + 2 <= offset b' <= len (buf b)
  | (Err _, _) | (Panic _, _) => True
  | (Diverge, _) => False
  end.
Proof. exact (terminates_message (len (buf b)) b Hb (Z.le_refl _)). Qed.

(** ** Messages that cannot be read back *)

(** The reader refuses the bytes, with an error or with a panic. *)
Definition refuses {A} (rd : Go Bytes A) (b : Bytes) : Prop :=
  match fst (rd b) with Err _ | Panic _ => True | Ok _ | Diverge => False end.

Definition rejectsP {A} (P : list byte -> Prop) (rd : Go Bytes A) (s : list byte) : Prop :=
  forall pre suf, P suf -> refuses rd (mkBytes (pre ++ s ++ suf) (len pre)).

Lemma refuses_wrap {A} prefix (rd : Go Bytes A) b : refuses rd b -> refuses (wrapErr prefix rd) b.
Proof. unfold refuses, wrapErr. now destruct (rd b) as [[] ?]. Qed.

Lemma refuses_bind_l {A B} (m : Go Bytes A) (k : A -> Go Bytes B) b :
  refuses m b -> refuses (bind m k) b.
Proof. unfold refuses, bind. now destruct (m b) as [[] ?]. Qed.

Lemma rejects_wrap {A} P prefix (rd : Go Bytes A) s :
  rejectsP P rd s -> rejectsP P (wrapErr prefix rd) s.
Proof. intros H pre suf Hs. now apply refuses_wrap, H. Qed.

Lemma rejects_bind_l {A B} P (m : Go Bytes A) (k : A -> Go Bytes B) s :
  rejectsP P m s -> rejectsP P (bind m k) s.
Proof. intros H pre suf Hs. now apply refuses_bind_l, H. Qed.

Lemma rejects_bind_gen {A B} (P Q : list byte -> Prop) (m : Go Bytes A) (k : A -> Go Bytes B)
    s1 s2 a :
  readsP P m s1 a -> (forall suf, Q suf -> P (s2 ++ suf)) -> rejectsP Q (k a) s2 ->
  rejectsP Q (bind m k) (s1 ++ s2).
Proof.
  intros H1 HPQ H2 pre suf Hs. unfold refuses. rewrite <- (app_assoc s1 s2).
  erewrite bind_ok by (apply H1, HPQ, Hs).
  rewrite (app_assoc pre s1), <- (len_app pre s1). now apply H2.
Qed.

Lemma rejects_bind {A B} P (m : Go Bytes A) (k : A -> Go Bytes B) s1 s2 a :
  reads m s1 a -> rejectsP P (k a) s2 -> rejectsP P (bind m k) (s1 ++ s2).
Proof. intros H1. now apply (rejects_bind_gen anySuffix). Qed.

Lemma rejects_peek {A B} P (m : Go Bytes A) (k : A -> Go Bytes B) s a :
  peeks m s a -> rejectsP P (k a) s -> rejectsP P (bind m k) s.
Proof.
  intros H1 H2 pre suf Hs. unfold refuses. erewrite bind_ok by apply H1. now apply H2.
Qed.

(** A sub-buffer whose contents are refused, and one of another class. *)
Lemma rejects_sub {A} P (class tag : Z) (cb : Go Bytes A) (s : list byte) :
  short_tag class tag -> fits s -> rejectsP noSuffix cb s ->
  rejectsP P (ReadSubBytes class tag cb) (tlv class true tag s).
Proof.
  intros Hst Hf Hcb pre suf _. unfold ReadSubBytes, tlv, refuses. rewrite <- (app_assoc _ s suf).
  erewrite bind_ok by
    (apply wrapErr_ok, reads_tag; [done | split; [apply len_nonneg | exact Hf] | done]).
  rewrite Expect_same. erewrite bind_ok by reflexivity. cbn beta.
  set (h := header class true tag (len s)). cbn [buf offset Length].
  zcase; [len_lia|].
  rewrite (app_assoc pre h), <- (len_app pre h), slice_app.
  specialize (Hcb [] [] eq_refl). rewrite app_nil_r in Hcb. cbn [app] in Hcb.
  change (len (@nil byte)) with 0 in Hcb. unfold refuses in Hcb.
  destruct (cb _) as [[] sub]; done.
Qed.

Lemma rejects_primitive_class P (class class' tag tag' typeTag : Z) (compound : bool) (s : list byte) :
  short_tag class tag -> fits s -> class <> class' ->
  rejectsP P (ReadPrimitiveSubBytes class' tag' typeTag) (tlv class compound tag s).
Proof.
  intros Hst Hf Hne pre suf _. unfold ReadPrimitiveSubBytes, tlv, refuses.
  rewrite <- (app_assoc _ s suf).
  erewrite bind_ok by
    (apply wrapErr_ok, reads_tag; [done | split; [apply len_nonneg | exact Hf] | done]).
  unfold Expect, ExpectClass. cbn [Class_]. rewrite (proj2 (Z.eqb_neq class' class)) by congruence.
  exact I.
Qed.

(** Nothing can be read at the end of the bytes. *)
Lemma rejects_end {A} (class tag typeTag : Z) (k : primitive -> Go Bytes A) :
  rejectsP noSuffix (v <-- ReadPrimitiveSubBytes class tag typeTag ;; k v) [].
Proof.
  intros pre suf ->. apply refuses_bind_l. cbn [app]. rewrite app_nil_r.
  unfold ReadPrimitiveSubBytes, ParseTagAndLength, parseTagAndLength, refuses.
  cbn [buf offset]. destruct (index_cases pre (len pre)) as [(b & _ & Hb)|[H _]]; [lia|].
  unfold bind, wrapErr. cbn [buf offset]. rewrite H. exact I.
Qed.

(** A message whose operation is refused. *)
Lemma rejects_message (l : LDAPMessage) (pre suf : list byte) :
  0 <= messageID l < 2 ^ 31 -> fits (message_contents l) ->
  (forall P, rejectsP P readProtocolOp (enc_op (protocolOp l))) ->
  refuses ReadLDAPMessage (mkBytes (pre ++ enc_message l ++ suf) (len pre)).
Proof.
  intros Hi Hf Ho. apply refuses_wrap, (rejects_sub anySuffix); [tag_side|done| |done].
  unfold message_contents in *. fits_inv.
  eapply rejects_bind; [apply readsP_wrap, readsP_wrap, reads_positive; [tag_side|done|]|].
  { apply (fits_tlv classUniversal tagInteger false). now apply fits_int, positive_in_int32. }
  apply rejects_bind_l, rejects_wrap. intros pre' suf' _.
  rewrite <- (app_assoc (enc_op _)). now apply (Ho anySuffix).
Qed.

Lemma rejects_plain_result P (r : LDAPResult) :
  fits (result_contents r) ->
  rejectsP P readProtocolOp (enc_op (OpLDAPResult r)).
Proof.
  intros Hf. cbn [enc_op]. unfold readProtocolOp.
  eapply rejects_peek;
    [apply peeks_wrap; rewrite <- (app_nil_r (tlv _ _ _ _)); apply peeks_preview;
      [tag_side|exact Hf]|].
  cbn [Tag]. change (readProtocolOpTag tagSequence) with (op OpAbandonRequest readAbandonRequest).
  apply rejects_wrap, rejects_bind_l, rejects_wrap, rejects_wrap, rejects_bind_l,
    rejects_wrap, rejects_bind_l, rejects_wrap, rejects_primitive_class;
    [tag_side|done|discriminate].
Qed.

(** the reply that lib/ldapsrv/handler.go sends for an operation it does not
    know is a plain [LDAPResult]: it is written without an error, with the tag
    of a SEQUENCE, but those bytes are not an LDAP message: the codec's own
    reader refuses them (it takes the tag for the one of an AbandonRequest). *)
Theorem plain_result_unreadable (l : LDAPMessage) (r : LDAPResult)
    (Hwf : message_wf l) (Hop : protocolOp l = OpLDAPResult r)
    (Hfits : fits (message_contents l)) :
  exists b, LDAPMessage_Write l = Ok b /\ refuses ReadLDAPMessage b.
Proof.
  exists (mkBytes (enc_message l) 0). split; [now apply Write_message|].
  rewrite <- (app_nil_r (enc_message l)).
  apply (rejects_message l [] []); [apply Hwf|done|]. intros P. rewrite Hop.
  apply rejects_plain_result. unfold message_contents in Hfits. rewrite Hop in Hfits.
  cbn [enc_op] in Hfits. fits_inv. done.
Qed.

Lemma rejects_mra P (m : MatchingRuleAssertion) (class tag : Z) :
  short_tag class tag -> fits (mra_contents m) -> dnAttributes m = false ->
  rejectsP P (readTaggedMatchingRuleAssertion class tag) (tlv class true tag (mra_contents m)).
Proof.
  intros Hst Hf Hd. apply rejects_wrap, rejects_sub; [done..|].
  destruct (mra_parts m Hf) as (Hr & Ht & Hv & Hn2 & Hn1).
  unfold MatchingRuleAssertion_readComponents, mra_contents. rewrite Hd.
  eapply rejects_bind_gen; [exact Hr|intros suf _; rewrite <- !app_assoc; apply Hn1|].
  eapply rejects_bind_gen; [exact Ht|intros suf _; rewrite <- !app_assoc; apply Hn2|].
  eapply rejects_bind; [exact Hv|].
  apply rejects_bind_l, rejects_wrap. unfold readTaggedBOOLEAN.
  intros pre suf Hs. apply refuses_bind_l, refuses_wrap.
  pose proof (rejects_end classContextSpecific TagMatchingRuleAssertionDnAttributes tagBoolean ret
    pre suf Hs) as H.
  unfold refuses, bind in *. now destruct (ReadPrimitiveSubBytes _ _ _ _) as [[] ?].
Qed.

(** A search whose filter is an extensible match without [dnAttributes]. *)
Lemma rejects_extensible P (s : SearchRequest) (m : MatchingRuleAssertion) :
  search_request_wf s -> fits (search_request_contents s) ->
  sr_filter s = FilterExtensibleMatch m -> dnAttributes m = false ->
  rejectsP P readProtocolOp (enc_op (OpSearchRequest s)).
Proof.
  intros Hw Hf Hfi Hd. cbn [enc_op]. unfold readProtocolOp.
  eapply rejects_peek;
    [apply peeks_wrap; rewrite <- (app_nil_r (tlv _ _ _ _)); apply peeks_preview;
      [tag_side|exact Hf]|].
  cbn [Tag]. change (readProtocolOpTag TagSearchRequest) with (op OpSearchRequest readSearchRequest).
  apply rejects_wrap, rejects_bind_l, rejects_wrap, rejects_sub; [tag_side|done|].
  destruct (search_request_ints s Hw) as (? & ? & ? & ?). destruct Hw as (Hs & Hda & Hl & Ht).
  unfold search_request_contents, SearchRequest_readComponents in *. rewrite Hfi in *.
  cbn [enc_filter] in *. fits_inv.
  assert (forall i, 0 <= i < 2 ^ 31 -> reads readPositiveINTEGER (enc_INTEGER i) i) as Hpos.
  { intros i Hi. apply reads_positive; [tag_side|done|].
    apply (fits_tlv classUniversal tagInteger false), fits_int; [tag_side|].
    now apply positive_in_int32. }
  eapply rejects_bind; [autounfold with prims; reads_one|].
  eapply rejects_bind; [apply readsP_wrap, reads_enumerated; [reflexivity|done]|].
  eapply rejects_bind; [apply readsP_wrap, reads_enumerated; [reflexivity|done]|].
  eapply rejects_bind; [now apply readsP_wrap, Hpos|].
  eapply rejects_bind; [now apply readsP_wrap, Hpos|].
  eapply rejects_bind; [apply readsP_wrap, reads_BOOLEAN|].
  apply rejects_bind_l, rejects_wrap. intros pre suf _. unfold readFilter.
  cbn [readFilter_fuel]. rewrite <- (app_assoc (tlv _ _ _ _)).
  eapply (rejects_peek anySuffix);
    [apply peeks_wrap; rewrite <- (app_nil_r (tlv _ _ _ _)); apply peeks_preview;
      [tag_side|done]| |exact I].
  eapply rejects_peek; [apply peeks_wrap, (peeks_lift tt)|]. cbn [Tag]. apply rejects_wrap.
  change (readFilterTag ?rd TagFilterExtensibleMatch)
    with (m <-- readFilterExtensibleMatch ;; ret (FilterExtensibleMatch m)).
  apply rejects_bind_l, rejects_wrap, rejects_mra; [tag_side|done|done].
Qed.

(** the writer omits [dnAttributes] when it is false (its default), but the
    reader takes it as mandatory: a search with an extensible match that does
    not set [dnAttributes] is written without an error and refused by
    [ReadLDAPMessage]. *)
Theorem extensible_match_default_unreadable (l : LDAPMessage) (s : SearchRequest)
    (m : MatchingRuleAssertion)
    (Hwf : message_wf l) (Hop : protocolOp l = OpSearchRequest s)
    (Hfilter : sr_filter s = FilterExtensibleMatch m) (Hdn : dnAttributes m = false)
    (Hfits : fits (message_contents l)) :
  exists b, LDAPMessage_Write l = Ok b /\ refuses ReadLDAPMessage b.
Proof.
  exists (mkBytes (enc_message l) 0). split; [now apply Write_message|].
  rewrite <- (app_nil_r (enc_message l)).
  destruct Hwf as [Hi Hw]. rewrite Hop in Hw. cbn [op_wf] in Hw.
  apply (rejects_message l [] []); [done|done|]. intros P. rewrite Hop.
  apply (rejects_extensible _ _ m); try done.
  unfold message_contents in Hfits. rewrite Hop in Hfits. cbn [enc_op] in Hfits. fits_inv. done.
Qed.

(** ** The password modification of extended_request.go *)

Definition pw_strings (r : PasswordModifyRequest) : list (list byte) := [
  enc_opt (enc_str classContextSpecific TagPasswordModifyRequestUserIdentity) (userIdentity r);
  enc_opt (enc_str classContextSpecific TagPasswordModifyRequestOldPassword) (oldPassword r);
  enc_opt (enc_str classContextSpecific TagPasswordModifyRequestNewPassword) (newPassword r)].

(** The encoding of RFC 3062: a sequence of the fields that are present. *)
Definition enc_password_modify (r : PasswordModifyRequest) : list byte :=
  tlv classUniversal true tagSequence (concat (pw_strings r)).

Lemma pw_strings_fit (r : PasswordModifyRequest) :
  fits (concat (pw_strings r)) ->
  fits (enc_opt (enc_str classContextSpecific TagPasswordModifyRequestUserIdentity)
          (userIdentity r))
  /\ fits (enc_opt (enc_str classContextSpecific TagPasswordModifyRequestOldPassword)
             (oldPassword r))
  /\ fits (enc_opt (enc_str classContextSpecific TagPasswordModifyRequestNewPassword)
             (newPassword r)).
Proof. unfold pw_strings. cbn [concat]. intros Hf. fits_inv. done. Qed.

Lemma reads_password_modify (r : PasswordModifyRequest) :
  fits (concat (pw_strings r)) ->
  reads readPasswordModifyRequest (enc_password_modify r) r.
Proof.
  intros Hf. destruct (pw_strings_fit r Hf) as (Hu & Ho & Hn).
  apply readsP_wrap, reads_sub; [tag_side|done|].
  unfold PasswordModifyRequest_readComponents, readOptionalOctetString, pw_strings. cbn [concat].
  assert (forall tag, short_tag classContextSpecific tag -> forall s,
    fits (enc_str classContextSpecific tag s) ->
    reads (readTaggedOCTETSTRING classContextSpecific tag) (enc_str classContextSpecific tag s) s)
    as Hr by (intros; now apply reads_str).
  eapply readsP_bind_gen; [apply reads_opt_str; [tag_side|done|apply Hr; tag_side]| |].
  { intros suf ->. rewrite !app_nil_r, <- ?app_assoc. 
    apply notNext_opt_str; [tag_side|discriminate|done|]. rewrite <- (app_nil_r (enc_opt _ _)).
    apply notNext_opt_str; [tag_side|discriminate|done|apply notNext_nil]. }
  rewrite app_nil_r. destruct r as [u o n]. cbn [userIdentity oldPassword newPassword] in *.
  apply (reads_two_strings _ _ _ _ _ _ _ (mkPasswordModifyRequest u));
    [tag_side|tag_side|discriminate|done|done|apply Hr; tag_side|apply Hr; tag_side].
Qed.

(** an extended request that carries a password modification encoded as
    the RFC says (a sequence of the optional fields in order) yields exactly
    those fields; one without a value yields [ErrMissingRequestValue]. *)
Theorem password_modify_decodes (r : PasswordModifyRequest) (name : LDAPOID)
    (Hfits : fits (concat (pw_strings r))) :
  ExtendedRequest_PasswordModifyRequest
    (mkExtendedRequest (Some (string_of (enc_password_modify r))) name) = Ok r
  /\ ExtendedRequest_PasswordModifyRequest (mkExtendedRequest None name)
     = Err ErrMissingRequestValue.
Proof.
  split; [|reflexivity]. unfold ExtendedRequest_PasswordModifyRequest.
  cbn [requestValue]. rewrite bytes_of_string_of. unfold NewBytes.
  pose proof (reads_password_modify r Hfits [] [] I) as Hr.
  cbn [app] in Hr. rewrite app_nil_r in Hr. change (len (@nil byte)) with 0 in Hr.
  now erewrite wrapf_ok by exact Hr.
Qed.

(** What [PasswordModifyRequest.write] produces: the fields in reverse order and
    no header around them. *)
Definition pw_written (r : PasswordModifyRequest) : list byte := concat (rev (pw_strings r)).

Lemma writes_password_modify (r : PasswordModifyRequest) :
  fits (concat (pw_strings r)) ->
  writes 0 (PasswordModifyRequest_write r) (pw_written r).
Proof.
  intros Hf. destruct (pw_strings_fit r Hf) as (Hu & Ho & Hn).
  unfold pw_written, pw_strings, PasswordModifyRequest_write. cbn [rev app concat].
  eapply writes_eq.
  - eapply writes_bind; [apply (writes_opt_str classContextSpecific
      TagPasswordModifyRequestUserIdentity); [tag_side|done]|].
    eapply writes_bind; [apply (writes_opt_str classContextSpecific
      TagPasswordModifyRequestOldPassword); [tag_side|done]|].
    apply (writes_opt_str classContextSpecific TagPasswordModifyRequestNewPassword);
      [tag_side|done].
  - bytes_eq.
Qed.

Lemma rejects_sub_class {A} P (class class' tag tag' : Z) (compound : bool) (s rest : list byte)
    (cb : Go Bytes A) :
  short_tag class tag -> fits s -> class <> class' ->
  rejectsP P (ReadSubBytes class' tag' cb) (tlv class compound tag s ++ rest).
Proof.
  intros Hst Hf Hne pre suf _. unfold ReadSubBytes, tlv, refuses.
  rewrite <- !app_assoc.
  erewrite bind_ok by
    (apply wrapErr_ok, reads_tag; [done | split; [apply len_nonneg | exact Hf] | done]).
  unfold Expect, ExpectClass. cbn [Class_]. rewrite (proj2 (Z.eqb_neq class' class)) by congruence.
  exact I.
Qed.

Lemma rejects_sub_end {A} (class tag : Z) (cb : Go Bytes A) :
  rejectsP noSuffix (ReadSubBytes class tag cb) [].
Proof.
  intros pre suf ->. cbn [app]. rewrite app_nil_r.
  unfold ReadSubBytes, ParseTagAndLength, parseTagAndLength, refuses.
  cbn [buf offset]. destruct (index_cases pre (len pre)) as [(b & _ & Hb)|[H _]]; [lia|].
  unfold bind, wrapErr. cbn [buf offset]. rewrite H. exact I.
Qed.

(** [PasswordModifyRequest.write] is not the inverse of
    [readPasswordModifyRequest]: whatever the request, the bytes it writes
    (last field first, without the enclosing sequence) are refused. *)
Theorem password_modify_write_unreadable (r : PasswordModifyRequest)
    (Hfits : fits (concat (pw_strings r))) :
  let n := len (pw_written r) in
  PasswordModifyRequest_write r (mkBytes (repeat x00 (Z.to_nat n)) n)
    = (Ok n, mkBytes (pw_written r) 0)
  /\ refuses readPasswordModifyRequest (mkBytes (pw_written r) 0).
Proof.
  cbn zeta. split; [now apply writes_fresh; [apply writes_password_modify|]|].
  destruct (pw_strings_fit r Hfits) as (Hu & Ho & Hn). apply refuses_wrap.
  unfold pw_written, pw_strings. cbn [rev app concat].
  rewrite <- (app_nil_r (_ ++ _)).
  set (k := ReadSubBytes _ _ _).
  assert (forall tag s rest, short_tag classContextSpecific tag ->
    fits (enc_str classContextSpecific tag s) ->
    refuses k (mkBytes (enc_str classContextSpecific tag s ++ rest) 0)) as Hk.
  { intros tag s rest Hst Hf. unfold k. rewrite <- (app_nil_r rest), app_assoc.
    apply (rejects_sub_class noSuffix classContextSpecific classUniversal tag tagSequence false
             _ _ _ Hst (fits_str _ _ _ Hf) ltac:(discriminate) [] []). done. }
  destruct (newPassword r); cbn [enc_opt app] in *; [rewrite <- app_assoc; now apply Hk; [tag_side|]|].
  destruct (oldPassword r); cbn [enc_opt app] in *; [rewrite <- app_assoc; now apply Hk; [tag_side|]|].
  destruct (userIdentity r); cbn [enc_opt app] in *; [rewrite <- app_assoc; now apply Hk; [tag_side|]|].
  exact (rejects_sub_end classUniversal tagSequence _ [] [] eq_refl).
Qed.

(** ** Witnesses *)

Definition sample_search (f : Filter) : SearchRequest :=
  mkSearchRequest f "ou=users,dc=teapot" ["cn"; "memberof"] SearchRequestHomeSubtree 0 100 5 false.

Definition sample_filter : Filter :=
  FilterAnd [
    FilterEqualityMatch (mkAttributeValueAssertion "objectclass" "person");
    FilterNot (FilterSubstrings (mkSubstringFilter "cn"
      [SubstringInitial "al"; SubstringAny "i"; SubstringFinal "ce"]));
    FilterOr [FilterPresent "mail";
      FilterExtensibleMatch (mkMatchingRuleAssertion (Some "caseExactMatch"%string) None "x" true)]].

Definition sample_message : LDAPMessage :=
  mkLDAPMessage (OpSearchRequest (sample_search sample_filter))
    (Some [mkControl (Some "value"%string) "1.2.840" true]) 7.

Lemma sample_message_wf : message_wf sample_message.
Proof. repeat split; vm_compute; congruence. Defined.

Lemma Write_encodes_witness :
  LDAPMessage_Write sample_message = Ok (mkBytes (enc_message sample_message) 0)
  /\ len (enc_message sample_message) = 161.
Proof.
  split; [|vm_compute; reflexivity].
  apply (Write_encodes sample_message); [exact sample_message_wf|vm_compute; reflexivity].
Defined.

Lemma message_roundtrip_witness :
  exists b, LDAPMessage_Write sample_message = Ok b /\ offset b = 0
    /\ ReadLDAPMessage (mkBytes ([x01] ++ buf b ++ [x02]) 1)
       = (Ok sample_message, mkBytes ([x01] ++ buf b ++ [x02]) (1 + len (buf b))).
Proof.
  apply (message_roundtrip sample_message [x01] [x02]);
    [exact sample_message_wf | repeat split; vm_compute; congruence | vm_compute; reflexivity].
Defined.

(** A truncated message with an impossible length. *)
Definition sample_garbage : Bytes := mkBytes [x30; x84; xff; xff; x00; x00; x30] 0.

Lemma ReadLDAPMessage_terminates_witness :
  match ReadLDAPMessage sample_garbage with
  | (Ok _, b') => buf b' = buf sample_garbage
                  /\ offset sample_garbage + 2 <= offset b' <= len (buf sample_garbage)
  | (Err _, _) | (Panic _, _) => True
  | (Diverge, _) => False
  end.
Proof. apply (ReadLDAPMessage_terminates sample_garbage). split; vm_compute; congruence. Defined.

Definition sample_result : LDAPResult :=
  mkLDAPResult None "" "operation not supported" ResultCodeUnwillingToPerform.

Lemma plain_result_unreadable_witness :
  exists b, LDAPMessage_Write (mkLDAPMessage (OpLDAPResult sample_result) None 7) = Ok b
    /\ refuses ReadLDAPMessage b.
Proof.
  apply (plain_result_unreadable _ sample_result);
    [repeat split; vm_compute; congruence | reflexivity | vm_compute; reflexivity].
Defined.

Lemma extensible_match_default_unreadable_witness :
  exists b, LDAPMessage_Write (mkLDAPMessage (OpSearchRequest (sample_search
      (FilterExtensibleMatch (mkMatchingRuleAssertion None (Some "cn"%string) "x" false)))) None 7) = Ok b
    /\ refuses ReadLDAPMessage b.
Proof.
  eapply (extensible_match_default_unreadable _ _
    (mkMatchingRuleAssertion None (Some "cn"%string) "x" false));
    [repeat split; vm_compute; congruence | reflexivity | reflexivity | reflexivity
    | vm_compute; reflexivity].
Defined.

Definition sample_password_modify : PasswordModifyRequest :=
  mkPasswordModifyRequest (Some "alice"%string) None (Some "secret"%string).

Lemma password_modify_decodes_witness :
  ExtendedRequest_PasswordModifyRequest
    (mkExtendedRequest (Some (string_of (enc_password_modify sample_password_modify))) "oid")
  = Ok sample_password_modify.
Proof.
  apply (password_modify_decodes sample_password_modify "oid"). vm_compute. reflexivity.
Defined.

Lemma password_modify_write_unreadable_witness :
  refuses readPasswordModifyRequest (mkBytes (pw_written sample_password_modify) 0).
Proof.
  apply (password_modify_write_unreadable sample_password_modify). vm_compute. reflexivity.
Defined.
