(* ===== verification/LdapSrv.v ===== *)
(** * The LDAP server loop

    lib/ldapsrv: packet.go (framing of messages on a connection), error.go
    (result codes carried by errors), handler.go (dispatch of a request to the
    handler and its replies) and the sequential part of client.go (the requests
    of one connection, the list of running requests).

    The goroutine that writes the replies to the socket, deadlines, tracing,
    metrics and logging are not modelled: [serve] returns the list of messages
    handed to the output channel, in order. *)

From stdpp Require Import gmap.
From S2P Require Import Prelude Asn1 Codec LdapTypes LdapPrim LdapAttr LdapFilter LdapOps LdapMessage.
From Stdlib Require Import Strings.Byte.
#[local] Open Scope Z_scope.

(** ** error.go *)

Definition withCode (code : ENUMERATED) (message : string) : error := CodeError code message.

Definition ErrOperationsError : error := withCode ResultCodeOperationsError "operations error".
Definition ErrProtocolError : error := withCode ResultCodeProtocolError "protocol error".
Definition ErrTimeLimitExceeded : error :=
  withCode ResultCodeTimeLimitExceeded "time limit exceeded".
Definition ErrSizeLimitExceeded : error :=
  withCode ResultCodeSizeLimitExceeded "size limit exceeded".
Definition ErrCompareFalse : error := withCode ResultCodeCompareFalse "compare false".
Definition ErrCompareTrue : error := withCode ResultCodeCompareTrue "compare true".
Definition ErrAuthMethodNotSupported : error :=
  withCode ResultCodeAuthMethodNotSupported "auth method not supported".
Definition ErrStrongerAuthRequired : error :=
  withCode ResultCodeStrongerAuthRequired "stronger auth required".
Definition ErrReferral : error := withCode ResultCodeReferral "referral".
Definition ErrAdminLimitExceeded : error :=
  withCode ResultCodeAdminLimitExceeded "admin limit exceeded".
Definition ErrUnavailableCriticalExtension : error :=
  withCode ResultCodeUnavailableCriticalExtension "unavailable critical extension".
Definition ErrConfidentialityRequired : error :=
  withCode ResultCodeConfidentialityRequired "confidentiality required".
Definition ErrSaslBindInProgress : error :=
  withCode ResultCodeSaslBindInProgress "sasl bind in progress".
Definition ErrNoSuchAttribute : error := withCode ResultCodeNoSuchAttribute "no such attribute".
Definition ErrUndefinedAttributeType : error :=
  withCode ResultCodeUndefinedAttributeType "undefined attribute type".
Definition ErrInappropriateMatching : error :=
  withCode ResultCodeInappropriateMatching "inappropriate matching".
Definition ErrConstraintViolation : error :=
  withCode ResultCodeConstraintViolation "constraint violation".
Definition ErrAttributeOrValueExists : error :=
  withCode ResultCodeAttributeOrValueExists "attribute or value exists".
Definition ErrInvalidAttributeSyntax : error :=
  withCode ResultCodeInvalidAttributeSyntax "invalid attribute syntax".
Definition ErrNoSuchObject : error := withCode ResultCodeNoSuchObject "no such object".
Definition ErrAliasProblem : error := withCode ResultCodeAliasProblem "alias problem".
Definition ErrInvalidDNSyntax : error := withCode ResultCodeInvalidDNSyntax "invalid DN syntax".
Definition ErrAliasDereferencingProblem : error :=
  withCode ResultCodeAliasDereferencingProblem "alias dereference problem".
Definition ErrInappropriateAuthentication : error :=
  withCode ResultCodeInappropriateAuthentication "inappropriate authentication".
Definition ErrInvalidCredentials : error :=
  withCode ResultCodeInvalidCredentials "invalid credentials".
Definition ErrInsufficientAccessRights : error :=
  withCode ResultCodeInsufficientAccessRights "insufficient access rights".
Definition ErrBusy : error := withCode ResultCodeBusy "busy".
Definition ErrUnavailable : error := withCode ResultCodeUnavailable "unavailable".
Definition ErrUnwillingToPerform : error :=
  withCode ResultCodeUnwillingToPerform "unwilling to perform".
Definition ErrLoopDetect : error := withCode ResultCodeLoopDetect "loop detected".
Definition ErrNamingViolation : error := withCode ResultCodeNamingViolation "naming violation".
Definition ErrObjectClassViolation : error :=
  withCode ResultCodeObjectClassViolation "object class violation".
Definition ErrNotAllowedOnNonLeaf : error :=
  withCode ResultCodeNotAllowedOnNonLeaf "not allowed on non leaf".
Definition ErrNotAllowedOnRDN : error := withCode ResultCodeNotAllowedOnRDN "not allowed on RDN".
Definition ErrEntryAlreadyExists : error :=
  withCode ResultCodeEntryAlreadyExists "entry already exists".
Definition ErrObjectClassModsProhibited : error :=
  withCode ResultCodeObjectClassModsProhibited "object class mods prohibited".
Definition ErrAffectsMultipleDSAs : error :=
  withCode ResultCodeAffectsMultipleDSAs "affects multiple DSAs".
Definition ErrOther : error := withCode ResultCodeOther "other".
Definition ErrUnimplemented : error :=
  Errorf "operation not unimplemented" [ErrUnwillingToPerform].
Definition ErrUnsupported : error := Errorf "operation not supported" [ErrUnwillingToPerform].

(** [errors.AsType[withErrorCode]]: the first coded error of the tree of wrapped
    errors, in depth-first order. *)
Fixpoint asCode (e : error) : option ENUMERATED :=
  match e with
  | CodeError code _ => Some code
  | HTTPError _ cause => asCode cause
  | Errorf _ ws =>
      (fix first (l : list error) : option ENUMERATED :=
         match l with
         | [] => None
         | w :: l' => match asCode w with Some code => Some code | None => first l' end
         end) ws
  | _ => None
  end.

(** ** packet.go: framing *)

Definition ErrInvalidMessage : error := PlainError "invalid message".
Definition ErrInvalidFirstByte : error := PlainError "expected 0x30 as first byte".
Definition ErrEOF : error := PlainError "end of file".

(** A buffered connection: the bytes in the buffer of the [bufio.Reader] and
    what the successive reads of the connection will deliver (no more chunks is
    the end of the stream). *)
Record Conn : Type := mkConn { buffered : list byte; pending : list (list byte) }.

(** The size of the buffer of [bufio.NewReader]. *)
Definition bufSize : Z := 4096.

(** One [Read] of the connection into a slice of [n] bytes. *)
Definition netRead (n : Z) (p : list (list byte)) : list byte * list (list byte) :=
  match p with
  | [] => ([], [])
  | c :: p' =>
      if len c <=? n then (c, p') else (take (Z.to_nat n) c, drop (Z.to_nat n) c :: p')
  end.

(** [bufio.Reader.Read] into a slice of [n] bytes: at most one read of the
    connection, and only when the buffer is empty. *)
Definition bufioRead (n : Z) (c : Conn) : list byte * Conn :=
  if n =? 0 then ([], c)
  else
    match buffered c with
    | [] =>
        if bufSize <=? n then
          let '(bs, p) := netRead n (pending c) in (bs, mkConn [] p)
        else
          let '(bs, p) := netRead bufSize (pending c) in
          (take (Z.to_nat n) bs, mkConn (drop (Z.to_nat n) bs) p)
    | bs => (take (Z.to_nat n) bs, mkConn (drop (Z.to_nat n) bs) (pending c))
    end.

(** [readBytes]: the bytes with the new ones appended, and the last byte. *)
Definition readBytes (bytes : list byte) (length_ : Z) : Go Conn (byte * list byte) :=
  fun c =>
    let '(newbytes, c') := bufioRead length_ c in
    if negb (len newbytes =? length_)
    then (Err (Errorf "read bytes" [ErrEOF]), c')
    else
      let bytes := bytes ++ newbytes in
      (b <-? index bytes (len bytes - 1) ;; Ok (b, bytes), c').

(** The loop over the bytes of a long length: [Length] and [bytes] so far. *)
Fixpoint readLength (numBytes : nat) (l : Z) (bytes : list byte) : Go Conn (Z * list byte) :=
  match numBytes with
  | O => ret (l, bytes)
  | S n =>
      let! (b, bytes) := readBytes bytes 1 in
      if Z.shiftl 1 23 <=? l then fail (StructuralError "length too large")
      else readLength n (Z.lor (int64 (Z.shiftl l 8)) (byte_val b)) bytes
  end.

Definition readTagAndLength (bytes : list byte) : Go Conn (TagAndLength * list byte) :=
  let! (b, bytes) := readBytes bytes 1 in
  let b := byte_val b in
  let Class := Z.shiftr b 6 in
  let IsCompound := Z.land b 0x20 =? 0x20 in
  let Tag := Z.land b 0x1f in
  if negb (b =? 0x30) then fail (Errorf "unexpected first byte" [ErrInvalidFirstByte])
  else
    let! (b, bytes) := readBytes bytes 1 in
    let b := byte_val b in
    if Z.land b 0x80 =? 0 then
      ret (mkTagAndLength Class Tag (Z.land b 0x7f) IsCompound, bytes)
    else
      let numBytes := Z.land b 0x7f in
      if numBytes =? 0 then fail (SyntaxError "indefinite length found (not DER)" [])
      else
        let! (l, bytes) := readLength (Z.to_nat numBytes) 0 bytes in
        ret (mkTagAndLength Class Tag l IsCompound, bytes).

Definition readLdapMessageBytes : Go Conn (list byte) :=
  let! (tagAndLength, bytes) := readTagAndLength [] in
  let! (_, bytes) := readBytes bytes (Length tagAndLength) in
  ret bytes.

(** [decodeMessage]: a panic of the decoder is recovered into an error. *)
Definition decodeMessage (bytes : list byte) : outcome LDAPMessage :=
  match fst (ReadLDAPMessage (NewBytes 0 bytes)) with
  | Panic _ => Err (Errorf "panic caught while decoding message" [ErrInvalidMessage])
  | r => r
  end.

(** [messagePacket.readMessage] recovers from panics again. *)
Definition readMessage (bytes : list byte) : outcome LDAPMessage :=
  match decodeMessage bytes with
  | Panic _ => Err (Errorf "panic caught while reading message" [PlainError "invalid packet"])
  | r => r
  end.

(** ** handler.go *)

(** The interface [Handler[T]]: every operation runs in the world [W] of the
    handler, and returns the new session state together with an error or not. *)
Record Handler (W T : Type) : Type := mkHandler {
  Bind : T -> BindRequest -> Go W (T * option error);
  Search : T -> SearchRequest -> Go W (list SearchResultEntry * T * option error);
  Add : T -> AddRequest -> Go W (T * option error);
  Del : T -> DelRequest -> Go W (T * option error);
  Modify : T -> ModifyRequest -> Go W (T * option error);
  Compare : T -> CompareRequest -> Go W (bool * T * option error);
  Extended : T -> ExtendedRequest -> Go W (T * option error)
}.
Arguments Bind {W T} _ _ _.
Arguments Search {W T} _ _ _.
Arguments Add {W T} _ _ _.
Arguments Del {W T} _ _ _.
Arguments Modify {W T} _ _ _.
Arguments Compare {W T} _ _ _.
Arguments Extended {W T} _ _ _.

(** [UnimplementedHandler] *)
Definition UnimplementedHandler (W T : Type) : Handler W T := {|
  Bind := fun state _ => ret (state, Some ErrUnimplemented);
  Search := fun state _ => ret ([], state, Some ErrUnimplemented);
  Add := fun state _ => ret (state, Some ErrUnimplemented);
  Del := fun state _ => ret (state, Some ErrUnimplemented);
  Modify := fun state _ => ret (state, Some ErrUnimplemented);
  Compare := fun state _ => ret (false, state, Some ErrUnimplemented);
  Extended := fun state _ => ret (state, Some ErrUnimplemented)
|}.

Definition NoticeOfPasswordModify : LDAPOID := "1.3.6.1.4.1.4203.1.11.1".

(** [NewResponse] *)
Definition NewResponse (resultCode : ENUMERATED) : LDAPResult :=
  SetResultCode (mkLDAPResult None "" "" 0) resultCode.

Section Server.
Context {W T : Type}.
Variable handler : Handler W T.
(** The zero value of the session type, and the state of a new session. *)
Variable zero : T.
(** [error.Error()], the text of an error. *)
Variable errorText : error -> string.

(** The code that a returned error gives to the reply. *)
Definition errorCode (code : ENUMERATED) (err : option error) : ENUMERATED :=
  match err with
  | None => code
  | Some e => match asCode e with Some c => c | None => ResultCodeOther end
  end.

(** [runHandler]: the session state, the result code, the error, and the
    entries written to the response writer.  [state] is a named result of the
    Go function: when no case of the switch assigns it, it is the zero value. *)
Definition runHandler (istate : T) (r : ProtocolOp)
    : Go W (T * ENUMERATED * option error * list ProtocolOp) :=
  let finish (state : T) (code : ENUMERATED) (err : option error) (out : list ProtocolOp) :=
    ret (state, errorCode code err, err, out) in
  let code := ResultCodeSuccess in
  match r with
  | OpBindRequest q => let! (state, err) := Bind handler istate q in finish state code err []
  | OpSearchRequest q =>
      let! (results, state, err) := Search handler istate q in
      finish state code err (map OpSearchResultEntry results)
  | OpAddRequest q => let! (state, err) := Add handler istate q in finish state code err []
  | OpDelRequest q => let! (state, err) := Del handler istate q in finish state code err []
  | OpModifyRequest q => let! (state, err) := Modify handler istate q in finish state code err []
  | OpCompareRequest q =>
      let! (matched, state, err) := Compare handler istate q in
      finish state (if matched then ResultCodeCompareTrue else ResultCodeCompareFalse) err []
  | OpExtendedRequest q =>
      let! (state, err) := Extended handler istate q in finish state code err []
  | _ => finish zero code (Some ErrUnsupported) []
  end.

(** The reply, in the format that the request calls for. *)
Definition reply (r : ProtocolOp) (res : LDAPResult) : ProtocolOp :=
  match r with
  | OpBindRequest _ => OpBindResponse (mkBindResponse res None)
  | OpSearchRequest _ => OpSearchResultDone res
  | OpAddRequest _ => OpAddResponse res
  | OpDelRequest _ => OpDelResponse res
  | OpModifyRequest _ => OpModifyResponse res
  | OpCompareRequest _ => OpCompareResponse res
  | OpExtendedRequest _ =>
      OpExtendedResponse (mkExtendedResponse res (Some NoticeOfPasswordModify) None)
  | _ => OpLDAPResult res
  end.

(** The running requests of a connection by message ID, with the number of
    abort signals each one has received on its [Done] channel. *)
Record Client : Type := mkClient {
  requestList : gmap Z (LDAPMessage * nat);
  out : list LDAPMessage;
  world : W
}.

Definition GetMessageByID (id : Z) (c : Client) : option (LDAPMessage * nat) :=
  requestList c !! id.

(** The writes of a response writer created for a message ID. *)
Definition writeAll (id : MessageID) (ops : list ProtocolOp) : Go Client unit :=
  modify (fun c => mkClient (requestList c)
    (out c ++ map (fun po => mkLDAPMessage po None id) ops) (world c)).

(** Run an operation of the handler on the world of the client. *)
Definition inWorld {A} (m : Go W A) : Go Client A :=
  fun c => let '(o, w) := m (world c) in (o, mkClient (requestList c) (out c) w).

Definition handle (state : T) (r : LDAPMessage) : Go Client T :=
  match protocolOp r with
  | OpAbandonRequest v =>
      modify (fun c =>
        match GetMessageByID v c with
        | Some (m, signals) =>
            mkClient (<[v := (m, S signals)]> (requestList c)) (out c) (world c)
        | None => c
        end)
  | _ => ret tt
  end ;;;
  let! (state, code, err, results) := inWorld (runHandler state (protocolOp r)) in
  writeAll (messageID r) results ;;;
  let res := NewResponse code in
  let res := match err with
             | Some e => SetDiagnosticMessage res (errorText e)
             | None => res
             end in
  writeAll (messageID r) [reply (protocolOp r) res] ;;;
  ret state.

(** ** client.go *)

Definition registerRequest (m : LDAPMessage) : Go Client unit :=
  modify (fun c => mkClient (<[messageID m := (m, O)]> (requestList c)) (out c) (world c)).

Definition unregisterRequest (m : LDAPMessage) : Go Client unit :=
  modify (fun c => mkClient (delete (messageID m) (requestList c)) (out c) (world c)).

Definition ProcessRequestMessage (state : T) (message : LDAPMessage) : Go Client T :=
  registerRequest message ;;;
  state <-- handle state message ;;
  unregisterRequest message ;;;
  ret state.

(** The reading loop of [serve]: it ends when a packet cannot be read or with
    an unbind request; a packet that is no message is skipped.  Each round
    consumes two bytes of the connection at least, so the number of bytes is
    fuel enough. *)
Fixpoint serve_loop (fuel : nat) (state : T) (conn : Conn) : Go Client (T * Conn) :=
  match fuel with
  | O => lift Diverge
  | S fuel' =>
      match readLdapMessageBytes conn with
      | (Err _, conn') => ret (state, conn')
      | (Panic msg, _) => panic msg
      | (Diverge, _) => lift Diverge
      | (Ok bytes, conn') =>
          match readMessage bytes with
          | Err _ => serve_loop fuel' state conn'
          | Panic msg => panic msg
          | Diverge => lift Diverge
          | Ok message =>
              match protocolOp message with
              | OpUnbindRequest => ret (state, conn')
              | _ =>
                  state <-- ProcessRequestMessage state message ;;
                  serve_loop fuel' state conn'
              end
          end
      end
  end.

Definition connSize (c : Conn) : nat := length (buffered c ++ concat (pending c)).

Definition serve (initialState : T) (conn : Conn) (w : W) : outcome (T * Conn) * Client :=
  serve_loop (S (connSize conn)) initialState conn (mkClient ∅ [] w).
End Server.

(** ** Framing *)

Lemma bufioRead_buffered (s rest : list byte) (p : list (list byte)) :
  s <> [] ->
  bufioRead (len s) (mkConn (s ++ rest) p) = (s, mkConn rest p).
Proof.
  intros Hne. unfold bufioRead. cbn [buffered pending].
  destruct (Z.eqb_spec (len s) 0) as [H|_]; [destruct s; [done|len_lia]|].
  assert (take (Z.to_nat (len s)) (s ++ rest) = s) as Ht.
  { unfold len. rewrite Nat2Z.id, take_app_length. done. }
  assert (drop (Z.to_nat (len s)) (s ++ rest) = rest) as Hd.
  { unfold len. rewrite Nat2Z.id, drop_app_length. done. }
  destruct (s ++ rest) as [|b l] eqn:E; [destruct s; done|]. now rewrite Ht, Hd.
Qed.

(** Reading bytes that are in the buffer. *)
Lemma readBytes_buffered (bytes s rest : list byte) (b : byte) (p : list (list byte)) :
  readBytes bytes (len (s ++ [b])) (mkConn ((s ++ [b]) ++ rest) p)
  = (Ok (b, bytes ++ s ++ [b]), mkConn rest p).
Proof.
  unfold readBytes. rewrite bufioRead_buffered by (now destruct s).
  rewrite Z.eqb_refl. cbn [negb]. rewrite !(app_assoc bytes).
  replace (len ((bytes ++ s) ++ [b]) - 1) with (len (bytes ++ s)) by len_lia.
  now rewrite (index_app (bytes ++ s)).
Qed.

Lemma readBytes_one (bytes rest : list byte) (b : byte) (p : list (list byte)) :
  readBytes bytes 1 (mkConn (b :: rest) p) = (Ok (b, bytes ++ [b]), mkConn rest p).
Proof. exact (readBytes_buffered bytes [] rest b p). Qed.

(** Reading the digits of a long length. *)
Lemma readLength_digits (f : nat) (l : Z) (n : nat) bytes rest p :
  0 <= l < 2 ^ 31 -> l < 2 ^ (8 * Z.of_nat f) ->
  readLength (length (len_digits f l) + n) 0 bytes (mkConn (len_digits f l ++ rest) p)
  = readLength n l (bytes ++ len_digits f l) (mkConn rest p).
Proof.
  revert l n rest. induction f as [|f IH]; intros l n rest Hl Hf.
  - change (8 * Z.of_nat 0) with 0 in Hf. assert (l = 0) as -> by lia.
    cbn [len_digits length Nat.add app]. now rewrite app_nil_r.
  - destruct (Z.eq_dec l 0) as [->|Hnz].
    { cbn [len_digits Z.ltb Z.compare length Nat.add app]. now rewrite app_nil_r. }
    assert (Z.shiftr l 8 = l / 256) as Hs by exact (Z.shiftr_div_pow2 l 8 ltac:(lia)).
    assert (l / 256 < 2 ^ 23) by (apply Z.div_lt_upper_bound; lia).
    assert (0 <= l / 256) by (apply Z.div_pos; lia).
    rewrite len_digits_S, length_app by lia. change (length [byte_of l]) with 1%nat.
    rewrite <- Nat.add_assoc, <- !app_assoc, IH.
    2:{ rewrite Hs. lia. }
    2:{ rewrite Hs. apply Z.div_lt_upper_bound; [lia|].
        replace (8 * Z.of_nat (S f)) with (8 + 8 * Z.of_nat f) in Hf by lia.
        rewrite Z.pow_add_r in Hf by lia. change (2 ^ 8) with 256 in Hf. lia. }
    cbn [Nat.add readLength app]. erewrite bind_ok by apply readBytes_one. cbn beta iota.
    rewrite Hs, byte_val_of. change (Z.shiftl 1 23) with (2 ^ 23).
    destruct (Z.leb_spec (2 ^ 23) (l / 256)); [lia|].
    pose proof (Z.mod_pos_bound l 256). rewrite shift_or_small by lia.
    replace (l / 256 * 256 + l mod 256) with l by (rewrite (Z.div_mod l 256) at 1; lia).
    now rewrite <- app_assoc.
Qed.

(** Reading the tag and the length of a sequence. *)
Lemma readTagAndLength_header (l : Z) (rest : list byte) p :
  0 <= l < 2 ^ 31 ->
  readTagAndLength [] (mkConn (header classUniversal true tagSequence l ++ rest) p)
  = (Ok (mkTagAndLength classUniversal tagSequence l true,
         header classUniversal true tagSequence l), mkConn rest p).
Proof.
  intros Hl. unfold readTagAndLength, header. cbn [app].
  erewrite bind_ok by apply readBytes_one. cbn beta iota.
  change (byte_val (byte_of (classUniversal * 64 + 32 + tagSequence))) with 0x30.
  cbn [negb Z.eqb Pos.eqb]. unfold enc_len. destruct (Z.ltb_spec l 128) as [Hs|Hs].
  - cbn [app]. erewrite bind_ok by apply readBytes_one. cbn beta iota.
    rewrite byte_val_of_small by lia. rewrite land_high_small, land_low_small by lia. reflexivity.
  - pose proof (len_digits_len 8 l). pose proof (len_digits_pos 7 l ltac:(lia)) as Hpos.
    change (Z.of_nat 8) with 8 in *.
    cbn [app]. erewrite bind_ok by apply readBytes_one. cbn beta iota.
    rewrite byte_val_of_small by lia.
    destruct (land_long_form (len (len_digits 8 l))) as [-> ->]; [lia|].
    cbn [Z.eqb]. destruct (Z.eqb_spec (len (len_digits 8 l)) 0); [lia|].
    replace (Z.to_nat (len (len_digits 8 l))) with (length (len_digits 8 l) + 0)%nat
      by (unfold len; lia).
    erewrite bind_ok by
      (rewrite readLength_digits by (change (8 * Z.of_nat 8) with 64; lia); reflexivity).
    reflexivity.
Qed.

Lemma readBytes_some (bytes s rest : list byte) (p : list (list byte)) :
  s <> [] ->
  exists b, readBytes bytes (len s) (mkConn (s ++ rest) p) = (Ok (b, bytes ++ s), mkConn rest p).
Proof.
  intros Hne. destruct (exists_last Hne) as (s' & b & ->). exists b.
  rewrite readBytes_buffered. reflexivity.
Qed.

(** A read that the buffer can serve in part only is short. *)
Lemma readBytes_short (bytes s : list byte) (n : Z) (p : list (list byte)) :
  s <> [] -> len s < n ->
  readBytes bytes n (mkConn s p) = (Err (Errorf "read bytes" [ErrEOF]), mkConn [] p).
Proof.
  intros Hne Hn. unfold readBytes, bufioRead. cbn [buffered pending].
  destruct (Z.eqb_spec n 0) as [H|_]; [len_facts; lia|].
  destruct s as [|b s]; [done|].
  rewrite take_ge, drop_ge by (unfold len in Hn; lia).
  destruct (Z.eqb_spec (len (b :: s)) n); [lia|]. reflexivity.
Qed.

Lemma message_contents_nonempty (l : LDAPMessage) : message_contents l <> [].
Proof.
  unfold message_contents. intros [H _]%app_nil. now apply tlv_nonempty in H.
Qed.

(** Exactly the bytes of a message are taken off a buffered connection. *)
Lemma readLdapMessageBytes_message (l : LDAPMessage) (rest : list byte) p :
  fits (message_contents l) ->
  readLdapMessageBytes (mkConn (enc_message l ++ rest) p) = (Ok (enc_message l), mkConn rest p).
Proof.
  intros Hf. unfold readLdapMessageBytes, enc_message, tlv. rewrite <- app_assoc.
  erewrite bind_ok by
    (apply readTagAndLength_header; split; [apply len_nonneg | exact Hf]).
  cbn beta iota. cbn [Length].
  destruct (readBytes_some (header classUniversal true tagSequence (len (message_contents l)))
    (message_contents l) rest p (message_contents_nonempty l)) as [b Hb].
  erewrite bind_ok by exact Hb. reflexivity.
Qed.

Lemma decodeMessage_message (l : LDAPMessage) :
  message_wf l -> op_readable (protocolOp l) -> fits (message_contents l) ->
  decodeMessage (enc_message l) = Ok l.
Proof.
  intros Hwf Hop Hf. unfold decodeMessage, NewBytes.
  pose proof (reads_message l Hwf Hop Hf [] [] I) as Hr. cbn [app] in Hr.
  rewrite app_nil_r in Hr. change (len (@nil byte)) with 0 in Hr. now rewrite Hr.
Qed.

(** a message that [LDAPMessage.Write] produced and that is in the buffer of
    the connection is taken off it exactly, leaving what follows, and decodes to
    the same message. *)
Theorem frame_roundtrip (l : LDAPMessage) (rest : list byte) (p : list (list byte))
    (Hwf : message_wf l) (Hop : op_readable (protocolOp l)) (Hfits : fits (message_contents l)) :
  exists b bytes, LDAPMessage_Write l = Ok b
    /\ readLdapMessageBytes (mkConn (buf b ++ rest) p) = (Ok bytes, mkConn rest p)
    /\ readMessage bytes = Ok l.
Proof.
  exists (mkBytes (enc_message l) 0), (enc_message l).
  split; [now apply Write_message|]. split; [now apply readLdapMessageBytes_message|].
  unfold readMessage. now rewrite decodeMessage_message.
Qed.

(** decoding the bytes of a packet never panics and always ends: whatever a
    client sends, the server gets a message or an error. *)
Theorem decodeMessage_total (bytes : list byte) :
  (exists l, decodeMessage bytes = Ok l) \/ (exists e, decodeMessage bytes = Err e).
Proof.
  unfold decodeMessage, NewBytes.
  pose proof (terminates_message (len bytes) (mkBytes bytes 0)) as H.
  cbn [buf offset] in H. specialize (H ltac:(len_facts; lia) (Z.le_refl _)).
  destruct (ReadLDAPMessage (mkBytes bytes 0)) as [[l|e|p|] b']; cbn [fst]; eauto. destruct H.
Qed.

(** Only part of a message is in the buffer: the rest is not waited for. *)
Lemma readLdapMessageBytes_partial (l : LDAPMessage) (s t : list byte) p :
  fits (message_contents l) -> message_contents l = s ++ t -> s <> [] -> t <> [] ->
  readLdapMessageBytes
    (mkConn (header classUniversal true tagSequence (len (message_contents l)) ++ s) p)
  = (Err (Errorf "read bytes" [ErrEOF]), mkConn [] p).
Proof.
  intros Hf Hst Hs Ht. unfold readLdapMessageBytes.
  erewrite bind_ok by
    (apply readTagAndLength_header; split; [apply len_nonneg | exact Hf]).
  cbn beta iota. cbn [Length]. unfold bind. rewrite readBytes_short; [reflexivity|done|].
  rewrite Hst. destruct t; [done|]. len_lia.
Qed.

(** The first read of a fresh connection fills the buffer. *)
Lemma readTagAndLength_fill (s : list byte) (c : list (list byte)) :
  s <> [] -> bufSize < len s ->
  readLdapMessageBytes (mkConn [] (s :: c))
  = readLdapMessageBytes (mkConn (take (Z.to_nat bufSize) s) (drop (Z.to_nat bufSize) s :: c)).
Proof.
  intros Hne Hl. unfold readLdapMessageBytes, readTagAndLength, bind, readBytes, bufioRead.
  cbn [buffered pending Z.eqb]. unfold netRead.
  destruct (Z.leb_spec (len s) bufSize); [lia|].
  destruct s as [|b s]; [done|]. reflexivity.
Qed.

(** no message longer than the 4096 bytes of the buffered reader can be
    received: [bufio.Reader.Read] returns what is in the buffer, and
    [readBytes] takes a short read for the end of the stream instead of reading
    on, so a client that sends a well-formed message of more than 4096 bytes
    at once is disconnected with [ErrEOF]. *)
Theorem long_message_refused (l : LDAPMessage) (rest : list byte) (c : list (list byte))
    (Hwf : message_wf l) (Hfits : fits (message_contents l))
    (Hlong : bufSize < len (enc_message l)) :
  exists b conn', LDAPMessage_Write l = Ok b
    /\ readLdapMessageBytes (mkConn [] ((buf b ++ rest) :: c))
       = (Err (Errorf "read bytes" [ErrEOF]), conn').
Proof.
  exists (mkBytes (enc_message l) 0). cbn [buf].
  set (h := header classUniversal true tagSequence (len (message_contents l))).
  assert (len h <= 10) as Hh.
  { unfold h, header, enc_len. pose proof (len_digits_len 8 (len (message_contents l))).
    destruct (_ <? _); len_lia. }
  unfold bufSize in *. set (k := Z.to_nat (4096 - len h)).
  exists (mkConn [] (drop 4096 (enc_message l ++ rest) :: c)).
  split; [now apply Write_message|].
  rewrite readTagAndLength_fill; [| |unfold bufSize; len_lia].
  2:{ unfold enc_message, tlv, header. discriminate. }
  unfold bufSize. change (Z.to_nat 4096) with 4096%nat.
  assert (len (enc_message l) = len h + len (message_contents l)) as Hlen
    by (unfold enc_message, tlv; fold h; now rewrite len_app).
  replace (take 4096 (enc_message l ++ rest)) with (h ++ take k (message_contents l)).
  - apply (readLdapMessageBytes_partial l _ (drop k (message_contents l))); [done| | |].
    + now rewrite take_drop.
    + intros Hn%(f_equal length). rewrite length_take in Hn. cbn in Hn.
      unfold k, len in *. lia.
    + intros Hn%(f_equal length). rewrite length_drop in Hn. cbn in Hn.
      unfold k, len in *. lia.
  - rewrite take_app_le by (unfold len in Hlong; lia).
    unfold enc_message, tlv. fold h. rewrite take_app_ge by (unfold len in Hh; lia).
    f_equal. f_equal. unfold k, len. lia.
Qed.

(** ** Sessions *)

Section ServerFacts.
Context {W T : Type} (handler : Handler W T) (zero : T) (errorText : error -> string).

Local Abbreviation process := (ProcessRequestMessage handler zero errorText).
Local Abbreviation serveLoop := (serve_loop handler zero errorText).

(** The requests of a session one after the other, without the wire. *)
Fixpoint processAll (state : T) (ms : list LDAPMessage) : Go (Client (W := W)) T :=
  match ms with
  | [] => ret state
  | m :: ms' => state <-- process state m ;; processAll state ms'
  end.

Definition is_unbind (m : LDAPMessage) : bool :=
  match protocolOp m with OpUnbindRequest => true | _ => false end.

(** A message that a peer can encode and the server decode. *)
Definition transmissible (m : LDAPMessage) : Prop :=
  message_wf m /\ op_readable (protocolOp m) /\ fits (message_contents m).

Lemma serve_loop_message (fuel : nat) (state : T) (m : LDAPMessage) (rest : list byte) p c :
  transmissible m ->
  serveLoop (S fuel) state (mkConn (enc_message m ++ rest) p) c
  = (if is_unbind m then ret (state, mkConn rest p)
     else state <-- process state m ;; serveLoop fuel state (mkConn rest p)) c.
Proof.
  intros (Hwf & Hop & Hf). cbn [serve_loop].
  rewrite readLdapMessageBytes_message by done. unfold readMessage.
  rewrite decodeMessage_message by done. unfold is_unbind.
  now destruct (protocolOp m).
Qed.

(** Pipelined requests, then whatever the connection delivers. *)
Lemma serve_loop_messages (ms : list LDAPMessage) (fuel : nat) (state : T) rest p c :
  Forall transmissible ms -> forallb (fun m => negb (is_unbind m)) ms = true ->
  serveLoop (length ms + fuel) state (mkConn (concat (map enc_message ms) ++ rest) p) c
  = (state <-- processAll state ms ;; serveLoop fuel state (mkConn rest p)) c.
Proof.
  revert state c. induction ms as [|m ms IH]; intros state c Ht Hu; [reflexivity|].
  apply Forall_cons in Ht as [Hm Ht]. cbn [forallb] in Hu. apply andb_prop in Hu as [Hum Hu].
  cbn [length Nat.add map concat]. rewrite <- app_assoc, serve_loop_message by done.
  apply Bool.negb_true_iff in Hum. rewrite Hum. cbn [processAll]. unfold bind at 1 2.
  destruct (process state m c) as [[st| | |] c'] eqn:E; try (unfold bind; now rewrite E).
  rewrite IH by done. unfold bind. now rewrite E.
Qed.

Lemma enc_message_len (m : LDAPMessage) : (1 <= length (enc_message m))%nat.
Proof. unfold enc_message, tlv, header. cbn. lia. Qed.

Lemma concat_messages_len (ms : list LDAPMessage) :
  (length ms <= length (concat (map enc_message ms)))%nat.
Proof.
  induction ms as [|m ms IH]; [cbn; lia|]. cbn [map concat length]. rewrite length_app.
  pose proof (enc_message_len m). lia.
Qed.

Lemma serve_loop_eof (fuel : nat) (state : T) (c : Client (W := W)) :
  serveLoop (S fuel) state (mkConn [] []) c = (Ok (state, mkConn [] []), c).
Proof. reflexivity. Qed.

(** A segment of the stream that fits in the buffer is read at once. *)
Lemma serve_loop_fill (fuel : nat) (state : T) (s : list byte) p c :
  s <> [] -> len s <= bufSize ->
  serveLoop (S fuel) state (mkConn [] (s :: p)) c = serveLoop (S fuel) state (mkConn s p) c.
Proof.
  intros Hs Hl. cbn [serve_loop].
  assert (readLdapMessageBytes (mkConn [] (s :: p)) = readLdapMessageBytes (mkConn s p)) as ->; [|done].
  unfold readLdapMessageBytes, readTagAndLength, bind, readBytes, bufioRead.
  cbn [buffered pending Z.eqb]. unfold netRead. destruct (Z.leb_spec (len s) bufSize); [|lia]. by destruct s.
Qed.

(** The bytes of some messages. *)
Definition segment (ms : list LDAPMessage) : list byte := concat (map enc_message ms).

Lemma processAll_app ms ms' state c :
  processAll state (ms ++ ms') c = (state <-- processAll state ms ;; processAll state ms') c.
Proof.
  revert state c. induction ms as [|m ms IH]; intros state c; [done|]. cbn [app processAll]. unfold bind at 1 2 3.
  by destruct (process state m c) as [[st|e|q|] c'].
Qed.

(** The segments of the stream, each of whole messages, one after the other. *)
Lemma serve_loop_segments (segments : list (list LDAPMessage)) (fuel : nat) (state : T) p c :
  Forall (fun ms => ms <> [] /\ len (segment ms) <= bufSize) segments ->
  Forall transmissible (concat segments) -> forallb (fun m => negb (is_unbind m)) (concat segments) = true ->
  serveLoop (length (concat segments) + fuel) state (mkConn [] (map segment segments ++ p)) c
  = (state <-- processAll state (concat segments) ;; serveLoop fuel state (mkConn [] p)) c.
Proof.
  revert state c. induction segments as [|ms segments IH]; intros state c Hs Ht Hu; [done|].
  apply Forall_cons in Hs as [[Hne Hl] Hs]. cbn [map concat app] in *.
  apply Forall_app in Ht as [Ht1 Ht2]. rewrite forallb_app in Hu. apply andb_prop in Hu as [Hu1 Hu2].
  rewrite length_app, <- Nat.add_assoc. destruct ms as [|m ms]; [done|]. cbn [length Nat.add].
  rewrite serve_loop_fill; [| |exact Hl].
  2: { intros Hn%(f_equal length). pose proof (concat_messages_len (m :: ms)) as H. unfold segment in Hn. rewrite Hn in H. cbn in H. lia. }
  rewrite <- (app_nil_r (segment (m :: ms))).
  etransitivity; [exact (serve_loop_messages (m :: ms) (length (concat segments) + fuel) state [] (map segment segments ++ p) c Ht1 Hu1)|].
  change (m :: ms ++ concat segments) with ((m :: ms) ++ concat segments). unfold bind at 1 2. rewrite processAll_app.
  unfold bind at 1. destruct (processAll state (m :: ms) c) as [[st|e|q|] c']; try done. by apply IH.
Qed.

Lemma segments_len segments :
  (length (concat segments) <= length (concat (map segment segments)))%nat.
Proof.
  induction segments as [|ms segments IH]; [done|]. cbn [map concat]. rewrite !length_app.
  pose proof (concat_messages_len ms). unfold segment at 1. lia.
Qed.

(** C4: Serving a connection on which the encodings of requests arrive in segments of whole
    messages, each read at once as it is no longer than the buffer of 4096 bytes, processes
    exactly those requests, in order, threading the session state, and then ends at the end of
    the stream; an unbind request ends the session at once, and what follows it, in its
    segment and later, stays unread.  The requests are well-formed, readable and of a size that
    fits ([long_message_refused] is one that does not fit in the buffer). *)
Theorem serve_pipeline (segments : list (list LDAPMessage)) (ms : list LDAPMessage) (u : LDAPMessage)
    (rest : list byte) (later : list (list byte)) (state : T) (w : W)
    (Hsegments : Forall (fun ms => ms <> [] /\ len (segment ms) <= bufSize) segments)
    (Hlast : len (segment ms ++ enc_message u ++ rest) <= bufSize)
    (Hms : Forall transmissible (concat segments ++ ms))
    (Hnot : forallb (fun m => negb (is_unbind m)) (concat segments ++ ms) = true)
    (Hu : transmissible u) (Hunbind : is_unbind u = true) :
  let init := mkClient ∅ [] w in
  serve handler zero errorText state (mkConn [] (map segment segments)) w
    = (st <-- processAll state (concat segments) ;; ret (st, mkConn [] [])) init
  /\ serve handler zero errorText state
       (mkConn [] (map segment segments ++ (segment ms ++ enc_message u ++ rest) :: later)) w
     = (st <-- processAll state (concat segments ++ ms) ;; ret (st, mkConn rest later)) init.
Proof.
  cbn zeta. apply Forall_app in Hms as [Hm1 Hm2]. rewrite forallb_app in Hnot. apply andb_prop in Hnot as [Hn1 Hn2].
  unfold serve, connSize. cbn [buffered pending app]. pose proof (segments_len segments) as HL. split.
  - destruct (Nat.le_exists_sub _ _ HL) as (k & Hk & _). rewrite Hk.
    replace (S (k + length (concat segments)))%nat with (length (concat segments) + S k)%nat by lia.
    rewrite <- (app_nil_r (map segment segments)). etransitivity; [by apply serve_loop_segments|].
    unfold bind. by destruct (processAll state (concat segments) _) as [[st| | |] c'].
  - rewrite concat_app, length_app. cbn [concat]. rewrite !length_app.
    pose proof (concat_messages_len ms) as HM. fold (segment ms) in HM. pose proof (enc_message_len u) as HU.
    set (n := length (concat (map segment segments))) in *. set (k := length (concat later)).
    replace (S (n + (length (segment ms) + (length (enc_message u) + length rest) + k)))
      with (length (concat segments) + (length ms + S (n - length (concat segments) + (length (segment ms) - length ms)
                                        + length (enc_message u) + length rest + k)))%nat by lia.
    rewrite serve_loop_segments by done. unfold bind at 1 2. rewrite processAll_app. unfold bind at 1.
    destruct (processAll state (concat segments) _) as [[st| | |] c']; try done.
    assert (0 < length (segment ms ++ enc_message u ++ rest))%nat as Hpos by (rewrite !length_app; lia).
    set (f := (n - length (concat segments) + _ + _ + _ + k)%nat). rewrite (Nat.add_succ_r (length ms) f).
    rewrite serve_loop_fill; [|intros Hz; rewrite Hz in Hpos; cbn in Hpos; lia|done]. rewrite <- (Nat.add_succ_r (length ms) f).
    unfold segment. rewrite serve_loop_messages by done. unfold bind.
    destruct (processAll st ms _) as [[st'| | |] c'']; try done.
    rewrite serve_loop_message by done. by rewrite Hunbind.
Qed.
End ServerFacts.

(** ** What a handler owes to the server, and what the server does with it *)

(** The code that an error carries, if any, is one of the protocol. *)
Definition well_coded (err : option error) : Prop :=
  match err with
  | Some e => match asCode e with
              | Some code => allowed EnumeratedLDAPResultCode code = true
              | None => True
              end
  | None => True
  end.

Definition returns {W A} (P : A -> Prop) (m : Go W A) : Prop :=
  forall w, match fst (m w) with Ok a => P a | _ => True end.

Lemma returns_ret {W A} (P : A -> Prop) (a : A) : P a -> returns P (@ret W A a).
Proof. now intros H w. Qed.

Lemma returns_true {W A} (m : Go W A) : returns (fun _ => True) m.
Proof. intros w. now destruct (fst (m w)). Qed.

Lemma returns_bind {W A B} (Q : A -> Prop) (P : B -> Prop) (m : Go W A) (k : A -> Go W B) :
  returns Q m -> (forall a, Q a -> returns P (k a)) -> returns P (bind m k).
Proof.
  intros Hm Hk w. unfold bind. specialize (Hm w).
  destruct (m w) as [[a| | |] w']; try done. now apply Hk.
Qed.

(** The interface between a handler and the server. *)
Class CodedHandler {W T} (h : Handler W T) : Prop := {
  coded_Bind s r : returns (fun '(_, e) => well_coded e) (Bind h s r);
  coded_Search s r : returns (fun '(_, _, e) => well_coded e) (Search h s r);
  coded_Add s r : returns (fun '(_, e) => well_coded e) (Add h s r);
  coded_Del s r : returns (fun '(_, e) => well_coded e) (Del h s r);
  coded_Modify s r : returns (fun '(_, e) => well_coded e) (Modify h s r);
  coded_Compare s r : returns (fun '(_, _, e) => well_coded e) (Compare h s r);
  coded_Extended s r : returns (fun '(_, e) => well_coded e) (Extended h s r)
}.

#[export] Instance Unimplemented_coded W T : CodedHandler (UnimplementedHandler W T).
Proof. split; intros s r w; reflexivity. Qed.

Section ServerReplies.
Context {W T : Type} (handler : Handler W T) (zero : T) (errorText : error -> string).

Local Abbreviation process := (ProcessRequestMessage handler zero errorText).

Definition is_entry (o : ProtocolOp) : bool :=
  match o with OpSearchResultEntry _ => true | _ => false end.

(** The entries that [runHandler] writes, and the code it ends with. *)
Lemma runHandler_results (s : T) (r : ProtocolOp) :
  returns (fun '(_, _, _, results) => exists l, results = map OpSearchResultEntry l)
    (runHandler handler zero s r).
Proof.
  destruct r; cbn [runHandler];
    first [ apply returns_ret; now exists []
          | eapply returns_bind; [apply returns_true|]; intros x _;
            repeat match goal with y : _ * _ |- _ => destruct y end;
            apply returns_ret; first [now exists [] | now eexists] ].
Qed.

Lemma errorCode_allowed code err :
  allowed EnumeratedLDAPResultCode code = true -> well_coded err ->
  allowed EnumeratedLDAPResultCode (errorCode code err) = true.
Proof. destruct err as [e|]; cbn; [|done]. intros _. now destruct (asCode e). Qed.

Lemma runHandler_code `{!CodedHandler handler} (s : T) (r : ProtocolOp) :
  returns (fun '(_, code, _, _) => allowed EnumeratedLDAPResultCode code = true)
    (runHandler handler zero s r).
Proof.
  destruct r; cbn [runHandler]; try (apply returns_ret; reflexivity).
  - eapply returns_bind; [apply coded_Bind|]. intros [st e] He.
    apply returns_ret. now apply errorCode_allowed.
  - eapply returns_bind; [apply coded_Search|]. intros [[l st] e] He.
    apply returns_ret. now apply errorCode_allowed.
  - eapply returns_bind; [apply coded_Modify|]. intros [st e] He.
    apply returns_ret. now apply errorCode_allowed.
  - eapply returns_bind; [apply coded_Add|]. intros [st e] He.
    apply returns_ret. now apply errorCode_allowed.
  - eapply returns_bind; [apply coded_Del|]. intros [st e] He.
    apply returns_ret. now apply errorCode_allowed.
  - eapply returns_bind; [apply coded_Compare|]. intros [[b st] e] He.
    apply returns_ret. apply errorCode_allowed; [now destruct b|done].
  - eapply returns_bind; [apply coded_Extended|]. intros [st e] He.
    apply returns_ret. now apply errorCode_allowed.
Qed.

(** What a processed request leaves behind. *)
Lemma process_inv (m : LDAPMessage) (state st : T) (c c' : Client (W := W)) :
  requestList c = ∅ ->
  process state m c = (Ok st, c') ->
  exists code err l w',
    runHandler handler zero state (protocolOp m) (world c)
      = (Ok (st, code, err, map OpSearchResultEntry l), w')
    /\ requestList c' = ∅ /\ world c' = w'
    /\ out c' = out c
         ++ map (fun e => mkLDAPMessage (OpSearchResultEntry e) None (messageID m)) l
         ++ [mkLDAPMessage (reply (protocolOp m)
              (mkLDAPResult None "" (match err with Some e => errorText e | None => "" end) code))
              None (messageID m)].
Proof.
  intros Hc H. unfold ProcessRequestMessage, registerRequest, modify in H. unfold bind at 1 in H.
  cbn [fst snd] in H. rewrite Hc in H. apply bind_ok_inv in H as (st1 & c1 & Hh & H).
  unfold unregisterRequest, modify, bind, ret in H. injection H as <- <-. cbn [requestList world out].
  unfold handle in Hh. apply bind_ok_inv in Hh as (u & c2 & Hab & Hh).
  assert (world c2 = world c /\ out c2 = out c
          /\ exists k, requestList c2 = {[messageID m := (m, k)]}) as (Hw2 & Ho2 & k & Hr2).
  { destruct (protocolOp m); unfold ret, modify in Hab;
      try (injection Hab as _ <-; split; [done|split; [done|now exists O]]).
    injection Hab as _ <-. unfold GetMessageByID. cbn [requestList].
    destruct (decide (r = messageID m)) as [->|Hne].
    - rewrite lookup_insert_eq. cbn [world out requestList]. split; [done|]. split; [done|].
      eexists. rewrite insert_insert_eq. reflexivity.
    - rewrite lookup_insert_ne by done. rewrite lookup_empty. cbn.
      split; [done|split; [done|now exists O]]. }
  apply bind_ok_inv in Hh as ([[[st2 code] err] results] & c3 & Hrun & Hh).
  unfold inWorld in Hrun. rewrite Hw2 in Hrun.
  destruct (runHandler handler zero state (protocolOp m) (world c)) as [o w'] eqn:E.
  injection Hrun as -> <-.
  pose proof (runHandler_results state (protocolOp m) (world c)) as Hres.
  rewrite E in Hres. cbn [fst] in Hres. destruct Hres as [l ->].
  unfold writeAll, modify, bind, ret in Hh. injection Hh as <- <-. cbn [requestList world out].
  exists code, err, l, w'. split; [done|]. split.
  { rewrite Hr2. apply delete_singleton_eq. }
  split; [done|]. rewrite Ho2, map_map, <- app_assoc. destruct err; reflexivity.
Qed.

(** a processed request leaves no request registered on the connection
    (so an abandon request never reaches another one: requests are processed
    one at a time) and is answered by search entries followed by exactly one
    final reply of the kind the request calls for, all with its message ID,
    whose code is the one of the error returned by the handler. *)
Theorem process_replies (m : LDAPMessage) (state st : T) (c c' : Client (W := W))
    (Hc : requestList c = ∅) (H : process state m c = (Ok st, c')) :
  requestList c' = ∅ /\
  exists code err l,
    fst (runHandler handler zero state (protocolOp m) (world c))
      = Ok (st, code, err, map OpSearchResultEntry l)
    /\ out c' = out c
         ++ map (fun e => mkLDAPMessage (OpSearchResultEntry e) None (messageID m)) l
         ++ [mkLDAPMessage (reply (protocolOp m)
              (mkLDAPResult None "" (match err with Some e => errorText e | None => "" end) code))
              None (messageID m)].
Proof.
  destruct (process_inv m state st c c' Hc H) as (code & err & l & w' & Hr & Hc' & _ & Ho).
  split; [done|]. exists code, err, l. now rewrite Hr.
Qed.

Lemma replies_wf `{Hh : !CodedHandler handler} (m : LDAPMessage) (state st : T)
    (c c' : Client (W := W))
    (Hc : requestList c = ∅) (Hid : 0 <= messageID m < 2 ^ 31)
    (Hout : Forall message_wf (out c)) (H : process state m c = (Ok st, c')) :
  Forall message_wf (out c').
Proof.
  destruct (process_inv m state st c c' Hc H) as (code & err & l & w' & Hr & _ & _ & ->).
  pose proof (runHandler_code state (protocolOp m) (world c)) as Hcode.
  rewrite Hr in Hcode. cbn [fst] in Hcode.
  rewrite !Forall_app. split; [done|]. split.
  - apply Forall_map, Forall_true. intros e. split; [exact Hid|exact I].
  - constructor; [|constructor]. split; [exact Hid|].
    cbn [protocolOp]. destruct (protocolOp m); cbn [reply op_wf];
      (split; [exact Hcode|done]).
Qed.

(** C40: A request with a message ID of 31 bits, handled by a handler whose errors carry
    codes of the protocol, gets replies that [Write] accepts, each as the encoding of
    the message, provided that the contents of the reply are shorter than 2^31 bytes;
    in particular every result code is one that the protocol knows. *)
Theorem replies_encodable `{Hh : !CodedHandler handler} (m : LDAPMessage) (state st : T)
    (c c' : Client (W := W)) (r : LDAPMessage)
    (Hc : requestList c = ∅) (Hid : 0 <= messageID m < 2 ^ 31)
    (Hout : out c = []) (H : process state m c = (Ok st, c')) :
  r ∈ out c' ->
  message_wf r /\ (fits (message_contents r) -> LDAPMessage_Write r = Ok (mkBytes (enc_message r) 0)).
Proof.
  intros Hr. assert (Forall message_wf (out c')) as Hwf.
  { eapply replies_wf; [exact Hc|exact Hid|by rewrite Hout|exact H]. }
  rewrite Forall_forall in Hwf. split; [by apply Hwf|]. intros Hf. apply Write_message; [by apply Hwf|done].
Qed.

(** an operation that the server does not support (an abandon or modify-DN
    request, or a response) is refused without running the handler, and the
    session state it leaves is the zero value of the session type, not the
    state the session had: the client has to bind again. *)
Theorem unsupported_resets_session (state : T) (o : ProtocolOp) (w : W)
    (Ho : match o with
          | OpBindRequest _ | OpSearchRequest _ | OpAddRequest _ | OpDelRequest _
          | OpModifyRequest _ | OpCompareRequest _ | OpExtendedRequest _ => False
          | _ => True
          end) :
  runHandler handler zero state o w
  = (Ok (zero, ResultCodeUnwillingToPerform, Some ErrUnsupported, []), w).
Proof. destruct o; cbn in Ho; try contradiction; reflexivity. Qed.
End ServerReplies.

(** ** Witnesses *)

Lemma frame_roundtrip_witness :
  exists b bytes, LDAPMessage_Write sample_message = Ok b
    /\ readLdapMessageBytes (mkConn (buf b ++ [x30]) []) = (Ok bytes, mkConn [x30] [])
    /\ readMessage bytes = Ok sample_message.
Proof.
  apply (frame_roundtrip sample_message [x30] []);
    [exact sample_message_wf | repeat split; vm_compute; congruence | vm_compute; reflexivity].
Defined.

(** An add request whose entry name has 5000 bytes. *)
Definition long_message : LDAPMessage :=
  mkLDAPMessage (OpAddRequest (mkAddRequest (string_of (repeat x61 5000)) [])) None 1.

Lemma long_message_refused_witness :
  exists b conn', LDAPMessage_Write long_message = Ok b
    /\ readLdapMessageBytes (mkConn [] [buf b ++ [x30]])
       = (Err (Errorf "read bytes" [ErrEOF]), conn').
Proof.
  apply (long_message_refused long_message [x30] []).
  - split; [split; vm_compute; congruence | apply Forall_nil_2].
  - vm_compute. reflexivity.
  - vm_compute. reflexivity.
Defined.

(** A handler that counts the bind requests in its world and keeps the number
    of the last one as the session state. *)
Definition counting_handler : Handler nat nat := {|
  Bind := fun _ _ w => (Ok (S w, None), S w);
  Search := fun state _ => ret ([mkSearchResultEntry "dc=teapot" []], state, None);
  Add := fun state _ => ret (state, Some ErrUnimplemented);
  Del := fun state _ => ret (state, Some ErrUnimplemented);
  Modify := fun state _ => ret (state, Some ErrUnimplemented);
  Compare := fun state _ => ret (false, state, Some ErrUnimplemented);
  Extended := fun state _ => ret (state, Some ErrUnimplemented)
|}.

#[export] Instance counting_coded : CodedHandler counting_handler.
Proof. split; intros s r w; reflexivity. Qed.

Definition sample_bind : LDAPMessage :=
  mkLDAPMessage (OpBindRequest (mkBindRequest (AuthSimple "secret") "cn=alice,dc=teapot" 3)) None 1.
Definition sample_unbind : LDAPMessage := mkLDAPMessage OpUnbindRequest None 3.
Definition no_text (e : error) : string := "".

Lemma serve_pipeline_witness :
  serve counting_handler O no_text O
    (mkConn [] [segment [sample_bind; sample_message]; segment [sample_message] ++ enc_message sample_unbind ++ [x30]; [x30]]) O
  = (st <-- processAll counting_handler O no_text O [sample_bind; sample_message; sample_message] ;;
     ret (st, mkConn [x30] [[x30]])) (mkClient ∅ [] O).
Proof.
  apply (serve_pipeline counting_handler O no_text [[sample_bind; sample_message]] [sample_message] sample_unbind
           [x30] [[x30]] O O).
  - constructor; [|constructor]. split; [done|vm_compute; congruence].
  - vm_compute. congruence.
  - repeat constructor; vm_compute; congruence.
  - reflexivity.
  - repeat split; vm_compute; congruence.
  - reflexivity.
Defined.

Lemma process_replies_witness :
  exists c', ProcessRequestMessage counting_handler O no_text 5%nat sample_message
               (mkClient ∅ [] O) = (Ok 5%nat, c') /\ requestList c' = ∅.
Proof.
  eexists. split; [vm_compute; reflexivity|].
  eapply (process_replies counting_handler O no_text sample_message 5%nat 5%nat (mkClient ∅ [] O));
    [reflexivity | vm_compute; reflexivity].
Defined.

Lemma replies_encodable_witness :
  exists c' e r, ProcessRequestMessage counting_handler O no_text 5%nat sample_message
               (mkClient ∅ [] O) = (Ok 5%nat, c') /\ out c' = [e; r]
    /\ LDAPMessage_Write r = Ok (mkBytes (enc_message r) 0).
Proof.
  eexists _, _, _. split; [vm_compute; reflexivity|]. split; [reflexivity|].
  eapply (replies_encodable counting_handler O no_text sample_message 5%nat 5%nat (mkClient ∅ [] O));
    [reflexivity | vm_compute; split; congruence | reflexivity | vm_compute; reflexivity | | ].
  - apply list_elem_of_further, list_elem_of_here.
  - vm_compute; reflexivity.
Defined.

(** An abandon request in the middle of an authenticated session. *)
Lemma unsupported_resets_session_witness :
  runHandler counting_handler O 5%nat (OpAbandonRequest 1) 7%nat
  = (Ok (O, ResultCodeUnwillingToPerform, Some ErrUnsupported, []), 7%nat).
Proof. apply (unsupported_resets_session counting_handler O 5%nat (OpAbandonRequest 1) 7%nat I). Defined.
