(* ===== verification/LdapConn.v ===== *)
(** * The goroutines of an LDAP connection

    lib/ldapsrv/client.go: the goroutine that reads and handles the requests ([serve], then
    [close]), the one that writes the replies, and the one that waits for the server to
    stop, as a transition system of what each does between two operations on the channels
    and the wait group that they share.

    What a request is answered with is any list of messages (LdapSrv says which); reading,
    deadlines and the texts of logs are left out, a write may fail. *)

From stdpp Require Import list relations.
From S2P Require Import Prelude.
#[local] Open Scope nat_scope.

Section Connection.
Context {M : Type}.

(** A reply, or the notice that the server stops. *)
Inductive outgoing : Type :=
| Reply (m : M)
| Notice.

(** [serve] and [close]: between requests; the replies that the handler still has to send;
    before [close(c.closing)]; in [c.wg.Wait()]; in [<-c.writeDone]; the connection is
    closed, or [close] has given up on an error of SetReadDeadline. *)
Inductive reading : Type :=
| Reading
| Handling (replies : list M)
| Leaving
| WaitingRequests
| WaitingWriter
| ConnClosed
| GaveUp.

Inductive writing : Type :=
| AwaitingMessage
| WritingMessage (m : outgoing)
| WriteDone.

(** The goroutine that listens for the end of the server. *)
Inductive watching : Type :=
| Watching
| Announcing
| Announced
| WatchEnded
| WatchPanicked.

#[export] Instance watching_eq_dec : EqDecision watching.
Proof using Type. solve_decision. Defined.

Record connection : Type := mkConnection {
  stopping : bool;           (* serveCtx is done *)
  closingClosed : bool;      (* c.closing *)
  outClosed : bool;          (* c.chanOut *)
  counted : nat;             (* c.wg *)
  reader : reading;
  writer : writing;
  watcher : watching;
  asked : list M;            (* the replies of the requests so far *)
  handed : list outgoing;    (* what the writer was given *)
  written : list outgoing    (* what it has written, or tried to *)
}.

Definition newConnection : connection :=
  mkConnection false false false 0 Reading AwaitingMessage Watching [] [] [].

Definition setReader (s : connection) (r : reading) (n : nat) : connection :=
  mkConnection (stopping s) (closingClosed s) (outClosed s) n r (writer s) (watcher s) (asked s) (handed s) (written s).
Definition setWatcher (s : connection) (w : watching) (n : nat) : connection :=
  mkConnection (stopping s) (closingClosed s) (outClosed s) n (reader s) (writer s) w (asked s) (handed s) (written s).

(** A message is handed over on the unbuffered channel. *)
Definition handOver (s : connection) (m : outgoing) : connection :=
  mkConnection (stopping s) (closingClosed s) (outClosed s) (counted s) (reader s) (WritingMessage m) (watcher s)
    (asked s) (handed s ++ [m]) (written s).

(** What the client does, and the end of the server. *)
Inductive clientStep : connection -> connection -> Prop :=
| Stops s :
    clientStep s (mkConnection true (closingClosed s) (outClosed s) (counted s) (reader s) (writer s) (watcher s)
                    (asked s) (handed s) (written s))
(* ProcessRequestMessage: c.wg.Add(1), the handler, its replies, c.wg.Done() *)
| Request s l : reader s = Reading ->
    clientStep s (mkConnection (stopping s) (closingClosed s) (outClosed s) (S (counted s)) (Handling l) (writer s) (watcher s)
                    (asked s ++ l) (handed s) (written s))
(* the end of the stream, an error, an unbind *)
| Ends s : reader s = Reading -> clientStep s (setReader s Leaving (counted s)).

(** What the goroutines do. *)
Inductive connStep : connection -> connection -> Prop :=
| Replies s m l : reader s = Handling (m :: l) -> outClosed s = false -> writer s = AwaitingMessage ->
    connStep s (setReader (handOver s (Reply m)) (Handling l) (counted s))
| Handled s : reader s = Handling [] -> connStep s (setReader s Reading (pred (counted s)))
(* close *)
| Closes s : reader s = Leaving ->
    connStep s (mkConnection (stopping s) true (outClosed s) (counted s) WaitingRequests (writer s) (watcher s)
                  (asked s) (handed s) (written s))
| DeadlineFails s : reader s = Leaving ->
    connStep s (mkConnection (stopping s) true (outClosed s) (counted s) GaveUp (writer s) (watcher s)
                  (asked s) (handed s) (written s))
| ClosesOut s : reader s = WaitingRequests -> counted s = 0 ->
    connStep s (mkConnection (stopping s) (closingClosed s) true (counted s) WaitingWriter (writer s) (watcher s)
                  (asked s) (handed s) (written s))
| ClosesConn s : reader s = WaitingWriter -> writer s = WriteDone -> connStep s (setReader s ConnClosed (counted s))
(* the writer *)
| Writes s m : writer s = WritingMessage m ->
    connStep s (mkConnection (stopping s) (closingClosed s) (outClosed s) (counted s) (reader s) AwaitingMessage (watcher s)
                  (asked s) (handed s) (written s ++ [m]))
| WriterEnds s : writer s = AwaitingMessage -> outClosed s = true ->
    connStep s (mkConnection (stopping s) (closingClosed s) (outClosed s) (counted s) (reader s) WriteDone (watcher s)
                  (asked s) (handed s) (written s))
(* the watcher: its select takes any of the two when both are ready *)
| SeesStop s : watcher s = Watching -> stopping s = true -> connStep s (setWatcher s Announcing (S (counted s)))
| SeesClosing s : watcher s = Watching -> closingClosed s = true -> connStep s (setWatcher s WatchEnded (counted s))
| Announces s : watcher s = Announcing -> outClosed s = false -> writer s = AwaitingMessage ->
    connStep s (setWatcher (handOver s Notice) Announced (counted s))
| SendsOnClosed s : watcher s = Announcing -> outClosed s = true -> connStep s (setWatcher s WatchPanicked (counted s))
| Announced_ s : watcher s = Announced -> connStep s (setWatcher s WatchEnded (pred (counted s))).

(** A panic ends the program: nothing happens after it. *)
Definition liveStep (s s' : connection) : Prop := watcher s <> WatchPanicked /\ (clientStep s s' \/ connStep s s').

Definition served (s : connection) : Prop := rtc liveStep newConnection s.

(** ** What holds of every connection *)

Definition toSend (r : reading) : list M := match r with Handling l => l | _ => [] end.
Definition inHand (w : writing) : list outgoing := match w with WritingMessage m => [m] | _ => [] end.
Definition repliesOf (l : list outgoing) : list M := omap (fun m => match m with Reply m => Some m | Notice => None end) l.
Definition noticesOf (l : list outgoing) : nat := length (List.filter (fun m => match m with Notice => true | _ => false end) l).

Definition readerCount (r : reading) : nat := match r with Handling _ => 1 | _ => 0 end.
Definition watcherCount (w : watching) : nat := match w with Announcing | Announced | WatchPanicked => 1 | _ => 0 end.
Definition noticesSent (w : watching) (n : nat) : Prop :=
  match w with Announced => n = 1 | WatchEnded => n <= 1 | _ => n = 0 end.

Arguments repliesOf : simpl never.
Arguments noticesOf : simpl never.

(** Where [close] is when the channel of messages is closed. *)
Definition closedBy (r : reading) : bool := match r with WaitingWriter | ConnClosed => true | _ => false end.

Record connInv (s : connection) : Prop := {
  inv_counted : counted s = readerCount (reader s) + watcherCount (watcher s);
  inv_closed : outClosed s = closedBy (reader s);
  inv_handed : handed s = written s ++ inHand (writer s);
  inv_asked : asked s = repliesOf (handed s) ++ toSend (reader s);
  inv_done : writer s = WriteDone -> outClosed s = true;
  inv_last : reader s = ConnClosed -> writer s = WriteDone;
  inv_notice : noticesSent (watcher s) (noticesOf (handed s));
  inv_announced : watcher s = Announced -> outClosed s = false;
  inv_panicked : watcher s = WatchPanicked -> outClosed s = true
}.

Lemma repliesOf_app l k : repliesOf (l ++ k) = repliesOf l ++ repliesOf k.
Proof using Type. apply omap_app. Qed.
Lemma noticesOf_app l k : noticesOf (l ++ k) = noticesOf l + noticesOf k.
Proof using Type. unfold noticesOf. by rewrite List.filter_app, length_app. Qed.

Ltac conn_case :=
  repeat match goal with
         | H : reader ?s = _ |- _ => rewrite H in *; clear H
         | H : writer ?s = _ |- _ => rewrite H in *; clear H
         | H : watcher ?s = _ |- _ => rewrite H in *; clear H
         | H : counted ?s = _ |- _ => rewrite H in *; clear H
         end; cbn in *.

Ltac rewrite_traces :=
  rewrite ?repliesOf_app, ?noticesOf_app in *;
  change (noticesOf []) with 0 in *; change (noticesOf [Notice]) with 1 in *; change (repliesOf [Notice]) with (@nil M) in *;
  repeat match goal with
         | |- context [noticesOf [Reply ?m]] => change (noticesOf [Reply m]) with 0
         | |- context [repliesOf [Reply ?m]] => change (repliesOf [Reply m]) with [m]
         end;
  rewrite <- ?app_assoc, ?app_nil_r, ?Nat.add_0_r in *.

Lemma connInv_step s s' : connInv s -> liveStep s s' -> connInv s'.
Proof using Type.
  intros [H1 H2 H3 H4 H5 H6 H7 H8 H9] [HL HS].
  destruct s as [st cc oc n r w wa a h wr]; cbn in *. subst.
  destruct HS as [HS|HS]; inversion HS; cbn in *; subst; clear HS; split; cbn in *; rewrite_traces.
  all: try done; try congruence; try lia.
  all: try (intros E; specialize (H6 E); congruence).
  all: destruct wa; cbn in *; congruence || lia.
Qed.

Lemma connInv_served s : served s -> connInv s.
Proof using Type.
  revert s. unfold served. apply rtc_ind_r; [by split|]. intros s1 s2 _ HS IH. by eapply connInv_step.
Qed.

(** The goroutines have always something to do, but in a connection that waits for its
    client with every reply written, or is over. *)
Lemma connection_moves (s : connection) (HI : connInv s) :
  (forall s', ~ connStep s s') -> watcher s <> WatchPanicked ->
  (reader s = ConnClosed \/ reader s = GaveUp \/ reader s = Reading) /\ repliesOf (written s) = asked s.
Proof using Type.
  intros Hno Hp. destruct HI as [H1 H2 H3 H4 H5 H6 _ H8 _].
  assert (reader s = ConnClosed \/ reader s = GaveUp \/ reader s = Reading) as Hr.
  { destruct (reader s) as [|[|m l]| | | | |] eqn:Er; auto; exfalso;
      try (by eapply Hno, Handled); try (by eapply Hno, Closes).
    all: destruct (writer s) as [|m'|] eqn:Ew; try (by eapply Hno, Writes); cbn in *;
      try (specialize (H5 eq_refl); congruence).
    - by eapply Hno, Replies.
    - destruct (watcher s) eqn:Ewa; cbn in H1; try done; try (by eapply Hno, ClosesOut).
      + by eapply Hno, Announces.
      + by eapply Hno, Announced_.
    - by eapply Hno, WriterEnds.
    - by eapply Hno, ClosesConn. }
  split; [done|]. rewrite H3, repliesOf_app in H4.
  destruct (writer s) as [|m'|] eqn:Ew; [|by destruct (Hno _ (Writes _ _ Ew))|];
    cbn [inHand] in H4; change (repliesOf []) with (@nil M) in H4; rewrite app_nil_r in H4;
    destruct Hr as [Hr|[Hr|Hr]]; rewrite Hr in H4; cbn in H4; by rewrite app_nil_r in H4.
Qed.

(** What the goroutines have left to do. *)
Definition work (s : connection) : nat :=
  2 * length (toSend (reader s))
  + match reader s with
    | Handling _ => 6 | Reading => 5 | Leaving => 4 | WaitingRequests => 3 | WaitingWriter => 2 | ConnClosed | GaveUp => 1
    end
  + match writer s with WritingMessage _ => 2 | AwaitingMessage => 1 | WriteDone => 0 end
  + match watcher s with Watching => 5 | Announcing => 4 | Announced => 2 | WatchEnded | WatchPanicked => 1 end.

Lemma work_decreases s s' : connStep s s' -> work s' < work s.
Proof using Type.
  intros HS. destruct s as [st cc oc n r w wa a h wr]. inversion HS; cbn in *; subst; unfold work; cbn; lia.
Qed.

(** C27: However the client and the goroutines of a connection interleave: the replies are
    written in the order in which they were asked for, each once, with at most one
    notice; a connection that [close] has closed has written them all; and a handler
    never sends on a closed channel.  Unless the client makes another step, the
    goroutines come to rest after at most [work] steps, and at rest every reply is
    written and the reader waits for the client, has closed the connection, or gave it up
    because SetReadDeadline failed; the exception is the panic of the watcher. *)
Theorem connection_serves (s : connection) (HS : served s) :
  asked s = repliesOf (written s) ++ repliesOf (inHand (writer s)) ++ toSend (reader s) /\
  noticesOf (written s ++ inHand (writer s)) <= 1 /\
  (reader s = ConnClosed -> repliesOf (written s) = asked s) /\
  (forall m l, reader s = Handling (m :: l) -> outClosed s = false) /\
  (forall n s', nsteps connStep n s s' -> n <= work s) /\
  ((forall s', ~ connStep s s') -> watcher s <> WatchPanicked ->
     (reader s = ConnClosed \/ reader s = GaveUp \/ reader s = Reading) /\ repliesOf (written s) = asked s).
Proof using Type.
  pose proof (connInv_served _ HS) as HI. pose proof (connection_moves _ HI) as HM.
  destruct HI as [H1 H2 H3 H4 H5 H6 H7 H8 H9]. rewrite H3, repliesOf_app, <- app_assoc in H4. rewrite H3 in H7.
  split_and!; [done| | | | |done].
  - destruct (watcher s); cbn in H7; lia.
  - intros E. rewrite H4, (H6 E), E. cbn. change (repliesOf []) with (@nil M). by rewrite !app_nil_r.
  - intros m l E. by rewrite H2, E.
  - clear. intros n s' H. induction H as [|n s1 s2 s3 H%work_decreases _ IH]; lia.
Qed.
End Connection.

(** ** Two connections *)

Ltac conn_step c := eapply rtc_l; [split; [discriminate|first [by left; c | by right; c]]|cbn].

(** A request with two replies, the end of the server, the end of the stream. *)
Lemma connection_serves_witness :
  exists s : connection, served s /\ reader s = ConnClosed /\ written s = [Reply 7; Notice; Reply 8] /\
    (asked s = repliesOf (written s) ++ repliesOf (inHand (writer s)) ++ toSend (reader s) /\
     noticesOf (written s ++ inHand (writer s)) <= 1 /\
     (reader s = ConnClosed -> repliesOf (written s) = asked s) /\
     (forall m l, reader s = Handling (m :: l) -> outClosed s = false) /\
     (forall n s', nsteps connStep n s s' -> n <= work s) /\
     ((forall s', ~ connStep s s') -> watcher s <> WatchPanicked ->
        (reader s = ConnClosed \/ reader s = GaveUp \/ reader s = Reading) /\ repliesOf (written s) = asked s)).
Proof.
  assert (HS : served (mkConnection true true true 0 ConnClosed WriteDone WatchEnded [7; 8]
                         [Reply 7; Notice; Reply 8] [Reply 7; Notice; Reply 8])).
  { unfold served, newConnection.
    conn_step ltac:(by apply (Request _ [7; 8])). conn_step ltac:(by eapply Replies). conn_step ltac:(by eapply Stops).
    conn_step ltac:(by eapply Writes). conn_step ltac:(by eapply SeesStop). conn_step ltac:(by eapply Announces).
    conn_step ltac:(by eapply Writes). conn_step ltac:(by eapply Replies). conn_step ltac:(by eapply Announced_).
    conn_step ltac:(by eapply Handled). conn_step ltac:(by eapply Ends). conn_step ltac:(by eapply Writes).
    conn_step ltac:(by eapply Closes). conn_step ltac:(by eapply ClosesOut). conn_step ltac:(by eapply WriterEnds).
    conn_step ltac:(by eapply ClosesConn). apply rtc_refl. }
  eexists; split; [exact HS|]. split; [reflexivity|]. split; [reflexivity|]. exact (connection_serves _ HS).
Defined.

(** When the server stops while a connection ends, the goroutine that announces it may send
    on the channel that [close] has closed: the program panics. *)
Example announcement_panics : exists s : connection (M := nat), served s /\ watcher s = WatchPanicked.
Proof.
  exists (mkConnection true true true 1 WaitingWriter AwaitingMessage WatchPanicked [] [] []). split; [|reflexivity].
  unfold served, newConnection.
  conn_step ltac:(by eapply Ends). conn_step ltac:(by eapply Closes). conn_step ltac:(by eapply ClosesOut).
  conn_step ltac:(by eapply Stops). conn_step ltac:(by eapply SeesStop). conn_step ltac:(by eapply SendsOnClosed).
  apply rtc_refl.
Qed.

(** When SetReadDeadline fails, [close] returns before it closes the connection, and the
    writer waits for ever. *)
Example failed_deadline_leaks :
  exists s : connection (M := nat), served s /\ reader s = GaveUp /\
    forall s', rtc liveStep s s' -> reader s' = GaveUp /\ outClosed s' = false /\ writer s' = AwaitingMessage.
Proof.
  exists (mkConnection false true false 0 GaveUp AwaitingMessage WatchEnded [] [] []). split; [|split; [reflexivity|]].
  - unfold served, newConnection.
    conn_step ltac:(by eapply Ends). conn_step ltac:(by eapply DeadlineFails). conn_step ltac:(by eapply SeesClosing).
    apply rtc_refl.
  - intros s' HR. enough ((reader s' = GaveUp /\ outClosed s' = false /\ writer s' = AwaitingMessage) /\ watcher s' = WatchEnded)
      as [? _] by done. revert s' HR. apply rtc_ind_r; [done|].
    intros s1 s2 _ [_ [HS|HS]] [(Er & Eo & Ew) Ewa]; inversion HS; cbn in *; subst; try congruence; done.
Qed.
