(* ===== verification/GoStrings.v ===== *)
(** * Go strings

    The functions of the packages strings, unicode/utf8 and strconv that the
    directory service uses.  A Go string is the sequence of its bytes.

    strings.ToLower, strings.TrimSpace and strings.EqualFold work on the bytes
    when they are all ASCII, and consult the Unicode tables otherwise: the second
    case is a parameter, the class [Unicode]. *)

From S2P Require Import Prelude.
From Stdlib Require Import Strings.Ascii Strings.Byte.
#[local] Open Scope Z_scope.

(** ** Bytes of a string *)

Definition code (c : ascii) : Z := Z.of_N (N_of_ascii c).
Definition chr (z : Z) : ascii := ascii_of_N (Z.to_N (uint8 z)).

Fixpoint all (p : ascii -> bool) (s : string) : bool :=
  match s with
  | EmptyString => true
  | String c s' => p c && all p s'
  end.

Fixpoint mapString (f : ascii -> ascii) (s : string) : string :=
  match s with
  | EmptyString => ""
  | String c s' => String (f c) (mapString f s')
  end.

(** [strings.IndexByte(s, c) >= 0] *)
Definition containsByte (c : ascii) (s : string) : bool :=
  negb (all (fun a => negb (a =? c)%char) s).

(** No byte [c] in [s]. *)
Definition lacks (c : ascii) (s : string) : bool := all (fun a => negb (a =? c)%char) s.

Definition isASCIIByte (c : ascii) : bool := code c <? 128.
Definition isASCII (s : string) : bool := all isASCIIByte s.

Definition lowerByte (c : ascii) : ascii :=
  if (65 <=? code c) && (code c <=? 90) then chr (code c + 32) else c.

(** [asciiSpace]: tab, newline, vertical tab, form feed, carriage return, space. *)
Definition isSpaceByte (c : ascii) : bool :=
  ((9 <=? code c) && (code c <=? 13)) || (code c =? 32).

(** ** Case and space *)

(** The cases that consult the Unicode tables: strings with a byte of 128 or
    more. *)
Class Unicode : Type := {
  unicodeToLower : string -> string;
  unicodeTrimSpace : string -> string;
  unicodeEqualFold : string -> string -> bool
}.

Fixpoint trimLeft (s : string) : string :=
  match s with
  | String c s' => if isSpaceByte c then trimLeft s' else s
  | EmptyString => ""
  end.

Fixpoint trimRight (s : string) : string :=
  match s with
  | EmptyString => ""
  | String c s' =>
      match trimRight s' with
      | EmptyString => if isSpaceByte c then "" else String c ""
      | t => String c t
      end
  end.

Section Case.
Context {U : Unicode}.

Definition ToLower (s : string) : string :=
  if isASCII s then mapString lowerByte s else unicodeToLower s.

Definition TrimSpace (s : string) : string :=
  if isASCII s then trimRight (trimLeft s) else unicodeTrimSpace s.

Definition EqualFold (s t : string) : bool :=
  if isASCII s && isASCII t
  then (mapString lowerByte s =? mapString lowerByte t)%string
  else unicodeEqualFold s t.
End Case.

(** What the code relies on: Unicode lower-casing and trimming are idempotent,
    lower-casing introduces no space and no punctuation, trimming removes bytes. *)
Class UnicodeLaws {U : Unicode} : Prop := {
  lower_idem s : isASCII s = false -> ToLower (unicodeToLower s) = unicodeToLower s;
  trim_idem s : isASCII s = false -> TrimSpace (unicodeTrimSpace s) = unicodeTrimSpace s;
  lower_trimmed s :
    isASCII s = false -> TrimSpace s = s -> TrimSpace (unicodeToLower s) = unicodeToLower s;
  lower_lacks s c :
    isASCII s = false -> (code c < 97 \/ 122 < code c < 128) ->
    lacks c s = true -> lacks c (unicodeToLower s) = true;
  trim_lacks s c :
    isASCII s = false -> lacks c s = true -> lacks c (unicodeTrimSpace s) = true
}.

(** The tables of a program that only meets ASCII text. *)
Definition asciiOnly : Unicode := {|
  unicodeToLower := fun s => s;
  unicodeTrimSpace := fun s => s;
  unicodeEqualFold := String.eqb
|}.

(** ** Splitting and joining *)

(** [strings.Split(s, sep)] for a separator of one byte. *)
Fixpoint Split (s : string) (sep : ascii) : list string :=
  match s with
  | EmptyString => [""]
  | String c s' =>
      if (c =? sep)%char then "" :: Split s' sep
      else match Split s' sep with
           | h :: t => String c h :: t
           | [] => [String c ""]
           end
  end.

(** [strings.Join] *)
Definition Join (elems : list string) (sep : string) : string := String.concat sep elems.

(** [strings.HasPrefix(s, prefix)], and the rest of [s]. *)
Fixpoint CutPrefix (s prefix : string) {struct prefix} : option string :=
  match prefix with
  | EmptyString => Some s
  | String c p =>
      match s with
      | String d s' => if (c =? d)%char then CutPrefix s' p else None
      | EmptyString => None
      end
  end.

(** [s[n:]] *)
Definition isEmpty (s : string) : bool := match s with EmptyString => true | _ => false end.

Fixpoint dropString (n : nat) (s : string) : string :=
  match n, s with
  | S n', String _ s' => dropString n' s'
  | _, _ => s
  end.

(** [s[:n]] *)
Fixpoint takeString (n : nat) (s : string) : string :=
  match n, s with
  | S n', String c s' => String c (takeString n' s')
  | _, _ => ""
  end.

(** [strings.Compare(a, b) == -1] *)
Definition lessThan (a b : string) : bool := String.ltb a b.

(** ** unicode/utf8 *)

Definition RuneError : Z := 65533.

(** The number of bytes that the first byte announces, with the range allowed
    for the second one. *)
Definition firstByte (b : Z) : option (nat * Z * Z) :=
  if b <? 128 then Some (1%nat, 0, 0)
  else if b <? 194 then None
  else if b <? 224 then Some (2%nat, 128, 191)
  else if b =? 224 then Some (3%nat, 160, 191)
  else if b =? 237 then Some (3%nat, 128, 159)
  else if b <? 240 then Some (3%nat, 128, 191)
  else if b =? 240 then Some (4%nat, 144, 191)
  else if b <? 244 then Some (4%nat, 128, 191)
  else if b =? 244 then Some (4%nat, 128, 143)
  else None.

Definition between (lo hi z : Z) : bool := (lo <=? z) && (z <=? hi).
Definition cont (b : Z) : bool := between 128 191 b.
Definition low6 (b : Z) : Z := Z.land b 63.

(** [utf8.DecodeRuneInString]: the rune and its width. *)
Definition DecodeRune (s : string) : Z * nat :=
  let invalid := (RuneError, 1%nat) in
  match s with
  | EmptyString => (RuneError, 0%nat)
  | String c0 s1 =>
      match firstByte (code c0), s1 with
      | Some (1%nat, _, _), _ => (code c0, 1%nat)
      | Some (2%nat, lo, hi), String c1 _ =>
          if between lo hi (code c1)
          then (Z.shiftl (Z.land (code c0) 31) 6 + low6 (code c1), 2%nat) else invalid
      | Some (3%nat, lo, hi), String c1 (String c2 _) =>
          if between lo hi (code c1) && cont (code c2)
          then (Z.shiftl (Z.land (code c0) 15) 12 + Z.shiftl (low6 (code c1)) 6
                + low6 (code c2), 3%nat) else invalid
      | Some (4%nat, lo, hi), String c1 (String c2 (String c3 _)) =>
          if between lo hi (code c1) && cont (code c2) && cont (code c3)
          then (Z.shiftl (Z.land (code c0) 7) 18 + Z.shiftl (low6 (code c1)) 12
                + Z.shiftl (low6 (code c2)) 6 + low6 (code c3), 4%nat) else invalid
      | _, _ => invalid
      end
  end.

(** [utf8.ValidString] *)
Fixpoint ValidString_fuel (fuel : nat) (s : string) : bool :=
  match fuel with
  | O => true
  | S fuel' =>
      let '(r, width) := DecodeRune s in
      if isEmpty s then true
      else if (r =? RuneError) && (Nat.eqb width 1) then false
      else ValidString_fuel fuel' (dropString width s)
  end.
Definition ValidString (s : string) : bool := ValidString_fuel (String.length s) s.

(** The UTF-8 encoding of [utf8.MaxRune], U+10FFFF. *)
Definition MaxRune : string :=
  String (chr 244) (String (chr 143) (String (chr 191) (String (chr 191) ""))).

Example DecodeRune_euro : DecodeRune "€u" = (8364, 3%nat).
Proof. reflexivity. Qed.
Example DecodeRune_max : DecodeRune MaxRune = (1114111, 4%nat).
Proof. reflexivity. Qed.

(** ** Lemmas: bytes *)

Lemma code_range (c : ascii) : 0 <= code c < 256.
Proof.
  unfold code. pose proof (N_ascii_bounded c). lia.
Qed.

Lemma code_inj (c d : ascii) : code c = code d -> c = d.
Proof.
  unfold code. intros H. apply N2Z.inj in H.
  rewrite <- (ascii_N_embedding c), H. apply ascii_N_embedding.
Qed.

Lemma code_chr (z : Z) : 0 <= z < 256 -> code (chr z) = z.
Proof.
  intros H. unfold code, chr, uint8. rewrite Z.mod_small by done.
  rewrite N_ascii_embedding; lia.
Qed.

Lemma eqb_code (c d : ascii) : (c =? d)%char = (code c =? code d).
Proof.
  destruct (Ascii.eqb_spec c d) as [->|H]; [now rewrite Z.eqb_refl|].
  symmetry. apply Z.eqb_neq. intros E. now apply H, code_inj.
Qed.

Lemma lowerByte_code (c : ascii) :
  code (lowerByte c) = code c \/ (65 <= code c <= 90 /\ code (lowerByte c) = code c + 32).
Proof.
  unfold lowerByte. destruct (_ && _) eqn:E; [right | now left].
  apply andb_prop in E as [E1 E2]. split; [lia|]. apply code_chr. lia.
Qed.

Lemma lowerByte_idem (c : ascii) : lowerByte (lowerByte c) = lowerByte c.
Proof.
  unfold lowerByte at 1. destruct (_ && _) eqn:E; [|done].
  destruct (lowerByte_code c) as [H|[H1 H2]]; rewrite ?H, ?H2 in E; [|lia].
  unfold lowerByte at 1 in H. rewrite E in H. rewrite code_chr in H; lia.
Qed.

Lemma lowerByte_ascii (c : ascii) : isASCIIByte c = true -> isASCIIByte (lowerByte c) = true.
Proof. unfold isASCIIByte. destruct (lowerByte_code c) as [->|[? ->]]; [done|lia]. Qed.

Lemma lowerByte_space (c : ascii) : isSpaceByte (lowerByte c) = isSpaceByte c.
Proof. unfold isSpaceByte. destruct (lowerByte_code c) as [->|[? ->]]; [done|lia]. Qed.

(** ** Lemmas: strings *)

Lemma app_String c s t : String c s +:+ t = String c (s +:+ t).
Proof. reflexivity. Qed.

Lemma app_Empty t : "" +:+ t = t.
Proof. reflexivity. Qed.

Create Rewrite HintDb str.
#[export] Hint Rewrite app_String app_Empty : str.
Ltac str_simpl := autorewrite with str; cbn.

Lemma all_app p s t : all p (s +:+ t) = all p s && all p t.
Proof. induction s as [|c s IH]; str_simpl; [done|]. now rewrite IH, andb_assoc. Qed.

Lemma all_impl (p q : ascii -> bool) s :
  (forall c, p c = true -> q c = true) -> all p s = true -> all q s = true.
Proof.
  intros H. induction s as [|c s IH]; cbn; [done|].
  intros [H1 H2]%andb_prop. now rewrite H, IH.
Qed.

Lemma all_mapString p f s : all p (mapString f s) = all (fun c => p (f c)) s.
Proof. induction s as [|c s IH]; cbn; [done|]. now rewrite IH. Qed.

Lemma mapString_idem f s : (forall c, f (f c) = f c) -> mapString f (mapString f s) = mapString f s.
Proof. intros H. induction s as [|c s IH]; cbn; [done|]. now rewrite H, IH. Qed.

Lemma mapString_ascii s : isASCII s = true -> isASCII (mapString lowerByte s) = true.
Proof. unfold isASCII. rewrite all_mapString. apply all_impl, lowerByte_ascii. Qed.

Lemma string_app_assoc (a b c : string) : (a +:+ b) +:+ c = a +:+ b +:+ c.
Proof. induction a as [|x a IH]; str_simpl; [done|]. now rewrite IH. Qed.

Lemma string_app_nil (a : string) : a +:+ "" = a.
Proof. induction a as [|x a IH]; str_simpl; [done|]. now rewrite IH. Qed.

Lemma string_app_inj (a b c : string) : a +:+ b = a +:+ c -> b = c.
Proof. induction a as [|x a IH]; str_simpl; [done|]. intros [= H]. auto. Qed.

Lemma trimLeft_all p s : all p s = true -> all p (trimLeft s) = true.
Proof.
  induction s as [|c s IH]; cbn; [done|]. intros [H1 H2]%andb_prop.
  destruct (isSpaceByte c); [auto|]. cbn. now rewrite H1, H2.
Qed.

Lemma trimRight_all p s : all p s = true -> all p (trimRight s) = true.
Proof.
  induction s as [|c s IH]; cbn; [done|]. intros [H1 H2]%andb_prop.
  specialize (IH H2). destruct (trimRight s) eqn:E; [destruct (isSpaceByte c)|]; cbn in *;
    rewrite ?H1; auto.
Qed.

Lemma trimRight_idem s : trimRight (trimRight s) = trimRight s.
Proof.
  induction s as [|c s IH]; cbn; [done|].
  destruct (trimRight s) as [|d t] eqn:E; [destruct (isSpaceByte c) eqn:Hc; cbn; now rewrite ?Hc|].
  change (match trimRight (String d t) with
          | EmptyString => if isSpaceByte c then "" else String c ""
          | String _ _ as t0 => String c t0 end = String c (String d t)).
  now rewrite IH.
Qed.

(** A string trimmed on the left starts with no space. *)
Definition noLeadSpace (s : string) : bool :=
  match s with String c _ => negb (isSpaceByte c) | EmptyString => true end.

Lemma trimLeft_lead s : noLeadSpace (trimLeft s) = true.
Proof. induction s as [|c s IH]; cbn; [done|]. destruct (isSpaceByte c) eqn:E; cbn; now rewrite ?E. Qed.

Lemma trimLeft_id s : noLeadSpace s = true -> trimLeft s = s.
Proof. destruct s as [|c s]; cbn; [done|]. now destruct (isSpaceByte c). Qed.

Lemma trimRight_lead s : noLeadSpace s = true -> noLeadSpace (trimRight s) = true.
Proof.
  destruct s as [|c s]; cbn; [done|]. intros H. destruct (trimRight s); [|done].
  destruct (isSpaceByte c) eqn:E; cbn; now rewrite ?E.
Qed.

Lemma mapLower_lead s : noLeadSpace (mapString lowerByte s) = noLeadSpace s.
Proof. destruct s as [|c s]; cbn; [done|]. now rewrite lowerByte_space. Qed.

Lemma mapLower_trimRight s :
  trimRight (mapString lowerByte s) = mapString lowerByte (trimRight s).
Proof.
  induction s as [|c s IH]; cbn; [done|]. rewrite IH, lowerByte_space.
  destruct (trimRight s); cbn; [|done]. now destruct (isSpaceByte c).
Qed.

Lemma asciiTrim_fix s :
  noLeadSpace s = true -> trimRight s = s -> trimRight (trimLeft s) = s.
Proof. intros H1 H2. now rewrite trimLeft_id. Qed.

Section CaseLemmas.
#[local] Set Default Proof Using "All".
Context {U : Unicode} {UL : UnicodeLaws}.

Lemma ToLower_idem s : ToLower (ToLower s) = ToLower s.
Proof.
  unfold ToLower at 2 3. destruct (isASCII s) eqn:E; [|now apply lower_idem].
  unfold ToLower. rewrite mapString_ascii by done. apply mapString_idem, lowerByte_idem.
Qed.

Lemma TrimSpace_idem s : TrimSpace (TrimSpace s) = TrimSpace s.
Proof.
  unfold TrimSpace at 2 3. destruct (isASCII s) eqn:E; [|now apply trim_idem].
  unfold TrimSpace. unfold isASCII. rewrite trimRight_all by now apply trimLeft_all.
  apply asciiTrim_fix; [apply trimRight_lead, trimLeft_lead | apply trimRight_idem].
Qed.

Lemma TrimSpace_ToLower s : TrimSpace s = s -> TrimSpace (ToLower s) = ToLower s.
Proof.
  unfold ToLower. destruct (isASCII s) eqn:E; [|now apply lower_trimmed].
  unfold TrimSpace. rewrite E, mapString_ascii by done. intros H.
  apply asciiTrim_fix.
  - rewrite mapLower_lead, <- H. apply trimRight_lead, trimLeft_lead.
  - rewrite mapLower_trimRight, <- H at 1. now rewrite trimRight_idem, H.
Qed.

Lemma ToLower_lacks s c :
  (code c < 65 \/ 122 < code c < 128) -> lacks c s = true -> lacks c (ToLower s) = true.
Proof.
  intros Hc. unfold ToLower. destruct (isASCII s) eqn:E; [|apply lower_lacks; [done|lia]].
  unfold lacks. rewrite all_mapString. apply all_impl. intros d. rewrite !eqb_code.
  destruct (lowerByte_code d) as [->|[? ->]]; lia.
Qed.

Lemma TrimSpace_lacks s c : lacks c s = true -> lacks c (TrimSpace s) = true.
Proof.
  unfold TrimSpace. destruct (isASCII s) eqn:E; [|now apply trim_lacks].
  intros H. now apply trimRight_all, trimLeft_all.
Qed.
End CaseLemmas.

#[export] Instance asciiOnly_laws : @UnicodeLaws asciiOnly.
Proof.
  split; cbn; intros s; try done.
  - intros E. unfold ToLower. now rewrite E.
  - intros E. unfold TrimSpace. now rewrite E.
Qed.

(** ** Lemmas: prefixes and lengths *)

Lemma CutPrefix_spec s p r : CutPrefix s p = Some r <-> s = p +:+ r.
Proof.
  revert s. induction p as [|c p IH]; intros s; cbn.
  - split; [now intros [= ->] | now intros ->].
  - rewrite app_String. destruct s as [|d s]; [done|]. destruct (Ascii.eqb_spec c d) as [->|H].
    + rewrite IH. split; [now intros -> | now intros [= ->]].
    + split; [done | intros [= -> _]; done].
Qed.

Lemma length_app_string a b : String.length (a +:+ b) = (String.length a + String.length b)%nat.
Proof. induction a as [|c a IH]; [done|]. rewrite app_String. cbn. now rewrite IH. Qed.

Lemma drop_app_string a b : dropString (String.length a) (a +:+ b) = b.
Proof. induction a as [|c a IH]; [done|]. rewrite app_String. cbn. exact IH. Qed.

Lemma take_app_string a b : takeString (String.length a) (a +:+ b) = a.
Proof. induction a as [|c a IH]; [done|]. rewrite app_String. cbn. now rewrite IH. Qed.

Lemma take_drop_string n s : takeString n s +:+ dropString n s = s.
Proof. revert s. induction n as [|n IH]; intros [|c s]; cbn; try done. now rewrite app_String, IH. Qed.

(** ** Lemmas: splitting and joining *)

Lemma Split_cons s sep : exists h t, Split s sep = h :: t.
Proof.
  induction s as [|c s [h [t IH]]]; cbn; [eauto|]. destruct (c =? sep)%char; rewrite ?IH; eauto.
Qed.

Lemma Split_lacks s sep : Forall (fun x => lacks sep x = true) (Split s sep).
Proof.
  induction s as [|c s IH]; cbn; [by repeat constructor|].
  destruct (c =? sep)%char eqn:E; [by constructor|].
  destruct (Split s sep) as [|h t]; inversion IH; subst; constructor; cbn; rewrite ?E; auto.
Qed.

Lemma Split_other s sep c :
  lacks c s = true -> Forall (fun x => lacks c x = true) (Split s sep).
Proof.
  induction s as [|d s IH]; cbn; [by repeat constructor|].
  intros [H1 H2]%andb_prop. specialize (IH H2).
  destruct (d =? sep)%char eqn:E; [by constructor|].
  destruct (Split s sep) as [|h t]; inversion IH; subst; constructor; cbn; rewrite ?H1; auto.
Qed.

Lemma Split_app_sep a sep s :
  lacks sep a = true -> Split (a +:+ String sep s) sep = a :: Split s sep.
Proof.
  induction a as [|c a IH]; str_simpl; [now rewrite Ascii.eqb_refl|].
  intros [H1 H2]%andb_prop. destruct (c =? sep)%char; [done|]. now rewrite IH.
Qed.

Lemma Split_single a sep : lacks sep a = true -> Split a sep = [a].
Proof.
  induction a as [|c a IH]; cbn; [done|].
  intros [H1 H2]%andb_prop. destruct (c =? sep)%char; [done|]. now rewrite IH.
Qed.

Lemma Join_cons a b l sep : Join (a :: b :: l) sep = a +:+ sep +:+ Join (b :: l) sep.
Proof. reflexivity. Qed.

(** Splitting undoes joining when no element contains the separator. *)
Lemma Split_Join l sep :
  l <> [] -> Forall (fun x => lacks sep x = true) l -> Split (Join l (String sep "")) sep = l.
Proof.
  intros Hn Hl. induction Hl as [|a l Ha Hl IH]; [done|].
  destruct l as [|b l]; [now apply Split_single|].
  rewrite Join_cons. autorewrite with str.
  rewrite Split_app_sep by done. f_equal. now apply IH.
Qed.

(** ** Lemmas: the order of strings *)

Lemma compare_code c d : Ascii.compare c d = (code c ?= code d).
Proof. unfold Ascii.compare, code. now rewrite N2Z.inj_compare. Qed.

Lemma lessThan_cons c s d t :
  lessThan (String c s) (String d t) = (code c <? code d) || ((code c =? code d) && lessThan s t).
Proof.
  unfold lessThan, String.ltb. cbn. rewrite compare_code.
  destruct (Z.compare_spec (code c) (code d)) as [E|E|E].
  - rewrite E, Z.ltb_irrefl, Z.eqb_refl. done.
  - apply Z.ltb_lt in E. now rewrite E.
  - destruct (Z.ltb_spec (code c) (code d)); [lia|]. destruct (Z.eqb_spec (code c) (code d)); [lia|done].
Qed.

Lemma lessThan_nil_r s : lessThan s "" = false.
Proof. now destruct s. Qed.

Lemma lessThan_nil_l s : lessThan "" s = negb (s =? "")%string.
Proof. now destruct s. Qed.

Lemma lessThan_irrefl s : lessThan s s = false.
Proof.
  induction s as [|c s IH]; [done|]. rewrite lessThan_cons, IH, Z.ltb_irrefl, Z.eqb_refl. done.
Qed.

Lemma lessThan_trans s t u : lessThan s t = true -> lessThan t u = true -> lessThan s u = true.
Proof.
  revert t u. induction s as [|c s IH]; intros t u.
  - rewrite !lessThan_nil_l. destruct u; [now rewrite lessThan_nil_r|done].
  - destruct t as [|d t]; [now rewrite lessThan_nil_r|].
    destruct u as [|e u]; [now rewrite lessThan_nil_r|].
    rewrite !lessThan_cons, !orb_true_iff, !andb_true_iff.
    intros [H1|[H1 H2]] [H3|[H3 H4]]; [left; lia.. |right].
    split; [lia|]. eauto.
Qed.

Lemma lessThan_total s t : lessThan s t = false -> lessThan t s = false -> s = t.
Proof.
  revert t. induction s as [|c s IH]; intros [|d t]; rewrite ?lessThan_nil_l; try done.
  rewrite !lessThan_cons. intros H1 H2.
  apply orb_false_elim in H1 as [H1 H1'], H2 as [H2 H2'].
  assert (code c = code d) as E by lia. apply code_inj in E as ->.
  rewrite Z.eqb_refl in *. cbn in *. f_equal. auto.
Qed.

Lemma lessThan_app p s t : lessThan (p +:+ s) (p +:+ t) = lessThan s t.
Proof.
  induction p as [|c p IH]; autorewrite with str; [done|].
  rewrite lessThan_cons, IH, Z.ltb_irrefl, Z.eqb_refl. done.
Qed.

(** The strings in the range from [p] to [p ++ m] are those that start with [p]
    and go on with something below [m]. *)
Lemma range_prefix p m k :
  lessThan k p = false /\ lessThan k (p +:+ m) = true <->
  exists r, k = p +:+ r /\ lessThan r m = true.
Proof.
  split.
  - revert k. induction p as [|c p IH]; intros k; autorewrite with str.
    + intros [_ H]. now exists k.
    + destruct k as [|d k]; [now rewrite lessThan_nil_l|]. rewrite !lessThan_cons.
      intros [H1 H2]. apply orb_false_elim in H1 as [H1 H1'].
      apply orb_true_iff in H2 as [H2|H2]; [lia|]. apply andb_prop in H2 as [H2 H3].
      rewrite H2 in H1'. cbn in H1'.
      destruct (IH k) as [r [-> Hr]]; [done|]. exists r.
      apply Z.eqb_eq, code_inj in H2 as ->. done.
  - intros [r [-> Hr]]. rewrite lessThan_app. split; [|done].
    rewrite <- (string_app_nil p) at 2. rewrite lessThan_app. apply lessThan_nil_r.
Qed.

(** ** Numbers as texts of zeros and ones, with which the samples encode *)

Fixpoint bits (p : positive) : string :=
  match p with
  | xH => ""
  | xO p => String "0" (bits p)
  | xI p => String "1" (bits p)
  end.
Fixpoint unbits (s : string) : positive :=
  match s with
  | EmptyString => xH
  | String c s => if (c =? "1")%char then xI (unbits s) else xO (unbits s)
  end.

Lemma unbits_bits p : unbits (bits p) = p.
Proof. induction p; cbn; congruence. Qed.

(** ** Numbers in decimal

    strconv.Atoi, which lib/ldap uses to read the numbers of a user. *)

Definition ErrSyntax : error := PlainError "invalid syntax".
Definition ErrRange : error := PlainError "value out of range".

Definition digit (c : ascii) : option Z :=
  if between 48 57 (code c) then Some (code c - 48) else None.

(** The digits of a uint64, after those of [n]. *)
Fixpoint parseUint (s : string) (n : Z) : outcome Z :=
  match s with
  | EmptyString => Ok n
  | String c s' =>
      match digit c with
      | None => Err ErrSyntax
      | Some d =>
          if (2 ^ 64 - 1) / 10 + 1 <=? n then Err ErrRange
          else if 2 ^ 64 <=? n * 10 + d then Err ErrRange
          else parseUint s' (n * 10 + d)
      end
  end.

Definition unsigned (s : string) : outcome Z :=
  match s with EmptyString => Err ErrSyntax | _ => parseUint s 0 end.

Definition Atoi (s : string) : outcome Z :=
  let (negative, rest) :=
    match s with
    | String c s' => if (c =? "-")%char then (true, s') else if (c =? "+")%char then (false, s') else (false, s)
    | EmptyString => (false, s)
    end in
  un <-? unsigned rest ;;
  if negative then (if 2 ^ 63 <? un then Err ErrRange else Ok (- un))
  else if 2 ^ 63 <=? un then Err ErrRange else Ok un.

Lemma parseUint_ends s n : ends (parseUint s n).
Proof.
  revert n. induction s as [|c s IH]; intros n; cbn [parseUint]; [done|].
  destruct (digit c) as [d|]; [|done]. destruct (_ <=? n); [done|]. by destruct (2 ^ 64 <=? _).
Qed.

Lemma Atoi_ends s : ends (Atoi s).
Proof.
  unfold Atoi. destruct (match s with String _ _ => _ | _ => _ end) as [negative rest].
  assert (ends (unsigned rest)) as H by (destruct rest; [done|apply parseUint_ends]).
  destruct (unsigned rest) as [un|e|m|]; try done. cbn [obind].
  destruct negative; [by destruct (2 ^ 63 <? un)|by destruct (2 ^ 63 <=? un)].
Qed.

Lemma parseUint_range s n v : 0 <= n < 2 ^ 64 -> parseUint s n = Ok v -> 0 <= v < 2 ^ 64.
Proof.
  revert n. induction s as [|c s IH]; intros n Hn; cbn [parseUint]; [by intros [= <-]|].
  unfold digit. destruct (between 48 57 (code c)) eqn:Eb; [|done].
  destruct (_ <=? n); [done|]. destruct (Z.leb_spec (2 ^ 64) (n * 10 + (code c - 48))) as [H|H]; [done|].
  apply IH. unfold between in Eb. lia.
Qed.

(** A number that is read is an int. *)
Lemma Atoi_range s v : Atoi s = Ok v -> in_int64 v.
Proof.
  unfold Atoi. destruct (match s with String _ _ => _ | _ => _ end) as [negative rest].
  intros (un & Hu & H)%obind_ok_inv.
  assert (0 <= un < 2 ^ 64) as Hr.
  { unfold unsigned in Hu. destruct rest; [done|]. eapply parseUint_range; [|exact Hu]. lia. }
  unfold in_int64. destruct negative.
  - destruct (Z.ltb_spec (2 ^ 63) un); [done|]. injection H as <-. lia.
  - destruct (Z.leb_spec (2 ^ 63) un); [done|]. injection H as <-. lia.
Qed.
