(* ===== verification/GoPath.v ===== *)
(** * Slash-separated paths

    The functions of the packages path and path/filepath (on Unix) that the services
    use: Clean, Join and Split, and what makes a path valid in io/fs. *)

From stdpp Require Import base list strings.
From S2P Require Import Prelude GoStrings.
From Stdlib Require Import Strings.Ascii.
#[local] Open Scope Z_scope.

Definition slash : ascii := "/".

Definition rooted (path : string) : bool :=
  match path with String c _ => (c =? slash)%char | EmptyString => false end.

(** The elements that are kept, the last one first: a double dot removes the element
    before it, or stays at the start of a path that is not rooted. *)
Definition cleanPart (root : bool) (kept : list string) (part : string) : list string :=
  if (part =? "")%string || (part =? ".")%string then kept
  else if (part =? "..")%string then
    match kept with
    | [] => if root then [] else [part]
    | last :: kept' => if (last =? "..")%string then part :: kept else kept'
    end
  else part :: kept.

Definition cleanParts (root : bool) (kept parts : list string) : list string :=
  foldl (cleanPart root) kept parts.

Definition render (root : bool) (parts : list string) : string :=
  (if root then "/" else "") +:+ Join parts "/".

Definition Clean (path : string) : string :=
  let cleaned := render (rooted path) (rev (cleanParts (rooted path) [] (Split path slash))) in
  if (cleaned =? "")%string then "." else cleaned.

(** From the first element that is not empty on. *)
Fixpoint JoinPath (elem : list string) : string :=
  match elem with
  | [] => ""
  | e :: elem' => if (e =? "")%string then JoinPath elem' else Clean (Join elem "/")
  end.

(** [io/fs.ValidPath]: the root is a dot; otherwise no element is empty, a dot or a
    double dot. *)
Definition plainPart (part : string) : bool :=
  negb (part =? "")%string && negb (part =? ".")%string && negb (part =? "..")%string
  && lacks slash part.

Definition ValidPath (name : string) : bool :=
  (name =? ".")%string || forallb plainPart (Split name slash).

(** [strings.TrimPrefix] *)
Definition TrimPrefix (s prefix : string) : string := default s (CutPrefix s prefix).

(** ** Lemmas *)

Lemma plainPart_spec part :
  plainPart part = true <-> part <> "" /\ part <> "." /\ part <> ".." /\ lacks slash part = true.
Proof.
  unfold plainPart. rewrite !andb_true_iff, !negb_true_iff, !String.eqb_neq. tauto.
Qed.

Lemma cleanParts_app root kept l k :
  cleanParts root kept (l ++ k) = cleanParts root (cleanParts root kept l) k.
Proof. apply foldl_app. Qed.

Lemma cleanPart_plain root kept part : plainPart part = true -> cleanPart root kept part = part :: kept.
Proof.
  intros (H1 & H2 & H3 & _)%plainPart_spec. unfold cleanPart.
  rewrite (proj2 (String.eqb_neq _ _) H1), (proj2 (String.eqb_neq _ _) H2),
    (proj2 (String.eqb_neq _ _) H3). done.
Qed.

Lemma cleanParts_plain root kept parts :
  Forall (fun p => plainPart p = true) parts -> cleanParts root kept parts = rev parts ++ kept.
Proof.
  revert kept. induction parts as [|p parts IH]; intros kept H; [done|].
  apply Forall_cons in H as [Hp H]. cbn [cleanParts foldl]. rewrite cleanPart_plain by done.
  unfold cleanParts in IH. rewrite IH by done. cbn. by rewrite <- app_assoc.
Qed.

(** What is kept: plain elements after double dots, of which a rooted path has none. *)
Definition wellKept (root : bool) (kept : list string) : Prop :=
  exists plain n, kept = plain ++ repeat ".." n /\ Forall (fun p => plainPart p = true) plain
                  /\ (root = true -> n = O).

Lemma cleanPart_kept root kept part :
  lacks slash part = true -> wellKept root kept -> wellKept root (cleanPart root kept part).
Proof.
  intros Hl (plain & n & -> & Hp & Hr). unfold cleanPart.
  destruct (String.eqb_spec part "") as [->|H1]; [by exists plain, n|].
  destruct (String.eqb_spec part ".") as [->|H2]; [by exists plain, n|].
  destruct (String.eqb_spec part "..") as [->|H3]; cbn [orb].
  - destruct plain as [|p plain]; cbn [app].
    + destruct n as [|n]; cbn [repeat].
      * destruct root; [exists [], O | exists [], 1%nat]; done.
      * rewrite String.eqb_refl. exists [], (S (S n)). split; [done|]. split; [done|].
        intros ->. by specialize (Hr eq_refl).
    + apply Forall_cons in Hp as [Hp Hps]. pose proof Hp as (_ & _ & H & _)%plainPart_spec.
      rewrite (proj2 (String.eqb_neq _ _) H). by exists plain, n.
  - exists (part :: plain), n. split; [done|]. split; [|done]. constructor; [|done].
    by apply plainPart_spec.
Qed.

Lemma cleanParts_kept root kept parts :
  Forall (fun p => lacks slash p = true) parts -> wellKept root kept ->
  wellKept root (cleanParts root kept parts).
Proof.
  revert kept. induction parts as [|p parts IH]; intros kept H Hk; [done|].
  apply Forall_cons in H as [Hp H]. apply IH; [done|]. by apply cleanPart_kept.
Qed.

Lemma cleaned_kept root path : wellKept root (cleanParts root [] (Split path slash)).
Proof. apply cleanParts_kept; [apply Split_lacks|]. by exists [], O. Qed.

Lemma Split_app s t sep : Split (s +:+ String sep t) sep = Split s sep ++ Split t sep.
Proof.
  induction s as [|c s IH]; [str_simpl; by rewrite Ascii.eqb_refl|].
  rewrite app_String. cbn [Split]. rewrite IH. destruct (c =? sep)%char; [done|].
  destruct (Split_cons s sep) as (h & l & ->). done.
Qed.

Lemma rooted_app s t : s <> "" -> rooted (s +:+ t) = rooted s.
Proof. by destruct s. Qed.

Lemma rooted_lacks s : lacks slash s = true -> rooted s = false.
Proof. destruct s as [|c s]; [done|]. cbn. by destruct (c =? slash)%char. Qed.

Lemma cleanParts_dots n : cleanParts false [] (repeat ".." n) = repeat ".." n.
Proof.
  assert (forall m, cleanParts false (repeat ".." m) (repeat ".." n) = repeat ".." (n + m)) as H.
  { induction n as [|n IH]; intros m; [done|]. cbn [repeat cleanParts foldl].
    change (cleanPart false (repeat ".." m) "..") with
      (match repeat ".." m with
       | [] => [".."]
       | last :: kept' => if (last =? "..")%string then ".." :: repeat ".." m else kept'
       end).
    replace (match repeat ".." m with
       | [] => [".."]
       | last :: kept' => if (last =? "..")%string then ".." :: repeat ".." m else kept'
       end) with (repeat ".." (S m)) by (by destruct m).
    change (cleanParts false (repeat ".." (S m)) (repeat ".." n) = repeat ".." (S n + m)).
    rewrite IH. f_equal. lia. }
  specialize (H O). by rewrite Nat.add_0_r in H.
Qed.

Lemma cleanParts_again root kept : wellKept root kept -> cleanParts root [] (rev kept) = kept.
Proof.
  intros (plain & n & -> & Hp & Hr). rewrite rev_app_distr, cleanParts_app.
  assert (cleanParts root [] (rev (repeat ".." n)) = repeat ".." n) as ->.
  { rewrite rev_repeat. destruct root; [by rewrite Hr|]. apply cleanParts_dots. }
  rewrite cleanParts_plain, rev_involutive by (by apply Forall_rev). done.
Qed.

(** The elements kept hold no slash, and there is none empty. *)
Lemma wellKept_parts root kept p :
  wellKept root kept -> p ∈ kept -> lacks slash p = true /\ p <> "".
Proof.
  intros (plain & n & -> & Hp & _) [H|H]%elem_of_app.
  - rewrite Forall_forall in Hp. apply Hp, plainPart_spec in H. tauto.
  - apply list_elem_of_In, repeat_spec in H as ->. done.
Qed.

Lemma Join_nonempty l sep : l <> [] -> (forall p, p ∈ l -> p <> "") -> Join l sep <> "".
Proof.
  destruct l as [|a [|b l]]; intros Hn H; [done| |].
  - apply (H a). left.
  - rewrite Join_cons. assert (a <> "") by (apply H; left). by destruct a.
Qed.

Lemma rooted_Join l : (forall p, p ∈ l -> lacks slash p = true /\ p <> "") -> rooted (Join l "/") = false.
Proof.
  destruct l as [|a [|b l]]; intros H; [done| |].
  - apply rooted_lacks, H. left.
  - rewrite Join_cons. assert (lacks slash a = true /\ a <> "") as [H1 H2] by (apply H; left).
    rewrite rooted_app by done. by apply rooted_lacks.
Qed.

Lemma Split_Join_slash l :
  l <> [] -> (forall p, p ∈ l -> lacks slash p = true) -> Split (Join l "/") slash = l.
Proof. intros Hn Hl. apply Split_Join; [done|]. by apply Forall_forall. Qed.

Lemma render_inj root l k :
  l <> [] -> k <> [] ->
  (forall p, p ∈ l -> lacks slash p = true) -> (forall p, p ∈ k -> lacks slash p = true) ->
  render root l = render root k -> l = k.
Proof.
  intros Hl Hk Ll Lk H. unfold render in H. apply string_app_inj in H.
  rewrite <- (Split_Join_slash l), <- (Split_Join_slash k) by done. by rewrite H.
Qed.

Lemma Clean_kept path :
  exists kept, wellKept (rooted path) kept
    /\ cleanParts (rooted path) [] (Split path slash) = kept
    /\ Clean path = if decide (render (rooted path) (rev kept) = "") then "."
                    else render (rooted path) (rev kept).
Proof.
  exists (cleanParts (rooted path) [] (Split path slash)). split; [apply cleaned_kept|].
  split; [done|]. unfold Clean. cbv zeta. generalize (render (rooted path)
    (rev (cleanParts (rooted path) [] (Split path slash)))) as s. intros s.
  destruct (String.eqb_spec s ""); by case_decide.
Qed.

(** The elements of a path that is rendered from cleaned ones are those. *)
Lemma render_parts root kept :
  wellKept root kept -> render root (rev kept) <> "" ->
  rooted (render root (rev kept)) = root
  /\ cleanParts root [] (Split (render root (rev kept)) slash) = kept.
Proof.
  intros Hk Hn.
  assert (forall p, p ∈ rev kept -> lacks slash p = true /\ p <> "") as Hp.
  { intros p H%list_elem_of_In%in_rev%list_elem_of_In. by eapply wellKept_parts. }
  split; [destruct root; [done|]; by apply rooted_Join|].
  destruct root.
  - unfold render. change ("/" +:+ Join (rev kept) "/") with (String slash (Join (rev kept) "/")).
    cbn [Split]. rewrite Ascii.eqb_refl. destruct (rev kept) as [|p l] eqn:E.
    + cbn. assert (kept = []) as -> by (by rewrite <- (rev_involutive kept), E). done.
    + rewrite Split_Join_slash; [|done|intros q Hq; by apply Hp]. rewrite <- E.
      cbn. by apply cleanParts_again.
  - unfold render. rewrite app_Empty.
    assert (rev kept <> []) as Hkn by (by intros E; rewrite E in Hn).
    rewrite Split_Join_slash; [|done|intros q Hq; by apply Hp]. by apply cleanParts_again.
Qed.

(** Cleaning what is left of a path leaves it alone. *)
Lemma Clean_render root kept :
  wellKept root kept -> render root (rev kept) <> "" -> Clean (render root (rev kept)) = render root (rev kept).
Proof.
  intros Hk Hn. destruct (render_parts root kept Hk Hn) as [Hr Hp].
  unfold Clean. rewrite Hr, Hp. by rewrite (proj2 (String.eqb_neq _ _) Hn).
Qed.

(** Clean is idempotent. *)
Lemma Clean_idem path : Clean (Clean path) = Clean path.
Proof.
  destruct (Clean_kept path) as (kept & Hk & _ & ->). case_decide; [done|]. by apply Clean_render.
Qed.

(** Joining plain elements to a path adds them at its end. *)
Lemma JoinPath_plain base parts :
  base <> "" -> parts <> [] -> Forall (fun p => plainPart p = true) parts ->
  JoinPath (base :: parts)
  = render (rooted base) (rev (cleanParts (rooted base) [] (Split base slash)) ++ parts).
Proof.
  intros Hb Hn Hp. cbn [JoinPath]. rewrite (proj2 (String.eqb_neq _ _) Hb).
  assert (Join (base :: parts) "/" = base +:+ String slash (Join parts "/")) as ->.
  { destruct parts; [done|]. rewrite Join_cons. done. }
  assert (forall p, p ∈ parts -> lacks slash p = true) as Hl.
  { intros p H. rewrite Forall_forall in Hp. apply Hp, plainPart_spec in H. tauto. }
  unfold Clean. rewrite rooted_app, Split_app, cleanParts_app by done.
  rewrite Split_Join_slash, cleanParts_plain, rev_app_distr, rev_involutive by done.
  destruct (String.eqb_spec (render (rooted base)
    (rev (cleanParts (rooted base) [] (Split base slash)) ++ parts)) "") as [E|E]; [|done].
  exfalso. unfold render in E. destruct (rooted base); [done|]. rewrite app_Empty in E.
  apply (Join_nonempty _ "/") in E; [done| |].
  - intros E1. apply app_eq_nil in E1 as [_ E1]. done.
  - intros p [H|H]%elem_of_app.
    + apply list_elem_of_In, in_rev, list_elem_of_In in H.
      by eapply wellKept_parts; [apply cleaned_kept|].
    + rewrite Forall_forall in Hp. apply Hp, plainPart_spec in H. tauto.
Qed.
