(* ===== verification/GoSearch.v ===== *)
(** * Prefixes, suffixes and substrings

    The functions of the package strings that test and cut texts, and what they
    decide. *)

From stdpp Require Import base list strings.
From S2P Require Import Prelude GoStrings.
From Stdlib Require Import Strings.Ascii.
#[local] Open Scope Z_scope.
#[local] Set Warnings "-clear-no-such-hyp".

(** [strings.HasPrefix] *)
Definition HasPrefix (s prefix : string) : bool :=
  match CutPrefix s prefix with Some _ => true | None => false end.

(** [strings.CutSuffix], [strings.HasSuffix], [strings.TrimSuffix] *)
Definition CutSuffix (s suffix : string) : option string :=
  let n := (String.length s - String.length suffix)%nat in
  if (dropString n s =? suffix)%string then Some (takeString n s) else None.
Definition HasSuffix (s suffix : string) : bool :=
  match CutSuffix s suffix with Some _ => true | None => false end.
Definition TrimSuffix (s suffix : string) : string := default s (CutSuffix s suffix).

(** [strings.Contains] *)
Fixpoint Contains (s sub : string) : bool :=
  HasPrefix s sub || match s with String _ s' => Contains s' sub | EmptyString => false end.

(** [strings.TrimRight] for a set of one byte. *)
Fixpoint TrimRight (s : string) (c : ascii) : string :=
  match s with
  | EmptyString => ""
  | String d s' =>
      match TrimRight s' c with
      | EmptyString => if (d =? c)%char then "" else String d ""
      | t => String d t
      end
  end.

(** ** What they decide *)

Lemma HasPrefix_spec s p : HasPrefix s p = true <-> exists r, s = p +:+ r.
Proof.
  unfold HasPrefix. destruct (CutPrefix s p) as [r|] eqn:E.
  - apply CutPrefix_spec in E. split; eauto.
  - split; [done|]. intros [r Hr]. apply CutPrefix_spec in Hr. congruence.
Qed.

Lemma HasPrefix_app p r : HasPrefix (p +:+ r) p = true.
Proof. apply HasPrefix_spec. by exists r. Qed.

Lemma HasPrefix_false s p : HasPrefix s p = false <-> forall r, s <> p +:+ r.
Proof.
  rewrite <- not_true_iff_false, HasPrefix_spec. naive_solver.
Qed.

Lemma HasPrefix_trans s p q : HasPrefix s p = true -> HasPrefix p q = true -> HasPrefix s q = true.
Proof.
  rewrite !HasPrefix_spec. intros [r ->] [t ->]. exists (t +:+ r). by rewrite string_app_assoc.
Qed.

Lemma CutSuffix_spec s suffix r : CutSuffix s suffix = Some r <-> s = r +:+ suffix.
Proof.
  unfold CutSuffix. destruct (String.eqb_spec (dropString (String.length s - String.length suffix) s) suffix) as [E|E].
  - split.
    + intros [= <-]. rewrite <- (take_drop_string (String.length s - String.length suffix) s) at 1. by rewrite E.
    + intros ->. f_equal. rewrite length_app_string, Nat.add_sub. apply take_app_string.
  - split; [done|]. intros ->. exfalso. apply E. rewrite length_app_string, Nat.add_sub. apply drop_app_string.
Qed.

Lemma HasSuffix_spec s suffix : HasSuffix s suffix = true <-> exists r, s = r +:+ suffix.
Proof.
  unfold HasSuffix. destruct (CutSuffix s suffix) as [r|] eqn:E.
  - apply CutSuffix_spec in E. split; eauto.
  - split; [done|]. intros [r Hr]. apply CutSuffix_spec in Hr. congruence.
Qed.

Lemma TrimSuffix_app s suffix : TrimSuffix (s +:+ suffix) suffix = s.
Proof. unfold TrimSuffix. by rewrite (proj2 (CutSuffix_spec _ _ s) eq_refl). Qed.

Lemma Contains_spec s sub : Contains s sub = true <-> exists a b, s = a +:+ sub +:+ b.
Proof.
  induction s as [|c s IH]; cbn [Contains]; rewrite orb_true_iff, HasPrefix_spec.
  - split; [intros [[r ->]|]; [by exists "", r|done]|].
    intros (a & b & E). left. exists b. destruct a; [done|by autorewrite with str in E].
  - rewrite IH. split.
    + intros [[r ->]|(a & b & ->)]; [by exists "", r|]. exists (String c a), b. by autorewrite with str.
    + intros (a & b & E). destruct a as [|d a]; autorewrite with str in E; [eauto|].
      injection E as -> ->. eauto.
Qed.

Lemma TrimRight_prefix s c : HasPrefix s (TrimRight s c) = true.
Proof.
  apply HasPrefix_spec. induction s as [|d s [r IH]]; [by exists ""|]. cbn [TrimRight].
  destruct (TrimRight s c) as [|e t].
  - destruct (d =? c)%char; [by eexists|]. exists s. by autorewrite with str.
  - exists r. rewrite IH at 1. by autorewrite with str.
Qed.

Lemma TrimRight_idem s c : TrimRight (TrimRight s c) c = TrimRight s c.
Proof.
  induction s as [|d s IH]; [done|]. cbn [TrimRight]. destruct (TrimRight s c) as [|e t] eqn:E.
  - destruct (d =? c)%char eqn:Ed; [done|]. cbn. by rewrite Ed.
  - cbn [TrimRight] in *. by rewrite IH.
Qed.

(** A text that does not end with the byte is left alone. *)
Lemma TrimRight_id s c : TrimRight s c = s <-> HasSuffix s (String c "") = false.
Proof.
  rewrite <- not_true_iff_false, HasSuffix_spec. split.
  - intros H [r ->]. revert H. induction r as [|d r IH]; autorewrite with str; cbn [TrimRight].
    + by rewrite Ascii.eqb_refl.
    + intros H. apply IH. destruct (TrimRight (r +:+ String c "") c) as [|e t].
      * destruct (d =? c)%char; [done|]. injection H as H. destruct r; done.
      * by injection H.
  - induction s as [|d s IH]; intros H; [done|]. cbn [TrimRight].
    rewrite IH.
    + destruct s; [|done]. destruct (Ascii.eqb_spec d c) as [->|]; [|done]. exfalso. apply H. by exists "".
    + intros [r ->]. apply H. exists (String d r). by autorewrite with str.
Qed.
