(* ===== verification/PathMatch.v ===== *)
(** * Shell patterns

    path.Match of the Go standard library, which the access control lists call:
    star, question mark, character classes and escapes, over UTF-8.

    Every round of a loop consumes a byte of the pattern at least: its length is
    fuel enough ([Match_total]). *)

From S2P Require Import Prelude GoStrings.
From Stdlib Require Import Strings.Ascii.
#[local] Open Scope Z_scope.

Definition ErrBadPattern : error := PlainError "syntax error in pattern".


(** [getEsc]: a possibly escaped character of a class. *)
Definition getEsc (chunk : string) : outcome (Z * string) :=
  match chunk with
  | EmptyString => Err ErrBadPattern
  | String c chunk' =>
      if (c =? "-")%char || (c =? "]")%char then Err ErrBadPattern
      else
        chunk1 <-? (if (c =? "\")%char
                    then if isEmpty chunk' then Err ErrBadPattern else Ok chunk'
                    else Ok chunk) ;;
        let '(r, n) := DecodeRune chunk1 in
        let nchunk := dropString n chunk1 in
        if ((r =? RuneError) && Nat.eqb n 1) || isEmpty nchunk then Err ErrBadPattern
        else Ok (r, nchunk)
  end.

(** The ranges of a class, up to its closing bracket: whether one holds [r]. *)
Fixpoint matchRanges (fuel : nat) (chunk : string) (r : Z) (found : bool) (nrange : nat)
    : outcome (bool * string) :=
  match fuel with
  | O => Diverge
  | S fuel' =>
      let next (_ : unit) :=
        let? (lo, chunk1) := getEsc chunk in
        let? (hi, chunk2) :=
          match chunk1 with
          | String c chunk1' => if (c =? "-")%char then getEsc chunk1' else Ok (lo, chunk1)
          | EmptyString => Panic "index out of range"
          end in
        matchRanges fuel' chunk2 r (found || between lo hi r) (S nrange) in
      match chunk, nrange with
      | String c chunk', S _ => if (c =? "]")%char then Ok (found, chunk') else next tt
      | _, _ => next tt
      end
  end.

(** [matchChunk]: the rest of [s] when a chunk without star matches its start.
    After a failure the chunk is only checked. *)
Fixpoint matchChunk (fuel : nat) (chunk s : string) (failed : bool) : outcome (option string) :=
  match chunk with
  | EmptyString => Ok (if failed then None else Some s)
  | String c chunk' =>
      match fuel with
      | O => Diverge
      | S fuel' =>
          let failed := failed || isEmpty s in
          if (c =? "[")%char then
            let '(r, s') :=
              if failed then (0, s)
              else let '(r, n) := DecodeRune s in (r, dropString n s) in
            let '(negated, chunk1) :=
              match chunk' with
              | String d chunk'' => if (d =? "^")%char then (true, chunk'') else (false, chunk')
              | EmptyString => (false, chunk')
              end in
            let? (found, chunk2) := matchRanges (S (String.length chunk1)) chunk1 r false 0 in
            matchChunk fuel' chunk2 s' (failed || Bool.eqb found negated)
          else if (c =? "?")%char then
            match s, failed with
            | String d _, false =>
                matchChunk fuel' chunk' (dropString (snd (DecodeRune s)) s) (d =? "/")%char
            | _, _ => matchChunk fuel' chunk' s true
            end
          else
            lit <-? (if (c =? "\")%char
                     then match chunk' with
                          | String d chunk'' => Ok (d, chunk'')
                          | EmptyString => Err ErrBadPattern
                          end
                     else Ok (c, chunk')) ;;
            let '(d, chunk1) := lit in
            match s, failed with
            | String e s', false => matchChunk fuel' chunk1 s' (negb (d =? e)%char)
            | _, _ => matchChunk fuel' chunk1 s true
            end
      end
  end.

(** The chunk up to the next star outside a class, and the rest. *)
Fixpoint scanChunkEnd (pattern : string) (inrange : bool) : string * string :=
  match pattern with
  | EmptyString => ("", "")
  | String c p' =>
      if (c =? "\")%char then
        match p' with
        | String d p'' =>
            let '(chunk, rest) := scanChunkEnd p'' inrange in (String c (String d chunk), rest)
        | EmptyString => (pattern, "")
        end
      else if (c =? "*")%char && negb inrange then ("", pattern)
      else
        let inrange := if (c =? "[")%char then true
                       else if (c =? "]")%char then false else inrange in
        let '(chunk, rest) := scanChunkEnd p' inrange in (String c chunk, rest)
  end.

(** [scanChunk]: leading stars, the next chunk, the rest of the pattern. *)
Fixpoint scanChunk (pattern : string) : bool * string * string :=
  match pattern with
  | String c p' =>
      if (c =? "*")%char then let '(_, chunk, rest) := scanChunk p' in (true, chunk, rest)
      else let '(chunk, rest) := scanChunkEnd pattern false in (false, chunk, rest)
  | EmptyString => (false, "", "")
  end.

Definition chunkFuel (chunk : string) : nat := String.length chunk.

(** The match of a chunk after a star, skipping bytes other than slashes.  The
    result is the rest of the name, if there is a match. *)
Fixpoint skipAndMatch (chunk name : string) (last : bool) : outcome (option string) :=
  match name with
  | EmptyString => Ok None
  | String c name' =>
      if (c =? "/")%char then Ok None
      else
        t <-? matchChunk (chunkFuel chunk) chunk name' false ;;
        match t with
        | Some rest => if last && negb (isEmpty rest) then skipAndMatch chunk name' last else Ok (Some rest)
        | None => skipAndMatch chunk name' last
        end
  end.

(** The check that the rest of a pattern is well formed. *)
Fixpoint checkChunks (fuel : nat) (pattern : string) : outcome unit :=
  match pattern with
  | EmptyString => Ok tt
  | _ =>
      match fuel with
      | O => Diverge
      | S fuel' =>
          let '(_, chunk, rest) := scanChunk pattern in
          _ <-? matchChunk (chunkFuel chunk) chunk "" false ;;
          checkChunks fuel' rest
      end
  end.

Fixpoint Match_fuel (fuel : nat) (pattern name : string) : outcome bool :=
  match pattern with
  | EmptyString => Ok (isEmpty name)
  | _ =>
      match fuel with
      | O => Diverge
      | S fuel' =>
          let '(star, chunk, rest) := scanChunk pattern in
          if star && isEmpty chunk then Ok (negb (containsByte "/"%char name))
          else
            t <-? matchChunk (chunkFuel chunk) chunk name false ;;
            let first := match t with
                         | Some t => if isEmpty t || negb (isEmpty rest) then Some t else None
                         | None => None
                         end in
            match first with
            | Some t => Match_fuel fuel' rest t
            | None =>
                found <-? (if star then skipAndMatch chunk name (isEmpty rest) else Ok None) ;;
                match found with
                | Some t => Match_fuel fuel' rest t
                | None => _ <-? checkChunks (String.length rest) rest ;; Ok false
                end
            end
      end
  end.

(** [path.Match] *)
Definition Match (pattern name : string) : outcome bool :=
  Match_fuel (String.length pattern) pattern name.

Example Match_ex1 : Match "*,ou=users,dc=teapot" "cn=bob,ou=users,dc=teapot" = Ok true.
Proof. reflexivity. Qed.
Example Match_ex2 : Match "a*b?[c-e][^x]\*" "axxb€ex*" = Ok false.
Proof. reflexivity. Qed.
Example Match_ex3 : Match "a*b?[c-e][^x]\*" "axxb€dy*" = Ok true.
Proof. reflexivity. Qed.
Example Match_ex4 : Match "[]a]" "]" = Err ErrBadPattern.
Proof. reflexivity. Qed.
Example Match_ex5 : Match "a*/b" "a/c/b" = Ok false.
Proof. reflexivity. Qed.
Example Match_ex6 : Match "a[" "b" = Err ErrBadPattern.
Proof. reflexivity. Qed.

(** ** Termination *)

Local Abbreviation slen := String.length.

(** The outcome is a value that [P] holds of, or the error of a bad pattern:
    the loops end and no index is out of range. *)
Definition fine {A} (P : A -> Prop) (o : outcome A) : Prop :=
  match o with
  | Ok a => P a
  | Err e => e = ErrBadPattern
  | _ => False
  end.

Lemma fine_bind {A B} (P : A -> Prop) (Q : B -> Prop) (o : outcome A) (k : A -> outcome B) :
  fine P o -> (forall a, P a -> fine Q (k a)) -> fine Q (obind o k).
Proof. destruct o; cbn; auto; done. Qed.

Lemma fine_impl {A} (P Q : A -> Prop) (o : outcome A) :
  fine P o -> (forall a, P a -> Q a) -> fine Q o.
Proof. destruct o; cbn; auto. Qed.

Lemma dropString_length n s : slen (dropString n s) = (slen s - n)%nat.
Proof. revert s. induction n as [|n IH]; intros [|c s]; cbn; auto. Qed.

Lemma isEmpty_true s : isEmpty s = true -> s = "".
Proof. now destruct s. Qed.

Lemma isEmpty_false s : isEmpty s = false -> s <> "".
Proof. now destruct s. Qed.

Lemma DecodeRune_width s : s <> "" -> (1 <= snd (DecodeRune s))%nat.
Proof.
  destruct s as [|c s]; [done|]. intros _. unfold DecodeRune.
  repeat (case_match; cbn; try lia).
Qed.

(** A character of a class consumes a byte at least, and leaves one. *)
Lemma getEsc_fine chunk :
  fine (fun '(_, nchunk) => (slen nchunk < slen chunk)%nat /\ nchunk <> "") (getEsc chunk).
Proof.
  unfold getEsc. destruct chunk as [|c chunk']; [done|]. destruct (_ || _); [done|].
  apply (fine_bind (fun a => a <> "" /\ (slen a <= slen (String c chunk'))%nat)).
  - destruct (c =? "\")%char; [destruct (isEmpty chunk') eqn:E|]; cbn; [done | | done].
    apply isEmpty_false in E. split; [done|lia].
  - intros a [Ha Hl]. pose proof (DecodeRune_width a Ha) as W.
    destruct (DecodeRune a) as [r n]. cbn in W.
    destruct (_ || isEmpty _) eqn:E2; [done|]. apply orb_false_elim in E2 as [_ E2].
    apply isEmpty_false in E2. cbn in *. rewrite dropString_length.
    split; [destruct a; cbn in *; [done|lia] | done].
Qed.

(** A class is read within the fuel, and what is left is shorter. *)
Lemma matchRanges_fine fuel chunk r found n :
  (slen chunk < fuel)%nat ->
  fine (fun '(_, rest) => (slen rest <= slen chunk)%nat) (matchRanges fuel chunk r found n).
Proof.
  revert chunk found n. induction fuel as [|fuel IH]; intros chunk found n Hf; [lia|].
  cbn [matchRanges]. cbv zeta.
  set (next := obind (getEsc chunk) _).
  assert (fine (fun '(_, rest) => (slen rest <= slen chunk)%nat) next) as Hnext.
  { unfold next. eapply fine_bind; [apply getEsc_fine|]. intros [lo c1] [H1 H2].
    apply (fine_bind (fun '(_, c2) => (slen c2 <= slen c1)%nat)).
    - destruct c1 as [|d c1]; [done|]. destruct (d =? "-")%char; [|cbn; lia].
      eapply fine_impl; [apply getEsc_fine|]. intros [hi c2] [H3 _]. cbn in *. lia.
    - intros [hi c2] H3. eapply fine_impl; [apply IH; lia|]. intros [b rest]. lia. }
  destruct chunk as [|c chunk']; [exact Hnext|]. destruct n; [exact Hnext|].
  destruct (c =? "]")%char; [cbn; lia | exact Hnext].
Qed.

(** A chunk matches at the start of the string: what is left is not longer. *)
Lemma matchChunk_fine fuel chunk s failed :
  (slen chunk <= fuel)%nat ->
  fine (fun t => match t with Some rest => (slen rest <= slen s)%nat | None => True end)
    (matchChunk fuel chunk s failed).
Proof.
  revert chunk s failed. induction fuel as [|fuel IH]; intros chunk s failed Hf;
    (destruct chunk as [|c chunk']; [cbn; destruct failed; cbn; [exact I|lia]|]); cbn in Hf; [lia|].
  assert (forall k s' fl, (slen k <= slen chunk')%nat -> (slen s' <= slen s)%nat ->
    fine (fun t => match t with Some rest => (slen rest <= slen s)%nat | None => True end)
      (matchChunk fuel k s' fl)) as Hrec.
  { intros k s' fl Hk Hs. eapply fine_impl; [apply IH; lia|]. intros [t|]; [lia|done]. }
  cbn [matchChunk]. cbv zeta.
  destruct (c =? "[")%char; [|destruct (c =? "?")%char].
  - set (p := if _ || _ then _ else _). assert (slen (snd p) <= slen s)%nat as Hp.
    { unfold p. destruct (_ || _); [done|]. destruct (DecodeRune s). cbn.
      rewrite dropString_length. lia. }
    destruct p as [r s']. cbn in Hp.
    set (q := match chunk' with String _ _ => _ | EmptyString => _ end).
    assert (slen (snd q) <= slen chunk')%nat as Hq.
    { unfold q. destruct chunk' as [|d k]; [done|]. destruct (d =? "^")%char; cbn; lia. }
    destruct q as [negated k]. cbn in Hq.
    eapply fine_bind; [apply matchRanges_fine; lia|]. intros [found k2] Hk. apply Hrec; lia.
  - destruct s as [|d s]; [apply Hrec; lia|]. destruct (_ || _); [apply Hrec; lia|].
    apply Hrec; [lia|]. rewrite dropString_length. lia.
  - apply (fine_bind (fun '(_, k) => (slen k <= slen chunk')%nat)).
    + destruct (c =? "\")%char; [|cbn; lia]. destruct chunk' as [|d k]; cbn; [done|lia].
    + intros [d k] Hk. destruct s as [|e s]; [now apply Hrec|].
      destruct (_ || _); apply Hrec; cbn; lia.
Qed.

Lemma scanChunkEnd_length p inrange chunk rest :
  scanChunkEnd p inrange = (chunk, rest) -> (slen chunk + slen rest = slen p)%nat.
Proof.
  revert inrange chunk rest.
  induction p as [p IH] using (induction_ltof1 _ slen); unfold ltof in IH.
  intros inrange chunk rest. destruct p as [|c p']; cbn; [now intros [= <- <-]|].
  destruct (c =? "\")%char.
  { destruct p' as [|d p'']; [now intros [= <- <-]|].
    destruct (scanChunkEnd p'' inrange) as [k r] eqn:E. intros [= <- <-].
    apply IH in E; cbn; lia. }
  destruct (_ && _); [now intros [= <- <-]|].
  destruct (scanChunkEnd p' _) as [k r] eqn:E. intros [= <- <-]. apply IH in E; cbn; lia.
Qed.

Lemma scanChunk_length p star chunk rest :
  scanChunk p = (star, chunk, rest) -> p <> "" ->
  (slen rest < slen p)%nat \/ (star = false /\ chunk = "").
Proof.
  intros H Hp. revert star chunk rest H. induction p as [|c p' IH]; [done|].
  intros star chunk rest. cbn [scanChunk]. destruct (c =? "*")%char eqn:Es.
  - destruct (scanChunk p') as [[s k] r] eqn:E. intros [= <- <- <-]. left.
    destruct p' as [|d p'']; [injection E as <- <- <-; cbn; lia|].
    destruct (IH ltac:(done) _ _ _ eq_refl) as [H|[-> ->]]; [cbn in *; lia|].
    cbn [scanChunk] in E. destruct (d =? "*")%char eqn:Ed.
    + destruct (scanChunk p'') as [[? ?] ?]. done.
    + cbn in E. rewrite Ed in E. cbn in E.
      repeat case_match; simplify_eq.
  - cbn [scanChunkEnd]. rewrite Es. cbn [andb].
    destruct (c =? "\")%char.
    { destruct p' as [|d p'']; [intros [= <- <- <-]; cbn; lia|].
      destruct (scanChunkEnd p'' false) as [k r] eqn:E. intros [= <- <- <-].
      apply scanChunkEnd_length in E. cbn. lia. }
    destruct (scanChunkEnd p' _) as [k r] eqn:E. intros [= <- <- <-].
    apply scanChunkEnd_length in E. cbn. lia.
Qed.

Lemma scanChunk_rest p : p <> "" -> (slen (snd (scanChunk p)) < slen p)%nat.
Proof.
  intros Hp. destruct (scanChunk p) as [[star chunk] rest] eqn:E.
  destruct (scanChunk_length _ _ _ _ E Hp) as [H|[-> ->]]; [exact H|].
  destruct p as [|c p']; [done|]. cbn [scanChunk] in E. destruct (c =? "*")%char eqn:Es.
  - now destruct (scanChunk p') as [[? ?] ?].
  - cbn [scanChunkEnd] in E. rewrite Es in E. cbn [andb] in E. repeat case_match; simplify_eq.
Qed.

Lemma skipAndMatch_fine chunk name last :
  fine (fun _ => True) (skipAndMatch chunk name last).
Proof.
  induction name as [|c name IH]; cbn; [exact I|]. destruct (c =? "/")%char; [exact I|].
  eapply fine_bind; [apply matchChunk_fine; done|]. intros [t|] _; [|exact IH].
  destruct (_ && _); [exact IH|exact I].
Qed.

Lemma checkChunks_fine fuel p :
  (slen p <= fuel)%nat -> fine (fun _ => True) (checkChunks fuel p).
Proof.
  revert p. induction fuel as [|fuel IH]; intros p Hf; (destruct p as [|c p']; [exact I|]);
    [cbn in Hf; lia|].
  cbn [checkChunks]. pose proof (scanChunk_rest (String c p') ltac:(done)) as Hr.
  destruct (scanChunk (String c p')) as [[star chunk] rest]. cbn [snd] in Hr.
  eapply fine_bind; [apply matchChunk_fine; done|]. intros _ _. apply IH. lia.
Qed.

Lemma Match_fuel_fine fuel p name :
  (slen p <= fuel)%nat -> fine (fun _ => True) (Match_fuel fuel p name).
Proof.
  revert p name. induction fuel as [|fuel IH]; intros p name Hf; (destruct p as [|c p']; [exact I|]);
    [cbn in Hf; lia|].
  cbn [Match_fuel]. pose proof (scanChunk_rest (String c p') ltac:(done)) as Hr.
  destruct (scanChunk (String c p')) as [[star chunk] rest]. cbn [snd] in Hr.
  assert (forall t, fine (fun _ => True) (Match_fuel fuel rest t)) as Hrec by (intros t; apply IH; lia).
  destruct (_ && _); [exact I|].
  eapply fine_bind; [apply matchChunk_fine; done|]. intros t _. cbv zeta.
  destruct (match t with Some _ => _ | None => _ end); [apply Hrec|].
  apply (fine_bind (fun _ => True)).
  { destruct star; [apply skipAndMatch_fine | exact I]. }
  intros [t'|] _; [apply Hrec|]. eapply fine_bind; [now apply checkChunks_fine|]. done.
Qed.

(** Matching a pattern always ends, with an answer or with the error of a
    malformed pattern: no index is out of range. *)
Theorem Match_total (pattern name : string) :
  (exists b, Match pattern name = Ok b) \/ Match pattern name = Err ErrBadPattern.
Proof.
  unfold Match. pose proof (Match_fuel_fine _ pattern name (le_n _)) as H.
  destruct (Match_fuel _ pattern name); try done; [left; eauto | right; now rewrite H].
Qed.

(** ** Patterns without classes, escapes and question marks *)

Definition plainByte (c : ascii) : bool :=
  negb ((c =? "*")%char || (c =? "?")%char || (c =? "[")%char || (c =? "\")%char).
Definition literal (s : string) : bool := all plainByte s.

Lemma plainByte_false c :
  plainByte c = true ->
  (c =? "*")%char = false /\ (c =? "?")%char = false
  /\ (c =? "[")%char = false /\ (c =? "\")%char = false.
Proof. unfold plainByte. intros H. repeat destruct (_ =? _)%char; done. Qed.

Lemma scanChunkEnd_literal s : literal s = true -> scanChunkEnd s false = (s, "").
Proof.
  induction s as [|c s IH]; cbn; [done|]. intros [Hc Hs]%andb_prop.
  apply plainByte_false in Hc as (H1 & _ & H3 & H4). rewrite H1, H3, H4. cbn.
  destruct (c =? "]")%char; now rewrite IH.
Qed.

Lemma scanChunk_literal s : literal s = true -> scanChunk s = (false, s, "").
Proof.
  destruct s as [|c s]; [done|]. intros H. pose proof (scanChunkEnd_literal _ H) as E.
  cbn in H. apply andb_prop in H as [Hc _]. apply plainByte_false in Hc as (H1 & _).
  cbn [scanChunk]. now rewrite H1, E.
Qed.

Lemma matchChunk_literal lit s failed :
  literal lit = true ->
  matchChunk (slen lit) lit s failed = Ok (if failed then None else CutPrefix s lit).
Proof.
  revert s failed. induction lit as [|c lit IH]; intros s failed; [done|].
  cbn [literal all]. intros [Hc Hl]%andb_prop.
  apply plainByte_false in Hc as (_ & H2 & H3 & H4).
  cbn [slen matchChunk]. rewrite H2, H3, H4. cbn [obind]. cbv zeta.
  destruct s as [|d s]; [|destruct failed]; cbn; rewrite IH by done; [now destruct failed | done |].
  now destruct (c =? d)%char.
Qed.

(** A pattern without special characters matches itself only. *)
Theorem Match_literal (pattern name : string) :
  literal pattern = true -> Match pattern name = Ok (pattern =? name)%string.
Proof.
  intros H. unfold Match. destruct pattern as [|c p]; [now destruct name|].
  cbn [slen Match_fuel]. rewrite scanChunk_literal by done. cbn [andb].
  unfold chunkFuel. rewrite matchChunk_literal by done. cbn [obind]. cbv zeta. cbn [isEmpty negb].
  destruct (CutPrefix name (String c p)) as [r|] eqn:E.
  - apply CutPrefix_spec in E as ->. rewrite orb_false_r.
    destruct r as [|d r]; cbn [isEmpty].
    + rewrite string_app_nil, String.eqb_refl. now destruct (slen p).
    + cbn [obind checkChunks slen]. symmetry. f_equal. apply String.eqb_neq. rewrite <- (string_app_nil (String c p)) at 1.
      intros F. now apply string_app_inj in F.
  - cbn [obind checkChunks slen]. f_equal. symmetry. apply String.eqb_neq. intros <-.
    rewrite (proj2 (CutPrefix_spec _ (String c p) "")) in E; [done|]. now rewrite string_app_nil.
Qed.

(** The match of the last, literal chunk after a star. *)
Lemma skipAndMatch_literal lit name :
  literal lit = true ->
  match skipAndMatch lit name true with
  | Ok (Some t) => t = "" /\ exists c a, name = String c a +:+ lit /\ lacks "/"%char (String c a) = true
  | Ok None => forall c a, name = String c a +:+ lit -> lacks "/"%char (String c a) = false
  | _ => False
  end.
Proof.
  intros Hl. induction name as [|c name IH]; [now intros d a|].
  cbn [skipAndMatch]. destruct (c =? "/")%char eqn:Es.
  { intros d a [= -> _]. cbn. now rewrite Es. }
  unfold chunkFuel. rewrite matchChunk_literal by done. cbn [obind].
  assert (match skipAndMatch lit name true with
          | Ok (Some t) => t = "" /\ exists d a, String c name = String d a +:+ lit
                                       /\ lacks "/"%char (String d a) = true
          | Ok None => forall d e a, String c name = String d (String e a) +:+ lit ->
                                     lacks "/"%char (String d (String e a)) = false
          | _ => False
          end) as IH'.
  { destruct (skipAndMatch lit name true) as [[t|]| | |]; try done.
    - destruct IH as [-> (d & a & -> & Ha)]. split; [done|]. exists c, (String d a).
      split; [done|]. cbn in *. now rewrite Es, Ha.
    - intros d e a [= -> E]. cbn in *. rewrite Es. cbn. now apply (IH e a). }
  assert (forall r, CutPrefix name lit = r -> r <> Some "" ->
    match skipAndMatch lit name true with
    | Ok (Some t) => t = "" /\ exists d a, String c name = String d a +:+ lit
                                 /\ lacks "/"%char (String d a) = true
    | Ok None => forall d a, String c name = String d a +:+ lit -> lacks "/"%char (String d a) = false
    | _ => False
    end) as Hno.
  { intros r Er Hr. destruct (skipAndMatch lit name true) as [[t|]| | |]; try done.
    intros d a E. destruct a as [|e a]; [|now apply IH'].
    injection E as -> ->. exfalso. apply Hr. rewrite <- Er. apply CutPrefix_spec.
    now rewrite string_app_nil. }
  destruct (CutPrefix name lit) as [[|e r]|] eqn:E; cbn [isEmpty negb andb];
    [|now apply (Hno _ eq_refl)..].
  split; [done|]. apply CutPrefix_spec in E as ->. exists c, "". rewrite string_app_nil.
  split; [done|]. cbn. now rewrite Es.
Qed.

(** A star followed by a literal, the shape of a rule for a subtree, matches
    the names that end with the literal after text without a slash. *)
Theorem Match_star_suffix (lit name : string) :
  literal lit = true ->
  Match (String "*"%char lit) name = Ok true
  <-> exists a, name = a +:+ lit /\ lacks "/"%char a = true.
Proof.
  intros Hl. unfold Match. cbn [slen Match_fuel scanChunk].
  change ("*" =? "*")%char with true. cbn iota. rewrite scanChunk_literal by done. cbn [andb].
  destruct (isEmpty lit) eqn:El.
  { apply isEmpty_true in El as ->. unfold containsByte. fold (lacks "/"%char name).
    rewrite negb_involutive. split.
    - intros [= H]. exists name. now rewrite string_app_nil.
    - intros [a [-> H]]. now rewrite string_app_nil, H. }
  unfold chunkFuel. rewrite matchChunk_literal by done. cbn [obind]. cbv zeta. cbn [isEmpty negb].
  pose proof (skipAndMatch_literal lit name Hl) as Hs.
  destruct (CutPrefix name lit) as [[|d r]|] eqn:E; cbn [isEmpty orb].
  { apply CutPrefix_spec in E as ->. rewrite string_app_nil.
    split; [|intros _; now destruct (slen lit)]. intros _. now exists "". }
  all: assert (lit <> name) as Hne by (intros <-;
    rewrite (proj2 (CutPrefix_spec lit lit "")) in E by (now rewrite string_app_nil); discriminate).
  all: destruct (skipAndMatch lit name true) as [[t|]| | |]; try done; cbn [obind].
  all: try (destruct Hs as [-> (c & a & -> & Ha)]; split; [intros _; eauto | intros _; now destruct (slen lit)]).
  all: split; [done|]; intros [[|c a] [-> Ha]]; [now destruct Hne|].
  all: now rewrite (Hs c a eq_refl) in Ha.
Qed.

(** ** Witnesses *)

Lemma Match_literal_witness : Match "cn=bob,dc=teapot" "cn=alice,dc=teapot" = Ok false.
Proof. apply (Match_literal "cn=bob,dc=teapot" "cn=alice,dc=teapot"). reflexivity. Defined.

Lemma Match_star_suffix_witness : Match "*,dc=teapot" "cn=bob,ou=users,dc=teapot" = Ok true.
Proof.
  apply (Match_star_suffix ",dc=teapot"); [reflexivity|].
  exists "cn=bob,ou=users". split; reflexivity.
Defined.
