(* ===== verification/GoBTree.v ===== *)
(** * B-trees

    The third-party package google/btree, over which the in-memory store and the
    cached tables are built: the class [BTree] gives the operations that they
    call, and [BTreeLaws] what the package documents of them.  The trees of the
    program are ordered by the string of a key; the lemmas on those, and an
    instance by sorted lists with which the witnesses compute, are shared here. *)

From stdpp Require Import gmap sorting.
From S2P Require Import Prelude GoStrings.
#[local] Open Scope Z_scope.

Class BTree (A : Type) (less : A -> A -> bool) : Type := {
  Tree : Type;
  NewG : Tree;
  ReplaceOrInsert : A -> Tree -> Tree;
  Delete : A -> Tree -> Tree;
  (** The items that Ascend, AscendGreaterOrEqual from a start, and AscendRange
      from a start to before an end, give to an iterator that never stops. *)
  Ascend : Tree -> list A;
  AscendGreaterOrEqual : A -> Tree -> list A;
  AscendRange : A -> A -> Tree -> list A
}.
Arguments Tree {A less} _.

Definition equiv_by {A} (less : A -> A -> bool) (x y : A) : Prop :=
  less x y = false /\ less y x = false.

Class BTreeLaws {A} {less : A -> A -> bool} (B : BTree A less) : Prop := {
  Ascend_sorted t : StronglySorted (fun x y => less x y = true) (Ascend t);
  Ascend_New : Ascend NewG = [];
  Ascend_Insert x y t :
    y ∈ Ascend (ReplaceOrInsert x t) <-> y = x \/ (y ∈ Ascend t /\ ~ equiv_by less x y);
  Ascend_Delete x y t : y ∈ Ascend (Delete x t) <-> y ∈ Ascend t /\ ~ equiv_by less x y;
  AscendGreaterOrEqual_Ascend lo t :
    AscendGreaterOrEqual lo t = filter (fun y => less y lo = false) (Ascend t);
  AscendRange_Ascend lo hi t :
    AscendRange lo hi t = filter (fun y => less y lo = false /\ less y hi = true) (Ascend t)
}.

(** Give the items to an iterator until it returns false. *)
Fixpoint iterate {A X} (visit : X -> A -> bool * X) (x : X) (items : list A) : X :=
  match items with
  | [] => x
  | a :: items' => let '(go_on, x') := visit x a in if go_on then iterate visit x' items' else x'
  end.

(** ** Items ordered by the string of a key *)

Section Keyed.
Context {A : Type} (key : A -> string).

Definition keyLess (a b : A) : bool := lessThan (key a) (key b).

Lemma keyLess_equiv a b : equiv_by keyLess a b <-> key a = key b.
Proof.
  unfold equiv_by, keyLess. split.
  - intros [H1 H2]. now apply lessThan_total.
  - intros ->. split; apply lessThan_irrefl.
Qed.

Local Abbreviation sorted := (StronglySorted (fun x y => keyLess x y = true)).

(** The items of a sorted list have distinct keys. *)
Lemma sorted_key_inj (l : list A) a b : sorted l -> a ∈ l -> b ∈ l -> key a = key b -> a = b.
Proof.
  induction 1 as [|m l Hs IH Hm]; intros Ha Hb E; [now apply elem_of_nil in Ha|].
  rewrite Forall_forall in Hm. unfold keyLess in Hm.
  apply elem_of_cons in Ha as [->|Ha], Hb as [->|Hb]; [done | | | now apply IH].
  - specialize (Hm _ Hb). rewrite E in Hm. now rewrite lessThan_irrefl in Hm.
  - specialize (Hm _ Ha). rewrite E in Hm. now rewrite lessThan_irrefl in Hm.
Qed.

Lemma sorted_NoDup_keys (l : list A) : sorted l -> NoDup (map key l).
Proof.
  induction 1 as [|m l Hs IH Hm]; cbn; constructor; [|done].
  rewrite list_elem_of_fmap. intros [x [E Hx]]. rewrite Forall_forall in Hm.
  specialize (Hm _ Hx). unfold keyLess in Hm. rewrite E in Hm. now rewrite lessThan_irrefl in Hm.
Qed.

Lemma sorted_filter (P : A -> Prop) `{!forall x, Decision (P x)} l : sorted l -> sorted (filter P l).
Proof.
  induction 1 as [|x l Hs IH Hx]; [constructor|]. rewrite filter_cons.
  destruct (decide (P x)); [|done]. constructor; [done|].
  rewrite Forall_forall in *. intros y [_ Hy]%list_elem_of_filter. auto.
Qed.

(** Lists that are sorted on demand meet the documented behaviour. *)
Fixpoint insertSorted (x : A) (l : list A) : list A :=
  match l with
  | [] => [x]
  | y :: l' =>
      if keyLess x y then x :: l
      else if keyLess y x then y :: insertSorted x l'
      else x :: l'
  end.

Definition sortKeys (l : list A) : list A := foldr insertSorted [] l.

Definition keyTree : BTree A keyLess := {|
  Tree := list A;
  NewG := [];
  ReplaceOrInsert := cons;
  Delete := fun x t => filter (fun y => key x <> key y) (sortKeys t);
  Ascend := sortKeys;
  AscendGreaterOrEqual := fun lo t => filter (fun y => keyLess y lo = false) (sortKeys t);
  AscendRange := fun lo hi t =>
    filter (fun y => keyLess y lo = false /\ keyLess y hi = true) (sortKeys t)
|}.

Lemma insertSorted_Forall (P : A -> Prop) x l :
  P x -> Forall P l -> Forall P (insertSorted x l).
Proof.
  intros Hx. induction 1 as [|y l Hy Hl IH]; cbn; [by constructor|].
  destruct (keyLess x y); [by repeat constructor|].
  destruct (keyLess y x); by constructor.
Qed.

Lemma insertSorted_sorted x l : sorted l -> sorted (insertSorted x l).
Proof.
  induction 1 as [|y l Hs IH Hy]; cbn; [by repeat constructor|].
  destruct (keyLess x y) eqn:E1; [|destruct (keyLess y x) eqn:E2].
  - constructor; [by constructor|]. constructor; [done|].
    apply (Forall_impl _ _ _ Hy). intros z Hz. unfold keyLess in *. by eapply lessThan_trans.
  - constructor; [done|]. now apply insertSorted_Forall.
  - constructor; [done|]. apply (Forall_impl _ _ _ Hy). intros z.
    unfold keyLess. assert (key x = key y) as -> by (now apply keyLess_equiv). done.
Qed.

Lemma sortKeys_sorted l : sorted (sortKeys l).
Proof. induction l as [|x l IH]; cbn; [constructor|]. now apply insertSorted_sorted. Qed.

Lemma elem_of_insertSorted x y l :
  sorted l -> y ∈ insertSorted x l <-> y = x \/ (y ∈ l /\ ~ equiv_by keyLess x y).
Proof.
  intros Hs. rewrite keyLess_equiv. induction Hs as [|z l Hs IH Hz]; cbn.
  { rewrite list_elem_of_singleton, elem_of_nil. tauto. }
  rewrite Forall_forall in Hz.
  destruct (keyLess x z) eqn:E1; [|destruct (keyLess z x) eqn:E2].
  - rewrite !elem_of_cons. split; [|tauto]. intros [->|H]; [auto|right].
    split; [done|]. intros E. unfold keyLess in *. rewrite E in E1.
    destruct H as [->|H]; [now rewrite lessThan_irrefl in E1|]. specialize (Hz _ H).
    pose proof (lessThan_trans _ _ _ E1 Hz) as F. now rewrite lessThan_irrefl in F.
  - rewrite !elem_of_cons, IH. split; [|tauto]. intros [->|[->|[H1 H2]]]; [|auto..].
    right. split; [auto|]. intros E. unfold keyLess in E2. rewrite E in E2.
    now rewrite lessThan_irrefl in E2.
  - assert (key x = key z) as E by (now apply keyLess_equiv).
    rewrite !elem_of_cons. split; [|intros [->|[[->|H] Hn]]; auto; now destruct Hn].
    intros [->|H]; [auto|right]. split; [auto|].
    specialize (Hz _ H). rewrite E. intros F. unfold keyLess in Hz.
    rewrite F in Hz. now rewrite lessThan_irrefl in Hz.
Qed.

Lemma sortKeys_id l : sorted l -> sortKeys l = l.
Proof.
  induction 1 as [|x l Hs IH Hx]; cbn; [done|]. fold (sortKeys l). rewrite IH.
  destruct Hx as [|y l Hy _]; cbn; [done|]. now rewrite Hy.
Qed.

Lemma keyTree_laws : BTreeLaws keyTree.
Proof.
  split.
  - apply sortKeys_sorted.
  - done.
  - intros x y t. apply elem_of_insertSorted, sortKeys_sorted.
  - intros x y t. cbn. rewrite sortKeys_id by apply sorted_filter, sortKeys_sorted.
    rewrite list_elem_of_filter, keyLess_equiv. tauto.
  - done.
  - done.
Qed.
End Keyed.
