(* ===== verification/CacheMap.v ===== *)
(** * Sorted maps

    lib/pgcache: the keys of cached objects (key.go, types.go) and the sorted map
    that holds them (sorted_map.go), a B-tree of keys beside a map from their
    strings to the values.  Writers copy the current snapshot, change the copy and
    publish it; readers work on the snapshot that they load. *)

From stdpp Require Import gmap sorting.
From S2P Require Import Prelude GoStrings GoBTree.
#[local] Open Scope Z_scope.

(** ** Keys *)

Class Key (K : Type) : Type := {
  KeyString : K -> string;
  Less : K -> K -> bool
}.

(** The keys of the program are ordered as their strings are. *)
Class KeyLaws {K : Type} (KK : Key K) : Prop := {
  Less_String a b : Less a b = lessThan (KeyString a) (KeyString b)
}.

Definition StringKey : Type := string.

#[export] Instance StringKey_Key : Key StringKey := {| KeyString := fun s => s; Less := lessThan |}.

#[export] Instance StringKey_laws : KeyLaws StringKey_Key.
Proof. split. done. Qed.

Definition StringKeyFromString (str : string) : outcome StringKey := Ok str.

(** ** The map *)

Section SortedMap.
Context {K V : Type} {KK : Key K} {B : BTree K Less}.
(** The zero value of the values' type, that reading a missing key gives. *)
Variable zero : V.

Record snapshot : Type := mkSnapshot { tree : Tree B; vals : gmap string V }.

(** The map is the snapshot that its pointer holds. *)
Definition SortedMap : Type := snapshot.

Definition NewSortedMap : SortedMap := mkSnapshot NewG ∅.

Definition copy (m : SortedMap) : snapshot :=
  let old := m in mkSnapshot (tree old) (vals old).

Definition storeIn (k : K) (v : V) (s : snapshot) : snapshot :=
  mkSnapshot (ReplaceOrInsert k (tree s)) (<[KeyString k := v]> (vals s)).

Definition deleteIn (k : K) (s : snapshot) : snapshot :=
  mkSnapshot (GoBTree.Delete k (tree s)) (delete (KeyString k) (vals s)).

Definition SortedMap_Store (m : SortedMap) (k : K) (v : V) : SortedMap := storeIn k v (copy m).
Definition SortedMap_Delete (m : SortedMap) (k : K) : SortedMap := deleteIn k (copy m).

Definition SortedMap_Load (m : SortedMap) (k : K) : option V := vals m !! KeyString k.

(** What the iterators give to a consumer that never stops. *)
Definition yields (m : SortedMap) (ks : list K) : list (K * V) :=
  map (fun k => (k, default zero (vals m !! KeyString k))) ks.

Definition SortedMap_All (m : SortedMap) : list (K * V) := yields m (Ascend (tree m)).

Definition SortedMap_From (m : SortedMap) (from : K) : list (K * V) :=
  yields m (AscendGreaterOrEqual from (tree m)).

Definition SortedMap_Between (m : SortedMap) (from to : K) : list (K * V) :=
  yields m (AscendRange from to (tree m)).

(** ** What it implements: a map from strings *)

Inductive mapOp : Type := OpStore (k : K) (v : V) | OpDelete (k : K).

Definition applyOp (m : SortedMap) (op : mapOp) : SortedMap :=
  match op with
  | OpStore k v => SortedMap_Store m k v
  | OpDelete k => SortedMap_Delete m k
  end.

Definition specOp (d : gmap string V) (op : mapOp) : gmap string V :=
  match op with
  | OpStore k v => <[KeyString k := v]> d
  | OpDelete k => delete (KeyString k) d
  end.

(** The tree has exactly the keys that have a value. *)
Definition consistent (m : SortedMap) : Prop :=
  forall s, is_Some (vals m !! s) <-> exists k, k ∈ Ascend (tree m) /\ KeyString k = s.

Context {KL : KeyLaws KK} {BL : BTreeLaws B}.
#[local] Set Default Proof Using "All".

Lemma Less_equiv a b : equiv_by Less a b <-> KeyString a = KeyString b.
Proof.
  rewrite <- (keyLess_equiv KeyString). unfold equiv_by, keyLess. now rewrite !Less_String.
Qed.

Lemma Ascend_keys (t : Tree B) : StronglySorted (fun a b => keyLess KeyString a b = true) (Ascend t).
Proof.
  pose proof (Ascend_sorted (B := B) t) as H.
  induction H as [|k l Hs IH Hk]; constructor; [done|].
  apply (Forall_impl _ _ _ Hk). intros x. unfold keyLess. now rewrite <- Less_String.
Qed.

Lemma consistent_New : consistent NewSortedMap.
Proof.
  intros s. cbn. rewrite Ascend_New, lookup_empty. split; [intros []; done|].
  intros [k [Hk%elem_of_nil _]]. done.
Qed.

Lemma consistent_op m op : consistent m -> consistent (applyOp m op).
Proof.
  intros Hm s. destruct op as [k v|k]; cbn.
  - rewrite lookup_insert_is_Some, (Hm s). setoid_rewrite Ascend_Insert. setoid_rewrite Less_equiv.
    split.
    + intros [<-|[Hk [k' [H1 H2]]]]; [eauto|]. exists k'. split; [|done]. right.
      split; [done|]. congruence.
    + intros [k' [[->|[H1 H2]] <-]]; [auto|]. right. eauto.
  - rewrite lookup_delete_is_Some, (Hm s). setoid_rewrite Ascend_Delete. setoid_rewrite Less_equiv.
    split.
    + intros [Hk [k' [H1 H2]]]. exists k'. split; [|done]. split; [done|]. congruence.
    + intros [k' [[H1 H2] <-]]. eauto.
Qed.

Lemma consistent_ops ops m : consistent m -> consistent (foldl applyOp m ops).
Proof. revert m. induction ops as [|op ops IH]; intros m Hm; cbn; [done|]. auto using consistent_op. Qed.

Lemma vals_ops ops m : vals (foldl applyOp m ops) = foldl specOp (vals m) ops.
Proof. revert m. induction ops as [|op ops IH]; intros m; cbn; [done|]. rewrite IH. now destruct op. Qed.

(** The bindings that an iterator gives, by the strings of their keys. *)
Definition bindings (l : list (K * V)) : list (string * V) := map (fun '(k, v) => (KeyString k, v)) l.

Lemma bindings_yields m ks :
  bindings (yields m ks) = map (fun k => (KeyString k, default zero (vals m !! KeyString k))) ks.
Proof. unfold bindings, yields. rewrite map_map. done. Qed.

(** The bindings of the keys that an iterator selects by their strings. *)
Lemma elem_of_yields m (P : string -> Prop) `{!forall s, Decision (P s)} s v :
  consistent m ->
  (s, v) ∈ bindings (yields m (filter (fun k => P (KeyString k)) (Ascend (tree m))))
  <-> vals m !! s = Some v /\ P s.
Proof.
  intros Hm. rewrite bindings_yields, list_elem_of_fmap. setoid_rewrite list_elem_of_filter. split.
  - intros [k [[= -> ->] [H1 H2]]]. split; [|done].
    assert (is_Some (vals m !! KeyString k)) as [v ->] by (apply Hm; eauto). done.
  - intros [Hv Hs]. destruct (proj1 (Hm s)) as [k [H1 <-]]; [eauto|].
    exists k. now rewrite Hv.
Qed.

Lemma filter_True (l : list K) : filter (fun _ => True) l = l.
Proof. induction l as [|k l IH]; [done|]. rewrite filter_cons_True by done. now rewrite IH. Qed.

Lemma sorted_yields m ks :
  StronglySorted (fun a b => keyLess KeyString a b = true) ks ->
  StronglySorted (fun a b => lessThan (fst a) (fst b) = true) (bindings (yields m ks)).
Proof.
  rewrite bindings_yields. induction 1 as [|k l Hs IH Hk]; cbn; constructor; [done|].
  apply Forall_map. exact Hk.
Qed.

(** A sorted map behaves as a finite map from the strings of its keys, whatever
    was stored and deleted: loading gives the last value stored, and the iterators
    give every binding (from a key on, or between two keys) exactly once, in the
    order of the keys. *)
Theorem SortedMap_refines (ops : list mapOp) :
  let m := foldl applyOp NewSortedMap ops in
  let d := foldl specOp ∅ ops in
  (forall k, SortedMap_Load m k = d !! KeyString k)
  /\ Permutation (bindings (SortedMap_All m)) (map_to_list d)
  /\ StronglySorted (fun a b => lessThan (fst a) (fst b) = true) (bindings (SortedMap_All m))
  /\ (forall from s v, (s, v) ∈ bindings (SortedMap_From m from)
        <-> d !! s = Some v /\ lessThan s (KeyString from) = false)
  /\ (forall from to s v, (s, v) ∈ bindings (SortedMap_Between m from to)
        <-> d !! s = Some v /\ lessThan s (KeyString from) = false /\ lessThan s (KeyString to) = true).
Proof.
  intros m d.
  assert (consistent m) as Hm by apply consistent_ops, consistent_New.
  assert (vals m = d) as Hd by apply (vals_ops ops NewSortedMap). rewrite <- Hd.
  split; [done|]. split; [|split; [apply sorted_yields, Ascend_keys|split]].
  - apply NoDup_Permutation.
    + apply (NoDup_fmap_1 fst), (sorted_NoDup_keys fst), sorted_yields, Ascend_keys.
    + apply NoDup_map_to_list.
    + intros [s v]. rewrite elem_of_map_to_list. unfold SortedMap_All.
      pose proof (elem_of_yields m (fun _ => True) s v Hm) as H. rewrite filter_True in H. tauto.
  - intros from s v. unfold SortedMap_From. rewrite AscendGreaterOrEqual_Ascend.
    rewrite <- (elem_of_yields m (fun s => lessThan s (KeyString from) = false)) by done.
    rewrite (list_filter_iff _ (fun k => lessThan (KeyString k) (KeyString from) = false)); [done|].
    intros k. now rewrite Less_String.
  - intros from to s v. unfold SortedMap_Between. rewrite AscendRange_Ascend.
    rewrite <- (elem_of_yields m (fun s => lessThan s (KeyString from) = false
                                         /\ lessThan s (KeyString to) = true)) by done.
    rewrite (list_filter_iff _ (fun k => lessThan (KeyString k) (KeyString from) = false
                                      /\ lessThan (KeyString k) (KeyString to) = true)); [done|].
    intros k. now rewrite !Less_String.
Qed.
End SortedMap.

(** ** Two writers

    Storing is a copy followed by a publication; nothing orders the writers. *)

Section Writers.
Context {K V : Type} {KK : Key K} {B : BTree K Less}.

Inductive writer : Type := Idle (op : mapOp (K := K) (V := V)) | Copied (s : snapshot (B := B) (V := V)) | Finished.

(** The copy that a writer has changed. *)
Definition changed (op : mapOp (K := K) (V := V)) (s : snapshot (B := B)) : snapshot (B := B) :=
  match op with OpStore k v => storeIn k v s | OpDelete k => deleteIn k s end.

Inductive writes : SortedMap (B := B) (V := V) * list writer -> SortedMap (B := B) (V := V) * list writer -> Prop :=
| writes_copy m ws i op :
    ws !! i = Some (Idle op) -> writes (m, ws) (m, <[i := Copied (changed op (copy m))]> ws)
| writes_publish m ws i s :
    ws !! i = Some (Copied s) -> writes (m, ws) (s, <[i := Finished]> ws).
End Writers.

(** ** Witnesses *)

Definition stringTree : BTree StringKey Less := keyTree (fun s : StringKey => s).

#[export] Instance stringTree_laws : BTreeLaws stringTree := keyTree_laws (fun s : StringKey => s).

Lemma SortedMap_refines_witness :
  bindings (SortedMap_All 0 (foldl (applyOp (B := stringTree)) NewSortedMap
    [OpStore "b" 2; OpStore "a" 1; OpStore "b" 3; OpStore "c" 4; OpDelete "c"]))
  ≡ₚ map_to_list (foldl specOp ∅ [OpStore "b" 2; OpStore "a" 1; OpStore "b" 3; OpStore "c" 4; OpDelete "c"]).
Proof. apply (SortedMap_refines (B := stringTree) 0). Defined.

Example sample_map :
  SortedMap_All 0 (foldl (applyOp (B := stringTree)) NewSortedMap
    [OpStore "b" 2; OpStore "a" 1; OpStore "b" 3; OpStore "c" 4; OpDelete "c"]) = [("a", 1); ("b", 3)].
Proof. reflexivity. Qed.

(** When two writers overlap, the change of one is lost although both finish. *)
Lemma lost_update :
  exists m, rtc writes (NewSortedMap (B := stringTree), [Idle (OpStore "a" 1); Idle (OpStore "b" 2)])
              (m, [Finished; Finished])
    /\ SortedMap_Load m "a" = None.
Proof.
  eexists. split; [|shelve].
  eapply rtc_l; [by apply (writes_copy _ _ 0%nat)|].
  eapply rtc_l; [by apply (writes_copy _ _ 1%nat)|].
  eapply rtc_l; [by apply (writes_publish _ _ 0%nat)|].
  eapply rtc_l; [by apply (writes_publish _ _ 1%nat)|]. apply rtc_refl.
  Unshelve. reflexivity.
Qed.
