(* ===== verification/Pgcache.v ===== *)
(** * Cached tables

    lib/pgcache: the notifications that caches exchange (notification_manager.go)
    and the tables cached in memory (table.go): reads from the cache, transactions
    that write to the database, then to the cache, and the loop that follows the
    notifications of the other processes.

    Postgres and the functions that a table is given to query it are the class
    [Database], the retrying of the package backoff is [Backoff], the encoding of a
    notification as JSON is [Json], and the order in which Go iterates over a map is
    [RangeOrder].  Metrics and logging are left out. *)

From stdpp Require Import gmap.
From S2P Require Import Prelude GoStrings GoBTree CacheMap.
#[local] Open Scope Z_scope.

(** ** types.go *)

Class FromString (K : Type) : Type := { fromString : string -> outcome K }.
Class Object (K T : Type) : Type := { ObjectKey : T -> K }.

(** ** Events *)

Definition ErrUnexpectedEvenType : error := PlainError "unexpected event type".

(** A byte. *)
Definition EvenType : Type := Z.
Definition EventTypeStore : EvenType := 0.
Definition EventTypeDelete : EvenType := 1.

Definition EvenType_String (et : EvenType) : string :=
  if et =? EventTypeStore then "store"
  else if et =? EventTypeDelete then "delete"
  else "unknown".

Record Event (K : Type) : Type := mkEvent { EventType : EvenType; EventKey : K }.
Arguments mkEvent {K}. Arguments EventType {K}. Arguments EventKey {K}.

Definition keymap : Type := gmap string EvenType.

Record payload : Type := mkPayload { ID : string; KeyMap : keymap }.

(** A message on a channel. *)
Record notification : Type := mkNotification { msgChannel : string; msgPayload : string }.

(** ** The environment *)

(** [json.Marshal] and [json.Unmarshal] of a payload. *)
Class Json : Type := {
  Marshal : payload -> outcome string;
  Unmarshal : string -> outcome payload
}.

(** Text that is valid UTF-8 and bytes are decoded as they were encoded. *)
Class JsonLaws (J : Json) : Prop := {
  Marshal_returns p : ends (Marshal p);
  Unmarshal_Marshal p raw :
    (forall k t, KeyMap p !! k = Some t -> ValidString k = true /\ 0 <= t < 256) ->
    Marshal p = Ok raw -> Unmarshal raw = Ok p
}.

(** The order of an iteration over a map, each time. *)
Class RangeOrder : Type := { rangeKeymap : nat -> keymap -> list (string * EvenType) }.
Class RangeOrderLaws (R : RangeOrder) : Prop := {
  rangeKeymap_all n m : Permutation (rangeKeymap n m) (map_to_list m)
}.

Record update (K T : Type) : Type := mkUpdate { ustore : option T; udelete : option K }.
Arguments mkUpdate {K T}. Arguments ustore {K T}. Arguments udelete {K T}.

(** Postgres, and the functions that list, get, store and delete the objects of
    the table.  Each call is given the number of calls before it. *)
Class Database (K T : Type) : Type := {
  DBTx : Type;
  poolBegin : nat -> outcome DBTx;
  listFunc : nat -> gmap string T -> outcome (list T);
  getFunc : nat -> list K -> gmap string T -> outcome (list T);
  storeFunc : nat -> list T -> DBTx -> outcome DBTx;
  deleteFunc : nat -> list K -> DBTx -> outcome DBTx;
  (** What is reported, and the rows that are left: a commit that is reported as failed
      may have been made. *)
  txCommit : nat -> DBTx -> gmap string T -> outcome unit * gmap string T;
  (** Whether Postgres has got the notification, and the error that is reported. *)
  pgNotify : nat -> bool * option error;
  pgListen : nat -> option error;
  waitError : nat -> error;
  (** What a transaction has written so far. *)
  txWrites : DBTx -> list (update K T)
}.

(** [backoff.Retry] with a maximal number of tries. *)
Class Backoff : Type := { Retry : forall {St A : Type}, nat -> Go St A -> Go St A }.

(** It calls the operation until it succeeds, at most that many times and at least
    once, and may give up earlier, as when the context is cancelled. *)
Inductive retried {St A} (f : Go St A) : nat -> St -> outcome A -> St -> Prop :=
| retried_ok n w a w' : f w = (Ok a, w') -> retried f (S n) w (Ok a) w'
| retried_panic n w p w' : f w = (Panic p, w') -> retried f (S n) w (Panic p) w'
| retried_diverge n w w' : f w = (Diverge, w') -> retried f (S n) w Diverge w'
| retried_giveUp n w e e' w' : f w = (Err e, w') -> retried f (S n) w (Err e') w'
| retried_again n w e w1 o w' :
    f w = (Err e, w1) -> retried f n w1 o w' -> retried f (S n) w o w'.

Class BackoffLaws (BO : Backoff) : Prop := {
  Retry_retried {St A} n (f : Go St A) w o w' :
    Retry (S n) f w = (o, w') -> retried f (S n) w o w'
}.

(** ** notification_manager.go *)

Record notificationManager : Type := mkManager { nmID : string; channel : string }.

Section Table.
Context {K T : Type} {KK : Key K} {FS : FromString K} {OB : Object K T} {B : BTree K Less}.
Context {J : Json} {R : RangeOrder} {D : Database K T} {BO : Backoff} {C : Context}.
Variable nm : notificationManager.

Definition Event_String (e : Event K) : string :=
  "(" +:+ EvenType_String (EventType e) +:+ ", " +:+ KeyString (EventKey e) +:+ ")".

(** The last event of each key. *)
Definition serialize (events : list (Event K)) : keymap :=
  fold_left (fun serialized event => <[KeyString (EventKey event) := EventType event]> serialized)
    events ∅.

Definition encode (events : list (Event K)) : outcome string :=
  match Marshal (mkPayload (nmID nm) (serialize events)) with
  | Err e => Err (Errorf "error while marshaling keys: %w" [e])
  | o => o
  end.

Fixpoint buildEvents (entries : list (string * EvenType)) : outcome (list (Event K)) :=
  match entries with
  | [] => Ok []
  | (str, t) :: entries' =>
      match fromString str with
      | Err e => Err (Errorf "error while building key from encoded %q: %w" [e])
      | o => key <-? o ;; events <-? buildEvents entries' ;; Ok (mkEvent t key :: events)
      end
  end.

Definition decode (n : nat) (raw : string) : outcome (string * list (Event K)) :=
  match Unmarshal raw with
  | Err e => Err (Errorf "error while unmarshaling keys: %w" [e])
  | o => p <-? o ;; events <-? buildEvents (rangeKeymap n (KeyMap p)) ;; Ok (ID p, events)
  end.

(** ** The process *)

(** The rows that the database has committed, the cache, the notifications that
    were sent and those that were received and not yet read, and the number of
    calls made so far. *)
Record PgWorld : Type := mkPg {
  rows : gmap string T;
  cache : SortedMap (B := B) (V := T);
  sent : list notification;
  inbox : list notification;
  calls : nat
}.

Definition call : Go PgWorld nat :=
  fun w => (Ok (calls w), mkPg (rows w) (cache w) (sent w) (inbox w) (S (calls w))).

Definition onCache (f : SortedMap (B := B) (V := T) -> SortedMap (B := B) (V := T)) : Go PgWorld unit :=
  modify (fun w => mkPg (rows w) (f (cache w)) (sent w) (inbox w) (calls w)).

Definition Notify (events : list (Event K)) : Go PgWorld unit :=
  if len events =? 0 then ret tt
  else
    raw <-- wrapf "error while encoding notification events: %w" [] (lift (encode events)) ;;
    n <-- call ;;
    let '(heard, err) := pgNotify n in
    (if (heard : bool)
     then modify (fun w => mkPg (rows w) (cache w) (sent w ++ [mkNotification (channel nm) raw])
                             (inbox w) (calls w))
     else ret tt) ;;;
    match err with
    | Some e => fail (Errorf "error while sending notification: %w" [e])
    | None => ret tt
    end.

Definition Listen : Go PgWorld unit :=
  n <-- call ;;
  match pgListen n with
  | Some e => fail (Errorf "error while listening: %w" [e])
  | None => ret tt
  end.

(** Messages are read until one of another process; when there is none, waiting
    ends with an error only. *)
Fixpoint nextEvents (messages : list notification) : Go PgWorld (list (Event K)) :=
  match messages with
  | [] => n <-- call ;; fail (waitError n)
  | msg :: messages' =>
      modify (fun w => mkPg (rows w) (cache w) (sent w) messages' (calls w)) ;;;
      if (msgChannel msg =? channel nm)%string then
        n <-- call ;;
        let! (id, events) :=
          wrapf "error while decoding notification payload: %w" [] (lift (decode n (msgPayload msg))) in
        if negb (id =? nmID nm)%string then ret events else nextEvents messages'
      else nextEvents messages'
  end.

Definition Next : Go PgWorld (list (Event K)) := w <-- get ;; nextEvents (inbox w).

(** ** table.go *)

Definition ErrInvalidUpdate : error := PlainError "invalid update".
Definition ErrAlreadyCommitted : error := PlainError "already committed".
Definition ErrUnexpectedAmountOfObjects : error := PlainError "unexpected about of objects".
Definition BackoffMaxRetries : nat := 3.

Record TableTx : Type := mkTableTx {
  ttxTx : DBTx (K := K) (T := T);
  updates : list (update K T);
  ttxCommitted : bool
}.

Definition Table_store (key : K) (object : T) : Go PgWorld unit :=
  onCache (fun m => SortedMap_Store m key object).

Definition Table_delete (key : K) : Go PgWorld unit := onCache (fun m => SortedMap_Delete m key).

Definition Table_Get (key : K) : Go PgWorld (option T) :=
  w <-- get ;; ret (SortedMap_Load (cache w) key).

(** The objects that the iterators give; [zero] is the zero value of their type. *)
Definition Table_List (zero : T) : Go PgWorld (list T) :=
  w <-- get ;; ret (map snd (SortedMap_All zero (cache w))).
Definition Table_From (zero : T) (key : K) : Go PgWorld (list T) :=
  w <-- get ;; ret (map snd (SortedMap_From zero (cache w) key)).
Definition Table_Between (zero : T) (from to : K) : Go PgWorld (list T) :=
  w <-- get ;; ret (map snd (SortedMap_Between zero (cache w) from to)).

Definition Table_Begin : Go PgWorld TableTx :=
  n <-- call ;;
  tx <-- wrapf "error while beginning transaction: %w" [] (lift (poolBegin n)) ;;
  ret (mkTableTx tx [] false).

Definition TableTx_Store (ttx : TableTx) (objects : list T) : Go PgWorld TableTx :=
  if ttxCommitted ttx then fail ErrAlreadyCommitted
  else
    n <-- call ;;
    tx <-- wrapf "error while performing the store operation: %w" []
      (lift (storeFunc n objects (ttxTx ttx))) ;;
    ret (mkTableTx tx (updates ttx ++ map (fun object => mkUpdate (Some object) None) objects) false).

Definition TableTx_Delete (ttx : TableTx) (keys : list K) : Go PgWorld TableTx :=
  if ttxCommitted ttx then fail ErrAlreadyCommitted
  else
    n <-- call ;;
    tx <-- wrapf "error while performing the delete operation: %w" []
      (lift (deleteFunc n keys (ttxTx ttx))) ;;
    ret (mkTableTx tx (updates ttx ++ map (fun key => mkUpdate None (Some key)) keys) false).

(** The events of the updates. *)
Fixpoint updateEvents (us : list (update K T)) : outcome (list (Event K)) :=
  match us with
  | [] => Ok []
  | u :: us' =>
      event <-? match ustore u, udelete u with
                | Some object, _ => Ok (mkEvent EventTypeStore (ObjectKey object))
                | None, Some key => Ok (mkEvent EventTypeDelete key)
                | None, None => Err ErrInvalidUpdate
                end ;;
      events <-? updateEvents us' ;;
      Ok (event :: events)
  end.

Definition applyUpdate (u : update K T) : Go PgWorld unit :=
  match ustore u, udelete u with
  | Some object, _ => Table_store (ObjectKey object) object
  | None, Some key => Table_delete key
  | None, None => fail ErrInvalidUpdate
  end.

(** Commit in three phases: the notification, the commit in the database, the
    changes to the cache. *)
Definition commitNotify (ttx : TableTx) : Go PgWorld unit :=
  events <-- lift (updateEvents (updates ttx)) ;;
  wrapf "error while sending notification during commit: %w" [] (Notify events).

Definition commitDatabase (ttx : TableTx) : Go PgWorld unit :=
  n <-- call ;;
  w <-- get ;;
  let '(o, rows') := txCommit n (ttxTx ttx) (rows w) in
  put (mkPg rows' (cache w) (sent w) (inbox w) (calls w)) ;;;
  wrapf "error while committing: %w" [] (lift o).

Definition commitCache (ttx : TableTx) : Go PgWorld unit :=
  forEach (updates ttx) tt (fun _ u => applyUpdate u).

Definition TableTx_Commit (ttx : TableTx) : Go PgWorld TableTx :=
  if ttxCommitted ttx then fail ErrAlreadyCommitted
  else
    commitNotify ttx ;;;
    commitDatabase ttx ;;;
    commitCache ttx ;;;
    ret (mkTableTx (ttxTx ttx) [] true).

(** The objects to refresh, each exactly once. *)
Definition fetch (refresh : list K) : Go PgWorld (list T) :=
  n <-- call ;;
  w <-- get ;;
  objects <-- wrapf "fetching %d objects to refresh: %w" [] (lift (getFunc n refresh (rows w))) ;;
  if negb (len objects =? len refresh)
  then fail (Errorf "%w: expected %d, got %d" [ErrUnexpectedAmountOfObjects])
  else ret objects.

Definition handleEvent (refresh : list K) (event : Event K) : Go PgWorld (list K) :=
  if EventType event =? EventTypeStore then ret (refresh ++ [EventKey event])
  else if EventType event =? EventTypeDelete then Table_delete (EventKey event) ;;; ret refresh
  else fail ErrUnexpectedEvenType.

Definition storeAll (objects : list T) : Go PgWorld unit :=
  forEach objects tt (fun _ object => Table_store (ObjectKey object) object).

Definition handleEvents (events : list (Event K)) : Go PgWorld unit :=
  refresh <-- forEach events [] handleEvent ;;
  if 0 <? len refresh then
    objects <-- wrapf "error while handling notification: %w" []
      (Retry BackoffMaxRetries (fetch refresh)) ;;
    storeAll objects
  else ret tt.

(** The loop of Run: it ends with the first error. *)
Fixpoint follow (fuel : nat) : Go PgWorld unit :=
  match fuel with
  | O => lift Diverge
  | S fuel' =>
      fun w =>
        match Next w with
        | (Err err, w') =>
            (n <-- call ;;
             match ctxErr n with
             | Some _ => ret tt
             | None => fail (Errorf "error while getting the next notification: %w" [err])
             end) w'
        | (Ok events, w') =>
            (wrapf "error while performing cache update due to notification: %w" []
               (handleEvents events) ;;;
             follow fuel') w'
        | (Panic p, w') => (Panic p, w')
        | (Diverge, w') => (Diverge, w')
        end
  end.

Definition populate : Go PgWorld unit :=
  n <-- call ;;
  w <-- get ;;
  objects <-- wrapf "error while fetching all objects to populate the cache: %w" []
    (lift (listFunc n (rows w))) ;;
  storeAll objects.

Definition Table_Run : Go PgWorld unit :=
  populate ;;;
  wrapf "error while setting up notifications listener: %w" [] Listen ;;;
  w <-- get ;;
  follow (S (length (inbox w))).
End Table.

(** ** What the database is documented to do *)

Section Laws.
Context {K T : Type} {KK : Key K} {OB : Object K T}.

(** An update of the rows. *)
Definition applyRow (d : gmap string T) (u : update K T) : gmap string T :=
  match ustore u, udelete u with
  | Some object, _ => <[KeyString (ObjectKey object) := object]> d
  | None, Some key => delete (KeyString key) d
  | None, None => d
  end.

(** Rows are found under the string of the key of their object. *)
Definition filedRows (d : gmap string T) : Prop :=
  forall s o, d !! s = Some o -> KeyString (ObjectKey o) = s.

(** Calls end, and a transaction keeps what is written to it. *)
Class DatabaseCalls (D : Database K T) : Prop := {
  poolBegin_ends n : ends (poolBegin n);
  listFunc_ends n d : ends (listFunc n d);
  getFunc_ends n keys d : ends (getFunc n keys d);
  storeFunc_ends n objects tx : ends (storeFunc n objects tx);
  deleteFunc_ends n keys tx : ends (deleteFunc n keys tx);
  txCommit_ends n tx d : ends (fst (txCommit n tx d));
  pgNotify_heard n : snd (pgNotify n) = None -> fst (pgNotify n) = true;
  poolBegin_writes n tx : poolBegin n = Ok tx -> txWrites tx = [];
  storeFunc_writes n objects tx tx' : storeFunc n objects tx = Ok tx' ->
    txWrites tx' = txWrites tx ++ map (fun object => mkUpdate (Some object) None) objects;
  deleteFunc_writes n keys tx tx' : deleteFunc n keys tx = Ok tx' ->
    txWrites tx' = txWrites tx ++ map (fun key => mkUpdate None (Some key)) keys
}.

(** Listing gives every row, getting gives the rows that exist among those asked
    for, each once; a transaction applies its writes in order when it commits; when its
    commit fails it has applied them all, as when the answer was lost, or none. *)
Class DatabaseLaws (D : Database K T) : Prop := {
  DatabaseLaws_calls :: DatabaseCalls D;
  txCommit_rows n tx d :
    match txCommit n tx d with
    | (Err _, d') => d' = d \/ d' = foldl applyRow d (txWrites tx)
    | (_, d') => d' = foldl applyRow d (txWrites tx)
    end;
  listFunc_rows n d l : listFunc n d = Ok l -> Permutation l (map snd (map_to_list d));
  getFunc_rows n keys d l : getFunc n keys d = Ok l -> NoDup (map KeyString keys) ->
    Permutation l (omap (fun k => d !! KeyString k) keys)
}.
End Laws.
