(* ===== verification/PgcacheSpec.v ===== *)
(** * What the cached tables guarantee to one process

    A notification carries the last event of each key; a transaction changes the
    rows and the cache alike, or leaves the cache; handling a notification makes the cache
    agree with the rows on the keys that it names. *)

From stdpp Require Import gmap.
From S2P Require Import Prelude GoStrings GoBTree CacheMap Pgcache.
#[local] Open Scope Z_scope.

(** ** Of any database whose calls end *)

Section Calls.
Context {K T : Type} {KK : Key K} {FS : FromString K} {OB : Object K T} {B : BTree K Less}.
Context {J : Json} {D : Database K T} {JL : JsonLaws J} {DC : DatabaseCalls D}.
Context (nm : notificationManager).
Local Abbreviation World := (PgWorld (K := K) (T := T) (B := B)).

(** ** Updates and their events *)

Definition validUpdate (u : update K T) : Prop := is_Some (ustore u) \/ is_Some (udelete u).

Definition updateKey (u : update K T) : option K :=
  match ustore u, udelete u with
  | Some object, _ => Some (ObjectKey object)
  | None, k => k
  end.

Lemma updateEvents_valid us : Forall validUpdate us -> exists evs, updateEvents us = Ok evs.
Proof using Type.
  induction 1 as [|u us Hu _ [evs IH]]; cbn; [by eexists|]. rewrite IH.
  unfold validUpdate in Hu. destruct (ustore u), (udelete u); cbn; eauto. destruct Hu as [[? [=]]|[? [=]]].
Qed.

(** The last event of a key tells what the updates leave under it. *)
Lemma updates_effect us evs (d : gmap string T) (m : keymap) s :
  updateEvents us = Ok evs ->
  let m' := fold_left (fun m e => <[KeyString (EventKey e) := EventType e]> m) evs m in
  let d' := foldl applyRow d us in
  (m' !! s = m !! s /\ d' !! s = d !! s)
  \/ (m' !! s = Some EventTypeStore /\ is_Some (d' !! s))
  \/ (m' !! s = Some EventTypeDelete /\ d' !! s = None).
Proof using Type.
  revert evs d m. induction us as [|u us IH]; intros evs d m H; cbn in H.
  { injection H as <-. now left. }
  apply obind_ok_inv in H as (e & He & H). apply obind_ok_inv in H as (evs' & Hevs & H).
  injection H as <-. cbn [fold_left foldl].
  destruct (IH evs' (applyRow d u) (<[KeyString (EventKey e) := EventType e]> m) Hevs)
    as [[H1 H2]|H]; [|now right].
  cbn zeta. rewrite H1, H2. unfold applyRow.
  destruct (ustore u) as [o|]; [|destruct (udelete u) as [k|]; [|done]]; injection He as <-; cbn.
  - destruct (decide (KeyString (ObjectKey o) = s)) as [<-|Hn].
    + right; left. split; [apply lookup_insert_eq | eexists; apply lookup_insert_eq].
    + left. split; by apply lookup_insert_ne.
  - destruct (decide (KeyString k = s)) as [<-|Hn].
    + right; right. split; [apply lookup_insert_eq | apply lookup_delete_eq].
    + left. split; [by apply lookup_insert_ne | by apply lookup_delete_ne].
Qed.

(** ** Transactions *)

(** The transactions that a program can build. *)
Inductive built : TableTx (D := D) -> Prop :=
| built_Begin w ttx w' : Table_Begin (B := B) w = (Ok ttx, w') -> built ttx
| built_Store ttx objects w ttx' w' :
    built ttx -> TableTx_Store (B := B) ttx objects w = (Ok ttx', w') -> built ttx'
| built_Delete ttx keys w ttx' w' :
    built ttx -> TableTx_Delete (B := B) ttx keys w = (Ok ttx', w') -> built ttx'.

(** Their updates are those written to the database. *)
Lemma built_tracked ttx :
  built ttx ->
  ttxCommitted ttx = false /\ txWrites (ttxTx ttx) = updates ttx /\ Forall validUpdate (updates ttx).
Proof using DC.
  induction 1 as [w ttx w' H|ttx objects w ttx' w' _ (H1 & H2 & H3) H|ttx keys w ttx' w' _ (H1 & H2 & H3) H].
  - unfold Table_Begin in H. go_inv. unfold lift in *. injection Hm0 as Hm0 _.
    cbn. eauto using poolBegin_writes.
  - unfold TableTx_Store in H. rewrite H1 in H. go_inv. unfold lift in *. injection Hm0 as Hm0 _.
    cbn. rewrite (storeFunc_writes _ _ _ _ Hm0), H2. split; [done|]. split; [done|].
    apply Forall_app. split; [done|]. apply Forall_map, Forall_true. left. cbn. eauto.
  - unfold TableTx_Delete in H. rewrite H1 in H. go_inv. unfold lift in *. injection Hm0 as Hm0 _.
    cbn. rewrite (deleteFunc_writes _ _ _ _ Hm0), H2. split; [done|]. split; [done|].
    apply Forall_app. split; [done|]. apply Forall_map, Forall_true. right. cbn. eauto.
Qed.

Lemma applyUpdate_cache u (w : World) :
  validUpdate u ->
  exists m, applyUpdate u w = (Ok tt, mkPg (rows w) m (sent w) (inbox w) (calls w))
            /\ vals m = applyRow (vals (cache w)) u.
Proof using Type.
  unfold validUpdate, applyUpdate, applyRow, Table_store, Table_delete, onCache, modify.
  destruct (ustore u) as [o|]; [|destruct (udelete u) as [k|]]; intros Hu.
  - by eexists.
  - by eexists.
  - destruct Hu as [[? [=]]|[? [=]]].
Qed.

Lemma applyUpdates_cache us (w : World) :
  Forall validUpdate us ->
  exists m, forEach us tt (fun _ u => applyUpdate u) w
            = (Ok tt, mkPg (rows w) m (sent w) (inbox w) (calls w))
            /\ vals m = foldl applyRow (vals (cache w)) us.
Proof using Type.
  revert w. induction us as [|u us IH]; intros w Hv.
  - exists (cache w). destruct w. done.
  - inversion Hv as [|? ? Hu Hus]; subst. destruct (applyUpdate_cache u w Hu) as (m & H1 & H2).
    cbn [forEach]. rewrite (bind_ok _ _ _ _ _ H1).
    destruct (IH (mkPg (rows w) m (sent w) (inbox w) (calls w)) Hus) as (m' & H3 & H4).
    exists m'. split; [exact H3|]. cbn in *. now rewrite H4, H2.
Qed.

(** The notification of a transaction. *)
Definition announces (ttx : TableTx (D := D)) (msgs : list notification) : Prop :=
  exists evs, updateEvents (updates ttx) = Ok evs
    /\ ((updates ttx = [] /\ msgs = [])
        \/ exists raw, encode nm evs = Ok raw /\ msgs = [mkNotification (channel nm) raw]).

Lemma updateEvents_length us evs : updateEvents us = Ok evs -> length evs = length us.
Proof using Type.
  revert evs. induction us as [|u us IH]; intros evs H; cbn in H; [now injection H as <-|].
  apply obind_ok_inv in H as (e & _ & H). apply obind_ok_inv in H as (evs' & Hevs & H).
  injection H as <-. cbn. now rewrite (IH evs').
Qed.

Lemma Notify_cases events (w : World) :
  match Notify nm events w with
  | (Ok _, w') => exists n msgs, w' = mkPg (rows w) (cache w) (sent w ++ msgs) (inbox w) n
      /\ ((events = [] /\ msgs = [])
          \/ exists raw, encode nm events = Ok raw /\ msgs = [mkNotification (channel nm) raw])
  | (Err _, w') => exists n msgs, w' = mkPg (rows w) (cache w) (sent w ++ msgs) (inbox w) n
      /\ (msgs = [] \/ exists raw, encode nm events = Ok raw /\ msgs = [mkNotification (channel nm) raw])
  | _ => False
  end.
Proof using JL DC.
  unfold Notify. destruct events as [|e events].
  { exists (calls w), []. split; [|by left]. rewrite app_nil_r. now destruct w. }
  replace (len (e :: events) =? 0) with false by (symmetry; apply Z.eqb_neq; len_lia).
  set (evs := e :: events). unfold bind, wrapf, lift, encode, call, modify, fail.
  pose proof (Marshal_returns (mkPayload (nmID nm) (serialize evs))) as HM.
  destruct (Marshal _) as [raw|er|p|]; try done.
  2: { exists (calls w), []. rewrite app_nil_r. split; [by destruct w|by left]. }
  pose proof (pgNotify_heard (D := D) (calls w)) as HH.
  destruct (pgNotify (Database := D) (calls w)) as [[] [e'|]]; cbn in *; try (by specialize (HH eq_refl));
    exists (S (calls w)).
  - exists [mkNotification (channel nm) raw]. split; [done|]. right. eauto.
  - exists [mkNotification (channel nm) raw]. split; [done|]. right. eauto.
  - exists []. rewrite app_nil_r. split; [done|by left].
Qed.

(** The cache after the updates. *)
Definition updateOp (u : update K T) : option (mapOp (K := K) (V := T)) :=
  match ustore u, udelete u with
  | Some o, _ => Some (OpStore (ObjectKey o) o)
  | None, Some k => Some (OpDelete k)
  | None, None => None
  end.

Lemma applyUpdates_ops us (w w' : World) :
  forEach us tt (fun _ u => applyUpdate u) w = (Ok tt, w') ->
  cache w' = foldl applyOp (cache w) (omap updateOp us).
Proof using Type.
  revert w. induction us as [|u us IH]; intros w H; cbn [forEach] in H.
  { by injection H as <-. }
  unfold bind, applyUpdate, Table_store, Table_delete, onCache, modify, fail in H.
  cbn [omap list_omap]. unfold updateOp at 1. cbn.
  destruct (ustore u) as [e|]; [|destruct (udelete u) as [k|]; [|discriminate]];
    rewrite (IH _ H); done.
Qed.

(** A commit reaches the cache, or fails and leaves it. *)
Lemma Commit_cache ttx (w : World) :
  built ttx ->
  match TableTx_Commit nm ttx w with
  | (Ok _, w') => vals (cache w') = foldl applyRow (vals (cache w)) (updates ttx)
      /\ cache w' = foldl applyOp (cache w) (omap updateOp (updates ttx))
  | (Err _, w') => cache w' = cache w
  | _ => False
  end.
Proof using DC JL.
  intros (Hc & Hw & Hv)%built_tracked. unfold TableTx_Commit, commitNotify. rewrite Hc.
  destruct (updateEvents_valid _ Hv) as [evs He]. unfold bind. cbn. rewrite He. unfold lift.
  unfold wrapf. pose proof (Notify_cases evs w) as HN.
  destruct (Notify nm evs w) as [[[]|e|p|] w1]; try done; [|by destruct HN as (n & msgs & -> & _)].
  destruct HN as (n & msgs & -> & Hm). unfold commitDatabase, bind, wrapf, lift, call, get, put. cbn.
  pose proof (txCommit_ends n (ttxTx ttx) (rows w)) as Ht.
  destruct (txCommit n (ttxTx ttx) (rows w)) as [[[]|e|p|] d] eqn:Et; try done. cbn. unfold commitCache.
  pose (w2 := mkPg d (cache w) (sent w ++ msgs) (inbox w) (S n) : World).
  destruct (applyUpdates_cache (updates ttx) w2 Hv) as (m & E & Hm').
  pose proof (applyUpdates_ops _ _ _ E) as Ho. unfold w2 in *. cbn in *. by rewrite E.
Qed.
End Calls.

(** ** Of a database that applies what is committed *)

Section Spec.
Context {K T : Type} {KK : Key K} {FS : FromString K} {OB : Object K T} {B : BTree K Less}.
Context {J : Json} {R : RangeOrder} {D : Database K T} {BO : Backoff} {C : Context}.
Context {JL : JsonLaws J} {RL : RangeOrderLaws R} {DL : DatabaseLaws D} {BL : BackoffLaws BO}.
Context (nm : notificationManager).
Local Abbreviation World := (PgWorld (K := K) (T := T) (B := B)).

(** What a commit that fails has done all the same: nothing, sent its notification, or
    that and changed the rows. *)
Definition mayHaveCommitted (ttx : TableTx) (w w' : World) : Prop :=
  rows w' = rows w /\ sent w' = sent w
  \/ (exists msgs, announces nm ttx msgs /\ sent w' = sent w ++ msgs)
     /\ (rows w' = rows w \/ rows w' = foldl applyRow (rows w) (updates ttx)).

Lemma Notify_announces ttx evs msgs :
  updateEvents (updates ttx) = Ok evs ->
  ((evs = [] /\ msgs = []) \/ exists raw, encode nm evs = Ok raw /\ msgs = [mkNotification (channel nm) raw]) ->
  announces nm ttx msgs.
Proof using Type.
  intros He Hm. exists evs. split; [done|]. destruct Hm as [[-> ->]|Hm]; [left|by right].
  apply updateEvents_length in He. destruct (updates ttx); [done|discriminate].
Qed.

Lemma Commit_cases ttx (w : World) :
  built ttx ->
  match TableTx_Commit nm ttx w with
  | (Ok ttx', w') =>
      ttxCommitted ttx' = true
      /\ rows w' = foldl applyRow (rows w) (updates ttx)
      /\ vals (cache w') = foldl applyRow (vals (cache w)) (updates ttx)
      /\ (exists msgs, announces nm ttx msgs /\ sent w' = sent w ++ msgs) /\ inbox w' = inbox w
  | (Err _, w') => cache w' = cache w /\ inbox w' = inbox w /\ mayHaveCommitted ttx w w'
  | _ => False
  end.
Proof using DL JL.
  intros (Hc & Hw & Hv)%built_tracked. unfold TableTx_Commit, commitNotify. rewrite Hc.
  destruct (updateEvents_valid _ Hv) as [evs He]. unfold bind. cbn. rewrite He. unfold lift.
  unfold wrapf. pose proof (Notify_cases nm evs w) as HN.
  destruct (Notify nm evs w) as [[[]|e|p|] w1]; try done.
  2: { destruct HN as (n & msgs & -> & Hm). split; [done|]. split; [done|]. unfold mayHaveCommitted. cbn.
    destruct Hm as [->|Hm]; [left; by rewrite app_nil_r|right]. split; [|by left].
    exists msgs. split; [|done]. apply (Notify_announces _ evs); [done|by right]. }
  destruct HN as (n & msgs & -> & Hm). unfold commitDatabase, bind, wrapf, lift, call, get, put. cbn.
  pose proof (txCommit_ends n (ttxTx ttx) (rows w)) as Ht.
  pose proof (txCommit_rows n (ttxTx ttx) (rows w)) as Hd.
  destruct (txCommit n (ttxTx ttx) (rows w)) as [[[]|e|p|] d] eqn:Et; try done; cbn; rewrite Hw in Hd.
  2: { split; [done|]. split; [done|]. right. cbn. split; [|done]. exists msgs. split; [|done].
    by apply (Notify_announces _ evs). }
  subst d. unfold commitCache.
  destruct (applyUpdates_cache (updates ttx)
    (mkPg (foldl applyRow (rows w) (updates ttx)) (cache w) (sent w ++ msgs) (inbox w) (S n)) Hv)
    as (m & -> & Hm'). cbn in *.
  split; [done|]. split; [done|]. split; [done|]. split; [|done]. exists msgs. split; [|done].
  by apply (Notify_announces _ evs).
Qed.

(** C12: When Commit succeeds, the database and the cache have the updates of the
    transaction, in order, a cache that agreed with the rows still does, and the other
    processes are sent one notification (none, if there is nothing to say); committing
    again is refused.  When it fails the cache has not changed; the rows have not
    either, or the database made a commit that it reported as failed: they have all the
    updates, which were announced. *)
Theorem Commit_coherent (ttx : TableTx) (w : World) :
  built ttx -> vals (cache w) = rows w ->
  match TableTx_Commit nm ttx w with
  | (Ok ttx', w') =>
      rows w' = foldl applyRow (rows w) (updates ttx) /\ vals (cache w') = rows w'
      /\ (exists msgs, announces nm ttx msgs /\ sent w' = sent w ++ msgs)
      /\ fst (TableTx_Commit nm ttx' w') = Err ErrAlreadyCommitted
  | (Err _, w') => cache w' = cache w /\ mayHaveCommitted ttx w w'
  | _ => False
  end.
Proof using DL JL.
  intros Hb Hw. pose proof (Commit_cases ttx w Hb) as H.
  destruct (TableTx_Commit nm ttx w) as [[ttx'|e|p|] w']; try done.
  - destruct H as (Hc & H1 & H2 & H3 & _). split; [done|]. split; [now rewrite H1, H2, Hw|].
    split; [done|]. unfold TableTx_Commit. now rewrite Hc.
  - by destruct H as (-> & _ & H).
Qed.

(** ** Notifications *)

Definition eventPair (e : Event K) : string * EvenType := (KeyString (EventKey e), EventType e).
Definition eventString (e : Event K) : string := KeyString (EventKey e).

(** A key that survives the way through its string and JSON. *)
Definition goodKey (k : K) : Prop :=
  ValidString (KeyString k) = true
  /\ exists k', fromString (KeyString k) = Ok k' /\ KeyString k' = KeyString k.

Local Abbreviation ins := (fun (m : keymap) (e : Event K) => <[KeyString (EventKey e) := EventType e]> m).

Lemma serialize_notin (evs : list (Event K)) (m : keymap) s :
  s ∉ map eventString evs -> fold_left ins evs m !! s = m !! s.
Proof using Type.
  revert m. induction evs as [|e evs IH]; intros m Hs; cbn; [done|].
  cbn in Hs. apply not_elem_of_cons in Hs as [H1 H2]. rewrite IH by done. by apply lookup_insert_ne.
Qed.

Lemma serialize_in (evs : list (Event K)) (m : keymap) s t :
  fold_left ins evs m !! s = Some t -> m !! s = Some t \/ (s, t) ∈ map eventPair evs.
Proof using Type.
  revert m. induction evs as [|e evs IH]; intros m; cbn; [auto|].
  intros [H|H]%IH; [|right; by right].
  apply lookup_insert_Some in H as [[<- <-]|[_ H]]; [right; by left | by left].
Qed.

Lemma serialize_nodup (evs : list (Event K)) s t :
  NoDup (map eventString evs) -> serialize evs !! s = Some t <-> (s, t) ∈ map eventPair evs.
Proof using Type.
  intros Hn. split.
  - intros [H|H]%serialize_in; [|done]. destruct (lookup_empty_Some _ _ H).
  - unfold serialize. generalize (∅ : keymap).
    induction evs as [|e evs IH]; intros m; [by intros H%elem_of_nil|]. cbn in *.
    inversion Hn as [|? ? H1 H2]; subst. intros [H|H]%elem_of_cons; [|by apply IH].
    injection H as -> ->. rewrite serialize_notin by done. apply lookup_insert_eq.
Qed.

Lemma buildEvents_pairs entries :
  (forall s t, (s, t) ∈ entries -> exists k, fromString s = Ok k /\ KeyString k = s) ->
  exists evs, buildEvents entries = Ok evs /\ map eventPair evs = entries.
Proof using Type.
  induction entries as [|[s t] entries IH]; intros H; cbn; [by exists []|].
  destruct (H s t) as (k & Hk & <-); [left|]. rewrite Hk. cbn.
  destruct IH as (evs & -> & <-); [intros s t' Hs; apply (H s t'); by right|]. cbn. by eexists.
Qed.

Lemma eventPair_fst evs : map fst (map eventPair evs) = map eventString evs.
Proof using Type. rewrite map_map. done. Qed.

Lemma elem_rangeKeymap n (m : keymap) s t : (s, t) ∈ rangeKeymap n m <-> m !! s = Some t.
Proof using RL. rewrite rangeKeymap_all. apply elem_of_map_to_list. Qed.

(** Decoding a payload whose keys are strings of keys. *)
Lemma decode_known n raw (p : payload) :
  Unmarshal raw = Ok p ->
  (forall s t, KeyMap p !! s = Some t -> exists k, fromString s = Ok k /\ KeyString k = s) ->
  exists evs, decode n raw = Ok (ID p, evs) /\ NoDup (map eventString evs) /\ serialize evs = KeyMap p.
Proof using RL.
  intros Hu Hs. destruct (buildEvents_pairs (rangeKeymap n (KeyMap p))) as (evs & Hb & Hp).
  { intros s t H%elem_rangeKeymap. by apply (Hs s t). }
  exists evs. unfold decode. rewrite Hu. cbn. rewrite Hb. cbn. split; [done|].
  assert (NoDup (map eventString evs)) as Hn.
  { rewrite <- eventPair_fst, Hp, rangeKeymap_all. apply NoDup_fst_map_to_list. }
  split; [done|]. apply map_eq. intros s. apply option_eq. intros t.
  rewrite serialize_nodup, Hp by done. apply elem_rangeKeymap.
Qed.

(** The keys of an encoded notification are those of its events. *)
Lemma encode_payload events raw :
  (forall e, e ∈ events -> goodKey (EventKey e) /\ 0 <= EventType e < 256) ->
  encode nm events = Ok raw ->
  Unmarshal raw = Ok (mkPayload (nmID nm) (serialize events))
  /\ forall s t, serialize events !! s = Some t ->
       (exists k, fromString s = Ok k /\ KeyString k = s) /\ exists e, e ∈ events /\ t = EventType e.
Proof using JL.
  intros Hg He. unfold encode in He. destruct (Marshal _) as [raw'|e|p|] eqn:Hm; try done.
  injection He as ->.
  assert (forall s t, serialize events !! s = Some t ->
    exists e, e ∈ events /\ s = KeyString (EventKey e) /\ t = EventType e) as Hs.
  { intros s t [H|H]%serialize_in; [destruct (lookup_empty_Some _ _ H)|].
    apply list_elem_of_fmap in H as (e & [= -> ->] & He). eauto. }
  split.
  - apply Unmarshal_Marshal; [|done]. intros s t (e & He & -> & ->)%Hs. destruct (Hg e He) as [[] ]. done.
  - intros s t (e & He & -> & ->)%Hs. destruct (Hg e He) as [[_ (k & H1 & H2)] _].
    split; [by exists k | by exists e].
Qed.

(** A notification carries the last event of each key: what one process
    encodes, another decodes, whatever the order of its iteration, to events of
    distinct keys that stand for the same changes, with the sender's identifier. *)
Theorem notification_roundtrip (n : nat) (events : list (Event K)) (raw : string) :
  (forall e, e ∈ events -> goodKey (EventKey e) /\ 0 <= EventType e < 256) ->
  encode nm events = Ok raw ->
  exists evs, decode n raw = Ok (nmID nm, evs)
    /\ NoDup (map eventString evs) /\ serialize evs = serialize events.
Proof using JL RL.
  intros Hg [Hu Hs]%encode_payload; [|done].
  apply (decode_known n raw _ Hu). intros s t H. by apply Hs in H as [H _].
Qed.

(** ** Handling a notification *)

(** Nothing but the cache and the number of calls changes. *)
Definition unread (w w' : World) : Prop :=
  rows w' = rows w /\ sent w' = sent w /\ inbox w' = inbox w.

Lemma unread_trans w1 w2 w3 : unread w1 w2 -> unread w2 w3 -> unread w1 w3.
Proof using Type. unfold unread. intuition congruence. Qed.

Lemma fetch_cases refresh (w : World) :
  let '(o, w') := fetch refresh w in
  ends o /\ cache w' = cache w /\ unread w w'
  /\ forall l, o = Ok l -> exists n, getFunc n refresh (rows w) = Ok l /\ len l = len refresh.
Proof using DL.
  unfold fetch, bind, call, get, wrapf, lift. cbn.
  pose proof (getFunc_ends (calls w) refresh (rows w)) as He.
  destruct (getFunc _ _ _) as [l|e|p|] eqn:E; try done.
  destruct (Z.eqb_spec (len l) (len refresh)) as [Hl|Hl]; cbn; (split; [done|]); (split; [done|]);
    (split; [done|]); [|done].
  intros l' [= <-]. eauto.
Qed.

Lemma retried_fetch n refresh (w w' : World) o :
  retried (fetch refresh) n w o w' ->
  ends o /\ cache w' = cache w /\ unread w w'
  /\ forall l, o = Ok l -> exists n, getFunc n refresh (rows w) = Ok l /\ len l = len refresh.
Proof using DL.
  induction 1 as [n w a w' H|n w p w' H|n w w' H|n w e e' w' H|n w e w1 o w' H _ IH];
    pose proof (fetch_cases refresh w) as F; rewrite H in F.
  - exact F.
  - now destruct F.
  - now destruct F.
  - destruct F as (_ & H1 & H2 & _). done.
  - destruct F as (_ & H1 & H2 & _). destruct IH as (H3 & H4 & H5 & H6).
    split; [done|]. split; [congruence|]. split; [by eapply unread_trans|].
    destruct H2 as (<- & _). exact H6.
Qed.

Lemma length_omap_le {A X} (f : A -> option X) (l : list A) : (length (omap f l) <= length l)%nat.
Proof using Type. induction l as [|a l IH]; cbn; [lia|]. destruct (f a); cbn; lia. Qed.

Lemma omap_full {A X} (f : A -> option X) (l : list A) :
  length (omap f l) = length l -> Forall (fun a => is_Some (f a)) l.
Proof using Type.
  induction l as [|a l IH]; intros H; [constructor|]. cbn in H. pose proof (length_omap_le f l).
  destruct (f a) eqn:E; cbn in H; [|lia]. constructor; [by eexists|]. apply IH. lia.
Qed.

(** Storing objects files each under its key. *)
Lemma storeAll_cases (objects : list T) (w : World) :
  exists m, storeAll objects w = (Ok tt, mkPg (rows w) m (sent w) (inbox w) (calls w))
    /\ forall s, (vals m !! s = vals (cache w) !! s
                  /\ forall o, o ∈ objects -> KeyString (ObjectKey o) <> s)
                 \/ exists o, o ∈ objects /\ KeyString (ObjectKey o) = s /\ vals m !! s = Some o.
Proof using Type.
  revert w. induction objects as [|o objects IH]; intros w.
  - exists (cache w). split; [by destruct w|]. intros s. left. split; [done|]. by intros o H%elem_of_nil.
  - set (w1 := mkPg (rows w) (SortedMap_Store (cache w) (ObjectKey o) o) (sent w) (inbox w) (calls w)).
    destruct (IH w1) as (m & H1 & H2). exists m.
    split; [exact H1|]. intros s. destruct (H2 s) as [[H3 H4]|(o' & H3 & H4)].
    + cbn in H3. destruct (decide (KeyString (ObjectKey o) = s)) as [<-|Hn].
      * right. exists o. split; [left|]. split; [done|]. rewrite H3. apply lookup_insert_eq.
      * left. split; [rewrite H3; by apply lookup_insert_ne|].
        intros o' [->|Ho]%elem_of_cons; auto.
    + right. exists o'. split; [by right|done].
Qed.

Definition storeKeys (events : list (Event K)) : list K :=
  map EventKey (filter (fun e => EventType e = EventTypeStore) events).

Lemma handleEvent_loop events refresh (w : World) :
  match forEach events refresh handleEvent w with
  | (Ok refresh', w') =>
      refresh' = refresh ++ storeKeys events /\ unread w w'
      /\ (forall s t, (s, t) ∈ map eventPair events -> t = EventTypeStore \/ t = EventTypeDelete)
      /\ forall s, vals (cache w') !! s = vals (cache w) !! s
                    /\ (s, EventTypeDelete) ∉ map eventPair events
                   \/ vals (cache w') !! s = None /\ (s, EventTypeDelete) ∈ map eventPair events
  | (Err _, w') => unread w w'
  | _ => False
  end.
Proof using Type.
  revert refresh w. induction events as [|e events IH]; intros refresh w.
  { cbn. split; [by rewrite app_nil_r|]. split; [done|].
    split; [by intros s t H%elem_of_nil|]. intros s. left. split; [done|]. by intros H%elem_of_nil. }
  cbn [forEach]. unfold bind, handleEvent at 1.
  destruct (Z.eqb_spec (EventType e) EventTypeStore) as [Es|Es];
    [|destruct (Z.eqb_spec (EventType e) EventTypeDelete) as [Ed|Ed]; [|done]].
  - cbn [ret]. specialize (IH (refresh ++ [EventKey e]) w).
    destruct (forEach events _ handleEvent w) as [[r|er|p|] w']; try done.
    destruct IH as (-> & H2 & H3 & H4). split.
    { unfold storeKeys. rewrite filter_cons_True by done. cbn. by rewrite <- app_assoc. }
    split; [done|]. split.
    + intros s t [[= -> ->]|H]%elem_of_cons; eauto.
    + intros s. cbn [map]. rewrite elem_of_cons.
      assert ((s, EventTypeDelete) <> eventPair e) by (intros [= _ E]; rewrite Es in E; discriminate).
      destruct (H4 s) as [[]|[]]; [left|right]; tauto.
  - unfold bind, Table_delete, onCache, modify. cbn [ret].
    set (w1 := mkPg (rows w) (SortedMap_Delete (cache w) (EventKey e)) (sent w) (inbox w) (calls w)).
    specialize (IH refresh w1).
    destruct (forEach events _ handleEvent w1) as [[r|er|p|] w']; try done.
    destruct IH as (-> & H2 & H3 & H4). split.
    { unfold storeKeys. by rewrite filter_cons_False. }
    split; [done|]. split.
    + intros s t [[= -> ->]|H]%elem_of_cons; eauto.
    + intros s. cbn [map]. rewrite elem_of_cons. cbn in H4. specialize (H4 s).
      destruct (decide (KeyString (EventKey e) = s)) as [<-|Hn].
      * right. split; [|left; unfold eventPair; by rewrite Ed].
        destruct H4 as [[-> _]|[-> _]]; [apply lookup_delete_eq | done].
      * assert ((s, EventTypeDelete) <> eventPair e) by (intros [= E _]; by apply Hn).
        rewrite lookup_delete_ne in H4 by done. destruct H4 as [[]|[]]; [left|right]; tauto.
Qed.

Lemma elem_storeKeys events k :
  k ∈ storeKeys events -> (KeyString k, EventTypeStore) ∈ map eventPair events.
Proof using Type.
  unfold storeKeys. rewrite list_elem_of_fmap. intros (e & -> & [<- He]%list_elem_of_filter).
  apply list_elem_of_fmap. by exists e.
Qed.

Lemma storeKeys_elem events s :
  (s, EventTypeStore) ∈ map eventPair events -> exists k, k ∈ storeKeys events /\ KeyString k = s.
Proof using Type.
  rewrite list_elem_of_fmap. intros (e & [= -> E] & He). exists (EventKey e). split; [|done].
  apply list_elem_of_fmap. exists e. split; [done|]. apply list_elem_of_filter. by rewrite <- E.
Qed.

Lemma NoDup_storeKeys events : NoDup (map eventString events) -> NoDup (map KeyString (storeKeys events)).
Proof using Type.
  unfold storeKeys. rewrite map_map.
  induction events as [|e events IH]; intros H; [constructor|]. inversion H as [|? ? H1 H2]; subst.
  rewrite filter_cons. destruct (decide _); [|auto]. cbn [map]. constructor; [|auto].
  rewrite list_elem_of_fmap. intros (e' & E & [_ He']%list_elem_of_filter). apply H1.
  apply list_elem_of_fmap. exists e'. split; [exact E|done].
Qed.

(** The objects that were fetched are the rows of the keys asked for, all of which
    exist. *)
Lemma fetched_rows n refresh (d : gmap string T) l :
  NoDup (map KeyString refresh) -> getFunc n refresh d = Ok l -> len l = len refresh ->
  (forall k, k ∈ refresh -> exists o, d !! KeyString k = Some o /\ o ∈ l)
  /\ (forall o, o ∈ l -> exists k, k ∈ refresh /\ d !! KeyString k = Some o).
Proof using DL.
  intros Hn Hg Hl. pose proof (getFunc_rows _ _ _ _ Hg Hn) as Hp.
  assert (Forall (fun k => is_Some (d !! KeyString k)) refresh) as Hf.
  { apply omap_full. rewrite <- Hp. unfold len in Hl. lia. }
  rewrite Forall_forall in Hf. split.
  - intros k Hk. destruct (Hf k Hk) as [o Ho]. exists o. split; [done|].
    rewrite Hp. apply list_elem_of_omap. eauto.
  - intros o. rewrite Hp, list_elem_of_omap. done.
Qed.

(** What is left to refresh after the loop over the events, and what was deleted. *)
Definition looped (events : list (Event K)) (w w1 : World) : Prop :=
  forall s, match serialize events !! s with
  | Some t => t = EventTypeStore /\ (exists k, k ∈ storeKeys events /\ KeyString k = s)
              \/ t = EventTypeDelete /\ vals (cache w1) !! s = None
                 /\ forall k, k ∈ storeKeys events -> KeyString k <> s
  | None => vals (cache w1) !! s = vals (cache w) !! s
            /\ forall k, k ∈ storeKeys events -> KeyString k <> s
  end.

Lemma handleEvent_looped events (w : World) :
  NoDup (map eventString events) ->
  match forEach events [] handleEvent w with
  | (Ok refresh, w1) => refresh = storeKeys events /\ unread w w1 /\ looped events w w1
  | (Err _, w1) => unread w w1
  | _ => False
  end.
Proof using Type.
  intros Hn. pose proof (handleEvent_loop events [] w) as HL.
  destruct (forEach events [] handleEvent w) as [[refresh|e|p|] w1]; try done.
  destruct HL as (-> & Hu & Ht & Hc). split; [done|]. split; [done|].
  intros s. pose proof (serialize_nodup events s) as Hser.
  destruct (serialize events !! s) as [t|].
  - assert ((s, t) ∈ map eventPair events) as Hin by (by apply Hser).
    destruct (Ht s t Hin) as [->| ->]; [left|right].
    + split; [done|]. by apply storeKeys_elem.
    + split; [done|]. split; [by destruct (Hc s) as [[]|[]]|].
      intros k Hk%elem_storeKeys <-. pose proof (proj2 (Hser _ Hn) Hk). discriminate.
  - split.
    + destruct (Hc s) as [[]|[_ Hin]]; [done|]. by apply Hser in Hin.
    + intros k Hk%elem_storeKeys <-. by apply Hser in Hk.
Qed.

(** What handling a notification leaves in the cache: the keys stored, which must
    have a row, have their row; those deleted have no value; the others have the
    value that they had. *)
Definition refreshed (events : list (Event K)) (w w' : World) : Prop :=
  forall s, match serialize events !! s with
  | Some t => t = EventTypeStore /\ is_Some (rows w !! s) /\ vals (cache w') !! s = rows w !! s
              \/ t = EventTypeDelete /\ vals (cache w') !! s = None
  | None => vals (cache w') !! s = vals (cache w) !! s
  end.

Lemma stored_refreshed events n (w w1 w2 : World) l m :
  NoDup (map eventString events) -> filedRows (rows w) ->
  looped events w w1 -> cache w2 = cache w1 ->
  getFunc n (storeKeys events) (rows w) = Ok l -> len l = len (storeKeys events) ->
  storeAll l w2 = (Ok tt, m) -> refreshed events w m.
Proof using DL.
  intros Hn Hf Hs Hcache Hg Hlen Hst s.
  destruct (fetched_rows _ _ _ _ (NoDup_storeKeys events Hn) Hg Hlen) as [Hkeys Hobjs].
  assert (forall o, o ∈ l -> exists k, k ∈ storeKeys events /\ KeyString k = KeyString (ObjectKey o)
                               /\ rows w !! KeyString k = Some o) as Hobjs'.
  { intros o Ho. destruct (Hobjs o Ho) as (k & Hk & Hrow). exists k. split; [done|].
    split; [|done]. symmetry. by apply Hf. }
  destruct (storeAll_cases l w2) as (m' & E & Hm). rewrite E in Hst. injection Hst as <-. cbn.
  specialize (Hs s). specialize (Hm s). rewrite Hcache in Hm.
  destruct (serialize events !! s) as [t|].
  - destruct Hs as [(-> & k & Hk & <-)|(-> & Hv & Hno)]; [left|right]; (split; [done|]).
    + destruct (Hkeys k Hk) as (o & Hrow & Ho). split; [by eexists|].
      destruct Hm as [[_ Hm]|(o' & Ho' & E' & ->)]; [destruct (Hm o Ho); by apply Hf|].
      destruct (Hobjs' o' Ho') as (k' & _ & E'' & <-). congruence.
    + destruct Hm as [[-> _]|(o & Ho & E' & _)]; [done|].
      destruct (Hobjs' o Ho) as (k & Hk & E'' & _). destruct (Hno k Hk). congruence.
  - destruct Hs as [<- Hno]. destruct Hm as [[-> _]|(o & Ho & E' & _)]; [done|].
    destruct (Hobjs' o Ho) as (k & Hk & E'' & _). destruct (Hno k Hk). congruence.
Qed.

Lemma handleEvents_cases events (w : World) :
  NoDup (map eventString events) -> filedRows (rows w) ->
  match handleEvents events w with
  | (Ok _, w') => unread w w' /\ refreshed events w w'
  | (Err _, w') => unread w w'
  | _ => False
  end.
Proof using DL BL.
  intros Hn Hf. unfold handleEvents, bind at 1. pose proof (handleEvent_looped events w Hn) as HL.
  destruct (forEach events [] handleEvent w) as [[refresh|e|p|] w1]; try done.
  destruct HL as (-> & Hu & Hs). destruct (storeKeys events) as [|k0 ks] eqn:Ek.
  { split; [done|]. intros s. specialize (Hs s). rewrite Ek in Hs.
    destruct (serialize events !! s) as [t|]; [|apply Hs].
    destruct Hs as [(_ & k & Hk%elem_of_nil & _)|(-> & -> & _)]; [done|by right]. }
  rewrite <- Ek. replace (0 <? len (storeKeys events)) with true
    by (rewrite Ek; symmetry; apply Z.ltb_lt; len_lia).
  unfold bind, wrapf. destruct (Retry BackoffMaxRetries (fetch (storeKeys events)) w1) as [o w2] eqn:ER.
  apply Retry_retried, retried_fetch in ER as (He & Hcache & Hu2 & Hl).
  pose proof (unread_trans _ _ _ Hu Hu2) as Hu3.
  destruct o as [l|e|p|]; try done. destruct (Hl l eq_refl) as (n & Hg & Hlen).
  rewrite (proj1 Hu) in Hg. pose proof (storeAll_cases l w2) as (m & Hst & _).
  rewrite Hst. split; [exact Hu3|]. by eapply stored_refreshed.
Qed.
End Spec.
