(* ===== verification/PgReplicas.v ===== *)
(** * Processes that share a table

    Several processes hold a cached table each over the same database: lib/pgcache
    put together.  A transaction of one of them notifies the others, commits in the
    database and changes its own cache, in three steps between which others act; a
    process reads its notifications one at a time.

    The caches are meant to be eventually consistent.  They are when a notification
    is never handled before the commit that it announces, and when no process writes
    to a key of which it has still to hear ([replicas_converge]).  Nothing in the
    code ensures either, and without them a cache may stay wrong for ever. *)

From stdpp Require Import gmap.
From S2P Require Import Prelude GoStrings GoBTree CacheMap Pgcache PgcacheSpec.
#[local] Open Scope Z_scope.

Section Replicas.
Context {K T : Type} {KK : Key K} {FS : FromString K} {OB : Object K T} {B : BTree K Less}.
Context {J : Json} {R : RangeOrder} {D : Database K T} {BO : Backoff} {C : Context}.
Context (ch : string).
Local Abbreviation World := (PgWorld (K := K) (T := T) (B := B)).

(** ** The system *)

Record Replica : Type := mkReplica {
  rid : string;
  rcache : SortedMap (B := B) (V := T);
  rinbox : list notification;
  ralive : bool
}.

(** The rows, the processes, and the transactions under way: the process, and
    whether the database has committed. *)
Record Sys : Type := mkSys {
  srows : gmap string T;
  replicas : list Replica;
  inflight : list (nat * bool * TableTx (D := D));
  scalls : nat
}.

Definition manager (r : Replica) : notificationManager := mkManager (rid r) ch.

Definition worldOf (s : Sys) (r : Replica) : World :=
  mkPg (srows s) (rcache r) [] (rinbox r) (scalls s).

(** Postgres gives a notification to every process that listens, its sender
    included. *)
Definition deliverTo (msgs : list notification) (r : Replica) : Replica :=
  mkReplica (rid r) (rcache r) (rinbox r ++ msgs) (ralive r).

(** The process [i] has run and left its world as [w]. *)
Definition ran (s : Sys) (i : nat) (r : Replica) (alive : bool) (w : World)
    (fl : list (nat * bool * TableTx)) : Sys :=
  mkSys (rows w)
    (map (deliverTo (sent w)) (<[i := mkReplica (rid r) (cache w) (inbox w) alive]> (replicas s)))
    fl (calls w).

(** A process reads its messages up to one of another process and handles it; an
    error ends its loop. *)
Inductive receive : Sys -> Sys -> Prop :=
| receive_intro s j r events w1 o w2 :
    replicas s !! j = Some r -> ralive r = true ->
    Next (manager r) (worldOf s r) = (Ok events, w1) -> handleEvents events w1 = (o, w2) ->
    receive s (ran s j r (match o with Ok _ => true | _ => false end) w2 (inflight s)).

Inductive step : Sys -> Sys -> Prop :=
| step_notify s i r ttx w :
    replicas s !! i = Some r -> ralive r = true -> built (B := B) ttx ->
    commitNotify (manager r) ttx (worldOf s r) = (Ok tt, w) ->
    step s (ran s i r true w (inflight s ++ [(i, false, ttx)]))
| step_notify_failed s i r ttx err w :
    replicas s !! i = Some r -> ralive r = true -> built (B := B) ttx ->
    commitNotify (manager r) ttx (worldOf s r) = (Err err, w) ->
    step s (ran s i r true w (inflight s))
| step_database_failed s n i r ttx err w :
    inflight s !! n = Some (i, false, ttx) -> replicas s !! i = Some r ->
    commitDatabase ttx (worldOf s r) = (Err err, w) ->
    step s (ran s i r (ralive r) w (delete n (inflight s)))
| step_database s n i r ttx w :
    inflight s !! n = Some (i, false, ttx) -> replicas s !! i = Some r ->
    commitDatabase ttx (worldOf s r) = (Ok tt, w) ->
    step s (ran s i r (ralive r) w (<[n := (i, true, ttx)]> (inflight s)))
| step_cache s n i r ttx w :
    inflight s !! n = Some (i, true, ttx) -> replicas s !! i = Some r ->
    commitCache ttx (worldOf s r) = (Ok tt, w) ->
    step s (ran s i r (ralive r) w (delete n (inflight s)))
| step_receive s s' : receive s s' -> step s s'.

(** ** Orderly executions *)

(** The last event of a key among the messages of the other processes. *)
Definition pendingType (me : string) (msgs : list notification) (s : string)
    (acc : option EvenType) : option EvenType :=
  foldl (fun acc msg =>
    match Unmarshal (msgPayload msg) with
    | Ok p => if (ID p =? me)%string then acc
              else match KeyMap p !! s with Some t => Some t | None => acc end
    | _ => acc
    end) acc msgs.

(** The process has heard of everything that happened to the keys of a
    transaction. *)
Definition upToDate (r : Replica) (evs : list (Event K)) : Prop :=
  forall s, is_Some (serialize evs !! s) -> pendingType (rid r) (rinbox r) s None = None.

(** A transaction whose three steps follow each other. *)
Inductive transact : Sys -> Sys -> Prop :=
| transact_intro s i r ttx evs ttx' w :
    replicas s !! i = Some r -> ralive r = true -> built (B := B) ttx ->
    updateEvents (updates ttx) = Ok evs ->
    (forall e, e ∈ evs -> goodKey (EventKey e)) -> upToDate r evs ->
    TableTx_Commit (manager r) ttx (worldOf s r) = (Ok ttx', w) ->
    transact s (ran s i r true w (inflight s)).

Inductive orderly : Sys -> Sys -> Prop :=
| orderly_transact s s' : transact s s' -> orderly s s'
| orderly_receive s s' : receive s s' -> orderly s s'.

(** All caches agree with the rows, and there is nothing to read. *)
Definition initial (s : Sys) : Prop :=
  filedRows (srows s) /\ NoDup (map rid (replicas s))
  /\ forall r, r ∈ replicas s -> vals (rcache r) = srows s /\ rinbox r = [].

Context {JL : JsonLaws J} {RL : RangeOrderLaws R} {DL : DatabaseLaws D} {BL : BackoffLaws BO}.

(** ** Messages *)

(** A message that the tables send. *)
Definition wellSent (msg : notification) : Prop :=
  msgChannel msg = ch
  /\ exists p, Unmarshal (msgPayload msg) = Ok p
       /\ forall s t, KeyMap p !! s = Some t ->
            (t = EventTypeStore \/ t = EventTypeDelete)
            /\ exists k : K, fromString s = Ok k /\ KeyString k = s.

Definition own (me : string) (msg : notification) : Prop :=
  exists p, Unmarshal (msgPayload msg) = Ok p /\ ID p = me.

Lemma pendingType_acc me msgs s acc :
  pendingType me msgs s acc
  = match pendingType me msgs s None with Some t => Some t | None => acc end.
Proof using Type.
  induction msgs as [|msg msgs IH] using rev_ind; cbn; [done|].
  unfold pendingType in *. rewrite !foldl_app. cbn. rewrite IH.
  destruct (Unmarshal _) as [p|e|q|]; try done. destruct (_ =? _)%string; [done|].
  by destruct (KeyMap p !! s).
Qed.

Lemma pendingType_own me msgs s acc : Forall (own me) msgs -> pendingType me msgs s acc = acc.
Proof using Type.
  intros H. revert acc. induction H as [|msg msgs (p & Hp & Hi) _ IH]; intros acc; [done|].
  unfold pendingType in *. cbn. rewrite Hp, Hi, String.eqb_refl. apply IH.
Qed.

Lemma pendingType_app me l1 l2 s acc :
  pendingType me (l1 ++ l2) s acc = pendingType me l2 s (pendingType me l1 s acc).
Proof using Type. apply foldl_app. Qed.

Lemma pendingType_foreign me msg msgs p s :
  Unmarshal (msgPayload msg) = Ok p -> ID p <> me ->
  pendingType me (msg :: msgs) s None
  = match pendingType me msgs s None with Some t => Some t | None => KeyMap p !! s end.
Proof using Type.
  intros Hp Hid. rewrite <- (pendingType_acc me msgs s (KeyMap p !! s)).
  unfold pendingType. cbn. rewrite Hp, (proj2 (String.eqb_neq _ _) Hid). by destruct (KeyMap p !! s).
Qed.

(** Reading the inbox: either all that is left is the process's own, or the first
    message of another is decoded and taken off. *)
Lemma nextEvents_cases (nm : notificationManager) (msgs : list notification) (w : World) :
  channel nm = ch -> Forall wellSent msgs -> inbox w = msgs ->
  match nextEvents nm msgs w with
  | (Ok events, w1) => exists pre msg rest p n,
      msgs = pre ++ msg :: rest /\ Forall (own (nmID nm)) pre
      /\ Unmarshal (msgPayload msg) = Ok p /\ ID p <> nmID nm
      /\ NoDup (map eventString events) /\ serialize events = KeyMap p
      /\ w1 = mkPg (rows w) (cache w) (sent w) rest n
  | (Err _, _) => Forall (own (nmID nm)) msgs
  | _ => False
  end.
Proof using RL.
  intros Hch Hm. revert w. induction Hm as [|msg msgs (Hc & p & Hp & Hk) _ IH]; intros w Hi.
  { cbn. constructor. }
  cbn [nextEvents]. unfold bind at 1, modify. rewrite Hc, Hch, String.eqb_refl.
  unfold bind at 1, call. cbn.
  destruct (decode_known (calls w) (msgPayload msg) p Hp) as (evs & Hd & Hn & Hs).
  { intros s t H. by apply (Hk s t). }
  unfold bind at 1, wrapf, lift. rewrite Hd.
  destruct (String.eqb_spec (ID p) (nmID nm)) as [E|E]; cbn [negb].
  - specialize (IH (mkPg (rows w) (cache w) (sent w) msgs (S (calls w))) eq_refl).
    destruct (nextEvents nm msgs _) as [[events|e|q|] w1]; try done; [|by constructor; [eexists|]].
    destruct IH as (pre & msg' & rest & p' & n & -> & Hpre & IH).
    exists (msg :: pre), msg', rest, p', n. split; [done|]. split; [|exact IH].
    by constructor; [eexists|].
  - exists [], msg, msgs, p, (S (calls w)). done.
Qed.

(** ** The invariant *)

(** Up to what it has still to read, a process that lives agrees with the rows. *)
Definition agrees (d : gmap string T) (r : Replica) : Prop :=
  ralive r = true ->
  Forall wellSent (rinbox r)
  /\ forall s, match pendingType (rid r) (rinbox r) s None with
     | Some t => t = EventTypeStore /\ is_Some (d !! s) \/ t = EventTypeDelete /\ d !! s = None
     | None => vals (rcache r) !! s = d !! s
     end.

Definition invariant (s : Sys) : Prop :=
  filedRows (srows s) /\ NoDup (map rid (replicas s)) /\ Forall (agrees (srows s)) (replicas s).

Lemma initial_invariant s : initial s -> invariant s.
Proof using Type.
  intros (H1 & H2 & H3). split; [done|]. split; [done|]. apply Forall_forall. intros r Hr _.
  destruct (H3 r Hr) as [H4 H5]. rewrite H5. split; [done|]. intros k. cbn. by rewrite H4.
Qed.

Lemma filedRows_apply (d : gmap string T) u : filedRows d -> filedRows (applyRow d u).
Proof using Type.
  intros Hd s o. unfold applyRow. destruct (ustore u) as [o'|]; [|destruct (udelete u) as [k|]].
  - intros [[<- <-]|[_ H]]%lookup_insert_Some; [done|by apply Hd].
  - intros [_ H]%lookup_delete_Some. by apply Hd.
  - apply Hd.
Qed.

Lemma filedRows_applies us (d : gmap string T) : filedRows d -> filedRows (foldl applyRow d us).
Proof using Type. revert d. induction us as [|u us IH]; intros d Hd; [done|]. apply IH, filedRows_apply, Hd. Qed.

(** What an update leaves under a key depends on nothing else. *)
Lemma applies_local us (d1 d2 : gmap string T) s :
  d1 !! s = d2 !! s -> foldl applyRow d1 us !! s = foldl applyRow d2 us !! s.
Proof using Type.
  revert d1 d2. induction us as [|u us IH]; intros d1 d2 H; [exact H|]. apply IH. unfold applyRow.
  destruct (ustore u) as [o|]; [|destruct (udelete u) as [k|]; [|exact H]].
  - destruct (decide (KeyString (ObjectKey o) = s)) as [<-|Hn].
    + etrans; [apply lookup_insert_eq | symmetry; apply lookup_insert_eq].
    + etrans; [by apply lookup_insert_ne|]. rewrite H. symmetry. by apply lookup_insert_ne.
  - destruct (decide (KeyString k = s)) as [<-|Hn].
    + etrans; [apply lookup_delete_eq | symmetry; apply lookup_delete_eq].
    + etrans; [by apply lookup_delete_ne|]. rewrite H. symmetry. by apply lookup_delete_ne.
Qed.

Lemma deliverTo_rid msgs l : map rid (map (deliverTo msgs) l) = map rid l.
Proof using Type. rewrite map_map. done. Qed.

Lemma insert_rid i r r' (l : list Replica) :
  l !! i = Some r -> rid r' = rid r -> map rid (<[i := r']> l) = map rid l.
Proof using Type.
  intros Hi E. change (map rid) with (fmap (M := list) rid). rewrite list_fmap_insert.
  apply list_insert_id. rewrite list_lookup_fmap, Hi. cbn. by rewrite E.
Qed.

Lemma rid_inj i j r r' (l : list Replica) :
  NoDup (map rid l) -> l !! i = Some r -> l !! j = Some r' -> rid r = rid r' -> i = j.
Proof using Type.
  intros Hn Hi Hj E. eapply (NoDup_lookup (map rid l)); [exact Hn| |];
    change (map rid l) with (rid <$> l); rewrite list_lookup_fmap; [by rewrite Hi|].
  rewrite Hj. cbn. by rewrite E.
Qed.

(** What a process has after it ran, whoever it is. *)
Lemma ran_replica s i r alive w fl r' :
  replicas s !! i = Some r -> r' ∈ replicas (ran s i r alive w fl) ->
  r' = deliverTo (sent w) (mkReplica (rid r) (cache w) (inbox w) alive)
  \/ exists j r0, replicas s !! j = Some r0 /\ j <> i /\ r' = deliverTo (sent w) r0.
Proof using Type.
  intros Hi H. cbn in H. apply list_elem_of_fmap in H as (r0 & -> & H).
  apply list_elem_of_lookup in H as [j Hj].
  destruct (decide (j = i)) as [->|Hn].
  - left. rewrite list_lookup_insert_eq in Hj by (by eapply lookup_lt_Some). by injection Hj as <-.
  - right. rewrite list_lookup_insert_ne in Hj by done. eauto.
Qed.

Lemma ran_rid s i r alive w fl :
  replicas s !! i = Some r -> map rid (replicas (ran s i r alive w fl)) = map rid (replicas s).
Proof using Type. intros Hi. cbn. rewrite deliverTo_rid. by eapply insert_rid. Qed.

Lemma deliver_nothing r : deliverTo [] r = r.
Proof using Type. destruct r. unfold deliverTo. cbn. by rewrite app_nil_r. Qed.

Lemma deliver_nothings l : map (deliverTo []) l = l.
Proof using Type. induction l as [|r l IH]; cbn [map]; [done|]. by rewrite deliver_nothing, IH. Qed.

(** ** Receiving keeps the invariant *)

Lemma receive_cases s s' :
  invariant s -> receive s s' ->
  exists j r pre msg rest p events w1 w2 alive,
    replicas s !! j = Some r /\ ralive r = true /\ rinbox r = pre ++ msg :: rest
    /\ Forall (own (rid r)) pre /\ Unmarshal (msgPayload msg) = Ok p /\ ID p <> rid r
    /\ serialize events = KeyMap p /\ cache w1 = rcache r /\ rows w1 = srows s
    /\ rows w2 = srows s /\ sent w2 = [] /\ inbox w2 = rest
    /\ (alive = true -> refreshed events w1 w2)
    /\ s' = ran s j r alive w2 (inflight s).
Proof using RL DL BL.
  intros (Hf & Hn & Ha) H. destruct H as [s j r events w1 o w2 Hj Hal HN HE].
  pose proof (proj1 (Forall_forall _ _) Ha r (list_elem_of_lookup_2 _ _ _ Hj) Hal) as [Hw _].
  unfold Next in HN. cbn in HN. unfold bind, get in HN.
  pose proof (nextEvents_cases (manager r) (rinbox r) (worldOf s r) eq_refl Hw eq_refl) as HC.
  cbn [worldOf inbox] in HN. rewrite HN in HC.
  destruct HC as (pre & msg & rest & p & n & Hin & Hpre & Hp & Hid & Hnd & Hser & ->).
  pose proof (handleEvents_cases events (mkPg (srows s) (rcache r) [] rest n) Hnd Hf) as HH.
  cbn [worldOf rows cache sent] in HE. rewrite HE in HH.
  exists j, r, pre, msg, rest, p, events, (mkPg (srows s) (rcache r) [] rest n), w2,
    (match o with Ok _ => true | _ => false end).
  repeat (split; [done|]).
  destruct o as [u|e|q|]; try done; [destruct HH as [(H1 & H2 & H3) H4]|destruct HH as (H1 & H2 & H3)];
    rewrite H1, H2, H3; repeat (split; [done|]); done.
Qed.

Lemma receive_invariant s s' : invariant s -> receive s s' -> invariant s'.
Proof using RL DL BL.
  intros Hinv H. destruct (receive_cases s s' Hinv H) as
    (j & r & pre & msg & rest & p & events & w1 & w2 & alive & Hj & Hal & Hin & Hpre & Hp & Hid & Hser
     & Hc1 & Hr1 & Hr2 & Hs2 & Hi2 & Href & ->).
  destruct Hinv as (Hf & Hn & Ha). pose proof (proj1 (Forall_forall _ _) Ha) as Ha'.
  split; [cbn; by rewrite Hr2|]. split; [by rewrite ran_rid|]. apply Forall_forall. intros r' Hr'.
  cbn [ran srows]. rewrite Hr2.
  destruct (ran_replica _ _ _ _ _ _ _ Hj Hr') as [->|(j' & r0 & Hj' & _ & ->)]; rewrite Hs2, deliver_nothing.
  - intros Hl. specialize (Href Hl).
    destruct (Ha' r (list_elem_of_lookup_2 _ _ _ Hj) Hal) as [Hw Hk].
    cbn [rid rinbox rcache]. rewrite Hi2.
    rewrite Hin in Hw. apply Forall_app in Hw as [_ Hw]. apply Forall_cons in Hw as [_ Hw].
    split; [done|]. intros k. specialize (Hk k). specialize (Href k).
    rewrite Hin, pendingType_app, (pendingType_own _ pre) in Hk by done.
    rewrite (pendingType_foreign _ _ _ p) in Hk by done. rewrite Hser, Hr1, Hc1 in Href.
    destruct (pendingType (rid r) rest k None); [done|].
    destruct (KeyMap p !! k) as [t|]; [|congruence].
    destruct Href as [(-> & _ & ->)|(-> & ->)]; [done|]. destruct Hk as [[? _]|[_ ->]]; [discriminate|done].
  - apply Ha'. by eapply list_elem_of_lookup_2.
Qed.

(** ** Transactions keep the invariant *)

Lemma announced_wellSent r evs (us : list (update K T)) raw :
  updateEvents us = Ok evs -> (forall e, e ∈ evs -> goodKey (EventKey e)) ->
  encode (manager r) evs = Ok raw ->
  Unmarshal raw = Ok (mkPayload (rid r) (serialize evs)) /\ wellSent (mkNotification ch raw).
Proof using JL.
  intros He Hg Hr.
  assert (forall e, e ∈ evs -> EventType e = EventTypeStore \/ EventType e = EventTypeDelete) as Ht.
  { clear Hg Hr. revert evs He. induction us as [|u us IH]; intros evs He; cbn in He.
    - injection He as <-. by intros e H%elem_of_nil.
    - apply obind_ok_inv in He as (e0 & H0 & He). apply obind_ok_inv in He as (evs' & H1 & He).
      injection He as <-. intros e [->|H]%elem_of_cons; [|by apply (IH evs')].
      destruct (ustore u), (udelete u); try discriminate; injection H0 as <-; auto. }
  destruct (encode_payload (manager r) evs raw) as [Hu Hs]; [|done|].
  { intros e H. split; [by apply Hg|]. destruct (Ht e H) as [->| ->]; split; done. }
  split; [exact Hu|]. split; [done|]. eexists. split; [exact Hu|]. cbn. intros s t H.
  destruct (Hs s t H) as [Hk (e & H1 & ->)]. auto.
Qed.

Lemma serialize_nil (s : string) : serialize (K := K) [] !! s = None.
Proof using Type. apply lookup_empty. Qed.

(** The messages of a transaction, for its process and for the others. *)
Lemma announced_pending r ttx evs msgs me inb s :
  announces (manager r) ttx msgs -> updateEvents (updates ttx) = Ok evs ->
  (forall e, e ∈ evs -> goodKey (EventKey e)) ->
  Forall wellSent msgs
  /\ pendingType me (inb ++ msgs) s None
     = if (rid r =? me)%string then pendingType me inb s None
       else match serialize evs !! s with Some t => Some t | None => pendingType me inb s None end.
Proof using JL.
  intros (evs' & He' & Hm) He Hg. rewrite He in He'. injection He' as <-.
  rewrite pendingType_app. destruct Hm as [[Hu ->]|(raw & Hr & ->)].
  - split; [constructor|]. rewrite Hu in He. injection He as <-. rewrite serialize_nil. cbn.
    by destruct (_ =? _)%string.
  - destruct (announced_wellSent r evs (updates ttx) raw He Hg Hr) as [Hu Hw].
    split; [by apply Forall_singleton|]. unfold pendingType at 1. cbn. by rewrite Hu.
Qed.

Lemma transact_invariant s s' : invariant s -> transact s s' -> invariant s'.
Proof using JL DL.
  intros (Hf & Hn & Ha) H. destruct H as [s i r ttx evs ttx' w Hi Hal Hb He Hg Hup HC].
  pose proof (Commit_cases (manager r) ttx (worldOf s r) Hb) as H. rewrite HC in H.
  destruct H as (_ & Hr & Hv & (msgs & Hm & Hs) & Hin). cbn in Hr, Hv, Hs, Hin.
  pose proof (proj1 (Forall_forall _ _) Ha) as Ha'.
  split; [cbn; rewrite Hr; by apply filedRows_applies|]. split; [by rewrite ran_rid|].
  apply Forall_forall. intros r' Hr'. cbn [ran srows]. rewrite Hr.
  assert (forall d k, serialize evs !! k = None -> foldl applyRow d (updates ttx) !! k = d !! k) as Hsame.
  { intros d k H. destruct (updates_effect (updates ttx) evs d ∅ k He) as [[_ H']|[[H' _]|[H' _]]];
      [done|..]; unfold serialize in H; congruence. }
  destruct (ran_replica _ _ _ _ _ _ _ Hi Hr') as [->|(j & r0 & Hj & Hji & ->)]; rewrite Hs; intros Hl;
    cbn [deliverTo rid rinbox rcache].
  - destruct (Ha' r (list_elem_of_lookup_2 _ _ _ Hi) Hal) as [Hw Hk]. rewrite Hin. split.
    + apply Forall_app. split; [done|]. by eapply (announced_pending r ttx evs msgs "" [] "").
    + intros k. specialize (Hk k).
      destruct (announced_pending r ttx evs msgs (rid r) (rinbox r) k Hm He Hg) as [_ ->].
      rewrite String.eqb_refl, Hv. destruct (serialize evs !! k) as [t|] eqn:Ek.
      * rewrite (Hup k) in * by (by eexists). by apply applies_local.
      * rewrite !Hsame by done. exact Hk.
  - destruct (Ha' r0 (list_elem_of_lookup_2 _ _ _ Hj) Hl) as [Hw Hk]. split.
    + apply Forall_app. split; [done|]. by eapply (announced_pending r ttx evs msgs "" [] "").
    + intros k. specialize (Hk k).
      destruct (announced_pending r ttx evs msgs (rid r0) (rinbox r0) k Hm He Hg) as [_ ->].
      destruct (String.eqb_spec (rid r) (rid r0)) as [E|_]; [by destruct (Hji); eapply rid_inj|].
      destruct (updates_effect (updates ttx) evs (srows s) ∅ k He) as [[E1 E2]|[[E1 E2]|[E1 E2]]];
        fold (serialize evs) in E1; rewrite E1; [|by left|by right].
      rewrite E2. exact Hk.
Qed.

Lemma orderly_invariant s s' : invariant s -> rtc orderly s s' -> invariant s'.
Proof using JL RL DL BL.
  intros Hs H. induction H as [s|s s1 s' H _ IH]; [done|]. apply IH.
  destruct H; eauto using transact_invariant, receive_invariant.
Qed.

(** ** Reading ends, in agreement *)

Definition unreadMessages (s : Sys) : nat := sum_list_with (fun r => length (rinbox r)) (replicas s).

Lemma receive_shrinks s s' : invariant s -> receive s s' -> (unreadMessages s' < unreadMessages s)%nat.
Proof using RL DL BL.
  intros Hinv H. destruct (receive_cases s s' Hinv H) as
    (j & r & pre & msg & rest & p & events & w1 & w2 & alive & Hj & _ & Hin & _ & _ & _ & _ & _ & _ & _
     & Hs2 & Hi2 & _ & ->).
  unfold unreadMessages. cbn. rewrite Hs2.
  rewrite deliver_nothings.
  clear -Hj Hin Hi2. revert j Hj. generalize (replicas s). intros l.
  induction l as [|r0 l IH]; intros [|j] Hj; try done.
  - injection Hj as ->. cbn. rewrite Hin, Hi2, length_app. cbn. lia.
  - cbn. apply (proj1 (Nat.add_lt_mono_l _ _ _)), (IH j Hj).
Qed.

(** A process that cannot read any further agrees with the rows. *)
Lemma settled_agrees s j r :
  invariant s -> (forall s', ~ receive s s') -> replicas s !! j = Some r -> ralive r = true ->
  vals (rcache r) = srows s.
Proof using RL DL BL.
  intros (Hf & Hn & Ha) Hno Hj Hal.
  destruct (proj1 (Forall_forall _ _) Ha r (list_elem_of_lookup_2 _ _ _ Hj) Hal) as [Hw Hk].
  pose proof (nextEvents_cases (manager r) (rinbox r) (worldOf s r) eq_refl Hw eq_refl) as HC.
  destruct (nextEvents (manager r) (rinbox r) (worldOf s r)) as [[events|e|q|] w1] eqn:E; try done.
  - destruct (handleEvents events w1) as [o w2] eqn:E2.
    destruct (Hno _ (receive_intro s j r events w1 o w2 Hj Hal E E2)).
  - apply map_eq. intros k. specialize (Hk k). by rewrite pendingType_own in Hk.
Qed.

(** C10: Eventual agreement, of orderly executions: each transaction succeeds, its three
    steps are not interleaved with those of others, its keys survive the way through
    JSON, and its process has read every notification about them.  From a state where
    caches and rows agree, delivering the notifications that are left always ends,
    whatever the order, and when nothing is left every process that is still following
    has exactly the rows of the database in its cache. *)
Theorem replicas_converge (s0 s : Sys) :
  initial s0 -> rtc orderly s0 s ->
  Acc (fun s2 s1 => receive s1 s2) s
  /\ forall s', rtc receive s s' -> (forall s'', ~ receive s' s'') ->
       forall j r, replicas s' !! j = Some r -> ralive r = true -> vals (rcache r) = srows s'.
Proof using JL RL DL BL.
  intros H0%initial_invariant Hs%orderly_invariant; [|done]. split.
  - remember (unreadMessages s) as n eqn:En. revert s Hs En.
    induction (lt_wf n) as [n _ IH]. intros s Hs ->. constructor. intros s' Hr.
    apply (IH (unreadMessages s')); [by apply receive_shrinks | by eapply receive_invariant | done].
  - intros s' Hr Hno j r. apply settled_agrees; [|done].
    apply (orderly_invariant s); [done|]. eapply rtc_subrel; [|exact Hr]. apply orderly_receive.
Qed.

(** ** Orderly executions are executions *)

(** The second and third steps of a commit neither read nor change messages. *)
Lemma commitDatabase_messages ttx (w w' : World) msgs inb :
  commitDatabase ttx w = (Ok tt, w') ->
  sent w' = sent w /\ inbox w' = inbox w
  /\ commitDatabase ttx (mkPg (rows w) (cache w) msgs inb (calls w))
     = (Ok tt, mkPg (rows w') (cache w') msgs inb (calls w')).
Proof using Type.
  unfold commitDatabase, bind, call, get, put, wrapf, lift. cbn.
  destruct (txCommit _ _ _) as [[[]|e|p|] d]; try discriminate. intros [= <-]. done.
Qed.

Lemma applyUpdate_messages u (w : World) msgs inb :
  let '(o, w') := applyUpdate u w in
  sent w' = sent w /\ inbox w' = inbox w
  /\ applyUpdate u (mkPg (rows w) (cache w) msgs inb (calls w))
     = (o, mkPg (rows w') (cache w') msgs inb (calls w')).
Proof using Type.
  unfold applyUpdate. destruct (ustore u) as [o|]; [done|]. destruct (udelete u); done.
Qed.

Lemma commitCache_messages ttx (w w' : World) msgs inb :
  commitCache ttx w = (Ok tt, w') ->
  sent w' = sent w /\ inbox w' = inbox w
  /\ commitCache ttx (mkPg (rows w) (cache w) msgs inb (calls w))
     = (Ok tt, mkPg (rows w') (cache w') msgs inb (calls w')).
Proof using Type.
  unfold commitCache. revert w. induction (updates ttx) as [|u us IH]; intros w H.
  { injection H as <-. done. }
  cbn [forEach] in *. pose proof (applyUpdate_messages u w msgs inb) as Hu. unfold bind in *.
  destruct (applyUpdate u w) as [[[]|e|p|] w1]; try discriminate. destruct Hu as (H1 & H2 & ->).
  destruct (IH w1 H) as (H3 & H4 & H5). split; [congruence|]. split; [congruence|]. exact H5.
Qed.

(** The state of a process that runs twice in a row. *)
Lemma ran_again s i r alive w fl :
  replicas s !! i = Some r ->
  let r1 := mkReplica (rid r) (cache w) (inbox w ++ sent w) alive in
  replicas (ran s i r alive w fl) !! i = Some r1
  /\ worldOf (ran s i r alive w fl) r1 = mkPg (rows w) (cache w) [] (inbox w ++ sent w) (calls w).
Proof using Type.
  intros Hi. cbn. split; [|done].
  change (map (deliverTo (sent w))) with (fmap (M := list) (deliverTo (sent w))).
  rewrite list_lookup_fmap, list_lookup_insert_eq by (by eapply lookup_lt_Some). done.
Qed.

Lemma ran_ran s i r r1 alive alive' w w' fl fl' :
  sent w' = [] -> inbox w' = inbox w ++ sent w -> rid r1 = rid r ->
  ran (ran s i r alive w fl) i r1 alive' w' fl'
  = ran s i r alive' (mkPg (rows w') (cache w') (sent w) (inbox w) (calls w')) fl'.
Proof using Type.
  intros H1 H2 H3. unfold ran. cbn. rewrite H1, H2, H3, deliver_nothings. f_equal.
  change (map (deliverTo (sent w))) with (fmap (M := list) (deliverTo (sent w))).
  rewrite !list_fmap_insert, list_insert_insert_eq. done.
Qed.

(** An orderly transaction is three steps of the system. *)
Lemma transact_steps s s' : transact s s' -> rtc step s s'.
Proof using JL DL.
  intros H. destruct H as [s i r ttx evs ttx' w Hi Hal Hb He Hg Hup HC].
  destruct (built_tracked ttx Hb) as [Hc _]. unfold TableTx_Commit in HC. rewrite Hc in HC. go_inv.
  match goal with H : commitNotify _ _ _ = (Ok ?u, ?w) |- _ => destruct u; rename w into w1, H into H1 end.
  match goal with H : commitDatabase _ _ = (Ok ?u, ?w) |- _ => destruct u; rename w into w2, H into H2 end.
  match goal with H : commitCache _ _ = (Ok ?u, ?w) |- _ => destruct u; rename w into w3, H into H3 end.
  set (fl := inflight s ++ [(i, false, ttx)]).
  set (r1 := mkReplica (rid r) (cache w1) (inbox w1 ++ sent w1) true).
  destruct (ran_again s i r true w1 fl Hi) as [Hi1 Hw1]. cbn zeta in Hi1, Hw1. fold r1 in Hi1, Hw1.
  destruct (commitDatabase_messages ttx w1 w2 [] (inbox w1 ++ sent w1) H2) as (S2 & I2 & H2').
  destruct (commitCache_messages ttx w2 w3 [] (inbox w1 ++ sent w1) H3) as (S3 & I3 & H3').
  eapply rtc_l; [by apply (step_notify s i r ttx w1)|]. fold fl.
  eapply rtc_l.
  { apply (step_database _ (length (inflight s)) i r1 ttx); [|exact Hi1|rewrite Hw1; exact H2'].
    cbn. apply list_lookup_middle. done. }
  rewrite (ran_ran _ _ _ _ _ _ w1) by done. cbn [rows cache sent inbox calls].
  change (inflight (ran s i r true w1 fl)) with fl.
  set (w2' := mkPg (rows w2) (cache w2) (sent w1) (inbox w1) (calls w2)).
  eapply rtc_l.
  { destruct (ran_again s i r (ralive r1) w2' (<[length (inflight s):=(i, true, ttx)]> fl) Hi) as [Hi2 Hw2].
    eapply (step_cache _ (length (inflight s)) i _ ttx); [|exact Hi2|rewrite Hw2; exact H3'].
    cbn. apply list_lookup_insert_eq. unfold fl. rewrite length_app. cbn. lia. }
  rewrite (ran_ran _ _ _ _ _ _ w2') by done. cbn [rows cache sent inbox calls].
  replace (delete _ _) with (inflight s).
  - replace (mkPg _ _ _ _ _) with w3; [apply rtc_refl|].
    destruct w3. cbn in *. congruence.
  - cbn. unfold fl. rewrite insert_app_r_alt, Nat.sub_diag by lia. cbn.
    by rewrite delete_middle, app_nil_r.
Qed.
End Replicas.
