(* ===== verification/PgExamples.v ===== *)
(** * Processes that do not agree

    A database, an encoding and a retry that behave as documented, and executions
    of two processes after which a cache is wrong for ever or a process is dead;
    and the witnesses of the theorems on cached tables. *)

From stdpp Require Import gmap.
From S2P Require Import Prelude GoStrings GoBTree CacheMap Pgcache PgcacheSpec PgReplicas.
From Stdlib Require Import Strings.Ascii.
#[local] Open Scope Z_scope.

(** ** The environment *)

(** Objects with a name and a value. *)
Definition Item : Type := string * Z.

#[export] Instance Item_Object : Object StringKey Item := { ObjectKey := fst }.
#[export] Instance StringKey_FromString : FromString StringKey := { fromString := StringKeyFromString }.

(** Rows in a map. *)
Definition mapDatabase {K T} {KK : Key K} {OB : Object K T} : Database K T := {|
  DBTx := list (update K T);
  poolBegin := fun n => Ok [];
  listFunc := fun n d => Ok (map snd (map_to_list d));
  getFunc := fun n keys d => Ok (omap (fun k => d !! KeyString k) keys);
  storeFunc := fun n objects tx => Ok (tx ++ map (fun object => mkUpdate (Some object) None) objects);
  deleteFunc := fun n keys tx => Ok (tx ++ map (fun key => mkUpdate None (Some key)) keys);
  txCommit := fun n tx d => (Ok tt, foldl applyRow d tx);
  pgNotify := fun n => (true, None);
  pgListen := fun n => None;
  waitError := fun n => PlainError "context canceled";
  txWrites := fun tx => tx
|}.

#[export] Instance mapDatabase_laws {K T} {KK : Key K} {OB : Object K T} :
  DatabaseLaws (mapDatabase (K := K) (T := T)).
Proof. split; [split|..]; try done; by intros * [= <-]. Qed.

(** The same, with an answer that is lost on the way back from the first commit. *)
Definition losingDatabase {K T} {KK : Key K} {OB : Object K T} : Database K T := {|
  DBTx := list (update K T);
  poolBegin := fun n => Ok [];
  listFunc := fun n d => Ok (map snd (map_to_list d));
  getFunc := fun n keys d => Ok (omap (fun k => d !! KeyString k) keys);
  storeFunc := fun n objects tx => Ok (tx ++ map (fun object => mkUpdate (Some object) None) objects);
  deleteFunc := fun n keys tx => Ok (tx ++ map (fun key => mkUpdate None (Some key)) keys);
  txCommit := fun n tx d => (if Nat.eqb n 1 then Err (PlainError "unexpected EOF") else Ok tt, foldl applyRow d tx);
  pgNotify := fun n => (true, None);
  pgListen := fun n => None;
  waitError := fun n => PlainError "context canceled";
  txWrites := fun tx => tx
|}.

#[export] Instance losingDatabase_laws {K T} {KK : Key K} {OB : Object K T} :
  DatabaseLaws (losingDatabase (K := K) (T := T)).
Proof.
  split; [split|..]; try done; try by intros * [= <-].
  - intros n tx d. cbn. by destruct (Nat.eqb n 1).
  - intros n tx d. cbn. destruct (Nat.eqb n 1); [by right|done].
Qed.

#[export] Instance sampleDatabase : Database StringKey Item := mapDatabase.
#[export] Instance sampleDatabase_laws : DatabaseLaws sampleDatabase := mapDatabase_laws.

#[export] Instance sampleOrder : RangeOrder := {| rangeKeymap := fun n m => map_to_list m |}.
#[export] Instance sampleOrder_laws : RangeOrderLaws sampleOrder.
Proof. split. done. Qed.

(** Try again until the tries are used up. *)
Fixpoint retry {St A} (n : nat) (f : Go St A) : Go St A :=
  match n with
  | O => lift Diverge
  | S n' => fun w =>
      match f w with
      | (Err e, w') => match n' with O => (Err e, w') | S _ => retry n' f w' end
      | r => r
      end
  end.

#[export] Instance sampleBackoff : Backoff := {| Retry := @retry |}.

Lemma retry_retried {St A} n (f : Go St A) w o w' : retry (S n) f w = (o, w') -> retried f (S n) w o w'.
Proof.
  revert w. induction n as [|n IH]; intros w; cbn; destruct (f w) as [[a|e|p|] w1] eqn:E;
    try (intros [= <- <-]; by eauto using retried); intros H; by eauto using retried.
Qed.

#[export] Instance sampleBackoff_laws : BackoffLaws sampleBackoff.
Proof. split. intros St A. apply retry_retried. Qed.

#[export] Instance sampleContext : Context := {| ctxErr := fun n => None |}.

#[export] Instance sampleJson : Json := {|
  Marshal := fun p => Ok (bits (countable.encode (ID p, map_to_list (KeyMap p))));
  Unmarshal := fun raw =>
    match countable.decode (unbits raw) with
    | Some (id, l) => Ok (mkPayload id (list_to_map l))
    | None => Err (PlainError "unexpected end of JSON input")
    end
|}.

#[export] Instance sampleJson_laws : JsonLaws sampleJson.
Proof.
  split; [done|]. intros [id m] raw _ [= <-]. cbn. rewrite unbits_bits, countable.decode_encode.
  do 2 f_equal. apply list_to_map_to_list.
Qed.

(** ** Running the system *)

#[local] Existing Instances stringTree stringTree_laws.

Definition channelName : string := "teapot_invalidate_items".

Inductive action : Type :=
| ANotify (i : nat) (ttx : TableTx (D := sampleDatabase))
| ADatabase (n : nat)
| ACache (n : nat)
| AReceive (j : nat).

Local Abbreviation System := (Sys (B := stringTree) (D := sampleDatabase)).

Definition perform (a : action) (s : System) : option System :=
  match a with
  | ANotify i ttx =>
      r ← replicas s !! i;
      match commitNotify (manager channelName r) ttx (worldOf s r) with
      | (Ok tt, w) => if ralive r then Some (ran s i r true w (inflight s ++ [(i, false, ttx)])) else None
      | _ => None
      end
  | ADatabase n =>
      '(i, c, ttx) ← inflight s !! n;
      r ← replicas s !! i;
      match c : bool, commitDatabase ttx (worldOf s r) with
      | false, (Ok tt, w) => Some (ran s i r (ralive r) w (<[n := (i, true, ttx)]> (inflight s)))
      | _, _ => None
      end
  | ACache n =>
      '(i, c, ttx) ← inflight s !! n;
      r ← replicas s !! i;
      match c : bool, commitCache ttx (worldOf s r) with
      | true, (Ok tt, w) => Some (ran s i r (ralive r) w (delete n (inflight s)))
      | _, _ => None
      end
  | AReceive j =>
      r ← replicas s !! j;
      match Next (manager channelName r) (worldOf s r) with
      | (Ok events, w1) =>
          let '(o, w2) := handleEvents events w1 in
          if ralive r
          then Some (ran s j r (match o with Ok _ => true | _ => false end) w2 (inflight s)) else None
      | _ => None
      end
  end.

Definition performs (acts : list action) (s : System) : option System :=
  foldl (fun os a => os ≫= perform a) (Some s) acts.

(** The transactions of the actions are ones that a program can build. *)
Definition sound (a : action) : Prop :=
  match a with ANotify _ ttx => built (B := stringTree) ttx | _ => True end.

#[local] Arguments commitNotify : simpl never.
#[local] Arguments commitDatabase : simpl never.
#[local] Arguments commitCache : simpl never.
#[local] Arguments Next : simpl never.

Lemma perform_receive j s s' : perform (AReceive j) s = Some s' -> receive channelName s s'.
Proof.
  intros H. cbn in H. destruct (replicas s !! j) as [r|] eqn:Er; [|done]. cbn in H.
  destruct (Next _ _) as [[events|e|p|] w1] eqn:E1; try done.
  destruct (handleEvents events w1) as [o w2] eqn:E2. destruct (ralive r) eqn:El; [|done].
  injection H as <-. by eapply receive_intro.
Qed.

Lemma perform_step a s s' : sound a -> perform a s = Some s' -> step channelName s s'.
Proof.
  destruct a as [i ttx|n|n|j]; intros Ha H; cbn in H.
  - destruct (replicas s !! i) as [r|] eqn:Er; [|done]. cbn in H.
    destruct (commitNotify _ _ _) as [[[]|e|p|] w] eqn:E; try done.
    destruct (ralive r) eqn:El; [|done]. injection H as <-. by eapply step_notify.
  - destruct (inflight s !! n) as [[[i c] ttx]|] eqn:Ei; [|done]. cbn in H.
    destruct (replicas s !! i) as [r|] eqn:Er; [|done]. cbn in H. destruct c; [done|].
    destruct (commitDatabase _ _) as [[[]|e|p|] w] eqn:E; try done.
    injection H as <-. by eapply step_database.
  - destruct (inflight s !! n) as [[[i c] ttx]|] eqn:Ei; [|done]. cbn in H.
    destruct (replicas s !! i) as [r|] eqn:Er; [|done]. cbn in H. destruct c; [|done].
    destruct (commitCache _ _) as [[[]|e|p|] w] eqn:E; try done.
    injection H as <-. by eapply step_cache.
  - apply step_receive. by apply (perform_receive j).
Qed.

Lemma performs_steps acts s s' :
  Forall sound acts -> performs acts s = Some s' -> rtc (step channelName) s s'.
Proof.
  intros Ha. revert s' Ha. induction acts as [|a acts IH] using rev_ind; intros s' Ha H.
  { injection H as <-. apply rtc_refl. }
  unfold performs in *. rewrite foldl_app in H. cbn in H. apply Forall_app in Ha as [Ha1 Ha2].
  destruct (foldl _ _ acts) as [s1|]; [|done]. cbn in H. apply Forall_cons in Ha2 as [Ha2 _].
  eapply rtc_r; [by apply IH|]. by eapply perform_step.
Qed.

(** No process has a message of another to read. *)
Definition quiet (s : System) : bool :=
  forallb (fun r => match fst (Next (manager channelName r) (worldOf s r)) with
                    | Ok _ => negb (ralive r) | _ => true end) (replicas s).

Lemma quiet_no_receive s : quiet s = true -> forall s', ~ receive channelName s s'.
Proof.
  intros Hq s' H. destruct H as [s j r events w1 o w2 Hj Hal HN _].
  unfold quiet in Hq. rewrite forallb_forall in Hq.
  specialize (Hq r). rewrite HN in Hq. cbn in Hq. rewrite Hal in Hq. cbn in Hq.
  enough (false = true) by done. apply Hq. apply list_elem_of_In. by eapply list_elem_of_lookup_2.
Qed.

(** ** Two processes *)

Definition storeTx (o : Item) : TableTx (D := sampleDatabase) :=
  mkTableTx [mkUpdate (Some o) None] [mkUpdate (Some o) None] false.
Definition deleteTx (k : StringKey) : TableTx (D := sampleDatabase) :=
  mkTableTx [mkUpdate None (Some k)] [mkUpdate None (Some k)] false.

Definition beginTable : TableTx (D := sampleDatabase) :=
  mkTableTx ([] : list (update StringKey Item)) [] false.

Definition emptyPg : PgWorld (T := Item) (B := stringTree) := mkPg ∅ NewSortedMap [] [] 0.

Lemma storeTx_built o : built (B := stringTree) (storeTx o).
Proof.
  apply (built_Store beginTable [o] emptyPg _ (mkPg ∅ NewSortedMap [] [] 1)); [|done].
  by apply (built_Begin emptyPg _ (mkPg ∅ NewSortedMap [] [] 1)).
Qed.

Lemma deleteTx_built k : built (B := stringTree) (deleteTx k).
Proof.
  apply (built_Delete beginTable [k] emptyPg _ (mkPg ∅ NewSortedMap [] [] 1)); [|done].
  by apply (built_Begin emptyPg _ (mkPg ∅ NewSortedMap [] [] 1)).
Qed.

Definition k1 : Item := ("k", 1).
Definition k2 : Item := ("k", 2).
Definition oneCache : SortedMap (B := stringTree) (V := Item) := SortedMap_Store NewSortedMap "k" k1.

Definition twoProcesses : System :=
  mkSys (<["k" := k1]> ∅) [mkReplica "a" oneCache [] true; mkReplica "b" oneCache [] true] [] 0.

Lemma twoProcesses_initial : initial twoProcesses.
Proof.
  split; [|split].
  - intros s o H. unfold twoProcesses in H. cbn [srows] in H.
    apply lookup_insert_Some in H as [[<- <-]|[_ H]]; [done|by apply lookup_empty_Some in H].
  - cbn. apply NoDup_cons. split; [|apply NoDup_singleton]. by intros H%list_elem_of_singleton.
  - intros r. cbn. intros [->|[->|H%elem_of_nil]%elem_of_cons]%elem_of_cons; done.
Qed.

(** What is left: the rows, what each process has under "k", whether it lives, and
    whether anything remains to be done. *)
Definition outcomeOf (os : option System)
    : option (option Item * list (option Item * bool) * bool * bool) :=
  s ← os;
  Some (srows s !! "k", map (fun r => (vals (rcache r) !! "k", ralive r)) (replicas s),
        quiet s, match inflight s with [] => true | _ => false end).

Lemma reaches acts v :
  Forall sound acts -> outcomeOf (performs acts twoProcesses) = Some v ->
  exists s, rtc (step channelName) twoProcesses s /\ outcomeOf (Some s) = Some v.
Proof.
  intros Ha H. destruct (performs acts twoProcesses) as [s|] eqn:E; [|done].
  exists s. split; [by eapply performs_steps | exact H].
Qed.

Definition staleRun : list action :=
  [ANotify 0 (storeTx k2); AReceive 1; ADatabase 0; ACache 0].

(** The notification of a change is sent before the change is committed: a process
    that handles it at once fetches the old row, and keeps it for ever. *)
Theorem stale_cache :
  exists s, rtc (step channelName) twoProcesses s
    /\ outcomeOf (Some s) = Some (Some k2, [(Some k2, true); (Some k1, true)], true, true).
Proof. apply (reaches staleRun); [by repeat constructor; apply storeTx_built|]. eval_refl. Qed.

Definition forgottenRun : list action :=
  [ANotify 1 (deleteTx "k"); ADatabase 0; ACache 0;
   ANotify 0 (storeTx k2); ADatabase 0; ACache 0; AReceive 0; AReceive 1].

(** A process ignores its own notifications, so an older deletion by another removes
    from its cache what it has stored since. *)
Theorem forgotten_object :
  exists s, rtc (step channelName) twoProcesses s
    /\ outcomeOf (Some s) = Some (Some k2, [(None, true); (Some k2, true)], true, true).
Proof.
  apply (reaches forgottenRun); [by repeat constructor; apply storeTx_built || apply deleteTx_built|].
  eval_refl.
Qed.

Definition deadRun : list action :=
  [ANotify 0 (storeTx k2); ADatabase 0; ACache 0; ANotify 0 (deleteTx "k"); ADatabase 0; ACache 0;
   AReceive 1].

(** An object that is gone when its storing is heard of ends the process that hears
    of it: it expects as many objects as keys. *)
Theorem dead_process :
  exists s, rtc (step channelName) twoProcesses s
    /\ outcomeOf (Some s) = Some (None, [(None, true); (Some k1, false)], true, true).
Proof.
  apply (reaches deadRun); [by repeat constructor; apply storeTx_built || apply deleteTx_built|].
  eval_refl.
Qed.

(** A commit whose answer is lost: the rows have the new object, the process keeps the old
    one and ignores its own notification. *)
Theorem lost_answer :
  let w := mkPg (<["k" := k1]> ∅) oneCache [] [] 0 in
  let ttx := mkTableTx (D := losingDatabase) [mkUpdate (Some k2) None] [mkUpdate (Some k2) None] false in
  let '(o, w1) := TableTx_Commit (D := losingDatabase) (mkManager "a" channelName) ttx w in
  let '(heard, w2) := Next (D := losingDatabase) (mkManager "a" channelName)
                        (mkPg (rows w1) (cache w1) [] (sent w1) (calls w1)) in
  (exists e, o = Err e) /\ (exists e, heard = Err e) /\ inbox w2 = []
  /\ rows w2 !! "k" = Some k2 /\ vals (cache w2) !! "k" = Some k1.
Proof. vm_compute. split; [by eexists|]. split; [by eexists|done]. Qed.

(** ** Witnesses *)

Definition managerA : notificationManager := mkManager "a" channelName.

Definition beforeCommit : PgWorld (T := Item) (B := stringTree) := mkPg (<["k" := k1]> ∅) oneCache [] [] 0.

Lemma Commit_coherent_witness :
  match TableTx_Commit managerA (storeTx k2) beforeCommit with
  | (Ok ttx', w') =>
      rows w' = foldl applyRow (rows beforeCommit) (updates (storeTx k2)) /\ vals (cache w') = rows w'
      /\ (exists msgs, announces managerA (storeTx k2) msgs /\ sent w' = sent beforeCommit ++ msgs)
      /\ fst (TableTx_Commit managerA ttx' w') = Err ErrAlreadyCommitted
  | (Err _, w') => cache w' = cache beforeCommit /\ mayHaveCommitted managerA (storeTx k2) beforeCommit w'
  | _ => False
  end.
Proof. apply (Commit_coherent managerA (storeTx k2) beforeCommit); [apply storeTx_built | reflexivity]. Defined.

Definition twoEvents : list (Event StringKey) :=
  [mkEvent EventTypeDelete "x"; mkEvent EventTypeStore "k"; mkEvent EventTypeStore "x"].

Lemma good_string (k : string) : ValidString k = true -> goodKey (K := StringKey) k.
Proof. intros H. split; [exact H|]. by exists k. Qed.

Lemma notification_roundtrip_witness :
  exists raw evs, Pgcache.encode managerA twoEvents = Ok raw
    /\ Pgcache.decode 0 raw = Ok ("a", evs) /\ serialize evs = serialize twoEvents.
Proof.
  destruct (notification_roundtrip managerA 0 twoEvents
    (bits (countable.encode ("a", map_to_list (serialize twoEvents))))) as (evs & H1 & _ & H2).
  - intros e H. unfold twoEvents in H. rewrite !elem_of_cons in H.
    destruct H as [->|[->|[->|H%elem_of_nil]]]; [| | |done]; (split; [by apply good_string|done]).
  - reflexivity.
  - exists (bits (countable.encode ("a", map_to_list (serialize twoEvents)))), evs.
    split; [reflexivity|]. split; [exact H1|exact H2].
Defined.

(** Both processes after one has stored an object. *)
Definition processA : Replica (B := stringTree) (T := Item) := mkReplica "a" oneCache [] true.
Definition storedA : System :=
  ran twoProcesses 0 processA true
    (snd (TableTx_Commit (manager channelName processA) (storeTx k2) (worldOf twoProcesses processA)))
    (inflight twoProcesses).

Lemma storedA_orderly : rtc (orderly channelName) twoProcesses storedA.
Proof.
  apply rtc_once, orderly_transact.
  apply (transact_intro channelName twoProcesses 0 processA (storeTx k2)
    [mkEvent EventTypeStore ("k" : StringKey)] (mkTableTx (ttxTx (storeTx k2)) [] true));
    [reflexivity | reflexivity | apply storeTx_built | reflexivity | | |].
  - intros e He%list_elem_of_singleton. subst e. by apply good_string.
  - intros s _. reflexivity.
  - apply run_pair. eval_refl.
Qed.

Lemma replicas_converge_witness :
  exists s', rtc (receive channelName) storedA s'
    /\ map ralive (replicas s') = [true; true]
    /\ forall j r, replicas s' !! j = Some r -> ralive r = true -> vals (rcache r) = srows s'.
Proof.
  assert (match perform (AReceive 1) storedA with
          | Some s => quiet s && bool_decide (map ralive (replicas s) = [true; true])
          | None => false
          end = true) as H by eval_refl.
  destruct (perform (AReceive 1) storedA) as [s'|] eqn:E; [|discriminate H].
  apply andb_prop in H as [Hq Hl]. exists s'.
  assert (rtc (receive channelName) storedA s') as Hr by (apply rtc_once, (perform_receive 1), E).
  split; [exact Hr|]. split; [exact (bool_decide_eq_true_1 _ Hl)|].
  exact (proj2 (replicas_converge channelName twoProcesses storedA twoProcesses_initial storedA_orderly)
    s' Hr (quiet_no_receive s' Hq)).
Defined.
