(* ===== verification/Linearize.v ===== *)
(** * The order of dependencies

    lib/ui: the dependencies of a page (dependency/dependency.go) and the order in
    which they are loaded (linearize.go), Kahn's algorithm over maps, whose
    iteration order is the class [RangeKeys], with a cache of its results.

    A node enters the queue once at most: one round for each unit, and one more,
    are enough ([linearize_correct] includes that the loop ends). *)

From stdpp Require Import gmap sorting relations.
From S2P Require Import Prelude GoStrings.
From Stdlib Require Import Strings.Ascii.
#[local] Open Scope Z_scope.
#[local] Set Warnings "-clear-no-such-hyp".

(** ** dependency.go *)

(** A byte. *)
Definition DependencyType : Type := Z.
Definition DependencyTypeInvalid : DependencyType := 0.
Definition DependencyTypeStyle : DependencyType := 1.
Definition DependencyTypeScript : DependencyType := 2.

Definition ErrInvalidDependency : error := PlainError "invalid dependency".
Definition ErrInvalidDependencyType : error := PlainError "invalid dependency type".

Definition ParseDependencyType (raw : string) : outcome DependencyType :=
  if (raw =? "style")%string then Ok DependencyTypeStyle
  else if (raw =? "script")%string then Ok DependencyTypeScript
  else Err (Errorf "could not parse dependency type %q: %w" [ErrInvalidDependencyType]).

Definition DependencyType_String (dt : DependencyType) : string :=
  if dt =? DependencyTypeStyle then "style"
  else if dt =? DependencyTypeScript then "script"
  else "invalid".

Record Dependency : Type := mkDependency { Type_ : DependencyType; Name : string }.

#[export] Instance Dependency_eq_dec : EqDecision Dependency.
Proof. solve_decision. Defined.

#[export] Instance Dependency_countable : Countable Dependency.
Proof.
  apply (inj_countable' (fun d => (Type_ d, Name d)) (fun '(t, n) => mkDependency t n)).
  now intros [].
Defined.

Abbreviation DependencyGraph := (gmap Dependency (list Dependency)).

Definition ParseDependency (raw : string) : outcome Dependency :=
  match Split raw ":" with
  | [type; name] => dt <-? ParseDependencyType type ;; Ok (mkDependency dt name)
  | _ => Err ErrInvalidDependency
  end.

Definition Dependency_String (d : Dependency) : string :=
  DependencyType_String (Type_ d) +:+ ":" +:+ Name d.

(** ** linearize.go *)

Definition ErrCyclicDependency : error :=
  PlainError "cyclic dependency detected: linearization is not possible".

(** The order of an iteration over the keys of a map, each time. *)
Class RangeKeys : Type := { rangeKeys : nat -> gset Dependency -> list Dependency }.
Class RangeKeysLaws (R : RangeKeys) : Prop := {
  rangeKeys_all n s : Permutation (rangeKeys n s) (elements s)
}.

(** A map to the empty struct is the set of its keys; reading a graph where it has
    no key gives the nil slice. *)
Definition needs (graph : DependencyGraph) (dep : Dependency) : list Dependency :=
  default [] (graph !! dep).

Section Linearize.
Context {R : RangeKeys}.

Local Abbreviation degrees := (gmap Dependency Z).
Definition degree (d : degrees) (dep : Dependency) : Z := default 0 (d !! dep).

Definition addEdge (units : gset Dependency) (dep : Dependency) (st : degrees * DependencyGraph)
    (req : Dependency) : degrees * DependencyGraph :=
  let '(inDegree, dependents) := st in
  if decide (req ∈ units)
  then (<[dep := degree inDegree dep + 1]> inDegree,
        <[req := needs dependents req ++ [dep]]> dependents)
  else (inDegree, dependents).

Definition addUnit (units : gset Dependency) (graph : DependencyGraph)
    (st : degrees * DependencyGraph) (dep : Dependency) : degrees * DependencyGraph :=
  let '(inDegree, dependents) := st in
  let inDegree := match inDegree !! dep with Some _ => inDegree | None => <[dep := 0]> inDegree end in
  foldl (addEdge units dep) (inDegree, dependents) (needs graph dep).

Definition release (st : list Dependency * degrees) (dependent : Dependency) : list Dependency * degrees :=
  let '(queue, inDegree) := st in
  let inDegree := <[dependent := degree inDegree dependent - 1]> inDegree in
  (if degree inDegree dependent =? 0 then queue ++ [dependent] else queue, inDegree).

Fixpoint drain (fuel : nat) (dependents : DependencyGraph) (queue : list Dependency)
    (inDegree : degrees) (result : list Dependency) : outcome (list Dependency * degrees) :=
  match fuel with
  | O => Diverge
  | S fuel' =>
      match queue with
      | [] => Ok (result, inDegree)
      | node :: queue' =>
          let '(queue'', inDegree') := foldl release (queue', inDegree) (needs dependents node) in
          drain fuel' dependents queue'' inDegree' (result ++ [node])
      end
  end.

(** The two iterations are the [n]-th and the next of the program. *)
Definition linearize (n : nat) (units : gset Dependency) (graph : DependencyGraph)
    : outcome (list Dependency) :=
  let '(inDegree, dependents) := foldl (addUnit units graph) (∅, ∅) (rangeKeys n units) in
  let queue := filter (fun dep => degree inDegree dep = 0) (rangeKeys (S n) (dom inDegree)) in
  let? (result, inDegree) := drain (S (size units)) dependents queue inDegree [] in
  if len result =? Z.of_nat (size inDegree) then Ok result else Err ErrCyclicDependency.

(** ** What it computes *)

(** [x] and [y] are among the units, and [x] requires [y]. *)
Definition requires (units : gset Dependency) (graph : DependencyGraph) (x y : Dependency) : Prop :=
  x ∈ units /\ y ∈ units /\ y ∈ needs graph x.

Definition acyclic (units : gset Dependency) (graph : DependencyGraph) : Prop :=
  forall x, ~ tc (requires units graph) x x.

(** Every unit once, after the units that it requires. *)
Definition topological (units : gset Dependency) (graph : DependencyGraph) (l : list Dependency) : Prop :=
  Permutation l (elements units)
  /\ forall i x y, l !! i = Some x -> requires units graph x y -> y ∈ take i l.


(** ** Counting *)

Definition occ (x : Dependency) (l : list Dependency) : Z := len (filter (fun y => y = x) l).

Lemma occ_cons x y l : occ x (y :: l) = (if decide (y = x) then 1 else 0) + occ x l.
Proof. unfold occ. rewrite filter_cons. destruct (decide (y = x)); len_lia. Qed.

Lemma occ_app x l k : occ x (l ++ k) = occ x l + occ x k.
Proof. unfold occ. rewrite filter_app. apply len_app. Qed.

Lemma occ_nonneg x l : 0 <= occ x l.
Proof. apply len_nonneg. Qed.

Lemma occ_elem x l : x ∈ l <-> 0 < occ x l.
Proof.
  unfold occ. split.
  - intros H. destruct (filter _ l) as [|y k] eqn:E; [|len_lia].
    assert (x ∈ filter (fun y => y = x) l) as Hx by now apply list_elem_of_filter.
    rewrite E in Hx. now apply elem_of_nil in Hx.
  - intros H. destruct (filter _ l) as [|y k] eqn:E; [len_lia|].
    assert (y ∈ filter (fun y => y = x) l) as Hy by (rewrite E; left).
    now apply list_elem_of_filter in Hy as [-> Hy].
Qed.

Lemma occ_notin x l : x ∉ l -> occ x l = 0.
Proof. intros H. pose proof (occ_nonneg x l). rewrite occ_elem in H. lia. Qed.

Lemma degree_insert d x y z : degree (<[x := z]> d) y = if decide (x = y) then z else degree d y.
Proof. unfold degree. destruct (decide (x = y)) as [->|H]; [now rewrite lookup_insert_eq|now rewrite lookup_insert_ne]. Qed.

Lemma needs_insert (g : DependencyGraph) x y l :
  needs (<[x := l]> g) y = if decide (x = y) then l else needs g y.
Proof. unfold needs. destruct (decide (x = y)) as [->|H]; [now rewrite lookup_insert_eq|now rewrite lookup_insert_ne]. Qed.

(** ** Building the degrees *)

Lemma addEdges_spec units dep reqs d g :
  dep ∈ dom d ->
  let '(d', g') := foldl (addEdge units dep) (d, g) reqs in
  dom d' = dom d
  /\ (forall x, degree d' x
        = degree d x + if decide (x = dep) then len (filter (fun y => y ∈ units) reqs) else 0)
  /\ (forall x y, occ x (needs g' y)
        = occ x (needs g y) + if decide (x = dep /\ y ∈ units) then occ y reqs else 0).
Proof.
  revert d g. induction reqs as [|r reqs IH]; intros d g Hd; cbn [foldl].
  { split; [done|]. split; intros; destruct (decide _); unfold occ, len; cbn; lia. }
  unfold addEdge at 2. rewrite filter_cons. destruct (decide (r ∈ units)) as [Hr|Hr].
  - specialize (IH (<[dep := degree d dep + 1]> d) (<[r := needs g r ++ [dep]]> g)).
    destruct (foldl _ _ reqs) as [d' g']. destruct IH as (H1 & H2 & H3); [set_solver|].
    split; [rewrite H1; set_solver|]. split.
    + intros x. rewrite H2, degree_insert. destruct (decide (dep = x)) as [->|Hx].
      * rewrite !decide_True by done. len_lia.
      * rewrite !decide_False by congruence. lia.
    + intros x y. rewrite H3, needs_insert, occ_cons. destruct (decide (r = y)) as [->|Hy].
      * rewrite occ_app. unfold occ at 2. rewrite filter_cons. cbn [filter list_filter].
        destruct (decide (dep = x)) as [->|Hx].
        -- rewrite !decide_True by done. len_lia.
        -- rewrite !decide_False by (intros [? ?]; congruence). len_lia.
      * destruct (decide _); lia.
  - specialize (IH d g Hd). destruct (foldl _ _ reqs) as [d' g']. destruct IH as (H1 & H2 & H3).
    split; [done|]. split; [done|]. intros x y. rewrite H3, occ_cons.
    destruct (decide (r = y)) as [->|Hy].
    + rewrite !decide_False by tauto. done.
    + destruct (decide _); lia.
Qed.

Lemma addUnits_spec units graph deps d g :
  NoDup deps -> (forall x, x ∈ deps -> x ∉ dom d) ->
  let '(d', g') := foldl (addUnit units graph) (d, g) deps in
  dom d' = dom d ∪ list_to_set deps
  /\ (forall x, degree d' x
        = if decide (x ∈ deps) then len (filter (fun y => y ∈ units) (needs graph x)) else degree d x)
  /\ (forall x y, occ x (needs g' y)
        = occ x (needs g y) + if decide (x ∈ deps /\ y ∈ units) then occ y (needs graph x) else 0).
Proof.
  revert d g. induction deps as [|a deps IH]; intros d g Hn Hd; cbn [foldl].
  { split; [set_solver|]. split; intros; rewrite decide_False by set_solver; lia. }
  apply NoDup_cons in Hn as [Ha Hn]. unfold addUnit at 2.
  assert (d !! a = None) as Ea by (apply not_elem_of_dom, Hd; left). rewrite Ea.
  pose proof (addEdges_spec units a (needs graph a) (<[a := 0]> d) g ltac:(set_solver)) as HE.
  destruct (foldl (addEdge units a) _ _) as [d1 g1]. destruct HE as (H1 & H2 & H3).
  specialize (IH d1 g1 Hn). destruct (foldl (addUnit units graph) _ _) as [d' g'].
  destruct IH as (H4 & H5 & H6); [set_solver|]. split; [rewrite H4, H1; set_solver|]. split.
  - intros x. rewrite H5, H2, degree_insert. destruct (decide (x = a)) as [->|Hx].
    + rewrite (decide_True (P := a = a)) by done. rewrite (decide_False (P := a ∈ deps)) by done.
      rewrite decide_True by left. lia.
    + rewrite (decide_False (P := a = x)) by congruence.
      destruct (decide (x ∈ deps)) as [Hxd|Hxd].
      * rewrite decide_True by now right. done.
      * rewrite decide_False by (intros [?|?]%elem_of_cons; done). lia.
  - intros x y. rewrite H6, H3. destruct (decide (x = a)) as [->|Hx].
    + rewrite (decide_False (P := a ∈ deps /\ y ∈ units)) by tauto.
      destruct (decide (y ∈ units)) as [Hy|Hy].
      * rewrite !decide_True by (split; [first [done|left]|done]). lia.
      * rewrite !decide_False by tauto. lia.
    + rewrite (decide_False (P := x = a /\ y ∈ units)) by tauto. rewrite Z.add_0_r. f_equal.
      destruct (decide (x ∈ deps /\ y ∈ units)) as [Hxd|Hxd].
      * rewrite decide_True by (split; [now right|tauto]). done.
      * rewrite decide_False; [done|]. intros [[?|?]%elem_of_cons ?]; tauto.
Qed.

(** ** Draining the queue *)

(** Releasing the dependents of a node, each as often as it is listed. *)
Lemma releases_spec l queue d :
  (forall x, x ∈ l -> x ∈ dom d) -> (forall x, occ x l <= degree d x \/ x ∉ l) ->
  exists fresh d',
    foldl release (queue, d) l = (queue ++ fresh, d') /\ dom d' = dom d /\ NoDup fresh
    /\ (forall x, degree d' x = degree d x - occ x l)
    /\ (forall x, x ∈ fresh <-> x ∈ l /\ degree d' x = 0).
Proof.
  revert queue d. induction l as [|a l IH]; intros queue d Hd Ho; cbn [foldl].
  { exists [], d. rewrite app_nil_r. split; [done|]. split; [done|]. split; [constructor|].
    split; [intros x; unfold occ, len; cbn; lia|]. intros x. rewrite elem_of_nil. tauto. }
  set (d1 := <[a := degree d a - 1]> d).
  assert (forall x, degree d1 x = degree d x - if decide (a = x) then 1 else 0) as H1.
  { intros x. unfold d1. rewrite degree_insert. destruct (decide (a = x)) as [->|]; lia. }
  assert (occ a (a :: l) = 1 + occ a l) as Ha by (rewrite occ_cons, decide_True; done).
  assert (occ a (a :: l) <= degree d a) as Hda.
  { destruct (Ho a) as [H|H]; [done|]. destruct H. left. }
  change (release (queue, d) a) with (if degree d1 a =? 0 then queue ++ [a] else queue, d1).
  destruct (IH (if degree d1 a =? 0 then queue ++ [a] else queue) d1) as (fresh & d' & E & H2 & H3 & H4 & H5).
  - intros x Hx. assert (x ∈ dom d) by (apply Hd; by right). subst d1. set_solver.
  - intros x. rewrite H1. destruct (decide (a = x)) as [<-|Hx]; [left; lia|].
    destruct (Ho x) as [H|H]; [left|right; intros Hl; apply H; by right].
    rewrite occ_cons, decide_False in H by done. lia.
  - pose proof (H4 a) as H4a. rewrite H1, decide_True in H4a by done.
    assert (dom d' = dom d) as Hdom.
    { rewrite H2. subst d1. assert (a ∈ dom d) by (apply Hd; left). set_solver. }
    assert (forall x, degree d' x = degree d x - occ x (a :: l)) as H6.
    { intros x. rewrite H4, H1, occ_cons. lia. }
    rewrite E. clear E. rewrite H1, decide_True by done. destruct (Z.eqb_spec (degree d a - 1) 0) as [E0|E0].
    + assert (a ∉ l) as Hal. { intros H%occ_elem. lia. }
      exists (a :: fresh), d'. rewrite <- app_assoc. split; [done|]. split; [done|].
      split; [constructor; [|done]; rewrite H5; tauto|]. split; [done|].
      intros x. rewrite !elem_of_cons, H5. split; [|tauto].
      intros [->|?]; [|tauto]. split; [by left|]. pose proof (occ_notin a l Hal). lia.
    + exists fresh, d'. split; [done|]. split; [done|]. split; [done|]. split; [done|].
      intros x. rewrite elem_of_cons, H5. split; [tauto|]. intros [[->|?] H0]; [|tauto].
      split; [|done]. apply occ_elem. pose proof (occ_nonneg a l). lia.
Qed.

Section Drain.
Context (units : gset Dependency) (graph : DependencyGraph) (dependents : DependencyGraph).
Context (Hdep : forall x y,
  occ x (needs dependents y) = if decide (x ∈ units /\ y ∈ units) then occ y (needs graph x) else 0).
#[local] Set Default Proof Using "All".

(** The requirements of a unit that are not in the result. *)
Definition pending (result : list Dependency) (x : Dependency) : list Dependency :=
  filter (fun y => y ∈ units /\ y ∉ result) (needs graph x).

Definition sorted (l : list Dependency) : Prop :=
  forall i x y, l !! i = Some x -> requires units graph x y -> y ∈ take i l.

Definition draining (queue : list Dependency) (d : degrees) (result : list Dependency) : Prop :=
  NoDup (result ++ queue) /\ dom d = units /\ sorted result
  /\ (forall x, x ∈ result ++ queue <-> x ∈ units /\ degree d x = 0)
  /\ (forall x, x ∈ units -> degree d x = len (pending result x)).

Lemma pending_snoc result node x :
  node ∈ units -> node ∉ result ->
  len (pending (result ++ [node]) x) = len (pending result x) - occ node (needs graph x).
Proof.
  intros Hu Hn. unfold pending. induction (needs graph x) as [|y l IH]; [done|].
  rewrite !filter_cons, occ_cons. destruct (decide (y = node)) as [->|Hy].
  - rewrite decide_False by set_solver. rewrite decide_True by done. len_lia.
  - destruct (decide (y ∈ units /\ y ∉ result)) as [H|H].
    + rewrite decide_True by set_solver. len_lia.
    + rewrite decide_False by set_solver. len_lia.
Qed.

Lemma pending_occ result node x :
  node ∈ units -> node ∉ result -> occ node (needs graph x) <= len (pending result x).
Proof. intros Hu Hn. pose proof (pending_snoc result node x Hu Hn). len_lia. Qed.

Lemma sorted_snoc result node :
  sorted result -> (forall y, requires units graph node y -> y ∈ result) -> sorted (result ++ [node]).
Proof.
  intros Hs Hn i x y Hi Hr. destruct (decide (i < length result)%nat) as [Hl|Hl].
  - rewrite lookup_app_l in Hi by done. rewrite take_app_le by lia. by apply (Hs i x).
  - rewrite lookup_app_r in Hi by lia. apply list_lookup_singleton_Some in Hi as [Hi <-].
    rewrite take_app_ge by lia. apply elem_of_app. left. auto.
Qed.

Lemma pending_nil result x y : len (pending result x) = 0 -> requires units graph x y -> y ∈ result.
Proof.
  intros H (_ & Hy & Hn). destruct (decide (y ∈ result)) as [|Hr]; [done|]. exfalso.
  assert (y ∈ pending result x) as Hp by (apply list_elem_of_filter; done).
  destruct (pending result x); [by apply elem_of_nil in Hp|]. len_lia.
Qed.

Lemma drain_step node queue d result :
  draining (node :: queue) d result ->
  exists queue' d', foldl release (queue, d) (needs dependents node) = (queue', d')
    /\ draining queue' d' (result ++ [node]).
Proof.
  intros (Hn & Hdom & Hs & Hin & Hdeg).
  assert (node ∈ units /\ degree d node = 0) as [Hu H0] by (apply Hin; set_solver).
  assert (node ∉ result) as Hnr.
  { apply NoDup_app in Hn as (_ & Hn & _). intros H. apply (Hn _ H). left. }
  destruct (releases_spec (needs dependents node) queue d) as (fresh & d' & E & H1 & H2 & H3 & H4).
  - intros x Hx%occ_elem. rewrite Hdep in Hx. rewrite Hdom. destruct (decide _); [tauto|lia].
  - intros x. destruct (decide (x ∈ units)) as [Hx|Hx]; [left|right].
    + rewrite Hdep, decide_True, Hdeg by done. by apply pending_occ.
    + intros H%occ_elem. rewrite Hdep, decide_False in H by tauto. lia.
  - assert (forall x, x ∈ units -> degree d' x = len (pending (result ++ [node]) x)) as Hdeg'.
    { intros x Hx. rewrite H3, Hdep, decide_True, Hdeg, pending_snoc by done. lia. }
    exists (queue ++ fresh), d'. split; [done|]. split; [|split; [congruence|split; [|split; [|done]]]].
    + replace ((result ++ [node]) ++ queue ++ fresh) with ((result ++ node :: queue) ++ fresh)
        by (rewrite <- !app_assoc; done).
      apply NoDup_app. split; [done|]. split; [|done]. intros x Hx [Hf Hz]%H4.
      apply Hin in Hx as [Hx Hx0]. apply occ_elem in Hf. rewrite H3 in Hz. lia.
    + apply sorted_snoc; [done|]. intros y. apply pending_nil. by rewrite <- Hdeg.
    + intros x. replace ((result ++ [node]) ++ queue ++ fresh) with ((result ++ node :: queue) ++ fresh)
        by (rewrite <- !app_assoc; done).
      rewrite elem_of_app, Hin, H4, occ_elem, H3. split.
      * intros [[Hx Hx0]|[Ho Hx0]].
        -- split; [done|]. pose proof (occ_nonneg x (needs dependents node)).
           rewrite <- H3, Hdeg' by done. pose proof (len_nonneg (pending (result ++ [node]) x)).
           rewrite <- Hdeg', H3 in * by done. lia.
        -- rewrite Hdep in Ho. destruct (decide _); [tauto|lia].
      * intros [Hx Hx0]. pose proof (occ_nonneg x (needs dependents node)).
        destruct (decide (occ x (needs dependents node) = 0)); [left|right]; split; done || lia.
Qed.

Lemma draining_length queue d result : draining queue d result -> (length (result ++ queue) <= size units)%nat.
Proof.
  intros (Hn & _ & _ & Hin & _). rewrite <- (size_list_to_set (C := gset Dependency)) by done.
  apply subseteq_size. intros x Hx%elem_of_list_to_set. by apply Hin in Hx as [].
Qed.

Lemma drain_spec fuel queue d result :
  draining queue d result -> (size units < fuel + length result)%nat ->
  exists result' d', drain fuel dependents queue d result = Ok (result', d') /\ draining [] d' result'.
Proof.
  revert queue d result. induction fuel as [|fuel IH]; intros queue d result Hd Hf.
  { apply draining_length in Hd. rewrite length_app in Hd. lia. }
  cbn [drain]. destruct queue as [|node queue]; [by eauto|].
  destruct (drain_step _ _ _ _ Hd) as (queue' & d' & -> & Hd'). apply IH; [done|].
  rewrite length_app. cbn. lia.
Qed.

(** Without cycles nothing is left out. *)
Lemma drained_all d result :
  draining [] d result -> acyclic units graph -> forall x, x ∈ units -> x ∈ result.
Proof.
  intros (_ & _ & _ & Hin & Hdeg) Ha x Hx. rewrite app_nil_r in Hin.
  assert (sn (requires units graph) x) as Hsn.
  { apply tc_finite_sn; [intros z; apply Ha|]. exists (elements units). intros y Hy. apply elem_of_elements.
    clear -Hy. induction Hy as [? ? (_ & ? & _)|]; done. }
  induction Hsn as [x _ IH]. destruct (decide (x ∈ result)) as [|Hr]; [done|]. exfalso.
  assert (degree d x <> 0) as H0 by (intros E; apply Hr, Hin; done).
  rewrite Hdeg in H0 by done. destruct (pending result x) as [|y l] eqn:E; [done|].
  assert (y ∈ pending result x) as Hy by (rewrite E; left).
  apply list_elem_of_filter in Hy as [[Hyu Hyr] Hy]. apply Hyr, IH; done.
Qed.

(** All the units are in the result exactly when it is long enough. *)
Lemma drained_length d result :
  draining [] d result ->
  len result = Z.of_nat (size units) <-> Permutation result (elements units).
Proof.
  intros (Hn & _ & _ & Hin & _). rewrite app_nil_r in Hn, Hin.
  assert (length result = size (list_to_set result : gset Dependency)) as Hlen by (by rewrite size_list_to_set).
  split.
  - intros E. apply NoDup_Permutation; [done|apply NoDup_elements|]. intros x. rewrite elem_of_elements.
    assert (list_to_set result = units) as <-; [|by rewrite elem_of_list_to_set].
    apply set_subseteq_size_eq; [|unfold len in E; lia].
    intros y Hy%elem_of_list_to_set. by apply Hin.
  - intros Hp. unfold len. f_equal. rewrite Hp. done.
Qed.
End Drain.

Lemma topological_acyclic units graph l : topological units graph l -> acyclic units graph.
Proof.
  intros [Hp Hs].
  assert (forall x y, tc (requires units graph) x y ->
            forall i, l !! i = Some x -> exists j, (j < i)%nat /\ l !! j = Some y) as Ht.
  { induction 1 as [x y Hr|x y z Hr _ IH]; intros i Hi;
      pose proof (Hs i x y Hi Hr) as [j Hj]%list_elem_of_lookup_1;
      apply lookup_take_Some in Hj as [Hj Hlt]; [by eauto|].
    destruct (IH j Hj) as (k & Hk & Hz). exists k. split; [lia|done]. }
  intros x Hx. assert (x ∈ l) as [i Hi]%list_elem_of_lookup_1.
  { rewrite Hp. apply elem_of_elements.
    assert (exists y, requires units graph x y) as [y []] by (inversion Hx; subst; eauto). done. }
  assert (NoDup l) as Hn by (rewrite Hp; apply NoDup_elements).
  destruct (Ht x x Hx i Hi) as (j & Hj & Hl). assert (i = j) by (by eapply NoDup_lookup). lia.
Qed.

Context {RL : RangeKeysLaws R}.

Lemma elem_rangeKeys n s x : x ∈ rangeKeys n s <-> x ∈ s.
Proof using RL. by rewrite rangeKeys_all, elem_of_elements. Qed.

(** The degrees, the dependents and the queue before the loop. *)
Lemma degrees_draining n units graph d g :
  foldl (addUnit units graph) (∅, ∅) (rangeKeys n units) = (d, g) ->
  dom d = units
  /\ (forall x y, occ x (needs g y) = if decide (x ∈ units /\ y ∈ units) then occ y (needs graph x) else 0)
  /\ draining units graph (filter (fun dep => degree d dep = 0) (rangeKeys (S n) (dom d))) d [].
Proof using RL.
  intros E. pose proof (addUnits_spec units graph (rangeKeys n units) ∅ ∅) as HU. rewrite E in HU.
  pose proof (elem_rangeKeys n units) as Hr.
  destruct HU as (H1 & H2 & H3); [rewrite rangeKeys_all; apply NoDup_elements | set_solver|].
  assert (dom d = units) as Hdom by set_solver. split; [done|]. split.
  { intros x y. rewrite H3. unfold needs at 1. rewrite lookup_empty. cbn [default].
    destruct (decide (x ∈ units /\ y ∈ units)).
    - rewrite decide_True by (rewrite Hr; done). done.
    - rewrite decide_False by (rewrite Hr; done). done. }
  split; [apply NoDup_filter; rewrite rangeKeys_all; apply NoDup_elements|].
  split; [done|]. split; [by intros i x y Hi|]. split.
  - intros x. cbn [app]. rewrite list_elem_of_filter, elem_rangeKeys, Hdom. tauto.
  - intros x Hx. rewrite H2, decide_True by (by apply Hr). unfold pending. f_equal.
    apply list_filter_iff. intros y. rewrite elem_of_nil. tauto.
Qed.

(** Linearization ends: it gives every unit once, after the units that it
    requires, if the requirements have no cycle, and ErrCyclicDependency if they
    have one, whatever the order in which the maps are iterated over. *)
Lemma linearize_correct (n : nat) (units : gset Dependency) (graph : DependencyGraph) :
  match linearize n units graph with
  | Ok l => topological units graph l /\ acyclic units graph
  | Err e => e = ErrCyclicDependency /\ ~ acyclic units graph
  | _ => False
  end.
Proof using RL.
  unfold linearize. destruct (foldl _ _ (rangeKeys n units)) as [d g] eqn:E.
  apply degrees_draining in E as (Hdom & Hg & Hd).
  destruct (drain_spec units graph g Hg (S (size units)) _ _ _ Hd ltac:(cbn; lia)) as (l & d' & -> & Hl).
  cbn [obind]. pose proof (drained_length units graph g Hg d' l Hl) as Hlen.
  pose proof (drained_all units graph g Hg d' l Hl) as Hall.
  destruct Hl as (Hn & Hdom' & Hs & Hin & _). rewrite app_nil_r in Hn, Hin.
  assert (size (dom d') = size d') as Hsz by apply size_dom. rewrite Hdom' in Hsz. rewrite <- Hsz.
  destruct (Z.eqb_spec (len l) (Z.of_nat (size units))) as [Ez|Ez]; rewrite Hlen in Ez.
  - assert (topological units graph l) as Ht by done. eauto using topological_acyclic.
  - split; [done|]. intros Ha. apply Ez, NoDup_Permutation; [done|apply NoDup_elements|].
    intros x. rewrite elem_of_elements. split; [|by apply Hall].
    intros Hx. by apply Hin.
Qed.
End Linearize.

(** ** The cache of linearizations *)

(** The package crypto/sha256. *)
Class Sha256 : Type := { Sum256 : string -> string }.

(** [sort.Strings] *)
Definition notAfter (a b : string) : Prop := lessThan b a = false.
#[local] Instance notAfter_dec a b : Decision (notAfter a b).
Proof. unfold notAfter. apply _. Defined.
Definition sortStrings (l : list string) : list string := merge_sort notAfter l.

#[local] Instance strings_trans : Transitive notAfter.
Proof.
  unfold notAfter. intros a b c H1 H2. destruct (lessThan c a) eqn:E; [|done].
  destruct (lessThan b c) eqn:E3; [by rewrite (lessThan_trans b c a) in H1|].
  by rewrite (lessThan_total b c), E in H1 by done.
Qed.
#[local] Instance strings_total : Total notAfter.
Proof.
  unfold notAfter. intros a b. destruct (lessThan b a) eqn:E1; [right|by left].
  destruct (lessThan a b) eqn:E2; [|done]. pose proof (lessThan_trans _ _ _ E1 E2) as H.
  by rewrite lessThan_irrefl in H.
Qed.
#[local] Instance strings_anti : AntiSymm (=) notAfter.
Proof. intros a b H1 H2. by apply lessThan_total. Qed.

Lemma sortStrings_perm l k : Permutation l k -> sortStrings l = sortStrings k.
Proof.
  intros H. apply (StronglySorted_unique notAfter).
  - apply (StronglySorted_merge_sort _).
  - apply (StronglySorted_merge_sort _).
  - unfold sortStrings. by rewrite !merge_sort_Permutation.
Qed.

Section Cache.
Context {R : RangeKeys} {S256 : Sha256}.

(** The cache of the renderer, and the iterations made so far. *)
Record LinearizeState : Type := mkLinearize { linearized : gmap string (list Dependency); ranges : nat }.

Definition cacheKey (n : nat) (units : gset Dependency) : string :=
  Sum256 (Join (sortStrings (map Dependency_String (rangeKeys n units))) ",").

Definition Linearize (units : gset Dependency) (graph : DependencyGraph)
    : Go LinearizeState (list Dependency) :=
  st <-- get ;;
  let n := ranges st in
  let key := cacheKey n units in
  match linearized st !! key with
  | Some cached => put (mkLinearize (linearized st) (1 + n)) ;;; ret cached
  | None =>
      put (mkLinearize (linearized st) (3 + n)) ;;;
      result <-- lift (linearize (1 + n) units graph) ;;
      modify (fun st => mkLinearize (<[key := result]> (linearized st)) (ranges st)) ;;;
      ret result
  end.

Context {RL : RangeKeysLaws R}.

Lemma cacheKey_order n m units : cacheKey n units = cacheKey m units.
Proof using RL.
  unfold cacheKey. do 2 f_equal. apply sortStrings_perm. apply Permutation_map.
  by rewrite !rangeKeys_all.
Qed.

(** The units of the pages: no two sets of them have the same key. *)
Context (pages : gset Dependency -> Prop).
Definition distinctKeys : Prop :=
  forall u u' n, pages u -> pages u' -> cacheKey n u = cacheKey n u' -> u = u'.

(** What is cached are orders for the graph. *)
Definition cacheOk (graph : DependencyGraph) (st : LinearizeState) : Prop :=
  forall u n l, pages u -> linearized st !! cacheKey n u = Some l -> topological u graph l.

(** What a call gives, cached or not. *)
Lemma Linearize_orders (units : gset Dependency) (graph : DependencyGraph) (st : LinearizeState) :
  distinctKeys -> pages units -> cacheOk graph st ->
  match Linearize units graph st with
  | (Ok l, st') => topological units graph l /\ cacheOk graph st' /\ linearized st' !! cacheKey (ranges st) units = Some l
  | (Err e, st') => e = ErrCyclicDependency /\ ~ acyclic units graph /\ linearized st' = linearized st
  | _ => False
  end.
Proof using RL.
  intros Hd Hu Hc. unfold Linearize, bind, get, put, ret, lift, modify. cbn.
  destruct (linearized st !! cacheKey (ranges st) units) as [l|] eqn:E.
  - split; [by eapply Hc|]. by split.
  - pose proof (linearize_correct (1 + ranges st) units graph) as HL. cbn in HL.
    destruct (linearize _ units graph) as [l|e|p|]; try done; [|by destruct HL].
    destruct HL as [Ht _]. split; [done|]. split; [|cbn; by rewrite lookup_insert_eq].
    intros u n l' Hu' H. cbn in H. rewrite (cacheKey_order n (ranges st)) in H.
    apply lookup_insert_Some in H as [[Hk <-]|[_ H]]; [|by eapply Hc].
    by rewrite <- (Hd units u (ranges st)).
Qed.

(** Linearize ends: it gives every unit once, after the units that it requires,
    in the same order ever after, or ErrCyclicDependency, in which case the
    requirements have a cycle; whatever the order in which maps are iterated over. *)
Theorem Linearize_cached (units : gset Dependency) (graph : DependencyGraph) (st : LinearizeState) :
  distinctKeys -> pages units -> cacheOk graph st ->
  match Linearize units graph st with
  | (Ok l, st') =>
      topological units graph l /\ cacheOk graph st'
      /\ forall graph' n, Linearize units graph' (mkLinearize (linearized st') n)
                          = (Ok l, mkLinearize (linearized st') (S n))
  | (Err e, st') => e = ErrCyclicDependency /\ ~ acyclic units graph /\ linearized st' = linearized st
  | _ => False
  end.
Proof using RL.
  intros Hd Hu Hc. pose proof (Linearize_orders units graph st Hd Hu Hc) as H.
  destruct (Linearize units graph st) as [[l|e|p|] st']; try done. destruct H as (H1 & H2 & H3).
  split; [done|]. split; [done|]. intros graph' n. unfold Linearize, bind, get, put, ret. cbn.
  by rewrite (cacheKey_order n (ranges st)), H3.
Qed.
End Cache.

(** ** Parsing *)

(** Printing a dependency and parsing it gives it back exactly when it is of a
    known type and its name has no colon; anything else is refused. *)
Theorem ParseDependency_String (d : Dependency) :
  ParseDependency (Dependency_String d) = Ok d
  <-> (Type_ d = DependencyTypeStyle \/ Type_ d = DependencyTypeScript) /\ lacks ":" (Name d) = true.
Proof.
  destruct d as [t n]. unfold ParseDependency, Dependency_String, DependencyType_String. cbn [Type_ Name].
  assert (forall h, lacks ":" h = true -> Split (h +:+ ":" +:+ n) ":" = h :: Split n ":") as Hs.
  { intros h Hh. by apply Split_app_sep. }
  rewrite Hs by (repeat case_match; reflexivity).
  split.
  - intros H. destruct (Split n ":") as [|n' [|]] eqn:E; try done.
    pose proof (Split_lacks n ":") as Hl. rewrite E in Hl. apply Forall_cons in Hl as [Hl _].
    repeat case_match; cbn in H; try discriminate; injection H as <- <-;
      (split; [first [by left | by right]|done]).
  - intros [Ht Hl]. rewrite Split_single by done. by destruct Ht as [->| ->].
Qed.

(** ** Witnesses *)

Definition elementsOrder : RangeKeys := {| rangeKeys := fun _ s => elements s |}.

#[export] Instance elementsOrder_laws : RangeKeysLaws elementsOrder.
Proof. done. Qed.

Definition plainSha : Sha256 := {| Sum256 := fun s => s |}.

Definition depA : Dependency := mkDependency DependencyTypeScript "a".
Definition depB : Dependency := mkDependency DependencyTypeScript "b".
Definition sampleUnits : gset Dependency := {[ depA; depB ]}.
Definition sampleGraph : DependencyGraph := {[ depA := [depB; depB] ]}.

Example linearize_sample : linearize (R := elementsOrder) 0 sampleUnits sampleGraph = Ok [depB; depA].
Proof. reflexivity. Qed.

Example linearize_cycle :
  linearize (R := elementsOrder) 0 sampleUnits (<[depB := [depA]]> sampleGraph) = Err ErrCyclicDependency.
Proof. reflexivity. Qed.

Lemma Linearize_cached_witness :
  exists st, Linearize (R := elementsOrder) (S256 := plainSha) sampleUnits sampleGraph (mkLinearize ∅ 0)
             = (Ok [depB; depA], st)
    /\ topological sampleUnits sampleGraph [depB; depA]
    /\ Linearize (R := elementsOrder) (S256 := plainSha) sampleUnits ∅ (mkLinearize (linearized st) 7)
       = (Ok [depB; depA], mkLinearize (linearized st) 8).
Proof.
  pose proof (Linearize_cached (R := elementsOrder) (S256 := plainSha) (fun u => u = sampleUnits)
    sampleUnits sampleGraph (mkLinearize ∅ 0)) as H.
  assert (fst (Linearize (R := elementsOrder) (S256 := plainSha) sampleUnits sampleGraph (mkLinearize ∅ 0))
          = Ok [depB; depA]) as E by eval_refl.
  destruct (Linearize _ _ _) as [o st]. cbn in E. subst o. destruct H as (H1 & _ & H2).
  - intros u u' n -> ->. done.
  - done.
  - intros u n l _ H. destruct (lookup_empty_Some _ _ H).
  - exists st. split; [done|]. split; [exact H1|]. exact (H2 ∅ 7%nat).
Defined.

(** The names of the units are joined by commas, which a name may hold. *)
Lemma cacheKey_ambiguous :
  cacheKey (R := elementsOrder) (S256 := plainSha) 0
    {[ mkDependency DependencyTypeStyle "a"; mkDependency DependencyTypeStyle "b" ]}
  = cacheKey (R := elementsOrder) (S256 := plainSha) 0 {[ mkDependency DependencyTypeStyle "a,style:b" ]}.
Proof. reflexivity. Qed.
