(* ===== verification/S3Cache.v ===== *)
(** * The cache of S3 objects

    lib/s3cache: the metadata of the cached objects (metadata.go), atomic writes
    (util.go) and the read-through cache on disk (s3cache.go).

    The disk is a map from paths to contents; S3, the clock, random identifiers and
    the failures of the system are the class [S3Env], asked with the number of
    calls made so far, and S3 also with what it was asked to change so far.  The operations are sequential: the locks and the
    singleflight group are left out, and so are logs and the creation of
    directories, of which only the failure is kept. *)

From stdpp Require Import gmap sorting.
From S2P Require Import Prelude GoStrings GoPath.
From Stdlib Require Import Strings.Ascii.
#[local] Open Scope Z_scope.
#[local] Set Warnings "-clear-no-such-hyp".

(** ** hash.go *)

Definition Hash : Type := string.
Definition ZeroHash : Hash := "".
Definition Hash_IsZero (h : Hash) : bool := (h =? "")%string.

(** ** metadata.go: the entries *)

Definition v1MetadataFileName : string := "v1.metadata.json".

(** Times are in nanoseconds. *)
Record entry : Type := mkEntry {
  ID : string;
  Key : string;
  ehash : Hash;
  Size : Z;
  StoredAt : Z;
  lastAccess : Z
}.

(** [filepath.Split] and the pattern of a temporary file. *)
Fixpoint lastSlash (s : string) : nat :=
  match s with
  | EmptyString => 0
  | String c s' =>
      match lastSlash s' with
      | O => if (c =? slash)%char then 1 else 0
      | S n => S (S n)
      end
  end%nat.
Definition SplitPath (path : string) : string * string :=
  (takeString (lastSlash path) path, dropString (lastSlash path) path).

Definition ErrNotExist : error := PlainError "file does not exist".
Definition isNotExist (e : error) : bool :=
  match e with PlainError msg => (msg =? "file does not exist")%string | _ => false end.

(** What S3 is asked to change; it is asked for, whatever the answer is. *)
Inductive s3Request : Type :=
| PutRequest (key data : string)
| RemoveRequest (key : string).

(** What the cache asks of the world. *)
Class S3Env : Type := {
  ioError : nat -> option error;
  written : nat -> nat;
  now : nat -> Z;
  newUUID : nat -> string;
  createTemp : nat -> gset string -> string -> string -> string;
  diskCapacity : nat -> outcome Z;
  rangeEntries : nat -> gmap string entry -> list entry;
  marshal : list entry -> outcome string;
  unmarshal : string -> outcome (list entry);
  putObject : nat -> list s3Request -> string -> string -> outcome Hash;
  getObject : nat -> list s3Request -> string -> option error;
  statObject : nat -> list s3Request -> string -> outcome Hash;
  readObject : nat -> list s3Request -> string -> outcome string;
  closeObject : nat -> string -> option error;
  removeObject : nat -> list s3Request -> string -> option error
}.

(** The disk, the entries by their key, the size of the metadata file, the number of
    calls, and the requests made of S3, the latest first. *)
Record S3World : Type := mkS3 {
  files : gmap string string;
  byKey : gmap string entry;
  msize : Z;
  s3calls : nat;
  requests : list s3Request
}.

Record S3Cache : Type := mkS3Cache { path : string; capacity : Z }.

Section S3.
Context {E : S3Env}.

Definition call : Go S3World nat :=
  fun w => (Ok (s3calls w), mkS3 (files w) (byKey w) (msize w) (S (s3calls w)) (requests w)).

Definition setFiles (f : gmap string string -> gmap string string) : Go S3World unit :=
  modify (fun w => mkS3 (f (files w)) (byKey w) (msize w) (s3calls w) (requests w)).
Definition setEntries (f : gmap string entry -> gmap string entry) : Go S3World unit :=
  modify (fun w => mkS3 (files w) (f (byKey w)) (msize w) (s3calls w) (requests w)).

Definition request (r : s3Request) : Go S3World (list s3Request) :=
  fun w => (Ok (requests w), mkS3 (files w) (byKey w) (msize w) (s3calls w) (r :: requests w)).

(** A system call that may fail. *)
Definition io : Go S3World unit :=
  n <-- call ;; match ioError n with Some e => fail e | None => ret tt end.

Definition readFile (name : string) : Go S3World string :=
  io ;;; w <-- get ;; match files w !! name with Some data => ret data | None => fail ErrNotExist end.

Definition removeFile (name : string) : Go S3World unit :=
  io ;;; w <-- get ;;
  match files w !! name with Some _ => setFiles (delete name) | None => fail ErrNotExist end.

(** An error that is only logged. *)
Definition logged (m : Go S3World unit) : Go S3World unit :=
  fun w => match m w with (Err _, w') => (Ok tt, w') | r => r end.

(** ** util.go *)

(** io.Copy may fail after a part of the data. *)
Definition copyTo (name data : string) : Go S3World unit :=
  n <-- call ;;
  match ioError n with
  | Some e => setFiles (<[name := takeString (written n) data]>) ;;; fail e
  | None => setFiles (<[name := data]>)
  end.

Definition writeFileAtomic (name data : string) : Go S3World unit :=
  let (dir, pattern) := SplitPath name in
  temp <-- wrapf "error while creating temporary file: %w" []
    (io ;;; n <-- call ;; w <-- get ;;
     let temp := createTemp n (dom (files w)) dir pattern in
     setFiles (<[temp := ""]>) ;;; ret temp) ;;
  wrapf "error while writing data to temporary file: %w" [] (copyTo temp data) ;;;
  wrapf "error while closing temporary file after write: %w" [] io ;;;
  io ;;;
  setFiles (fun fs => <[name := data]> (delete temp fs)).

(** ** metadata.go: the store *)

Definition metadataPath (c : S3Cache) : string := JoinPath [path c; v1MetadataFileName].

Definition loadEntry (m : gmap string entry) (e : entry) : gmap string entry :=
  <[Key e := mkEntry (ID e) (Key e) (ehash e) (Size e) (StoredAt e) (StoredAt e)]> m.

(** The metadata of an empty map and no known size, or read from the disk. *)
Definition newMetadataStore (c : S3Cache) : Go S3World unit :=
  modify (fun w => mkS3 (files w) ∅ 0 (s3calls w) (requests w)) ;;;
  fun w =>
    match readFile (metadataPath c) w with
    | (Err e, w') =>
        if isNotExist e then (Ok tt, w')
        else (Err (Errorf "error while reading s3 metadata: %w" [e]), w')
    | (Ok raw, w') =>
        (entries <-- wrapf "error while unmarshaling s3 metadata (v1): %w" [] (lift (unmarshal raw)) ;;
         setEntries (fun m => fold_left loadEntry entries m)) w'
    | (Panic p, w') => (Panic p, w')
    | (Diverge, w') => (Diverge, w')
    end.

Definition persistLocked (c : S3Cache) : Go S3World unit :=
  n <-- call ;;
  w <-- get ;;
  data <-- wrapf "error while marshaling metadata: %w" [] (lift (marshal (rangeEntries n (byKey w)))) ;;
  modify (fun w => mkS3 (files w) (byKey w) (Z.of_nat (String.length data)) (s3calls w) (requests w)) ;;;
  writeFileAtomic (metadataPath c) data.

Definition meta_get (key : string) : Go S3World (option entry) := w <-- get ;; ret (byKey w !! key).

Definition touch (key : string) : Go S3World unit :=
  n <-- call ;;
  setEntries (fun m =>
    match m !! key with
    | Some e => <[key := mkEntry (ID e) (Key e) (ehash e) (Size e) (StoredAt e) (now n)]> m
    | None => m
    end).

Definition resolveUID (key : string) : Go S3World (string * Z) :=
  w <-- get ;;
  match byKey w !! key with
  | Some e => ret (ID e, Size e)
  | None => n <-- call ;; ret (newUUID n, 0)
  end.

(** An entry keeps the identifier that it has. *)
Definition meta_put (key id : string) (hash : Hash) (size : Z) : Go S3World unit :=
  n <-- call ;;
  m <-- call ;;
  setEntries (fun es =>
    let id := match es !! key with Some e => ID e | None => id end in
    <[key := mkEntry id key hash size (now n) (now m)]> es).

Definition meta_remove (key : string) : Go S3World unit := setEntries (delete key).

Definition cacheSize (es : gmap string entry) : Z := map_fold (fun _ e total => total + Size e) 0 es.

(** Least recently used first. *)
Definition olderFirst (a b : entry) : Prop := lastAccess a <= lastAccess b.
#[local] Instance olderFirst_dec a b : Decision (olderFirst a b).
Proof. unfold olderFirst. apply _. Defined.

Definition lruHeap : Go S3World (list entry) :=
  n <-- call ;; w <-- get ;; ret (merge_sort olderFirst (rangeEntries n (byKey w))).

(** ** s3cache.go *)

Definition ErrS3CachePathRequired : error := PlainError "path is required to initialize an s3cache".
Definition ErrS3CacheBucketRequired : error := PlainError "bucket is required to initialize an s3cache".

Definition NewS3Cache (Path Bucket : string) : Go S3World S3Cache :=
  if (Path =? "")%string then fail ErrS3CachePathRequired
  else if (Bucket =? "")%string then fail ErrS3CacheBucketRequired
  else
    n <-- call ;;
    cap <-- wrapf "error while fetching the cache size at %q: %w" [] (lift (diskCapacity n)) ;;
    let c := mkS3Cache Path cap in
    wrapf "error while loading the metadata store: %w" [] (newMetadataStore c) ;;;
    ret c.

Variable c : S3Cache.

Definition dataPath (uid : string) : string :=
  JoinPath [path c; takeString 2 uid; dropString 2 uid].

Definition cap : Go S3World Z :=
  w <-- get ;; ret (capacity c - msize w - cacheSize (byKey w)).

Definition readCached (key : string) (expected : Hash) : Go S3World (option string) :=
  found <-- meta_get key ;;
  match found with
  | None => ret None
  | Some e =>
      if negb (ehash e =? expected)%string then ret None
      else
        data <-- wrapf "error while reading from filesystem cache: %w" [] (readFile (dataPath (ID e))) ;;
        touch key ;;;
        ret (Some data)
  end.

(** The candidates are removed from the metadata while [freed] is below [diff]. *)
Fixpoint evict (heap : list entry) (freed diff : Z) (drop : list entry) : Go S3World (list entry) :=
  match heap with
  | [] => ret drop
  | candidate :: heap' =>
      if freed <? diff
      then meta_remove (Key candidate) ;;;
           evict heap' (freed - Size candidate) diff (drop ++ [candidate])
      else ret drop
  end.

Definition reclaimSpace (diff : Z) : Go S3World unit :=
  heap <-- lruHeap ;;
  drop <-- evict heap 0 diff [] ;;
  wrapf "error while writing to s3 cache after removing %d entries: %w" [] (persistLocked c) ;;;
  forEach drop tt (fun _ candidate =>
    wrapf "error while removing S3 cached key (file): %w" [] (removeFile (dataPath (ID candidate)))).

Definition store (key data : string) (hash : Hash) : Go S3World unit :=
  let! (uid, oldSize) := resolveUID key in
  let newSize := Z.of_nat (String.length data) in
  let sizeDiff := newSize - oldSize in
  if capacity c <=? newSize then ret tt
  else
    room <-- cap ;;
    (if room <? sizeDiff
     then wrapf "error while reclaiming cache space: %w" [] (reclaimSpace sizeDiff)
     else ret tt) ;;;
    wrapf "error while creating base directory for S3 cache entry: %w" [] io ;;;
    wrapf "error while writing S3 cache entry to disk: %w" [] (writeFileAtomic (dataPath uid) data) ;;;
    meta_put key uid hash newSize ;;;
    wrapf "error while writing to s3 cache after adding new entry: %w" [] (persistLocked c).

(** The deferred close of the object sets the error, if there is none yet, to one
    that wraps the error of the fetch, that is nil. *)
Definition closing {A} (n : nat) (key : string) (m : Go S3World A) : Go S3World A :=
  fun w =>
    match m w with
    | (Ok a, w') =>
        match closeObject n key with
        | Some _ => (Err (Errorf "error while closing S3 object: %w" []), w')
        | None => (Ok a, w')
        end
    | r => r
    end.

Definition fetchAndStore (key : string) : Go S3World (string * Hash) :=
  n <-- call ;;
  w <-- get ;;
  match getObject n (requests w) key with
  | Some e => fail (Errorf "error while getting object %q: %w" [e])
  | None =>
      closing n key
        (hash <-- wrapf "error while statting on object %q: %w" [] (lift (statObject n (requests w) key)) ;;
         data <-- wrapf "error while reading reading object %q: %w" [] (lift (readObject n (requests w) key)) ;;
         logged (store key data hash) ;;;
         ret (data, hash))
  end.

Definition Get (key : string) (expected : Hash) : Go S3World (string * Hash) :=
  cached <--
    (if negb (Hash_IsZero expected)
     then wrapf "error while reading (possibly) cached S3 key: %w" [] (readCached key expected)
     else ret None) ;;
  match cached with
  | Some data => ret (data, expected)
  | None => wrapf "error while fetching key from remote S3: %w" [] (fetchAndStore key)
  end.

Definition Put (key data : string) : Go S3World Hash :=
  n <-- call ;;
  log <-- request (PutRequest key data) ;;
  hash <-- wrapf "error while putting object %q: %w" [] (lift (putObject n log key data)) ;;
  logged (store key data hash) ;;;
  ret hash.

Definition Remove (key : string) : Go S3World unit :=
  n <-- call ;;
  log <-- request (RemoveRequest key) ;;
  match removeObject n log key with
  | Some e => fail (Errorf "error while deleting object %q: %w" [e])
  | None =>
      candidate <-- meta_get key ;;
      match candidate with
      | None => ret tt
      | Some e =>
          meta_remove key ;;;
          wrapf "error while removing s3 cache entry: %w" [] (persistLocked c) ;;;
          logged (removeFile (dataPath (ID e)))
      end
  end.
End S3.
