(* ===== verification/S3Spec.v ===== *)
(** * What the cache of S3 objects guarantees

    Whatever fails, the metadata of the cache stay true: every entry has its file,
    whose content is a version of the object with the hash of the entry, and the
    files fit in the capacity. *)

From stdpp Require Import gmap sorting.
From S2P Require Import Prelude Hoare GoStrings GoPath S3Cache.
From Stdlib Require Import Strings.Ascii.
#[local] Open Scope Z_scope.
#[local] Set Warnings "-clear-no-such-hyp".

#[local] Arguments writeFileAtomic : simpl never.
#[local] Arguments metadataPath : simpl never.
#[local] Arguments dataPath : simpl never.
#[local] Arguments persistLocked : simpl never.
#[local] Arguments readFile : simpl never.
#[local] Arguments removeFile : simpl never.

(** The text of a UUID holds hexadecimal digits and dashes, more than two. *)
Definition uuidByte (a : ascii) : bool :=
  between 48 57 (code a) || between 97 102 (code a) || (code a =? 45).
Definition uuidText (s : string) : Prop := (3 <= String.length s)%nat /\ all uuidByte s = true.

Section Laws.
Context {E : S3Env}.

(** The versions of the objects that S3 has held: [version key hash data]. *)
Context (version : string -> Hash -> string -> Prop).

(** What is documented of S3 and of the system: calls end; what is read with a
    hash is the version that has it; identifiers never come twice, and temporary
    files are new. *)
Class S3Laws : Prop := {
  marshal_ends l : ends (marshal l);
  unmarshal_ends raw : ends (unmarshal raw);
  putObject_ends n log key data : ends (putObject n log key data);
  statObject_ends n log key : ends (statObject n log key);
  readObject_ends n log key : ends (readObject n log key);
  diskCapacity_ends n : ends (diskCapacity n);
  putObject_version n log key data h : putObject n log key data = Ok h -> version key h data;
  readObject_version n log key h data :
    statObject n log key = Ok h -> readObject n log key = Ok data -> version key h data;
  newUUID_text n : uuidText (newUUID n);
  newUUID_inj n m : newUUID n = newUUID m -> n = m;
  createTemp_new n taken dir pattern : createTemp n taken dir pattern ∉ taken;
  rangeEntries_all n m : Permutation (rangeEntries n m) (map snd (map_to_list m))
}.
Context {SL : S3Laws} (c : S3Cache) (path_given : path c <> "").

(** ** Paths *)

Lemma uuid_parts s :
  uuidText s ->
  Forall (fun p => plainPart p = true) [takeString 2 s; dropString 2 s]
  /\ takeString 2 s +:+ dropString 2 s = s.
Proof using Type.
  intros [Hl Ha]. destruct s as [|a [|b s]]; cbn in Hl; [lia..|].
  cbn in Ha. apply andb_prop in Ha as [Ha Hs]. apply andb_prop in Hs as [Hb Hs].
  assert (forall x, uuidByte x = true -> (x =? slash)%char = false /\ (x =? ".")%char = false) as Hx.
  { intros x Hx. rewrite !eqb_code. unfold uuidByte, between in Hx.
    change (code slash) with 47. change (code ".") with 46. lia. }
  assert (all (fun x => negb (x =? slash)%char) s = true) as Hls.
  { eapply all_impl; [|exact Hs]. intros x H. by destruct (Hx x H) as [-> _]. }
  destruct (Hx a Ha) as [Ha1 Ha2], (Hx b Hb) as [Hb1 Hb2].
  split; [|done]. repeat constructor; apply plainPart_spec; cbn [takeString dropString].
  - repeat split; try congruence.
    + intros [= -> ->]. by rewrite Ascii.eqb_refl in Ha2.
    + unfold lacks. cbn. by rewrite Ha1, Hb1.
  - destruct s as [|d s]; [cbn in Hl; lia|]. cbn in Hs. apply andb_prop in Hs as [Hd _].
    destruct (Hx d Hd) as [_ Hd2]. repeat split; try done; intros [= -> ->]; by rewrite Ascii.eqb_refl in Hd2.
Qed.

Lemma dataPath_parts s :
  uuidText s ->
  dataPath c s = render (rooted (path c))
    (rev (cleanParts (rooted (path c)) [] (Split (path c) slash)) ++ [takeString 2 s; dropString 2 s]).
Proof using path_given. intros H. apply JoinPath_plain; [done|done|]. by apply uuid_parts. Qed.

Lemma basePart_lacks p :
  p ∈ rev (cleanParts (rooted (path c)) [] (Split (path c) slash)) -> lacks slash p = true.
Proof using Type.
  intros H%list_elem_of_In%in_rev%list_elem_of_In. by eapply wellKept_parts; [apply cleaned_kept|].
Qed.

Lemma pathParts_lacks l p :
  Forall (fun p => plainPart p = true) l ->
  p ∈ rev (cleanParts (rooted (path c)) [] (Split (path c) slash)) ++ l -> lacks slash p = true.
Proof using Type.
  intros Hl [H|H]%elem_of_app; [by apply basePart_lacks|].
  rewrite Forall_forall in Hl. apply Hl, plainPart_spec in H. tauto.
Qed.

Lemma app_two_nonempty {A} (l : list A) a b : l ++ [a; b] <> [].
Proof using Type. by destruct l. Qed.

Lemma dataPath_inj s t : uuidText s -> uuidText t -> dataPath c s = dataPath c t -> s = t.
Proof using path_given.
  intros Hs Ht H. rewrite !dataPath_parts in H by done.
  destruct (uuid_parts s Hs) as [Ps <-], (uuid_parts t Ht) as [Pt <-].
  apply render_inj in H; try apply app_two_nonempty; try (intros p Hp; eapply pathParts_lacks; [|exact Hp]; done).
  apply app_inv_head in H. congruence.
Qed.

Lemma dataPath_metadata s : uuidText s -> dataPath c s <> metadataPath c.
Proof using path_given.
  intros Hs H. rewrite dataPath_parts in H by done. unfold metadataPath in H.
  destruct (uuid_parts s Hs) as [Ps _].
  assert (Forall (fun p => plainPart p = true) [v1MetadataFileName]) as Pm by (repeat constructor).
  rewrite JoinPath_plain in H by done.
  apply render_inj in H; try apply app_two_nonempty; try (by destruct (rev _));
    try (intros p Hp; eapply pathParts_lacks; [|exact Hp]; done).
  apply app_inv_head in H. done.
Qed.

(** ** The invariant *)

Definition filed (w : S3World) (key : string) (e : entry) : Prop :=
  Key e = key /\ uuidText (ID e) /\ (forall n, (s3calls w <= n)%nat -> newUUID n <> ID e)
  /\ exists data, files w !! dataPath c (ID e) = Some data
                  /\ Size e = Z.of_nat (String.length data) /\ version key (ehash e) data.

Definition distinct (es : gmap string entry) : Prop :=
  forall k k' e e', es !! k = Some e -> es !! k' = Some e' -> ID e = ID e' -> k = k'.

Definition coherent (w : S3World) : Prop :=
  (forall key e, byKey w !! key = Some e -> filed w key e) /\ distinct (byKey w)
  /\ cacheSize (byKey w) <= Z.max 0 (capacity c) /\ 0 <= msize w.

(** The entries and the files of [P] stay. *)
Definition frame (P : string -> Prop) (w w' : S3World) : Prop :=
  byKey w' = byKey w /\ (0 <= msize w -> 0 <= msize w') /\ (s3calls w <= s3calls w')%nat
  /\ forall p, P p -> is_Some (files w !! p) -> files w' !! p = files w !! p.

Lemma frame_refl P w : frame P w w.
Proof using Type. by repeat split. Qed.

Lemma frame_trans P w1 w2 w3 : frame P w1 w2 -> frame P w2 w3 -> frame P w1 w3.
Proof using Type.
  intros (H1 & H2 & H3 & H4) (H5 & H6 & H7 & H8). split; [congruence|]. split; [auto|]. split; [lia|].
  intros p Hp Hs. rewrite H8, H4; [done..|]. by rewrite H4.
Qed.

Lemma frame_weaken (P Q : string -> Prop) w w' : frame P w w' -> (forall p, Q p -> P p) -> frame Q w w'.
Proof using Type. intros (H1 & H2 & H3 & H4) H. repeat split; auto. Qed.

Lemma filed_frame P w w' key e :
  filed w key e -> frame P w w' -> P (dataPath c (ID e)) -> filed w' key e.
Proof using Type.
  intros (H1 & H2 & H3 & data & H4 & H5) (_ & _ & Hc & Hf) HP. split; [done|]. split; [done|].
  split; [intros n Hn; apply H3; lia|]. exists data. rewrite Hf by (try done; by eexists). done.
Qed.

Lemma coherent_frame P w w' :
  coherent w -> frame P w w' -> (forall key e, byKey w !! key = Some e -> P (dataPath c (ID e))) ->
  coherent w'.
Proof using Type.
  intros (H1 & H2 & H3 & H4) Hf HP. pose proof Hf as (Hb & Hm & _). unfold coherent. rewrite Hb.
  split; [|auto]. intros key e He. eapply filed_frame; eauto.
Qed.

(** ** The disk *)

Lemma call_frame P w : frame P w (snd (call w)).
Proof using Type. repeat split; cbn; auto. Qed.

Lemma io_spec P w :
  match io w with (Ok _, w') | (Err _, w') => frame P w w' /\ files w' = files w | _ => False end.
Proof using Type. unfold io, bind, call. cbn. destruct (ioError _); (split; [apply (call_frame P w)|done]). Qed.

Lemma readFile_spec P name w :
  match readFile name w with
  | (Ok data, w') => frame P w w' /\ files w !! name = Some data
  | (Err _, w') => frame P w w'
  | _ => False
  end.
Proof using Type.
  unfold readFile, bind. pose proof (io_spec P w) as H. destruct (io w) as [[a|e|p|] w1]; try tauto.
  destruct H as [H E1]. cbn. rewrite E1. by destruct (files w !! name).
Qed.

Lemma removeFile_spec name w :
  match removeFile name w with
  | (Ok _, w') | (Err _, w') => frame (fun p => p <> name) w w'
  | _ => False
  end.
Proof using Type.
  unfold removeFile, bind. pose proof (io_spec (fun p => p <> name) w) as H.
  destruct (io w) as [[a|e|p|] w1]; try tauto. destruct H as [H E1]. cbn.
  destruct (files w1 !! name); [|done]. eapply frame_trans; [exact H|]. split; [done|]. split; [done|].
  split; [done|]. intros p Hp _. cbn. by apply lookup_delete_ne.
Qed.

Lemma createTemp_taken n taken dir pattern p : p ∈ taken -> createTemp n taken dir pattern <> p.
Proof using SL. intros H <-. exact (createTemp_new _ _ _ _ H). Qed.

Lemma copyTo_spec temp data w :
  match copyTo temp data w with
  | (Ok _, w') | (Err _, w') => frame (fun p => p <> temp) w w'
  | _ => False
  end.
Proof using Type.
  unfold copyTo, setFiles, modify, fail, bind, call. cbn.
  destruct (ioError _); cbn; (split; [done|split; [done|split; [cbn; lia|]]]); intros p Hp _;
    cbn; by apply lookup_insert_ne.
Qed.

(** Writing replaces the file at once, or not at all. *)
Lemma writeFileAtomic_spec name data w :
  match writeFileAtomic name data w with
  | (Ok _, w') => frame (fun p => p <> name) w w' /\ files w' !! name = Some data
  | (Err _, w') => frame (fun _ => True) w w'
  | _ => False
  end.
Proof using SL.
  unfold writeFileAtomic. destruct (SplitPath name) as [dir pattern].
  unfold wrapf at 1, bind at 1, bind at 1.
  pose proof (io_spec (fun _ => True) w) as H1. destruct (io w) as [[a|e|p|] w1]; try tauto.
  destruct H1 as [H1 E1]. unfold bind at 1, call. cbn.
  set (temp := createTemp (s3calls w1) (dom (files w1)) dir pattern).
  assert (forall p, is_Some (files w1 !! p) -> p <> temp) as Ht.
  { intros p Hp%elem_of_dom He. symmetry in He. revert He. by apply createTemp_taken. }
  unfold bind at 1, setFiles, modify. cbn.
  set (w2 := mkS3 (<[temp := ""]> (files w1)) (byKey w1) (msize w1) (S (s3calls w1)) (requests w1)).
  assert (frame (fun _ => True) w w2) as H2.
  { eapply frame_trans; [exact H1|]. split; [done|]. split; [done|]. split; [cbn; lia|].
    intros p _ Hp. cbn. apply lookup_insert_ne. by apply not_eq_sym, Ht. }
  assert (forall w', frame (fun p => p <> temp) w2 w' -> frame (fun _ => True) w w') as Hw.
  { intros w' H'. pose proof H1 as (_ & _ & _ & Hf1). pose proof H2 as (Hb & Hm & Hc & Hf).
    destruct H' as (Hb' & Hm' & Hc' & Hf'). split; [congruence|]. split; [auto|]. split; [lia|].
    intros p _ Hp. rewrite Hf', Hf; [done..|apply Ht; by rewrite Hf1|by rewrite Hf]. }
  unfold bind at 1, wrapf at 1. pose proof (copyTo_spec temp data w2) as H3.
  destruct (copyTo temp data w2) as [[a3|e|p|] w3]; try tauto; [|by apply Hw].
  unfold bind at 1, wrapf at 1. pose proof (io_spec (fun p => p <> temp) w3) as H4.
  destruct (io w3) as [[a4|e|p|] w4]; try tauto; destruct H4 as [H4 _];
    [|apply Hw; by eapply frame_trans].
  pose proof (io_spec (fun p => p <> temp) w4) as H5.
  destruct (io w4) as [[a5|e|p|] w5]; try tauto; destruct H5 as [H5 _];
    pose proof (Hw _ (frame_trans _ _ _ _ H3 (frame_trans _ _ _ _ H4 H5))) as H6; [|done].
  destruct H6 as (Hb & Hm & Hc & Hf). cbn. split; [|apply lookup_insert_eq].
  split; [done|]. split; [done|]. split; [done|]. intros p Hp Hs. cbn.
  pose proof H1 as (_ & _ & _ & Hf1).
  rewrite lookup_insert_ne by done. rewrite lookup_delete_ne; [by apply Hf|].
  apply not_eq_sym, Ht. by rewrite Hf1.
Qed.

Lemma persistLocked_spec w :
  match persistLocked c w with
  | (Ok _, w') | (Err _, w') => frame (fun p => p <> metadataPath c) w w'
  | _ => False
  end.
Proof using SL.
  unfold persistLocked, bind at 1, call. cbn. unfold bind at 1, wrapf at 1, lift.
  pose proof (marshal_ends (rangeEntries (s3calls w) (byKey w))) as Hm.
  destruct (marshal _) as [data|e|p|]; try done; [|apply (call_frame _ w)]. cbn.
  set (w1 := mkS3 (files w) (byKey w) (Z.of_nat (String.length data)) (S (s3calls w)) (requests w)).
  assert (frame (fun p => p <> metadataPath c) w w1) as H1.
  { split; [done|]. split; [cbn; lia|]. split; [cbn; lia|done]. }
  pose proof (writeFileAtomic_spec (metadataPath c) data w1) as H2.
  destruct (writeFileAtomic _ _ _) as [[a|e|p|] w2]; try done.
  - destruct H2 as [H2 _]. by eapply frame_trans.
  - eapply frame_trans; [exact H1|]. by eapply frame_weaken.
Qed.

Lemma persist_coherent w :
  coherent w ->
  match persistLocked c w with
  | (Ok _, w') | (Err _, w') => coherent w'
  | _ => False
  end.
Proof using SL path_given.
  intros Hw. pose proof (persistLocked_spec w) as H.
  assert (forall w', frame (fun p => p <> metadataPath c) w w' -> coherent w') as Hc.
  { intros w' Hf. eapply coherent_frame; [exact Hw|exact Hf|]. intros key e He.
    apply dataPath_metadata. apply Hw in He. by destruct He as (_ & ? & _). }
  destruct (persistLocked c w) as [[a|e|p|] w']; auto.
Qed.

(** ** The sizes *)

Lemma cacheSize_insert_new es key e : es !! key = None -> cacheSize (<[key := e]> es) = cacheSize es + Size e.
Proof using Type. intros H. unfold cacheSize. rewrite map_fold_insert_L; [lia|intros; lia|done]. Qed.

Definition sizeOf (o : option entry) : Z := match o with Some e => Size e | None => 0 end.

Lemma cacheSize_delete es key : cacheSize es = cacheSize (delete key es) + sizeOf (es !! key).
Proof using Type.
  destruct (es !! key) as [e|] eqn:He; cbn.
  - rewrite <- (insert_delete_id es key e He) at 1. rewrite cacheSize_insert_new; [done|apply lookup_delete_eq].
  - by rewrite delete_id, Z.add_0_r.
Qed.

Lemma cacheSize_insert es key e : cacheSize (<[key := e]> es) = cacheSize (delete key es) + Size e.
Proof using Type. rewrite <- insert_delete_eq. apply cacheSize_insert_new, lookup_delete_eq. Qed.

Lemma cacheSize_empty : cacheSize ∅ = 0.
Proof using Type. apply map_fold_empty. Qed.

Lemma coherent_sizes w key : coherent w -> 0 <= sizeOf (byKey w !! key).
Proof using Type.
  intros (H & _). destruct (byKey w !! key) as [e|] eqn:He; cbn; [|lia].
  destruct (H key e He) as (_ & _ & _ & data & _ & -> & _). lia.
Qed.

(** Removing entries keeps the rest coherent. *)
Lemma coherent_subset w es :
  coherent w -> es ⊆ byKey w -> cacheSize es <= Z.max 0 (capacity c) ->
  coherent (mkS3 (files w) es (msize w) (s3calls w) (requests w)).
Proof using Type.
  intros (H1 & H2 & H3 & H4) Hs Hc. split; [|split; [|done]].
  - intros key e He. apply (H1 key e). by eapply lookup_weaken.
  - intros k k' e e' He He'. eapply H2; by eapply lookup_weaken.
Qed.

Lemma coherent_delete w key :
  coherent w -> coherent (mkS3 (files w) (delete key (byKey w)) (msize w) (s3calls w) (requests w)).
Proof using Type.
  intros Hw. apply coherent_subset; [done|apply delete_subseteq|].
  pose proof (coherent_sizes w key Hw). destruct Hw as (_ & _ & Hc & _).
  rewrite (cacheSize_delete _ key) in Hc. lia.
Qed.

(** Without entries there is nothing to keep. *)
Lemma coherent_empty w : byKey w = ∅ -> 0 <= msize w -> coherent w.
Proof using Type.
  intros H Hm. unfold coherent. rewrite H, cacheSize_empty. split; [|split; [|lia]].
  - intros key e He. by destruct (lookup_empty_Some _ _ He).
  - intros k k' e e' He. by destruct (lookup_empty_Some _ _ He).
Qed.

(** ** Eviction *)

(** Once begun it goes on to the end: [freed] only decreases. *)
Lemma evict_all heap freed diff drop w :
  freed < diff -> Forall (fun e => 0 <= Size e) heap ->
  evict heap freed diff drop w
  = (Ok (drop ++ heap), mkS3 (files w) (foldl (fun es e => delete (Key e) es) (byKey w) heap) (msize w) (s3calls w) (requests w)).
Proof using Type.
  revert freed drop w. induction heap as [|e heap IH]; intros freed drop w Hd Hs; cbn.
  { rewrite app_nil_r. by destruct w. }
  apply Forall_cons in Hs as [He Hs]. rewrite (proj2 (Z.ltb_lt _ _) Hd).
  unfold meta_remove, setEntries, modify, bind. cbn. rewrite IH by (done || lia). cbn.
  by rewrite <- app_assoc.
Qed.

Lemma evict_none heap diff w : diff <= 0 -> evict heap 0 diff [] w = (Ok [], w).
Proof using Type. intros H. destruct heap; cbn; [done|]. by rewrite (proj2 (Z.ltb_ge _ _) H). Qed.

Lemma foldl_delete_lookup heap (es : gmap string entry) key e :
  foldl (fun es e => delete (Key e) es) es heap !! key = Some e ->
  es !! key = Some e /\ key ∉ map Key heap.
Proof using Type.
  revert es. induction heap as [|a heap IH]; intros es H; cbn in *.
  - split; [done|]. by intros ?%elem_of_nil.
  - apply IH in H as [H Hn]. apply lookup_delete_Some in H as [Hk H]. split; [done|].
    intros [->|?]%elem_of_cons; done.
Qed.

Lemma lruHeap_spec w :
  exists heap, lruHeap w = (Ok heap, mkS3 (files w) (byKey w) (msize w) (S (s3calls w)) (requests w))
    /\ forall e, e ∈ heap <-> exists key, byKey w !! key = Some e.
Proof using SL.
  eexists. split; [reflexivity|]. intros e. rewrite merge_sort_Permutation, rangeEntries_all.
  rewrite list_elem_of_fmap. split.
  - intros [[key e'] [-> H%elem_of_map_to_list]]. by exists key.
  - intros [key H]. exists (key, e). split; [done|]. by apply elem_of_map_to_list.
Qed.

Lemma removeFiles_byKey (drop : list entry) w :
  match forEach drop tt (fun _ e => wrapf "error while removing S3 cached key (file): %w" []
                                      (removeFile (dataPath c (ID e)))) w with
  | (Ok _, w') | (Err _, w') => byKey w' = byKey w /\ (0 <= msize w -> 0 <= msize w')
                                /\ (s3calls w <= s3calls w')%nat
                                /\ (drop = [] -> w' = w)
  | _ => False
  end.
Proof using Type.
  revert w. induction drop as [|e drop IH]; intros w; cbn [forEach]; [by cbn|].
  unfold bind, wrapf. cbv beta. pose proof (removeFile_spec (dataPath c (ID e)) w) as H.
  destruct (removeFile _ w) as [[a|er|p|] w1]; try tauto; destruct H as (H1 & H2 & H3 & _);
    [|by split_and!].
  destruct a. specialize (IH w1). unfold wrapf in IH.
  destruct (forEach drop tt _ w1) as [[a'|er|p|] w2]; try tauto;
    destruct IH as (H4 & H5 & H6 & _); (split; [congruence|]; split; [auto|]; split; [lia|done]).
Qed.

(** Asking for room empties the cache: the space that is freed is counted with
    the wrong sign.  Asking for none leaves it as it is. *)
Lemma reclaimSpace_spec diff w :
  coherent w ->
  match reclaimSpace c diff w with
  | (Ok _, w') => coherent w' /\ (s3calls w <= s3calls w')%nat
                  /\ byKey w' = (if decide (0 < diff) then ∅ else byKey w)
  | (Err _, w') => coherent w'
  | _ => False
  end.
Proof using SL path_given.
  intros Hw. unfold reclaimSpace, bind at 1. destruct (lruHeap_spec w) as (heap & -> & Hh).
  set (w1 := mkS3 (files w) (byKey w) (msize w) (S (s3calls w)) (requests w)).
  assert (coherent w1) as Hw1.
  { eapply coherent_frame; [exact Hw|apply (call_frame (fun _ => True))|done]. }
  unfold bind at 1. destruct (decide (0 < diff)) as [Hd|Hd].
  - rewrite evict_all; [|done|].
    2:{ apply Forall_forall. intros e [key He]%Hh. pose proof (coherent_sizes w key Hw) as Hs.
        by rewrite He in Hs. }
    set (w2 := mkS3 _ _ _ _ _).
    assert (byKey w2 = ∅) as Hb.
    { apply map_eq. intros key. rewrite lookup_empty. apply eq_None_not_Some. intros [e He].
      apply foldl_delete_lookup in He as [He Hn]. apply Hn, list_elem_of_fmap. cbn in He.
      exists e. split; [by destruct Hw as (H & _); destruct (H key e He) as [-> _]|].
      apply Hh. by exists key. }
    assert (0 <= msize w2) as Hm by apply Hw.
    unfold bind at 1, wrapf at 1. pose proof (persistLocked_spec w2) as HP.
    destruct (persistLocked c w2) as [[a|e|p|] w3]; try tauto; destruct HP as (H1 & H2 & H3 & _).
    + pose proof (removeFiles_byKey ([] ++ heap) w3) as HR. destruct (forEach _ _ _ w3) as [[a'|e|p|] w4]; try tauto.
      * destruct HR as (H4 & H5 & H6 & _). split; [apply coherent_empty; [congruence|auto]|].
        split; [cbn in H3; lia|congruence].
      * destruct HR as (H4 & H5 & H6 & _). apply coherent_empty; [congruence|auto].
    + apply coherent_empty; [congruence|auto].
  - rewrite evict_none by lia. unfold bind at 1, wrapf at 1.
    pose proof (persist_coherent w1 Hw1) as HC. pose proof (persistLocked_spec w1) as HP.
    destruct (persistLocked c w1) as [[a|e|p|] w3]; try tauto. cbn.
    destruct HP as (H1 & _ & H3 & _). split; [done|]. split; [cbn in H3; lia|done].
Qed.

(** ** Storing *)

(** The identifier under which the object with a key is to be stored. *)
Definition owned (key uid : string) (w : S3World) : Prop :=
  uuidText uid /\ (forall n, (s3calls w <= n)%nat -> newUUID n <> uid)
  /\ forall k e, byKey w !! k = Some e -> ID e = uid <-> k = key.

Lemma owned_weaken key uid w w' :
  owned key uid w -> (s3calls w <= s3calls w')%nat -> byKey w' ⊆ byKey w -> owned key uid w'.
Proof using Type.
  intros (H1 & H2 & H3) Hc Hs. split; [done|]. split; [intros n Hn; apply H2; lia|].
  intros k e He. apply (H3 k e). by eapply lookup_weaken.
Qed.

Lemma resolveUID_spec key w :
  coherent w ->
  match resolveUID key w with
  | (Ok (uid, oldSize), w') =>
      coherent w' /\ owned key uid w' /\ oldSize = sizeOf (byKey w' !! key)
  | _ => False
  end.
Proof using SL.
  intros Hw. unfold resolveUID, bind, get, ret, call. cbn. pose proof Hw as (H1 & H2 & _).
  destruct (byKey w !! key) as [e|] eqn:He; cbn.
  - split; [done|]. destruct (H1 key e He) as (_ & Ht & Hn & _). rewrite He. split; [|done].
    split; [done|]. split; [done|]. intros k e' He'. split; [intros E'; by eapply H2|].
    intros ->. rewrite He in He'. by injection He' as <-.
  - split; [eapply coherent_frame; [exact Hw|apply (call_frame (fun _ => True))|done]|].
    rewrite He. split; [|done]. split; [apply newUUID_text|]. split.
    + intros n Hn E'. cbn in Hn. apply newUUID_inj in E'. lia.
    + intros k e' He'. cbn in He'. split.
      * intros E'. destruct (H1 k e' He') as (_ & _ & Hn & _). by destruct (Hn (s3calls w)).
      * intros ->. rewrite He in He'. done.
Qed.

(** Everything but the file of the object is in order, and that holds the data. *)
Definition placed (key uid data : string) (w : S3World) : Prop :=
  owned key uid w /\ distinct (byKey w) /\ 0 <= msize w
  /\ (forall k e, k <> key -> byKey w !! k = Some e -> filed w k e)
  /\ files w !! dataPath c uid = Some data.

Lemma write_spec key uid data w :
  coherent w -> owned key uid w ->
  match writeFileAtomic (dataPath c uid) data w with
  | (Ok _, w') => placed key uid data w' /\ byKey w' = byKey w
  | (Err _, w') => coherent w'
  | _ => False
  end.
Proof using SL path_given.
  intros Hw Ho. pose proof (writeFileAtomic_spec (dataPath c uid) data w) as H.
  destruct (writeFileAtomic _ _ w) as [[a|e|p|] w']; try done.
  - destruct H as [Hf Hd]. pose proof Hf as (Hb & Hm & Hc & _). split; [|done].
    destruct Hw as (H1 & H2 & _ & H4). split.
    { eapply owned_weaken; [exact Ho|done|by rewrite Hb]. }
    rewrite Hb. split; [done|]. split; [auto|]. split; [|done].
    intros k e Hk He. eapply filed_frame; [by apply H1|exact Hf|].
    intros E'. apply dataPath_inj in E'; [|by destruct (H1 k e He) as (_ & ? & _)|by destruct Ho].
    destruct Ho as (_ & _ & Ho). apply Hk. by apply (Ho k e He).
  - by eapply coherent_frame.
Qed.

Lemma meta_put_spec key uid data hash w :
  placed key uid data w -> version key hash data ->
  cacheSize (delete key (byKey w)) + Z.of_nat (String.length data) <= Z.max 0 (capacity c) ->
  match meta_put key uid hash (Z.of_nat (String.length data)) w with
  | (Ok _, w') => coherent w'
  | _ => False
  end.
Proof using Type.
  intros (Ho & Hdi & Hm & Hf & Hd) Hv Hc. unfold meta_put, setEntries, modify, bind, call. cbn.
  set (id := match byKey w !! key with Some e => ID e | None => uid end).
  assert (id = uid) as ->.
  { subst id. destruct (byKey w !! key) as [e|] eqn:He; [|done]. by apply (proj2 (proj2 Ho) key e He). }
  destruct Ho as (Ht & Hn & Ho). split; [|split; [|split]]; cbn.
  - intros k e He. apply lookup_insert_Some in He as [[<- <-]|[Hk He]].
    + split; [done|]. split; [done|]. split; [intros n Hl; apply Hn; cbn in Hl; lia|]. by exists data.
    + destruct (Hf k e (not_eq_sym Hk) He) as (H1 & H2 & H3 & H4). split; [done|]. split; [done|].
      split; [|done]. intros n Hl. apply H3. cbn in Hl. lia.
  - intros k k' e e' He He' E'. apply lookup_insert_Some in He as [[<- <-]|[Hk He]];
      apply lookup_insert_Some in He' as [[<- <-]|[Hk' He']]; cbn in E'; [done| | |].
    + symmetry. by apply (Ho k' e' He').
    + by apply (Ho k e He).
    + by eapply Hdi.
  - rewrite cacheSize_insert. done.
  - done.
Qed.

#[local] Arguments reclaimSpace : simpl never.
#[local] Arguments resolveUID : simpl never.
#[local] Arguments store : simpl never.
#[local] Arguments io : simpl never.

Lemma io_triple (P : S3World -> Prop) :
  (forall w w', P w -> frame (fun _ => True) w w' -> P w') -> triple P io (fun _ => P) P.
Proof using Type.
  intros H w Hw. pose proof (io_spec (fun _ => True) w) as Hio.
  destruct (io w) as [[a|e|p|] w']; try tauto; by apply (H w); [|apply Hio].
Qed.

Lemma coherent_stay w w' : coherent w -> frame (fun _ => True) w w' -> coherent w'.
Proof using Type. intros Hw Hf. by eapply coherent_frame. Qed.

(** There is room for the object: [size] more than the others. *)
Definition roomFor (key uid : string) (size : Z) (w : S3World) : Prop :=
  coherent w /\ owned key uid w /\ cacheSize (delete key (byKey w)) + size <= Z.max 0 (capacity c).

Lemma makeRoom_spec key uid oldSize size room w :
  coherent w -> owned key uid w -> oldSize = sizeOf (byKey w !! key) ->
  room = capacity c - msize w - cacheSize (byKey w) -> size < capacity c ->
  match (if room <? size - oldSize
         then wrapf "error while reclaiming cache space: %w" [] (reclaimSpace c (size - oldSize))
         else ret tt) w with
  | (Ok _, w') => roomFor key uid size w'
  | (Err _, w') => coherent w'
  | _ => False
  end.
Proof using SL path_given.
  intros Hw Ho -> -> Hsize. pose proof (cacheSize_delete (byKey w) key) as Hcs.
  pose proof Hw as (_ & _ & Hcap & Hm).
  destruct (Z.ltb_spec (capacity c - msize w - cacheSize (byKey w)) (size - sizeOf (byKey w !! key))) as [Hl|Hl].
  - unfold wrapf. pose proof (reclaimSpace_spec (size - sizeOf (byKey w !! key)) w Hw) as HR.
    destruct (reclaimSpace _ _ _) as [[a|e|p|] w']; try done.
    destruct HR as (Hw' & Hc & Hb). split; [done|]. split.
    + eapply owned_weaken; [exact Ho|done|]. rewrite Hb. case_decide; [apply map_empty_subseteq|done].
    + rewrite Hb. case_decide; [|lia]. rewrite delete_empty, cacheSize_empty. lia.
  - cbn. split; [done|]. split; [done|]. lia.
Qed.

(** Storing a version of an object keeps the cache coherent, whatever fails. *)
Lemma store_spec key data hash w :
  coherent w -> version key hash data ->
  match store c key data hash w with
  | (Ok _, w') | (Err _, w') => coherent w'
  | _ => False
  end.
Proof using SL path_given.
  intros Hw Hv. unfold store, bind at 1. pose proof (resolveUID_spec key w Hw) as HU.
  destruct (resolveUID key w) as [[[uid oldSize]|e|p|] w1]; try done.
  destruct HU as (Hw1 & Ho & Hold). set (size := Z.of_nat (String.length data)).
  destruct (Z.leb_spec (capacity c) size) as [Hs|Hs]; [done|].
  unfold bind at 1, cap, get, ret, bind at 1. cbv beta iota.
  assert (triple (fun w => w = w1)
    ((if capacity c - msize w1 - cacheSize (byKey w1) <? size - oldSize
      then wrapf "error while reclaiming cache space: %w" [] (reclaimSpace c (size - oldSize))
      else ret tt) ;;;
     wrapf "error while creating base directory for S3 cache entry: %w" [] io ;;;
     wrapf "error while writing S3 cache entry to disk: %w" [] (writeFileAtomic (dataPath c uid) data) ;;;
     meta_put key uid hash size ;;;
     wrapf "error while writing to s3 cache after adding new entry: %w" [] (persistLocked c))
    (fun _ => coherent) coherent) as HT; [|exact (HT w1 eq_refl)].
  apply triple_bind with (R := fun _ => roomFor key uid size).
  { intros ? ->. by apply makeRoom_spec. }
  intros _. apply triple_bind with (R := fun _ => roomFor key uid size).
  { apply triple_wrapf. eapply triple_weaken; [apply (io_triple (roomFor key uid size))|done|done|by intros ? []].
    intros w2 w3 (H1 & H2 & H3) Hf. pose proof Hf as (Hb & _ & Hc & _). split; [by eapply coherent_stay|].
    rewrite Hb. split; [|done]. eapply owned_weaken; [exact H2|done|by rewrite Hb]. }
  intros _. apply triple_bind with (R := fun _ w => placed key uid data w
      /\ cacheSize (delete key (byKey w)) + size <= Z.max 0 (capacity c)).
  { apply triple_wrapf. intros w2 (H1 & H2 & H3). pose proof (write_spec key uid data w2 H1 H2) as HW.
    destruct (writeFileAtomic _ _ w2) as [[a|e|p|] w3]; try done. by destruct HW as [HW ->]. }
  intros _. apply triple_bind with (R := fun _ => coherent).
  { intros w2 [H1 H2]. pose proof (meta_put_spec key uid data hash w2 H1 Hv H2) as HM. fold size in HM.
    destruct (meta_put _ _ _ _ w2) as [[a|e|p|] w3]; done. }
  intros _. apply triple_wrapf. intros w2 H1. pose proof (persist_coherent w2 H1) as HP.
  destruct (persistLocked c w2) as [[a|e|p|] w3]; done.
Qed.

Lemma logged_spec (m : Go S3World unit) (I : S3World -> Prop) w :
  match m w with (Ok _, w') | (Err _, w') => I w' | _ => False end ->
  match logged m w with (Ok _, w') => I w' | _ => False end.
Proof using Type. unfold logged. by destruct (m w) as [[a|e|p|] w']. Qed.

(** ** The operations *)

Lemma call_coherent w : coherent w -> coherent (mkS3 (files w) (byKey w) (msize w) (S (s3calls w)) (requests w)).
Proof using Type. intros Hw. by eapply coherent_frame; [|apply (call_frame (fun _ => True))|]. Qed.

Lemma request_coherent r w : coherent w -> coherent (mkS3 (files w) (byKey w) (msize w) (S (s3calls w)) (r :: requests w)).
Proof using Type. exact (call_coherent w). Qed.

Lemma fetchAndStore_spec key w :
  coherent w ->
  match fetchAndStore c key w with
  | (Ok (data, hash), w') => coherent w' /\ version key hash data
  | (Err _, w') => coherent w'
  | _ => False
  end.
Proof using SL path_given.
  intros Hw. unfold fetchAndStore, bind at 1, call, bind at 1, get. cbv beta iota.
  pose proof (call_coherent w Hw) as Hw1. set (w1 := mkS3 _ _ _ _ _) in *. set (n := s3calls w).
  destruct (getObject n _ key) as [e|]; [done|]. unfold closing, bind at 1, wrapf at 1, lift.
  pose proof (statObject_ends n (requests w1) key) as H1. destruct (statObject n _ key) as [hash|e|p|] eqn:E1; try done.
  unfold bind at 1, wrapf at 1. pose proof (readObject_ends n (requests w1) key) as H2.
  destruct (readObject n _ key) as [data|e|p|] eqn:E2; try done.
  assert (version key hash data) as Hv by (by eapply readObject_version).
  unfold bind. pose proof (logged_spec _ _ _ (store_spec key data hash w1 Hw1 Hv)) as HS.
  destruct (logged _ w1) as [[a|e|p|] w2]; try done. cbn. by destruct (closeObject n key).
Qed.

Lemma readCached_spec key expected w :
  coherent w ->
  match readCached c key expected w with
  | (Ok (Some data), w') => coherent w' /\ version key expected data
  | (Ok None, w') | (Err _, w') => coherent w'
  | _ => False
  end.
Proof using SL path_given.
  intros Hw. unfold readCached, meta_get, get, ret, bind at 1, bind at 1. cbv beta iota.
  destruct (byKey w !! key) as [e|] eqn:He; [|done].
  destruct (String.eqb_spec (ehash e) expected) as [<-|Hn]; [|done]. cbn [negb].
  unfold bind at 1, wrapf at 1. pose proof (readFile_spec (fun _ => True) (dataPath c (ID e)) w) as HR.
  destruct (readFile _ w) as [[data|er|p|] w1]; try done; [|by eapply coherent_stay].
  destruct HR as [Hf Hd]. pose proof (coherent_stay _ _ Hw Hf) as Hw1.
  destruct Hw as (H1 & _). destruct (H1 key e He) as (_ & _ & _ & data' & Hd' & _ & Hv).
  rewrite Hd in Hd'. injection Hd' as ->.
  unfold touch, setEntries, modify, bind, call. cbn. split; [|done].
  destruct Hf as (Hb & _). rewrite Hb, He. pose proof Hw1 as (H2 & H3 & H4 & H5). rewrite Hb in H2, H3, H4.
  split; [|split; [|split; [|done]]]; cbn.
  - intros k e' He'. apply lookup_insert_Some in He' as [[<- <-]|[_ He']].
    + destruct (H2 key e He) as (G1 & G2 & G3 & G4). split; [done|]. split; [done|].
      split; [intros n Hl; apply G3; cbn in Hl; lia|done].
    + destruct (H2 k e' He') as (G1 & G2 & G3 & G4). split; [done|]. split; [done|].
      split; [intros n Hl; apply G3; cbn in Hl; lia|done].
  - intros k k' e1 e2 He1 He2 E'.
    apply lookup_insert_Some in He1 as [[<- <-]|[_ He1]];
      apply lookup_insert_Some in He2 as [[<- <-]|[_ He2]]; cbn in E'; [done|by eapply H3..].
  - rewrite cacheSize_insert. cbn. rewrite (cacheSize_delete _ key), He in H4. cbn in H4. lia.
Qed.

Lemma Get_spec key expected w :
  coherent w ->
  match Get c key expected w with
  | (Ok (data, hash), w') => coherent w' /\ version key hash data
  | (Err _, w') => coherent w'
  | _ => False
  end.
Proof using SL path_given.
  intros Hw.
  unfold Get. destruct (Hash_IsZero expected); cbn [negb].
  - unfold bind, ret, wrapf. pose proof (fetchAndStore_spec key w Hw) as HF.
    by destruct (fetchAndStore c key w) as [[[d h]|e|p|] w'].
  - unfold bind, wrapf. pose proof (readCached_spec key expected w Hw) as HC.
    destruct (readCached _ _ _ w) as [[[d|]|e|p|] w1]; try done.
    pose proof (fetchAndStore_spec key w1 HC) as HF.
    by destruct (fetchAndStore c key w1) as [[[d h]|e|p|] w'].
Qed.

Lemma Put_spec key data w :
  coherent w ->
  match Put c key data w with
  | (Ok hash, w') => coherent w' /\ version key hash data
  | (Err _, w') => coherent w'
  | _ => False
  end.
Proof using SL path_given.
  intros Hw.
  unfold Put, bind at 1, call, request, bind at 1, wrapf, lift. cbv beta iota. unfold bind at 1.
  pose proof (request_coherent (PutRequest key data) w Hw) as Hw1. cbn [files byKey msize s3calls requests].
  set (w1 := mkS3 _ _ _ _ _) in *.
  pose proof (putObject_ends (s3calls w) (requests w) key data) as HP.
  destruct (putObject _ _ key data) as [hash|e|p|] eqn:E1; try done.
  assert (version key hash data) as Hv by (by eapply putObject_version).
  unfold bind. pose proof (logged_spec _ _ _ (store_spec key data hash w1 Hw1 Hv)) as HS.
  by destruct (logged _ w1) as [[a|e|p|] w2].
Qed.

Lemma Remove_spec key w :
  coherent w ->
  match Remove c key w with
  | (Ok _, w') => coherent w' /\ byKey w' !! key = None
  | (Err _, w') => coherent w'
  | _ => False
  end.
Proof using SL path_given.
  intros Hw.
  unfold Remove, bind at 1, call, request, bind at 1. cbv beta iota. cbn [files byKey msize s3calls requests].
  pose proof (request_coherent (RemoveRequest key) w Hw) as Hw1.
  destruct (removeObject _ _ key); [done|]. set (w1 := mkS3 _ _ _ _ _) in *.
  unfold meta_get, bind at 1, bind at 1, get, ret. cbv beta iota.
  destruct (byKey w1 !! key) as [e|] eqn:He; [|done].
  unfold bind at 1, meta_remove, setEntries, modify. cbv beta iota.
  pose proof (coherent_delete w1 key Hw1) as Hw2. set (w2 := mkS3 _ (delete key (byKey w1)) _ _ (requests w1)) in *.
  change (mkS3 (files w1) (delete key (byKey w1)) (msize w1) (s3calls w1) (requests w1)) with w2.
  unfold bind, wrapf. pose proof (persist_coherent w2 Hw2) as HP. pose proof (persistLocked_spec w2) as HF.
  destruct (persistLocked c w2) as [[a|e'|p|] w3]; try done.
  destruct HF as (Hb & _ & _ & _).
  assert (byKey w3 !! key = None) as Hk by (rewrite Hb; apply lookup_delete_eq).
  unfold logged. pose proof (removeFile_spec (dataPath c (ID e)) w3) as HR.
  assert (forall w4, frame (fun p => p <> dataPath c (ID e)) w3 w4 -> coherent w4 /\ byKey w4 !! key = None) as HW.
  { intros w4 Hf. split; [|by destruct Hf as [-> _]]. eapply coherent_frame; [exact HP|exact Hf|].
    intros k e' He' E'. pose proof Hw1 as (G1 & G2 & _). rewrite Hb in He'. cbn in He'.
    apply lookup_delete_Some in He' as [Hk' He']. apply Hk'.
    apply dataPath_inj in E'; [|by destruct (G1 k e' He') as (_ & ? & _)|by destruct (G1 key e He) as (_ & ? & _)].
    symmetry. by eapply G2. }
  destruct (removeFile _ w3) as [[a'|e'|p|] w4]; auto.
Qed.

(** C13: Whatever fails, a cache that is coherent stays so: every entry has its file,
    which holds the version of the object with the hash of the entry, and the files
    fit in the capacity.  What Get returns is a version of the object, with its
    hash, which is the expected one when it comes from the cache; Get, Put and Remove always return. *)
Theorem s3_coherent (key data : string) (expected : Hash) (w : S3World) :
  coherent w ->
  match Get c key expected w with
  | (Ok (data, hash), w') => coherent w' /\ version key hash data
  | (Err _, w') => coherent w'
  | _ => False
  end
  /\ match Put c key data w with
     | (Ok hash, w') => coherent w' /\ version key hash data
     | (Err _, w') => coherent w'
     | _ => False
     end
  /\ match Remove c key w with
     | (Ok _, w') => coherent w' /\ byKey w' !! key = None
     | (Err _, w') => coherent w'
     | _ => False
     end.
Proof using SL path_given.
  intros Hw. split; [by apply Get_spec|]. split; [by apply Put_spec|by apply Remove_spec].
Qed.

(** ** Restarting *)

(** What the file keeps of an entry: all but its last access. *)
Definition forget (e : entry) : entry := mkEntry (ID e) (Key e) (ehash e) (Size e) (StoredAt e) 0.
Definition reload (e : entry) : entry := mkEntry (ID e) (Key e) (ehash e) (Size e) (StoredAt e) (StoredAt e).
Definition validText (e : entry) : Prop := ValidString (Key e) = true /\ ValidString (ehash e) = true.

(** Text that is valid UTF-8 is decoded as it was encoded. *)
Class MetadataJsonLaws : Prop := {
  unmarshal_marshal l raw :
    Forall validText l -> marshal l = Ok raw -> unmarshal raw = Ok (map forget l)
}.

Lemma loadEntries_lookup l m k e :
  NoDup (map Key l) ->
  fold_left loadEntry l m !! k = Some e
  <-> (exists e0, e0 ∈ l /\ Key e0 = k /\ e = reload e0) \/ ((k ∉ map Key l) /\ m !! k = Some e).
Proof using Type.
  revert m. induction l as [|a l IH]; intros m Hn; cbn [fold_left map].
  { split; [intros H; right; split; [by intros ?%elem_of_nil|done]|].
    intros [(e0 & H%elem_of_nil & _)|[_ H]]; done. }
  apply NoDup_cons in Hn as [Ha Hn]. rewrite IH by done. unfold loadEntry. fold (reload a).
  setoid_rewrite elem_of_cons. rewrite lookup_insert_Some. split.
  - intros [(e0 & He & H)|[Hk [[<- <-]|[Hka H]]]]; [left; eauto|left; eauto|].
    right. split; [|done]. intros [->|?]; done.
  - intros [(e0 & [->|He] & <- & ->)|[Hk H]]; [right; auto|left; eauto|].
    right. split; [tauto|]. right. split; [|done]. intros <-. tauto.
Qed.

Lemma rangeEntries_keys n w : coherent w -> NoDup (map Key (rangeEntries n (byKey w))).
Proof using SL.
  intros Hw. rewrite rangeEntries_all, map_map.
  assert (map (fun x => Key (snd x)) (map_to_list (byKey w)) = map fst (map_to_list (byKey w))) as ->.
  { apply map_ext_in. intros [k e] H%list_elem_of_In%elem_of_map_to_list. by apply Hw in H as [H _]. }
  apply NoDup_fst_map_to_list.
Qed.

Lemma elem_rangeEntries n w e : e ∈ rangeEntries n (byKey w) <-> exists k, byKey w !! k = Some e.
Proof using SL.
  rewrite rangeEntries_all, list_elem_of_fmap. split.
  - intros [[k e'] [-> H%elem_of_map_to_list]]. by exists k.
  - intros [k H]. exists (k, e). split; [done|]. by apply elem_of_map_to_list.
Qed.

(** A cache started again on the disk of another that has saved its metadata has
    its entries, all but the times of their last access, and is coherent. *)
Theorem s3_restart (w w1 : S3World) :
  MetadataJsonLaws -> coherent w -> (forall k e, byKey w !! k = Some e -> validText e) ->
  persistLocked c w = (Ok tt, w1) -> ioError (s3calls w1) = None ->
  exists w2, newMetadataStore c w1 = (Ok tt, w2) /\ byKey w2 = (reload <$> byKey w) /\ coherent w2.
Proof using SL path_given.
  intros JL Hw Hv HP Hio. pose proof (persistLocked_spec w) as HF. rewrite HP in HF.
  pose proof (persist_coherent w Hw) as HC. rewrite HP in HC. pose proof HF as (Hb & _).
  unfold persistLocked, bind, call, wrapf, lift in HP. cbn in HP.
  destruct (marshal (rangeEntries (s3calls w) (byKey w))) as [raw|e|p|] eqn:Em; try discriminate.
  cbn in HP. unfold modify in HP.
  match type of HP with writeFileAtomic _ _ ?v = _ => set (w0 := v) in HP end.
  pose proof (writeFileAtomic_spec (metadataPath c) raw w0) as HW. rewrite HP in HW.
  destruct HW as [_ Hraw].
  assert (Forall validText (rangeEntries (s3calls w) (byKey w))) as Hvl.
  { apply Forall_forall. intros e [k He]%elem_rangeEntries. by eapply Hv. }
  pose proof (unmarshal_marshal _ _ Hvl Em) as Hu.
  unfold newMetadataStore, bind at 1, modify, readFile, io, bind, call, get, lift, wrapf, setEntries. cbn.
  rewrite Hio. cbn. rewrite Hraw. cbn. rewrite Hu. cbn. eexists. split; [reflexivity|]. cbn.
  assert (fold_left loadEntry (map forget (rangeEntries (s3calls w) (byKey w))) ∅ = (reload <$> byKey w)) as ->.
  { apply map_eq. intros k. apply option_eq. intros e.
    assert (forall es, map Key (map forget es) = map Key es) as Hkeys by (intros es; by rewrite map_map).
    rewrite loadEntries_lookup by (rewrite Hkeys; by apply rangeEntries_keys).
    rewrite lookup_fmap, fmap_Some. split.
    - intros [(e0 & (e1 & -> & [k1 He1]%elem_rangeEntries)%list_elem_of_fmap & <- & ->)|[_ H]].
      + exists e1. destruct Hw as (H1 & _). destruct (H1 k1 e1 He1) as [<- _]. done.
      + by destruct (lookup_empty_Some _ _ H).
    - intros (e1 & He1 & ->). left. exists (forget e1). split; [|split; [|done]].
      + apply list_elem_of_fmap. exists e1. split; [done|]. apply elem_rangeEntries. by exists k.
      + destruct Hw as (H1 & _). by destruct (H1 k e1 He1) as [<- _]. }
  split; [done|]. destruct HC as (H1 & H2 & H3 & H4). rewrite Hb in H1, H2, H3.
  split; [|split; [|split; [|cbn; lia]]]; cbn.
  - intros k e He. apply lookup_fmap_Some in He as (e1 & <- & He1).
    destruct (H1 k e1 He1) as (G1 & G2 & G3 & G4). split; [done|]. split; [done|].
    split; [intros n Hl; apply G3; cbn in Hl; lia|done].
  - intros k k' e e' He He' E'. apply lookup_fmap_Some in He as (e1 & <- & He1).
    apply lookup_fmap_Some in He' as (e2 & <- & He2). by eapply H2.
  - replace (cacheSize (reload <$> byKey w)) with (cacheSize (byKey w)); [done|].
    unfold cacheSize. by rewrite map_fold_fmap.
Qed.
End Laws.

(** ** What S3 holds *)

(** What S3 holds after the requests made of it, when nobody else changes the bucket: the
    hash and the content of each object.  A request that is answered was carried out; one that
    fails was carried out or not.  What is read is what is held.  Content that has the hash of
    a version of an object is that version. *)
Class S3Holds {E : S3Env} (version : string -> Hash -> string -> Prop) : Type := {
  held : list s3Request -> gmap string (Hash * string);
  put_held n log key data :
    match putObject n log key data with
    | Ok h => held (PutRequest key data :: log) = <[key := (h, data)]> (held log)
    | _ => held (PutRequest key data :: log) = held log
           \/ exists h, held (PutRequest key data :: log) = <[key := (h, data)]> (held log)
    end;
  remove_held n log key :
    match removeObject n log key with
    | None => held (RemoveRequest key :: log) = delete key (held log)
    | Some _ => held (RemoveRequest key :: log) = held log
                \/ held (RemoveRequest key :: log) = delete key (held log)
    end;
  read_held n log key h data :
    statObject n log key = Ok h -> readObject n log key = Ok data -> held log !! key = Some (h, data);
  version_one key h data data' : version key h data -> version key h data' -> data = data'
}.

Section Holds.
Context {E : S3Env} (version : string -> Hash -> string -> Prop) {SL : S3Laws version} {SH : S3Holds version}.
Context (c : S3Cache) (path_given : path c <> "").

(** Nothing is asked of S3. *)
Definition sameRequests (w w' : S3World) : Prop := requests w' = requests w.

#[local] Instance sameRequests_preorder : PreOrder sameRequests.
Proof using Type. split; [done|]. intros w1 w2 w3 H1 H2. unfold sameRequests in *. congruence. Qed.

Definition silent {A} (m : Go S3World A) : Prop := keeps sameRequests (fun _ => True) m.

Lemma silent_simple {A} (m : Go S3World A) : (forall w, requests (snd (m w)) = requests w) -> silent m.
Proof using Type. intros H w. split; [apply H|]. by destruct (fst (m w)). Qed.

Lemma silent_bind {A B} (m : Go S3World A) (k : A -> Go S3World B) : silent m -> (forall a, silent (k a)) -> silent (bind m k).
Proof using Type. apply keeps_bind, _. Qed.

Lemma silent_wrapf {A} msg (m : Go S3World A) : silent m -> silent (wrapf msg [] m).
Proof using Type. intros H. by eapply keeps_wrapf; [exact H|]. Qed.

Lemma silent_forEach {A X} (l : list A) (x : X) (body : X -> A -> Go S3World X) :
  (forall x a, silent (body x a)) -> silent (forEach l x body).
Proof using Type. apply keeps_forEach, _. Qed.

Ltac silently :=
  repeat first
    [ done
    | apply silent_wrapf
    | apply silent_bind; intros
    | apply silent_forEach; intros
    | match goal with |- silent (if ?b then _ else _) => destruct b end
    | match goal with |- silent (match ?o with Some _ => _ | None => _ end) => destruct o end
    | match goal with |- silent (match ?o with Ok _ => _ | Err _ => _ | Panic _ => _ | Diverge => _ end) => destruct o end
    | match goal with |- silent (let '(_, _) := ?p in _) => destruct p end
    | by apply silent_simple ].

Lemma silent_io : silent io.
Proof using Type. unfold io. silently. Qed.

Lemma silent_readFile name : silent (readFile name).
Proof using Type. unfold readFile. apply silent_bind; [apply silent_io|]. intros _. silently. Qed.

Lemma silent_removeFile name : silent (removeFile name).
Proof using Type. unfold removeFile. apply silent_bind; [apply silent_io|]. intros _. silently. Qed.

Lemma silent_writeFileAtomic name data : silent (writeFileAtomic name data).
Proof using Type.
  unfold writeFileAtomic, copyTo. destruct (SplitPath name).
  repeat first [apply silent_io | apply silent_wrapf | apply silent_bind; intros | progress silently].
Qed.

Lemma silent_persistLocked : silent (persistLocked c).
Proof using Type.
  unfold persistLocked. repeat first [apply silent_writeFileAtomic | progress silently].
Qed.

Lemma silent_evict heap freed diff drop : silent (evict heap freed diff drop).
Proof using Type.
  revert freed drop. induction heap as [|e heap IH]; intros freed drop; cbn [evict]; [silently|].
  destruct (freed <? diff); [|silently]. unfold meta_remove. apply silent_bind; [silently|]. intros _. apply IH.
Qed.

Lemma silent_store key data hash : silent (store c key data hash).
Proof using Type.
  unfold store, reclaimSpace, lruHeap, resolveUID, meta_put, cap.
  repeat first [apply silent_io | apply silent_removeFile | apply silent_persistLocked | apply silent_writeFileAtomic
               | apply silent_evict | progress silently].
Qed.

Lemma silent_logged (m : Go S3World unit) : silent m -> silent (logged m).
Proof using Type.
  intros H w. specialize (H w). unfold logged. destruct (m w) as [[a|e|p|] w']; cbn in *; tauto.
Qed.

Lemma silent_requests {A} (m : Go S3World A) w : silent m -> requests (snd (m w)) = requests w.
Proof using Type. intros H. by destruct (H w). Qed.

(** What comes from the cache is the version that is expected, and anything else what S3
    holds. *)
Definition got (key : string) (expected : Hash) (w : S3World) (r : string * Hash) : Prop :=
  (r.2 = expected /\ version key expected r.1) \/ held (requests w) !! key = Some (r.2, r.1).

Lemma fetchAndStore_held key w :
  match fetchAndStore c key w with
  | (Ok (data, hash), w') => requests w' = requests w /\ held (requests w) !! key = Some (hash, data)
  | (_, w') => requests w' = requests w
  end.
Proof using Type.
  unfold fetchAndStore, bind at 1, call, bind at 1, get. cbv beta iota. cbn [requests].
  set (w1 := mkS3 _ _ _ _ _). set (n := s3calls w). destruct (getObject _ _ key); [done|].
  unfold closing, bind at 1, wrapf at 1, lift. destruct (statObject n _ key) as [hash|e|p|] eqn:E1; try done.
  unfold bind at 1, wrapf at 1. destruct (readObject n _ key) as [data|e|p|] eqn:E2; try done.
  unfold bind. pose proof (silent_requests (logged (store c key data hash)) w1 (silent_logged _ (silent_store _ _ _))) as HS.
  destruct (logged _ w1) as [[a|e|p|] w2]; cbn in HS; try done. cbn. destruct (closeObject n key); [done|].
  split; [done|]. by eapply read_held.
Qed.

Lemma Get_held key expected w :
  coherent version c w ->
  match Get c key expected w with
  | (Ok r, w') => requests w' = requests w /\ got key expected w r
  | (_, w') => requests w' = requests w
  end.
Proof using SL path_given.
  intros Hw. unfold Get.
  assert (forall w1, requests w1 = requests w ->
    match wrapf "error while fetching key from remote S3: %w" [] (fetchAndStore c key) w1 with
    | (Ok r, w') => requests w' = requests w /\ got key expected w r
    | (_, w') => requests w' = requests w end) as HF.
  { intros w1 H1. unfold wrapf. pose proof (fetchAndStore_held key w1) as HF.
    destruct (fetchAndStore c key w1) as [[[d h]|e|p|] w2]; try congruence. destruct HF as [HF1 HF2].
    split; [congruence|]. right. by rewrite <- H1. }
  destruct (Hash_IsZero expected); cbn [negb].
  - unfold bind at 1, ret. by apply HF.
  - unfold bind at 1, wrapf at 1. pose proof (readCached_spec version c path_given key expected w Hw) as HC.
    assert (silent (readCached c key expected)) as HS.
    { unfold readCached, meta_get, touch. repeat first [apply silent_readFile | progress silently]. }
    pose proof (silent_requests _ w HS) as HR.
    destruct (readCached _ _ _ w) as [[[d|]|e|p|] w1]; cbn in HR; try done; [|by apply HF].
    split; [done|]. left. split; [done|]. apply HC.
Qed.

Lemma Put_held key data w :
  match Put c key data w with
  | (Ok h, w') => held (requests w') = <[key := (h, data)]> (held (requests w))
  | (_, w') => held (requests w') = held (requests w)
      \/ exists h, held (requests w') = <[key := (h, data)]> (held (requests w))
  end.
Proof using Type.
  unfold Put, bind at 1, call, request, bind at 1, wrapf, lift. cbv beta iota. unfold bind at 1.
  cbn [files byKey msize s3calls requests]. set (w1 := mkS3 _ _ _ _ _).
  pose proof (put_held (s3calls w) (requests w) key data) as HP.
  destruct (putObject _ _ key data) as [hash|e|p|]; try done.
  unfold bind. pose proof (silent_requests (logged (store c key data hash)) w1 (silent_logged _ (silent_store _ _ _))) as HS.
  destruct (logged _ w1) as [[a|e|p|] w2]; cbn in HS |- *; rewrite HS; [exact HP|right; by exists hash..].
Qed.

Lemma Remove_held key w :
  held (requests (snd (Remove c key w))) = held (requests w)
  \/ held (requests (snd (Remove c key w))) = delete key (held (requests w)).
Proof using Type.
  assert (requests (snd (Remove c key w)) = RemoveRequest key :: requests w) as HQ.
  { unfold Remove, bind at 1, call, request, bind at 1. cbv beta iota. cbn [files byKey msize s3calls requests].
    set (w1 := mkS3 _ _ _ _ _). destruct (removeObject _ _ key); [done|].
    change (RemoveRequest key :: requests w) with (requests w1). apply silent_requests.
    unfold meta_get, meta_remove.
    repeat first [apply silent_persistLocked | apply silent_logged, silent_removeFile | progress silently]. }
  rewrite HQ. pose proof (remove_held (s3calls w) (requests w) key) as HR.
  destruct (removeObject _ _ key); [exact HR|by right].
Qed.
End Holds.
