(* ===== verification/S3Examples.v ===== *)
(** * A cache of S3 objects, and what goes wrong in it

    A disk and an S3 that behave as documented, a content served under an old hash
    after a restart, an eviction that empties the cache; and the witnesses of the
    theorems of S3Spec. *)

From stdpp Require Import gmap.
From S2P Require Import Prelude GoStrings GoPath S3Cache S3Spec.
From Stdlib Require Import Strings.Ascii.
#[local] Open Scope Z_scope.

(** ** A sample world *)

(** A text longer than every taken one. *)
Definition longText (taken : gset string) : string := String.concat "" ("t" :: elements taken).

(** What a bucket holds after the requests made of it. *)
Fixpoint contents (log : list s3Request) : gmap string string :=
  match log with
  | [] => ∅
  | PutRequest key data :: log => <[key := data]> (contents log)
  | RemoveRequest key :: log => delete key (contents log)
  end.

Definition contentOf (log : list s3Request) (key : string) : outcome string :=
  match contents log !! key with
  | Some data => Ok data
  | None => Err (PlainError "The specified key does not exist.")
  end.

(** S3 gives the content of an object as its hash; the calls that [fails] names fail. *)
Definition sampleS3 (fails : nat -> bool) : S3Env := {|
  ioError := fun n => if fails n then Some (PlainError "no space left on device") else None;
  written := fun n => O;
  now := fun n => Z.of_nat n;
  newUUID := fun n => "000" +:+ bits (Pos.of_succ_nat n);
  createTemp := fun n taken dir pattern => longText taken;
  diskCapacity := fun n => Ok 100000;
  rangeEntries := fun n m => map snd (map_to_list m);
  marshal := fun l => Ok (bits (countable.encode
    (map (fun e => (ID e, Key e, ehash e, Size e, StoredAt e)) l)));
  unmarshal := fun raw =>
    match countable.decode (unbits raw) with
    | Some l => Ok (map (fun '(id, key, hash, size, stored) => mkEntry id key hash size stored 0) l)
    | None => Err (PlainError "unexpected end of JSON input")
    end;
  putObject := fun n log key data => Ok data;
  getObject := fun n log key => None;
  statObject := fun n log key => contentOf log key;
  readObject := fun n log key => contentOf log key;
  closeObject := fun n key => None;
  removeObject := fun n log key => None
|}.

Definition sampleVersion (key : string) (hash : Hash) (data : string) : Prop := hash = data.

Lemma string_length_app s t : String.length (s +:+ t) = (String.length s + String.length t)%nat.
Proof. induction s as [|a s IH]; [done|]. rewrite app_String. cbn. by rewrite IH. Qed.

Lemma concat_cons a l : String.concat "" (a :: l) = a +:+ String.concat "" l.
Proof. destruct l; cbn; [by rewrite string_app_nil|done]. Qed.

Lemma concat_length l s : s ∈ l -> (String.length s <= String.length (String.concat "" l))%nat.
Proof.
  induction l as [|a l IH]; [by intros ?%elem_of_nil|]. rewrite concat_cons, string_length_app.
  intros [->|H]%elem_of_cons; [lia|]. specialize (IH H). lia.
Qed.

Lemma longText_new taken : longText taken ∉ taken.
Proof.
  intros H. apply elem_of_elements, concat_length in H. unfold longText in H.
  rewrite concat_cons, string_length_app in H. cbn in H. lia.
Qed.

#[export] Instance sampleS3_laws fails : S3Laws (E := sampleS3 fails) sampleVersion.
Proof.
  split; try done; cbn.
  - intros raw. by destruct (countable.decode _).
  - intros n log key. unfold contentOf. by destruct (contents log !! key).
  - intros n log key. unfold contentOf. by destruct (contents log !! key).
  - by intros n log key data h [= <-].
  - intros n log key h data -> [= ->]. done.
  - intros n. split; [rewrite string_length_app; cbn; lia|]. rewrite all_app. cbn [all].
    by induction (Pos.of_succ_nat n).
  - intros n m H%string_app_inj. apply (f_equal unbits) in H. rewrite !unbits_bits in H. lia.
  - intros n taken dir pattern. apply longText_new.
Qed.

#[export, refine] Instance sampleS3_holds fails : S3Holds (E := sampleS3 fails) sampleVersion := {
  held log := (fun data => (data, data)) <$> contents log
}.
Proof.
  - intros n log key data. cbn. by rewrite fmap_insert.
  - intros n log key. cbn. by rewrite fmap_delete.
  - intros n log key h data. cbn. unfold contentOf. rewrite lookup_fmap. destruct (contents log !! key) as [d|]; [|done].
    by intros [= <-] [= <-].
  - intros key h data data'. unfold sampleVersion. congruence.
Defined.

#[export] Instance sampleS3_json fails : MetadataJsonLaws (E := sampleS3 fails).
Proof.
  split. intros l raw _ [= <-]. cbn. rewrite unbits_bits, countable.decode_encode, map_map. done.
Qed.

Definition sampleCache : S3Cache := mkS3Cache "/cache" 100000.
Definition emptyS3 : S3World := mkS3 ∅ ∅ 0 0 [].
Definition healthy : nat -> bool := fun _ => false.

Lemma emptyS3_coherent fails : coherent (E := sampleS3 fails) sampleVersion sampleCache emptyS3.
Proof. by apply coherent_empty. Qed.

(** The world after an object has been put. *)
Definition onePut : S3World := Eval vm_compute in snd (Put (E := sampleS3 healthy) sampleCache "k" "data" emptyS3).

Lemma onePut_run : Put (E := sampleS3 healthy) sampleCache "k" "data" emptyS3 = (Ok "data", onePut).
Proof. eval_refl. Qed.

Lemma onePut_coherent : coherent (E := sampleS3 healthy) sampleVersion sampleCache onePut.
Proof.
  pose proof (Put_spec (E := sampleS3 healthy) sampleVersion sampleCache ltac:(done) "k" "data" emptyS3
    (emptyS3_coherent healthy)) as H. rewrite onePut_run in H. by destruct H.
Qed.

Lemma s3_coherent_witness :
  Put (E := sampleS3 healthy) sampleCache "k" "data" emptyS3 = (Ok "data", onePut)
  /\ coherent (E := sampleS3 healthy) sampleVersion sampleCache onePut
  /\ fst (Get (E := sampleS3 healthy) sampleCache "k" "data" onePut) = Ok ("data", "data")
  /\ fst (Get (E := sampleS3 healthy) sampleCache "k" "other" onePut) = Ok ("data", "data").
Proof.
  pose proof (s3_coherent (E := sampleS3 healthy) sampleVersion sampleCache ltac:(done)
    "k" "data" "data" emptyS3 (emptyS3_coherent healthy)) as (_ & H & _).
  rewrite onePut_run in H. destruct H as [H _]. split; [exact onePut_run|]. split; [exact H|]. split; eval_refl.
Defined.

Definition savedPut : S3World := Eval vm_compute in snd (persistLocked (E := sampleS3 healthy) sampleCache onePut).

Lemma s3_restart_witness :
  exists w2, newMetadataStore (E := sampleS3 healthy) sampleCache savedPut = (Ok tt, w2)
    /\ byKey w2 = (reload <$> byKey onePut).
Proof.
  destruct (s3_restart (E := sampleS3 healthy) sampleVersion sampleCache ltac:(done) onePut savedPut)
    as (w2 & H1 & H2 & _).
  - apply _.
  - exact onePut_coherent.
  - intros k e He. apply (map_Forall_lookup_1 (fun _ e => validText e) (byKey onePut) k e); [|exact He].
    apply (bool_decide_unpack _). exact_no_check I.
  - eval_refl.
  - reflexivity.
  - exists w2. done.
Defined.

(** ** What goes wrong *)

(** The file of an object is replaced before the metadata: if saving those fails, a
    cache started again gives the new content under the old hash. *)
Definition failsOnce (k : nat) : nat -> bool := fun n => Nat.eqb n k.

Definition crashAndRestart (fails : nat -> bool) : Go S3World (string * Hash) :=
  h1 <-- Put (E := sampleS3 fails) sampleCache "k" "old" ;;
  h2 <-- Put (E := sampleS3 fails) sampleCache "k" "new" ;;
  c <-- NewS3Cache (E := sampleS3 fails) (path sampleCache) "bucket" ;;
  Get (E := sampleS3 fails) c "k" h1.

Theorem stale_after_restart : fst (crashAndRestart (failsOnce 28) emptyS3) = Ok ("new", "old").
Proof. eval_refl. Qed.

(** A cache that asks for one byte of room loses everything. *)
Definition twoPuts : S3World :=
  Eval vm_compute in snd (Put (E := sampleS3 healthy) sampleCache "l" "more" onePut).

Theorem evicts_everything :
  size (byKey twoPuts) = 2%nat
  /\ byKey (snd (reclaimSpace (E := sampleS3 healthy) sampleCache 1 twoPuts)) = ∅.
Proof. split; eval_refl. Qed.
