(* ===== verification/Broker.v ===== *)
(** * The broker

    lib/broker: a goroutine that owns the set of subscribers and hands them every
    message published, over buffered channels, dropping what does not fit.

    The goroutine, the publishers and the subscribers are a transition system: each
    step is one choice of the broker's select, with the handshake on its unbuffered
    channel, or one receive of a subscriber.  A channel of messages is its buffer and
    whether it is closed; sending on a closed channel and closing one again panic. *)

From stdpp Require Import gmap.
From S2P Require Import Prelude.
#[local] Open Scope Z_scope.
#[local] Set Warnings "-clear-no-such-hyp".

(** The order of an iteration over the subscribers, each time. *)
Class RangeSubs : Type := { rangeSubs : nat -> gset nat -> list nat }.
Class RangeSubsLaws (R : RangeSubs) : Prop := {
  rangeSubs_all n s : Permutation (rangeSubs n s) (elements s)
}.

Section Broker.
Context {T : Type} {R : RangeSubs}.

Definition bufferSize : nat := 5.

Record channel : Type := mkChannel { buffer : list T; closed : bool }.

(** The channels made so far, by their number; the map [subs] of the loop; whether
    the loop runs. *)
Record Broker : Type := mkBroker {
  channels : gmap nat channel;
  subs : gset nat;
  running : bool;
  rounds : nat
}.

Definition NewBroker : Broker := mkBroker ∅ ∅ true 0.

Definition chan (b : Broker) (ch : nat) : channel := default (mkChannel [] false) (channels b !! ch).

Definition setChannel (ch : nat) (c : channel) : Go Broker unit :=
  modify (fun b => mkBroker (<[ch := c]> (channels b)) (subs b) (running b) (rounds b)).

Definition closeChannel (ch : nat) : Go Broker unit :=
  b <-- get ;;
  if closed (chan b ch) then panic "close of closed channel"
  else setChannel ch (mkChannel (buffer (chan b ch)) true).

(** A send in a select with a default. *)
Definition trySend (msg : T) (ch : nat) : Go Broker unit :=
  b <-- get ;;
  if closed (chan b ch) then panic "send on closed channel"
  else if (length (buffer (chan b ch)) <? bufferSize)%nat
       then setChannel ch (mkChannel (buffer (chan b ch) ++ [msg]) false)
       else ret tt.

(** The subscribers in the order of this iteration. *)
Definition subscribers : Go Broker (list nat) :=
  fun b => (Ok (rangeSubs (rounds b) (subs b)),
            mkBroker (channels b) (subs b) (running b) (S (rounds b))).

(** ** The loop of Run: one round for each case of the select *)

Definition onDone : Go Broker unit :=
  l <-- subscribers ;;
  forEach l tt (fun _ ch => closeChannel ch) ;;;
  modify (fun b => mkBroker (channels b) (subs b) false (rounds b)).

Definition onSubscribe (ch : nat) : Go Broker unit :=
  modify (fun b => mkBroker (channels b) ({[ ch ]} ∪ subs b) (running b) (rounds b)).

Definition onUnsubscribe (ch : nat) : Go Broker unit :=
  modify (fun b => mkBroker (channels b) (subs b ∖ {[ ch ]}) (running b) (rounds b)) ;;;
  closeChannel ch.

Definition onPublish (msg : T) : Go Broker unit :=
  l <-- subscribers ;;
  forEach l tt (fun _ ch => trySend msg ch).

(** ** The calls of the others *)

(** A new channel is handed to the loop; its number is one never used. *)
Definition Subscribe (ch : nat) : Go Broker unit :=
  setChannel ch (mkChannel [] false) ;;; onSubscribe ch.
Definition Unsubscribe (ch : nat) : Go Broker unit := onUnsubscribe ch.
Definition Publish (msg : T) : Go Broker unit := onPublish msg.

(** What a receive gives: a message, or that the channel is closed and empty. *)
Definition receive (ch : nat) : Go Broker (option T) :=
  b <-- get ;;
  match buffer (chan b ch) with
  | msg :: rest => setChannel ch (mkChannel rest (closed (chan b ch))) ;;; ret (Some msg)
  | [] => ret None
  end.

Inductive event : Type :=
| Subscribed (ch : nat)
| Unsubscribed (ch : nat)
| Published (msg : T)
| Received (ch : nat) (msg : T)
| Done.

(** The steps: the handshakes need the loop, a receive needs a message. *)
Inductive step : Broker -> event -> Broker -> Prop :=
| step_subscribe b ch b' :
    running b = true -> channels b !! ch = None -> Subscribe ch b = (Ok tt, b') ->
    step b (Subscribed ch) b'
| step_unsubscribe b ch b' :
    running b = true -> is_Some (channels b !! ch) -> Unsubscribe ch b = (Ok tt, b') ->
    step b (Unsubscribed ch) b'
| step_publish b msg b' :
    running b = true -> Publish msg b = (Ok tt, b') -> step b (Published msg) b'
| step_receive b ch msg b' :
    is_Some (channels b !! ch) -> receive ch b = (Ok (Some msg), b') -> step b (Received ch msg) b'
| step_done b b' : running b = true -> onDone b = (Ok tt, b') -> step b Done b'.

Inductive execution : Broker -> list event -> Broker -> Prop :=
| execution_nil b : execution b [] b
| execution_snoc b tr b' e b'' : execution b tr b' -> step b' e b'' -> execution b (tr ++ [e]) b''.

(** [Subscriber.Iter]: a select between the channel and the context, until the
    channel is closed, the context done, or the consumer stops. *)
Inductive selected : Type := Message (msg : T) | Closed | ContextDone.

Fixpoint Iter {X} (yield : X -> T -> bool * X) (x : X) (choices : list selected) : X :=
  match choices with
  | Message msg :: choices' =>
      let '(more, x') := yield x msg in if more then Iter yield x' choices' else x'
  | Closed :: _ | ContextDone :: _ | [] => x
  end.

(** ** What subscribers are promised *)

(** The messages published while a channel was subscribed, and those that it has
    given. *)
Fixpoint offered (ch : nat) (live : bool) (tr : list event) : list T :=
  match tr with
  | [] => []
  | Subscribed ch' :: tr' => offered ch (live || bool_decide (ch' = ch)) tr'
  | Unsubscribed ch' :: tr' => offered ch (live && negb (bool_decide (ch' = ch))) tr'
  | Published msg :: tr' => (if live then [msg] else []) ++ offered ch live tr'
  | Received _ _ :: tr' => offered ch live tr'
  | Done :: tr' => offered ch false tr'
  end.

Fixpoint received (ch : nat) (tr : list event) : list T :=
  match tr with
  | [] => []
  | Received ch' msg :: tr' => (if bool_decide (ch' = ch) then [msg] else []) ++ received ch tr'
  | _ :: tr' => received ch tr'
  end.

(** Whether a channel is subscribed after a trace. *)
Definition liveStep (ch : nat) (live : bool) (e : event) : bool :=
  match e with
  | Subscribed ch' => live || bool_decide (ch' = ch)
  | Unsubscribed ch' => live && negb (bool_decide (ch' = ch))
  | Done => false
  | _ => live
  end.
Definition liveAfter (ch : nat) (tr : list event) : bool := foldl (liveStep ch) false tr.

Context {RL : RangeSubsLaws R}.

(** ** Lemmas *)

Lemma offered_snoc ch live tr e :
  offered ch live (tr ++ [e])
  = offered ch live tr ++ match e with
                          | Published msg => if foldl (liveStep ch) live tr then [msg] else []
                          | _ => []
                          end.
Proof using Type.
  revert live. induction tr as [|e' tr IH]; intros live; [destruct e; cbn; by rewrite ?app_nil_r|].
  destruct e'; cbn; rewrite IH; by rewrite ?app_assoc.
Qed.

Lemma received_snoc ch tr e :
  received ch (tr ++ [e])
  = received ch tr ++ match e with
                      | Received ch' msg => if bool_decide (ch' = ch) then [msg] else []
                      | _ => []
                      end.
Proof using Type.
  induction tr as [|e' tr IH]; [destruct e; cbn; by rewrite ?app_nil_r|]. destruct e'; cbn; rewrite IH; by rewrite ?app_assoc.
Qed.

Lemma liveAfter_snoc ch tr e : liveAfter ch (tr ++ [e]) = liveStep ch (liveAfter ch tr) e.
Proof using Type. unfold liveAfter. by rewrite foldl_app. Qed.

Definition push (msg : T) (c : channel) : channel :=
  if (length (buffer c) <? bufferSize)%nat then mkChannel (buffer c ++ [msg]) (closed c) else c.

(** Sending to open channels never panics, and pushes to each of them. *)
Lemma trySends_spec msg l b :
  NoDup l -> (forall ch, ch ∈ l -> is_Some (channels b !! ch) /\ closed (chan b ch) = false) ->
  exists b', forEach l tt (fun _ ch => trySend msg ch) b = (Ok tt, b')
    /\ subs b' = subs b /\ running b' = running b
    /\ (forall ch, is_Some (channels b' !! ch) <-> is_Some (channels b !! ch))
    /\ forall ch, chan b' ch = if decide (ch ∈ l) then push msg (chan b ch) else chan b ch.
Proof using Type.
  revert b. induction l as [|a l IH]; intros b Hn Hl; cbn [forEach].
  { exists b. do 4 (split; [done|]). intros ch. by rewrite decide_False by (by intros ?%elem_of_nil). }
  apply NoDup_cons in Hn as [Ha Hn]. destruct (Hl a ltac:(left)) as [Hs Hc].
  assert (exists b1, trySend msg a b = (Ok tt, b1) /\ subs b1 = subs b /\ running b1 = running b
    /\ (forall ch, is_Some (channels b1 !! ch) <-> is_Some (channels b !! ch))
    /\ forall ch, chan b1 ch = if decide (ch = a) then push msg (chan b ch) else chan b ch)
    as (b1 & E1 & H1 & H2 & H3 & H4).
  { unfold trySend, setChannel, modify, bind, get, ret. rewrite Hc.
    destruct (length (buffer (chan b a)) <? bufferSize)%nat eqn:Hlen; eexists; (split; [reflexivity|]);
      (split; [done|]); (split; [done|]); cbn.
    - split.
      + intros ch. rewrite lookup_insert_is_Some. split; [intros [<-|[_ H]]; done|].
        intros H. destruct (decide (a = ch)); auto.
      + intros ch. unfold chan at 1. cbn. destruct (decide (ch = a)) as [->|Hch].
        * rewrite lookup_insert_eq. cbn. unfold push. by rewrite Hlen, Hc.
        * by rewrite lookup_insert_ne.
    - split; [done|]. intros ch. destruct (decide (ch = a)) as [->|Hch]; [|done].
      unfold push. by rewrite Hlen. }
  unfold bind. rewrite E1. destruct (IH b1 Hn) as (b' & E2 & H5 & H6 & H7 & H8).
  { intros ch Hch. rewrite H3, H4. rewrite decide_False by (by intros ->). apply Hl. by right. }
  exists b'. split; [exact E2|]. split; [congruence|]. split; [congruence|].
  split; [intros ch; by rewrite H7|]. intros ch. rewrite H8, H4.
  destruct (decide (ch = a)) as [->|Hch].
  - rewrite decide_False by done. by rewrite decide_True by left.
  - destruct (decide (ch ∈ l)).
    + by rewrite decide_True by (by right).
    + rewrite decide_False; [done|]. by intros [?|?]%elem_of_cons.
Qed.

(** Closing open channels never panics. *)
Lemma closeChannels_spec l b :
  NoDup l -> (forall ch, ch ∈ l -> is_Some (channels b !! ch) /\ closed (chan b ch) = false) ->
  exists b', forEach l tt (fun _ ch => closeChannel ch) b = (Ok tt, b')
    /\ subs b' = subs b
    /\ (forall ch, is_Some (channels b' !! ch) <-> is_Some (channels b !! ch))
    /\ forall ch, buffer (chan b' ch) = buffer (chan b ch)
                 /\ closed (chan b' ch) = if decide (ch ∈ l) then true else closed (chan b ch).
Proof using Type.
  revert b. induction l as [|a l IH]; intros b Hn Hl; cbn [forEach].
  { exists b. do 3 (split; [done|]). intros ch. split; [done|].
    by rewrite decide_False by (by intros ?%elem_of_nil). }
  apply NoDup_cons in Hn as [Ha Hn]. destruct (Hl a ltac:(left)) as [Hs Hc].
  unfold closeChannel at 1, setChannel, modify, bind at 1, bind at 1, get. rewrite Hc.
  set (b1 := mkBroker (<[a := mkChannel (buffer (chan b a)) true]> (channels b)) (subs b) (running b) (rounds b)).
  assert (forall ch, is_Some (channels b1 !! ch) <-> is_Some (channels b !! ch)) as H3.
  { intros ch. cbn. rewrite lookup_insert_is_Some. split; [intros [<-|[_ H]]; done|].
    intros H. destruct (decide (a = ch)); auto. }
  assert (forall ch, chan b1 ch = if decide (ch = a) then mkChannel (buffer (chan b a)) true else chan b ch) as H4.
  { intros ch. unfold chan at 1. cbn. destruct (decide (ch = a)) as [->|Hch];
      [by rewrite lookup_insert_eq | by rewrite lookup_insert_ne]. }
  destruct (IH b1 Hn) as (b' & E2 & H5 & H7 & H8).
  { intros ch Hch. rewrite H3, H4. rewrite decide_False by (by intros ->). apply Hl. by right. }
  exists b'. split; [exact E2|]. split; [exact H5|]. split; [intros ch; by rewrite H7|].
  intros ch. destruct (H8 ch) as [-> ->]. rewrite H4. destruct (decide (ch = a)) as [->|Hch]; cbn.
  - split; [done|]. rewrite (decide_False (P := a ∈ l)) by done. by rewrite decide_True by left.
  - split; [done|]. destruct (decide (ch ∈ l)).
    + by rewrite decide_True by (by right).
    + rewrite decide_False; [done|]. by intros [?|?]%elem_of_cons.
Qed.

(** ** The invariant of the loop *)

Definition wf (b : Broker) : Prop :=
  (forall ch, (length (buffer (chan b ch)) <= bufferSize)%nat)
  /\ (forall ch, ch ∈ subs b -> is_Some (channels b !! ch) /\ closed (chan b ch) = negb (running b))
  /\ (forall ch, ch ∉ subs b -> is_Some (channels b !! ch) -> closed (chan b ch) = true).

Lemma wf_New : wf NewBroker.
Proof using RL.
  split; [|split].
  - intros ch. unfold chan, NewBroker. cbn [channels]. rewrite lookup_empty. cbn. lia.
  - intros ch H. unfold NewBroker in H. cbn [subs] in H. set_solver.
  - intros ch _ [c H]. by destruct (lookup_empty_Some _ _ H).
Qed.

Lemma subscribers_spec b :
  subscribers b = (Ok (rangeSubs (rounds b) (subs b)), mkBroker (channels b) (subs b) (running b) (S (rounds b)))
  /\ NoDup (rangeSubs (rounds b) (subs b))
  /\ forall ch, ch ∈ rangeSubs (rounds b) (subs b) <-> ch ∈ subs b.
Proof using RL.
  split; [done|]. split; [rewrite rangeSubs_all; apply NoDup_elements|].
  intros ch. by rewrite rangeSubs_all, elem_of_elements.
Qed.

Lemma push_length msg c : (length (buffer c) <= bufferSize -> length (buffer (push msg c)) <= bufferSize)%nat.
Proof using Type.
  unfold push. intros H. destruct (Nat.ltb_spec (length (buffer c)) bufferSize); cbn; [|done].
  rewrite length_app. cbn. lia.
Qed.

Lemma Publish_spec msg b :
  wf b -> running b = true ->
  exists b', Publish msg b = (Ok tt, b') /\ wf b' /\ subs b' = subs b /\ running b' = true
    /\ forall ch, chan b' ch = if decide (ch ∈ subs b) then push msg (chan b ch) else chan b ch.
Proof using RL.
  intros (H1 & H2 & H3) Hr. unfold Publish, onPublish, bind at 1.
  destruct (subscribers_spec b) as (-> & Hn & Hin).
  set (b0 := mkBroker (channels b) (subs b) (running b) (S (rounds b))).
  destruct (trySends_spec msg (rangeSubs (rounds b) (subs b)) b0) as (b' & E & G1 & G2 & G3 & G4); [done| |].
  { intros ch Hch%Hin. destruct (H2 ch Hch) as [? ?]. rewrite Hr in *. done. }
  assert (forall ch, chan b' ch = if decide (ch ∈ subs b) then push msg (chan b ch) else chan b ch) as G5.
  { intros ch. rewrite G4. destruct (decide (ch ∈ subs b)).
    - by rewrite decide_True by (by apply Hin).
    - by rewrite decide_False by (by rewrite Hin). }
  exists b'. split; [exact E|]. split; [|split; [done|split; [by rewrite G2|done]]].
  unfold wf. rewrite G1, G2. cbn [subs running]. split; [|split].
  - intros ch. rewrite G5. case_decide; [by apply push_length|done].
  - intros ch Hch. rewrite G3, G5, decide_True by done. destruct (H2 ch Hch) as [? Hc].
    split; [done|]. cbn. rewrite <- Hc. unfold push. by destruct (_ <? _)%nat.
  - intros ch Hch Hs. rewrite G5, decide_False by done. apply H3; [done|]. by apply (G3 ch).
Qed.

Lemma Done_spec b :
  wf b -> running b = true ->
  exists b', onDone b = (Ok tt, b') /\ wf b' /\ running b' = false
    /\ forall ch, buffer (chan b' ch) = buffer (chan b ch).
Proof using RL.
  intros (H1 & H2 & H3) Hr. unfold onDone, bind at 1.
  destruct (subscribers_spec b) as (-> & Hn & Hin).
  set (b0 := mkBroker (channels b) (subs b) (running b) (S (rounds b))).
  destruct (closeChannels_spec (rangeSubs (rounds b) (subs b)) b0) as (b' & E & G1 & G3 & G4); [done| |].
  { intros ch Hch%Hin. destruct (H2 ch Hch) as [? ?]. rewrite Hr in *. done. }
  unfold bind at 1. rewrite E. unfold modify. eexists. split; [reflexivity|].
  split; [|split; [done|intros ch; apply (G4 ch)]].
  split; [|split]; cbn.
  - intros ch. destruct (G4 ch) as [Hb _]. change (length (buffer (chan b' ch)) <= bufferSize)%nat.
    rewrite Hb. apply H1.
  - intros ch Hch. rewrite G1 in Hch. cbn in Hch. split; [apply (G3 ch); by apply (H2 ch)|].
    destruct (G4 ch) as [_ Hc]. rewrite decide_True in Hc by (by apply Hin). exact Hc.
  - intros ch Hch Hs. rewrite G1 in Hch. cbn in Hch. destruct (G4 ch) as [_ Hc].
    rewrite decide_False in Hc by (by rewrite Hin). etransitivity; [exact Hc|].
    apply H3; [done|]. by apply (G3 ch).
Qed.

Lemma chan_insert b ch c s r n ch' :
  chan (mkBroker (<[ch := c]> (channels b)) s r n) ch' = if decide (ch' = ch) then c else chan b ch'.
Proof using Type.
  unfold chan. cbn. destruct (decide (ch' = ch)) as [->|H];
    [by rewrite lookup_insert_eq | by rewrite lookup_insert_ne].
Qed.

Lemma Subscribe_spec ch b :
  wf b -> running b = true -> channels b !! ch = None ->
  exists b', Subscribe ch b = (Ok tt, b') /\ wf b' /\ running b' = true
    /\ subs b' = {[ ch ]} ∪ subs b /\ forall ch', buffer (chan b' ch') = buffer (chan b ch').
Proof using RL.
  intros (H1 & H2 & H3) Hr Hch. unfold Subscribe, onSubscribe, setChannel, modify, bind.
  eexists. split; [reflexivity|]. cbn [channels subs running rounds].
  assert (forall ch', buffer (chan (mkBroker (<[ch := mkChannel [] false]> (channels b))
            ({[ ch ]} ∪ subs b) (running b) (rounds b)) ch') = buffer (chan b ch')) as Hb.
  { intros ch'. rewrite chan_insert. destruct (decide (ch' = ch)) as [->|]; [|done].
    unfold chan. by rewrite Hch. }
  split; [|split; [done|split; [done|exact Hb]]].
  split; [|split]; cbn [subs running].
  - intros ch'. rewrite Hb. apply H1.
  - intros ch' Hin. rewrite chan_insert. cbn. destruct (decide (ch' = ch)) as [->|Hne].
    + rewrite lookup_insert_eq, Hr. by split; [eexists|].
    + rewrite lookup_insert_ne by done. apply H2. set_solver.
  - intros ch' Hin Hs. rewrite chan_insert. destruct (decide (ch' = ch)) as [->|Hne]; [set_solver|].
    apply H3; [set_solver|]. cbn in Hs. by rewrite lookup_insert_ne in Hs.
Qed.

(** Unsubscribing panics the second time. *)
Lemma Unsubscribe_spec ch b :
  wf b -> running b = true -> is_Some (channels b !! ch) ->
  if decide (ch ∈ subs b)
  then exists b', Unsubscribe ch b = (Ok tt, b') /\ wf b' /\ running b' = true
         /\ subs b' = subs b ∖ {[ ch ]} /\ forall ch', buffer (chan b' ch') = buffer (chan b ch')
  else exists b', Unsubscribe ch b = (Panic "close of closed channel", b').
Proof using RL.
  intros (H1 & H2 & H3) Hr Hs. unfold Unsubscribe, onUnsubscribe, closeChannel, modify, bind, get.
  cbn. change (chan (mkBroker (channels b) (subs b ∖ {[ch]}) (running b) (rounds b)) ch) with (chan b ch).
  destruct (decide (ch ∈ subs b)) as [Hin|Hin].
  - destruct (H2 ch Hin) as [_ Hc]. rewrite Hr in Hc. cbn in Hc. rewrite Hc.
    eexists. split; [reflexivity|].
    assert (forall ch', buffer (chan (mkBroker (<[ch := mkChannel (buffer (chan b ch)) true]> (channels b))
              (subs b ∖ {[ ch ]}) (running b) (rounds b)) ch') = buffer (chan b ch')) as Hb.
    { intros ch'. rewrite chan_insert. by destruct (decide (ch' = ch)) as [->|]. }
    split; [|split; [done|split; [done|exact Hb]]]. split; [|split]; cbn [subs running].
    + intros ch'. rewrite Hb. apply H1.
    + intros ch' Hin'. rewrite chan_insert. cbn. rewrite decide_False, lookup_insert_ne by set_solver.
      apply H2. set_solver.
    + intros ch' Hin' Hs'. rewrite chan_insert. destruct (decide (ch' = ch)) as [->|Hne]; [done|].
      apply H3; [set_solver|]. cbn in Hs'. by rewrite lookup_insert_ne in Hs'.
  - rewrite (H3 ch Hin Hs). by eexists.
Qed.

Lemma receive_spec ch msg b b' :
  wf b -> receive ch b = (Ok (Some msg), b') -> is_Some (channels b !! ch) ->
  wf b' /\ running b' = running b /\ subs b' = subs b
  /\ buffer (chan b ch) = msg :: buffer (chan b' ch)
  /\ forall ch', ch' <> ch -> chan b' ch' = chan b ch'.
Proof using RL.
  intros (H1 & H2 & H3) H Hs. unfold receive, setChannel, modify, bind, get, ret in H.
  destruct (buffer (chan b ch)) as [|m rest] eqn:Eb; [done|]. injection H as <- <-.
  split; [|split; [done|split; [done|split]]].
  - split; [|split]; cbn [subs running].
    + intros ch'. rewrite chan_insert. destruct (decide (ch' = ch)) as [->|]; [|apply H1].
      cbn. specialize (H1 ch). rewrite Eb in H1. cbn in H1. lia.
    + intros ch' Hin. rewrite chan_insert. cbn. destruct (decide (ch' = ch)) as [->|Hne].
      * rewrite lookup_insert_eq. split; [by eexists|]. apply (H2 ch Hin).
      * rewrite lookup_insert_ne by done. by apply H2.
    + intros ch' Hin Hs'. rewrite chan_insert. destruct (decide (ch' = ch)) as [->|Hne].
      * by apply H3.
      * apply H3; [done|]. cbn in Hs'. by rewrite lookup_insert_ne in Hs'.
  - by rewrite chan_insert, decide_True.
  - intros ch' Hne. by rewrite chan_insert, decide_False.
Qed.

(** ** Executions *)

(** What holds of a channel after a trace. *)
Definition tracked (tr : list event) (b : Broker) : Prop :=
  wf b /\ (running b = true -> forall ch, ch ∈ subs b <-> liveAfter ch tr = true)
  /\ (running b = false -> forall ch, liveAfter ch tr = false)
  /\ forall ch, sublist (received ch tr ++ buffer (chan b ch)) (offered ch false tr).

(** At every moment the channel has had room for what it was offered. *)
Definition keptUp (ch : nat) (tr : list event) : Prop :=
  forall tr1 tr2, tr = tr1 ++ tr2 ->
    (length (offered ch false tr1) <= bufferSize + length (received ch tr1))%nat.

Lemma keptUp_prefix ch tr e : keptUp ch (tr ++ [e]) -> keptUp ch tr.
Proof using Type. intros H tr1 tr2 ->. apply (H tr1 (tr2 ++ [e])). by rewrite app_assoc. Qed.

Lemma tracked_step tr b e b' :
  tracked tr b -> step b e b' ->
  tracked (tr ++ [e]) b'
  /\ forall ch, keptUp ch (tr ++ [e]) -> received ch tr ++ buffer (chan b ch) = offered ch false tr ->
       received ch (tr ++ [e]) ++ buffer (chan b' ch) = offered ch false (tr ++ [e]).
Proof using RL.
  intros (Hwf & Hlive & Hdead & Hsub) Hstep.
  destruct Hstep as [b ch b' Hr Hn H|b ch b' Hr Hs H|b msg b' Hr H|b ch msg b' Hs H|b b' Hr H].
  - destruct (Subscribe_spec ch b Hwf Hr Hn) as (b1 & E & H1 & H2 & H3 & H4).
    rewrite H in E. injection E as <-. split; [split; [done|split; [|split; [congruence|]]]|].
    + intros _ ch'. rewrite H3, liveAfter_snoc. cbn. rewrite elem_of_union, elem_of_singleton, (Hlive Hr).
      destruct (liveAfter ch' tr); cbn; try case_bool_decide; naive_solver.
    + intros ch'. rewrite received_snoc, offered_snoc, !app_nil_r, H4. apply Hsub.
    + intros ch' _ He. by rewrite received_snoc, offered_snoc, !app_nil_r, H4.
  - pose proof (Unsubscribe_spec ch b Hwf Hr Hs) as HU.
    destruct (decide (ch ∈ subs b)); [|destruct HU as [b1 HU]; congruence].
    destruct HU as (b1 & E & H1 & H2 & H3 & H4). rewrite H in E. injection E as <-.
    split; [split; [done|split; [|split; [congruence|]]]|].
    + intros _ ch'. rewrite H3, liveAfter_snoc. cbn. rewrite elem_of_difference, elem_of_singleton, (Hlive Hr).
      destruct (liveAfter ch' tr); cbn; try case_bool_decide; naive_solver.
    + intros ch'. rewrite received_snoc, offered_snoc, !app_nil_r, H4. apply Hsub.
    + intros ch' _ He. by rewrite received_snoc, offered_snoc, !app_nil_r, H4.
  - destruct (Publish_spec msg b Hwf Hr) as (b1 & E & H1 & H2 & H3 & H4).
    rewrite H in E. injection E as <-.
    assert (forall ch, (if foldl (liveStep ch) false tr then [msg] else []) = if decide (ch ∈ subs b) then [msg] else []) as Hl.
    { intros ch. change (foldl (liveStep ch) false tr) with (liveAfter ch tr). pose proof (Hlive Hr ch) as HL.
      destruct (decide (ch ∈ subs b)) as [Hin|Hin]; destruct (liveAfter ch tr); naive_solver. }
    split; [split; [done|split; [|split; [congruence|]]]|].
    + intros _ ch. rewrite H2, liveAfter_snoc. cbn. by apply Hlive.
    + intros ch. rewrite received_snoc, offered_snoc, app_nil_r, Hl, H4. specialize (Hsub ch).
      destruct (decide (ch ∈ subs b)); [|by rewrite app_nil_r].
      unfold push. destruct (_ <? _)%nat; cbn.
      * rewrite app_assoc. by apply sublist_app.
      * by apply sublist_inserts_r.
    + intros ch Hk He. rewrite received_snoc, offered_snoc, app_nil_r, Hl, H4, <- He.
      specialize (Hk (tr ++ [Published msg]) [] ltac:(by rewrite app_nil_r)).
      rewrite received_snoc, offered_snoc, app_nil_r, Hl, <- He in Hk.
      destruct (decide (ch ∈ subs b)); [|by rewrite app_nil_r].
      rewrite !length_app in Hk. cbn in Hk. unfold push.
      destruct (Nat.ltb_spec (length (buffer (chan b ch))) bufferSize); [|unfold bufferSize in *; lia].
      cbn. by rewrite <- app_assoc.
  - destruct (receive_spec ch msg b b' Hwf H Hs) as (H1 & H2 & H3 & H4 & H5).
    assert (forall ch', received ch' tr ++ buffer (chan b ch')
              = received ch' (tr ++ [Received ch msg]) ++ buffer (chan b' ch')) as Hrec.
    { intros ch'. rewrite received_snoc. destruct (decide (ch = ch')) as [->|Hne].
      - by rewrite bool_decide_eq_true_2, H4, <- app_assoc.
      - rewrite bool_decide_eq_false_2, app_nil_r, H5 by congruence. done. }
    split; [split; [done|split; [|split]]|].
    + intros Hr ch'. rewrite H3, liveAfter_snoc. cbn. apply Hlive. congruence.
    + intros Hr ch'. rewrite liveAfter_snoc. cbn. apply Hdead. congruence.
    + intros ch'. rewrite <- Hrec, offered_snoc, app_nil_r. apply Hsub.
    + intros ch' _ He. by rewrite <- Hrec, offered_snoc, app_nil_r.
  - destruct (Done_spec b Hwf Hr) as (b1 & E & H1 & H2 & H3). rewrite H in E. injection E as <-.
    split; [split; [done|split; [congruence|split]]|].
    + intros _ ch. by rewrite liveAfter_snoc.
    + intros ch. rewrite received_snoc, offered_snoc, !app_nil_r, H3. apply Hsub.
    + intros ch _ He. by rewrite received_snoc, offered_snoc, !app_nil_r, H3.
Qed.

Lemma execution_tracked tr b :
  execution NewBroker tr b ->
  tracked tr b
  /\ forall ch, keptUp ch tr -> received ch tr ++ buffer (chan b ch) = offered ch false tr.
Proof using RL.
  intros H. remember NewBroker as b0 eqn:E0. induction H as [b|b tr b' e b'' H IH Hstep]; subst b.
  - split.
    + split; [apply wf_New|]. split; [intros _ ch; cbn; set_solver|]. split; [done|].
      intros ch. unfold chan, NewBroker. cbn [channels]. rewrite lookup_empty. constructor.
    + intros ch _. unfold chan, NewBroker. cbn [channels]. by rewrite lookup_empty.
  - destruct (IH eq_refl) as [Ht Hk]. destruct (tracked_step _ _ _ _ Ht Hstep) as [H1 H2].
    split; [exact H1|]. intros ch Hkeep. apply H2; [exact Hkeep|]. by eapply Hk, keptUp_prefix.
Qed.

(** C14: In every execution a subscriber receives messages that were published while
    it was subscribed, in their order and each at most once, all of them if at every
    moment no more than five were waiting; and the loop never blocks nor panics on a
    message, on a new subscriber, at the end, or on the first Unsubscribe of a channel. *)
Theorem broker_delivery (tr : list event) (b : Broker) :
  execution NewBroker tr b ->
  (forall ch, sublist (received ch tr ++ buffer (chan b ch)) (offered ch false tr)
              /\ (length (buffer (chan b ch)) <= bufferSize)%nat
              /\ (keptUp ch tr -> received ch tr ++ buffer (chan b ch) = offered ch false tr))
  /\ (running b = true ->
      (forall msg, exists b', step b (Published msg) b')
      /\ (exists b', step b Done b')
      /\ (forall ch, channels b !! ch = None -> exists b', step b (Subscribed ch) b')
      /\ (forall ch, liveAfter ch tr = true -> exists b', step b (Unsubscribed ch) b')).
Proof using RL.
  intros H. destruct (execution_tracked tr b H) as [(Hwf & Hlive & _ & Hsub) Hk]. split.
  - intros ch. split; [apply Hsub|]. split; [apply Hwf|apply Hk].
  - intros Hr. split; [|split; [|split]].
    + intros msg. destruct (Publish_spec msg b Hwf Hr) as (b' & E & _). eexists. by apply step_publish.
    + destruct (Done_spec b Hwf Hr) as (b' & E & _). eexists. by apply step_done.
    + intros ch Hn. destruct (Subscribe_spec ch b Hwf Hr Hn) as (b' & E & _). eexists. by apply step_subscribe.
    + intros ch Hl. apply (Hlive Hr) in Hl. pose proof Hwf as (_ & H2 & _). destruct (H2 ch Hl) as [Hs _].
      pose proof (Unsubscribe_spec ch b Hwf Hr Hs) as HU. rewrite decide_True in HU by done.
      destruct HU as (b' & E & _). eexists. by apply step_unsubscribe.
Qed.

(** Unsubscribing twice ends the program. *)
Lemma unsubscribe_twice (tr : list event) (b : Broker) ch :
  execution NewBroker tr b -> running b = true -> is_Some (channels b !! ch) -> liveAfter ch tr = false ->
  exists b', Unsubscribe ch b = (Panic "close of closed channel", b').
Proof using RL.
  intros H Hr Hs Hl. destruct (execution_tracked tr b H) as [(Hwf & Hlive & _) _].
  pose proof (Unsubscribe_spec ch b Hwf Hr Hs) as HU.
  rewrite decide_False in HU; [exact HU|]. rewrite (Hlive Hr). by rewrite Hl.
Qed.
End Broker.

(** ** Witness *)

Definition elementsSubs : RangeSubs := {| rangeSubs := fun _ s => elements s |}.
#[export] Instance elementsSubs_laws : RangeSubsLaws elementsSubs.
Proof. done. Qed.

Definition sampleTrace : list (event (T := Z)) := [Subscribed 0; Published 7; Received 0 7; Published 8].
Definition sampleBroker : Broker (T := Z) := mkBroker {[ 0%nat := mkChannel [8] false ]} {[ 0%nat ]} true 2.

Lemma sampleBroker_execution : execution (R := elementsSubs) NewBroker sampleTrace sampleBroker.
Proof.
  apply (execution_snoc _ [Subscribed 0; Published 7; Received 0 7]
    (mkBroker {[ 0%nat := mkChannel [] false ]} {[ 0%nat ]} true 1)); [|by apply step_publish].
  apply (execution_snoc _ [Subscribed 0; Published 7]
    (mkBroker {[ 0%nat := mkChannel [7] false ]} {[ 0%nat ]} true 1)); [|by apply step_receive; [eexists|]].
  apply (execution_snoc _ [Subscribed 0]
    (mkBroker {[ 0%nat := mkChannel [] false ]} {[ 0%nat ]} true 0)); [|by apply step_publish].
  apply (execution_snoc _ [] NewBroker); [apply execution_nil|]. by apply step_subscribe.
Qed.

Lemma broker_delivery_witness :
  received 0 sampleTrace ++ buffer (chan sampleBroker 0) = offered 0 false sampleTrace.
Proof.
  destruct (broker_delivery (R := elementsSubs) sampleTrace sampleBroker sampleBroker_execution) as [H _].
  destruct (H 0%nat) as (_ & _ & Hk). apply Hk. intros tr1 tr2 E.
  assert (tr1 = take (length tr1) sampleTrace) as -> by (rewrite E; symmetry; apply take_app_length).
  unfold sampleTrace. generalize (length tr1) as n. intros n.
  do 4 (destruct n as [|n]; [vm_compute; lia|]). destruct n; vm_compute; lia.
Defined.
