(* ===== verification/StoreTypes.v ===== *)
(** * Distinguished names and entries

    service/bottin/store/types.go: components, DNs and their reverse, prefixes,
    with parsing and printing; attributes and entries.

    A Go map is a reference: an entry holds the location of its attributes in a
    heap of maps, since the handlers of the directory change the maps that the
    store holds (see Bottin.v).  A slice of attribute values is never changed in
    place, and is a list. *)

From stdpp Require Import gmap.
From S2P Require Import Prelude GoStrings.
From Stdlib Require Import Strings.Ascii.
#[local] Open Scope Z_scope.

Definition dnSeparator : ascii := ","%char.
Definition prefixSeparator : ascii := "/"%char.

Definition ErrMissingEquals : error := PlainError "missing = in DN, expected exactly one".
Definition ErrInvalidComponent : error := PlainError "invalid component".

(** [errors.Join] of errors that are not nil. *)
Definition errorsJoin (errs : list error) : error := Errorf "" errs.

Record Component : Type := NewComponent { Type_ : string; Value : string }.

#[export] Instance Component_eq_dec : EqDecision Component.
Proof. solve_decision. Defined.

Definition Component_String (seg : Component) : string := Type_ seg +:+ "=" +:+ Value seg.

Definition joinComponentSlice (comps : list Component) (separator : ascii) : string :=
  Join (map Component_String comps) (String separator "").

Definition DN : Type := list Component.
Definition Prefix : Type := list Component.

Definition DN_Prefix (dn : DN) : Prefix := reverse dn.
Definition Prefix_DN (prefix : Prefix) : DN := reverse prefix.
Definition DN_String (dn : DN) : string := joinComponentSlice dn dnSeparator.
Definition Prefix_String (prefix : Prefix) : string := joinComponentSlice prefix prefixSeparator.
Definition DN_Level (dn : DN) : Z := len dn.
Definition DN_Equal (dn dn2 : DN) : bool := bool_decide (dn = dn2).
Definition Prefix_Equal (p p2 : Prefix) : bool := bool_decide (p = p2).
Definition DN_Sub (dn : DN) (comps : list Component) : DN := comps ++ dn.

(** [dn.Clone()[1:]] panics on the empty DN. *)
Definition DN_Parent (dn : DN) : outcome DN :=
  match dn with
  | _ :: parent => Ok parent
  | [] => Panic "slice bounds out of range"
  end.

Definition Prefix_Less (prefix p : Prefix) : bool :=
  lessThan (Prefix_String prefix) (Prefix_String p).

Definition IsPrefixOf (prefix prf : Prefix) : bool :=
  if len prf <? len prefix then false
  else bool_decide (prefix = take (length prefix) prf).

(** The end of the range of keys under a prefix: its last value followed by the
    greatest rune. *)
Definition prefixEnd (prefix : Prefix) : Prefix :=
  match last prefix with
  | None => []
  | Some lastComponent =>
      take (pred (length prefix)) prefix
      ++ [NewComponent (Type_ lastComponent) (Value lastComponent +:+ MaxRune)]
  end.

Section Parse.
Context {U : Unicode}.

Definition ParseComponent (rawComp : string) : outcome Component :=
  match Split rawComp "="%char with
  | [t; v] => Ok (NewComponent (ToLower (TrimSpace t)) (ToLower (TrimSpace v)))
  | _ => Err (errorsJoin
           [Errorf "error parsing component %q: %w" [ErrInvalidComponent]; ErrMissingEquals])
  end.

Fixpoint parseComponents (strs : list string) : outcome (list Component) :=
  match strs with
  | [] => Ok []
  | str :: strs' =>
      component <-? ParseComponent str ;;
      components <-? parseComponents strs' ;;
      Ok (component :: components)
  end.

Definition parseComponentSlice (raw : string) (separator : ascii) : outcome (list Component) :=
  parseComponents (Split raw separator).

Definition ParseDN (rawDN : string) : outcome DN := parseComponentSlice rawDN dnSeparator.
Definition ParsePrefix (rawPrefix : string) : outcome Prefix :=
  parseComponentSlice rawPrefix prefixSeparator.
Definition PrefixFromString (rawPrefix : string) : outcome Prefix := ParsePrefix rawPrefix.

(** ** Attributes and entries *)

Definition AttributeKey : Type := string.
Definition AttributeValue : Type := list string.
Definition Attributes : Type := gmap AttributeKey AttributeValue.

Definition NewAttributeKey (key : string) : AttributeKey := ToLower key.
Definition AttributeKey_EqualFold (ak1 ak2 : AttributeKey) : bool := EqualFold ak1 ak2.

(** A missing key has the empty value. *)
Definition Attributes_Get (attrs : Attributes) (key : AttributeKey) : AttributeValue :=
  default [] (attrs !! key).

(** A map value: a location of the heap, or the nil map, which reads as an
    empty map and panics when it is written. *)
Definition loc : Type := option nat.
Definition Heap : Type := list Attributes.

Record Entry : Type := mkEntry { EntryDN : DN; EntryAttributes : loc }.

Definition deref (h : Heap) (l : loc) : Attributes :=
  match l with Some n => default ∅ (h !! n) | None => ∅ end.

(** Reading, writing and allocating maps. *)
Definition load (l : loc) : Go Heap Attributes := fun h => (Ok (deref h l), h).

Definition assign (l : loc) (key : AttributeKey) (v : AttributeValue) : Go Heap unit :=
  match l with
  | Some n => modify (alter (fun attrs : Attributes => <[key := v]> attrs) n)
  | None => panic "assignment to entry in nil map"
  end.

Definition alloc (attrs : Attributes) : Go Heap loc := fun h => (Ok (Some (length h)), h ++ [attrs]).

(** [maps.Clone] *)
Definition clone (l : loc) : Go Heap loc :=
  match l with
  | Some _ => attrs <-- load l ;; alloc attrs
  | None => ret None
  end.

Definition NewEntry (dn : DN) (attributes : loc) : Go Heap Entry :=
  attrs <-- clone attributes ;;
  match dn with
  | dnFirstComponent :: _ =>
      assign attrs (NewAttributeKey (Type_ dnFirstComponent)) [Value dnFirstComponent]
  | [] => ret tt
  end ;;;
  ret (mkEntry dn attrs).

Definition Entry_Key (e : Entry) : Prefix := DN_Prefix (EntryDN e).

Definition Entry_Get (e : Entry) (key : AttributeKey) : Go Heap AttributeValue :=
  attrs <-- load (EntryAttributes e) ;; ret (Attributes_Get attrs key).
End Parse.

#[export] Instance Entry_eq_dec : EqDecision Entry.
Proof. solve_decision. Defined.

(** ** Joining components *)

(** A component whose parts contain none of [cs]. *)
Definition compLacks (c : ascii) (seg : Component) : Prop :=
  lacks c (Type_ seg) = true /\ lacks c (Value seg) = true.

Lemma lacks_app c s t : lacks c (s +:+ t) = lacks c s && lacks c t.
Proof. apply all_app. Qed.

Lemma Component_String_lacks c seg :
  c <> "="%char -> compLacks c seg -> lacks c (Component_String seg) = true.
Proof.
  intros Hc [H1 H2]. unfold Component_String. rewrite !lacks_app, H1, H2.
  change (negb ("=" =? c)%char && true && true = true).
  rewrite (proj2 (Ascii.eqb_neq "="%char c)) by congruence. done.
Qed.

Lemma Split_Component seg :
  compLacks "="%char seg -> Split (Component_String seg) "="%char = [Type_ seg; Value seg].
Proof.
  intros [H1 H2]. unfold Component_String.
  change ("=" +:+ Value seg) with (String "="%char (Value seg)).
  now rewrite Split_app_sep, Split_single.
Qed.

Lemma Component_String_inj a b :
  compLacks "="%char a -> compLacks "="%char b ->
  Component_String a = Component_String b -> a = b.
Proof.
  intros Ha Hb E. apply (f_equal (fun s => Split s "="%char)) in E.
  rewrite !Split_Component in E by done. destruct a, b. cbn in E. congruence.
Qed.

Lemma Split_joinComponents comps sep :
  sep <> "="%char -> comps <> [] -> Forall (compLacks sep) comps ->
  Split (joinComponentSlice comps sep) sep = map Component_String comps.
Proof.
  intros Hs Hn Hc. unfold joinComponentSlice. apply Split_Join.
  - now destruct comps.
  - apply Forall_map. apply (Forall_impl _ _ _ Hc). intros seg. now apply Component_String_lacks.
Qed.

Lemma joinComponents_cons c d l sep :
  joinComponentSlice (c :: d :: l) sep
  = Component_String c +:+ String sep (joinComponentSlice (d :: l) sep).
Proof. reflexivity. Qed.

Lemma joinComponents_nonempty c l sep : joinComponentSlice (c :: l) sep <> "".
Proof.
  destruct l; [|rewrite joinComponents_cons]; unfold joinComponentSlice, Join, Component_String;
    cbn; now destruct (Type_ c).
Qed.

(** The string of a list of components determines it, when no part contains the
    separator or an equals sign. *)
Lemma joinComponents_inj p q sep :
  sep <> "="%char ->
  Forall (compLacks sep) p -> Forall (compLacks "="%char) p ->
  Forall (compLacks sep) q -> Forall (compLacks "="%char) q ->
  joinComponentSlice p sep = joinComponentSlice q sep -> p = q.
Proof.
  intros Hs Hp Hp' Hq Hq' E.
  destruct p as [|c p], q as [|d q]; [done | |  |].
  - symmetry in E. now apply joinComponents_nonempty in E.
  - now apply joinComponents_nonempty in E.
  - apply (f_equal (fun s => Split s sep)) in E. rewrite !Split_joinComponents in E by done.
    revert E. generalize (c :: p) (d :: q) Hp' Hq'. clear.
    intros l. induction l as [|a l IH]; intros [|b k] Ha Hb E; try done.
    inversion Ha; inversion Hb; subst. injection E as E1 E2.
    f_equal; [now apply Component_String_inj | auto].
Qed.

Lemma joinComponents_app p c q sep :
  p <> [] ->
  joinComponentSlice (p ++ c :: q) sep
  = joinComponentSlice p sep +:+ String sep (joinComponentSlice (c :: q) sep).
Proof.
  intros Hp. induction p as [|a p IH]; [done|]. destruct p as [|b p].
  - reflexivity.
  - cbn [app]. cbn [app] in IH. rewrite !joinComponents_cons, IH by done.
    now rewrite string_app_assoc.
Qed.

(** ** Prefixes *)

Lemma DN_Prefix_DN dn : Prefix_DN (DN_Prefix dn) = dn.
Proof. apply reverse_involutive. Qed.

Lemma Prefix_DN_Prefix p : DN_Prefix (Prefix_DN p) = p.
Proof. apply reverse_involutive. Qed.

Lemma DN_Prefix_inj dn dn' : DN_Prefix dn = DN_Prefix dn' -> dn = dn'.
Proof. intros H. rewrite <- (DN_Prefix_DN dn), H. apply DN_Prefix_DN. Qed.

Lemma IsPrefixOf_spec p q : IsPrefixOf p q = true <-> exists r, q = p ++ r.
Proof.
  unfold IsPrefixOf. split.
  - destruct (_ <? _); [done|]. intros H%bool_decide_eq_true.
    exists (drop (length p) q). rewrite H at 1. symmetry. apply take_drop.
  - intros [r ->]. destruct (Z.ltb_spec (len (p ++ r)) (len p)); [len_lia|].
    apply bool_decide_eq_true. now rewrite take_app_length.
Qed.

Lemma joinComponents_snoc p c sep :
  p <> [] ->
  joinComponentSlice (p ++ [c]) sep
  = joinComponentSlice p sep +:+ String sep (Component_String c).
Proof. intros H. now rewrite joinComponents_app. Qed.

(** The end of a range is the key of the prefix followed by the greatest rune. *)
Lemma prefixEnd_String p :
  p <> [] -> Prefix_String (prefixEnd p) = Prefix_String p +:+ MaxRune.
Proof.
  intros Hp. destruct (exists_last Hp) as [q [c ->]].
  unfold prefixEnd. rewrite last_snoc.
  replace (take (pred (length (q ++ [c]))) (q ++ [c])) with q.
  2: { rewrite length_app. cbn. replace (pred (length q + 1)) with (length q) by lia.
       now rewrite take_app_length. }
  unfold Prefix_String. destruct q as [|d q].
  - cbn. unfold joinComponentSlice. cbn. unfold Component_String. cbn.
    now rewrite !string_app_assoc.
  - rewrite !joinComponents_snoc by done. rewrite string_app_assoc, app_String. do 2 f_equal.
    unfold Component_String. cbn. now rewrite !string_app_assoc.
Qed.

(** The key of a descendant starts with the key of its ancestor. *)
Lemma Prefix_String_descendant p q :
  p <> [] ->
  exists r, Prefix_String (p ++ q) = Prefix_String p +:+ r
            /\ (r = "" \/ exists s, r = String prefixSeparator s).
Proof.
  intros Hp. destruct q as [|c q].
  - exists "". rewrite app_nil_r, string_app_nil. auto.
  - eexists. split; [now apply joinComponents_app|]. right. eauto.
Qed.

(** ** Parsing what was printed *)

Section ParseProofs.
Context {U : Unicode} {UL : UnicodeLaws}.

Definition normal (s : string) : Prop := ToLower (TrimSpace s) = s.

(** What ParseComponent makes of an element of a list separated by [sep]. *)
Record canonical (seg : Component) : Prop := {
  canonical_equals : compLacks "="%char seg;
  canonical_type : normal (Type_ seg);
  canonical_value : normal (Value seg)
}.

Lemma normal_ToLower_TrimSpace s : normal (ToLower (TrimSpace s)).
Proof using UL.
  unfold normal. rewrite TrimSpace_ToLower by apply TrimSpace_idem. apply ToLower_idem.
Qed.

Definition punctuation (c : ascii) : Prop := code c < 65 \/ 122 < code c < 128.

Lemma norm_lacks c s : punctuation c -> lacks c s = true -> lacks c (ToLower (TrimSpace s)) = true.
Proof using UL. intros Hc H. apply ToLower_lacks; [done|]. now apply TrimSpace_lacks. Qed.

Lemma ParseComponent_canonical s seg : ParseComponent s = Ok seg -> canonical seg.
Proof using UL.
  unfold ParseComponent. intros H. pose proof (Split_lacks s "="%char) as L.
  destruct (Split s "="%char) as [|t [|v [|]]]; try done. injection H as <-.
  inversion L as [|? ? Ht L1]; inversion L1 as [|? ? Hv]; subst.
  split; cbn; try apply normal_ToLower_TrimSpace.
  split; cbn; apply norm_lacks; auto; left; done.
Qed.

Lemma ParseComponent_lacks c s seg :
  punctuation c -> lacks c s = true -> ParseComponent s = Ok seg -> compLacks c seg.
Proof using UL.
  intros Hc Hs. unfold ParseComponent. intros H. pose proof (Split_other s "="%char c Hs) as L.
  destruct (Split s "="%char) as [|t [|v [|]]]; try done. injection H as <-.
  inversion L as [|? ? Ht L1]; inversion L1 as [|? ? Hv]; subst.
  split; cbn; now apply norm_lacks.
Qed.

Lemma ParseComponent_String seg : canonical seg -> ParseComponent (Component_String seg) = Ok seg.
Proof using Type.
  intros [He Ht Hv]. unfold ParseComponent. rewrite Split_Component by done.
  rewrite Ht, Hv. now destruct seg.
Qed.

Lemma parseComponents_Forall (P : string -> Prop) (Q : Component -> Prop) strs comps :
  (forall s seg, P s -> ParseComponent s = Ok seg -> Q seg) ->
  Forall P strs -> parseComponents strs = Ok comps -> Forall Q comps /\ length comps = length strs.
Proof using Type.
  intros HPQ HP. revert comps. induction HP as [|s strs Hs HP IH]; cbn; intros comps H.
  - injection H as <-. auto.
  - go_inv. injection H as <-. destruct (IH _ Ho0) as [H1 H2]. cbn. rewrite H2. split; [|done].
    constructor; eauto.
Qed.

Lemma parseComponents_String comps :
  Forall canonical comps -> parseComponents (map Component_String comps) = Ok comps.
Proof using Type.
  induction 1 as [|seg comps Hs Hc IH]; cbn; [done|]. now rewrite ParseComponent_String, IH.
Qed.

Lemma parseComponentSlice_String comps sep :
  sep <> "="%char -> comps <> [] -> Forall canonical comps -> Forall (compLacks sep) comps ->
  parseComponentSlice (joinComponentSlice comps sep) sep = Ok comps.
Proof using Type.
  intros Hs Hn Hc Hl. unfold parseComponentSlice. rewrite Split_joinComponents by done.
  now apply parseComponents_String.
Qed.

(** A DN as ParseDN returns it. *)
Record parsed (dn : DN) : Prop := {
  parsed_nonempty : dn <> [];
  parsed_canonical : Forall canonical dn;
  parsed_commas : Forall (compLacks dnSeparator) dn
}.

Definition slashFree (dn : DN) : Prop := Forall (compLacks prefixSeparator) dn.

Lemma ParseDN_parsed s dn : ParseDN s = Ok dn -> parsed dn.
Proof using UL.
  intros H. unfold ParseDN, parseComponentSlice in H.
  destruct (parseComponents_Forall (fun s => lacks dnSeparator s = true)
              (fun seg => canonical seg /\ compLacks dnSeparator seg) (Split s dnSeparator) dn)
    as [H1 H2]; [| apply Split_lacks | exact H |].
  - intros s' seg Hl Hp. split; [now apply ParseComponent_canonical in Hp|].
    apply (ParseComponent_lacks dnSeparator s'); [left; done | done | done].
  - apply Forall_and in H1 as [H1 H3]. split; try done.
    intros ->. destruct (Split_cons s dnSeparator) as [h [t E]]. rewrite E in H2. done.
Qed.

Lemma ParseDN_slashFree s dn :
  lacks prefixSeparator s = true -> ParseDN s = Ok dn -> slashFree dn.
Proof using UL.
  intros Hs H. unfold ParseDN, parseComponentSlice in H.
  destruct (parseComponents_Forall (fun s => lacks prefixSeparator s = true)
              (compLacks prefixSeparator) (Split s dnSeparator) dn) as [H1 _]; [| | exact H | exact H1].
  - intros s' seg Hl Hp. apply (ParseComponent_lacks prefixSeparator s'); [left; done | done | done].
  - now apply Split_other.
Qed.

(** Printing a parsed DN and parsing it again gives the same DN, so the
    stored form of DNs (group members, creators) is canonical. *)
Theorem ParseDN_String (s : string) (dn : DN) :
  ParseDN s = Ok dn -> ParseDN (DN_String dn) = Ok dn.
Proof using UL.
  intros H. apply ParseDN_parsed in H as [Hn Hc Hl]. now apply parseComponentSlice_String.
Qed.

Lemma Forall_DN_Prefix (P : Component -> Prop) dn : Forall P (DN_Prefix dn) <-> Forall P dn.
Proof using Type. unfold DN_Prefix. apply Forall_reverse. Qed.

Lemma DN_Prefix_nil dn : DN_Prefix dn = [] -> dn = [].
Proof using Type. intros H. now rewrite <- (DN_Prefix_DN dn), H. Qed.

(** The key of a DN without a slash (its prefix, printed) parses back to its
    prefix, whose DN is the DN: the key of an entry in the store identifies it. *)
Theorem ParsePrefix_String (s : string) (dn : DN) :
  lacks prefixSeparator s = true -> ParseDN s = Ok dn ->
  ParsePrefix (Prefix_String (DN_Prefix dn)) = Ok (DN_Prefix dn)
  /\ Prefix_DN (DN_Prefix dn) = dn.
Proof using UL.
  intros Hs H. split; [|apply DN_Prefix_DN]. pose proof (ParseDN_slashFree _ _ Hs H) as Hf.
  apply ParseDN_parsed in H as [Hn Hc Hl].
  apply parseComponentSlice_String; [done | | now apply Forall_DN_Prefix..].
  intros E. now apply DN_Prefix_nil in E.
Qed.

Lemma canonical_all_equals dn : Forall canonical dn -> Forall (compLacks "="%char) dn.
Proof using Type. intros H. apply (Forall_impl _ _ _ H). now intros seg []. Qed.

Lemma key_inj dn dn' :
  Forall canonical dn -> Forall canonical dn' -> slashFree dn -> slashFree dn' ->
  Prefix_String (DN_Prefix dn) = Prefix_String (DN_Prefix dn') -> dn = dn'.
Proof using Type.
  intros Hc Hc' Hs Hs' E. apply DN_Prefix_inj.
  apply (joinComponents_inj _ _ prefixSeparator); try done; try now apply Forall_DN_Prefix.
  all: apply Forall_DN_Prefix; now apply canonical_all_equals.
Qed.
End ParseProofs.

(** A slash in a value breaks this: two different DNs have the same key, so
    that storing one replaces the other. *)
Theorem key_collision :
  exists s1 s2 dn1 dn2,
    ParseDN (U := asciiOnly) s1 = Ok dn1 /\ ParseDN (U := asciiOnly) s2 = Ok dn2 /\ dn1 <> dn2
    /\ Prefix_String (DN_Prefix dn1) = Prefix_String (DN_Prefix dn2).
Proof.
  exists "cn=x,ou=a/b", "b/cn=x,ou=a". eexists _, _.
  split; [reflexivity|]. split; [reflexivity|]. split; [discriminate|reflexivity].
Qed.

(** ** Maps of attributes *)

Lemma attr_ne (a : Attributes) (k k' : AttributeKey) (v : AttributeValue) :
  k <> k' -> <[k := v]> a !! k' = a !! k'.
Proof. apply lookup_insert_ne. Qed.

Lemma attr_eq (a : Attributes) (k : AttributeKey) (v : AttributeValue) : <[k := v]> a !! k = Some v.
Proof. apply lookup_insert_eq. Qed.

(** The map allocated last. *)
Lemma deref_last (h : Heap) (a : Attributes) : deref (h ++ [a]) (Some (length h)) = a.
Proof.
  assert ((h ++ [a]) !! length h = Some a) as E by (apply list_lookup_middle; reflexivity).
  exact (f_equal (default ∅) E).
Qed.

(** ** Witnesses *)

Lemma ParseDN_String_witness :
  ParseDN (U := asciiOnly) (DN_String
    [NewComponent "ou" "users"; NewComponent "dc" "teapot"; NewComponent "dc" "ovh"])
  = Ok [NewComponent "ou" "users"; NewComponent "dc" "teapot"; NewComponent "dc" "ovh"].
Proof.
  apply (ParseDN_String (U := asciiOnly) " OU=Users, dc = teapot,dc=ovh"). reflexivity.
Defined.

Lemma ParsePrefix_String_witness :
  ParsePrefix (U := asciiOnly) (Prefix_String (DN_Prefix
    [NewComponent "ou" "users"; NewComponent "dc" "teapot"]))
  = Ok (DN_Prefix [NewComponent "ou" "users"; NewComponent "dc" "teapot"])
  /\ Prefix_DN (DN_Prefix [NewComponent "ou" "users"; NewComponent "dc" "teapot"])
     = [NewComponent "ou" "users"; NewComponent "dc" "teapot"].
Proof.
  apply (ParsePrefix_String (U := asciiOnly) " OU=Users, dc = teapot"); reflexivity.
Defined.
