(* ===== verification/Acl.v ===== *)
(** * Access control

    service/bottin/acl.go: the rules of the directory, their parser, and the
    check that a user may apply an action to the attributes of a target. *)

From S2P Require Import Prelude GoStrings PathMatch StoreTypes.
From Stdlib Require Import Strings.Ascii.
#[local] Open Scope Z_scope.

Definition ErrInvalidACLParts : error := PlainError "invalid number of ACL parts".

Record ACLEntry : Type := mkACLEntry {
  aclUser : string;
  RequiredGroups : list string;
  Actions : list string;
  Target : string;
  aclAttributes : list AttributeKey;
  ExcludedAttributes : list AttributeKey
}.

Definition ACL : Type := list ACLEntry.

Record User : Type := mkUser { user : string; groups : list string }.

Definition splitNoEmpty (s : string) : list string :=
  List.filter (fun s => negb (isEmpty s)) (Split s " "%char).

Section Acl.
Context {U : Unicode}.

(** The attribute patterns of a rule: the excluded ones start with [!]. *)
Definition splitAttributes (ss : list string) : list AttributeKey * list AttributeKey :=
  fold_left (fun '(attr, exclAttr) s =>
    match s with
    | String c s' =>
        if (c =? "!")%char then (attr, exclAttr ++ [NewAttributeKey s'])
        else (attr ++ [NewAttributeKey s], exclAttr)
    | EmptyString => (attr, exclAttr)
    end) ss ([], []).

Definition parseACLItem (item : string) : outcome ACLEntry :=
  match Split item ":"%char with
  | [p0; p1; p2; p3; p4] =>
      let '(attr, exclAttr) := splitAttributes (splitNoEmpty p4) in
      Ok (mkACLEntry p0 (splitNoEmpty p1) (splitNoEmpty p2) p3 attr exclAttr)
  | _ => Err (Errorf "could not parse ACL %q: %w" [ErrInvalidACLParts])
  end.

Fixpoint parseACL (def : list string) : outcome ACL :=
  match def with
  | [] => Ok []
  | item :: def' =>
      entry <-? parseACLItem item ;; acl <-? parseACL def' ;; Ok (entry :: acl)
  end.

(** [match]: a malformed pattern matches nothing. *)
Definition match_ (pattern val : string) : bool :=
  match Match (ToLower pattern) (ToLower val) with Ok rv => rv | _ => false end.

Fixpoint matchAny (pattern : string) (vals : list string) : bool :=
  match vals with
  | [] => false
  | val :: vals' => if match_ pattern val then true else matchAny pattern vals'
  end.

Fixpoint anyMatch (patterns : list string) (val : string) : bool :=
  match patterns with
  | [] => false
  | pattern :: patterns' => if match_ pattern val then true else anyMatch patterns' val
  end.

(** The pattern of the target matches the target, or the target in which the
    name of the user, at its end, is replaced by SELF. *)
Definition matchTarget (pattern target login : string) : bool :=
  let matched := match_ pattern target in
  if negb matched && Nat.leb (String.length login) (String.length target) then
    let start := (String.length target - String.length login)%nat in
    if (dropString start target =? login)%string
    then match_ pattern (takeString start target +:+ "SELF") else matched
  else matched.

Definition ACLEntry_Check (entry : ACLEntry) (login : User) (action : string) (target : string)
    (attributes : list AttributeKey) : bool :=
  if negb (match_ (aclUser entry) (user login)) then false
  else if negb (forallb (fun grp => matchAny grp (groups login)) (RequiredGroups entry)) then false
  else if negb (matchTarget (Target entry) target (user login)) then false
  else if negb (anyMatch (Actions entry) action) then false
  else if negb (forallb (fun attrib => anyMatch (aclAttributes entry) attrib) attributes) then false
  else if existsb (fun exclAttr => matchAny exclAttr attributes) (ExcludedAttributes entry) then false
  else true.

Definition ACL_Check (acl : ACL) (login : User) (action : string) (target : DN)
    (attributes : list AttributeKey) : bool :=
  let tgt := DN_String target in
  existsb (fun item => ACLEntry_Check item login action tgt attributes) acl.

(** ** What a rule grants *)

Record grants (entry : ACLEntry) (login : User) (action target : string)
    (attributes : list AttributeKey) : Prop := {
  grants_user : match_ (aclUser entry) (user login) = true;
  grants_groups : forall grp, grp ∈ RequiredGroups entry ->
    exists g, g ∈ groups login /\ match_ grp g = true;
  grants_target : matchTarget (Target entry) target (user login) = true;
  grants_action : exists a, a ∈ Actions entry /\ match_ a action = true;
  grants_attributes : forall attr, attr ∈ attributes ->
    exists p, p ∈ aclAttributes entry /\ match_ p attr = true;
  grants_excluded : forall p attr, p ∈ ExcludedAttributes entry -> attr ∈ attributes ->
    match_ p attr = false
}.

Lemma matchAny_spec pattern vals :
  matchAny pattern vals = true <-> exists v, v ∈ vals /\ match_ pattern v = true.
Proof.
  induction vals as [|v vals IH]; cbn.
  - split; [done|]. now intros [v [H%elem_of_nil _]].
  - setoid_rewrite elem_of_cons. destruct (match_ pattern v) eqn:E.
    + split; [intros _; eauto | done].
    + rewrite IH. split; [intros [v' [Hv Hm]]; eauto|]. intros [v' [[->|H] Hm]]; [congruence | eauto].
Qed.

Lemma anyMatch_spec patterns val :
  anyMatch patterns val = true <-> exists p, p ∈ patterns /\ match_ p val = true.
Proof.
  induction patterns as [|p ps IH]; cbn.
  - split; [done|]. now intros [v [H%elem_of_nil _]].
  - setoid_rewrite elem_of_cons. destruct (match_ p val) eqn:E.
    + split; [intros _; eauto | done].
    + rewrite IH. split; [intros [v' [Hv Hm]]; eauto|]. intros [v' [[->|H] Hm]]; [congruence | eauto].
Qed.

Lemma forallb_elem {A} (f : A -> bool) l : forallb f l = true <-> forall x, x ∈ l -> f x = true.
Proof. rewrite forallb_forall. setoid_rewrite list_elem_of_In. done. Qed.

Lemma existsb_elem {A} (f : A -> bool) l : existsb f l = true <-> exists x, x ∈ l /\ f x = true.
Proof. rewrite existsb_exists. setoid_rewrite list_elem_of_In. done. Qed.

Lemma ACLEntry_Check_spec entry login action target attributes :
  ACLEntry_Check entry login action target attributes = true
  <-> grants entry login action target attributes.
Proof.
  unfold ACLEntry_Check. split.
  - intros H.
    destruct (match_ (aclUser entry) (user login)) eqn:E1; [|done].
    destruct (forallb _ (RequiredGroups entry)) eqn:E2; [|done].
    destruct (matchTarget _ _ _) eqn:E3; [|done].
    destruct (anyMatch _ _) eqn:E4; [|done].
    destruct (forallb (fun attrib => anyMatch _ attrib) attributes) eqn:E5; [|done].
    destruct (existsb (fun exclAttr => matchAny exclAttr attributes) _) eqn:E6; [done|].
    rewrite forallb_elem in E2, E5. setoid_rewrite matchAny_spec in E2.
    setoid_rewrite anyMatch_spec in E5. apply anyMatch_spec in E4.
    split; try done. intros p attr Hp Ha. destruct (match_ p attr) eqn:E; [|done].
    enough (existsb (fun e => matchAny e attributes) (ExcludedAttributes entry) = true) by congruence.
    apply existsb_elem. exists p. split; [done|]. apply matchAny_spec. eauto.
  - intros [H1 H2 H3 H4 H5 H6]. rewrite H1, H3, (proj2 (anyMatch_spec _ _) H4).
    assert (forallb (fun grp => matchAny grp (groups login)) (RequiredGroups entry) = true) as ->.
    { apply forallb_elem. intros x Hx. apply matchAny_spec. auto. }
    assert (forallb (fun attrib => anyMatch (aclAttributes entry) attrib) attributes = true) as ->.
    { apply forallb_elem. intros x Hx. apply anyMatch_spec. auto. }
    cbn. destruct (existsb _ _) eqn:E; [|done].
    apply existsb_elem in E as [p [Hp Hm]]. apply matchAny_spec in Hm as [a [Ha Hm]].
    rewrite <- (H6 p a Hp Ha), <- Hm. done.
Qed.

(** C7: Access is granted exactly when some rule grants it: its user, all its
    groups, its target and an action match, every attribute is listed and none is
    excluded.  Without such a rule, access is denied. *)
Theorem ACL_Check_spec (acl : ACL) (login : User) (action : string) (target : DN)
    (attributes : list AttributeKey) :
  ACL_Check acl login action target attributes = true
  <-> exists entry, entry ∈ acl /\ grants entry login action (DN_String target) attributes.
Proof.
  unfold ACL_Check. rewrite existsb_elem. now setoid_rewrite ACLEntry_Check_spec.
Qed.

(** Whoever may act on some attributes may act on fewer of them; and more
    rules never take access away. *)
Theorem ACL_Check_mono (acl acl' : ACL) (login : User) (action : string) (target : DN)
    (attributes attributes' : list AttributeKey) :
  ACL_Check acl login action target attributes = true ->
  attributes' ⊆ attributes -> acl ⊆ acl' ->
  ACL_Check acl' login action target attributes' = true.
Proof.
  unfold ACL_Check. rewrite !existsb_elem. intros [entry [He H]] Ha Hl.
  exists entry. split; [now apply Hl|]. revert H. rewrite !ACLEntry_Check_spec.
  intros [H1 H2 H3 H4 H5 H6]. split; auto.
Qed.

(** The SELF rule: a target pattern matches a target when it matches it, or
    when the target ends with the very name of the user and the pattern matches
    it with SELF in the place of that name. *)
Theorem matchTarget_spec (pattern target login : string) :
  matchTarget pattern target login = true
  <-> match_ pattern target = true
      \/ exists rest, target = rest +:+ login /\ match_ pattern (rest +:+ "SELF") = true.
Proof.
  unfold matchTarget. destruct (match_ pattern target) eqn:E; cbn; [tauto|].
  destruct (Nat.leb_spec (String.length login) (String.length target)) as [Hl|Hl].
  - destruct (String.eqb_spec (dropString (String.length target - String.length login) target) login)
      as [Hd|Hd].
    + split.
      * intros H. right. eexists. split; [|exact H].
        rewrite <- Hd at 2. symmetry. apply take_drop_string.
      * intros [H|[rest [-> H]]]; [done|].
        rewrite length_app_string. rewrite Nat.add_sub. now rewrite take_app_string.
    + split; [done|]. intros [H|[rest [-> H]]]; [done|].
      rewrite length_app_string, Nat.add_sub, drop_app_string in Hd. done.
  - split; [done|]. intros [H|[rest [-> H]]]; [done|]. rewrite length_app_string in Hl. lia.
Qed.

(** A list of rules parses exactly when each has five parts; a rule with
    fewer or more makes the whole list be refused. *)
Theorem parseACL_spec (def : list string) :
  (exists acl, parseACL def = Ok acl /\ length acl = length def)
    /\ Forall (fun item => length (Split item ":"%char) = 5%nat) def
  \/ parseACL def = Err (Errorf "could not parse ACL %q: %w" [ErrInvalidACLParts])
     /\ Exists (fun item => length (Split item ":"%char) <> 5%nat) def.
Proof.
  induction def as [|item def IH]; cbn [parseACL]; [left; split; [now exists []|constructor]|].
  unfold parseACLItem. pose proof (eq_refl (length (Split item ":"%char))) as L.
  destruct (Split item ":"%char) as [|p0 [|p1 [|p2 [|p3 [|p4 [|p5 rest]]]]]] eqn:E;
    cbn [obind]; try (right; split; [done|]; left; rewrite E; done).
  destruct (splitAttributes _) as [attr excl]. cbn [obind].
  destruct IH as [[[acl [-> Hl]] Hf]|[-> Hf]]; cbn [obind].
  - left. split; [eexists; split; [reflexivity|]; cbn; now rewrite Hl|].
    constructor; [now rewrite E|done].
  - right. split; [done|]. now right.
Qed.
End Acl.

(** ** Witnesses *)

Definition sampleACL : ACL :=
  match parseACL (U := asciiOnly) ["*::bind:*:"; "*,dc=teapot::read modify:SELF:* !userpassword";
                                   "*:cn=admins,dc=teapot:*:*:*"] with
  | Ok acl => acl | _ => [] end.

Example sampleACL_rules :
  map Target sampleACL = ["*"; "SELF"; "*"] /\ map ExcludedAttributes sampleACL = [[]; ["userpassword"]; []].
Proof. split; reflexivity. Qed.

Lemma ACL_Check_mono_witness :
  ACL_Check (U := asciiOnly) sampleACL (mkUser "cn=bob,dc=teapot" []) "modify"
    [NewComponent "cn" "bob"; NewComponent "dc" "teapot"] ["mail"] = true.
Proof.
  apply (ACL_Check_mono (U := asciiOnly) sampleACL _ _ _ _ ["mail"; "sn"]); [reflexivity | |].
  - intros x Hx. apply list_elem_of_singleton in Hx as ->. by left.
  - intros x Hx. exact Hx.
Defined.
