(* ===== verification/MemStore.v ===== *)
(** * The in-memory store

    service/bottin/store/mem.go: entries in a B-tree ordered by the string of
    their prefix, range listing, and transactions that collect changes and apply
    them on commit.

    The locks of the store serialise its operations: each one is a step
    here.  The context of a request may be cancelled at any time: [ctxErr] tells
    what [ctx.Err()] returns at each point where it is asked. *)

From stdpp Require Import gmap sorting.
From S2P Require Import Prelude GoStrings GoBTree StoreTypes.
From Stdlib Require Import Strings.Ascii.
#[local] Open Scope Z_scope.

(** ** Entries *)

Record mementry : Type := mkmementry { entry : Entry; prefix : Prefix }.

#[export] Instance mementry_eq_dec : EqDecision mementry.
Proof. solve_decision. Defined.

Definition newmementry (e : Entry) : mementry := mkmementry e (DN_Prefix (EntryDN e)).

(** A pivot for searching: its attributes, an empty map that nothing reads, are
    the nil map here. *)
Definition mementryFromPrefix (p : Prefix) : mementry := mkmementry (mkEntry (Prefix_DN p) None) p.

Definition key (m : mementry) : string := Prefix_String (prefix m).
Definition mementryLess (a b : mementry) : bool := lessThan (key a) (key b).

Definition ErrCommitted : error := PlainError "transaction already committed".

Inductive changekind : Type := changekindStore | changekindDelete.
Record change : Type := mkchange { centry : mementry; kind : changekind }.

Record MemTransaction : Type := mkTransaction { committed : bool; changes : list change }.

Section Mem.
Context {B : BTree mementry mementryLess} {C : Context}.

(** The state of the process: the maps, the tree, and the number of questions
    asked so far to the environment (context, clock, random numbers, the order
    of map iterations). *)
Record World : Type := mkWorld { heap : Heap; tr : Tree B; ticks : nat }.

Definition onHeap {A} (m : Go Heap A) : Go World A :=
  fun w => let '(o, h) := m (heap w) in (o, mkWorld h (tr w) (ticks w)).

Definition tick : Go World nat :=
  fun w => (Ok (ticks w), mkWorld (heap w) (tr w) (S (ticks w))).

(** [if err := ctx.Err(); err != nil { return err }] *)
Definition checkContext : Go World unit :=
  n <-- tick ;; match ctxErr n with Some err => fail err | None => ret tt end.

Definition visitEntry (p : Prefix) (exact : bool) (entries : list Entry) (m : mementry)
    : bool * list Entry :=
  if negb exact then (true, entries ++ [entry m])
  else if Prefix_Equal (prefix m) p then (false, entries ++ [entry m])
  else (true, entries).

Definition Mem_items (p : Prefix) (exact : bool) (t : Tree B) : list Entry :=
  iterate (visitEntry p exact) []
    (AscendRange (mementryFromPrefix p) (mementryFromPrefix (prefixEnd p)) t).

Definition Mem_List (p : Prefix) (exact : bool) : Go World (list Entry) :=
  fun w => (Ok (Mem_items p exact (tr w)), w).

Definition Mem_Begin : Go World MemTransaction :=
  checkContext ;;; ret (mkTransaction false []).

Definition MemTransaction_Store (tx : MemTransaction) (e : Entry) : Go World MemTransaction :=
  if committed tx then fail ErrCommitted
  else ret (mkTransaction false (changes tx ++ [mkchange (newmementry e) changekindStore])).

Definition MemTransaction_Delete (tx : MemTransaction) (dn : DN) : Go World MemTransaction :=
  if committed tx then fail ErrCommitted
  else ret (mkTransaction false
              (changes tx ++ [mkchange (mementryFromPrefix (DN_Prefix dn)) changekindDelete])).

Definition applyChange (t : Tree B) (c : change) : Tree B :=
  match kind c with
  | changekindStore => ReplaceOrInsert (centry c) t
  | changekindDelete => Delete (centry c) t
  end.

Definition MemTransaction_Commit (tx : MemTransaction) : Go World MemTransaction :=
  checkContext ;;;
  if committed tx then fail ErrCommitted
  else
    modify (fun w => mkWorld (heap w) (foldl applyChange (tr w) (changes tx)) (ticks w)) ;;;
    ret (mkTransaction true (changes tx)).

(** ** The specification: a map from keys to entries *)

Definition Directory : Type := gmap string mementry.

Definition directory (t : Tree B) : Directory :=
  list_to_map (map (fun m => (key m, m)) (Ascend t)).

Definition specChange (d : Directory) (c : change) : Directory :=
  match kind c with
  | changekindStore => <[key (centry c) := centry c]> d
  | changekindDelete => delete (key (centry c)) d
  end.
End Mem.

(** ** Lemmas *)

Lemma equiv_key a b : equiv_by mementryLess a b <-> key a = key b.
Proof. apply (keyLess_equiv key). Qed.

Section MemProofs.
Context {B : BTree mementry mementryLess} {BL : BTreeLaws B} {C : Context}.

Lemma iterate_all (p : Prefix) (es : list Entry) (l : list mementry) :
  iterate (visitEntry p false) es l = es ++ map entry l.
Proof using Type.
  revert es. induction l as [|m l IH]; intros es; cbn; [now rewrite app_nil_r|].
  now rewrite IH, <- app_assoc.
Qed.

Lemma iterate_exact (p : Prefix) (es : list Entry) (l : list mementry) :
  iterate (visitEntry p true) es l
  = es ++ match list_find (fun m => prefix m = p) l with Some (_, m) => [entry m] | None => [] end.
Proof using Type.
  revert es. induction l as [|m l IH]; intros es; cbn; [now rewrite app_nil_r|].
  unfold visitEntry at 1. cbn. unfold Prefix_Equal.
  case_bool_decide as E.
  - rewrite (decide_True (P := prefix m = p)) by done. done.
  - rewrite (decide_False (P := prefix m = p)) by done. rewrite IH.
    destruct (list_find _ l) as [[? ?]|]; done.
Qed.

Lemma Ascend_key_inj (t : Tree B) a b :
  a ∈ Ascend t -> b ∈ Ascend t -> key a = key b -> a = b.
Proof using BL. apply (sorted_key_inj key), Ascend_sorted. Qed.

Lemma NoDup_keys (t : Tree B) : NoDup (map key (Ascend t)).
Proof using BL. apply (sorted_NoDup_keys key), Ascend_sorted. Qed.

Lemma directory_spec (t : Tree B) k m :
  directory t !! k = Some m <-> m ∈ Ascend t /\ key m = k.
Proof using BL.
  unfold directory, Directory. rewrite <- elem_of_list_to_map.
  - rewrite list_elem_of_fmap. split.
    + intros [x [[= -> ->] H]]. done.
    + intros [H <-]. now exists m.
  - rewrite <- list_fmap_compose. apply NoDup_keys.
Qed.

Lemma directory_change (t : Tree B) (c : change) :
  directory (applyChange t c) = specChange (directory t) c.
Proof using BL.
  apply map_eq. intros k. apply option_eq. intros m.
  rewrite directory_spec. unfold applyChange, specChange. destruct (kind c).
  - rewrite Ascend_Insert, equiv_key, lookup_insert_Some, directory_spec. split.
    + intros [[->|[H1 H2]] <-]; [auto|]. right. split; [congruence|auto].
    + intros [[<- <-]|[H1 [H2 <-]]]; [auto|]. split; [|done]. right. split; [done|congruence].
  - rewrite Ascend_Delete, equiv_key, lookup_delete_Some, directory_spec. split.
    + intros [[H1 H2] <-]. split; [congruence|done].
    + intros [H1 [H2 <-]]. split; [|done]. split; [done|congruence].
Qed.

Lemma directory_changes (cs : list change) (t : Tree B) :
  directory (foldl applyChange t cs) = foldl specChange (directory t) cs.
Proof using BL.
  revert t. induction cs as [|c cs IH]; intros t; cbn; [done|]. now rewrite IH, directory_change.
Qed.

(** C8: Committing a transaction applies its stores and deletes, in order, to the
    map from keys to entries that the tree stands for, and changes nothing else;
    a cancelled context leaves the tree alone. *)
Theorem Commit_refines (cs : list change) (w : World) :
  exists o t,
    MemTransaction_Commit (mkTransaction false cs) w = (o, mkWorld (heap w) t (S (ticks w)))
    /\ match ctxErr (ticks w) with
       | None => o = Ok (mkTransaction true cs)
                 /\ directory t = foldl specChange (directory (tr w)) cs
       | Some err => o = Err err /\ t = tr w
       end.
Proof using BL.
  unfold MemTransaction_Commit, checkContext, bind, tick. cbn.
  destruct (ctxErr (ticks w)) as [err|]; cbn; eexists _, _; (split; [reflexivity|]); [done|].
  split; [done|]. apply directory_changes.
Qed.

(** A committed transaction refuses further stores, deletes and commits, and
    a refused commit changes nothing. *)
Theorem Commit_once (cs : list change) (w w' : World) (tx : MemTransaction) (e : Entry) (dn : DN) :
  MemTransaction_Commit (mkTransaction false cs) w = (Ok tx, w') ->
  fst (MemTransaction_Store tx e w') = Err ErrCommitted
  /\ fst (MemTransaction_Delete tx dn w') = Err ErrCommitted
  /\ MemTransaction_Commit tx w'
     = (Err (default ErrCommitted (ctxErr (ticks w'))), mkWorld (heap w') (tr w') (S (ticks w'))).
Proof using Type.
  unfold MemTransaction_Commit at 1. intros H. go_inv. cbn in H. go_inv.
  split; [done|]. split; [done|].
  unfold MemTransaction_Commit, checkContext, bind, tick. cbn. now destruct (ctxErr _).
Qed.

(** ** Listing *)

Lemma in_range (p : Prefix) (m : mementry) :
  p <> [] ->
  (mementryLess m (mementryFromPrefix p) = false
   /\ mementryLess m (mementryFromPrefix (prefixEnd p)) = true)
  <-> exists r, key m = Prefix_String p +:+ r /\ lessThan r MaxRune = true.
Proof using Type.
  intros Hp. unfold mementryLess.
  change (key (mementryFromPrefix p)) with (Prefix_String p).
  change (key (mementryFromPrefix (prefixEnd p))) with (Prefix_String (prefixEnd p)).
  rewrite prefixEnd_String by done. apply range_prefix.
Qed.

(** Listing below a prefix gives exactly the entries whose key starts with the
    text of the prefix and goes on with something below the greatest rune. *)
Theorem List_range (p : Prefix) (t : Tree B) (e : Entry) :
  p <> [] ->
  e ∈ Mem_items p false t <->
  exists m r, m ∈ Ascend t /\ entry m = e
              /\ key m = Prefix_String p +:+ r /\ lessThan r MaxRune = true.
Proof using BL.
  intros Hp. unfold Mem_items. rewrite iterate_all. cbn [app].
  rewrite list_elem_of_fmap, AscendRange_Ascend. setoid_rewrite list_elem_of_filter.
  split.
  - intros [m [-> [Hr Hm]]]. apply in_range in Hr as [r [H1 H2]]; [|done]. eauto 10.
  - intros [m [r [Hm [<- Hr]]]]. exists m. split; [done|]. split; [|done].
    apply in_range; eauto.
Qed.

Lemma descendant_below_MaxRune (r : string) :
  r = "" \/ (exists s, r = String prefixSeparator s) -> lessThan r MaxRune = true.
Proof using Type. intros [->|[s ->]]; [done|]. unfold MaxRune. now rewrite lessThan_cons. Qed.

(** Listing below a prefix misses no entry of the subtree. *)
Lemma List_complete (p : Prefix) (t : Tree B) (m : mementry) :
  p <> [] -> m ∈ Ascend t -> IsPrefixOf p (prefix m) = true -> entry m ∈ Mem_items p false t.
Proof using BL.
  intros Hp Hm [q Hq]%IsPrefixOf_spec. apply List_range; [done|].
  destruct (Prefix_String_descendant p q Hp) as [r [Hr Hs]].
  exists m, r. unfold key. rewrite Hq. auto using descendant_below_MaxRune.
Qed.

(** A tree whose items are filed under the prefix of their entry. *)
Definition filed (t : Tree B) : Prop := forall m, m ∈ Ascend t -> m = newmementry (entry m).

(** The exact listing of a prefix gives the entry filed under that prefix if
    there is one, and nothing otherwise. *)
Lemma List_exact (p : Prefix) (t : Tree B) (e : Entry) :
  p <> [] -> filed t ->
  Mem_items p true t = [e] <-> newmementry e ∈ Ascend t /\ DN_Prefix (EntryDN e) = p.
Proof using BL.
  intros Hp Ht. unfold Mem_items. rewrite iterate_exact. cbn [app].
  rewrite AscendRange_Ascend. set (l := filter _ _).
  assert (forall m, m ∈ Ascend t -> prefix m = p -> m ∈ l) as Hin.
  { intros m Hm E. apply list_elem_of_filter. split; [|done]. apply in_range; [done|].
    exists "". unfold key. rewrite E, string_app_nil. auto using descendant_below_MaxRune. }
  destruct (list_find _ l) as [[i m]|] eqn:F.
  - apply list_find_Some in F as (Hl & E & _).
    assert (m ∈ Ascend t) as Hm.
    { apply list_elem_of_lookup_2 in Hl. now apply list_elem_of_filter in Hl. }
    split.
    + intros [= <-]. rewrite <- (Ht m Hm). split; [done|].
      rewrite (Ht m Hm) in E. exact E.
    + intros [He Hpe]. f_equal.
      assert (m = newmementry e) as ->; [|done].
      apply (Ascend_key_inj t); [done..|]. unfold key. rewrite E. cbn. now rewrite Hpe.
  - split; [done|]. intros [He Hpe]. apply list_find_None in F.
    rewrite Forall_forall in F. now destruct (F (newmementry e) (Hin _ He Hpe)).
Qed.

Lemma List_exact_length (p : Prefix) (t : Tree B) :
  Mem_items p true t = [] \/ exists e, Mem_items p true t = [e].
Proof using Type.
  unfold Mem_items. rewrite iterate_exact. destruct (list_find _ _) as [[? m]|]; [|now left].
  right. now exists (entry m).
Qed.
End MemProofs.

(** The tree that the witnesses compute with. *)
Definition listTree : BTree mementry mementryLess := keyTree key.

#[export] Instance listTree_laws : BTreeLaws listTree := keyTree_laws key.

(** ** What a listing leaks *)

Definition teapotDN : DN := [NewComponent "dc" "teapot"].
Definition usersDN : DN := [NewComponent "ou" "users"; NewComponent "dc" "teapot"].
Definition users2DN : DN := [NewComponent "ou" "users2"; NewComponent "dc" "teapot"].

(** Listing below a prefix also returns entries that are not in its subtree:
    siblings whose name starts with the same text. *)
Theorem List_siblings :
  exists (t : Tree listTree) (e : Entry),
    filed t /\ e ∈ Mem_items (DN_Prefix usersDN) false t
    /\ IsPrefixOf (DN_Prefix usersDN) (DN_Prefix (EntryDN e)) = false.
Proof.
  exists [newmementry (mkEntry users2DN None)], (mkEntry users2DN None).
  split; [|split; [|reflexivity]].
  - intros m Hm. apply list_elem_of_singleton in Hm as ->. reflexivity.
  - apply list_elem_of_singleton. reflexivity.
Qed.

(** ** Witnesses *)

Definition neverCancelled : Context := {| ctxErr := fun _ => None |}.

Definition emptyWorld : World (B := listTree) := mkWorld [] (NewG : Tree listTree) 0.

(** Storing an entry and deleting another. *)
Definition sampleChanges : list change :=
  [mkchange (newmementry (mkEntry usersDN (Some 1%nat))) changekindStore;
   mkchange (mementryFromPrefix (DN_Prefix users2DN)) changekindDelete].

Lemma Commit_refines_witness :
  exists t,
    MemTransaction_Commit (C := neverCancelled) (mkTransaction false sampleChanges) emptyWorld
    = (Ok (mkTransaction true sampleChanges), mkWorld [] t 1)
    /\ directory t = foldl specChange ∅ sampleChanges.
Proof.
  destruct (Commit_refines (C := neverCancelled) sampleChanges emptyWorld) as (o & t & H & -> & Ht).
  exists t. split; [exact H | exact Ht].
Defined.

Lemma Commit_once_witness :
  MemTransaction_Commit (C := neverCancelled) (mkTransaction true []) (mkWorld [] (NewG : Tree listTree) 1)
  = (Err ErrCommitted, mkWorld [] (NewG : Tree listTree) 2).
Proof.
  exact (proj2 (proj2 (Commit_once (C := neverCancelled) [] emptyWorld
    (mkWorld [] (NewG : Tree listTree) 1) (mkTransaction true []) (mkEntry [] None) [] eq_refl))).
Defined.

Definition sampleTree : Tree listTree :=
  [newmementry (mkEntry usersDN (Some 1%nat)); newmementry (mkEntry teapotDN (Some 0%nat))].

Lemma List_range_witness :
  mkEntry usersDN (Some 1%nat) ∈ Mem_items (DN_Prefix teapotDN) false sampleTree.
Proof.
  apply (List_range (B := listTree)); [discriminate|].
  exists (newmementry (mkEntry usersDN (Some 1%nat))), "/ou=users".
  split; [apply (bool_decide_unpack _); vm_compute; exact I|]. repeat split.
Defined.
