(* ===== verification/Psql.v ===== *)
(** * The store over Postgres

    service/bottin/store/psql.go: the same operations as the in-memory store, over
    a cached table of lib/pgcache, whose keys are the prefixes; and the theorem that
    the two stores cannot be told apart.  The SQL queries are the table's [Database]
    (their rows are in SqlStores); opening the connections is left out. *)

From stdpp Require Import gmap sorting.
From S2P Require Import Prelude GoStrings GoBTree CacheMap Pgcache PgcacheSpec PgReplicas PgExamples StoreTypes MemStore.
From Stdlib Require Import Strings.Ascii.
#[local] Open Scope Z_scope.

#[export] Instance Prefix_Key : Key Prefix := {| KeyString := Prefix_String; Less := Prefix_Less |}.

#[export] Instance Prefix_laws : KeyLaws Prefix_Key.
Proof. split. done. Qed.

#[export] Instance Entry_Object : Object Prefix Entry := { ObjectKey := Entry_Key }.

Section PsqlStore.
Context {U : Unicode}.

#[export] Instance Prefix_FromString : FromString Prefix := { fromString := PrefixFromString }.

Context {PB : BTree Prefix Less} {J : Json} {D : Database Prefix Entry} {C : Context}.
Variable nm : notificationManager.
Local Abbreviation PgW := (PgWorld (K := Prefix) (T := Entry) (B := PB)).

(** The zero value of an entry. *)
Definition zeroEntry : Entry := mkEntry [] None.

Definition PSQL_List (p : Prefix) (exact : bool) : Go PgW (list Entry) :=
  if exact then
    found <-- Table_Get p ;; ret (match found with Some e => [e] | None => [] end)
  else Table_Between zeroEntry p (prefixEnd p).

Definition PSQL_Begin : Go PgW (TableTx (D := D)) :=
  wrapf "could not begin pgcache transaction: %w" [] Table_Begin.

Definition PSQLTransaction_Store (tx : TableTx (D := D)) (e : Entry) : Go PgW TableTx :=
  TableTx_Store tx [e].

Definition PSQLTransaction_Delete (tx : TableTx (D := D)) (dn : DN) : Go PgW TableTx :=
  TableTx_Delete tx [DN_Prefix dn].

Definition PSQLTransaction_Commit (tx : TableTx (D := D)) : Go PgW TableTx := TableTx_Commit nm tx.

(** ** The same transaction on the two stores *)

Inductive storeOp : Type := Put (e : Entry) | Remove (dn : DN).

Definition psqlStep (tx : TableTx (D := D)) (op : storeOp) : Go PgW TableTx :=
  match op with
  | Put e => PSQLTransaction_Store tx e
  | Remove dn => PSQLTransaction_Delete tx dn
  end.

Definition psqlTransaction (ops : list storeOp) : Go PgW (TableTx (D := D)) :=
  tx <-- PSQL_Begin ;;
  tx <-- forEach ops tx psqlStep ;;
  PSQLTransaction_Commit tx.

Context {B : BTree mementry mementryLess}.

Definition memTransaction (ops : list storeOp) : Go World MemTransaction :=
  tx <-- Mem_Begin ;;
  tx <-- forEach ops tx (fun tx op =>
    match op with
    | Put e => MemTransaction_Store tx e
    | Remove dn => MemTransaction_Delete tx dn
    end) ;;
  MemTransaction_Commit tx.

(** The tree and the cache hold the same entries under the same keys. *)
Definition same (t : Tree B) (m : SortedMap (B := PB) (V := Entry)) : Prop :=
  consistent m /\ entry <$> directory t = vals m.

Context {BL : BTreeLaws B} {PBL : BTreeLaws PB} {JL : JsonLaws J} {DL : DatabaseLaws D}.

(** ** Their updates *)

Definition opChange (op : storeOp) : change :=
  match op with
  | Put e => mkchange (newmementry e) changekindStore
  | Remove dn => mkchange (mementryFromPrefix (DN_Prefix dn)) changekindDelete
  end.

Definition opUpdate (op : storeOp) : update Prefix Entry :=
  match op with
  | Put e => mkUpdate (Some e) None
  | Remove dn => mkUpdate None (Some (DN_Prefix dn))
  end.

Lemma memTransaction_Ok ops w tx w' :
  memTransaction ops w = (Ok tx, w') -> tr w' = foldl applyChange (tr w) (map opChange ops).
Proof using Type.
  unfold memTransaction. intros H. go_inv.
  assert (forall ops tx tx' w w', committed tx = false ->
    forEach ops tx (fun tx op => match op with
      | Put e => MemTransaction_Store tx e | Remove dn => MemTransaction_Delete tx dn end) w
    = (Ok tx', w') -> w' = w /\ tx' = mkTransaction false (changes tx ++ map opChange ops)) as Hloop.
  { clear. induction ops as [|op ops IH]; intros tx tx' w w' Hc H; cbn [forEach] in H.
    - injection H as <- <-. rewrite app_nil_r. destruct tx; cbn in *. by subst.
    - unfold bind in H. destruct op; unfold MemTransaction_Store, MemTransaction_Delete in H;
        rewrite Hc in H; apply IH in H as [-> ->]; try done; split; try done; cbn; by rewrite <- app_assoc. }
  unfold Mem_Begin in Hm. go_inv. apply Hloop in Hm0 as [-> ->]; [|done]. cbn [changes app] in H.
  unfold MemTransaction_Commit in H. go_inv. cbn in H. unfold modify, bind in H. injection H as <- <-. cbn.
  unfold checkContext in *. go_inv.
  repeat match goal with H : tick _ = (Ok _, _) |- _ => injection H as <- <- end.
  repeat match goal with H : match ?x with _ => _ end _ = (Ok _, _) |- _ =>
    destruct x; [discriminate H|injection H as <- <-] end. done.
Qed.

Lemma Commit_consistent tx (w : PgW) tx' w' :
  built (B := PB) tx -> TableTx_Commit nm tx w = (Ok tx', w') ->
  consistent (cache w) -> consistent (cache w').
Proof using JL DL PBL.
  intros Hb H Hc. pose proof (Commit_cache nm tx w Hb) as HC. rewrite H in HC. destruct HC as [_ ->].
  by apply (consistent_ops zeroEntry).
Qed.

Lemma Begin_clean (w : PgW) tx w' :
  PSQL_Begin w = (Ok tx, w') -> built (B := PB) tx /\ cache w' = cache w /\ updates tx = [].
Proof using Type.
  unfold PSQL_Begin. intros H. go_inv. split; [by eapply built_Begin|].
  unfold Table_Begin, call, lift in H. go_inv. by simplify_eq/=.
Qed.

Lemma psqlStep_Ok tx op (w : PgW) tx' w' :
  built (B := PB) tx -> psqlStep tx op w = (Ok tx', w') ->
  built (B := PB) tx' /\ cache w' = cache w /\ updates tx' = updates tx ++ [opUpdate op].
Proof using DL.
  intros Hb H. destruct (built_tracked tx Hb) as [Hcm _].
  destruct op; (split; [first [by eapply built_Store | by eapply built_Delete]|]); cbn in H;
    unfold PSQLTransaction_Store, PSQLTransaction_Delete, TableTx_Store, TableTx_Delete, call, lift in H;
    rewrite Hcm in H; go_inv; by simplify_eq/=.
Qed.

Lemma psqlSteps_Ok ops tx (w : PgW) tx' w' :
  built (B := PB) tx -> forEach ops tx psqlStep w = (Ok tx', w') ->
  built (B := PB) tx' /\ cache w' = cache w /\ updates tx' = updates tx ++ map opUpdate ops.
Proof using DL.
  revert tx w. induction ops as [|op ops IH]; intros tx w Hb H; cbn [forEach] in H.
  { injection H as <- <-. by rewrite app_nil_r. }
  go_inv. destruct (psqlStep_Ok _ _ _ _ _ Hb Hm) as (H1 & H2 & H3).
  destruct (IH _ _ H1 H) as (H4 & H5 & H6). split; [done|]. split; [congruence|].
  by rewrite H6, H3, <- app_assoc.
Qed.

Lemma psqlTransaction_Ok ops (w : PgW) tx w' :
  psqlTransaction ops w = (Ok tx, w') -> consistent (cache w) ->
  consistent (cache w') /\ vals (cache w') = foldl applyRow (vals (cache w)) (map opUpdate ops).
Proof using JL DL PBL.
  unfold psqlTransaction. intros H Hc. go_inv. apply Begin_clean in Hm as (H1 & H2 & H3).
  apply psqlSteps_Ok in Hm0 as (H4 & H5 & H6); [|done].
  pose proof (Commit_cases nm _ s0 H4) as HC. unfold PSQLTransaction_Commit in H. rewrite H in HC.
  destruct HC as (_ & _ & Hv & _). rewrite H6, H3, H5, H2 in Hv. split; [|done].
  eapply Commit_consistent; [done..|]. by rewrite H5, H2.
Qed.

(** ** Their listings *)

(** The entries of the tree under their keys. *)
Definition filedEntries (l : list mementry) : list (string * Entry) := map (fun m => (key m, entry m)) l.

Lemma map_filter_pair {A X Y} (f : A -> X) (g : A -> Y) (P : X -> Prop) `{!forall x, Decision (P x)} (l : list A) :
  map g (filter (fun a => P (f a)) l) = map snd (filter (fun p => P (fst p)) (map (fun a => (f a, g a)) l)).
Proof using Type.
  induction l as [|a l IH]; [done|]. cbn [map]. rewrite !filter_cons. cbn [fst].
  destruct (decide (P (f a))); cbn; by rewrite IH.
Qed.

#[local] Instance lessThan_fst_anti {A} :
  AntiSymm (=) (fun a b : string * A => lessThan (fst a) (fst b) = true).
Proof using Type.
  intros a b H1 H2. pose proof (lessThan_trans _ _ _ H1 H2) as H. by rewrite lessThan_irrefl in H.
Qed.

(** Both stores hold the same entries in the same order. *)
Lemma same_entries t m : same t m ->
  filedEntries (Ascend t) = bindings (yields zeroEntry m (Ascend (tree m))).
Proof using BL PBL.
  intros [Hc Hs]. apply (StronglySorted_unique _).
  - unfold filedEntries. pose proof (Ascend_sorted (B := B) t) as H.
    induction H as [|x l Hl IH Hx]; cbn; constructor; [done|]. by apply Forall_map.
  - apply (sorted_yields _ _ _ (Ascend_keys zeroEntry _)).
  - apply NoDup_Permutation.
    + apply (NoDup_fmap_1 fst). unfold filedEntries. rewrite <- list_fmap_compose. apply NoDup_keys.
    + apply (NoDup_fmap_1 fst), (sorted_NoDup_keys fst), sorted_yields, (Ascend_keys zeroEntry _); apply _.
    + intros [s e]. pose proof (elem_of_yields zeroEntry m (fun _ => True) s e Hc) as H.
      rewrite (filter_True zeroEntry) in H. rewrite H, <- Hs, lookup_fmap, fmap_Some.
      unfold filedEntries. rewrite list_elem_of_fmap. setoid_rewrite directory_spec. split.
      * intros (x & [= -> ->] & Hx). eauto.
      * intros [(x & [Hx <-] & ->) _]. eauto.
Qed.

Definition inRange (s : string) (p : Prefix) : Prop :=
  lessThan s (Prefix_String p) = false /\ lessThan s (Prefix_String (prefixEnd p)) = true.

#[local] Instance inRange_dec s p : Decision (inRange s p).
Proof using Type. unfold inRange. apply _. Defined.

Lemma List_same t m p :
  same t m ->
  Mem_items p false t = map snd (SortedMap_Between zeroEntry m p (prefixEnd p)).
Proof using BL PBL.
  intros Hs. unfold Mem_items, SortedMap_Between. rewrite iterate_all. cbn [app].
  rewrite !AscendRange_Ascend. unfold yields. rewrite map_map. cbn [snd].
  rewrite (list_filter_iff _ (fun x => inRange (key x) p)) by done.
  rewrite (list_filter_iff _ (fun k : Prefix => inRange (KeyString k) p)) by done.
  etransitivity; [exact (map_filter_pair key entry (fun s => inRange s p) (Ascend t))|]. symmetry.
  etransitivity;
    [exact (map_filter_pair KeyString (fun k => default zeroEntry (vals m !! KeyString k))
       (fun s => inRange s p) (Ascend (tree m)))|].
  do 2 f_equal. pose proof (same_entries t m Hs) as H. rewrite bindings_yields in H by apply _.
  symmetry. exact H.
Qed.

Lemma List_exact_same t m p :
  same t m -> p <> [] -> (forall x, x ∈ Ascend t -> key x = Prefix_String p -> prefix x = p) ->
  Mem_items p true t = match SortedMap_Load m p with Some e => [e] | None => [] end.
Proof using BL.
  intros [_ Hs] Hp Hk. unfold Mem_items, SortedMap_Load. rewrite iterate_exact. cbn [app].
  rewrite <- Hs, lookup_fmap. change (KeyString p) with (Prefix_String p).
  destruct (list_find _ _) as [[i x]|] eqn:F.
  - apply list_find_Some in F as (Hx & Ex & _). apply list_elem_of_lookup_2 in Hx.
    rewrite AscendRange_Ascend in Hx. apply list_elem_of_filter in Hx as [_ Hx].
    match goal with |- context [entry <$> ?o] => replace o with (Some x) end; [done|].
    symmetry. apply directory_spec. unfold key. by rewrite Ex.
  - match goal with |- context [entry <$> ?o] => destruct o as [x|] eqn:Ed end; [|done]. exfalso.
    apply directory_spec in Ed as [Hx Ex]. apply list_find_None in F. rewrite Forall_forall in F.
    apply (F x); [|by apply Hk]. rewrite AscendRange_Ascend. apply list_elem_of_filter. split; [|done].
    apply in_range; [done|]. exists "". rewrite string_app_nil. auto using descendant_below_MaxRune.
Qed.

(** ** The equivalence *)

Lemma opUpdate_same (d : gmap string mementry) (r : gmap string Entry) op :
  entry <$> d = r -> entry <$> specChange d (opChange op) = applyRow r (opUpdate op).
Proof using Type.
  intros <-. destruct op as [e|dn]; unfold specChange, applyRow; cbn.
  - exact (fmap_insert entry d _ _).
  - exact (fmap_delete entry d _).
Qed.

Lemma opUpdates_same ops (d : gmap string mementry) (r : gmap string Entry) :
  entry <$> d = r ->
  entry <$> foldl specChange d (map opChange ops) = foldl applyRow r (map opUpdate ops).
Proof using Type.
  revert d r. induction ops as [|op ops IH]; intros d r H; [done|]. cbn. by apply IH, opUpdate_same.
Qed.

(** C11: The two stores cannot be told apart: from the same entries, the same
    transaction, when both accept it, leaves the same entries, and every listing of
    them gives the same result (an exact one as long as no other prefix has the
    text of the one that is asked for). *)
Theorem stores_agree (ops : list storeOp) (w w' : World) (pw pw' : PgW) mtx ptx :
  same (tr w) (cache pw) ->
  memTransaction ops w = (Ok mtx, w') -> psqlTransaction ops pw = (Ok ptx, pw') ->
  same (tr w') (cache pw')
  /\ (forall p, fst (PSQL_List p false pw') = fst (Mem_List p false w'))
  /\ (forall p, p <> [] ->
        (forall x, x ∈ Ascend (tr w') -> key x = Prefix_String p -> prefix x = p) ->
        fst (PSQL_List p true pw') = fst (Mem_List p true w')).
Proof using BL PBL JL DL.
  intros [Hc Hs] Hm Hp. apply memTransaction_Ok in Hm. apply psqlTransaction_Ok in Hp as [Hc' Hv]; [|done].
  assert (same (tr w') (cache pw')) as HS.
  { split; [done|]. rewrite Hm, directory_changes, Hv. by apply opUpdates_same. }
  split; [done|]. split.
  - intros p. cbn. unfold Table_Between, get, bind, ret. cbn. by rewrite (List_same _ _ _ HS).
  - intros p H1 H2. cbn. unfold Table_Get, get, bind, ret. cbn. by rewrite (List_exact_same _ _ _ HS H1 H2).
Qed.
End PsqlStore.

(** ** Witness *)

Definition prefixTree : BTree Prefix Less := keyTree Prefix_String.

#[export] Instance prefixTree_laws : BTreeLaws prefixTree := keyTree_laws Prefix_String.

Definition sampleOps : list storeOp := [Put (mkEntry usersDN (Some 1%nat)); Remove users2DN].

Definition sampleTx : Go (PgWorld (B := prefixTree)) (TableTx (D := mapDatabase)) :=
  psqlTransaction (PB := prefixTree) (mkManager "a" "teapot_invalidate_entries") sampleOps.

Definition sampleStart : PgWorld (T := Entry) (B := prefixTree) := mkPg ∅ NewSortedMap [] [] 0.

Lemma stores_agree_witness :
  exists pw, sampleTx sampleStart
      = (Ok (mkTableTx (map opUpdate sampleOps : DBTx (Database := mapDatabase)) [] true), pw)
    /\ fst (PSQL_List (PB := prefixTree) (DN_Prefix teapotDN) false pw) = Ok [mkEntry usersDN (Some 1%nat)].
Proof.
  exists (snd (sampleTx sampleStart)). split; [apply run_pair; eval_refl|].
  destruct (stores_agree (B := listTree) (PB := prefixTree) (D := mapDatabase) (C := neverCancelled)
    (mkManager "a" "teapot_invalidate_entries") sampleOps emptyWorld
    (snd (memTransaction (B := listTree) (C := neverCancelled) sampleOps emptyWorld))
    sampleStart (snd (sampleTx sampleStart))
    (mkTransaction true (map opChange sampleOps))
    (mkTableTx (map opUpdate sampleOps : DBTx (Database := mapDatabase)) [] true)) as (_ & H & _).
  - split; [apply (consistent_New zeroEntry)|]. reflexivity.
  - apply run_pair. eval_refl.
  - apply run_pair. eval_refl.
  - rewrite H. eval_refl.
Defined.
