(* ===== verification/Bottin.v ===== *)
(** * The directory service

    service/bottin: bottin.go (configuration, sessions, initialization), util.go,
    hash.go (stored passwords), read.go, write.go, auth.go and memberof.go (the
    handlers of the LDAP operations), over the in-memory store.

    Every handler runs on a [World], and returns the session state it was given
    when it fails.  What it asks from outside the repository is in the class
    [Env]: random identifiers, the clock, password hashing, and the order in
    which Go iterates over a map, which may differ each time.  The arguments
    printed into the text of an error are left out; the errors that it wraps,
    on which the result code depends, are kept. *)

From stdpp Require Import gmap.
From S2P Require Import Prelude GoStrings LdapTypes LdapOps LdapSrv.
From S2P Require Import PathMatch StoreTypes Acl GoBTree MemStore.
From Stdlib Require Import Strings.Ascii.
#[local] Open Scope Z_scope.

(** ** The environment *)

Class Env : Type := {
  (** [uuid.NewRandom] *)
  uuidNewRandom : nat -> outcome string;
  (** [time.Now().Format(...)] *)
  nowFormat : nat -> string;
  (** pwscheme: generation with a random salt, and validation. *)
  ssha512Generate : nat -> string -> Z -> outcome string;
  ssha512Validate : string -> string -> bool * option error;
  ssha256Validate : string -> string -> bool * option error;
  (** The MD5 sum of a password in base 64. *)
  md5Base64 : string -> string;
  (** The order of an iteration over a map. *)
  rangeMap : nat -> Attributes -> list (AttributeKey * AttributeValue)
}.

(** An iteration visits every binding of the map once; random identifiers and
    hashes are a value or an error. *)
Class EnvLaws (E : Env) : Prop := {
  rangeMap_all n m : Permutation (rangeMap n m) (map_to_list m);
  uuidNewRandom_returns n : match uuidNewRandom n with Ok _ | Err _ => True | _ => False end;
  ssha512Generate_returns n p k :
    match ssha512Generate n p k with Ok _ | Err _ => True | _ => False end
}.

(** ** bottin.go: constants and sessions *)

Definition AttrMemberOf : AttributeKey := "memberof".
Definition AttrEntryUUID : AttributeKey := "entryuuid".
Definition AttrCreatorsName : AttributeKey := "creatorsname".
Definition AttrCreateTimestamp : AttributeKey := "createtimestamp".
Definition AttrModifiersName : AttributeKey := "modifiersname".
Definition AttrModifyTimestamp : AttributeKey := "modifytimestamp".
Definition AttrObjectClass : AttributeKey := "objectclass".
Definition AttrMember : AttributeKey := "member".
Definition AttrUserPassword : AttributeKey := "userpassword".

Definition ErrSetRootPasswd : error := PlainError "root entry password cannot be set".
Definition ErrNotAuthenticated : error := PlainError "not authenticated".
Definition ErrMissingNewPassword : error := PlainError "new password is missing".
Definition ErrDNNotPrefix : error := PlainError "DN is not a prefix of base DN".
Definition ErrMememberOfDefinition : error :=
  PlainError "memberOf cannot be defined directly, membership must be specified in the group itself".
Definition ErrRestrictedAttribute : error :=
  PlainError "attribute is restricted and may only be set by the system".
Definition ErrNoValidHash : error := PlainError "no valid hash found".
Definition ErrUnsupportedExtendedRequest : error :=
  PlainError "unsupported extended request, we only support PasswordModify".
Definition ErrHasChildren : error := PlainError "has children".
Definition ErrNotFound : error := PlainError "not found".
Definition ErrAlreadyExists : error := PlainError "already exists".
Definition ErrUnsupportedFilter : error := PlainError "unsupported filter".

Record Bottin : Type := mkBottin { baseDN : DN; rootPasswd : string; acl : ACL }.

(** The state of a session: the user, if it is authenticated. *)
Definition State : Type := option User.

Definition AnonymousUser : string := "ANONYMOUS".

Definition State_User (s : State) : User :=
  match s with
  | Some u => u
  | None => mkUser AnonymousUser []
  end.

(** ** hash.go *)

Definition MD5 : string := "{MD5}".
Definition SSHA256 : string := "{SSHA256}".
Definition SSHA512 : string := "{SSHA512}".

Definition parseHash (hash : string) : outcome (string * string) :=
  match CutPrefix hash MD5 with
  | Some h => Ok (MD5, h)
  | None =>
      match CutPrefix hash SSHA256 with
      | Some h => Ok (SSHA256, h)
      | None =>
          match CutPrefix hash SSHA512 with
          | Some h => Ok (SSHA512, h)
          | None => Err ErrNoValidHash
          end
      end
  end.

Section Hash.
Context {E : Env}.

Definition ssha512Encode (n : nat) (passwd : string) : outcome string :=
  match ssha512Generate n passwd 16 with
  | Err e => Err (Errorf "error while hashing password with ssha512: %w" [e])
  | r => r
  end.

(** [matchPassword] returns both a verdict and an error. *)
Definition matchPassword (schemaHash passwd : string) : bool * option error :=
  match parseHash schemaHash with
  | Ok (hashType, hash) =>
      if (hashType =? MD5)%string then ((md5Base64 passwd =? hash)%string, None)
      else if (hashType =? SSHA256)%string then ssha256Validate passwd (SSHA256 +:+ hash)
      else if (hashType =? SSHA512)%string then ssha512Validate passwd (SSHA512 +:+ hash)
      else (false, None)
  | Err e => (false, Some (Errorf "invalid password hash stored: %w" [e]))
  | _ => (false, None)
  end.

(** The loop of Bind over the stored hashes: whether one matches, and the errors
    met before. *)
Fixpoint matchHashes (hashes : list string) (passwd : string) (errs : list error)
    : bool * list error :=
  match hashes with
  | [] => (false, errs)
  | hash :: hashes' =>
      let '(valid, err) := matchPassword hash passwd in
      let errs := match err with
                  | Some e => errs ++ [Errorf "couldn't authenticate: %w" [e]]
                  | None => errs
                  end in
      if valid then (true, errs) else matchHashes hashes' passwd errs
  end.
End Hash.

Section Bottin.
Context {U : Unicode} {B : BTree mementry mementryLess} {C : Context} {E : Env}.
Variable server : Bottin.

(** ** util.go *)

Definition OperationalAttributes : list AttributeKey :=
  [AttrEntryUUID; AttrCreatorsName; AttrCreateTimestamp; AttrModifiersName; AttrModifyTimestamp;
   "entrycsn"].

Definition isOperationalAttribute (attr : AttributeKey) : bool :=
  existsb (AttributeKey_EqualFold attr) OperationalAttributes.

Definition canUpdateAttribute (attr : AttributeKey) : outcome unit :=
  if AttributeKey_EqualFold attr AttrMemberOf then Err ErrMememberOfDefinition
  else if isOperationalAttribute attr
  then Err (Errorf "cannot modify attribute %q: %w" [ErrRestrictedAttribute])
  else Ok tt.

Definition genTimestamp : Go World string := n <-- tick ;; ret (nowFormat n).

Definition NewRandom : Go World string := n <-- tick ;; lift (uuidNewRandom n).

Definition valueMatch (attr : AttributeKey) (val1 val2 : string) : bool :=
  if AttributeKey_EqualFold attr AttrUserPassword then (val1 =? val2)%string
  else EqualFold val1 val2.

(** ** Access to the store *)

(** [fmt.Errorf] of a local error. *)
Definition failf {A} (msg : string) (ws : list error) : Go World A := fail (Errorf msg ws).

Definition parseDN (rawDN : string) (allowPrefix : bool) : outcome DN :=
  dn <-? ParseDN rawDN ;;
  let basePrefix := DN_Prefix (baseDN server) in
  if IsPrefixOf basePrefix (DN_Prefix dn) then Ok dn
  else if allowPrefix && IsPrefixOf (DN_Prefix dn) basePrefix then Ok (baseDN server)
  else Err (Errorf "could not parse DN %q (base %q): %w" [ErrDNNotPrefix]).

Definition getEntry (dn : DN) : Go World Entry :=
  entries <-- wrapf "(%w) error while fetching entry with DN %q from store: %w"
    [ErrOperationsError] (Mem_List (DN_Prefix dn) true) ;;
  match entries with
  | [] => failf "(%w) error while fetching entry %q: %w" [ErrNoSuchObject; ErrNotFound]
  | [e] => ret e
  | _ => failf "(%w) error while fetching entry %q: %w" [ErrOperationsError; ErrNotFound]
  end.

Definition existsEntry (dn : DN) : Go World bool :=
  entries <-- wrapf "error while checking if entry with DN %q exists: %w" []
    (Mem_List (DN_Prefix dn) true) ;;
  ret (len entries =? 1).

Definition Get (e : Entry) (k : AttributeKey) : Go World AttributeValue := onHeap (Entry_Get e k).

(** [if !server.acl.Check(...) { return state, fmt.Errorf(...) }] *)
Definition checkAccess (state : State) (action : string) (dn : DN) (attrs : list AttributeKey)
    (msg : string) : Go World unit :=
  if ACL_Check (acl server) (State_User state) action dn attrs then ret tt
  else failf msg [ErrInsufficientAccessRights].

(** [store.NewEntry] and [tx.Store] of a map of attributes. *)
Definition storeEntry (tx : MemTransaction) (dn : DN) (attrs : loc) : Go World MemTransaction :=
  e <-- onHeap (NewEntry dn attrs) ;; MemTransaction_Store tx e.

(** A handler that fails returns the state it was given. *)
Definition attempt (state : State) (m : Go World State) : Go World (State * option error) :=
  fun w =>
    match m w with
    | (Ok s, w') => (Ok (s, None), w')
    | (Err e, w') => (Ok (state, Some e), w')
    | (Panic p, w') => (Panic p, w')
    | (Diverge, w') => (Diverge, w')
    end.

(** [server.parseDN] with its errors under an LDAP code. *)
Definition requestDN (rawDN : string) (allowPrefix : bool) : Go World DN :=
  wrapf "(%w) %w" [ErrInvalidDNSyntax] (lift (parseDN rawDN allowPrefix)).

Definition beginTx : Go World MemTransaction :=
  wrapf "(%w) error while beginning transaction: %w" [ErrOperationsError] Mem_Begin.

Definition commitTx (tx : MemTransaction) : Go World MemTransaction :=
  wrapf "(%w) could not commit transaction: %w" [ErrOperationsError] (MemTransaction_Commit tx).

(** ** memberof.go *)

Definition contains (l : list string) (s : string) : bool := bool_decide (s ∈ l).

Definition membershipAdd (tx : MemTransaction) (attr : AttributeKey) (member group : DN)
    : Go World MemTransaction :=
  entity <-- wrapf "error while fetching membership %s value (adding): %w" [] (getEntry member) ;;
  membership <-- Get entity attr ;;
  if contains membership (DN_String group) then ret tx
  else
    onHeap (assign (EntryAttributes entity) attr (membership ++ [DN_String group])) ;;;
    wrapf "error while updating membership %s value (adding): %w" []
      (storeEntry tx (EntryDN entity) (EntryAttributes entity)).

Definition membershipRemove (tx : MemTransaction) (attr : AttributeKey) (member group : DN)
    : Go World MemTransaction :=
  entity <-- wrapf "error while fetching membership %s value (removing): %w" [] (getEntry member) ;;
  membership <-- Get entity attr ;;
  newMembership <-- forEach membership [] (fun newMembership g =>
    gdn <-- wrapf "error while parsing membership %s value (removing): %w" []
              (lift (parseDN g false)) ;;
    ret (if negb (DN_Equal gdn group) then newMembership ++ [DN_String gdn] else newMembership)) ;;
  if len newMembership =? len member then ret tx
  else
    onHeap (assign (EntryAttributes entity) attr newMembership) ;;;
    wrapf "error while updating membership %s value (removing): %w" []
      (storeEntry tx (EntryDN entity) (EntryAttributes entity)).

(** ** bottin.go: initialization *)

Definition initialize : Go World unit :=
  exists_ <-- wrapf "error while checking for root object existence: %w" []
    (existsEntry (baseDN server)) ;;
  if exists_ then ret tt
  else
    uuid <-- wrapf "error while generating random uuid: %w" [] NewRandom ;;
    timestamp <-- genTimestamp ;;
    let baseAttributes : Attributes :=
      <[AttrObjectClass := ["top"; "dcObject"; "organization"]]>
      (<["structuralobjectclass" := ["organization"]]>
      (<[AttrCreatorsName := [DN_String (baseDN server)]]>
      (<[AttrCreateTimestamp := [timestamp]]>
      (<[AttrEntryUUID := [uuid]]> ∅)))) in
    attrs <-- onHeap (alloc baseAttributes) ;;
    tx <-- wrapf "error while beginning store transaction: %w" [] Mem_Begin ;;
    tx <-- wrapf "error while storing base entry: %w" [] (storeEntry tx (baseDN server) attrs) ;;
    wrapf "could not commit store transaction: %w" [] (MemTransaction_Commit tx) ;;;
    ret tt.

(** ** auth.go *)

Definition Bind_body (state : State) (r : BindRequest) : Go World State :=
  dn <-- requestDN (br_name r) false ;;
  checkAccess state "bind" dn [] "could not authentiate as %q: %w" ;;;
  entry <-- getEntry dn ;;
  passwd <-- lift (AuthenticationSimple r) ;;
  hashes <-- (if DN_Equal dn (baseDN server) then ret [rootPasswd server]
              else Get entry AttrUserPassword) ;;
  let '(valid, errs) := matchHashes hashes passwd [] in
  if valid then
    groups <-- Get entry AttrMemberOf ;;
    ret (Some (mkUser (br_name r) groups))
  else failf "(%w) %w" [ErrInvalidCredentials; errorsJoin errs].

Definition Bind (state : State) (r : BindRequest) : Go World (State * option error) :=
  attempt state (Bind_body state r).

Definition Extended_body (state : State) (r : ExtendedRequest) : Go World State :=
  (if (requestName r =? NoticeOfPasswordModify)%string then ret tt
   else failf "(%w) %w" [ErrUnwillingToPerform; ErrUnsupportedExtendedRequest]) ;;;
  passwordModifyRequest <-- wrapf "(%w) error while parsing PasswordModify: %w"
    [ErrInvalidAttributeSyntax] (lift (ExtendedRequest_PasswordModifyRequest r)) ;;
  match newPassword passwordModifyRequest with
  | None => failf "(%w) %w" [ErrAuthMethodNotSupported; ErrMissingNewPassword]
  | Some passwd =>
      (if (user (State_User state) =? AnonymousUser)%string
       then failf "(%w) %w" [ErrInsufficientAccessRights; ErrNotAuthenticated] else ret tt) ;;;
      let rawDN := match userIdentity passwordModifyRequest with
                   | Some id => id
                   | None => user (State_User state)
                   end in
      dn <-- requestDN rawDN false ;;
      checkAccess state "modify" dn [AttrUserPassword] "could not modify password for %q: %w" ;;;
      (if DN_Equal dn (baseDN server)
       then failf "(%w) %w" [ErrInvalidDNSyntax; ErrSetRootPasswd] else ret tt) ;;;
      entry <-- getEntry dn ;;
      n <-- tick ;;
      hash <-- wrapf "(%w) error while hashing passwd: %w" [ErrOperationsError]
        (lift (ssha512Encode n passwd)) ;;
      attrs <-- onHeap (clone (EntryAttributes entry)) ;;
      onHeap (assign attrs AttrUserPassword [hash]) ;;;
      tx <-- beginTx ;;
      tx <-- wrapf "(%w) error while updating password: %w" [ErrOperationsError]
        (storeEntry tx dn attrs) ;;
      commitTx tx ;;;
      ret state
  end.

Definition Extended (state : State) (r : ExtendedRequest) : Go World (State * option error) :=
  attempt state (Extended_body state r).

(** ** write.go: Add *)

(** The check of the members of a group to be added, in canonical form. *)
Definition addMember (members : list DN) (member : string) : Go World (list DN) :=
  memberCanonical <-- requestDN member false ;;
  exists_ <-- wrapf "(%w) %w" [ErrOperationsError] (existsEntry memberCanonical) ;;
  if exists_ then ret (members ++ [memberCanonical])
  else failf "(%w) cannot add %q to members, it does not exist" [ErrNoSuchObject].

(** One attribute of the request. *)
Definition addAttribute (st : Attributes * list DN) (attribute : Attribute)
    : Go World (Attributes * list DN) :=
  let '(attrs, members) := st in
  let k := NewAttributeKey (pa_type attribute) in
  let vals := pa_vals attribute in
  wrapf "(%w) %w" [ErrObjectClassViolation] (lift (canUpdateAttribute k)) ;;;
  if AttributeKey_EqualFold k AttrMember then
    members <-- forEach vals members addMember ;;
    ret (<[k := map DN_String members]> attrs, members)
  else ret (<[k := Attributes_Get attrs k ++ vals]> attrs, members).

Definition Add_body (state : State) (r : AddRequest) : Go World State :=
  dn <-- requestDN (ar_entry r) false ;;
  let attrList := map (fun attribute => NewAttributeKey (pa_type attribute)) (ar_attributes r) in
  checkAccess state "add" dn attrList "could not add %q: %w" ;;;
  exists_ <-- wrapf "(%w) %w" [ErrOperationsError] (existsEntry dn) ;;
  (if exists_ then failf "(%w) %w" [ErrEntryAlreadyExists; ErrAlreadyExists] else ret tt) ;;;
  parentDN <-- lift (DN_Parent dn) ;;
  parentExists <-- wrapf "(%w) %w" [ErrOperationsError] (existsEntry parentDN) ;;
  (if parentExists then ret tt
   else failf "(%w) parent object with DN %q does not exist" [ErrNoSuchObject]) ;;;
  let! (attrs, members) := forEach (ar_attributes r) (∅, []) addAttribute in
  let attrs := if len (Attributes_Get attrs AttrObjectClass) =? 0
               then <[AttrObjectClass := ["top"]]> attrs else attrs in
  uuid <-- wrapf "(%w) error while generating random uuid: %w" [ErrOperationsError] NewRandom ;;
  timestamp <-- genTimestamp ;;
  let attrs := <[AttrEntryUUID := [uuid]]>
               (<[AttrCreateTimestamp := [timestamp]]>
               (<[AttrCreatorsName := [user (State_User state)]]> attrs)) in
  tx <-- beginTx ;;
  attrsLoc <-- onHeap (alloc attrs) ;;
  tx <-- wrapf "(%w) error while storing entry: %w" [ErrOperationsError]
    (storeEntry tx dn attrsLoc) ;;
  tx <-- forEach members tx (fun tx member =>
    wrapf "(%w) error while adding %q to group %q: %w" [ErrOperationsError]
      (membershipAdd tx AttrMemberOf member dn)) ;;
  commitTx tx ;;;
  ret state.

Definition Add (state : State) (r : AddRequest) : Go World (State * option error) :=
  attempt state (Add_body state r).

(** ** write.go: Del *)

Definition Del_body (state : State) (r : DelRequest) : Go World State :=
  dn <-- requestDN r false ;;
  checkAccess state "delete" dn [] "could not delete %q: %w" ;;;
  entries <-- wrapf "(%w) error while fetching entry with DN %q from store: %w"
    [ErrOperationsError] (Mem_List (DN_Prefix dn) false) ;;
  match entries with
  | [] => failf "(%w) error fetching entry: %w" [ErrNoSuchObject; ErrNotFound]
  | entry :: _ =>
      (if forallb (fun e => DN_Equal (EntryDN e) dn) entries then ret tt
       else failf "(%w) cannot delete %q: %w" [ErrNotAllowedOnNonLeaf; ErrHasChildren]) ;;;
      memberOf <-- Get entry AttrMemberOf ;;
      memberList <-- Get entry AttrMember ;;
      tx <-- beginTx ;;
      tx <-- wrapf "(%w) error while deleting entry: %w" [ErrOperationsError]
        (MemTransaction_Delete tx dn) ;;
      tx <-- forEach memberOf tx (fun tx group =>
        gdn <-- wrapf "(%w) error while parsing DN from group members attribute: %w"
                  [ErrInvalidDNSyntax] (lift (parseDN group false)) ;;
        wrapf "(%w) could not update attribute after removal: %w" [ErrOperationsError]
          (membershipRemove tx AttrMember gdn dn)) ;;
      tx <-- forEach memberList tx (fun tx member =>
        mdn <-- wrapf "(%w) error while parsing DN from memberOf attribute: %w"
                  [ErrInvalidDNSyntax] (lift (parseDN member false)) ;;
        wrapf "(%w) error while removing memberOf: %w" [ErrOperationsError]
          (membershipRemove tx AttrMemberOf mdn dn)) ;;
      commitTx tx ;;;
      ret state
  end.

Definition Del (state : State) (r : DelRequest) : Go World (State * option error) :=
  attempt state (Del_body state r).

(** ** write.go: Modify *)

(** The attributes of the new entry, and the members added and removed. *)
Record Modification : Type := mkModification {
  attrs : Attributes;
  addMembers : list DN;
  delMembers : list DN
}.

(** [valDN, err := server.parseDN(val, false)] for the values of the member
    attribute, appended to a list of DNs. *)
Definition memberDN (attr : AttributeKey) (dns : list DN) (val : string) : Go World (list DN) :=
  if AttributeKey_EqualFold attr AttrMember then
    valDN <-- requestDN val false ;; ret (dns ++ [valDN])
  else ret dns.

Definition modifyAdd (attr : AttributeKey) (changeValues : list string) (m : Modification)
    : Go World Modification :=
  forEach changeValues m (fun m val =>
    if contains (Attributes_Get (attrs m) attr) val then ret m
    else
      added <-- memberDN attr (addMembers m) val ;;
      ret (mkModification (<[attr := Attributes_Get (attrs m) attr ++ [val]]> (attrs m))
             added (delMembers m))).

Definition modifyDelete (attr : AttributeKey) (changeValues : list string) (m : Modification)
    : Go World Modification :=
  match changeValues with
  | [] =>
      deleted <-- forEach (Attributes_Get (attrs m) attr) (delMembers m) (memberDN attr) ;;
      ret (mkModification (<[attr := []]> (attrs m)) (addMembers m) deleted)
  | _ =>
      let! (newList, deleted) :=
        forEach (Attributes_Get (attrs m) attr) ([], delMembers m) (fun '(newList, deleted) prevVal =>
          if contains changeValues prevVal then
            deleted <-- memberDN attr deleted prevVal ;; ret (newList, deleted)
          else ret (newList ++ [prevVal], deleted)) in
      ret (mkModification (<[attr := newList]> (attrs m)) (addMembers m) deleted)
  end.

Definition modifyReplace (attr : AttributeKey) (changeValues : list string) (m : Modification)
    : Go World Modification :=
  let old := Attributes_Get (attrs m) attr in
  added <-- forEach changeValues (addMembers m) (fun added newMem =>
    if contains old newMem then ret added else memberDN attr added newMem) ;;
  deleted <-- forEach old (delMembers m) (fun deleted prevMem =>
    if contains changeValues prevMem then ret deleted else memberDN attr deleted prevMem) ;;
  ret (mkModification (<[attr := changeValues]> (attrs m)) added deleted).

(** The key of the entry that a requested key folds to, in the order of an
    iteration over its attributes. *)
Definition knownKey (bindings : list (AttributeKey * AttributeValue)) (attr : AttributeKey)
    : AttributeKey :=
  match List.find (fun kv => AttributeKey_EqualFold attr (fst kv)) bindings with
  | Some (prevAttr, _) => prevAttr
  | None => attr
  end.

(** One change of the request. *)
Definition modifyChange (state : State) (dn : DN) (prevEntry : Entry) (dnFirstComponent : Component)
    (m : Modification) (c : ModifyRequestChange) : Go World Modification :=
  prevAttributes <-- onHeap (load (EntryAttributes prevEntry)) ;;
  n <-- tick ;;
  let attr := knownKey (rangeMap n prevAttributes) (NewAttributeKey (pa_type (modification c))) in
  wrapf "(%w) %w" [ErrObjectClassViolation] (lift (canUpdateAttribute attr)) ;;;
  (if AttributeKey_EqualFold attr (NewAttributeKey (Type_ dnFirstComponent))
   then failf "(%w) %q may not be changed as it is part of object path" [ErrObjectClassViolation]
   else ret tt) ;;;
  checkAccess state "modify" dn [attr] "cannot not modify attribute %q on %q: %w" ;;;
  changeValues <-- (if AttributeKey_EqualFold attr AttrMember
    then forEach (pa_vals (modification c)) [] (fun vals v =>
           canonicalVal <-- requestDN v false ;; ret (vals ++ [DN_String canonicalVal]))
    else ret (pa_vals (modification c))) ;;
  let m := match attrs m !! attr, prevAttributes !! attr with
           | None, Some old => mkModification (<[attr := old]> (attrs m)) (addMembers m) (delMembers m)
           | _, _ => m
           end in
  if operation c =? ModifyRequestChangeOperationAdd then modifyAdd attr changeValues m
  else if operation c =? ModifyRequestChangeOperationDelete then modifyDelete attr changeValues m
  else if operation c =? ModifyRequestChangeOperationReplace then modifyReplace attr changeValues m
  else ret m.

(** No attribute that folds to objectclass may be left without a value. *)
Definition dropsObjectClass (attrs : Attributes) : bool :=
  existsb (fun '(k, v) => AttributeKey_EqualFold k AttrObjectClass && (len v =? 0))
    (map_to_list attrs).

Definition Modify_body (state : State) (r : ModifyRequest) : Go World State :=
  dn <-- requestDN (mr_object r) false ;;
  checkAccess state "modify" dn [] "cannot not modify %q: %w" ;;;
  prevEntry <-- getEntry dn ;;
  dnFirstComponent <-- lift (match EntryDN prevEntry with
                             | c :: _ => Ok c
                             | [] => Panic "index out of range"
                             end) ;;
  m <-- forEach (LdapTypes.changes r) (mkModification ∅ [] [])
          (modifyChange state dn prevEntry dnFirstComponent) ;;
  forEach (addMembers m) tt (fun _ member =>
    exists_ <-- wrapf "(%w) %w" [ErrOperationsError] (existsEntry member) ;;
    if exists_ then ret tt
    else failf "(%w) cannot add member %q, it does not exist" [ErrNoSuchObject]) ;;;
  (if dropsObjectClass (attrs m)
   then failf "(%w) cannot remove all objectclass values" [ErrInsufficientAccessRights]
   else ret tt) ;;;
  timestamp <-- genTimestamp ;;
  let newAttrs := <[AttrModifyTimestamp := [timestamp]]>
                  (<[AttrModifiersName := [user (State_User state)]]> (attrs m)) in
  tx <-- beginTx ;;
  attrsLoc <-- onHeap (alloc newAttrs) ;;
  tx <-- wrapf "(%w) error while storing updated entry: %w" [ErrOperationsError]
    (storeEntry tx (EntryDN prevEntry) attrsLoc) ;;
  tx <-- forEach (addMembers m) tx (fun tx addMem =>
    wrapf "(%w) error while adding memberOf: %w" [ErrOperationsError]
      (membershipAdd tx AttrMemberOf addMem dn)) ;;
  tx <-- forEach (delMembers m) tx (fun tx delMem =>
    wrapf "(%w) error while removing memberOf: %w" [ErrOperationsError]
      (membershipRemove tx AttrMemberOf delMem dn)) ;;
  commitTx tx ;;;
  ret state.

Definition Modify (state : State) (r : ModifyRequest) : Go World (State * option error) :=
  attempt state (Modify_body state r).

(** ** read.go *)

Definition Compare_body (state : State) (r : CompareRequest) : Go World bool :=
  let attr := NewAttributeKey (attributeDesc (ava r)) in
  let expected := assertionValue (ava r) in
  dn <-- requestDN (cr_entry r) false ;;
  checkAccess state "read" dn [attr] "could not read %q: %w" ;;;
  entry <-- getEntry dn ;;
  values <-- Get entry attr ;;
  ret (existsb (fun v => valueMatch attr v expected) values).

Definition Compare (state : State) (r : CompareRequest)
    : Go World (bool * State * option error) :=
  fun w =>
    match Compare_body state r w with
    | (Ok b, w') => (Ok (b, state, None), w')
    | (Err e, w') => (Ok (false, state, Some e), w')
    | (Panic p, w') => (Panic p, w')
    | (Diverge, w') => (Diverge, w')
    end.

(** The bindings of an entry are given in the order of the iteration. *)
Fixpoint applyFilter (bindings : list (AttributeKey * AttributeValue)) (filter : Filter)
    : outcome bool :=
  match filter with
  | FilterAnd conds =>
      (fix all (conds : list Filter) : outcome bool :=
         match conds with
         | [] => Ok true
         | cond :: conds' =>
             res <-? applyFilter bindings cond ;; if negb res then Ok false else all conds'
         end) conds
  | FilterOr conds =>
      (fix any (conds : list Filter) : outcome bool :=
         match conds with
         | [] => Ok false
         | cond :: conds' =>
             res <-? applyFilter bindings cond ;; if res then Ok true else any conds'
         end) conds
  | FilterNot f => res <-? applyFilter bindings f ;; Ok (negb res)
  | FilterPresent what =>
      match List.find (fun kv => EqualFold what (fst kv)) bindings with
      | Some (_, values) => Ok (0 <? len values)
      | None => Ok false
      end
  | FilterEqualityMatch a =>
      match List.find (fun kv => EqualFold (fst kv) (attributeDesc a)) bindings with
      | Some (entryDesc, value) =>
          Ok (existsb (fun val => valueMatch entryDesc val (assertionValue a)) value)
      | None => Ok false
      end
  | _ => Err (Errorf "error while applying filter %#v (of type %T): %w" [ErrUnsupportedFilter])
  end.

(** Whether the request asks for an attribute: "1.1" alone asks for none. *)
Fixpoint findRequested (n : Z) (requests : list string) (attr : AttributeKey) : bool :=
  match requests with
  | [] => false
  | requested :: requests' =>
      if (requested =? "1.1")%string && (n =? 1) then false
      else if ((requested =? "*")%string && negb (isOperationalAttribute attr))
              || ((requested =? "+")%string && isOperationalAttribute attr)
              || EqualFold requested attr
      then true
      else findRequested n requests' attr
  end.

Definition attributeRequested (requests : list string) (attr : AttributeKey) : bool :=
  if 0 <? len requests then findRequested (len requests) requests attr else true.

(** The attributes of an entry that the request asks for and the user may read. *)
Definition resultAttributes (state : State) (dn : DN) (requests : list string)
    (bindings : list (AttributeKey * AttributeValue)) : PartialAttributeList :=
  map (fun '(attr, val) => mkPartialAttribute attr val)
    (List.filter (fun '(attr, _) => attributeRequested requests attr
                    && ACL_Check (acl server) (State_User state) "read" dn [attr]) bindings).

Definition outOfScope (scope_ : ENUMERATED) (base : DN) (dn : DN) : bool :=
  if scope_ =? SearchRequestScopeBaseObject then DN_Equal dn base
  else if scope_ =? SearchRequestSingleLevel then negb (DN_Level dn =? DN_Level base + 1)
  else false.

(** One of the entries listed. *)
Definition searchEntry (state : State) (r : SearchRequest) (base : DN)
    (results : list SearchResultEntry) (entry : Entry) : Go World (list SearchResultEntry) :=
  if outOfScope (scope r) base (EntryDN entry) then ret results
  else
    entryAttributes <-- onHeap (load (EntryAttributes entry)) ;;
    n <-- tick ;;
    matched <-- wrapf "(%w), error while applying filter %q on %q: %w" [ErrUnwillingToPerform]
      (lift (applyFilter (rangeMap n entryAttributes) (sr_filter r))) ;;
    if negb matched then ret results
    else if negb (ACL_Check (acl server) (State_User state) "read" (EntryDN entry) [])
    then ret results
    else
      n <-- tick ;;
      ret (results ++ [mkSearchResultEntry (DN_String (EntryDN entry))
                         (resultAttributes state (EntryDN entry) (sr_attributes r)
                            (rangeMap n entryAttributes))]).

Definition Search_body (state : State) (r : SearchRequest) : Go World (list SearchResultEntry) :=
  base <-- requestDN (baseObject r) true ;;
  checkAccess state "read" base [] "could not read %q: %w" ;;;
  let exact := scope r =? SearchRequestScopeBaseObject in
  entries <-- wrapf "(%w), error while listing objects: %w" [ErrOperationsError]
    (Mem_List (DN_Prefix base) exact) ;;
  forEach entries [] (searchEntry state r base).

Definition Search (state : State) (r : SearchRequest)
    : Go World (list SearchResultEntry * State * option error) :=
  fun w =>
    match Search_body state r w with
    | (Ok results, w') => (Ok (results, state, None), w')
    | (Err e, w') => (Ok ([], state, Some e), w')
    | (Panic p, w') => (Panic p, w')
    | (Diverge, w') => (Diverge, w')
    end.

(** The directory as a handler of the LDAP server. *)
Definition handler : Handler World State := {|
  LdapSrv.Bind := Bind;
  LdapSrv.Search := Search;
  LdapSrv.Add := Add;
  LdapSrv.Del := Del;
  LdapSrv.Modify := Modify;
  LdapSrv.Compare := Compare;
  LdapSrv.Extended := Extended
|}.
End Bottin.
