(* ===== verification/BottinFrame.v ===== *)
(** * What the handlers leave alone

    The errors of the handlers carry an LDAP code (the instance [handler_coded]
    of the interface of the server), the reading handlers change neither the tree
    nor the attributes, and an update that fails leaves the tree as it was. *)

From stdpp Require Import gmap.
From S2P Require Import Prelude GoStrings LdapTypes LdapPrim LdapOps LdapSrv.
From S2P Require Import PathMatch StoreTypes Acl GoBTree MemStore Hoare Bottin.
From Stdlib Require Import Strings.Ascii.
#[local] Open Scope Z_scope.

(** A result code of the protocol, other than success and the catch-all. *)
Definition specificCode (c : ENUMERATED) : bool :=
  allowed EnumeratedLDAPResultCode c
  && negb (c =? ResultCodeSuccess) && negb (c =? ResultCodeOther).

Definition coded (e : error) : Prop :=
  match asCode e with Some c => specificCode c | None => false end = true.

Lemma coded_well_coded (e : error) : coded e -> well_coded (Some e).
Proof.
  unfold coded, well_coded. destruct (asCode e); [|done].
  intros [[H _]%andb_prop _]%andb_prop. exact H.
Qed.

Definition anyError (e : error) : Prop := True.

Section Frame.
Context {U : Unicode} {B : BTree mementry mementryLess} {C : Context} {E : Env}.
Variable server : Bottin.

(** The maps of attributes that were there still are, and have not changed but in the
    attributes of the membership of groups. *)
Definition onlyMemberships (h h' : list Attributes) : Prop :=
  forall n m, h !! n = Some m -> exists m', h' !! n = Some m' /\
    forall k, k <> AttrMember -> k <> AttrMemberOf -> m' !! k = m !! k.

Lemma onlyMemberships_app h h2 : onlyMemberships h (h ++ h2).
Proof. intros n m H. exists m. split; [by apply lookup_app_l_Some|done]. Qed.

#[export] Instance onlyMemberships_preorder : PreOrder onlyMemberships.
Proof.
  split; [intros h n m H; by exists m|]. intros h1 h2 h3 H1 H2 n m H.
  destruct (H1 n m H) as (m2 & Hm2 & E2). destruct (H2 n m2 Hm2) as (m3 & Hm3 & E3).
  exists m3. split; [done|]. intros k N1 N2. rewrite E3, E2; done.
Qed.

(** Writing to a new map. *)
Lemma onlyMemberships_new h h2 m k v :
  onlyMemberships h (alter (fun a : Attributes => <[k := v]> a) (length h) (h ++ [m] ++ h2)).
Proof.
  intros n a H. exists a. split; [|done]. rewrite list_lookup_alter_ne.
  - by apply lookup_app_l_Some.
  - intros <-. apply lookup_lt_Some in H. lia.
Qed.

Lemma onlyMemberships_assign l k v h :
  k = AttrMember \/ k = AttrMemberOf -> onlyMemberships h (snd (assign l k v h)).
Proof.
  intros Hk. destruct l as [i|]; cbn; [|reflexivity]. unfold Heap in *. intros n m H.
  destruct (decide (i = n)) as [->|N].
  - exists (<[k := v]> m). rewrite list_lookup_alter_eq, H. split; [done|]. intros k' N1 N2.
    apply lookup_insert_ne. destruct Hk as [-> | ->]; congruence.
  - exists m. by rewrite list_lookup_alter_ne.
Qed.

Lemma onlyMemberships_NewEntry dn l h : onlyMemberships h (snd (NewEntry dn l h)).
Proof.
  unfold NewEntry, bind, clone, load, alloc, assign. destruct l as [i|], dn as [|c dn]; cbn; try reflexivity.
  - apply onlyMemberships_app.
  - apply (onlyMemberships_new h []).
Qed.

Definition sameTree (w w' : World) : Prop := tr w' = tr w /\ onlyMemberships (heap w) (heap w').
Definition sameStore (w w' : World) : Prop := heap w' = heap w /\ tr w' = tr w.

#[export] Instance sameTree_preorder : PreOrder sameTree.
Proof.
  split; [by intros w|]. intros x y z [H1 H2] [H3 H4]. split; [congruence|by etransitivity].
Qed.

#[export] Instance sameStore_preorder : PreOrder sameStore.
Proof. split; unfold sameStore; [done | intros x y z; intuition congruence]. Qed.

Lemma sameStore_sameTree w w' : sameStore w w' -> sameTree w w'.
Proof. intros [H1 H2]. split; [done|]. by rewrite H1. Qed.

Lemma keeps_store_tree {A} P (m : Go World A) : keeps sameStore P m -> keeps sameTree P m.
Proof. intros H. eapply keeps_weaken; [exact H | apply sameStore_sameTree | done]. Qed.

Lemma keeps_anyError {A} I (m : Go World A) : keeps I coded m -> keeps I anyError m.
Proof. intros H. eapply keeps_weaken; [exact H | done | done]. Qed.

(** ** Primitive actions *)

Lemma keeps_tick P : keeps sameStore P tick.
Proof. intros w. now repeat split. Qed.

Lemma keeps_lift_pure {A} (o : outcome A) : keeps sameStore anyError (lift o).
Proof. apply keeps_lift; [apply _|]. now destruct o. Qed.

Lemma keeps_List P p exact : keeps sameStore P (Mem_List p exact).
Proof. intros w. now repeat split. Qed.

Lemma keeps_load P l : keeps sameStore P (onHeap (load l)).
Proof. intros w. unfold onHeap, load. now repeat split. Qed.

Lemma keeps_Get P e k : keeps sameStore P (Get e k).
Proof. intros w. unfold Get, onHeap, Entry_Get, bind, load, ret. now repeat split. Qed.

(** Actions on maps that fail with no error. *)
Lemma keeps_heap {A} P (m : Go Heap A) :
  (forall h, match fst (m h) with Err _ => False | _ => True end) ->
  (forall h, onlyMemberships h (snd (m h))) -> keeps sameTree P (onHeap m).
Proof.
  intros H H2 w. unfold onHeap. specialize (H (heap w)). specialize (H2 (heap w)).
  destruct (m (heap w)) as [o h]. split; [done|by destruct o].
Qed.

Lemma keeps_alloc P a : keeps sameTree P (onHeap (alloc a)).
Proof. apply keeps_heap; [done|]. intros h. apply onlyMemberships_app. Qed.

Lemma keeps_NewEntry P dn l : keeps sameTree P (onHeap (NewEntry dn l)).
Proof. apply keeps_heap; [by destruct l, dn|]. intros h. apply onlyMemberships_NewEntry. Qed.

Lemma keeps_assign P l k v :
  k = AttrMember \/ k = AttrMemberOf -> keeps sameTree P (onHeap (assign l k v)).
Proof. intros Hk. apply keeps_heap; [by destruct l|]. intros h. by apply onlyMemberships_assign. Qed.

Lemma keeps_failf {A} P msg ws : P (Errorf msg ws) -> keeps sameStore P (@failf _ A msg ws).
Proof. intros H. now apply keeps_fail; [apply _|]. Qed.

Lemma keeps_requestDN s b : keeps sameStore coded (requestDN server s b).
Proof. eapply keeps_wrapf; [apply keeps_lift_pure | reflexivity]. Qed.

Lemma keeps_getEntry dn : keeps sameStore coded (getEntry dn).
Proof.
  apply keeps_bind; [apply _ | |].
  - eapply keeps_wrapf; [apply (keeps_List anyError) | reflexivity].
  - intros [|e [|e2 l]]; [apply keeps_failf; reflexivity | apply keeps_ret, _ |
      apply keeps_failf; reflexivity].
Qed.

Lemma keeps_existsEntry dn : keeps sameStore anyError (existsEntry dn).
Proof.
  apply keeps_bind; [apply _ | |].
  - eapply keeps_wrapf; [apply (keeps_List anyError) | done].
  - intros es. apply keeps_ret, _.
Qed.

Lemma keeps_checkAccess st action dn attrs msg :
  keeps sameStore coded (checkAccess server st action dn attrs msg).
Proof.
  unfold checkAccess. destruct (ACL_Check _ _ _ _ _); [apply keeps_ret, _|].
  apply keeps_failf. reflexivity.
Qed.

Lemma keeps_checkContext : keeps sameStore anyError checkContext.
Proof.
  apply keeps_bind; [apply _ | apply keeps_tick|]. intros n.
  destruct (ctxErr n); [now apply keeps_fail; [apply _|] | apply keeps_ret, _].
Qed.

Lemma keeps_beginTx : keeps sameStore coded beginTx.
Proof.
  eapply keeps_wrapf; [|reflexivity].
  apply keeps_bind; [apply _ | apply keeps_checkContext | intros ?; apply keeps_ret, _].
Qed.

Lemma keeps_Store tx e : keeps sameStore anyError (MemTransaction_Store tx e).
Proof.
  unfold MemTransaction_Store. destruct (committed tx); [now apply keeps_fail; [apply _|]|].
  apply keeps_ret, _.
Qed.

Lemma keeps_Delete tx dn : keeps sameStore anyError (MemTransaction_Delete tx dn).
Proof.
  unfold MemTransaction_Delete. destruct (committed tx); [now apply keeps_fail; [apply _|]|].
  apply keeps_ret, _.
Qed.

Lemma keeps_storeEntry tx dn attrs : keeps sameTree anyError (storeEntry tx dn attrs).
Proof.
  apply keeps_bind; [apply _ | apply keeps_NewEntry|].
  intros e. apply keeps_store_tree, keeps_Store.
Qed.
End Frame.

(** The actions of a handler, one after the other: [keeps] for the composite ones
    and the lemmas above for the others. *)
Create HintDb keeps.
#[export] Hint Resolve keeps_requestDN keeps_getEntry keeps_checkAccess keeps_beginTx keeps_tick
  keeps_Get keeps_load keeps_lift_pure keeps_existsEntry keeps_List : keeps.

Ltac keeps_leaf :=
  first
    [ solve [eauto with keeps]
    | solve [apply keeps_store_tree; eauto with keeps]
    | solve [apply keeps_anyError; eauto with keeps]
    | solve [apply keeps_store_tree, keeps_anyError; eauto with keeps]
    | solve [apply keeps_failf; reflexivity]
    | solve [apply keeps_store_tree, keeps_failf; reflexivity]
    | solve [apply keeps_storeEntry]
    | solve [apply keeps_Store]
    | solve [apply keeps_store_tree, keeps_Store]
    | solve [apply keeps_store_tree, keeps_Delete]
    | solve [apply keeps_lift; [apply _ |]; unfold AuthenticationSimple, DN_Parent;
             repeat case_match; done]
    | solve [apply keeps_alloc | apply keeps_NewEntry | apply keeps_assign; auto] ].

Ltac keeps_auto :=
  repeat
    first
      [ progress intros
      | apply keeps_ret; apply _
      | keeps_leaf
      | apply keeps_wrapf with (P' := anyError); [ | solve [reflexivity | done]]
      | apply keeps_bind; [apply _ | | ]
      | apply keeps_forEach; [apply _ | ]
      | match goal with
        | |- keeps _ _ (match ?x with _ => _ end) => destruct x
        | |- keeps _ _ ((match ?x with _ => _ end) _) => destruct x
        end ].

Section FrameProofs.
Context {U : Unicode} {B : BTree mementry mementryLess} {C : Context} {E : Env}.
Variable server : Bottin.

(** ** Readers *)

Lemma keeps_Bind st r : keeps sameStore coded (Bind_body server st r).
Proof. unfold Bind_body. keeps_auto. Qed.

Lemma keeps_Compare st r : keeps sameStore coded (Compare_body server st r).
Proof. unfold Compare_body. keeps_auto. Qed.

Lemma keeps_Search st r : keeps sameStore coded (Search_body server st r).
Proof. unfold Search_body, searchEntry. keeps_auto. Qed.

(** ** Group membership *)

Lemma keeps_membershipAdd tx attr member group :
  attr = AttrMember \/ attr = AttrMemberOf ->
  keeps sameTree anyError (membershipAdd tx attr member group).
Proof. intros Hattr. unfold membershipAdd. keeps_auto. Qed.

Lemma keeps_membershipRemove tx attr member group :
  attr = AttrMember \/ attr = AttrMemberOf ->
  keeps sameTree anyError (membershipRemove server tx attr member group).
Proof. intros Hattr. unfold membershipRemove. keeps_auto. Qed.

(** ** Updates: everything up to the commit leaves the tree alone *)

Definition txn {A} (m : Go World A) : Prop :=
  forall w, match m w with
            | (Ok _, _) => True
            | (Err e, w') => coded e /\ sameTree w w'
            | (_, w') => sameTree w w'
            end.

Lemma txn_bind {A D} (m : Go World A) (k : A -> Go World D) :
  keeps sameTree coded m -> (forall a, txn (k a)) -> txn (bind m k).
Proof.
  intros Hm Hk w. unfold bind. specialize (Hm w).
  destruct (m w) as [[a|e|p|] w1]; cbn in *; destruct Hm as [Hm He]; try done.
  specialize (Hk a w1). destruct (k a w1) as [[]]; intuition (try (by etransitivity)).
Qed.

(** Writing to a clone. *)
Lemma txn_clone {A} l k v (m : loc -> Go World A) :
  (forall a, txn (m a)) -> txn (a <-- onHeap (clone l) ;; onHeap (assign a k v) ;;; m a).
Proof.
  intros Hm w. unfold bind, clone, load, alloc, assign, onHeap. destruct l as [i|]; cbn; [|done].
  match goal with |- context [m (Some (length (heap w))) ?w1] => set (w2 := w1) end.
  assert (sameTree w w2) as H2 by (split; [done|apply (onlyMemberships_new _ [])]).
  specialize (Hm (Some (length (heap w))) w2). destruct (m _ w2) as [[]]; intuition (try (by etransitivity)).
Qed.

Lemma txn_fail {A} msg ws : coded (Errorf msg ws) -> txn (@failf _ A msg ws).
Proof. intros H w. done. Qed.

Lemma txn_commit {A} tx (a : A) : txn (commitTx tx ;;; ret a).
Proof.
  intros w. unfold commitTx, MemTransaction_Commit, checkContext, bind, tick, wrapf. cbn.
  destruct (ctxErr (ticks w)); cbn; [done|]. now destruct (committed tx).
Qed.

Lemma keeps_addAttribute st attribute : keeps sameTree coded (addAttribute server st attribute).
Proof. unfold addAttribute, addMember. destruct st. keeps_auto. Qed.

Lemma keeps_memberDN attr dns val : keeps sameTree coded (memberDN server attr dns val).
Proof. unfold memberDN. keeps_auto. Qed.

Lemma keeps_modifyChange st dn e c m ch :
  keeps sameTree coded (modifyChange server st dn e c m ch).
Proof.
  unfold modifyChange, modifyAdd, modifyDelete, modifyReplace.
  repeat first [apply keeps_memberDN | progress keeps_auto].
Qed.

Lemma keeps_membershipAdd_coded msg tx attr member group :
  attr = AttrMember \/ attr = AttrMemberOf ->
  keeps sameTree coded (wrapf msg [ErrOperationsError] (membershipAdd tx attr member group)).
Proof. intros Hattr. eapply keeps_wrapf; [by apply keeps_membershipAdd | reflexivity]. Qed.

Lemma keeps_membershipRemove_coded msg tx attr member group :
  attr = AttrMember \/ attr = AttrMemberOf ->
  keeps sameTree coded (wrapf msg [ErrOperationsError] (membershipRemove server tx attr member group)).
Proof. intros Hattr. eapply keeps_wrapf; [by apply keeps_membershipRemove | reflexivity]. Qed.

Ltac txn_auto :=
  repeat
    first
      [ progress intros
      | apply txn_commit
      | apply txn_fail; reflexivity
      | apply txn_clone
      | apply txn_bind
      | apply keeps_forEach; [apply _ | intros; apply keeps_modifyChange]
      | apply keeps_forEach; [apply _ | intros; apply keeps_addAttribute]
      | apply keeps_membershipAdd_coded; solve [auto]
      | apply keeps_membershipRemove_coded; solve [auto]
      | progress keeps_auto
      | match goal with
        | |- txn (match ?x with _ => _ end) => destruct x
        end ].

Lemma txn_Extended st r : txn (Extended_body server st r).
Proof. unfold Extended_body. txn_auto. Qed.

Lemma txn_Add st r : txn (Add_body server st r).
Proof. unfold Add_body. txn_auto. Qed.

Lemma txn_Del st r : txn (Del_body server st r).
Proof. unfold Del_body. txn_auto. Qed.

Lemma txn_Modify st r : txn (Modify_body server st r).
Proof. unfold Modify_body. txn_auto. Qed.

(** ** The handler as the server sees it *)

Lemma keeps_txn {A} (m : Go World A) : keeps sameStore coded m -> txn m.
Proof.
  intros H w. destruct (H w) as [H1%sameStore_sameTree H2]. destruct (m w) as [[a|e|p|] w']; cbn in *; auto.
Qed.

Definition isUpdate (op : ProtocolOp) : bool :=
  match op with
  | OpAddRequest _ | OpDelRequest _ | OpModifyRequest _ | OpExtendedRequest _ => true
  | _ => false
  end.

Definition isReader (op : ProtocolOp) : bool :=
  match op with
  | OpBindRequest _ | OpSearchRequest _ | OpCompareRequest _ => true
  | _ => false
  end.

Local Abbreviation run := (runHandler (handler server) None).

Lemma attempt_failure st (m : Go World State) code w st' code' e results w' :
  txn m ->
  bind (attempt st m) (fun '(s, err) => ret (s, errorCode code err, err, @nil ProtocolOp)) w
    = (Ok (st', code', Some e, results), w') ->
  coded e /\ st' = st /\ sameTree w w' /\ code' = errorCode ResultCodeSuccess (Some e).
Proof.
  intros H. specialize (H w). unfold attempt, bind.
  destruct (m w) as [[s|e1|p|] w1]; try done. cbn. intros [= <- <- -> <- <-].
  destruct H as [H1 H2]. split; [done|]. split; [done|]. split; [done|]. unfold errorCode.
  unfold coded in H1. now destruct (asCode e).
Qed.

Lemma run_failure st op w st' code e results w' :
  isUpdate op || isReader op = true ->
  run st op w = (Ok (st', code, Some e, results), w') ->
  coded e /\ st' = st /\ sameTree w w' /\ code = errorCode ResultCodeSuccess (Some e).
Proof.
  intros Hop H. destruct op; try done; cbn [runHandler handler LdapSrv.Bind LdapSrv.Search
    LdapSrv.Add LdapSrv.Del LdapSrv.Modify LdapSrv.Compare LdapSrv.Extended] in H.
  - eapply attempt_failure; [apply keeps_txn, keeps_Bind | exact H].
  - pose proof (keeps_txn _ (keeps_Search st r) w) as A. unfold Search, bind in H.
    destruct (Search_body server st r w) as [[x|e0| |] w1]; try done.
    injection H as <- <- -> <- <-. cbn in *. tauto.
  - eapply attempt_failure; [apply txn_Modify | exact H].
  - eapply attempt_failure; [apply txn_Add | exact H].
  - eapply attempt_failure; [apply txn_Del | exact H].
  - pose proof (keeps_txn _ (keeps_Compare st r) w) as A. unfold Compare, bind in H.
    destruct (Compare_body server st r w) as [[x|e0| |] w1]; try done.
    injection H as <- <- -> <- <-. cbn in *. tauto.
  - eapply attempt_failure; [apply txn_Extended | exact H].
Qed.

(** Binding, searching and comparing never change the store, neither the tree
    nor the attributes of its entries, whatever their outcome. *)
Theorem readers_keep_store (st : State) (op : ProtocolOp) (w : World) :
  isReader op = true ->
  heap (snd (run st op w)) = heap w /\ tr (snd (run st op w)) = tr w.
Proof.
  intros Hop. destruct op; try done; cbn [runHandler handler LdapSrv.Bind LdapSrv.Search
    LdapSrv.Compare].
  - unfold Bind, attempt, bind. destruct (keeps_Bind st r w) as [Hk _].
    now destruct (Bind_body server st r w) as [[] ?].
  - unfold Search, bind. destruct (keeps_Search st r w) as [Hk _].
    now destruct (Search_body server st r w) as [[] ?].
  - unfold Compare, bind. destruct (keeps_Compare st r w) as [Hk _].
    now destruct (Compare_body server st r w) as [[] ?].
Qed.

(** C9: A binding, search, comparison, addition, deletion, modification or change of a
    password that fails is reported with a result code of the protocol that is specific
    (neither success nor the catch-all "other") and leaves the session as it was.  The
    tree files the same entries, since no change of its transaction is applied; of the
    attributes of those entries only "member" and "memberof" may have changed, which
    memberof.go writes before the commit, and a reading operation changes none. *)
Theorem failure_rolled_back (st : State) (op : ProtocolOp) (w : World) (st' : State) (code : Z)
    (e : error) (results : list ProtocolOp) (w' : World) :
  isUpdate op || isReader op = true ->
  run st op w = (Ok (st', code, Some e, results), w') ->
  specificCode code = true /\ st' = st /\ tr w' = tr w /\ onlyMemberships (heap w) (heap w')
  /\ (isReader op = true -> heap w' = heap w).
Proof.
  intros Hop H. destruct (run_failure st op w st' code e results w' Hop H) as (H1 & H2 & [H3 H4] & ->).
  split_and!; [|done..|].
  - unfold errorCode. unfold coded in H1. now destruct (asCode e).
  - intros Hr. pose proof (readers_keep_store st op w Hr) as [Hh _]. by rewrite H in Hh.
Qed.

Lemma attempt_coded st (m : Go World State) :
  txn m -> returns (fun '(_, e) => well_coded e) (attempt st m).
Proof.
  intros H w. specialize (H w). unfold attempt. destruct (m w) as [[s|e|p|] w1]; cbn; try done.
  now apply coded_well_coded.
Qed.

(** The directory keeps its side of the interface of the server. *)
#[export] Instance handler_coded : CodedHandler (handler server).
Proof.
  split; intros st r; cbn [handler LdapSrv.Bind LdapSrv.Search LdapSrv.Add LdapSrv.Del
    LdapSrv.Modify LdapSrv.Compare LdapSrv.Extended].
  - apply attempt_coded, keeps_txn, keeps_Bind.
  - intros w. pose proof (keeps_txn _ (keeps_Search st r) w) as A. unfold Search.
    destruct (Search_body server st r w) as [[|e| |] w1]; cbn; try done.
    now apply coded_well_coded.
  - apply attempt_coded, txn_Add.
  - apply attempt_coded, txn_Del.
  - apply attempt_coded, txn_Modify.
  - intros w. pose proof (keeps_txn _ (keeps_Compare st r) w) as A. unfold Compare.
    destruct (Compare_body server st r w) as [[|e| |] w1]; cbn; try done.
    now apply coded_well_coded.
  - apply attempt_coded, txn_Extended.
Qed.
End FrameProofs.
