(* ===== verification/BottinInv.v ===== *)
(** * The invariant of the directory

    A well-formed tree files every entry under its DN, keeps every DN below the
    base, and holds the parent of every entry other than the base.  The handlers
    preserve it, and return on every request but two: a SASL bind and a password
    modification whose value cannot be indexed ([crashes]). *)

From stdpp Require Import gmap.
From S2P Require Import Prelude GoStrings LdapTypes LdapPrim LdapOps LdapSrv.
From S2P Require Import PathMatch StoreTypes Acl GoBTree MemStore Hoare Bottin BottinFrame.
From Stdlib Require Import Strings.Ascii.
#[local] Open Scope Z_scope.

Section Inv.
Context {U : Unicode} {UL : UnicodeLaws}.
Context {B : BTree mementry mementryLess} {BL : BTreeLaws B}.
Context {C : Context} {E : Env} {EL : EnvLaws E}.
Variable server : Bottin.

(** A DN that may name an entry: in canonical form, without a slash, and not
    above or beside the base. *)
Record goodDN (dn : DN) : Prop := {
  good_parsed : parsed dn;
  good_slashFree : slashFree dn;
  good_under : IsPrefixOf (DN_Prefix (baseDN server)) (DN_Prefix dn) = true
}.

Definition present (t : Tree B) (dn : DN) : Prop :=
  exists m, m ∈ Ascend t /\ EntryDN (entry m) = dn.

Record goodEntry (t : Tree B) (e : Entry) : Prop := {
  entry_good : goodDN (EntryDN e);
  entry_parent : EntryDN e = baseDN server \/ present t (tail (EntryDN e));
  entry_attributes : exists n, EntryAttributes e = Some n
}.

Record wellFormed (t : Tree B) : Prop := {
  wf_filed : filed t;
  wf_entries m : m ∈ Ascend t -> goodEntry t (entry m)
}.

(** ** The tree *)

Lemma goodDN_key_inj dn dn' :
  goodDN dn -> goodDN dn' ->
  Prefix_String (DN_Prefix dn) = Prefix_String (DN_Prefix dn') -> dn = dn'.
Proof using Type. intros [[_ H1 _] H2 _] [[_ H3 _] H4 _]. now apply key_inj. Qed.

Lemma filed_key t m : filed t -> m ∈ Ascend t -> key m = Prefix_String (DN_Prefix (EntryDN (entry m))).
Proof using Type. intros Hf Hm. rewrite (Hf m Hm) at 1. reflexivity. Qed.

Lemma key_newmementry e : key (newmementry e) = Prefix_String (DN_Prefix (EntryDN e)).
Proof using Type. reflexivity. Qed.

(** Filing an entry adds its DN and removes no other. *)
Lemma present_insert t e dn :
  wellFormed t -> goodDN (EntryDN e) ->
  present (ReplaceOrInsert (newmementry e) t) dn <-> dn = EntryDN e \/ present t dn.
Proof using BL.
  intros Hw He. unfold present. setoid_rewrite Ascend_Insert. setoid_rewrite equiv_key. split.
  - intros [m [[->|[Hm _]] <-]]; [by left|]. right. eauto.
  - intros [->|[m [Hm <-]]]; [exists (newmementry e); auto|].
    destruct (decide (key (newmementry e) = key m)) as [Ek|Ek]; [|eauto].
    exists (newmementry e). split; [by left|]. cbn.
    apply goodDN_key_inj; [done | apply (wf_entries t Hw m Hm)|].
    rewrite <- (filed_key t) by (done || apply Hw). exact Ek.
Qed.

Lemma goodEntry_mono t t' e :
  (forall dn, present t dn -> present t' dn) -> goodEntry t e -> goodEntry t' e.
Proof using Type. intros H [H1 H2 H3]. split; try done. destruct H2; auto. Qed.

Lemma insert_wf t e :
  wellFormed t -> goodEntry t e -> wellFormed (ReplaceOrInsert (newmementry e) t).
Proof using BL.
  intros Hw He.
  assert (forall dn, present t dn -> present (ReplaceOrInsert (newmementry e) t) dn) as Hp.
  { intros dn Hd. apply present_insert; [done | apply He | auto]. }
  split.
  - intros m Hm. apply Ascend_Insert in Hm as [->|[Hm _]]; [done|]. now apply Hw.
  - intros m Hm. apply Ascend_Insert in Hm as [->|[Hm _]]; (eapply goodEntry_mono; [exact Hp|]);
      [done | now apply Hw].
Qed.

(** Deleting a DN removes it and no other. *)
Lemma present_delete t dn dn' :
  wellFormed t -> goodDN dn ->
  present (Delete (mementryFromPrefix (DN_Prefix dn)) t) dn' <-> dn' <> dn /\ present t dn'.
Proof using BL.
  intros Hw Hd. unfold present. setoid_rewrite Ascend_Delete. setoid_rewrite equiv_key.
  assert (forall m, m ∈ Ascend t ->
            key (mementryFromPrefix (DN_Prefix dn)) = key m <-> EntryDN (entry m) = dn) as Hk.
  { intros m Hm. rewrite (filed_key t m) by (done || apply Hw). split; [|now intros ->].
    intros Ek. apply goodDN_key_inj; [apply (wf_entries t Hw m Hm) | done | now symmetry]. }
  split.
  - intros [m [[Hm Hn] <-]]. rewrite Hk in Hn by done. eauto.
  - intros [Hn [m [Hm <-]]]. exists m. rewrite Hk by done. auto.
Qed.

Lemma parsed_tail dn : parsed dn -> tail dn <> dn.
Proof using Type.
  intros [Hn _ _] H. destruct dn as [|c dn]; [done|]. cbn in H.
  apply (f_equal length) in H. cbn in H. lia.
Qed.

Lemma child_of_prefix dn : IsPrefixOf (DN_Prefix (tail dn)) (DN_Prefix dn) = true.
Proof using Type.
  apply IsPrefixOf_spec. destruct dn as [|c dn]; [now exists []|].
  exists [c]. apply reverse_cons.
Qed.

(** The listing of a DN without children holds nothing else. *)
Definition childless (t : Tree B) (dn : DN) : Prop :=
  forall dn', present t dn' -> tail dn' = dn -> dn' = dn.

Lemma delete_good t dn e :
  wellFormed t -> goodDN dn -> childless t dn -> present t (EntryDN e) ->
  goodEntry t e -> goodEntry (Delete (mementryFromPrefix (DN_Prefix dn)) t) e.
Proof using BL.
  intros Hw Hd Hc Hp [H1 H2 H3]. split; try done. destruct H2 as [H2|H2]; [by left|]. right.
  apply present_delete; try done. split; [|done]. intros Ht.
  pose proof (Hc _ Hp Ht) as Ee. rewrite Ee in Ht. revert Ht. apply parsed_tail, Hd.
Qed.

Lemma delete_wf t dn :
  wellFormed t -> goodDN dn -> childless t dn ->
  wellFormed (Delete (mementryFromPrefix (DN_Prefix dn)) t).
Proof using BL.
  intros Hw Hd Hc. split; intros m Hm; apply Ascend_Delete in Hm as [Hm _]; [now apply Hw|].
  apply delete_good; try done; [exists m; auto | now apply Hw].
Qed.

(** ** Transactions

    A change that stores an entry of the tree [t0] again, with other attributes. *)
Definition restores (t0 : Tree B) (c : change) : Prop :=
  exists e, c = mkchange (newmementry e) changekindStore
            /\ goodEntry t0 e /\ present t0 (EntryDN e).

Lemma restores_wf t0 t cs :
  (forall e, goodEntry t0 e -> present t0 (EntryDN e) -> goodEntry t e) ->
  wellFormed t -> Forall (restores t0) cs -> wellFormed (foldl applyChange t cs).
Proof using BL.
  intros Hg Hw Hcs. revert t Hg Hw. induction Hcs as [|c cs (e & -> & He & Hp) Hcs IH];
    intros t Hg Hw; cbn [foldl]; [done|].
  apply IH; unfold applyChange; cbn.
  - intros e' He' Hp'. eapply goodEntry_mono; [|now apply Hg].
    intros dn Hd. apply present_insert; [done | apply He | auto].
  - apply insert_wf; auto.
Qed.

(** What an update does to the DNs of the directory: it files one, or removes
    one.  The removal may be undone by the rest of the transaction, when the
    entry removed is stored again as a member of itself. *)
Inductive effect : Type := Files (dn : DN) | Removes (dn : DN).

Definition effectOk (eff : effect) (t t' : Tree B) : Prop :=
  match eff with
  | Files dn => forall d, present t' d <-> d = dn \/ present t d
  | Removes dn =>
      (forall d, present t' d -> present t d) /\ (forall d, d <> dn -> present t d -> present t' d)
  end.

(** The transactions of the handlers: a first change, then entries stored again. *)
Inductive legalTx (t0 : Tree B) : effect -> list change -> Prop :=
| legal_store e cs :
    goodEntry t0 e -> Forall (restores t0) cs ->
    legalTx t0 (Files (EntryDN e)) (mkchange (newmementry e) changekindStore :: cs)
| legal_delete dn cs :
    goodDN dn -> childless t0 dn -> Forall (restores t0) cs ->
    legalTx t0 (Removes dn) (mkchange (mementryFromPrefix (DN_Prefix dn)) changekindDelete :: cs).

Lemma legalTx_app t0 eff cs c : legalTx t0 eff cs -> restores t0 c -> legalTx t0 eff (cs ++ [c]).
Proof using Type.
  intros [e cs' He Hcs|dn cs' Hd Hl Hcs] Hc; cbn; constructor; try done;
    apply Forall_app; split; try done; by constructor.
Qed.

Lemma legalTx_wf t0 eff cs :
  wellFormed t0 -> legalTx t0 eff cs -> wellFormed (foldl applyChange t0 cs).
Proof using BL.
  intros Hw [e cs' He Hcs|dn cs' Hd Hl Hcs]; cbn [foldl]; unfold applyChange at 2; cbn;
    (apply (restores_wf t0); [|  | done]).
  - intros e' He' _. eapply goodEntry_mono; [|exact He'].
    intros dn Hd. apply present_insert; [done | apply He | auto].
  - now apply insert_wf.
  - intros e' He' Hp. now apply delete_good.
  - now apply delete_wf.
Qed.

Lemma restores_present t0 t cs d :
  (forall e, goodEntry t0 e -> present t0 (EntryDN e) -> goodEntry t e) ->
  wellFormed t -> Forall (restores t0) cs ->
  (present t d -> present (foldl applyChange t cs) d)
  /\ (present (foldl applyChange t cs) d -> present t d \/ present t0 d).
Proof using BL.
  intros Hg Hw Hcs. revert t Hg Hw. induction Hcs as [|c cs (e & -> & He & Hp) Hcs IH];
    intros t Hg Hw; cbn [foldl]; [auto|]. unfold applyChange at 2 4; cbn.
  destruct (IH (ReplaceOrInsert (newmementry e) t)) as [H1 H2].
  - intros e' He' Hp'. eapply goodEntry_mono; [|now apply Hg].
    intros dn Hd. apply present_insert; [done | apply He | auto].
  - apply insert_wf; auto.
  - split.
    + intros H. apply H1, present_insert; [done | apply He | auto].
    + intros H. destruct (H2 H) as [H3|H3]; [|auto].
      apply present_insert in H3 as [->|H3]; [auto..|done|apply He].
Qed.

Lemma legalTx_effect t0 eff cs :
  wellFormed t0 -> legalTx t0 eff cs -> effectOk eff t0 (foldl applyChange t0 cs).
Proof using BL.
  intros Hw [e cs' He Hcs|dn cs' Hd Hl Hcs]; cbn [foldl effectOk]; unfold applyChange.
  - intros d. destruct (restores_present t0 (ReplaceOrInsert (newmementry e) t0) cs' d) as [H1 H2];
      [ | now apply insert_wf | done |].
    + intros e' He' _. eapply goodEntry_mono; [|exact He'].
      intros dn Hd. apply present_insert; [done | apply He | auto].
    + rewrite present_insert in H1, H2 by (done || apply He). cbn in *. tauto.
  - assert (forall d, _) as H by exact (fun d =>
      restores_present t0 (Delete (mementryFromPrefix (DN_Prefix dn)) t0) cs' d
        (fun e' He' Hp => delete_good t0 dn e' Hw Hd Hl Hp He') (delete_wf t0 dn Hw Hd Hl) Hcs).
    split; intros d; destruct (H d) as [H1 H2]; rewrite present_delete in H1, H2 by done; cbn in *; tauto.
Qed.
End Inv.
