(* ===== verification/BottinSafe.v ===== *)
(** * The handlers preserve the invariant and return *)

From stdpp Require Import gmap.
From S2P Require Import Prelude GoStrings LdapTypes LdapPrim LdapOps LdapSrv.
From S2P Require Import PathMatch StoreTypes Acl GoBTree MemStore Hoare Bottin BottinFrame BottinInv.
From Stdlib Require Import Strings.Ascii.
#[local] Open Scope Z_scope.

Section Safe.
#[local] Set Default Proof Using "All".
Context {U : Unicode} {UL : UnicodeLaws}.
Context {B : BTree mementry mementryLess} {BL : BTreeLaws B}.
Context {C : Context} {E : Env} {EL : EnvLaws E}.
Context (server : Bottin) (base_good : goodDN server (baseDN server)).
(** The tree before the operation. *)
Context (t0 : Tree B) (t0_wf : wellFormed server t0).

Definition before (w : World) : Prop := tr w = t0.
Local Abbreviation does := (steps before).
Local Abbreviation anything := (fun _ => True).

Lemma does_tick : does tick anything.
Proof. intros w Hw. done. Qed.

Lemma does_genTimestamp : does genTimestamp anything.
Proof. intros w Hw. done. Qed.

Lemma does_NewRandom : does NewRandom anything.
Proof.
  eapply steps_bind; [apply does_tick|]. intros n _. apply steps_lift.
  pose proof (uuidNewRandom_returns n). now destruct (uuidNewRandom n).
Qed.

Lemma does_load l : does (onHeap (load l)) anything.
Proof. intros w Hw. done. Qed.

Lemma does_alloc a : does (onHeap (alloc a)) (fun l => exists n, l = Some n).
Proof. intros w Hw. cbn. split; [done|]. eauto. Qed.

Lemma does_clone l : (exists n, l = Some n) -> does (onHeap (clone l)) (fun l => exists n, l = Some n).
Proof. intros [n ->] w Hw. cbn. split; [done|]. eauto. Qed.

Lemma does_assign l k v : (exists n, l = Some n) -> does (onHeap (assign l k v)) anything.
Proof. intros [n ->] w Hw. done. Qed.

Lemma does_Get e k : does (Get e k) anything.
Proof. intros w Hw. done. Qed.

Lemma does_failf {A} msg ws (F : A -> Prop) : does (failf msg ws) F.
Proof. apply steps_fail. Qed.

Lemma IsPrefixOf_refl p : IsPrefixOf p p = true.
Proof. apply IsPrefixOf_spec. exists []. now rewrite app_nil_r. Qed.

(** ** The DN of a request *)

Definition below (dn : DN) : Prop :=
  parsed dn /\ IsPrefixOf (DN_Prefix (baseDN server)) (DN_Prefix dn) = true.

Lemma parseDN_below s b dn : parseDN server s b = Ok dn -> below dn.
Proof.
  unfold parseDN. intros H. go_inv. apply ParseDN_parsed in Ho.
  destruct (IsPrefixOf _ (DN_Prefix a)) eqn:E1; [injection H as <-; done|].
  destruct (b && _); [|done]. injection H as <-. split; [apply base_good|apply IsPrefixOf_refl].
Qed.

Lemma ParseComponent_returns s :
  match ParseComponent s with Ok _ | Err _ => True | _ => False end.
Proof. unfold ParseComponent. repeat case_match; done. Qed.

Lemma parseDN_returns s b : match parseDN server s b with Ok _ | Err _ => True | _ => False end.
Proof.
  unfold parseDN, ParseDN, parseComponentSlice.
  assert (match parseComponents (Split s dnSeparator) with Ok _ | Err _ => True | _ => False end) as H.
  { generalize (Split s dnSeparator) as l. intros l. induction l as [|x l IH]; cbn; [done|].
    pose proof (ParseComponent_returns x). destruct (ParseComponent x); cbn; try done.
    now destruct (parseComponents l). }
  destruct (parseComponents _); cbn; try done. now repeat case_match.
Qed.

Lemma does_parseDN s b : does (lift (parseDN server s b)) below.
Proof.
  apply steps_lift. pose proof (parseDN_returns s b). destruct (parseDN server s b) eqn:Ed; try done.
  now apply parseDN_below in Ed.
Qed.

Lemma does_requestDN s b : does (requestDN server s b) below.
Proof. apply steps_wrapf, does_parseDN. Qed.

(** ** Looking entries up *)

Lemma List_member p exact e :
  e ∈ Mem_items p exact t0 ->
  newmementry e ∈ Ascend t0 /\ goodEntry server t0 e /\ (exact = true -> DN_Prefix (EntryDN e) = p).
Proof.
  intros H.
  assert (exists m, m ∈ Ascend t0 /\ entry m = e /\ (exact = true -> prefix m = p)) as Hex.
  { unfold Mem_items in H. destruct exact.
    - rewrite iterate_exact in H. cbn [app] in H.
      destruct (list_find _ _) as [[i m]|] eqn:F; [|now apply elem_of_nil in H].
      apply list_elem_of_singleton in H as ->. apply list_find_Some in F as (Hl & Hp & _).
      apply list_elem_of_lookup_2 in Hl. rewrite AscendRange_Ascend in Hl.
      apply list_elem_of_filter in Hl as [_ Hl]. eauto.
    - rewrite iterate_all in H. cbn [app] in H. apply list_elem_of_fmap in H as [m [-> Hm]].
      rewrite AscendRange_Ascend in Hm. apply list_elem_of_filter in Hm as [_ Hm].
      exists m. split; [done|]. split; [done|]. discriminate. }
  destruct Hex as (m & Hm & <- & Hp).
  pose proof (wf_filed _ _ t0_wf m Hm) as Ef. rewrite <- Ef.
  split; [done|]. split; [now apply t0_wf|]. intros Hx. rewrite <- (Hp Hx). now rewrite Ef at 2.
Qed.

Definition stored (e : Entry) : Prop := newmementry e ∈ Ascend t0 /\ goodEntry server t0 e.

Lemma stored_present e : stored e -> present t0 (EntryDN e).
Proof. intros [H _]. exists (newmementry e). done. Qed.

Lemma does_getEntry dn : does (getEntry dn) (fun e => stored e /\ EntryDN e = dn).
Proof.
  apply (steps_bind _ _ _ (fun es => forall e, e ∈ es -> stored e /\ EntryDN e = dn)).
  - apply steps_wrapf. intros w Hw. cbn. unfold before in Hw. split; [done|]. rewrite Hw.
    intros e He. apply List_member in He as (H1 & H2 & H3).
    split; [done|]. apply DN_Prefix_inj. auto.
  - intros [|e [|e2 es]] H; [apply does_failf | | apply does_failf].
    apply steps_ret, H. now apply list_elem_of_singleton.
Qed.

Lemma present_listed dn :
  present t0 dn <-> len (Mem_items (DN_Prefix dn) true t0) = 1.
Proof.
  split.
  - intros (m & Hm & <-).
    assert (Mem_items (DN_Prefix (EntryDN (entry m))) true t0 = [entry m]) as ->; [|done].
    apply List_exact; [| apply t0_wf |].
    + intros Hn%DN_Prefix_nil. revert Hn. apply parsed_nonempty, (wf_entries _ _ t0_wf m Hm).
    + split; [|done]. now rewrite <- (wf_filed _ _ t0_wf m Hm).
  - intros Hl. destruct (Mem_items (DN_Prefix dn) true t0) as [|e es] eqn:Ee; [done|].
    assert (e ∈ Mem_items (DN_Prefix dn) true t0) as He by (rewrite Ee; by left).
    apply List_member in He as (H1 & H2 & H3). exists (newmementry e). split; [done|].
    apply DN_Prefix_inj. auto.
Qed.

Lemma does_existsEntry dn : does (existsEntry dn) (fun b => b = true <-> present t0 dn).
Proof.
  intros w Hw. split; [exact Hw|]. unfold before in Hw. rewrite Hw.
  now rewrite Z.eqb_eq, present_listed.
Qed.

Lemma does_checkAccess st action dn attrs msg : does (checkAccess server st action dn attrs msg) anything.
Proof. unfold checkAccess. destruct (ACL_Check _ _ _ _ _); [now apply steps_ret|apply does_failf]. Qed.

(** ** Transactions *)

Definition openTx (P : list change -> Prop) (tx : MemTransaction) : Prop :=
  committed tx = false /\ P (changes tx).

Lemma does_Begin : does Mem_Begin (openTx (eq [])).
Proof. intros w Hw. unfold Mem_Begin, checkContext, tick, bind. cbn. now destruct (ctxErr _). Qed.

Lemma does_beginTx : does beginTx (openTx (eq [])).
Proof. apply steps_wrapf, does_Begin. Qed.

Lemma does_storeEntry tx dn attrs cs :
  openTx (eq cs) tx -> (exists n, attrs = Some n) ->
  does (storeEntry tx dn attrs) (openTx (fun cs' => exists n,
    cs' = cs ++ [mkchange (newmementry (mkEntry dn (Some n))) changekindStore])).
Proof.
  intros [H1 H2] [n ->] w Hw. unfold storeEntry, NewEntry, onHeap, bind, clone, load, alloc, ret. cbn.
  destruct dn as [|c dn]; cbn; unfold MemTransaction_Store; rewrite H1; cbn; rewrite <- H2;
    (split; [exact Hw|]; split; [done|]; eauto).
Qed.

(** Storing again, with new attributes, an entry that the store holds. *)
Lemma does_restore eff tx e attrs :
  stored e -> openTx (legalTx server t0 eff) tx -> (exists n, attrs = Some n) ->
  does (storeEntry tx (EntryDN e) attrs) (openTx (legalTx server t0 eff)).
Proof.
  intros He [H1 H2] Ha. eapply steps_weaken; [apply does_storeEntry; [split; [exact H1|reflexivity]|exact Ha]|].
  intros tx' [H3 [n Hn]]. split; [done|]. rewrite Hn. apply legalTx_app; [done|].
  exists (mkEntry (EntryDN e) (Some n)). split; [done|]. split; [|exact (stored_present e He)].
  destruct He as [_ [G1 G2 G3]]. split; eauto.
Qed.

Lemma does_membershipAdd eff tx attr member group :
  openTx (legalTx server t0 eff) tx ->
  does (membershipAdd tx attr member group) (openTx (legalTx server t0 eff)).
Proof.
  intros Htx. eapply steps_bind; [apply steps_wrapf, does_getEntry|]. intros e [He _].
  eapply steps_bind; [apply does_Get|]. intros ms _.
  destruct (contains _ _); [now apply steps_ret|].
  eapply steps_bind; [apply does_assign, He|]. intros _ _.
  apply steps_wrapf, does_restore; try done. apply He.
Qed.

Lemma does_membershipRemove eff tx attr member group :
  openTx (legalTx server t0 eff) tx ->
  does (membershipRemove server tx attr member group) (openTx (legalTx server t0 eff)).
Proof.
  intros Htx. eapply steps_bind; [apply steps_wrapf, does_getEntry|]. intros e [He _].
  eapply steps_bind; [apply does_Get|]. intros ms _.
  apply (steps_bind _ _ _ anything).
  { apply steps_forEach; [done|]. intros acc g _.
    eapply steps_bind; [apply steps_wrapf, does_parseDN|]. intros gdn _. now apply steps_ret. }
  intros new _. destruct (_ =? _); [now apply steps_ret|].
  eapply steps_bind; [apply does_assign, He|]. intros _ _.
  apply steps_wrapf, does_restore; try done. apply He.
Qed.

(** ** Handlers *)

(** The handler returns, and the tree is well-formed after it; when it does not
    fail, the tree satisfies [P]. *)
Definition finishes {A} (m : Go World A) (P : Tree B -> Prop) : Prop :=
  forall w, before w ->
    match m w with
    | (Ok _, w') => wellFormed server (tr w') /\ P (tr w')
    | (Err _, w') => wellFormed server (tr w')
    | _ => False
    end.

Lemma finishes_steps {A} (m : Go World A) F : does m F -> finishes m (eq t0).
Proof.
  intros H w Hw. specialize (H w Hw). unfold before in H.
  destruct (m w) as [[a|e|p|] w']; try done; [destruct H as [-> _] | rewrite H]; done.
Qed.

Lemma finishes_bind {A D} (m : Go World A) (k : A -> Go World D) F P :
  does m F -> (forall a, F a -> finishes (k a) P) -> finishes (bind m k) P.
Proof.
  intros Hm Hk w Hw. specialize (Hm w Hw). unfold bind. destruct (m w) as [[a|e|p|] w']; try done.
  - destruct Hm as [H1 H2]. now apply Hk.
  - unfold before in Hm. now rewrite Hm.
Qed.

Lemma finishes_commit {A} eff tx (a : A) :
  openTx (legalTx server t0 eff) tx -> finishes (commitTx tx ;;; ret a) (effectOk eff t0).
Proof.
  intros [H1 H2] w Hw. unfold before in Hw.
  unfold commitTx, MemTransaction_Commit, checkContext, bind, tick, wrapf. cbn.
  destruct (ctxErr (ticks w)); cbn; [now rewrite Hw|]. rewrite H1. cbn. rewrite Hw.
  split; [eapply legalTx_wf | eapply legalTx_effect]; done.
Qed.

Lemma finishes_failf {A} msg ws P : finishes (@failf _ A msg ws) P.
Proof. intros w Hw. cbn. unfold before in Hw. now rewrite Hw. Qed.

(** The loops over the members of a group keep the transaction legal. *)
Lemma does_members {A} eff (l : list A) tx (body : MemTransaction -> A -> Go World MemTransaction) :
  openTx (legalTx server t0 eff) tx ->
  (forall tx a, openTx (legalTx server t0 eff) tx -> does (body tx a) (openTx (legalTx server t0 eff))) ->
  does (forEach l tx body) (openTx (legalTx server t0 eff)).
Proof. apply steps_forEach. Qed.

Lemma finishes_weaken {A} (m : Go World A) (P Q : Tree B -> Prop) :
  finishes m P -> (forall t, P t -> Q t) -> finishes m Q.
Proof. intros H HPQ w Hw. specialize (H w Hw). destruct (m w) as [[] ?]; try done. destruct H; auto. Qed.

Definition sameDNs (t : Tree B) : Prop := forall d, present t d <-> present t0 d.

(** Storing an entry again keeps the set of DNs. *)
Lemma finishes_restored {A} e tx (a : A) :
  stored e -> openTx (legalTx server t0 (Files (EntryDN e))) tx ->
  finishes (commitTx tx ;;; ret a) sameDNs.
Proof.
  intros He Htx. eapply finishes_weaken; [now apply (finishes_commit (Files (EntryDN e)))|].
  intros t Ht d. rewrite (Ht d). split; [|auto]. intros [->|H]; [now apply stored_present|done].
Qed.

Lemma finishes_Bind st r :
  (exists s, authentication r = AuthSimple s) -> finishes (Bind_body server st r) (eq t0).
Proof.
  intros [s Hs]. eapply finishes_bind; [apply does_requestDN|]. intros dn _.
  eapply finishes_bind; [apply does_checkAccess|]. intros _ _.
  eapply finishes_bind; [apply does_getEntry|]. intros e _.
  eapply finishes_bind; [apply (steps_lift _ _ anything); unfold AuthenticationSimple; now rewrite Hs|].
  intros passwd _. apply (finishes_bind _ _ anything).
  { destruct (DN_Equal _ _); [now apply steps_ret|apply does_Get]. }
  intros hashes _. destruct (matchHashes _ _ _) as [valid errs].
  destruct valid; [|apply finishes_failf].
  eapply finishes_bind; [apply does_Get|]. intros gs _.
  apply (finishes_steps _ anything). now apply steps_ret.
Qed.

Definition modifyReturns (r : ExtendedRequest) : bool :=
  match ExtendedRequest_PasswordModifyRequest r with Ok _ | Err _ => true | _ => false end.

Lemma finishes_Extended st r :
  (requestName r = NoticeOfPasswordModify -> modifyReturns r = true) ->
  finishes (Extended_body server st r) sameDNs.
Proof.
  intros Hr. unfold Extended_body.
  destruct (String.eqb_spec (requestName r) NoticeOfPasswordModify) as [Hn|Hn];
    [|apply (finishes_bind _ _ (fun _ => False)); [apply does_failf | intros _ []]].
  specialize (Hr Hn). apply (finishes_bind _ _ anything); [now apply steps_ret|]. intros _ _.
  apply (finishes_bind _ _ anything).
  { apply steps_wrapf, steps_lift. unfold modifyReturns in Hr. now destruct (ExtendedRequest_PasswordModifyRequest r). }
  intros q _. destruct (newPassword q) as [passwd|]; [|apply finishes_failf].
  apply (finishes_bind _ _ anything); [destruct (_ =? _)%string; [apply does_failf|now apply steps_ret]|].
  intros _ _. cbv zeta. eapply finishes_bind; [apply does_requestDN|]. intros dn _.
  eapply finishes_bind; [apply does_checkAccess|]. intros _ _.
  apply (finishes_bind _ _ anything); [destruct (DN_Equal _ _); [apply does_failf|now apply steps_ret]|].
  intros _ _. eapply finishes_bind; [apply does_getEntry|]. intros e [He <-].
  eapply finishes_bind; [apply does_tick|]. intros n _. apply (finishes_bind _ _ anything).
  { apply steps_wrapf, steps_lift. unfold ssha512Encode.
    pose proof (ssha512Generate_returns n passwd 16). now destruct (ssha512Generate n passwd 16). }
  intros hash _. eapply finishes_bind; [apply does_clone, He|]. intros l Hl.
  eapply finishes_bind; [now apply does_assign|]. intros _ _.
  eapply finishes_bind; [apply does_beginTx|]. intros tx Htx.
  eapply finishes_bind; [apply steps_wrapf, does_storeEntry; [exact Htx|exact Hl]|].
  intros tx' [H1 [k H2]]. apply (finishes_restored e); [done|]. split; [done|]. rewrite H2. cbn [app].
  apply (legal_store _ _ (mkEntry (EntryDN e) (Some k))); [|done].
  destruct He as [_ [G1 G2 G3]]. split; eauto.
Qed.

Lemma does_addMember ms m : does (addMember server ms m) anything.
Proof.
  eapply steps_bind; [apply does_requestDN|]. intros dn _.
  eapply steps_bind; [apply steps_wrapf, does_existsEntry|]. intros b _.
  destruct b; [now apply steps_ret|apply does_failf].
Qed.

Lemma canUpdateAttribute_returns k :
  match canUpdateAttribute k with Ok _ | Err _ => True | _ => False end.
Proof. unfold canUpdateAttribute. now repeat case_match. Qed.

Lemma does_addAttribute st attribute : does (addAttribute server st attribute) anything.
Proof.
  destruct st as [attrs ms]. eapply steps_bind.
  { apply steps_wrapf, (steps_lift _ _ anything).
    pose proof (canUpdateAttribute_returns (NewAttributeKey (pa_type attribute))).
    now destruct (canUpdateAttribute _). }
  intros _ _. destruct (AttributeKey_EqualFold _ _); [|now apply steps_ret].
  apply (steps_bind _ _ _ anything); [apply steps_forEach; [done|]; intros; apply does_addMember|].
  intros ms' _. now apply steps_ret.
Qed.

(** What a successful addition does: the DN was free, its parent was there. *)
Definition added (r : AddRequest) (t : Tree B) : Prop :=
  exists dn, parseDN server (ar_entry r) false = Ok dn /\ ~ present t0 dn /\ present t0 (tail dn)
             /\ effectOk (Files dn) t0 t.

Lemma finishes_Add st r :
  lacks prefixSeparator (ar_entry r) = true -> finishes (Add_body server st r) (added r).
Proof.
  intros Hslash. unfold Add_body.
  apply (finishes_bind _ _ (fun dn => goodDN server dn /\ parseDN server (ar_entry r) false = Ok dn)).
  { apply steps_wrapf, steps_lift. pose proof (parseDN_returns (ar_entry r) false).
    destruct (parseDN server (ar_entry r) false) as [dn| | |] eqn:Ed; try done.
    pose proof (parseDN_below _ _ _ Ed) as [H1 H2]. split; [|done]. split; try done.
    unfold parseDN in Ed. go_inv. destruct (IsPrefixOf _ (DN_Prefix a)); [|done].
    injection Ed as <-. now apply (ParseDN_slashFree (ar_entry r)). }
  intros dn [Hdn Hparse]. cbv zeta. eapply finishes_bind; [apply does_checkAccess|]. intros _ _.
  eapply finishes_bind; [apply steps_wrapf, does_existsEntry|]. intros ex Hex.
  apply (finishes_bind _ _ (fun _ => ~ present t0 dn)).
  { destruct ex; [apply does_failf|]. apply steps_ret. intros H%Hex. done. }
  intros _ Hnew.
  apply (finishes_bind _ _ (eq (tail dn))).
  { apply steps_lift. unfold DN_Parent. pose proof (parsed_nonempty _ (good_parsed _ _ Hdn)).
    now destruct dn. }
  intros parent <-. eapply finishes_bind; [apply steps_wrapf, does_existsEntry|]. intros pe Hpe.
  apply (finishes_bind _ _ (fun _ => present t0 (tail dn)));
    [destruct pe; [now apply steps_ret, Hpe|apply does_failf]|]. intros _ Hparent.
  apply (finishes_bind _ _ anything);
    [apply steps_forEach; [done|]; intros; apply does_addAttribute|].
  intros [attrs members] _. eapply finishes_bind; [apply steps_wrapf, does_NewRandom|]. intros uuid _.
  eapply finishes_bind; [apply does_genTimestamp|]. intros ts _. cbv zeta.
  eapply finishes_bind; [apply does_beginTx|]. intros tx Htx.
  eapply finishes_bind; [apply does_alloc|]. intros l Hl.
  apply (finishes_bind _ _ (openTx (legalTx server t0 (Files dn)))).
  { eapply steps_weaken; [apply steps_wrapf, does_storeEntry; [exact Htx|exact Hl]|].
    intros tx' [H1 [n H2]]. split; [done|]. rewrite H2.
    apply (legal_store _ _ (mkEntry dn (Some n))); [|done].
    split; [exact Hdn | right; exact Hparent | eauto]. }
  intros tx' Htx'. eapply finishes_bind.
  { apply does_members; [exact Htx'|]. intros. now apply steps_wrapf, does_membershipAdd. }
  intros tx2 Htx2. eapply finishes_weaken; [now apply (finishes_commit (Files dn))|].
  intros t Ht. now exists dn.
Qed.

(** What a successful deletion does: the DN was there, without children. *)
Definition deleted (r : DelRequest) (t : Tree B) : Prop :=
  exists dn, parseDN server r false = Ok dn /\ present t0 dn /\ childless t0 dn
             /\ effectOk (Removes dn) t0 t.

Lemma finishes_Del st r : finishes (Del_body server st r) (deleted r).
Proof.
  unfold Del_body.
  apply (finishes_bind _ _ (fun dn => parsed dn /\ parseDN server r false = Ok dn)).
  { apply steps_wrapf, steps_lift. pose proof (parseDN_returns r false).
    destruct (parseDN server r false) as [dn| | |] eqn:Ed; try done.
    split; [|done]. now apply parseDN_below in Ed as [Hp _]. }
  intros dn [Hp Hparse].
  eapply finishes_bind; [apply does_checkAccess|]. intros _ _.
  apply (finishes_bind _ _ (eq (Mem_items (DN_Prefix dn) false t0))).
  { apply steps_wrapf. intros w Hw. cbn. split; [exact Hw|]. unfold before in Hw. now rewrite Hw. }
  intros [|e es] Hes; [apply finishes_failf|].
  apply (finishes_bind _ _ (fun _ => forall x, x ∈ e :: es -> EntryDN x = dn)).
  { destruct (forallb _ _) eqn:F; [|apply does_failf]. apply steps_ret. intros x Hx.
    rewrite forallb_elem in F. specialize (F x Hx). now apply bool_decide_eq_true in F. }
  intros _ Hall. assert (present t0 dn /\ goodDN server dn) as [Hthere Hdn].
  { rewrite <- (Hall e) by (by left).
    destruct (List_member (DN_Prefix dn) false e) as (H1 & H2 & _); [rewrite Hes; by left|].
    split; [now exists (newmementry e) | apply H2]. }
  assert (childless t0 dn) as Hc.
  { intros dn' (m & Hm & <-) Ht. apply Hall. rewrite <- Hes. apply List_complete.
    - intros En. apply (parsed_nonempty _ Hp). now apply DN_Prefix_nil.
    - exact Hm.
    - rewrite (wf_filed _ _ t0_wf m Hm). cbn. rewrite <- Ht. apply child_of_prefix. }
  eapply finishes_bind; [apply does_Get|]. intros memberOf _.
  eapply finishes_bind; [apply does_Get|]. intros memberList _.
  eapply finishes_bind; [apply does_beginTx|]. intros tx [H1 H2].
  apply (finishes_bind _ _ (openTx (legalTx server t0 (Removes dn)))).
  { apply steps_wrapf. intros w Hw. unfold MemTransaction_Delete. rewrite H1. cbn.
    split; [exact Hw|]. split; [done|]. cbn. rewrite <- H2. cbn [app]. now apply legal_delete. }
  intros tx1 Htx1. eapply finishes_bind.
  { apply does_members; [exact Htx1|]. intros. eapply steps_bind; [apply steps_wrapf, does_parseDN|].
    intros gdn _. now apply steps_wrapf, does_membershipRemove. }
  intros tx2 Htx2. eapply finishes_bind.
  { apply does_members; [exact Htx2|]. intros. eapply steps_bind; [apply steps_wrapf, does_parseDN|].
    intros gdn _. now apply steps_wrapf, does_membershipRemove. }
  intros tx3 Htx3. eapply finishes_weaken; [now apply (finishes_commit (Removes dn))|].
  intros t Ht. now exists dn.
Qed.

Lemma does_memberDN attr dns val : does (memberDN server attr dns val) anything.
Proof.
  unfold memberDN. destruct (AttributeKey_EqualFold _ _); [|now apply steps_ret].
  eapply steps_bind; [apply does_requestDN|]. intros dn _. now apply steps_ret.
Qed.

Lemma does_modifyAdd attr vals m : does (modifyAdd server attr vals m) anything.
Proof.
  apply steps_forEach; [done|]. intros m' val _. destruct (contains _ _); [now apply steps_ret|].
  eapply steps_bind; [apply does_memberDN|]. intros added _. now apply steps_ret.
Qed.

Lemma does_modifyDelete attr vals m : does (modifyDelete server attr vals m) anything.
Proof.
  unfold modifyDelete. destruct vals as [|v vals].
  - apply (steps_bind _ _ _ anything); [apply steps_forEach; [done|]; intros; apply does_memberDN|].
    intros deleted _. now apply steps_ret.
  - apply (steps_bind _ _ _ anything); [|intros [newList deleted] _; now apply steps_ret].
    apply steps_forEach; [done|]. intros [newList deleted] prevVal _.
    destruct (contains _ _); [|now apply steps_ret].
    eapply steps_bind; [apply does_memberDN|]. intros d _. now apply steps_ret.
Qed.

Lemma does_modifyReplace attr vals m : does (modifyReplace server attr vals m) anything.
Proof.
  unfold modifyReplace. cbv zeta.
  apply (steps_bind _ _ _ anything).
  { apply steps_forEach; [done|]. intros. destruct (contains _ _); [now apply steps_ret|apply does_memberDN]. }
  intros added _. apply (steps_bind _ _ _ anything).
  { apply steps_forEach; [done|]. intros. destruct (contains _ _); [now apply steps_ret|apply does_memberDN]. }
  intros deleted _. now apply steps_ret.
Qed.

Lemma does_modifyChange st dn e c m ch : does (modifyChange server st dn e c m ch) anything.
Proof.
  unfold modifyChange. eapply steps_bind; [apply does_load|]. intros prev _.
  eapply steps_bind; [apply does_tick|]. intros n _. cbv zeta.
  set (attr := knownKey _ _). apply (steps_bind _ _ _ anything).
  { apply steps_wrapf, steps_lift. pose proof (canUpdateAttribute_returns attr).
    now destruct (canUpdateAttribute attr). }
  intros _ _. apply (steps_bind _ _ _ anything);
    [destruct (AttributeKey_EqualFold _ _); [apply does_failf|now apply steps_ret]|].
  intros _ _. eapply steps_bind; [apply does_checkAccess|]. intros _ _.
  apply (steps_bind _ _ _ anything).
  { destruct (AttributeKey_EqualFold _ _); [|now apply steps_ret].
    apply steps_forEach; [done|]. intros vals v _.
    eapply steps_bind; [apply does_requestDN|]. intros d _. now apply steps_ret. }
  intros vals _. destruct (_ =? _); [apply does_modifyAdd|].
  destruct (_ =? _); [apply does_modifyDelete|].
  destruct (_ =? _); [apply does_modifyReplace|now apply steps_ret].
Qed.

Lemma finishes_Modify st r : finishes (Modify_body server st r) sameDNs.
Proof.
  unfold Modify_body. eapply finishes_bind; [apply does_requestDN|]. intros dn _.
  eapply finishes_bind; [apply does_checkAccess|]. intros _ _.
  eapply finishes_bind; [apply does_getEntry|]. intros e [He _].
  apply (finishes_bind _ _ anything).
  { apply steps_lift. destruct He as [_ [[[Hn _ _] _ _] _ _]]. now destruct (EntryDN e). }
  intros c _. apply (finishes_bind _ _ anything);
    [apply steps_forEach; [done|]; intros; apply does_modifyChange|].
  intros m _. apply (finishes_bind _ _ anything).
  { apply steps_forEach; [done|]. intros [] member _.
    eapply steps_bind; [apply steps_wrapf, does_existsEntry|]. intros b _.
    destruct b; [now apply steps_ret|apply does_failf]. }
  intros _ _. apply (finishes_bind _ _ anything);
    [destruct (dropsObjectClass _); [apply does_failf|now apply steps_ret]|].
  intros _ _. eapply finishes_bind; [apply does_genTimestamp|]. intros ts _. cbv zeta.
  eapply finishes_bind; [apply does_beginTx|]. intros tx Htx.
  eapply finishes_bind; [apply does_alloc|]. intros l Hl.
  apply (finishes_bind _ _ (openTx (legalTx server t0 (Files (EntryDN e))))).
  { eapply steps_weaken; [apply steps_wrapf, does_storeEntry; [exact Htx|exact Hl]|].
    intros tx' [H1 [n H2]]. split; [done|]. rewrite H2.
    apply (legal_store _ _ (mkEntry (EntryDN e) (Some n))); [|done].
    destruct He as [_ [G1 G2 G3]]. split; eauto. }
  intros tx' Htx'. eapply finishes_bind.
  { apply does_members; [exact Htx'|]. intros. now apply steps_wrapf, does_membershipAdd. }
  intros tx2 Htx2. eapply finishes_bind.
  { apply does_members; [exact Htx2|]. intros. now apply steps_wrapf, does_membershipRemove. }
  intros tx3 Htx3. now apply (finishes_restored e).
Qed.

Lemma finishes_Compare st r : finishes (Compare_body server st r) (eq t0).
Proof.
  unfold Compare_body. cbv zeta. eapply finishes_bind; [apply does_requestDN|]. intros dn _.
  eapply finishes_bind; [apply does_checkAccess|]. intros _ _.
  eapply finishes_bind; [apply does_getEntry|]. intros e _.
  eapply finishes_bind; [apply does_Get|]. intros vs _.
  apply (finishes_steps _ anything). now apply steps_ret.
Qed.

(** A filter is evaluated to a verdict or an error. *)
Lemma applyFilter_returns bindings : forall f,
  match applyFilter bindings f with Ok _ | Err _ => True | _ => False end.
Proof.
  fix IH 1. intros [l|l|f|a|s|a|a|d|a|m]; cbn; try done.
  - induction l as [|f l IHl]; [done|]. pose proof (IH f). destruct (applyFilter bindings f) as [[]| | |]; done.
  - induction l as [|f l IHl]; [done|]. pose proof (IH f). destruct (applyFilter bindings f) as [[]| | |]; done.
  - pose proof (IH f). now destruct (applyFilter bindings f).
  - now destruct (List.find _ _) as [[]|].
  - now destruct (List.find _ _) as [[]|].
Qed.

Lemma finishes_Search st r : finishes (Search_body server st r) (eq t0).
Proof.
  unfold Search_body. eapply finishes_bind; [apply does_requestDN|]. intros base _.
  eapply finishes_bind; [apply does_checkAccess|]. intros _ _. cbv zeta.
  apply (finishes_bind _ _ anything); [apply steps_wrapf; now intros w Hw|]. intros es _.
  apply (finishes_steps _ anything), steps_forEach; [done|]. intros results e _. unfold searchEntry.
  destruct (outOfScope _ _ _); [now apply steps_ret|].
  eapply steps_bind; [apply does_load|]. intros attrs _.
  eapply steps_bind; [apply does_tick|]. intros n _. apply (steps_bind _ _ _ anything).
  { apply steps_wrapf, steps_lift. pose proof (applyFilter_returns (rangeMap n attrs) (sr_filter r)).
    now destruct (applyFilter _ _). }
  intros matched _. destruct (negb matched); [now apply steps_ret|].
  destruct (negb _); [now apply steps_ret|].
  eapply steps_bind; [apply does_tick|]. intros n2 _. now apply steps_ret.
Qed.

Lemma finishes_initialize : finishes (initialize server) (fun t => present t (baseDN server)).
Proof.
  unfold initialize. eapply finishes_bind; [apply steps_wrapf, does_existsEntry|]. intros b Hb.
  destruct b.
  { eapply finishes_weaken; [apply (finishes_steps _ anything); now apply steps_ret|].
    intros t <-. now apply Hb. }
  eapply finishes_bind; [apply steps_wrapf, does_NewRandom|]. intros uuid _.
  eapply finishes_bind; [apply does_genTimestamp|]. intros ts _. cbv zeta.
  eapply finishes_bind; [apply does_alloc|]. intros l Hl.
  eapply finishes_bind; [apply steps_wrapf, does_Begin|]. intros tx Htx.
  eapply finishes_bind; [apply steps_wrapf, does_storeEntry; [exact Htx|exact Hl]|].
  intros tx' [H1 [n H2]].
  apply (finishes_weaken _ (effectOk (Files (baseDN server)) t0)); [|intros t Ht; apply Ht; by left].
  intros w1 Hw1.
  pose proof (finishes_commit (Files (baseDN server)) tx' tt) as Hf.
  assert (openTx (legalTx server t0 (Files (baseDN server))) tx') as Hl'.
  { split; [done|]. rewrite H2. apply (legal_store _ _ (mkEntry (baseDN server) (Some n))); [|done].
    split; [exact base_good | by left | eauto]. }
  specialize (Hf Hl' w1 Hw1). unfold commitTx, wrapf, bind in Hf |- *.
  destruct (MemTransaction_Commit tx' w1) as [[]]; exact Hf.
Qed.
End Safe.
