(* ===== verification/BottinServe.v ===== *)
(** * The directory behind the server

    The theorems of the directory at the level of requests and connections: the
    requests that return and keep the directory well-formed, the two that crash
    the server. *)

From stdpp Require Import gmap.
From S2P Require Import Prelude GoStrings LdapTypes LdapPrim LdapOps LdapMessage LdapSrv.
From S2P Require Import PathMatch StoreTypes Acl GoBTree MemStore Hoare Bottin BottinFrame BottinInv BottinSafe.
From Stdlib Require Import Strings.Ascii Strings.Byte.
#[local] Open Scope Z_scope.

(** The requests that make the handler panic: credentials that are not simple,
    and a password modification whose value cannot be indexed. *)
Definition crashes (op : ProtocolOp) : bool :=
  match op with
  | OpBindRequest r => match authentication r with AuthSimple _ => false | _ => true end
  | OpExtendedRequest r => (requestName r =? NoticeOfPasswordModify)%string && negb (modifyReturns r)
  | _ => false
  end.

(** A request to add an entry whose DN holds a slash may take the key of another
    entry (see [StoreTypes.key_collision]). *)
Definition slashFreeAdd (op : ProtocolOp) : bool :=
  match op with
  | OpAddRequest r => lacks prefixSeparator (ar_entry r)
  | _ => true
  end.

Section Serve.
#[local] Set Default Proof Using "All".
Context {U : Unicode} {UL : UnicodeLaws}.
Context {B : BTree mementry mementryLess} {BL : BTreeLaws B}.
Context {C : Context} {E : Env} {EL : EnvLaws E}.
Context (server : Bottin) (base_good : goodDN server (baseDN server)).

Local Abbreviation run := (runHandler (handler server) None).

(** What a request that does not fail does to the DNs of the directory. *)
Definition requestEffect (op : ProtocolOp) (t t' : Tree B) : Prop :=
  match op with
  | OpAddRequest r => added server t r t'
  | OpDelRequest r => deleted server t r t'
  | OpModifyRequest _ | OpExtendedRequest _ => sameDNs t t'
  | OpBindRequest _ | OpSearchRequest _ | OpCompareRequest _ => t = t'
  | _ => True
  end.

Definition safeResult (op : ProtocolOp) (w : World)
    (x : outcome (State * Z * option error * list ProtocolOp) * World) : Prop :=
  exists st' code err results w', x = (Ok (st', code, err, results), w')
    /\ wellFormed server (tr w') /\ (err = None -> requestEffect op (tr w) (tr w')).

Lemma attempt_safe op st (m : Go World State) w k :
  finishes server (tr w) m (requestEffect op (tr w)) ->
  (forall s err w, exists code results, k (s, err) w = (Ok (s, code, err, results), w)) ->
  safeResult op w (bind (attempt st m) k w).
Proof.
  intros H Hk. specialize (H w eq_refl). unfold attempt, bind.
  destruct (m w) as [[s|e|p|] w']; try done.
  - destruct (Hk s None w') as (code & results & ->). destruct H. do 5 eexists. eauto.
  - destruct (Hk st (Some e) w') as (code & results & ->). do 5 eexists. split; [reflexivity|].
    split; [exact H | discriminate].
Qed.

Lemma run_safe st op w :
  wellFormed server (tr w) -> crashes op = false -> slashFreeAdd op = true ->
  safeResult op w (run st op w).
Proof.
  intros Hw Hc Hs.
  destruct op as [r| | |r| | | |r| |r| |r| | | |r| | |r| | |];
    cbn [runHandler handler LdapSrv.Bind LdapSrv.Search LdapSrv.Add LdapSrv.Del
      LdapSrv.Modify LdapSrv.Compare LdapSrv.Extended]; try (now do 5 eexists).
  - apply attempt_safe; [|intros; eauto]. apply finishes_Bind; try done.
    cbn in Hc. destruct (authentication r); eauto; done.
  - pose proof (finishes_Search server base_good (tr w) Hw st r w eq_refl) as H.
    unfold Search, bind. destruct (Search_body server st r w) as [[]]; try done;
      do 5 eexists; (split; [reflexivity|]); [destruct H; split; [done|now intros _] |
      split; [exact H | discriminate]].
  - apply attempt_safe; [|intros; eauto]. now apply finishes_Modify.
  - apply attempt_safe; [|intros; eauto]. now apply finishes_Add.
  - apply attempt_safe; [|intros; eauto]. now apply finishes_Del.
  - pose proof (finishes_Compare server base_good (tr w) Hw st r w eq_refl) as H.
    unfold Compare, bind. destruct (Compare_body server st r w) as [[]]; try done;
      do 5 eexists; (split; [reflexivity|]); [destruct H; split; [done|now intros _] |
      split; [exact H | discriminate]].
  - apply attempt_safe; [|intros; eauto]. apply finishes_Extended; try done.
    intros Hn. cbn in Hc. rewrite Hn in Hc. cbn in Hc. now destruct (modifyReturns r).
Qed.

(** C1: Every request to a well-formed directory returns and keeps it so: entries filed
    under their DN, DNs below the base, the parent of every entry present.  The
    requests left out are those that crash the server ([crashes]) and additions of
    a DN with a slash. *)
Theorem request_safe (st : State) (op : ProtocolOp) (w : World) :
  wellFormed server (tr w) -> crashes op = false -> slashFreeAdd op = true ->
  exists st' code err results w',
    run st op w = (Ok (st', code, err, results), w') /\ wellFormed server (tr w').
Proof.
  intros Hw Hc Hs. destruct (run_safe st op w Hw Hc Hs) as (st' & code & err & res & w' & H).
  do 5 eexists. split; apply H.
Qed.

(** Starting the service on a well-formed store, such as an empty one, ends;
    the store stays well-formed, and holds the base unless an error is returned. *)
Theorem initialize_safe (w : World) :
  wellFormed server (tr w) ->
  exists o w', initialize server w = (o, w') /\ wellFormed server (tr w')
    /\ match o with Ok _ => present (tr w') (baseDN server) | Err _ => True | _ => False end.
Proof.
  intros Hw. pose proof (finishes_initialize server base_good (tr w) Hw w eq_refl) as H.
  destruct (initialize server w) as [[[]|e| |] w']; try done;
    do 2 eexists; (split; [reflexivity|]); tauto.
Qed.

(** C38: What a successful request does to the set of DNs of a well-formed directory: an
    addition files its DN, which was free and below an entry, and no other; a deletion
    removes at most its DN, which had no children; the others leave the set alone.  The
    requests that crash the server and additions of a DN with a slash are left out. *)
Theorem request_effect (st : State) (op : ProtocolOp) (w : World) (st' : State) (code : Z)
    (results : list ProtocolOp) (w' : World) :
  wellFormed server (tr w) -> crashes op = false -> slashFreeAdd op = true ->
  run st op w = (Ok (st', code, None, results), w') ->
  requestEffect op (tr w) (tr w').
Proof.
  intros Hw Hc Hs H. destruct (run_safe st op w Hw Hc Hs) as (? & ? & ? & ? & ? & Hr & _ & He).
  rewrite H in Hr. injection Hr as <- <- <- <- <-. auto.
Qed.

Variable errorText : error -> string.

Lemma process_safe st m (c : Client) :
  wellFormed server (tr (world c)) ->
  crashes (protocolOp m) = false -> slashFreeAdd (protocolOp m) = true ->
  exists st' c', ProcessRequestMessage (handler server) None errorText st m c = (Ok st', c')
                 /\ wellFormed server (tr (world c')).
Proof.
  intros Hw Hc Hs.
  unfold ProcessRequestMessage. rewrite (bind_ok (registerRequest m) _ c tt _ eq_refl).
  set (c1 := mkClient _ _ _). unfold bind at 1. unfold handle.
  match goal with |- context [bind ?a ?k c1] =>
    assert (exists c2, a c1 = (Ok tt, c2) /\ world c2 = world c) as (c2 & H2 & Hw2) end.
  { destruct (protocolOp m); try (now exists c1). eexists. split; [reflexivity|].
    now destruct (GetMessageByID _ _) as [[]|]. }
  rewrite (bind_ok _ _ _ _ _ H2).
  destruct (run_safe st (protocolOp m) (world c2)) as (st' & code & err & results & w' & Hr & Hw' & _);
    [now rewrite Hw2 | done | done |].
  erewrite (bind_ok (inWorld _)) by (unfold inWorld; rewrite Hr; reflexivity).
  eexists _, _. split; [reflexivity|]. exact Hw'.
Qed.

(** C3: From a well-formed directory, a session of requests is answered to its end and
    leaves the directory well-formed, if none of the requests is one that crashes the
    server ([crashes]) or adds a DN with a slash. *)
Theorem session_safe (ms : list LDAPMessage) (st : State) (c : Client) :
  wellFormed server (tr (world c)) ->
  Forall (fun m => crashes (protocolOp m) = false /\ slashFreeAdd (protocolOp m) = true) ms ->
  exists st' c', processAll (handler server) None errorText st ms c = (Ok st', c')
                 /\ wellFormed server (tr (world c')).
Proof.
  intros Hw Hms. revert st c Hw. induction Hms as [|m ms [Hc Hs] Hms IH]; intros st c Hw;
    cbn [processAll]; [now exists st, c|].
  destruct (process_safe st m c Hw Hc Hs) as (st1 & c1 & H1 & Hw1).
  destruct (IH st1 c1 Hw1) as (st2 & c2 & H2 & Hw2).
  exists st2, c2. split; [|done]. unfold bind. now rewrite H1.
Qed.
End Serve.

(** ** Two requests that stop the server

    No function of the server recovers from a panic of a handler. *)

Section Crash.
Context {U : Unicode} {B : BTree mementry mementryLess} {C : Context} {E : Env}.
Variables (server : Bottin) (errorText : error -> string).

(** A password modification whose value is present and empty. *)
Definition emptyModify : LDAPMessage :=
  mkLDAPMessage (OpExtendedRequest (mkExtendedRequest (Some "") NoticeOfPasswordModify)) None 1.

(** A client that is not authenticated stops the server with one packet: a
    password modification with an empty value.  Its value is parsed before any
    check, and ParseTagAndLength indexes the empty buffer. *)
Theorem anonymous_crash (w : World) :
  fst (serve (handler server) None errorText None (mkConn (enc_message emptyModify) []) w)
  = Panic "index out of range".
Proof. vm_compute. reflexivity. Qed.

(** A SASL bind to an entry that exists and that the rules allow stops the
    server: the credentials are assumed to be simple. *)
Theorem sasl_bind_crash (st : State) (r : BindRequest) (sasl : SaslCredentials) (dn : DN)
    (e : Entry) (w : World) :
  authentication r = AuthSasl sasl ->
  parseDN server (br_name r) false = Ok dn ->
  ACL_Check (acl server) (State_User st) "bind" dn [] = true ->
  Mem_items (DN_Prefix dn) true (tr w) = [e] ->
  fst (runHandler (handler server) None st (OpBindRequest r) w) = Panic "interface conversion".
Proof.
  intros Ha Hd Hc He. cbn [runHandler handler LdapSrv.Bind]. unfold Bind, attempt, Bind_body.
  unfold requestDN. rewrite Hd. unfold wrapf, lift, bind. unfold checkAccess. rewrite Hc.
  unfold ret, getEntry, wrapf, Mem_List, bind. rewrite He.
  unfold AuthenticationSimple. now rewrite Ha.
Qed.
End Crash.
