(* ===== verification/BottinSpec.v ===== *)
(** * What the handlers do

    Authentication, searching, and the attributes that a modification leaves. *)

From stdpp Require Import gmap.
From S2P Require Import Prelude GoStrings LdapTypes LdapPrim LdapOps LdapSrv.
From S2P Require Import PathMatch StoreTypes Acl GoBTree MemStore Hoare Bottin BottinFrame BottinInv BottinSafe.
From Stdlib Require Import Strings.Ascii.
#[local] Open Scope Z_scope.
#[local] Set Warnings "-register-all".

(** ** Keys that extend one another *)

(** A component of the same type, whose value goes on where the other's ends. *)
Definition namesake (c d : Component) : Prop :=
  exists t, t <> "" /\ d = NewComponent (Type_ c) (Value c +:+ t).

(** A DN in the subtree of [base], or in that of a sibling of it whose name starts with
    the name of [base]. *)
Definition underNames (base dn : DN) : Prop :=
  exists above, dn = above ++ base
    \/ exists c d parent, base = c :: parent /\ namesake c d /\ dn = above ++ d :: parent.

Lemma extends_lacking c a b r s :
  lacks c a = true -> (s = "" \/ exists s', s = String c s') ->
  a +:+ r = b +:+ s -> exists t, b = a +:+ t /\ r = t +:+ s.
Proof.
  intros Ha Hs. revert b. induction a as [|x a IH]; intros b H; [by exists b|].
  cbn in Ha. apply andb_prop in Ha as [Hx Ha]. destruct b as [|y b].
  - rewrite app_String, app_Empty in H. destruct Hs as [->|[s' ->]]; [done|].
    injection H as -> _. now rewrite Ascii.eqb_refl in Hx.
  - rewrite !app_String in H. injection H as -> H. destruct (IH Ha b H) as (t & -> & ->). now exists t.
Qed.

Lemma Component_String_extends a b t :
  compLacks "="%char a -> compLacks "="%char b ->
  Component_String b = Component_String a +:+ t -> b = NewComponent (Type_ a) (Value a +:+ t).
Proof.
  intros [Ha _] [Hb Hv] H. destruct a as [at_ av], b as [bt bv]. unfold Component_String in H. cbn [Type_ Value] in *.
  rewrite !string_app_assoc, !app_String, !app_Empty in H.
  destruct (extends_lacking "="%char at_ bt (String "="%char (av +:+ t)) (String "="%char bv)) as (u & -> & E);
    [done|eauto|now symmetry|].
  destruct u as [|c u]; [|].
  - rewrite app_Empty in E. injection E as <-. now rewrite string_app_nil.
  - rewrite app_String in E. injection E as <- _. rewrite lacks_app in Hb. cbn in Hb.
    now rewrite andb_false_r in Hb.
Qed.

Lemma key_extends p q r :
  p <> [] ->
  Forall (compLacks prefixSeparator) p -> Forall (compLacks "="%char) p ->
  Forall (compLacks prefixSeparator) q -> Forall (compLacks "="%char) q ->
  Prefix_String q = Prefix_String p +:+ r ->
  exists above, q = p ++ above
    \/ exists c d parent, p = parent ++ [c] /\ namesake c d /\ q = parent ++ d :: above.
Proof.
  intros Hn Hp Hp' Hq Hq'. unfold Prefix_String. revert q r Hq Hq'.
  induction Hp as [|c p Hc Hp IH]; [done|]; intros q r Hq Hq' H.
  apply Forall_cons_1 in Hp' as [Hc' Hp'].
  assert (lacks prefixSeparator (Component_String c) = true) as Lc by now apply Component_String_lacks.
  destruct q as [|d q].
  { exfalso. change (joinComponentSlice [] prefixSeparator) with "" in H.
    destruct (joinComponentSlice (c :: p) prefixSeparator) eqn:E; [now apply joinComponents_nonempty in E|done]. }
  apply Forall_cons_1 in Hq as [Hd Hq], Hq' as [Hd' Hq'].
  assert (lacks prefixSeparator (Component_String d) = true) as Ld by now apply Component_String_lacks.
  assert (exists tail_, joinComponentSlice (d :: q) prefixSeparator = Component_String d +:+ tail_
            /\ (tail_ = "" \/ exists s, tail_ = String prefixSeparator s)
            /\ tail_ = match q with [] => "" | _ => String prefixSeparator (joinComponentSlice q prefixSeparator) end) as (tl & Ed & Ht & Hq2).
  { destruct q as [|e q].
    - exists "". rewrite string_app_nil. split; [done|]. split; [by left|done].
    - eexists. rewrite joinComponents_cons. split; [done|]. split; [eauto|done]. }
  rewrite Ed in H. destruct p as [|c2 p].
  - change (joinComponentSlice [c] prefixSeparator) with (Component_String c) in H. symmetry in H.
    destruct (extends_lacking prefixSeparator _ _ _ _ Lc Ht H) as (t & Et & _).
    apply Component_String_extends in Et; [|done..]. exists q. destruct t as [|x t].
    + left. rewrite string_app_nil in Et. subst d. now destruct c.
    + right. exists c, d, []. split; [done|]. split; [|done]. by exists (String x t).
  - rewrite joinComponents_cons, string_app_assoc, app_String in H. symmetry in H.
    destruct (extends_lacking prefixSeparator _ _ _ _ Lc Ht H) as (t & Et & Er).
    assert (t = "") as ->.
    { destruct t as [|x t]; [done|]. rewrite app_String in Er. injection Er as <- _.
      rewrite Et, lacks_app in Ld. cbn in Ld. now rewrite andb_false_r in Ld. }
    rewrite string_app_nil in Et. apply Component_String_inj in Et as ->; [|done..].
    destruct q as [|e q].
    { subst tl. discriminate. }
    rewrite app_Empty, Hq2 in Er. injection Er as Er.
    destruct (IH ltac:(done) Hp' (e :: q) r Hq Hq' (eq_sym Er)) as (above & [Ha|(c1 & d1 & par & E1 & N & E2)]); exists above.
    + left. by rewrite Ha.
    + right. exists c1, d1, (c :: par). rewrite E1, E2. split; [done|]. split; [done|done].
Qed.

Section Spec.
Context {U : Unicode} {B : BTree mementry mementryLess} {C : Context} {E : Env}.
Variable server : Bottin.

(** ** Authentication *)

Lemma matchHashes_spec hashes passwd errs :
  fst (matchHashes hashes passwd errs) = true
  <-> exists h, h ∈ hashes /\ fst (matchPassword h passwd) = true.
Proof.
  revert errs. induction hashes as [|h hashes IH]; intros errs; cbn.
  - split; [done|]. now intros [h [H%elem_of_nil _]].
  - destruct (matchPassword h passwd) as [valid err] eqn:Em. destruct valid.
    + split; [|done]. intros _. exists h. rewrite Em. split; [by left|done].
    + rewrite IH. setoid_rewrite elem_of_cons. split; [intros (x & ? & ?); eauto|].
      intros (x & [->|Hx] & Hm); [now rewrite Em in Hm|eauto].
Qed.

(** What a stored hash accepts, scheme by scheme; a hash of no known scheme accepts
    nothing. *)
Inductive passwordMatches (passwd : string) : string -> Prop :=
| matches_md5 :
    passwordMatches passwd ("{MD5}" +:+ md5Base64 passwd)
| matches_ssha256 salted :
    fst (ssha256Validate passwd ("{SSHA256}" +:+ salted)) = true ->
    passwordMatches passwd ("{SSHA256}" +:+ salted)
| matches_ssha512 salted :
    fst (ssha512Validate passwd ("{SSHA512}" +:+ salted)) = true ->
    passwordMatches passwd ("{SSHA512}" +:+ salted).

Lemma matchPassword_spec hash passwd :
  fst (matchPassword hash passwd) = true <-> passwordMatches passwd hash.
Proof.
  unfold matchPassword, parseHash. split.
  - destruct (CutPrefix hash MD5) as [h|] eqn:E1; [|destruct (CutPrefix hash SSHA256) as [h|] eqn:E2;
      [|destruct (CutPrefix hash SSHA512) as [h|] eqn:E3; [|done]]].
    + apply CutPrefix_spec in E1 as ->. cbn. intros <-%String.eqb_eq. constructor.
    + apply CutPrefix_spec in E2 as ->. cbn. now constructor.
    + apply CutPrefix_spec in E3 as ->. cbn. now constructor.
  - intros [|salted H|salted H].
    + cbn. apply String.eqb_refl.
    + exact H.
    + exact H.
Qed.

(** The attributes of an entry. *)
Definition attributesOf (w : World) (e : Entry) : Attributes := deref (heap w) (EntryAttributes e).

(** The hashes that a password is checked against: the configured one for the base,
    which has no password of its own. *)
Definition storedHashes (w : World) (dn : DN) (e : Entry) : list string :=
  if bool_decide (dn = baseDN server) then [rootPasswd server]
  else default [] (attributesOf w e !! AttrUserPassword).

(** What it takes to bind as [u]. *)
Inductive authenticates (st : State) (r : BindRequest) (w : World) (u : User) : Prop :=
| authenticates_by (e : Entry) (passwd hash : string) :
    newmementry e ∈ Ascend (tr w) ->
    parseDN server (br_name r) false = Ok (EntryDN e) ->
    ACL_Check (acl server) (State_User st) "bind" (EntryDN e) [] = true ->
    authentication r = AuthSimple passwd ->
    hash ∈ storedHashes w (EntryDN e) e ->
    passwordMatches passwd hash ->
    u = mkUser (br_name r) (default [] (attributesOf w e !! AttrMemberOf)) ->
    authenticates st r w u.

Lemma prefix_nonempty s b dn : baseDN server <> [] -> parseDN server s b = Ok dn -> DN_Prefix dn <> [].
Proof.
  intros Hb. unfold parseDN. intros H. go_inv.
  destruct (IsPrefixOf _ (DN_Prefix a)) eqn:E1.
  - injection H as <-. intros Ha. apply IsPrefixOf_spec in E1 as [q Hq]. rewrite Ha in Hq.
    symmetry in Hq. apply app_eq_nil in Hq as [Hq%DN_Prefix_nil _]. done.
  - destruct (b && _); [|done]. injection H as <-. intros Hq%DN_Prefix_nil. done.
Qed.

(** C5: Over a tree that files its entries under their DN, a simple bind succeeds
    exactly when its DN is that of an entry of the tree which the rules allow to bind,
    and one of the hashes of the entry (the configured one, for the base) accepts the
    password by its scheme.  The session then runs as the name of the request with the
    groups of the entry, and the world is unchanged. *)
Theorem Bind_spec `{!BTreeLaws B} (st : State) (r : BindRequest) (w w' : World) (u : User)
    (Hfiled : filed (tr w)) (Hbase : baseDN server <> []) :
  Bind server st r w = (Ok (Some u, None), w') <-> w' = w /\ authenticates st r w u.
Proof.
  unfold Bind, attempt, Bind_body, requestDN, wrapf, lift, bind, checkAccess. split.
  - destruct (parseDN server (br_name r) false) as [dn| | |] eqn:Ed; try done.
    destruct (ACL_Check _ _ _ dn _) eqn:Ea; [|done].
    unfold ret at 1, getEntry, wrapf, Mem_List, bind.
    destruct (Mem_items (DN_Prefix dn) true (tr w)) as [|e [|e2 es]] eqn:Ee; try done.
    apply List_exact in Ee as [He Hdn%DN_Prefix_inj]; [|now apply (prefix_nonempty (br_name r) false)|done].
    subst dn.
    unfold ret at 1. destruct (AuthenticationSimple r) as [passwd| | |] eqn:Eq; try done.
    set (hs := if DN_Equal _ (baseDN server) then _ else _).
    assert (hs w = (Ok (storedHashes w (EntryDN e) e), w)) as ->.
    { unfold hs, storedHashes, DN_Equal. case_bool_decide; [done|]. now destruct w. }
    destruct (matchHashes (storedHashes w (EntryDN e) e) passwd []) as [valid errs] eqn:Em.
    destruct valid; [|done]. unfold Get, onHeap. destruct w as [h t n]. cbn. intros [= <- <-].
    split; [done|].
    destruct (proj1 (matchHashes_spec (storedHashes (mkWorld h t n) (EntryDN e) e) passwd [])) as (hash & Hh & Hm);
      [now rewrite Em|].
    unfold AuthenticationSimple in Eq. destruct (authentication r) eqn:Er; try done.
    injection Eq as <-. apply matchPassword_spec in Hm. econstructor; done.
  - intros [-> [e passwd hash He Hd Ha Hs Hh Hm%matchPassword_spec ->]]. rewrite Hd, Ha.
    unfold ret at 1, getEntry, wrapf, Mem_List, bind.
    rewrite (proj2 (List_exact (DN_Prefix (EntryDN e)) (tr w) e
      (prefix_nonempty _ _ _ Hbase Hd) Hfiled) (conj He eq_refl)).
    unfold ret at 1, AuthenticationSimple. rewrite Hs.
    set (hs := if DN_Equal _ (baseDN server) then _ else _).
    assert (hs w = (Ok (storedHashes w (EntryDN e) e), w)) as ->.
    { unfold hs, storedHashes, DN_Equal. case_bool_decide; [done|]. now destruct w. }
    destruct (matchHashes (storedHashes w (EntryDN e) e) passwd []) as [valid errs] eqn:Em.
    assert (valid = true) as ->.
    { change valid with (fst (valid, errs)). rewrite <- Em. apply matchHashes_spec. eauto. }
    destruct w as [h t n]. reflexivity.
Qed.

(** ** Filters *)

(** No two keys are equal up to case for the same requested name. *)
Definition unambiguous (bindings : list (AttributeKey * AttributeValue)) : Prop :=
  NoDup (map fst bindings)
  /\ forall a k k', k ∈ map fst bindings -> k' ∈ map fst bindings ->
       (EqualFold a k = true -> EqualFold a k' = true -> k = k')
       /\ (EqualFold k a = true -> EqualFold k' a = true -> k = k').

Lemma find_perm {X} (f : X -> bool) l l' :
  Permutation l l' -> (forall x y, x ∈ l -> y ∈ l -> f x = true -> f y = true -> x = y) ->
  List.find f l = List.find f l'.
Proof.
  intros HP Hu. destruct (List.find f l) as [x|] eqn:E1; destruct (List.find f l') as [y|] eqn:E2; try done.
  - apply List.find_some in E1 as [H1 H2], E2 as [H3 H4]. f_equal. apply Hu; try done.
    + now apply list_elem_of_In.
    + rewrite HP. now apply list_elem_of_In.
  - apply List.find_some in E1 as [H1 H2]. apply (Permutation_in _ HP) in H1.
    now rewrite (List.find_none _ _ E2 _ H1) in H2.
  - apply List.find_some in E2 as [H1 H2]. apply (Permutation_in _ (Permutation_sym HP)) in H1.
    now rewrite (List.find_none _ _ E1 _ H1) in H2.
Qed.

Lemma elem_map_fst {X Y} (p : X * Y) l : p ∈ l -> fst p ∈ map fst l.
Proof. intros H. apply list_elem_of_fmap. eauto. Qed.

Lemma unambiguous_fst bindings (p q : AttributeKey * AttributeValue) :
  unambiguous bindings -> p ∈ bindings -> q ∈ bindings -> fst p = fst q -> p = q.
Proof.
  intros [Hn _] Hp Hq Hf. destruct p as [k v], q as [k' v']. cbn in Hf. subst k'. f_equal.
  assert (exists m : gmap AttributeKey AttributeValue, m = list_to_map bindings) as [m Em] by eauto.
  pose proof (elem_of_list_to_map_1 (M := gmap AttributeKey) bindings k v Hn Hp) as H1.
  pose proof (elem_of_list_to_map_1 (M := gmap AttributeKey) bindings k v' Hn Hq) as H2.
  congruence.
Qed.

(** The verdict of a filter does not depend on the order in which Go iterates
    over the attributes, when no two of them have the same name up to case. *)
Theorem applyFilter_order (b1 b2 : list (AttributeKey * AttributeValue)) (f : Filter) :
  Permutation b1 b2 -> unambiguous b1 -> applyFilter b1 f = applyFilter b2 f.
Proof.
  intros HP Hu. revert f. fix IH 1. intros [l|l|f|a|s|a|a|d|a|m]; cbn [applyFilter]; try reflexivity.
  - induction l as [|f l IHl]; [reflexivity|]. now rewrite IH, IHl.
  - induction l as [|f l IHl]; [reflexivity|]. now rewrite IH, IHl.
  - now rewrite IH.
  - rewrite (find_perm _ b1 b2 HP); [done|]. intros x y Hx Hy Ex Ey.
    apply (unambiguous_fst b1); try done.
    now apply (proj2 (proj2 Hu (attributeDesc a) _ _ (elem_map_fst _ _ Hx) (elem_map_fst _ _ Hy))).
  - rewrite (find_perm _ b1 b2 HP); [done|]. intros x y Hx Hy Ex Ey.
    apply (unambiguous_fst b1); try done.
    now apply (proj1 (proj2 Hu d _ _ (elem_map_fst _ _ Hx) (elem_map_fst _ _ Hy))).
Qed.

(** What a filter says of a set of attributes.  When several keys are equal up to case to
    the name that it has, Go looks at the first that it comes across: at any of them. *)
Definition sameValue (k : AttributeKey) (stored expected : string) : Prop :=
  if EqualFold k "userpassword" then stored = expected else EqualFold stored expected = true.

Inductive verdict (m : Attributes) : Filter -> bool -> Prop :=
| and_holds l : Forall (fun f => verdict m f true) l -> verdict m (FilterAnd l) true
| and_fails l : Exists (fun f => verdict m f false) l -> verdict m (FilterAnd l) false
| or_holds l : Exists (fun f => verdict m f true) l -> verdict m (FilterOr l) true
| or_fails l : Forall (fun f => verdict m f false) l -> verdict m (FilterOr l) false
| not_says f b : verdict m f b -> verdict m (FilterNot f) (negb b)
| present_holds d k vals :
    m !! k = Some vals -> EqualFold d k = true -> vals <> [] -> verdict m (FilterPresent d) true
| present_empty d k : m !! k = Some [] -> EqualFold d k = true -> verdict m (FilterPresent d) false
| present_fails d :
    (forall k vals, m !! k = Some vals -> EqualFold d k = false) -> verdict m (FilterPresent d) false
| equality_holds a k vals x :
    m !! k = Some vals -> EqualFold k (attributeDesc a) = true -> x ∈ vals ->
    sameValue k x (assertionValue a) -> verdict m (FilterEqualityMatch a) true
| equality_differs a k vals :
    m !! k = Some vals -> EqualFold k (attributeDesc a) = true ->
    (forall x, x ∈ vals -> ~ sameValue k x (assertionValue a)) -> verdict m (FilterEqualityMatch a) false
| equality_fails a :
    (forall k vals, m !! k = Some vals -> EqualFold k (attributeDesc a) = false) ->
    verdict m (FilterEqualityMatch a) false.

Lemma valueMatch_spec k x y : valueMatch k x y = true <-> sameValue k x y.
Proof.
  unfold valueMatch, sameValue, AttributeKey_EqualFold. change AttrUserPassword with "userpassword".
  destruct (EqualFold k "userpassword"); [apply String.eqb_eq|done].
Qed.

Lemma find_binding `{!EnvLaws E} n (m : Attributes) (p : AttributeKey -> bool) :
  match List.find (fun kv => p (fst kv)) (rangeMap n m) with
  | Some (k, vals) => m !! k = Some vals /\ p k = true
  | None => forall k vals, m !! k = Some vals -> p k = false
  end.
Proof.
  destruct (List.find _ _) as [[k vals]|] eqn:F.
  - apply List.find_some in F as [F1 F2]. split; [|done].
    apply elem_of_map_to_list. rewrite <- (rangeMap_all n m). by apply list_elem_of_In.
  - intros k vals H. apply (List.find_none _ _ F (k, vals)), list_elem_of_In.
    rewrite (rangeMap_all n m). now apply elem_of_map_to_list.
Qed.

Lemma applyFilter_verdict `{!EnvLaws E} n (m : Attributes) (f : Filter) (b : bool) :
  applyFilter (rangeMap n m) f = Ok b -> verdict m f b.
Proof.
  revert f b. fix IH 1. intros [l|l|f|a|s|a|a|d|a|r] b; cbn [applyFilter]; try discriminate.
  - revert b. induction l as [|f l IHl]; intros b H; [injection H as <-; by constructor|].
    destruct (applyFilter (rangeMap n m) f) as [[]| | |] eqn:Ef; cbn in H; try done.
    + apply IHl in H. apply IH in Ef. inversion H; subst; constructor; [by constructor|by right].
    + injection H as <-. constructor. left. by apply IH.
  - revert b. induction l as [|f l IHl]; intros b H; [injection H as <-; by constructor|].
    destruct (applyFilter (rangeMap n m) f) as [[]| | |] eqn:Ef; cbn in H; try done.
    + injection H as <-. constructor. left. by apply IH.
    + apply IHl in H. apply IH in Ef. inversion H; subst; constructor; [by right|by constructor].
  - destruct (applyFilter (rangeMap n m) f) as [x| | |] eqn:Ef; cbn; try done. intros [= <-].
    constructor. by apply IH.
  - pose proof (find_binding n m (fun k => EqualFold k (attributeDesc a))) as H. cbv beta in H.
    destruct (List.find _ _) as [[k vals]|]; intros [= <-]; [|by apply equality_fails].
    destruct H as [H1 H2]. destruct (existsb _ vals) eqn:Ex.
    + apply existsb_exists in Ex as (x & Hx%list_elem_of_In & Hm%valueMatch_spec). by econstructor.
    + eapply equality_differs; [done..|]. intros x Hx Hm%valueMatch_spec.
      rewrite <- not_true_iff_false in Ex. apply Ex, existsb_exists. exists x. by rewrite <- list_elem_of_In.
  - pose proof (find_binding n m (fun k => EqualFold d k)) as H. cbv beta in H.
    destruct (List.find _ _) as [[k vals]|]; intros [= <-]; [|by apply present_fails].
    destruct H as [H1 H2]. destruct vals; [by eapply present_empty|by eapply present_holds].
Qed.

(** The attributes that a request asks for: all, without a list; none, for the list that
    has only 1.1; those named, "*" being the ones of the users and "+" the others. *)
Definition operational (k : AttributeKey) : Prop :=
  exists o, o ∈ OperationalAttributes /\ EqualFold k o = true.

Definition asksFor (requests : list string) (k : AttributeKey) : Prop :=
  requests = []
  \/ requests <> ["1.1"] /\ exists q, q ∈ requests
       /\ (q = "*" /\ ~ operational k \/ q = "+" /\ operational k \/ EqualFold q k = true).

Lemma isOperational_spec k : isOperationalAttribute k = true <-> operational k.
Proof.
  unfold isOperationalAttribute, operational. rewrite existsb_exists. setoid_rewrite <- list_elem_of_In. done.
Qed.

Lemma findRequested_asks n requests k :
  findRequested n requests k = true -> exists q, q ∈ requests /\ ~ (q = "1.1" /\ n = 1)
    /\ (q = "*" /\ ~ operational k \/ q = "+" /\ operational k \/ EqualFold q k = true).
Proof.
  induction requests as [|q requests IH]; cbn [findRequested]; [done|].
  destruct ((q =? "1.1")%string && (n =? 1)) eqn:E1; [done|].
  assert (~ (q = "1.1" /\ n = 1)) as Hq by (intros [-> ->]; done).
  destruct (_ || EqualFold q k) eqn:E2.
  - intros _. exists q. split; [by left|]. split; [done|].
    apply orb_prop in E2 as [[[->%String.eqb_eq Ho%negb_true_iff]%andb_prop|[->%String.eqb_eq Ho]%andb_prop]%orb_prop|E2];
      [left|right; left|by right; right]; (split; [done|]); rewrite <- isOperational_spec; congruence.
  - intros H. destruct (IH H) as (x & Hx & H2). exists x. split; [by right|done].
Qed.

Lemma attributeRequested_asks requests k : attributeRequested requests k = true -> asksFor requests k.
Proof.
  unfold attributeRequested. destruct requests as [|q l]; [by left|].
  intros H. right. replace (0 <? len (q :: l)) with true in H by (symmetry; apply Z.ltb_lt; len_lia).
  apply findRequested_asks in H as (x & Hx & Hn & H). split; [|by exists x].
  intros E1. rewrite E1 in Hx. apply list_elem_of_singleton in Hx as ->. apply Hn. split; [done|]. by rewrite E1.
Qed.

(** ** Searching *)

(** What the search makes of an entry listed. *)
Inductive answer (st : State) (r : SearchRequest) (base : DN) (w : World) (e : Entry)
    : option SearchResultEntry -> Prop :=
| answer_scope : outOfScope (scope r) base (EntryDN e) = true -> answer st r base w e None
| answer_filter n :
    applyFilter (rangeMap n (attributesOf w e)) (sr_filter r) = Ok false -> answer st r base w e None
| answer_denied :
    ACL_Check (acl server) (State_User st) "read" (EntryDN e) [] = false -> answer st r base w e None
| answer_entry n n' :
    outOfScope (scope r) base (EntryDN e) = false ->
    applyFilter (rangeMap n (attributesOf w e)) (sr_filter r) = Ok true ->
    ACL_Check (acl server) (State_User st) "read" (EntryDN e) [] = true ->
    answer st r base w e (Some (mkSearchResultEntry (DN_String (EntryDN e))
      (resultAttributes server st (EntryDN e) (sr_attributes r) (rangeMap n' (attributesOf w e))))).

Lemma searchEntry_answer st r base results e w results' w' :
  searchEntry server st r base results e w = (Ok results', w') ->
  heap w' = heap w /\ exists a, answer st r base w e a /\ results' = results ++ option_list a.
Proof.
  unfold searchEntry. destruct (outOfScope _ _ _) eqn:Eo.
  { intros [= <- <-]. split; [done|]. exists None. split; [now apply answer_scope|].
    cbn. now rewrite app_nil_r. }
  intros H. go_inv. unfold onHeap, load in Hm. injection Hm as <- <-.
  unfold tick in Hm0. injection Hm0 as <- <-. unfold wrapf, lift in Hm1. cbn in Hm1.
  fold (attributesOf w e) in *.
  destruct (applyFilter _ (sr_filter r)) as [b| | |] eqn:Ef; try done. injection Hm1 as <- <-.
  destruct b; cbn [negb] in H.
  - destruct (ACL_Check _ _ _ _ _) eqn:Ea; cbn [negb] in H.
    + go_inv. unfold tick in Hm. injection Hm as <- <-. split; [done|].
      eexists (Some _). split; [eapply answer_entry; done|]. done.
    + injection H as <- <-. split; [done|]. exists None. split; [now apply answer_denied|].
      cbn. now rewrite app_nil_r.
  - injection H as <- <-. split; [done|]. exists None. split; [eapply answer_filter; done|].
    cbn. now rewrite app_nil_r.
Qed.

Lemma answer_heap st r base w w' e a :
  heap w' = heap w -> answer st r base w' e a -> answer st r base w e a.
Proof.
  intros Hh Ha. assert (attributesOf w' e = attributesOf w e) as E1 by (unfold attributesOf; now rewrite Hh).
  destruct Ha as [Ho|n Hf|Hd|n n' Ho Hf Hd].
  - now apply answer_scope.
  - apply (answer_filter _ _ _ _ _ n). now rewrite <- E1.
  - now apply answer_denied.
  - rewrite E1. apply (answer_entry _ _ _ _ _ n n'); try done. now rewrite <- E1.
Qed.

Lemma searchLoop_answers st r base es results w results' w' :
  forEach es results (searchEntry server st r base) w = (Ok results', w') ->
  exists answers, Forall2 (answer st r base w) es answers
                  /\ results' = results ++ concat (map option_list answers).
Proof.
  revert results w. induction es as [|e es IH]; intros results w H; cbn [forEach] in H; go_inv.
  - exists []. split; [constructor|]. cbn. now rewrite app_nil_r.
  - apply searchEntry_answer in Hm as (Hh & a0 & Ha & ->).
    destruct (IH _ _ H) as (answers & HF & ->). exists (a0 :: answers). split.
    + constructor; [done|]. eapply Forall2_impl; [exact HF|]. intros x y. now apply answer_heap.
    + cbn. now rewrite app_assoc.
Qed.

(** The entries that a search lists. *)
Definition searchScope (r : SearchRequest) (base : DN) (w : World) : list Entry :=
  Mem_items (DN_Prefix base) (scope r =? SearchRequestScopeBaseObject) (tr w).

Lemma Search_answers st r w results st' w' :
  Search server st r w = (Ok (results, st', None), w') ->
  st' = st /\ exists base answers,
    parseDN server (baseObject r) true = Ok base
    /\ ACL_Check (acl server) (State_User st) "read" base [] = true
    /\ Forall2 (answer st r base w) (searchScope r base w) answers
    /\ results = concat (map option_list answers).
Proof.
  unfold Search. destruct (Search_body server st r w) as [[res|e| |] w1] eqn:H; try done.
  intros [= -> <- <-]. split; [done|]. unfold Search_body, requestDN in H. go_inv.
  unfold lift in Hm. injection Hm as Hd <-.
  unfold checkAccess in Hm0. destruct (ACL_Check _ _ _ _ _) eqn:Ea; [|done]. injection Hm0 as _ <-.
  unfold Mem_List in Hm1. injection Hm1 as <- <-.
  apply searchLoop_answers in H as (answers & HF & ->). exists a, answers. done.
Qed.

Lemma answers_elem st r base w es answers res :
  Forall2 (answer st r base w) es answers -> res ∈ concat (map option_list answers) ->
  exists e, e ∈ es /\ answer st r base w e (Some res).
Proof.
  induction 1 as [|e a es answers Ha HF IH]; cbn; [now intros H%elem_of_nil|].
  intros [Hr|Hr]%elem_of_app.
  - destruct a as [x|]; cbn in Hr; [|now apply elem_of_nil in Hr].
    apply list_elem_of_singleton in Hr as ->. exists e. split; [by left|done].
  - destruct (IH Hr) as (e' & He & Hx). exists e'. split; [by right|done].
Qed.

Lemma resultAttributes_elem `{!EnvLaws E} st dn requests n (attrs : Attributes) k v :
  mkPartialAttribute k v ∈ resultAttributes server st dn requests (rangeMap n attrs)
  <-> attrs !! k = Some v /\ attributeRequested requests k = true
      /\ ACL_Check (acl server) (State_User st) "read" dn [k] = true.
Proof.
  unfold resultAttributes. rewrite list_elem_of_fmap. setoid_rewrite list_elem_of_In.
  setoid_rewrite List.filter_In. setoid_rewrite <- list_elem_of_In.
  setoid_rewrite (rangeMap_all n attrs). split.
  - intros ([k' v'] & [= -> ->] & Hm & [H1 H2]%andb_prop). split; [now apply elem_of_map_to_list | done].
  - intros (Hm & H1 & H2). exists (k, v). split; [done|].
    split; [now apply elem_of_map_to_list | now apply andb_true_intro].
Qed.

(** A search whose scope is the base object never returns anything: the only
    entry that it lists is the base, which it skips. *)
Theorem Search_base_empty `{!BTreeLaws B} (st st' : State) (r : SearchRequest) (w w' : World)
    (results : list SearchResultEntry) :
  filed (tr w) -> scope r = SearchRequestScopeBaseObject ->
  Search server st r w = (Ok (results, st', None), w') -> results = [].
Proof.
  intros Hfiled Hs H. apply Search_answers in H as (-> & base & answers & Hb & _ & HF & ->).
  unfold searchScope in HF. rewrite Hs in HF. cbn in HF.
  assert (forall e, e ∈ Mem_items (DN_Prefix base) true (tr w) -> EntryDN e = base) as Hall.
  { intros e He. unfold Mem_items in He. rewrite iterate_exact in He. cbn [app] in He.
    destruct (list_find _ _) as [[i m]|] eqn:F; [|now apply elem_of_nil in He].
    apply list_elem_of_singleton in He as ->. apply list_find_Some in F as (Hl & Hp & _).
    apply list_elem_of_lookup_2 in Hl. rewrite AscendRange_Ascend in Hl.
    apply list_elem_of_filter in Hl as [_ Hl]. rewrite (Hfiled m Hl) in Hp.
    now apply DN_Prefix_inj. }
  induction HF as [|e a es answers Ha HF IH]; [done|]. cbn. rewrite IH.
  - inversion Ha as [| | |n n' Ho]; [done..|]. subst. unfold outOfScope in Ho. rewrite Hs in Ho. cbn in Ho.
    rewrite (Hall e) in Ho by (by left). unfold DN_Equal in Ho.
    now rewrite bool_decide_eq_true_2 in Ho.
  - intros e' He'. apply Hall. by right.
Qed.
(** A search never lists outside of the names of its base. *)
Lemma searchScope_under `{UL : !UnicodeLaws} `{!BTreeLaws B} (r : SearchRequest) (base : DN) (w : World) (e : Entry) :
  wellFormed server (tr w) -> goodDN server (baseDN server) ->
  lacks prefixSeparator (baseObject r) = true -> parseDN server (baseObject r) true = Ok base ->
  e ∈ searchScope r base w -> newmementry e ∈ Ascend (tr w) /\ underNames base (EntryDN e).
Proof.
  intros Hw Hgood Hsep Hb He.
  assert (parsed base /\ slashFree base) as [Hpb Hsb].
  { unfold parseDN in Hb. go_inv. destruct (IsPrefixOf _ (DN_Prefix a)); [injection Hb as <-|].
    - split; [by eapply ParseDN_parsed|by eapply ParseDN_slashFree].
    - destruct (true && _); [|done]. injection Hb as <-. by destruct Hgood. }
  assert (exists m r0, m ∈ Ascend (tr w) /\ entry m = e /\ key m = Prefix_String (DN_Prefix base) +:+ r0) as (m & r0 & Hm & <- & Hk).
  { unfold searchScope in He. destruct (_ =? _).
    - pose proof (List_exact_length (DN_Prefix base) (tr w)) as [El|[x El]]; rewrite El in He; [by apply elem_of_nil in He|].
      apply list_elem_of_singleton in He as ->.
      apply List_exact in El as [H1 H2]; [|by intros Hn%DN_Prefix_nil; destruct Hpb|apply Hw].
      exists (newmementry x), "". split; [done|]. split; [done|]. rewrite string_app_nil, <- H2. done.
    - apply List_range in He as (m & r0 & H1 & H2 & H3 & _); [by exists m, r0|].
      intros Hn%DN_Prefix_nil. by destruct Hpb. }
  pose proof (wf_filed _ _ Hw m Hm) as Ef. split; [by rewrite <- Ef|].
  destruct (entry_good _ _ _ (wf_entries _ _ Hw m Hm)) as [Hp Hs _].
  rewrite Ef in Hk. change (key (newmementry (entry m))) with (Prefix_String (DN_Prefix (EntryDN (entry m)))) in Hk.
  apply key_extends in Hk as (above & [Ha|(c & d & parent & E1 & N & E2)]);
    [| |by intros Hn%DN_Prefix_nil; destruct Hpb|by apply Forall_DN_Prefix|apply Forall_DN_Prefix, canonical_all_equals, Hpb
     |by apply Forall_DN_Prefix|apply Forall_DN_Prefix, canonical_all_equals, Hp].
  - exists (reverse above). left. apply (f_equal reverse) in Ha. unfold DN_Prefix in Ha.
    by rewrite reverse_app, !reverse_involutive in Ha.
  - exists (reverse above). right. exists c, d, (reverse parent). apply (f_equal reverse) in E1, E2. unfold DN_Prefix in *.
    rewrite reverse_involutive, reverse_app in E1.
    rewrite reverse_involutive, reverse_app, reverse_cons, <- app_assoc in E2. done.
Qed.

(** C6: A search of a well-formed directory, from a base without slashes, discloses only
    what the rules allow: each result is an entry of the tree whose DN is in the subtree
    of the base, or of a sibling whose name starts with the name of the base, and at one
    level below the base if the scope is a single level (the scope of the base alone gives
    nothing); the user may read it; the filter holds of its attributes; and the attributes
    of the result are stored ones with their values, asked for by the request, that the
    user may read. *)
Theorem Search_sound `{UL : !UnicodeLaws} `{!BTreeLaws B} `{!EnvLaws E} (st st' : State) (r : SearchRequest)
    (w w' : World) (results : list SearchResultEntry) (res : SearchResultEntry) :
  wellFormed server (tr w) -> goodDN server (baseDN server) -> lacks prefixSeparator (baseObject r) = true ->
  Search server st r w = (Ok (results, st', None), w') -> res ∈ results ->
  exists base e,
    parseDN server (baseObject r) true = Ok base
    /\ newmementry e ∈ Ascend (tr w) /\ objectName res = DN_String (EntryDN e)
    /\ underNames base (EntryDN e) /\ scope r <> SearchRequestScopeBaseObject
    /\ (scope r = SearchRequestSingleLevel -> length (EntryDN e) = S (length base))
    /\ ACL_Check (acl server) (State_User st) "read" (EntryDN e) [] = true
    /\ verdict (attributesOf w e) (sr_filter r) true
    /\ forall k v, mkPartialAttribute k v ∈ sre_attributes res ->
         attributesOf w e !! k = Some v /\ asksFor (sr_attributes r) k
         /\ ACL_Check (acl server) (State_User st) "read" (EntryDN e) [k] = true.
Proof.
  intros Hw Hgood Hsep H Hres.
  assert (scope r <> SearchRequestScopeBaseObject) as Hscope.
  { intros Hs. pose proof (Search_base_empty _ _ _ _ _ _ (wf_filed _ _ Hw) Hs H) as ->. by apply elem_of_nil in Hres. }
  apply Search_answers in H as (-> & base & answers & Hb & _ & HF & ->).
  destruct (answers_elem _ _ _ _ _ _ _ HF Hres) as (e & He & Ha).
  destruct (searchScope_under r base w e Hw Hgood Hsep Hb He) as [Hin Hunder].
  inversion Ha as [| | |n n' Ho Hf Hr Heq]. subst res. exists base, e.
  do 5 (split; [done|]). split; [|split; [done|split; [by eapply applyFilter_verdict|]]].
  - intros Hs. unfold outOfScope in Ho. rewrite Hs in Ho. cbn in Ho.
    apply negb_false_iff, Z.eqb_eq in Ho. unfold DN_Level, len in Ho. lia.
  - intros k v (H1 & H2 & H3)%resultAttributes_elem. split; [done|]. split; [by apply attributeRequested_asks|done].
Qed.

(** A search misses nothing: an entry of the listing that is in scope, readable
    and matches the filter, in whatever order its attributes are visited, is
    returned with all its attributes that were asked for and are readable. *)
Theorem Search_complete `{!EnvLaws E} (st st' : State) (r : SearchRequest) (w w' : World)
    (results : list SearchResultEntry) (base : DN) (e : Entry) :
  Search server st r w = (Ok (results, st', None), w') ->
  parseDN server (baseObject r) true = Ok base -> e ∈ searchScope r base w ->
  outOfScope (scope r) base (EntryDN e) = false ->
  ACL_Check (acl server) (State_User st) "read" (EntryDN e) [] = true ->
  (forall n, applyFilter (rangeMap n (attributesOf w e)) (sr_filter r) = Ok true) ->
  exists res, res ∈ results /\ objectName res = DN_String (EntryDN e)
    /\ forall k v, attributesOf w e !! k = Some v ->
         attributeRequested (sr_attributes r) k = true ->
         ACL_Check (acl server) (State_User st) "read" (EntryDN e) [k] = true ->
         mkPartialAttribute k v ∈ sre_attributes res.
Proof.
  intros H Hb He Ho Ha Hf. apply Search_answers in H as (-> & base' & answers & Hb' & _ & HF & ->).
  rewrite Hb in Hb'. injection Hb' as <-.
  revert He. induction HF as [|e' a es answers Hans HF IH]; [now intros He%elem_of_nil|].
  intros [<-|He]%elem_of_cons.
  - inversion Hans as [Hx|n Hx|Hx|n n' H1 H2 H3 Heq]; subst; try congruence.
    eexists. split; [cbn; by left|]. split; [done|]. cbn. intros k v Hk Hq Hr.
    now apply resultAttributes_elem.
  - destruct (IH He) as (res & Hr & Hx). exists res. split; [|done]. cbn.
    apply elem_of_app. by right.
Qed.

End Spec.
