(* ===== verification/BottinModify.v ===== *)
(** * What a modification keeps

    A modification stores a new entry made of the attributes that it changed: the
    attributes that the request does not name are lost ([Modify_forgets]). *)

From stdpp Require Import gmap.
From S2P Require Import Prelude GoStrings LdapTypes LdapPrim LdapOps LdapSrv.
From S2P Require Import PathMatch StoreTypes Acl GoBTree MemStore Hoare Bottin BottinFrame BottinInv BottinSafe BottinSpec.
From Stdlib Require Import Strings.Ascii.
#[local] Open Scope Z_scope.

(** A loop that succeeds, with an invariant. *)
Lemma forEach_ok {W A X} (I : X -> Prop) (l : list A) (x y : X) (body : X -> A -> Go W X) w w' :
  I x -> (forall x a w y w', a ∈ l -> I x -> body x a w = (Ok y, w') -> I y) ->
  forEach l x body w = (Ok y, w') -> I y.
Proof.
  intros Hx Hb. revert x w Hx. induction l as [|a l IH]; intros x w Hx H; cbn [forEach] in H; go_inv.
  - done.
  - eapply (IH ltac:(intros; eapply Hb; [by right|..]; done)); [|exact H].
    eapply Hb; [by left | exact Hx | exact Hm].
Qed.

Section Modify.
Context {U : Unicode} {B : BTree mementry mementryLess} {C : Context} {E : Env}.
Variable server : Bottin.

(** The keys that a change may resolve to. *)
Definition namesKey (c : ModifyRequestChange) (k : AttributeKey) : Prop :=
  k = NewAttributeKey (pa_type (modification c))
  \/ EqualFold (NewAttributeKey (pa_type (modification c))) k = true.

(** None of them is the member attribute, up to case. *)
Definition notMember (c : ModifyRequestChange) : Prop :=
  forall k, namesKey c k -> AttributeKey_EqualFold k AttrMember = false.

Lemma knownKey_names c bindings :
  namesKey c (knownKey bindings (NewAttributeKey (pa_type (modification c)))).
Proof.
  unfold knownKey. destruct (List.find _ bindings) as [[k v]|] eqn:F; [|by left].
  apply List.find_some in F as [_ F]. by right.
Qed.

(** Only one key differs, and no member is added or removed. *)
Definition changesOnly (attr : AttributeKey) (m m' : Modification) : Prop :=
  (forall k, k <> attr -> attrs m' !! k = attrs m !! k)
  /\ addMembers m' = addMembers m /\ delMembers m' = delMembers m.

Lemma memberDN_other attr dns val w dns' w' :
  AttributeKey_EqualFold attr AttrMember = false ->
  memberDN server attr dns val w = (Ok dns', w') -> dns' = dns.
Proof. unfold memberDN. intros ->. now intros [= <- _]. Qed.

Lemma insert_changesOnly attr v m m1 :
  changesOnly attr m m1 ->
  changesOnly attr m (mkModification (<[attr := v]> (attrs m1)) (addMembers m1) (delMembers m1)).
Proof.
  intros (H1 & H2 & H3). split; [|done]. intros k Hk. cbn [attrs].
  etrans; [apply lookup_insert_ne; congruence | auto].
Qed.

Lemma modifyAdd_only attr vals m m' w w' :
  AttributeKey_EqualFold attr AttrMember = false ->
  modifyAdd server attr vals m w = (Ok m', w') -> changesOnly attr m m'.
Proof.
  intros Hn. apply (forEach_ok (changesOnly attr m)); [done|].
  intros x val w1 y w2 _ Hx H. destruct (contains _ _); go_inv; [done|].
  apply memberDN_other in Hm as ->; [|done]. now apply insert_changesOnly.
Qed.

Lemma modifyDelete_only attr vals m m' w w' :
  AttributeKey_EqualFold attr AttrMember = false ->
  modifyDelete server attr vals m w = (Ok m', w') -> changesOnly attr m m'.
Proof.
  intros Hn H. unfold modifyDelete in H. destruct vals as [|v vals]; go_inv.
  - apply (forEach_ok (eq (delMembers m))) in Hm as <-; [now apply insert_changesOnly | done |].
    intros x val w1 y w2 _ -> Hv. now apply memberDN_other in Hv.
  - destruct a as [newList deleted]. go_inv.
    apply (forEach_ok (fun x => snd x = delMembers m)) in Hm; [|done|].
    + cbn in Hm. subst deleted. now apply insert_changesOnly.
    + intros [l d] val w1 y w2 _ Hd Hv. cbn in Hd. subst d. destruct (contains _ _); go_inv; [|done].
      now apply memberDN_other in Hm0.
Qed.

Lemma modifyReplace_only attr vals m m' w w' :
  AttributeKey_EqualFold attr AttrMember = false ->
  modifyReplace server attr vals m w = (Ok m', w') -> changesOnly attr m m'.
Proof.
  intros Hn H. unfold modifyReplace in H. go_inv.
  apply (forEach_ok (eq (addMembers m))) in Hm as <-; [| done |].
  - apply (forEach_ok (eq (delMembers m))) in Hm0 as <-; [now apply insert_changesOnly | done |].
    intros x val w1 y w2 _ -> Hv. destruct (contains _ _); [now go_inv|]. now apply memberDN_other in Hv.
  - intros x val w1 y w2 _ -> Hv. destruct (contains _ _); [now go_inv|]. now apply memberDN_other in Hv.
Qed.

Lemma modifyChange_only st dn e c m ch m' w w' :
  notMember ch -> modifyChange server st dn e c m ch w = (Ok m', w') ->
  exists attr, namesKey ch attr /\ changesOnly attr m m'.
Proof.
  intros Hn H. unfold modifyChange in H. go_inv.
  exists (knownKey (rangeMap a0 a) (NewAttributeKey (pa_type (modification ch)))).
  pose proof (knownKey_names ch (rangeMap a0 a)) as Hk.
  set (attr := knownKey _ _) in *. split; [done|]. specialize (Hn attr Hk).
  set (m1 := match attrs m !! attr with Some _ => m | None => _ end) in H.
  assert (changesOnly attr m m1) as (H1 & H2 & H3).
  { unfold m1. destruct (attrs m !! attr); [done|]. destruct (a !! attr); [|done].
    now apply insert_changesOnly. }
  assert (forall m2, changesOnly attr m1 m2 -> changesOnly attr m m2) as Htrans.
  { intros m2 (G1 & G2 & G3). split; [|split; congruence]. intros k Hk'. rewrite G1, H1; done. }
  destruct (_ =? _); [apply Htrans; eapply modifyAdd_only; [exact Hn|exact H]|].
  destruct (_ =? _); [apply Htrans; eapply modifyDelete_only; [exact Hn|exact H]|].
  destruct (_ =? _); [apply Htrans; eapply modifyReplace_only; [exact Hn|exact H]|].
  now go_inv.
Qed.

(** ** The transaction of a modification without members *)

Lemma NewEntry_eval c rest n a h :
  h !! n = Some a ->
  NewEntry (c :: rest) (Some n) h
  = (Ok (mkEntry (c :: rest) (Some (length h))),
     h ++ [<[NewAttributeKey (Type_ c) := [Value c]]> a]).
Proof.
  intros Ha. cbv beta iota zeta delta [NewEntry clone bind load alloc assign modify ret].
  assert (deref h (Some n) = a) as -> by (unfold deref; now rewrite Ha).
  f_equal. etrans; [|apply (alter_app_r _ h [a] 0)]. now rewrite Nat.add_0_r.
Qed.

Lemma storeEntry_eval tx dn c rest n a w :
  committed tx = false -> dn = c :: rest -> heap w !! n = Some a ->
  storeEntry tx dn (Some n) w
  = (Ok (mkTransaction false
           (changes tx ++ [mkchange (newmementry (mkEntry dn (Some (length (heap w))))) changekindStore])),
     mkWorld (heap w ++ [<[NewAttributeKey (Type_ c) := [Value c]]> a]) (tr w) (ticks w)).
Proof.
  intros Ht -> Ha. unfold storeEntry, onHeap, bind. rewrite (NewEntry_eval c rest n a) by done.
  unfold MemTransaction_Store. now rewrite Ht.
Qed.

Lemma modifyLoop_names st dn e c chs m w m' w' :
  Forall notMember chs ->
  forEach chs m (modifyChange server st dn e c) w = (Ok m', w') ->
  addMembers m' = addMembers m /\ delMembers m' = delMembers m
  /\ forall k, is_Some (attrs m' !! k) ->
       is_Some (attrs m !! k) \/ exists ch, ch ∈ chs /\ namesKey ch k.
Proof.
  intros Hn. apply (forEach_ok (fun x => addMembers x = addMembers m /\ delMembers x = delMembers m
    /\ forall k, is_Some (attrs x !! k) -> is_Some (attrs m !! k) \/ exists ch, ch ∈ chs /\ namesKey ch k)).
  - auto.
  - intros x ch w1 y w2 Hch (H1 & H2 & H3) H. rewrite Forall_forall in Hn.
    apply modifyChange_only in H as (attr & Ha & H4 & H5 & H6); [|now apply Hn].
    split; [congruence|]. split; [congruence|]. intros k Hk.
    destruct (decide (k = attr)) as [->|Hka]; [eauto|]. rewrite H4 in Hk by done. auto.
Qed.

Lemma keeps_ok {A} (I : World -> World -> Prop) P (m : Go World A) w a w' :
  keeps I P m -> m w = (Ok a, w') -> I w w'.
Proof. intros H Hm. destruct (H w) as [H1 _]. now rewrite Hm in H1. Qed.

(** A modification without members ends with one change: the new entry. *)
Lemma Modify_body_inv st r w st' w' :
  Forall notMember (LdapTypes.changes r) ->
  Modify_body server st r w = (Ok st', w') ->
  exists dn prevEntry c rest m ts w1,
    parseDN server (mr_object r) false = Ok dn
    /\ getEntry dn w = (Ok prevEntry, w) /\ EntryDN prevEntry = c :: rest
    /\ (forall k, is_Some (attrs m !! k) -> exists ch, ch ∈ LdapTypes.changes r /\ namesKey ch k)
    /\ tr w1 = tr w
    /\ heap w' = heap w1 ++ [<[NewAttributeKey (Type_ c) := [Value c]]>
                              (<[AttrModifyTimestamp := [ts]]>
                              (<[AttrModifiersName := [user (State_User st)]]> (attrs m)))]
    /\ tr w' = ReplaceOrInsert (newmementry (mkEntry (EntryDN prevEntry) (Some (length (heap w1))))) (tr w1).
Proof.
  intros Hn H. unfold Modify_body in H. go_inv. rename a into dn.
  assert (parseDN server (mr_object r) false = Ok dn /\ s = w) as [Hd ->].
  { unfold requestDN in Hm. go_inv. unfold lift in Hm. now injection Hm as -> ->. }
  unfold checkAccess in Hm0. destruct (ACL_Check _ _ _ dn _); [|done]. injection Hm0 as _ <-.
  rename a1 into prevEntry.
  assert (s1 = w) as ->.
  { unfold getEntry in Hm1. go_inv. unfold Mem_List in Hm0. injection Hm0 as _ <-.
    destruct a as [|? [|]]; try done. now injection Hm1 as _ <-. }
  destruct (EntryDN prevEntry) as [|c rest] eqn:Edn; [done|]. injection Hm2 as <- <-.
  pose proof (modifyLoop_names _ _ _ _ _ _ _ _ _ Hn Hm3) as (Ha & Hdl & Hk). cbn in Ha, Hdl, Hk.
  rewrite Ha, Hdl in *. cbn [forEach] in *.
  apply (keeps_ok sameTree coded) in Hm3;
    [|apply keeps_forEach; [apply _ | intros; apply keeps_modifyChange]].
  go_inv. destruct (dropsObjectClass _); [done|]. injection Hm5 as _ <-.
  apply (keeps_ok sameStore coded) in Hm6; [|unfold genTimestamp; keeps_auto].
  apply (keeps_ok sameStore coded) in Hm7 as Hb; [|apply keeps_beginTx].
  assert (committed a7 = false /\ changes a7 = []) as [Hc1 Hc2].
  { unfold beginTx, Mem_Begin in Hm7. now go_inv. }
  unfold onHeap, alloc in Hm8. injection Hm8 as <- <-.
  erewrite storeEntry_eval in Hm9; [ | done | done | apply list_lookup_middle; reflexivity].
  injection Hm9 as <- <-.
  unfold commitTx, MemTransaction_Commit in Hm12. go_inv.
  apply (keeps_ok sameStore anyError) in Hm0; [|apply keeps_checkContext].
  cbn [committed changes] in Hm12. go_inv. unfold modify in Hm2. injection Hm2 as _ <-.
  exists dn, prevEntry, c, rest, a3, a6,
    (mkWorld (heap s7 ++ [<[AttrModifyTimestamp := [a6]]>
       (<[AttrModifiersName := [user (State_User st)]]> (attrs a3))]) (tr w) (ticks s7)).
  unfold sameTree, sameStore in *. destruct Hm0 as [Hh Ht], Hm6 as [_ Ht6], Hb as [_ Ht7], Hm3 as [Ht3 _].
  cbn [heap tr] in *. do 3 (split; [done|]). split; [|split; [done|]].
  - intros k Hx. destruct (Hk k Hx) as [[v Hv]|Hx']; [|done]. discriminate Hv.
  - split; [exact Hh|]. rewrite Edn, Hc2, Ht, Ht7, Ht6, Ht3. reflexivity.
Qed.

(** A modification keeps only what it names: when it does not touch members,
    the entry it leaves has no attribute other than those that its changes name,
    the one of the DN and the two of the modification.  The attributes it does not
    name, such as the password or the object classes, are lost. *)
Theorem Modify_forgets {UL : UnicodeLaws} {BL : BTreeLaws B} {EL : EnvLaws E}
    (st st' : State) (r : ModifyRequest) (w w' : World) :
  goodDN server (baseDN server) -> wellFormed server (tr w) ->
  Forall notMember (LdapTypes.changes r) ->
  Modify server st r w = (Ok (st', None), w') ->
  exists c rest e,
    parseDN server (mr_object r) false = Ok (c :: rest)
    /\ Mem_items (DN_Prefix (c :: rest)) true (tr w') = [e]
    /\ forall k, is_Some (attributesOf w' e !! k) ->
         k = NewAttributeKey (Type_ c) \/ k = AttrModifiersName \/ k = AttrModifyTimestamp
         \/ exists ch, ch ∈ LdapTypes.changes r /\ namesKey ch k.
Proof.
  intros Hbase Hw Hn H. unfold Modify, attempt in H.
  destruct (Modify_body server st r w) as [[s| | |] w1] eqn:Hb; try done. injection H as -> ->.
  apply Modify_body_inv in Hb as (dn & pe & c & rest & m & ts & w1 & Hd & Hg & Edn & Hk & Ht1 & Hh & Ht);
    [|done].
  pose proof (does_getEntry server Hbase (tr w) Hw dn w eq_refl) as G. rewrite Hg in G.
  destruct G as (_ & [_ [G1 G2 G3]] & <-). rewrite Edn in *.
  exists c, rest, (mkEntry (c :: rest) (Some (length (heap w1)))). split; [done|]. split.
  - rewrite Ht, Ht1. apply List_exact; [| | split; [apply Ascend_Insert; by left | done]].
    + intros Hx%DN_Prefix_nil. done.
    + apply (insert_wf server); [done|]. split; [done|done|eauto].
  - intros k. unfold attributesOf. cbn [EntryAttributes]. rewrite Hh, deref_last. intros Hx.
    destruct (decide (k = NewAttributeKey (Type_ c))) as [->|N1]; [by left|].
    destruct (decide (k = AttrModifyTimestamp)) as [->|N2]; [auto|].
    destruct (decide (k = AttrModifiersName)) as [->|N3]; [auto|].
    rewrite !attr_ne in Hx by congruence. auto.
Qed.
End Modify.
