(* ===== verification/BottinExamples.v ===== *)
(** * A directory, and what goes wrong in it

    A concrete environment, a small directory built by the handlers themselves,
    the scenarios in which the directory does not do what it means to, and the
    witnesses of the theorems about the handlers. *)

From stdpp Require Import gmap.
From S2P Require Import Prelude GoStrings LdapTypes LdapPrim LdapOps LdapMessage LdapSrv.
From S2P Require Import PathMatch StoreTypes Acl GoBTree MemStore Hoare Bottin BottinFrame BottinInv BottinSafe.
From S2P Require Import BottinServe BottinSpec BottinModify.
From Stdlib Require Import Strings.Ascii Strings.Byte.
#[local] Open Scope Z_scope.

#[local] Existing Instances asciiOnly listTree listTree_laws asciiOnly_laws.

(** ** The environment *)

#[export] Instance sampleEnv : Env := {|
  uuidNewRandom := fun n => Ok "00000000-0000-4000-8000-000000000000";
  nowFormat := fun n => "20240101000000Z";
  ssha512Generate := fun n passwd size => Ok (SSHA512 +:+ passwd);
  ssha512Validate := fun passwd hash => ((hash =? SSHA512 +:+ passwd)%string, None);
  ssha256Validate := fun passwd hash => ((hash =? SSHA256 +:+ passwd)%string, None);
  md5Base64 := fun passwd => passwd;
  rangeMap := fun n m => map_to_list m
|}.

#[export] Instance sampleEnv_laws : EnvLaws sampleEnv.
Proof. split; done. Qed.

(** A context cancelled when it is asked for the [n]-th time, and one never
    cancelled. *)
Definition cancelledAt (k : nat) : Context :=
  {| ctxErr := fun n => if Nat.eqb n k then Some (PlainError "context canceled") else None |}.

Definition sampleServer : Bottin :=
  mkBottin [NewComponent "dc" "teapot"] "{SSHA512}secret"
    (match parseACL ["*::bind:*:*"; "dc=teapot::*:*:*"; "*::read:*:* !userpassword"] with
     | Ok acl => acl | _ => [] end).

Definition rootUser : State := Some (mkUser "dc=teapot" []).

Local Abbreviation run := (runHandler (handler (C := neverCancelled) sampleServer) None).

Definition after (ops : list ProtocolOp) (w : World) : World :=
  fold_left (fun w op => snd (runHandler (handler (C := neverCancelled) sampleServer) None rootUser op w)) ops w.

Definition addOp (dn : string) (attributes : list (string * list string)) : ProtocolOp :=
  OpAddRequest (mkAddRequest dn (map (fun '(k, vs) => mkPartialAttribute k vs) attributes)).

Definition emptyWorld0 : World := mkWorld [] (NewG : Tree listTree) 0.

(** The base, two organisational units whose names share a prefix, and a user. *)
Definition sampleOps : list ProtocolOp :=
  [addOp "ou=users,dc=teapot" []; addOp "ou=users2,dc=teapot" [];
   addOp "cn=alice,dc=teapot" [("userPassword", ["{SSHA512}pw"]); ("mail", ["a@teapot"])]].

Definition started : World := snd (initialize (C := neverCancelled) sampleServer emptyWorld0).

Definition sampleWorld : World := Eval vm_compute in after sampleOps started.

Lemma sampleWorld_built : after sampleOps started = sampleWorld.
Proof. eval_refl. Qed.

Definition aliceDN : DN := [NewComponent "cn" "alice"; NewComponent "dc" "teapot"].

(** The attribute of an entry, by DN. *)
Definition attributeOf (w : World) (dn : DN) (k : AttributeKey) : option AttributeValue :=
  match Mem_items (DN_Prefix dn) true (tr w) with
  | [e] => attributesOf w e !! k
  | _ => None
  end.

Definition dns (w : World) : list string := map (fun m => DN_String (EntryDN (entry m))) (Ascend (tr w)).

Example sampleWorld_dns :
  dns sampleWorld = ["dc=teapot"; "cn=alice,dc=teapot"; "ou=users,dc=teapot"; "ou=users2,dc=teapot"].
Proof. eval_refl. Qed.

Example sampleWorld_alice : attributeOf sampleWorld aliceDN "mail" = Some ["a@teapot"].
Proof. eval_refl. Qed.

(** ** What goes wrong

    Each scenario is a request of the root user on a small directory. *)

Definition groupOp (name : string) : ProtocolOp :=
  addOp (name +:+ ",dc=teapot") [("member", ["cn=alice,dc=teapot"])].

Definition modifyOp (dn attr : string) (op : ENUMERATED) (vals : list string) : ProtocolOp :=
  OpModifyRequest (mkModifyRequest dn [mkModifyRequestChange (mkPartialAttribute attr vals) op]).

(** The request succeeds, with these entries. *)
Definition succeeds (op : ProtocolOp) (w : World) (results : list ProtocolOp) : Prop :=
  fst (run rootUser op w) = Ok (rootUser, ResultCodeSuccess, None, results).

Definition threeGroups : World :=
  Eval vm_compute in after [groupOp "cn=g1"; groupOp "cn=g2"; groupOp "cn=g3"] sampleWorld.

(** What a deletion leaves. *)
Definition withoutG1 (w : World) : World := after [OpDelRequest "cn=g1,dc=teapot"] w.

(** Deleting a group may leave its members in it: membershipRemove compares the
    number of remaining groups with the number of components of the member's DN,
    and stores nothing when they are equal.  The rules that grant rights to the
    group still apply to the member. *)
Theorem stale_membership :
  succeeds (OpDelRequest "cn=g1,dc=teapot") threeGroups []
  /\ dns (withoutG1 threeGroups)
     = ["dc=teapot"; "cn=alice,dc=teapot"; "cn=g2,dc=teapot"; "cn=g3,dc=teapot";
        "ou=users,dc=teapot"; "ou=users2,dc=teapot"]
  /\ attributeOf (withoutG1 threeGroups) aliceDN AttrMemberOf
     = Some ["cn=g1,dc=teapot"; "cn=g2,dc=teapot"; "cn=g3,dc=teapot"].
Proof. unfold succeeds. split; [eval_refl|]. split; eval_refl. Qed.

(** A group that was made a member of itself cannot be deleted: the deletion
    succeeds, and the update of its own member list files it again. *)
Definition selfMember : World :=
  Eval vm_compute in
    after [groupOp "cn=g1"; modifyOp "cn=g1,dc=teapot" "member" 0 ["cn=g1,dc=teapot"]] sampleWorld.

Theorem deletion_undone :
  succeeds (OpDelRequest "cn=g1,dc=teapot") selfMember []
  /\ "cn=g1,dc=teapot" ∈ dns (withoutG1 selfMember).
Proof. unfold succeeds. split; [eval_refl | eval_in]. Qed.

(** A failed transaction may leave a trace: when the context is cancelled at the
    commit of a new group, the group is not filed, but its member already has it,
    since the members' maps of attributes are changed in place before the commit. *)
Definition cancelledAdd : Go World (State * Z * option error * list ProtocolOp) :=
  runHandler (handler (C := cancelledAt 19) sampleServer) None rootUser (groupOp "cn=g1").

Definition isError {A B D} (o : outcome (A * B * option D * list ProtocolOp)) : bool :=
  match o with Ok (_, _, Some _, _) => true | _ => false end.

Theorem failed_commit_leaks :
  isError (fst (cancelledAdd sampleWorld)) = true
  /\ dns (snd (cancelledAdd sampleWorld)) = dns sampleWorld
  /\ attributeOf sampleWorld aliceDN AttrMemberOf = None
  /\ attributeOf (snd (cancelledAdd sampleWorld)) aliceDN AttrMemberOf = Some ["cn=g1,dc=teapot"].
Proof. split; [eval_refl|]. split; [eval_refl|]. split; eval_refl. Qed.

Definition searchOp (base : string) : ProtocolOp :=
  OpSearchRequest (mkSearchRequest (FilterPresent "ou") base ["ou"] SearchRequestHomeSubtree 0 0 0 false).

(** A search of a subtree also returns siblings whose name starts with the name
    of its root. *)
Theorem search_returns_siblings :
  succeeds (searchOp "ou=users,dc=teapot") sampleWorld
    (map OpSearchResultEntry
       [mkSearchResultEntry "ou=users,dc=teapot" [mkPartialAttribute "ou" ["users"]];
        mkSearchResultEntry "ou=users2,dc=teapot" [mkPartialAttribute "ou" ["users2"]]]).
Proof. unfold succeeds. eval_refl. Qed.

(** For the same reason an entry without children cannot be deleted when a
    sibling's name starts with its name. *)
Theorem sibling_blocks_deletion :
  dns sampleWorld = ["dc=teapot"; "cn=alice,dc=teapot"; "ou=users,dc=teapot"; "ou=users2,dc=teapot"]
  /\ match fst (run rootUser (OpDelRequest "ou=users,dc=teapot") sampleWorld) with
     | Ok (_, code, Some _, _) => code = ResultCodeNotAllowedOnNonLeaf
     | _ => False
     end.
Proof. split; [eval_refl|]. exact_no_check (eq_refl ResultCodeNotAllowedOnNonLeaf). Qed.

(** ** Witnesses *)

Lemma sample_base_good : goodDN sampleServer (baseDN sampleServer).
Proof.
  split; [apply (ParseDN_parsed "dc=teapot"); reflexivity | | reflexivity].
  repeat constructor.
Qed.

Lemma empty_wf : wellFormed sampleServer (NewG : Tree listTree).
Proof. split; intros m Hm; now apply elem_of_nil in Hm. Qed.

(** Requests that return keep the sample directory well-formed. *)
Lemma after_wf ops w :
  wellFormed sampleServer (tr w) ->
  Forall (fun op => crashes op = false /\ slashFreeAdd op = true) ops ->
  wellFormed sampleServer (tr (after ops w)).
Proof.
  intros Hw Hops. revert w Hw. induction Hops as [|op ops [H1 H2] Hops IH]; intros w Hw; [exact Hw|].
  cbn [after fold_left]. apply IH.
  destruct (run_safe (C := neverCancelled) sampleServer sample_base_good rootUser op w Hw H1 H2)
    as (? & ? & ? & ? & w' & Hr & Hw' & _). rewrite Hr. exact Hw'.
Qed.

Lemma sampleWorld_wf : wellFormed sampleServer (tr sampleWorld).
Proof.
  rewrite <- sampleWorld_built. apply after_wf; [|repeat constructor]. unfold started.
  pose proof (finishes_initialize (C := neverCancelled) sampleServer sample_base_good
    (NewG : Tree listTree) empty_wf emptyWorld0 eq_refl) as H.
  destruct (initialize sampleServer emptyWorld0) as [[[]|e| |] w']; [apply H | exact H | done..].
Qed.

Definition aliceBind (auth : AuthenticationChoice) : BindRequest :=
  mkBindRequest auth "CN=Alice, dc=teapot" 3.

Lemma request_safe_witness :
  exists st' code err results w',
    run rootUser (OpDelRequest "cn=alice,dc=teapot") sampleWorld = (Ok (st', code, err, results), w')
    /\ wellFormed sampleServer (tr w').
Proof.
  apply (request_safe (C := neverCancelled) sampleServer sample_base_good); [|reflexivity..].
  exact sampleWorld_wf.
Defined.

Lemma initialize_safe_witness :
  exists o w', initialize (C := neverCancelled) sampleServer emptyWorld0 = (o, w')
    /\ wellFormed sampleServer (tr w')
    /\ match o with Ok _ => present (tr w') (baseDN sampleServer) | Err _ => True | _ => False end.
Proof.
  exact (initialize_safe (C := neverCancelled) sampleServer sample_base_good emptyWorld0 empty_wf).
Defined.

Lemma request_effect_witness :
  requestEffect sampleServer (addOp "ou=x,dc=teapot" []) (tr sampleWorld)
    (tr (after [addOp "ou=x,dc=teapot" []] sampleWorld)).
Proof.
  apply (request_effect (C := neverCancelled) sampleServer sample_base_good rootUser _ _ rootUser 0 []);
    [exact sampleWorld_wf | reflexivity | reflexivity |].
  apply run_pair. eval_refl.
Defined.

Lemma session_safe_witness :
  exists st' c',
    processAll (handler (C := neverCancelled) sampleServer) None no_text None
      [sample_bind; mkLDAPMessage (searchOp "dc=teapot") None 2] (mkClient ∅ [] sampleWorld) = (Ok st', c')
    /\ wellFormed sampleServer (tr (world c')).
Proof.
  apply (session_safe (C := neverCancelled) sampleServer sample_base_good);
    [exact sampleWorld_wf | repeat constructor].
Defined.

Definition deniedAdd : ProtocolOp := addOp "cn=bob,dc=teapot" [].

Lemma failure_rolled_back_witness :
  specificCode ResultCodeInsufficientAccessRights = true /\ @None User = None
  /\ tr (snd (run None deniedAdd sampleWorld)) = tr sampleWorld
  /\ onlyMemberships (heap sampleWorld) (heap (snd (run None deniedAdd sampleWorld)))
  /\ (false = true -> heap (snd (run None deniedAdd sampleWorld)) = heap sampleWorld).
Proof.
  apply (failure_rolled_back (C := neverCancelled) sampleServer None deniedAdd sampleWorld None _
    (Errorf "could not add %q: %w" [ErrInsufficientAccessRights]) []); [reflexivity|].
  apply run_pair. eval_refl.
Defined.

Lemma readers_keep_store_witness :
  heap (snd (run rootUser (searchOp "dc=teapot") sampleWorld)) = heap sampleWorld
  /\ tr (snd (run rootUser (searchOp "dc=teapot") sampleWorld)) = tr sampleWorld.
Proof. apply (readers_keep_store (C := neverCancelled) sampleServer). reflexivity. Defined.

Lemma sasl_bind_crash_witness :
  fst (run None (OpBindRequest (aliceBind (AuthSasl (mkSaslCredentials None "PLAIN")))) sampleWorld)
  = Panic "interface conversion".
Proof.
  apply (sasl_bind_crash (C := neverCancelled) sampleServer None _ (mkSaslCredentials None "PLAIN") aliceDN
    (mkEntry aliceDN (Some 7%nat))); eval_refl.
Defined.

Lemma asciiOnly_fold a b : EqualFold a b = true -> mapString lowerByte a = mapString lowerByte b.
Proof.
  unfold EqualFold. destruct (_ && _); [apply String.eqb_eq|]. now intros ->%String.eqb_eq.
Qed.

Lemma unambiguous_two k1 v1 k2 v2 :
  mapString lowerByte k1 <> mapString lowerByte k2 -> unambiguous [(k1, v1); (k2, v2)].
Proof.
  intros Hk. split.
  - cbn. constructor; [|apply NoDup_singleton]. intros H%list_elem_of_singleton. now rewrite H in Hk.
  - intros a k k' Hx Hx'. cbn in Hx, Hx'.
    rewrite !elem_of_cons, elem_of_nil in Hx, Hx'.
    split; intros H1%asciiOnly_fold H2%asciiOnly_fold;
      destruct Hx as [->|[->|[]]], Hx' as [->|[->|[]]]; congruence.
Qed.

Lemma applyFilter_order_witness :
  applyFilter [("mail", ["x"]); ("cn", ["y"])] (FilterPresent "CN")
  = applyFilter [("cn", ["y"]); ("mail", ["x"])] (FilterPresent "CN").
Proof. apply applyFilter_order; [apply perm_swap|]. apply unambiguous_two. discriminate. Defined.

Definition searchRequest : SearchRequest :=
  mkSearchRequest (FilterPresent "mail") "dc=teapot" [] SearchRequestHomeSubtree 0 0 0 false.

Definition searchResults : list SearchResultEntry :=
  Eval vm_compute in match fst (Search sampleServer rootUser searchRequest sampleWorld) with
  | Ok (results, _, _) => results
  | _ => []
  end.

(** The entry of the user in the sample directory. *)
Definition aliceEntry : Entry :=
  Eval vm_compute in match Mem_items (DN_Prefix aliceDN) true (tr sampleWorld) with [e] => e | _ => mkEntry [] None end.

Lemma search_ok :
  Search sampleServer rootUser searchRequest sampleWorld
  = (Ok (searchResults, rootUser, None),
     snd (Search sampleServer rootUser searchRequest sampleWorld)).
Proof. apply run_pair. eval_refl. Qed.

Lemma Search_sound_witness :
  exists res base e, res ∈ searchResults
    /\ parseDN sampleServer (baseObject searchRequest) true = Ok base
    /\ newmementry e ∈ Ascend (tr sampleWorld) /\ objectName res = DN_String (EntryDN e)
    /\ underNames base (EntryDN e) /\ verdict (attributesOf sampleWorld e) (sr_filter searchRequest) true.
Proof.
  destruct searchResults as [|res l] eqn:Er; [discriminate|].
  destruct (Search_sound sampleServer rootUser rootUser searchRequest sampleWorld
    _ searchResults res sampleWorld_wf sample_base_good eq_refl search_ok) as (base & e & H1 & H2 & H3 & H4 & H5 & H6 & H7 & H8 & H9);
    [rewrite Er; apply list_elem_of_here|].
  exists res, base, e. split; [apply list_elem_of_here|]. do 4 (split; [assumption|]). exact H8.
Defined.

Lemma Bind_spec_witness :
  exists u, authenticates sampleServer None (aliceBind (AuthSimple "pw")) sampleWorld u.
Proof.
  exists (mkUser "CN=Alice, dc=teapot" []).
  apply (Bind_spec sampleServer None (aliceBind (AuthSimple "pw")) sampleWorld sampleWorld _
    (wf_filed _ _ sampleWorld_wf)); [discriminate|].
  eval_refl.
Defined.

Lemma Search_complete_witness :
  exists res, res ∈ searchResults /\ objectName res = "cn=alice,dc=teapot"
    /\ mkPartialAttribute "mail" ["a@teapot"] ∈ sre_attributes res.
Proof.
  destruct (Search_complete sampleServer rootUser rootUser searchRequest sampleWorld
    _ searchResults (baseDN sampleServer) aliceEntry search_ok) as (res & H1 & H2 & H3).
  - reflexivity.
  - eval_in.
  - eval_refl.
  - eval_refl.
  - intros n. eval_refl.
  - exists res. split; [exact H1|]. split; [rewrite H2; eval_refl|].
    apply H3; eval_refl.
Defined.

Definition baseSearch : SearchRequest :=
  mkSearchRequest (FilterPresent "mail") "dc=teapot" [] SearchRequestScopeBaseObject 0 0 0 false.

Definition baseResults : list SearchResultEntry :=
  Eval vm_compute in match fst (Search sampleServer rootUser baseSearch sampleWorld) with
  | Ok (results, _, _) => results
  | _ => []
  end.

Lemma Search_base_empty_witness : baseResults = [].
Proof.
  apply (Search_base_empty sampleServer rootUser rootUser baseSearch sampleWorld
    (snd (Search sampleServer rootUser baseSearch sampleWorld)));
    [apply sampleWorld_wf | reflexivity |]. apply run_pair. eval_refl.
Defined.

Definition mailChange : ModifyRequestChange :=
  mkModifyRequestChange (mkPartialAttribute "mail" ["b@teapot"]) ModifyRequestChangeOperationReplace.
Definition mailRequest : ModifyRequest := mkModifyRequest "cn=alice,dc=teapot" [mailChange].

Lemma mailChange_notMember : notMember mailChange.
Proof.
  intros k [->|Hk%asciiOnly_fold]; [eval_refl|].
  destruct (AttributeKey_EqualFold k AttrMember) eqn:Hm; [|done].
  apply asciiOnly_fold in Hm. rewrite <- Hk in Hm. cbv in Hm. discriminate.
Qed.

(** Changing the mail address of the user leaves the entry without a password. *)
Lemma Modify_forgets_witness :
  exists e, Mem_items (DN_Prefix aliceDN) true
              (tr (snd (Modify (C := neverCancelled) sampleServer rootUser mailRequest sampleWorld))) = [e]
    /\ forall k, is_Some (attributesOf (snd (Modify (C := neverCancelled) sampleServer rootUser mailRequest
                                            sampleWorld)) e !! k) ->
         k = "cn" \/ k = AttrModifiersName \/ k = AttrModifyTimestamp
         \/ exists ch, ch ∈ [mailChange] /\ namesKey ch k.
Proof.
  destruct (Modify_forgets (C := neverCancelled) sampleServer rootUser rootUser mailRequest sampleWorld
    (snd (Modify (C := neverCancelled) sampleServer rootUser mailRequest sampleWorld)))
    as (c & rest & e & H1 & H2 & H3).
  - exact sample_base_good.
  - exact sampleWorld_wf.
  - constructor; [exact mailChange_notMember | constructor].
  - apply run_pair. eval_refl.
  - cbv in H1. injection H1 as <- <-. exists e. split; [exact H2|exact H3].
Defined.
