(* ===== verification/Caldav.v ===== *)
(** * Calendar data and the matching of queries

    lib/webdav/caldav: the calendars, objects and queries (caldav.go), and the
    evaluation of a query on calendar objects (match.go), with what it decides about
    time ranges compared with RFC 4791.

    Calendars are parsed, printed and taken apart by the package golang-ical, and
    recurrences expanded by rrule-go: both are the class [Ics].  Times are the
    nanoseconds since the zero time, in UTC. *)

From stdpp Require Import gmap.
From S2P Require Import Prelude GoStrings GoSearch.
#[local] Open Scope Z_scope.
#[local] Set Warnings "-register-all,-clear-no-such-hyp".

(** ** The parsed calendars *)

Class Ics : Type := {
  ICalendar : Type;
  Component : Type;
  VEvent : Type;
  IANAProperty : Type;
  (** A recurrence rule of an event, and the rule of rrule-go that it is turned into. *)
  RecurrenceRule : Type;
  RRule : Type;
  ParseCalendar : string -> outcome ICalendar;
  SerializeTo : ICalendar -> outcome string;
  Components : ICalendar -> list Component;
  Events : ICalendar -> list VEvent;
  eventComponents : VEvent -> list Component;
  asVEvent : Component -> option VEvent;
  Singular : string -> VEvent -> bool;
  GetProperty : VEvent -> string -> option IANAProperty;
  GetProperties : VEvent -> string -> list IANAProperty;
  Value : IANAProperty -> string;
  ICalParameters : IANAProperty -> gmap string (list string);
  ComponentPropertyRdate : string;
  ComponentPropertyExdate : string;
  GetStartAt : VEvent -> outcome Z;
  GetEndAt : VEvent -> outcome Z;
  GetRRules : VEvent -> outcome (list RecurrenceRule);
  GetRDates : VEvent -> outcome (list Z);
  GetExDates : VEvent -> outcome (list Z);
  (** The rule of the text of a rule, or nil; a rule with its first time. *)
  StrToRRule : RecurrenceRule -> option RRule;
  DTStart : RRule -> Z -> RRule;
  (** The times of a set of rules, dates and exceptions between two times. *)
  Between : list RRule -> list Z -> list Z -> Z -> Z -> bool -> list Z
}.

(** Accessors end. *)
Class IcsLaws (I : Ics) : Prop := {
  ParseCalendar_ends s : ends (ParseCalendar s);
  SerializeTo_ends c : ends (SerializeTo c);
  GetStartAt_ends e : ends (GetStartAt e);
  GetEndAt_ends e : ends (GetEndAt e);
  GetRRules_ends e : ends (GetRRules e);
  GetRDates_ends e : ends (GetRDates e);
  GetExDates_ends e : ends (GetExDates e)
}.

Definition zeroDate : Z := 0.
Definition IsZero (t : Z) : bool := t =? zeroDate.

(** ** caldav.go *)

Record Calendar : Type := mkCalendar {
  calendarPath : string;
  calendarName : string;
  Description : string;
  MaxResourceSize : Z;
  SupportedComponentSet : list string;
  Color : string
}.

Record CalendarExpandRequest : Type := mkExpand { expandStart : Z; expandEnd : Z }.

Inductive CalendarCompRequest : Type := mkCompRequest {
  requestName : string;
  AllProps : bool;
  requestProps : list string;
  AllComps : bool;
  requestComps : list CalendarCompRequest;
  Expand : option CalendarExpandRequest
}.

Record TextMatch : Type := mkTextMatch { Text : string; NegateCondition : bool }.

Record ParamFilter : Type := mkParamFilter {
  paramName : string;
  paramIsNotDefined : bool;
  paramTextMatch : option TextMatch
}.

Record PropFilter : Type := mkPropFilter {
  propName : string;
  propIsNotDefined : bool;
  propStart : Z;
  propEnd : Z;
  propTextMatch : option TextMatch;
  propParamFilter : list ParamFilter
}.

Inductive CompFilter : Type := mkCompFilter {
  compName : string;
  compIsNotDefined : bool;
  compStart : Z;
  compEnd : Z;
  compProps : list PropFilter;
  compComps : list CompFilter
}.

Record CalendarQuery : Type := mkQuery {
  CompRequest : CalendarCompRequest;
  QueryCompFilter : CompFilter
}.

Section Match.
Context {I : Ics}.

(** A nil calendar is [None]. *)
Record CalendarObject : Type := mkCalendarObject {
  objectPath : string;
  ModTime : Z;
  ContentLength : Z;
  ETag : string;
  Data : option ICalendar
}.

(** ** match.go *)

Definition ErrMatchEmptyObject : error := PlainError "request to process empty calendar object".

(** [return false, fmt.Errorf(msg with %w, err)] *)
Definition wrapping {A} (msg : string) (o : outcome A) : outcome A :=
  match o with Err e => Err (Errorf msg [e]) | _ => o end.

(** [for ... { ok, err := f(a); if err != nil { return }; if !ok { return false } }] *)
Definition allMatch {A} (f : A -> outcome bool) : list A -> outcome bool :=
  fix loop l :=
    match l with
    | [] => Ok true
    | a :: l' => ok <-? f a ;; if ok then loop l' else Ok false
    end.

(** [matches = matches || match] over the whole list. *)
Definition someMatch {A} (f : A -> outcome bool) : list A -> bool -> outcome bool :=
  fix loop l matches :=
    match l with
    | [] => Ok matches
    | a :: l' => ok <-? f a ;; loop l' (matches || ok)
    end.

(** [if match { return true }] *)
Definition firstMatch {A} (f : A -> outcome bool) : list A -> outcome bool :=
  fix loop l :=
    match l with
    | [] => Ok false
    | a :: l' => ok <-? f a ;; if ok then Ok true else loop l'
    end.

Definition matchTextMatch (txt : TextMatch) (value : string) : bool :=
  let matched := Contains value (Text txt) in
  if NegateCondition txt then negb matched else matched.

(** The first value decides, when there is a text to match. *)
Definition matchParamFilter (filter : ParamFilter) (field : IANAProperty) : bool :=
  match ICalParameters field !! paramName filter with
  | None => paramIsNotDefined filter
  | Some values =>
      if (0 <? len values) && paramIsNotDefined filter then false
      else match values, paramTextMatch filter with
           | value :: _, Some txt => matchTextMatch txt value
           | _, _ => true
           end
  end.

Definition matchPropTimeRange (start stop ptime : Z) : bool :=
  (start <? ptime) && (IsZero stop || (ptime <? stop)).

(** The rules with the start of the event; a nil rule is dereferenced. *)
Fixpoint startRules (rules : list RecurrenceRule) (eventStart : Z) : outcome (list RRule) :=
  match rules with
  | [] => Ok []
  | r :: rules' =>
      match StrToRRule r with
      | None => Panic "invalid memory address or nil pointer dereference"
      | Some rr => rset <-? startRules rules' eventStart ;; Ok (DTStart rr eventStart :: rset)
      end
  end.

Definition matchCompTimeRange (start stop : Z) (comp : VEvent) : outcome bool :=
  eventStart <-? wrapping "while parsing event start time: %w" (GetStartAt comp) ;;
  rules <-? wrapping "while parsing event recurrence rules: %w" (GetRRules comp) ;;
  if 0 <? len rules then
    rset <-? startRules rules eventStart ;;
    rDates <-? wrapping "while parsing event recurrence dates: %w" (GetRDates comp) ;;
    exDates <-? wrapping "while parsing event exclude dates: %w" (GetExDates comp) ;;
    Ok (0 <? len (Between rset rDates exDates start stop true))
  else
    eventEnd <-? wrapping "while parsing event end time: %w" (GetEndAt comp) ;;
    if (start <? eventStart) && (IsZero stop || (eventStart <? stop)) then Ok true
    else if (start <? eventEnd) && (IsZero stop || (eventEnd <? stop)) then Ok true
    else if (eventStart <? start) && (negb (IsZero stop) && (stop <? eventEnd)) then Ok true
    else Ok false.

Definition matchPropFilter (filter : PropFilter) (comp : VEvent) : outcome bool :=
  let prop := propName filter in
  if Singular prop comp && match GetProperty comp prop with None => true | Some _ => false end
  then Ok (propIsNotDefined filter)
  else if negb (forallb (fun field =>
         forallb (fun paramFilter => matchParamFilter paramFilter field) (propParamFilter filter))
         (GetProperties comp prop))
  then Ok false
  else if negb (IsZero (propStart filter)) then
    if (prop =? ComponentPropertyRdate)%string || (prop =? ComponentPropertyExdate)%string then
      dates <-? wrapping "error while getting dates for property %q: %w"
        (if (prop =? ComponentPropertyRdate)%string then GetRDates comp else GetExDates comp) ;;
      Ok (forallb (matchPropTimeRange (propStart filter) (propEnd filter)) dates)
    else Ok false
  else
    match propTextMatch filter with
    | Some txt => Ok (forallb (fun field => matchTextMatch txt (Value field)) (GetProperties comp prop))
    | None => Ok true
    end.

(** [matchCompFilter], given how an event is matched against its filter. *)
Definition matchChildren (matchEvent : VEvent -> outcome bool) (isNotDefined : bool) (comp : VEvent)
    : outcome bool :=
  matches <-? someMatch matchEvent (omap asVEvent (eventComponents comp)) false ;;
  Ok (if matches then true else isNotDefined).

Fixpoint matchFilter (filter : CompFilter) (comp : VEvent) : outcome bool :=
  ok <-? (if negb (IsZero (compStart filter))
          then wrapping "error while matching time: %w"
                 (matchCompTimeRange (compStart filter) (compEnd filter) comp)
          else Ok true) ;;
  if negb ok then Ok false
  else
    ok <-? allMatch (fun compFilter =>
             wrapping "error while matching component filter: %w"
               (matchChildren (matchFilter compFilter) (compIsNotDefined compFilter) comp))
             (compComps filter) ;;
    if negb ok then Ok false
    else
      allMatch (fun propFilter =>
        wrapping "error while matching filter props: %w" (matchPropFilter propFilter comp))
        (compProps filter).

Definition matchCompFilter (filter : CompFilter) (comp : VEvent) : outcome bool :=
  matchChildren (matchFilter filter) (compIsNotDefined filter) comp.

Definition Match (query : CompFilter) (co : CalendarObject) : outcome bool :=
  match Data co with
  | None => Err ErrMatchEmptyObject
  | Some cal =>
      if len (Components cal) <=? 0 then Err ErrMatchEmptyObject
      else firstMatch (fun event => wrapping "parsing component %d: %w" (matchFilter query event))
             (Events cal)
  end.

Fixpoint filterObjects (query : CompFilter) (cos out : list CalendarObject) : outcome (list CalendarObject) :=
  match cos with
  | [] => Ok out
  | co :: cos' =>
      ok <-? wrapping "error while matching object at %q: %w" (Match query co) ;;
      filterObjects query cos' (if ok then out ++ [co] else out)
  end.

Definition Filter (query : option CompFilter) (cos : list CalendarObject) : outcome (list CalendarObject) :=
  match query with
  | None => Ok cos
  | Some query => filterObjects query cos []
  end.

(** ** Lemmas *)

Context {IL : IcsLaws I}.

(** Code that ends or panics, but does not run for ever. *)
Definition settles {A} (o : outcome A) : Prop := match o with Diverge => False | _ => True end.

Lemma settles_ends {A} (o : outcome A) : ends o -> settles o.
Proof using Type. by destruct o. Qed.

Lemma settles_wrapping {A} msg (o : outcome A) : settles o -> settles (wrapping msg o).
Proof using Type. by destruct o. Qed.

Lemma settles_obind {A B} (o : outcome A) (k : A -> outcome B) :
  settles o -> (forall a, settles (k a)) -> settles (obind o k).
Proof using Type. destruct o; cbn; auto. Qed.

Lemma settles_allMatch {A} (f : A -> outcome bool) l : (forall a, a ∈ l -> settles (f a)) -> settles (allMatch f l).
Proof using Type.
  induction l as [|a l IH]; intros H; [done|]. cbn. apply settles_obind; [apply H; left|].
  intros []; [|done]. apply IH. intros. apply H. by right.
Qed.

Lemma settles_someMatch {A} (f : A -> outcome bool) l b : (forall a, a ∈ l -> settles (f a)) -> settles (someMatch f l b).
Proof using Type.
  revert b. induction l as [|a l IH]; intros b H; [done|]. cbn. apply settles_obind; [apply H; left|].
  intros. apply IH. intros. apply H. by right.
Qed.

Lemma settles_startRules rules t : settles (startRules rules t).
Proof using Type.
  induction rules as [|r rules IH]; [done|]. cbn. destruct (StrToRRule r); [|done]. by apply settles_obind.
Qed.

Lemma settles_matchCompTimeRange start stop comp : settles (matchCompTimeRange start stop comp).
Proof using IL.
  unfold matchCompTimeRange.
  apply settles_obind; [apply settles_wrapping, settles_ends, GetStartAt_ends|]. intros s.
  apply settles_obind; [apply settles_wrapping, settles_ends, GetRRules_ends|]. intros rules.
  destruct (0 <? len rules).
  - apply settles_obind; [apply settles_startRules|]. intros rset.
    apply settles_obind; [apply settles_wrapping, settles_ends, GetRDates_ends|]. intros rd.
    apply settles_obind; [apply settles_wrapping, settles_ends, GetExDates_ends|]. done.
  - apply settles_obind; [apply settles_wrapping, settles_ends, GetEndAt_ends|]. intros e.
    by repeat match goal with |- settles (if ?b then _ else _) => destruct b end.
Qed.

Lemma settles_matchPropFilter filter comp : settles (matchPropFilter filter comp).
Proof using IL.
  unfold matchPropFilter. repeat match goal with |- settles (if ?b then _ else _) => destruct b; try done end.
  - apply settles_obind; [|done]. apply settles_wrapping, settles_ends.
    destruct (_ =? _)%string; [apply GetRDates_ends|apply GetExDates_ends].
  - by destruct (propTextMatch filter).
Qed.

(** Matching ends: the filters are finite. *)
Fixpoint settles_matchFilter filter comp {struct filter} : settles (matchFilter filter comp).
Proof using IL.
  destruct filter as [name nd start stop props comps]. cbn [matchFilter compStart compEnd compComps compProps].
  apply settles_obind.
  { destruct (negb _); [|done]. apply settles_wrapping, settles_matchCompTimeRange. }
  intros b. destruct (negb b); [done|]. apply settles_obind.
  - induction comps as [|c comps IH]; [done|]. cbn. apply settles_obind; [|by intros []].
    apply settles_wrapping. unfold matchChildren. apply settles_obind; [|done].
    apply settles_someMatch. intros e _. apply settles_matchFilter.
  - intros b'. destruct (negb b'); [done|]. apply settles_allMatch. intros p _.
    apply settles_wrapping, settles_matchPropFilter.
Qed.

Lemma settles_firstMatch {A} (f : A -> outcome bool) l : (forall a, settles (f a)) -> settles (firstMatch f l).
Proof using Type. intros H. induction l as [|a l IH]; [done|]. cbn. apply settles_obind; [done|]. by intros []. Qed.

Lemma settles_Match query co : settles (Match query co).
Proof using IL.
  unfold Match. destruct (Data co); [|done]. destruct (_ <=? _); [done|].
  apply settles_firstMatch. intros. apply settles_wrapping, settles_matchFilter.
Qed.

(** ** Filtering *)

Definition matched (query : CompFilter) (co : CalendarObject) : bool :=
  match Match query co with Ok b => b | _ => false end.

(** The first object, if any, on which matching does not give a verdict. *)
Definition stuckOn (query : CompFilter) (cos : list CalendarObject) (co : CalendarObject) : Prop :=
  exists before after, cos = before ++ co :: after
    /\ forall co', co' ∈ before -> exists b, Match query co' = Ok b.

Lemma filterObjects_spec query cos out :
  match filterObjects query cos out with
  | Ok res => (forall co, co ∈ cos -> exists b, Match query co = Ok b)
              /\ res = out ++ List.filter (matched query) cos
  | Err e => exists co e', stuckOn query cos co /\ Match query co = Err e'
               /\ e = Errorf "error while matching object at %q: %w" [e']
  | Panic p => exists co, stuckOn query cos co /\ Match query co = Panic p
  | Diverge => False
  end.
Proof using IL.
  revert out. induction cos as [|co cos IH]; intros out.
  { cbn. split; [by intros ? ?%elem_of_nil|by rewrite app_nil_r]. }
  cbn [filterObjects]. pose proof (settles_Match query co) as Hs.
  assert (forall co', (exists b, Match query co = Ok b) -> stuckOn query cos co' -> stuckOn query (co :: cos) co') as Hmore.
  { intros co' Hb (before & after & -> & H). exists (co :: before), after. split; [done|].
    intros c [->|Hc]%elem_of_cons; auto. }
  assert (stuckOn query (co :: cos) co) as Hhere.
  { exists [], cos. split; [done|]. by intros ? ?%elem_of_nil. }
  destruct (Match query co) as [b|e|p|] eqn:E; cbn; [|eauto|eauto|done].
  specialize (IH (if b then out ++ [co] else out)).
  destruct (filterObjects _ _ _) as [res|e|p|]; [| | |done].
  - destruct IH as [H1 ->]. split.
    + intros c [->|Hc]%elem_of_cons; eauto.
    + unfold matched at 2. rewrite E. destruct b; [by rewrite <- app_assoc|done].
  - destruct IH as (c & e' & H1 & H2 & H3). exists c, e'. split; [apply Hmore; eauto|done].
  - destruct IH as (c & H1 & H2). exists c. split; [apply Hmore; eauto|done].
Qed.

(** Filtering keeps, in their order, exactly the objects that match, when every
    object gives a verdict; otherwise it reports the first that gives an error, or
    panics with the first that does (on a recurrence rule that rrule-go refuses);
    and it always ends. *)
Theorem Filter_spec (query : CompFilter) (cos : list CalendarObject) :
  match Filter (Some query) cos with
  | Ok res => (forall co, co ∈ cos -> exists b, Match query co = Ok b)
              /\ res = List.filter (matched query) cos
  | Err e => exists co e', stuckOn query cos co /\ Match query co = Err e'
               /\ e = Errorf "error while matching object at %q: %w" [e']
  | Panic p => exists co, stuckOn query cos co /\ Match query co = Panic p
  | Diverge => False
  end.
Proof using IL. exact (filterObjects_spec query cos []). Qed.

(** ** Time ranges *)

(** RFC 4791, section 9.9: an event overlaps a range, that may have no end. *)
Definition overlaps (start stop eventStart eventEnd : Z) : bool :=
  (start <? eventEnd) && (IsZero stop || (eventStart <? stop)).

(** It covers the whole range and shares an end with it. *)
Definition fillsToEdge (start stop eventStart eventEnd : Z) : bool :=
  negb (IsZero stop) && (eventStart <=? start) && (stop <=? eventEnd)
  && ((eventStart =? start) || (eventEnd =? stop)).

(** An event that does not recur matches a time range exactly when it overlaps it,
    as RFC 4791 has it, except that one that covers the range and starts or ends with
    it does not match. *)
Theorem matchCompTimeRange_spec (start stop eventStart eventEnd : Z) (comp : VEvent) :
  GetStartAt comp = Ok eventStart -> GetRRules comp = Ok [] -> GetEndAt comp = Ok eventEnd ->
  eventStart <= eventEnd -> stop = 0 \/ start < stop ->
  matchCompTimeRange start stop comp
  = Ok (overlaps start stop eventStart eventEnd && negb (fillsToEdge start stop eventStart eventEnd)).
Proof using Type.
  intros H1 H2 H3 Hle Hr. unfold matchCompTimeRange, overlaps, fillsToEdge, IsZero, zeroDate.
  rewrite H1, H2, H3. cbn.
  destruct (Z.eqb_spec stop 0) as [->|]; cbn; repeat (zcase; cbn; try lia; try done).
Qed.

(** ** Nested filters *)

Lemma firstMatch_none {A} (f : A -> outcome bool) l : (forall a, a ∈ l -> f a = Ok false) -> firstMatch f l = Ok false.
Proof using Type.
  induction l as [|a l IH]; intros H; [done|]. cbn. rewrite H by left. cbn. apply IH. intros. apply H. by right.
Qed.

(** A query whose filter has no time range of its own and asks for a nested
    component, as every query of RFC 4791 for the events of a calendar does, matches
    no object, as long as no event has an event inside: nested components are looked
    for below the events. *)
Theorem nested_query_empty (query inner : CompFilter) (rest : list CompFilter) (cos : list CalendarObject) :
  compStart query = 0 -> compComps query = inner :: rest -> compIsNotDefined inner = false ->
  (forall co, co ∈ cos -> exists cal, Data co = Some cal /\ Components cal <> []
     /\ forall event, event ∈ Events cal -> omap asVEvent (eventComponents event) = []) ->
  Filter (Some query) cos = Ok [].
Proof using IL.
  intros Hs Hc Hn Hco.
  assert (forall co, co ∈ cos -> Match query co = Ok false) as Hm.
  { intros co (cal & Hd & Hne & He)%Hco. unfold Match. rewrite Hd.
    destruct (Components cal) as [|c cs]; [done|]. rewrite len_cons. pose proof (len_nonneg cs).
    destruct (Z.leb_spec (1 + len cs) 0); [lia|]. apply firstMatch_none. intros event Hev.
    destruct query as [name nd start stop props comps]. cbn in Hs, Hc. subst start comps.
    cbn [matchFilter compStart compComps]. cbn. unfold matchChildren. rewrite (He event Hev). cbn. by rewrite Hn. }
  pose proof (filterObjects_spec query cos []) as H. cbn [Filter].
  destruct (filterObjects _ _ _) as [res|e|p|]; [| | |done].
  - destruct H as [_ ->]. f_equal. rewrite app_nil_l. clear Hco. induction cos as [|co cos IH]; [done|]. cbn.
    unfold matched at 1. rewrite Hm by left. apply IH. intros. apply Hm. by right.
  - destruct H as (co & e' & (before & after & -> & _) & H & _). rewrite Hm in H; [done|]. set_solver.
  - destruct H as (co & (before & after & -> & _) & H). rewrite Hm in H; [done|]. set_solver.
Qed.

(** [is-not-defined] is not looked at when something is found: on a component that
    an event has, and on a property that it has, the filter matches. *)
Lemma is_not_defined_ignored filter comp :
  matchFilter filter comp = Ok true -> forall outer,
  omap asVEvent (eventComponents outer) = [comp] -> matchCompFilter filter outer = Ok true.
Proof using Type. intros H outer Ho. unfold matchCompFilter, matchChildren. rewrite Ho. cbn. by rewrite H. Qed.

(** A filter on a property that may occur several times matches an event without it. *)
Lemma absent_property_matches filter comp txt :
  Singular (propName filter) comp = false -> GetProperties comp (propName filter) = [] ->
  propStart filter = 0 -> propTextMatch filter = Some txt ->
  matchPropFilter filter comp = Ok true.
Proof using Type. intros H1 H2 H3 H4. unfold matchPropFilter. by rewrite H1, H2, H3, H4. Qed.
End Match.
