(* ===== verification/CalStore.v ===== *)
(** * Calendar stores

    service/calendar/store: the data kept (types.go), the interface of a store
    (store.go) with what its implementations promise, and the store in memory
    (mem.go).

    The clock, the MD5 of an ETag and the order of an iteration over a map are the
    class [CalEnv]. The lock of the store makes its operations atomic. *)

From stdpp Require Import gmap.
From S2P Require Import Prelude GoStrings GoSearch Caldav.
#[local] Open Scope Z_scope.
#[local] Set Warnings "-clear-no-such-hyp".

(** ** types.go *)

Abbreviation Path := string (only parsing).

(** [Path.Less] *)
Definition Path_Less (path p : Path) : bool := lessThan path p.

Record CalendarMetadata : Type := mkMetadata {
  metadataName : string;
  metadataDescription : string;
  metadataComponentSet : list string;
  metadataMaxResourceSize : Z;
  metadataColor : string;
  metadataTag : string
}.

Record Calendar : Type := mkCalendar { storedPath : Path; Metadata : CalendarMetadata }.

Definition Calendar_Key (c : Calendar) : Path := storedPath c.

Record Object : Type := mkObject {
  objPath : Path;
  objModTime : Z;
  objData : string;
  objETag : string
}.

Definition Object_Size (o : Object) : Z := Z.of_nat (String.length (objData o)).

Class CalEnv : Type := {
  currentTime : nat -> Z;
  HashBytes : string -> string;
  rangeMap : forall A : Type, nat -> gmap string A -> list A
}.
Class CalEnvLaws (E : CalEnv) : Prop := {
  rangeMap_all A n m : Permutation (rangeMap A n m) (map snd (map_to_list m))
}.

Section Objects.
Context {I : Ics} {E : CalEnv}.

Definition Object_Calendar (o : Object) : outcome ICalendar :=
  wrapping "error while parsing ics: %w" (ParseCalendar (objData o)).

(** Flushing a buffer in memory does not fail; a nil calendar is dereferenced. *)
Definition SerializeObject (obj : CalendarObject) : outcome Object :=
  match Data obj with
  | None => Panic "invalid memory address or nil pointer dereference"
  | Some cal =>
      data <-? wrapping "error while encoding ical: %w" (SerializeTo cal) ;;
      Ok (mkObject (objectPath obj) (ModTime obj) data (HashBytes data))
  end.
End Objects.

(** ** Tasks of a group

    [errgroup]: the tasks all run, here one after the other, and the first error is
    that of the group. *)
Fixpoint goEach {W A B} (task : A -> Go W B) (l : list A) : Go W (list B) :=
  fun w =>
    match l with
    | [] => (Ok [], w)
    | a :: l' =>
        match task a w with
        | (Ok b, w1) => (bs <-- goEach task l' ;; ret (b :: bs)) w1
        | (Err e, w1) =>
            match goEach task l' w1 with
            | (Ok _, w2) | (Err _, w2) => (Err e, w2)
            | (Panic p, w2) => (Panic p, w2)
            | (Diverge, w2) => (Diverge, w2)
            end
        | (Panic p, w1) => (Panic p, w1)
        | (Diverge, w1) => (Diverge, w1)
        end
    end.

(** Tasks that keep an invariant, and what they give. *)
Lemma goEach_spec {W A B} (J : W -> Prop) (Q : A -> B -> Prop) (task : A -> Go W B) l w :
  (forall a w, a ∈ l -> J w ->
     match task a w with (Ok b, w') => J w' /\ Q a b | (Err _, w') => J w' | _ => False end) ->
  J w ->
  match goEach task l w with
  | (Ok bs, w') => J w' /\ Forall2 Q l bs
  | (Err _, w') => J w'
  | _ => False
  end.
Proof.
  revert w. induction l as [|a l IH]; intros w Ht Hw; cbn [goEach]; [done|].
  pose proof (Ht a w ltac:(left) Hw) as H1.
  assert (forall w, J w -> match goEach task l w with
    | (Ok bs, w') => J w' /\ Forall2 Q l bs | (Err _, w') => J w' | _ => False end) as IH'.
  { intros w1 Hw1. apply IH; [|done]. intros b w2 Hb. apply Ht. by right. }
  destruct (task a w) as [[b|e|p|] w1]; try done.
  - destruct H1 as [H1 H2]. specialize (IH' w1 H1). unfold bind, ret.
    destruct (goEach task l w1) as [[bs|e|p|] w2]; try done. destruct IH'. auto.
  - specialize (IH' w1 H1). destruct (goEach task l w1) as [[bs|e'|p|] w2]; try done. by destruct IH'.
Qed.

(** ** store.go *)

Definition ErrAlreadyExists : error := PlainError "already exists".
Definition ErrNotFound : error := PlainError "not found".
Definition ErrCalendarAlreadyExists : error := Errorf "calendar: %w" [ErrAlreadyExists].
Definition ErrCalendarNotFound : error := Errorf "calendar: %w" [ErrNotFound].
Definition ErrCalendarObjectAlreadyExists : error := Errorf "calendar object: %w" [ErrAlreadyExists].
Definition ErrCalendarObjectNotFound : error := Errorf "calendar object: %w" [ErrNotFound].

Definition isNotFound (e : error) : bool := isError "not found" e.
Definition isAlreadyExists (e : error) : bool := isError "already exists" e.

(** The operations of the interface [Store] on calendars and objects. *)
Class Store (W : Type) : Type := {
  CreateCalendar : Calendar -> Go W unit;
  ListCalendars : Path -> Go W (list Calendar);
  GetCalendar : Path -> Go W Calendar;
  CreateCalendarObject : Object -> Go W unit;
  ListCalendarObjects : Path -> Go W (list Object);
  GetCalendarObject : Path -> Go W Object;
  DeleteCalendarObject : Path -> Go W unit
}.

(** The parts of two states that a client can see are the same. *)
Definition unchanged {W} (calendars : W -> gmap Path Calendar) (objects : W -> gset Path)
    (genuine : W -> Object -> Prop) (w w' : W) : Prop :=
  calendars w' = calendars w /\ objects w' = objects w /\ forall o, genuine w' o <-> genuine w o.

(** What putting an object may have changed when it fails: nothing but what is read at its
    path, and there only to the content that was to be put. *)
Definition attempted {W} (calendars : W -> gmap Path Calendar) (objects : W -> gset Path)
    (genuine : W -> Object -> Prop) (o : Object) (w w' : W) : Prop :=
  calendars w' = calendars w /\ objects w' = objects w
  /\ (forall o', objPath o' <> objPath o -> (genuine w' o' <-> genuine w o'))
  /\ (forall o', objPath o' = objPath o -> genuine w' o' -> genuine w o' \/ objData o' = objData o).

Lemma unchanged_attempted {W} (calendars : W -> gmap Path Calendar) (objects : W -> gset Path)
    (genuine : W -> Object -> Prop) (o : Object) (w w' : W) :
  unchanged calendars objects genuine w w' -> attempted calendars objects genuine o w w'.
Proof. intros (H1 & H2 & H3). split_and!; [done..|]. intros o' _ H. left. by apply H3. Qed.

(** What a store promises.  It holds calendars by their path, and at some paths an
    object; what it gives for an object is genuine, and after an object was put only its
    content is, at its path.  An operation that fails changes nothing, except that a failed
    creation may have changed the content of an object that was there, and that an object may
    be gone after a failed deletion. *)
Class StoreLaws {W : Type} (S : Store W) : Type := {
  Inv : W -> Prop;
  calendars : W -> gmap Path Calendar;
  objects : W -> gset Path;
  genuine : W -> Object -> Prop;
  (** Listings are complete below a prefix for the paths that [listed] holds of. *)
  listed : Path -> Prop;
  CreateCalendar_law cal w :
    Inv w ->
    match CreateCalendar cal w with
    | (Ok _, w') => Inv w' /\ calendars w !! storedPath cal = None
        /\ calendars w' = <[storedPath cal := cal]> (calendars w) /\ objects w' = objects w
        /\ forall o, genuine w' o <-> genuine w o
    | (Err e, w') => Inv w' /\ unchanged calendars objects genuine w w'
        /\ (is_Some (calendars w !! storedPath cal) -> isAlreadyExists e = true)
    | _ => False
    end;
  GetCalendar_law p w :
    Inv w ->
    match GetCalendar p w with
    | (Ok cal, w') => w' = w /\ calendars w !! p = Some cal
    | (Err e, w') => w' = w /\ calendars w !! p = None /\ isNotFound e = true
    | _ => False
    end;
  ListCalendars_law p w :
    Inv w ->
    match ListCalendars p w with
    | (Ok l, w') => Inv w' /\ unchanged calendars objects genuine w w'
        /\ NoDup (map storedPath l)
        /\ forall cal, listed (storedPath cal) ->
             (cal ∈ l <-> calendars w !! storedPath cal = Some cal /\ HasPrefix (storedPath cal) p = true)
    | _ => False
    end;
  CreateObject_law o w :
    Inv w ->
    match CreateCalendarObject o w with
    | (Ok _, w') => Inv w' /\ calendars w' = calendars w
        /\ objects w' = {[ objPath o ]} ∪ objects w
        /\ (exists o', genuine w' o' /\ objPath o' = objPath o /\ objData o' = objData o)
        /\ (forall o', genuine w' o' -> objPath o' = objPath o -> objData o' = objData o)
        /\ forall o', objPath o' <> objPath o -> (genuine w' o' <-> genuine w o')
    | (Err e, w') => Inv w' /\ attempted calendars objects genuine o w w'
    | _ => False
    end;
  GetObject_law p w :
    Inv w ->
    match GetCalendarObject p w with
    | (Ok o, w') => Inv w' /\ unchanged calendars objects genuine w w'
        /\ p ∈ objects w /\ objPath o = p /\ genuine w o
    | (Err e, w') => Inv w' /\ unchanged calendars objects genuine w w'
        /\ (isNotFound e = true <-> p ∉ objects w)
    | _ => False
    end;
  ListObjects_law p w :
    Inv w ->
    match ListCalendarObjects p w with
    | (Ok l, w') => Inv w' /\ unchanged calendars objects genuine w w'
        /\ NoDup (map objPath l)
        /\ (forall o, o ∈ l -> objPath o ∈ objects w /\ HasPrefix (objPath o) p = true /\ genuine w o)
        /\ forall q, listed q -> q ∈ objects w -> HasPrefix q p = true -> q ∈ map objPath l
    | (Err e, w') => Inv w' /\ unchanged calendars objects genuine w w'
    | _ => False
    end;
  DeleteObject_law p w :
    Inv w ->
    match DeleteCalendarObject p w with
    | (Ok _, w') => Inv w' /\ calendars w' = calendars w
        /\ p ∈ objects w /\ objects w' = objects w ∖ {[ p ]}
        /\ forall o, objPath o <> p -> (genuine w' o <-> genuine w o)
    | (Err e, w') => Inv w' /\ calendars w' = calendars w
        /\ (objects w' = objects w \/ objects w' = objects w ∖ {[ p ]})
        /\ (p ∉ objects w -> isNotFound e = true)
        /\ forall o, objPath o <> p -> (genuine w' o <-> genuine w o)
    | _ => False
    end
}.

(** ** mem.go *)

Record Mem : Type := mkMem {
  memCalendars : gmap Path Calendar;
  memObjects : gmap Path Object;
  memRanges : nat
}.

Definition NewMem : Mem := mkMem ∅ ∅ 0.

Section Mem.
Context {E : CalEnv}.

Definition Mem_CreateCalendar (calendar : Calendar) : Go Mem unit :=
  m <-- get ;;
  match memCalendars m !! storedPath calendar with
  | Some _ => fail ErrCalendarAlreadyExists
  | None => put (mkMem (<[storedPath calendar := calendar]> (memCalendars m)) (memObjects m) (memRanges m))
  end.

(** The number of iterations made so far. *)
Definition nextRange : Go Mem nat :=
  fun m => (Ok (memRanges m), mkMem (memCalendars m) (memObjects m) (S (memRanges m))).

Definition Mem_ListCalendars (basePath : Path) : Go Mem (list Calendar) :=
  n <-- nextRange ;; m <-- get ;;
  ret (List.filter (fun calendar => HasPrefix (storedPath calendar) basePath)
         (rangeMap Calendar n (memCalendars m))).

Definition Mem_GetCalendar (path : Path) : Go Mem Calendar :=
  m <-- get ;;
  match memCalendars m !! path with Some calendar => ret calendar | None => fail ErrCalendarNotFound end.

Definition Mem_CreateCalendarObject (object : Object) : Go Mem unit :=
  m <-- get ;;
  match memObjects m !! objPath object with
  | Some _ => fail ErrCalendarObjectAlreadyExists
  | None => put (mkMem (memCalendars m) (<[objPath object := object]> (memObjects m)) (memRanges m))
  end.

Definition Mem_ListCalendarObjects (path : Path) : Go Mem (list Object) :=
  n <-- nextRange ;; m <-- get ;;
  ret (List.filter (fun object => HasPrefix (objPath object) path) (rangeMap Object n (memObjects m))).

Definition Mem_GetCalendarObject (path : Path) : Go Mem Object :=
  m <-- get ;;
  match memObjects m !! path with Some object => ret object | None => fail ErrCalendarObjectNotFound end.

Definition Mem_DeleteCalendarObject (path : Path) : Go Mem unit :=
  m <-- get ;;
  match memObjects m !! path with
  | None => fail ErrCalendarObjectNotFound
  | Some _ => put (mkMem (memCalendars m) (delete path (memObjects m)) (memRanges m))
  end.

#[export] Instance Mem_Store : Store Mem := {
  CreateCalendar := Mem_CreateCalendar;
  ListCalendars := Mem_ListCalendars;
  GetCalendar := Mem_GetCalendar;
  CreateCalendarObject := Mem_CreateCalendarObject;
  ListCalendarObjects := Mem_ListCalendarObjects;
  GetCalendarObject := Mem_GetCalendarObject;
  DeleteCalendarObject := Mem_DeleteCalendarObject
}.

(** ** The store in memory keeps the promise *)

(** Values are filed under their path. *)
Definition memInv (m : Mem) : Prop :=
  map_Forall (fun p cal => storedPath cal = p) (memCalendars m)
  /\ map_Forall (fun p o => objPath o = p) (memObjects m).

Definition memGenuine (m : Mem) (o : Object) : Prop := memObjects m !! objPath o = Some o.

Context {EL : CalEnvLaws E}.

Lemma elem_rangeMap {A} n (m : gmap string A) a : a ∈ rangeMap A n m <-> exists k, m !! k = Some a.
Proof using EL.
  rewrite (rangeMap_all A n m), list_elem_of_fmap. split.
  - intros ([k a'] & -> & H%elem_of_map_to_list). by exists k.
  - intros [k H]. exists (k, a). by rewrite elem_of_map_to_list.
Qed.

Lemma filed_rangeMap {A} (f : A -> string) n (m : gmap string A) (P : A -> bool) :
  map_Forall (fun k a => f a = k) m ->
  NoDup (map f (List.filter P (rangeMap A n m)))
  /\ forall a, a ∈ List.filter P (rangeMap A n m) <-> m !! f a = Some a /\ P a = true.
Proof using EL.
  intros Hf. split.
  - assert (NoDup (map f (rangeMap A n m))) as Hn.
    { rewrite (rangeMap_all A n m), map_map. rewrite (map_ext_in _ fst).
      - apply (NoDup_fst_map_to_list m).
      - intros [k a] H%list_elem_of_In%elem_of_map_to_list. by apply Hf. }
    induction (rangeMap A n m) as [|a l IH]; [done|]. cbn in *. apply NoDup_cons in Hn as [H1 H2].
    destruct (P a); cbn; [|auto]. apply NoDup_cons. split; [|auto]. intros (b & Eb & H)%list_elem_of_fmap.
    apply H1, list_elem_of_fmap. exists b. split; [done|]. apply list_elem_of_In, filter_In in H as [H _].
    by apply list_elem_of_In.
  - intros a. rewrite list_elem_of_In, filter_In, <- list_elem_of_In, elem_rangeMap. split.
    + intros [[k H] Hp]. split; [|done]. by rewrite (Hf _ _ H).
    + intros [H Hp]. eauto.
Qed.

#[export, refine] Instance Mem_StoreLaws : StoreLaws Mem_Store := {
  Inv := memInv;
  calendars := memCalendars;
  objects := fun m => dom (memObjects m);
  genuine := memGenuine;
  listed := fun _ => True
}.
Proof using EL.
  - intros cal m [H1 H2]. cbn. unfold Mem_CreateCalendar, get, bind.
    destruct (memCalendars m !! storedPath cal) as [c|] eqn:E0; cbn; [done|].
    split; [split; [by apply map_Forall_insert_2|done]|]. done.
  - intros p m _. cbn. unfold Mem_GetCalendar, get, bind. by destruct (memCalendars m !! p) eqn:E0.
  - intros p m [H1 H2]. cbn. destruct (filed_rangeMap storedPath (memRanges m) (memCalendars m)
      (fun calendar => HasPrefix (storedPath calendar) p) H1) as [Hn Hi].
    do 2 (split; [done|]). split; [done|]. intros cal _. apply Hi.
  - intros o m [H1 H2]. cbn. unfold Mem_CreateCalendarObject, get, bind.
    destruct (memObjects m !! objPath o) as [o'|] eqn:E0; cbn; [split; [done|by apply unchanged_attempted]|].
    split; [split; [done|by apply map_Forall_insert_2]|]. split; [done|].
    split; [apply dom_insert_L|]. split.
    + exists o. split; [|done]. unfold memGenuine. cbn. apply lookup_insert_eq.
    + split; [intros o' Hg Hp; unfold memGenuine in Hg; cbn in Hg; rewrite Hp, lookup_insert_eq in Hg; by injection Hg as <-|].
      intros o' Hne. unfold memGenuine. cbn. by rewrite lookup_insert_ne.
  - intros p m [H1 H2]. cbn. unfold Mem_GetCalendarObject, get, bind.
    destruct (memObjects m !! p) as [o|] eqn:E0; cbn.
    + do 2 (split; [done|]). split; [by eapply elem_of_dom_2|]. split; [by apply H2|].
      unfold memGenuine. by rewrite (H2 _ _ E0).
    + do 2 (split; [done|]). split; [|done]. intros _. by apply not_elem_of_dom.
  - intros p m [H1 H2]. cbn. destruct (filed_rangeMap objPath (memRanges m) (memObjects m)
      (fun object => HasPrefix (objPath object) p) H2) as [Hn Hi].
    do 2 (split; [done|]). split; [done|]. split.
    + intros o [Ho Hp]%Hi. split; [by eapply elem_of_dom_2|]. done.
    + intros q _ [o Ho]%elem_of_dom Hp. apply list_elem_of_fmap. exists o. rewrite (H2 _ _ Ho).
      split; [done|]. apply Hi. by rewrite (H2 _ _ Ho).
  - intros p m [H1 H2]. cbn. unfold Mem_DeleteCalendarObject, get, bind.
    destruct (memObjects m !! p) as [o|] eqn:E0; cbn.
    + split; [split; [done|by apply map_Forall_delete]|]. split; [done|].
      split; [by eapply elem_of_dom_2|]. split; [apply dom_delete_L|].
      intros o' Hne. unfold memGenuine. cbn. by rewrite lookup_delete_ne.
    + split; [done|]. split; [done|]. split; [by left|]. done.
Defined.
End Mem.
