(* ===== verification/CalOnline.v ===== *)
(** * The online calendar store

    service/calendar/store/online*.go: calendars and references to objects in two
    cached tables of lib/pgcache, the contents of the objects in S3 through
    lib/s3cache; and the proof that it keeps the promise of a store.

    The SQL queries of the two tables are their [Database] (their rows are in
    SqlStores), opening connections is left out, and an identifier of UUID version 4 is the class [NewRef]. *)

From stdpp Require Import gmap sorting.
From S2P Require Import Prelude Hoare S3Cache S3Spec GoStrings GoSearch GoBTree CacheMap Pgcache PgcacheSpec Caldav CalStore.
From Stdlib Require Import Strings.Ascii.
#[local] Open Scope Z_scope.
#[local] Set Warnings "-clear-no-such-hyp".

(** ** Keys and rows *)

#[export] Instance Path_Key : Key string := {| KeyString := fun path => path; Less := Path_Less |}.
#[export] Instance Path_laws : KeyLaws Path_Key.
Proof. split. done. Qed.

(** [PrefixFromString] *)
#[export] Instance Path_FromString : FromString string := { fromString := fun rawPath => Ok rawPath }.

#[export] Instance Calendar_Object : Pgcache.Object string Calendar := { ObjectKey := Calendar_Key }.

Record objectRef : Type := mkRef {
  refPath : Path;
  refModTime : Z;
  Ref : string;
  refETag : Hash
}.

Definition objectRef_Key (ref : objectRef) : Path := refPath ref.
Definition s3Key (ref : objectRef) : string := Ref ref.

#[export] Instance objectRef_Object : Pgcache.Object string objectRef := { ObjectKey := objectRef_Key }.

(** The text of [uuid.New()]. *)
Class NewRef : Type := { newRef : nat -> string }.

(** An identifier never comes twice. *)
Class NewRefLaws (N : NewRef) : Prop := { newRef_inj n m : newRef n = newRef m -> n = m }.

(** The zero values that iterators give for a missing key. *)
Definition zeroCalendar : Calendar := mkCalendar "" (mkMetadata "" "" [] 0 "" "").
Definition zeroRef : objectRef := mkRef "" 0 "" "".

(** ** Transactions on one table *)

Section Tx.
Context {T : Type} {OB : Pgcache.Object string T} {B : BTree string Path_Less} {J : Json} {D : Database string T}.
Variable nm : notificationManager.
Local Abbreviation TW := (PgWorld (K := string) (T := T) (B := B)).

Definition runInTx (fn : TableTx (D := D) -> Go TW (TableTx (D := D))) : Go TW unit :=
  tx <-- wrapf "error while starting transaction: %w" [] Table_Begin ;;
  tx <-- wrapf "error while running transaction body: %w" [] (fn tx) ;;
  wrapf "error while committing transaction: %w" [] (TableTx_Commit nm tx) ;;;
  ret tt.

Context {JL : JsonLaws J} {DC : DatabaseCalls D} {BL : BTreeLaws B} (zero : T).

Lemma Begin_spec (w : TW) :
  match Table_Begin w with
  | (Ok tx, w') => built (B := B) tx /\ updates tx = [] /\ cache w' = cache w
  | (Err _, w') => cache w' = cache w
  | _ => False
  end.
Proof using DC.
  pose proof (poolBegin_ends (calls w)) as H.
  destruct (Table_Begin w) as [[tx|e|p|] w'] eqn:E; pose proof E as E'; unfold Table_Begin, bind, call, wrapf, lift, ret in E';
    destruct (poolBegin (calls w)); try done; injection E' as <- <-; [|done].
  split; [by eapply built_Begin|done].
Qed.

(** A transaction of one statement. *)
Lemma runInTx_spec (fn : TableTx (D := D) -> Go TW (TableTx (D := D))) us (w : TW) :
  (forall tx w, built (B := B) tx -> updates tx = [] ->
     match fn tx w with
     | (Ok tx', w') => built (B := B) tx' /\ updates tx' = us /\ cache w' = cache w
     | (Err _, w') => cache w' = cache w
     | _ => False
     end) ->
  consistent (cache w) ->
  match runInTx fn w with
  | (Ok _, w') => consistent (cache w') /\ vals (cache w') = foldl applyRow (vals (cache w)) us
  | (Err _, w') => cache w' = cache w
  | _ => False
  end.
Proof using JL DC BL zero.
  intros Hf Hc. unfold runInTx, bind at 1, wrapf at 1. pose proof (Begin_spec w) as HB.
  destruct (Table_Begin w) as [[tx|e|p|] w1]; try done. destruct HB as (H1 & H2 & H3).
  unfold bind at 1, wrapf at 1. specialize (Hf tx w1 H1 H2).
  destruct (fn tx w1) as [[tx'|e|p|] w2]; try done; [|congruence]. destruct Hf as (H4 & H5 & H6).
  unfold bind, wrapf, ret. pose proof (Commit_cache nm tx' w2 H4) as HC.
  destruct (TableTx_Commit nm tx' w2) as [[tx''|e|p|] w3]; try done; [|congruence].
  destruct HC as [H7 H8]. rewrite H5, H6, H3 in *. split; [|done]. rewrite H8.
  by apply (consistent_ops zero).
Qed.

Lemma Store_spec (o : T) tx (w : TW) :
  built (B := B) tx -> updates tx = [] ->
  match TableTx_Store tx [o] w with
  | (Ok tx', w') => built (B := B) tx' /\ updates tx' = [mkUpdate (Some o) None] /\ cache w' = cache w
  | (Err _, w') => cache w' = cache w
  | _ => False
  end.
Proof using DC.
  intros Hb Hu. destruct (built_tracked tx Hb) as [Hc _].
  destruct (TableTx_Store tx [o] w) as [[tx'|e|p|] w'] eqn:E; pose proof E as E';
    unfold TableTx_Store in E'; rewrite Hc in E'; unfold bind, call, wrapf, lift, ret in E';
    pose proof (storeFunc_ends (calls w) [o] (ttxTx tx)) as H;
    destruct (storeFunc _ _ _) as [d|e'|p'|]; try done; injection E' as <- <-; [|done].
  split; [by eapply built_Store|]. cbn. by rewrite Hu.
Qed.

Lemma Delete_spec (k : string) tx (w : TW) :
  built (B := B) tx -> updates tx = [] ->
  match TableTx_Delete tx [k] w with
  | (Ok tx', w') => built (B := B) tx' /\ updates tx' = [mkUpdate None (Some k)] /\ cache w' = cache w
  | (Err _, w') => cache w' = cache w
  | _ => False
  end.
Proof using DC.
  intros Hb Hu. destruct (built_tracked tx Hb) as [Hc _].
  destruct (TableTx_Delete tx [k] w) as [[tx'|e|p|] w'] eqn:E; pose proof E as E';
    unfold TableTx_Delete in E'; rewrite Hc in E'; unfold bind, call, wrapf, lift, ret in E';
    pose proof (deleteFunc_ends (calls w) [k] (ttxTx tx)) as H;
    destruct (deleteFunc _ _ _) as [d|e'|p'|]; try done; injection E' as <- <-; [|done].
  split; [by eapply built_Delete|]. cbn. by rewrite Hu.
Qed.

(** The objects between a prefix and its last descendant. *)
Lemma Between_spec (m : SortedMap (B := B) (V := T)) (base : string) :
  consistent m -> (forall p o, vals m !! p = Some o -> ObjectKey o = p) ->
  let l := map snd (SortedMap_Between zero m base (base +:+ MaxRune)) in
  NoDup (map ObjectKey l)
  /\ (forall o, o ∈ l -> vals m !! ObjectKey o = Some o /\ HasPrefix (ObjectKey o) base = true)
  /\ (forall o, vals m !! ObjectKey o = Some o ->
        (exists r, ObjectKey o = base +:+ r /\ lessThan r MaxRune = true) -> o ∈ l).
Proof using BL.
  intros Hc Hk. pose (inside := fun s : string => lessThan s base = false /\ lessThan s (base +:+ MaxRune) = true).
  assert (forall s, Decision (inside s)) as Hd by (intros; unfold inside; apply _).
  assert (SortedMap_Between zero m base (base +:+ MaxRune)
          = yields zero m (filter (fun k => inside (KeyString k)) (Ascend (tree m)))) as EB.
  { unfold SortedMap_Between. rewrite AscendRange_Ascend. f_equal. by apply list_filter_iff. }
  rewrite EB. clear EB. pose proof (fun s v => elem_of_yields zero m inside s v Hc) as He.
  assert (forall l : list (string * T), bindings l = l) as Hid.
  { intros l. unfold bindings. etransitivity; [|apply map_id]. apply map_ext. by intros []. }
  rewrite Hid in He. set (ys := yields zero m _) in *.
  assert (forall s v, (s, v) ∈ ys -> ObjectKey v = s) as Hs.
  { intros s v [H _]%He. by apply Hk. }
  cbn zeta. split; [|split].
  - rewrite map_map. rewrite (map_ext_in _ fst).
    + rewrite <- (Hid ys). apply (sorted_NoDup_keys fst), (sorted_yields zero); [apply _..|].
      apply (sorted_filter KeyString), (Ascend_keys zero _).
    + intros [s v] H%list_elem_of_In. by apply Hs.
  - intros o ([s v] & -> & H)%list_elem_of_fmap. cbn. rewrite (Hs _ _ H).
    apply He in H as [H1 [H2 H3]]. split; [done|]. apply HasPrefix_spec.
    destruct (proj1 (range_prefix base MaxRune s)) as (r & Hr & _); [done|]. by exists r.
  - intros o Ho Hr. apply list_elem_of_fmap. exists (ObjectKey o, o). split; [done|]. apply He.
    split; [done|]. unfold inside. by apply range_prefix.
Qed.
End Tx.

(** ** The store *)

Section Online.
Context {B : BTree string Path_Less} {J : Json} {CD : Database string Calendar} {RD : Database string objectRef}.
Context {S3 : S3Env} {NR : NewRef}.
Variables (calendarsNM objectsNM : notificationManager) (c : S3Cache).
Local Abbreviation CW := (PgWorld (K := string) (T := Calendar) (B := B)).
Local Abbreviation RW := (PgWorld (K := string) (T := objectRef) (B := B)).

Record Online : Type := mkOnline {
  calendarTable : CW;
  objectRefTable : RW;
  objectCache : S3World;
  refs : nat
}.

Definition onCalendars {A} (m : Go CW A) : Go Online A :=
  fun o => let '(a, t) := m (calendarTable o) in (a, mkOnline t (objectRefTable o) (objectCache o) (refs o)).
Definition onRefs {A} (m : Go RW A) : Go Online A :=
  fun o => let '(a, t) := m (objectRefTable o) in (a, mkOnline (calendarTable o) t (objectCache o) (refs o)).
Definition onS3 {A} (m : Go S3World A) : Go Online A :=
  fun o => let '(a, t) := m (objectCache o) in (a, mkOnline (calendarTable o) (objectRefTable o) t (refs o)).
Definition uuidNew : Go Online string :=
  fun o => (Ok (newRef (refs o)), mkOnline (calendarTable o) (objectRefTable o) (objectCache o) (S (refs o))).

(** *** online_calendar.go *)

Definition Online_CreateCalendar (calendar : Calendar) : Go Online unit :=
  found <-- onCalendars (Table_Get (storedPath calendar)) ;;
  match found with
  | Some _ => fail ErrAlreadyExists
  | None => onCalendars (runInTx calendarsNM (fun tx => TableTx_Store tx [calendar]))
  end.

(** [fmt.Sprintf("%s%c", basePath, utf8.MaxRune)] *)
Definition endPath (basePath : Path) : Path := basePath +:+ MaxRune.

Definition Online_ListCalendars (basePath : Path) : Go Online (list Calendar) :=
  onCalendars (Table_Between zeroCalendar basePath (endPath basePath)).

Definition Online_GetCalendar (path : Path) : Go Online Calendar :=
  found <-- onCalendars (Table_Get path) ;;
  match found with Some calendar => ret calendar | None => fail ErrCalendarNotFound end.

(** *** online_object.go *)

(** The reference that the path has, or a new one. *)
Definition refFor (object : Object) (found : option objectRef) : Go Online objectRef :=
  match found with
  | Some ref => ret ref
  | None => id <-- uuidNew ;; ret (mkRef (objPath object) (objModTime object) id "")
  end.

Definition Online_CreateCalendarObject (object : Object) : Go Online unit :=
  found <-- onRefs (Table_Get (objPath object)) ;;
  ref <-- refFor object found ;;
  etag <-- wrapf "error while storing calendar object in s3: %w" []
    (onS3 (S3Cache.Put c (s3Key ref) (objData object))) ;;
  let ref := mkRef (refPath ref) (refModTime ref) (Ref ref) etag in
  onRefs (runInTx objectsNM (fun tx => TableTx_Store tx [ref])).

Definition getObjectFromRef (ref : objectRef) : Go Online Object :=
  let! (data, etag) := wrapf "error while fetching calendar object from S3: %w" []
    (onS3 (S3Cache.Get c (s3Key ref) (refETag ref))) in
  ret (mkObject (refPath ref) (refModTime ref) data etag).

Definition Online_ListCalendarObjects (basePath : Path) : Go Online (list Object) :=
  refs <-- onRefs (Table_Between zeroRef basePath (endPath basePath)) ;;
  goEach (fun ref => wrapf "error while fetching object #%d from ref at path %q: %w" []
            (getObjectFromRef ref)) refs.

Definition Online_GetCalendarObject (path : Path) : Go Online Object :=
  found <-- onRefs (Table_Get path) ;;
  match found with
  | None => fail ErrCalendarObjectNotFound
  | Some ref => getObjectFromRef ref
  end.

Definition Online_DeleteCalendarObject (path : Path) : Go Online unit :=
  found <-- onRefs (Table_Get path) ;;
  match found with
  | None => fail (Errorf "attempted to delete missing calendar object at %q: %w" [ErrCalendarObjectNotFound])
  | Some ref =>
      wrapf "error while removing object ref: %w" []
        (onRefs (runInTx objectsNM (fun tx => TableTx_Delete tx [path]))) ;;;
      wrapf "error while removing entry from s3: %w" [] (onS3 (S3Cache.Remove c (s3Key ref)))
  end.

#[export] Instance Online_Store : Store Online := {
  CreateCalendar := Online_CreateCalendar;
  ListCalendars := Online_ListCalendars;
  GetCalendar := Online_GetCalendar;
  CreateCalendarObject := Online_CreateCalendarObject;
  ListCalendarObjects := Online_ListCalendarObjects;
  GetCalendarObject := Online_GetCalendarObject;
  DeleteCalendarObject := Online_DeleteCalendarObject
}.

(** ** It keeps the promise of a store *)

(** The errors of the system and of S3 are not those of the store. *)
Class S3Foreign : Prop := {
  ioError_foreign n e : ioError n = Some e -> isNotFound e = false;
  getObject_foreign n log key e : getObject n log key = Some e -> isNotFound e = false;
  statObject_foreign n log key e : statObject n log key = Err e -> isNotFound e = false;
  readObject_foreign n log key e : readObject n log key = Err e -> isNotFound e = false
}.

Context {JL : JsonLaws J} {CDC : DatabaseCalls CD} {RDC : DatabaseCalls RD} {BL : BTreeLaws B}.
Context (version : string -> Hash -> string -> Prop) {SL : S3Laws version} {SH : S3Holds version} {SF : S3Foreign}.
Context {NRL : NewRefLaws NR}.
Context (path_given : path c <> "").

Definition foreign {A} (m : Go S3World A) : Prop := keeps (fun _ _ => True) (fun e => isNotFound e = false) m.

#[local] Instance anything : PreOrder (fun _ _ : S3World => True).
Proof using Type. split; done. Qed.

Lemma foreign_wrapf {A} msg (m : Go S3World A) : foreign m -> foreign (wrapf msg [] m).
Proof using Type. intros H. eapply keeps_wrapf; [exact H|]. intros e He. cbn. by rewrite orb_false_r. Qed.

Lemma foreign_lift {A} (o : outcome A) : (forall e, o = Err e -> isNotFound e = false) -> foreign (lift o).
Proof using Type. intros H. apply keeps_lift; [apply _|]. destruct o; auto. Qed.

Lemma foreign_pure {A} (m : Go S3World A) : (forall w, exists a w', m w = (Ok a, w')) -> foreign m.
Proof using Type. intros H w. destruct (H w) as (a & w' & ->). done. Qed.

Lemma foreign_readFile name : foreign (readFile name).
Proof using SF.
  unfold readFile, io. apply keeps_bind; [apply _|apply keeps_bind; [apply _|by apply foreign_pure; eauto|]|].
  - intros n. destruct (ioError n) eqn:E; [|by apply keeps_ret, _].
    apply keeps_fail; [apply _|]. by eapply ioError_foreign.
  - intros _. apply keeps_bind; [apply _|by apply foreign_pure; eauto|]. intros w.
    destruct (files w !! name); [by apply keeps_ret, _|by apply keeps_fail; [apply _|]].
Qed.

Lemma foreign_fetchAndStore key : foreign (fetchAndStore c key).
Proof using SF.
  unfold fetchAndStore. apply keeps_bind; [apply _|by apply foreign_pure; eauto|]. intros n.
  apply keeps_bind; [apply _|by apply foreign_pure; unfold get; eauto|]. intros w0.
  destruct (getObject n _ key) as [e|] eqn:E.
  { apply keeps_fail; [apply _|]. cbn. rewrite orb_false_r. by eapply getObject_foreign. }
  assert (foreign (hash <-- wrapf "error while statting on object %q: %w" [] (lift (statObject n (requests w0) key)) ;;
         data <-- wrapf "error while reading reading object %q: %w" [] (lift (readObject n (requests w0) key)) ;;
         logged (store c key data hash) ;;; ret (data, hash))) as H.
  { apply keeps_bind; [apply _|apply foreign_wrapf, foreign_lift; intros; by eapply statObject_foreign|].
    intros hash.
    apply keeps_bind; [apply _|apply foreign_wrapf, foreign_lift; intros; by eapply readObject_foreign|].
    intros data. apply keeps_bind; [apply _| |intros; by apply keeps_ret, _].
    intros w. unfold logged. by destruct (store c key data hash w) as [[a|e|p|] w']. }
  intros w. specialize (H w). unfold closing. destruct (bind _ _ w) as [[a|e|p|] w'] eqn:Eb; [|exact H..].
  by destruct (closeObject n key).
Qed.

Lemma foreign_Get key expected : foreign (S3Cache.Get c key expected).
Proof using SF.
  unfold S3Cache.Get. apply keeps_bind; [apply _| |].
  - destruct (negb _); [|by apply keeps_ret, _]. apply foreign_wrapf. unfold readCached.
    apply keeps_bind; [apply _|by apply foreign_pure; unfold meta_get, bind, get, ret; eauto|].
    intros [e|]; [|by apply keeps_ret, _]. destruct (negb _); [by apply keeps_ret, _|].
    apply keeps_bind; [apply _|apply foreign_wrapf, foreign_readFile|]. intros data.
    apply keeps_bind; [apply _| |intros; by apply keeps_ret, _].
    apply foreign_pure. intros w. unfold touch, bind, S3Cache.call, setEntries, modify. eauto.
  - intros [data|]; [by apply keeps_ret, _|]. apply foreign_wrapf, foreign_fetchAndStore.
Qed.

(** *** The invariant *)

Definition filedUnder {T} `{OB : Pgcache.Object string T} (m : gmap string T) : Prop :=
  forall p o, m !! p = Some o -> ObjectKey o = p.

Lemma filedUnder_insert {T} `{OB : Pgcache.Object string T} (m : gmap string T) o :
  filedUnder m -> filedUnder (<[ObjectKey o := o]> m).
Proof using Type. intros H p o' [[<- <-]|[_ Hp]]%lookup_insert_Some; auto. Qed.

Lemma filedUnder_delete {T} `{OB : Pgcache.Object string T} (m : gmap string T) p :
  filedUnder m -> filedUnder (delete p m).
Proof using Type. intros H q o [_ Hq]%lookup_delete_Some. auto. Qed.

Definition calendarsOf (o : Online) : gmap Path Calendar := vals (cache (calendarTable o)).
Definition refsOf (o : Online) : gmap Path objectRef := vals (cache (objectRefTable o)).

(** Every reference has a key of its own in S3, that will not come again. *)
Definition ownKeys (m : gmap Path objectRef) (n : nat) : Prop :=
  (forall p q r r', m !! p = Some r -> m !! q = Some r' -> Ref r = Ref r' -> p = q)
  /\ forall p r k, m !! p = Some r -> (n <= k)%nat -> newRef k <> Ref r.

Record onlineInv (o : Online) : Prop := {
  inv_calendars : consistent (cache (calendarTable o));
  inv_calendarsFiled : filedUnder (calendarsOf o);
  inv_refs : consistent (cache (objectRefTable o));
  inv_refsFiled : filedUnder (refsOf o);
  inv_keys : ownKeys (refsOf o) (refs o);
  inv_cache : coherent version c (objectCache o)
}.

Definition heldOf (o : Online) : gmap string (Hash * string) := held (requests (objectCache o)).

(** The content is, with its ETag, what S3 holds now under the key of the reference; or the
    ETag is that of the reference, and the content is that of this version, which may be read
    from the cache. *)
Definition onlineGenuine (o : Online) (obj : Object) : Prop :=
  exists ref, refsOf o !! objPath obj = Some ref /\ objModTime obj = refModTime ref
    /\ ((objETag obj = refETag ref /\ version (s3Key ref) (objETag obj) (objData obj))
        \/ heldOf o !! s3Key ref = Some (objETag obj, objData obj)).

Definition sameOnline (o o' : Online) : Prop :=
  unchanged calendarsOf (fun o => dom (refsOf o)) onlineGenuine o o'.

Lemma sameOnline_eq o o' :
  calendarsOf o' = calendarsOf o -> refsOf o' = refsOf o -> heldOf o' = heldOf o -> sameOnline o o'.
Proof using Type. intros H1 H2 H3. unfold sameOnline, unchanged, onlineGenuine. rewrite H2, H3. done. Qed.

(** Paths without a byte above those of the runes below the last. *)
Definition onlineListed (p : Path) : Prop := all (fun a => code a <? 244) p = true.

Lemma listed_below base r : onlineListed (base +:+ r) -> lessThan r MaxRune = true.
Proof using Type.
  unfold onlineListed. rewrite all_app, andb_true_iff. intros [_ H]. destruct r as [|a r]; [done|].
  cbn in H. apply andb_prop in H as [H _]. change MaxRune with (String (chr 244) (dropString 1 MaxRune)).
  rewrite lessThan_cons. change (code (chr 244)) with 244. by rewrite H.
Qed.

(** Tables that differ in their cache only by what a transaction wrote. *)
Lemma onRefs_tx us fn (o : Online) :
  (forall tx w, built (B := B) tx -> updates tx = [] ->
     match fn tx w with
     | (Ok tx', w') => built (B := B) tx' /\ updates tx' = us /\ cache w' = cache w
     | (Err _, w') => cache w' = cache w
     | _ => False
     end) ->
  onlineInv o -> filedUnder (foldl applyRow (refsOf o) us) -> ownKeys (foldl applyRow (refsOf o) us) (refs o) ->
  match onRefs (runInTx objectsNM fn) o with
  | (Ok _, o') => onlineInv o' /\ calendarsOf o' = calendarsOf o /\ refsOf o' = foldl applyRow (refsOf o) us
      /\ heldOf o' = heldOf o
  | (Err _, o') => onlineInv o' /\ calendarsOf o' = calendarsOf o /\ refsOf o' = refsOf o /\ heldOf o' = heldOf o
  | _ => False
  end.
Proof using JL RDC BL.
  intros Hf [H1 H2 H3 H4 H5 H6] Hu Hk. unfold onRefs.
  pose proof (runInTx_spec objectsNM zeroRef fn us (objectRefTable o) Hf H3) as HR.
  destruct (runInTx objectsNM fn (objectRefTable o)) as [[a|e|p|] w]; try done.
  - destruct HR as [G1 G2].
    assert (refsOf (mkOnline (calendarTable o) w (objectCache o) (refs o)) = foldl applyRow (refsOf o) us) as E by exact G2.
    split; [|done]. split; rewrite ?E; done.
  - assert (refsOf (mkOnline (calendarTable o) w (objectCache o) (refs o)) = refsOf o) as E
      by (unfold refsOf; cbn; by rewrite HR).
    split; [|done]. split; rewrite ?E; try done. cbn. by rewrite HR.
Qed.

Lemma onS3_step {A} (m : Go S3World A) (Q : A -> S3World -> Prop) (R : S3World -> Prop) (o : Online) :
  match m (objectCache o) with
  | (Ok a, w') => coherent version c w' /\ Q a w'
  | (Err _, w') => coherent version c w' /\ R w'
  | _ => False
  end ->
  onlineInv o ->
  match onS3 m o with
  | (Ok a, o') => onlineInv o' /\ calendarsOf o' = calendarsOf o /\ refsOf o' = refsOf o /\ Q a (objectCache o')
  | (Err _, o') => onlineInv o' /\ calendarsOf o' = calendarsOf o /\ refsOf o' = refsOf o /\ R (objectCache o')
  | _ => False
  end.
Proof using Type.
  intros Hm [H1 H2 H3 H4 H5 H6]. unfold onS3.
  destruct (m (objectCache o)) as [[a|e|p|] w]; try done; by destruct Hm.
Qed.

(** What is read under a reference. *)
Lemma getObjectFromRef_spec ref (o : Online) :
  onlineInv o ->
  match getObjectFromRef ref o with
  | (Ok obj, o') => onlineInv o' /\ calendarsOf o' = calendarsOf o /\ refsOf o' = refsOf o /\ heldOf o' = heldOf o
      /\ objPath obj = refPath ref /\ objModTime obj = refModTime ref
      /\ ((objETag obj = refETag ref /\ version (s3Key ref) (objETag obj) (objData obj))
          \/ heldOf o !! s3Key ref = Some (objETag obj, objData obj))
  | (Err e, o') => onlineInv o' /\ calendarsOf o' = calendarsOf o /\ refsOf o' = refsOf o /\ heldOf o' = heldOf o
      /\ isNotFound e = false
  | _ => False
  end.
Proof using SL SF path_given.
  intros Ho. unfold getObjectFromRef, bind, wrapf.
  pose proof (Get_spec version c path_given (s3Key ref) (refETag ref) (objectCache o) (inv_cache o Ho)) as HG.
  pose proof (Get_held version c path_given (s3Key ref) (refETag ref) (objectCache o) (inv_cache o Ho)) as HH.
  destruct (foreign_Get (s3Key ref) (refETag ref) (objectCache o)) as [_ HF].
  pose proof (onS3_step (S3Cache.Get c (s3Key ref) (refETag ref))
    (fun r w' => requests w' = requests (objectCache o) /\ got version (s3Key ref) (refETag ref) (objectCache o) r)
    (fun w' => requests w' = requests (objectCache o)) o) as HS.
  unfold onS3 in *. destruct (S3Cache.Get _ _ _ _) as [[[d h]|e|p|] w]; try done.
  - destruct HG as [HG _]. destruct HS as (G1 & G2 & G3 & G4 & G5); [done..|].
    split; [done|]. split; [done|]. split; [done|]. split; [unfold heldOf; by rewrite G4|].
    split; [done|]. split; [done|]. unfold got in G5. cbn in G5. destruct G5 as [[-> G5]|G5]; [by left|by right].
  - destruct HS as (G1 & G2 & G3 & G4); [done..|]. split; [done|]. split; [done|]. split; [done|].
    split; [unfold heldOf; by rewrite G4|]. cbn. by rewrite orb_false_r.
Qed.

Lemma onCalendars_Get p (o : Online) : onCalendars (Table_Get p) o = (Ok (calendarsOf o !! p), o).
Proof using Type. by destruct o. Qed.

Lemma onRefs_Get p (o : Online) : onRefs (Table_Get p) o = (Ok (refsOf o !! p), o).
Proof using Type. by destruct o. Qed.

Lemma Online_CreateCalendar_law cal (o : Online) :
  onlineInv o ->
  match Online_CreateCalendar cal o with
  | (Ok _, o') => onlineInv o' /\ calendarsOf o !! storedPath cal = None
      /\ calendarsOf o' = <[storedPath cal := cal]> (calendarsOf o) /\ dom (refsOf o') = dom (refsOf o)
      /\ forall obj, onlineGenuine o' obj <-> onlineGenuine o obj
  | (Err e, o') => onlineInv o' /\ sameOnline o o'
      /\ (is_Some (calendarsOf o !! storedPath cal) -> isAlreadyExists e = true)
  | _ => False
  end.
Proof using JL CDC BL.
  intros Ho. pose proof Ho as [H1 H2 H3 H4 H5 H6].
  unfold Online_CreateCalendar. rewrite (bind_ok _ _ _ _ _ (onCalendars_Get _ o)).
  destruct (calendarsOf o !! storedPath cal) as [cal'|] eqn:E; [done|].
  unfold onCalendars. cbn.
  pose proof (runInTx_spec calendarsNM zeroCalendar (fun tx => TableTx_Store tx [cal])
    [mkUpdate (Some cal) None] (calendarTable o) ltac:(intros; by apply Store_spec) H1) as HR.
  destruct (runInTx _ _ _) as [[a|e|p|] w]; try done.
  - destruct HR as [G1 G2].
    assert (calendarsOf (mkOnline w (objectRefTable o) (objectCache o) (refs o)) = <[storedPath cal := cal]> (calendarsOf o)) as E'
      by exact G2.
    split; [|by rewrite E']. split; try done. rewrite E'. exact (filedUnder_insert (calendarsOf o) cal H2).
  - assert (calendarsOf (mkOnline w (objectRefTable o) (objectCache o) (refs o)) = calendarsOf o) as E'
      by (unfold calendarsOf; cbn; by rewrite HR).
    split; [|split; [|by intros []]].
    + split; rewrite ?E'; try done. cbn. by rewrite HR.
    + by apply sameOnline_eq.
Qed.

(** The reference under which an object is put: its key is that of no other path. *)
Lemma refFor_spec obj (o : Online) :
  onlineInv o ->
  exists ref o1, refFor obj (refsOf o !! objPath obj) o = (Ok ref, o1) /\ refPath ref = objPath obj
    /\ onlineInv o1 /\ calendarsOf o1 = calendarsOf o /\ refsOf o1 = refsOf o /\ heldOf o1 = heldOf o
    /\ (forall q r, refsOf o !! q = Some r -> Ref r = Ref ref -> q = objPath obj)
    /\ (forall k, (refs o1 <= k)%nat -> newRef k <> Ref ref)
    /\ (forall r, refsOf o !! objPath obj = Some r -> ref = r).
Proof using NRL.
  intros Ho. pose proof Ho as [H1 H2 H3 H4 [H5 H5'] H6]. unfold refFor.
  destruct (refsOf o !! objPath obj) as [ref|] eqn:E.
  - exists ref, o. split; [done|]. split; [exact (H4 _ _ E)|]. do 4 (split; [done|]).
    split; [intros q r Hq Hr; by eapply H5|]. split; [intros k; by eapply H5'|]. by intros r [= <-].
  - do 2 eexists. split; [reflexivity|]. split; [done|]. split.
    + split; try done. cbn [refs]. split; [exact H5|]. intros p r k Hp Hk. apply (H5' p r k Hp). lia.
    + do 3 (split; [done|]). cbn [Ref refs]. split; [|split; [|done]].
      * intros q r Hq Hr. exfalso. by apply (H5' q r (refs o) Hq (le_n _)).
      * intros k Hk HN%newRef_inj. lia.
Qed.

(** What S3 holds after a put that succeeded, or may have. *)
Definition heldAfter (o o' : Online) (key data : string) : Prop :=
  heldOf o' = heldOf o \/ exists h, heldOf o' = <[key := (h, data)]> (heldOf o).

(** A put that failed leaves what can be read elsewhere, and at its path adds its content. *)
Lemma attempted_online obj ref (o o' : Online) :
  calendarsOf o' = calendarsOf o -> refsOf o' = refsOf o -> heldAfter o o' (s3Key ref) (objData obj) ->
  (forall q r, refsOf o !! q = Some r -> Ref r = Ref ref -> q = objPath obj) ->
  attempted calendarsOf (fun o => dom (refsOf o)) onlineGenuine obj o o'.
Proof using Type.
  intros Hc Hr Hh Hk. split; [done|]. split; [by rewrite Hr|]. split.
  - intros obj' Hne. unfold onlineGenuine. rewrite Hr.
    assert (forall r, refsOf o !! objPath obj' = Some r -> heldOf o' !! s3Key r = heldOf o !! s3Key r) as HE.
    { intros r Hl. destruct Hh as [->|[h ->]]; [done|]. apply lookup_insert_ne. intros E. by apply Hne, (Hk _ r Hl). }
    split; intros (r & G1 & G2 & G3); exists r; (split; [done|]); (split; [done|]);
      (destruct G3 as [G3|G3]; [by left|right]); (etrans; [|exact G3]); [symmetry|]; by apply HE.
  - intros obj' Hp (r & G1 & G2 & G3). rewrite Hr in G1. destruct G3 as [G3|G3].
    + left. exists r. split; [done|]. split; [done|]. by left.
    + destruct Hh as [Hh|[h Hh]]; rewrite Hh in G3.
      * left. exists r. split; [done|]. split; [done|]. by right.
      * apply lookup_insert_Some in G3 as [[_ [= _ <-]]|[_ G3]]; [by right|left].
        exists r. split; [done|]. split; [done|]. by right.
Qed.

Lemma ownKeys_insert m n p r :
  ownKeys m n -> (forall q r', m !! q = Some r' -> Ref r' = Ref r -> q = p) ->
  (forall k, (n <= k)%nat -> newRef k <> Ref r) -> ownKeys (<[p := r]> m) n.
Proof using Type.
  intros [H1 H2] Hq Hk. split.
  - intros a b ra rb Ha Hb E. apply lookup_insert_Some in Ha as [[<- <-]|[Hna Ha]], Hb as [[<- <-]|[Hnb Hb]]; try done.
    + symmetry. by eapply Hq.
    + by eapply Hq.
    + by eapply H1.
  - intros a ra k Ha Hl. apply lookup_insert_Some in Ha as [[<- <-]|[Hna Ha]]; [by apply Hk|by eapply H2].
Qed.

Lemma Put_online ref data (o : Online) :
  onlineInv o ->
  match onS3 (S3Cache.Put c (s3Key ref) data) o with
  | (Ok h, o') => onlineInv o' /\ calendarsOf o' = calendarsOf o /\ refsOf o' = refsOf o
      /\ refs o' = refs o /\ version (s3Key ref) h data /\ heldOf o' = <[s3Key ref := (h, data)]> (heldOf o)
  | (Err _, o') => onlineInv o' /\ calendarsOf o' = calendarsOf o /\ refsOf o' = refsOf o
      /\ heldAfter o o' (s3Key ref) data
  | _ => False
  end.
Proof using SL path_given.
  intros Ho. pose proof (Put_spec version c path_given (s3Key ref) data (objectCache o) (inv_cache o Ho)) as HP.
  pose proof (Put_held version c (s3Key ref) data (objectCache o)) as HH. destruct Ho as [H1 H2 H3 H4 H5 H6].
  unfold onS3. destruct (S3Cache.Put _ _ _ _) as [[h|e|p|] w]; try done. by destruct HP.
Qed.

Lemma Online_CreateObject_law obj (o : Online) :
  onlineInv o ->
  match Online_CreateCalendarObject obj o with
  | (Ok _, o') => onlineInv o' /\ calendarsOf o' = calendarsOf o
      /\ dom (refsOf o') = {[ objPath obj ]} ∪ dom (refsOf o)
      /\ (exists obj', onlineGenuine o' obj' /\ objPath obj' = objPath obj /\ objData obj' = objData obj)
      /\ (forall obj', onlineGenuine o' obj' -> objPath obj' = objPath obj -> objData obj' = objData obj)
      /\ forall obj', objPath obj' <> objPath obj -> (onlineGenuine o' obj' <-> onlineGenuine o obj')
  | (Err _, o') => onlineInv o' /\ attempted calendarsOf (fun o => dom (refsOf o)) onlineGenuine obj o o'
  | _ => False
  end.
Proof using JL RDC BL SL NRL path_given.
  intros Ho. unfold Online_CreateCalendarObject. rewrite (bind_ok _ _ _ _ _ (onRefs_Get _ o)).
  destruct (refFor_spec obj o Ho) as (ref & o1 & E1 & Hp & Ho1 & Hc1 & Hr1 & Hh1 & Hk1 & Hk2 & _).
  rewrite (bind_ok _ _ _ _ _ E1).
  unfold bind at 1, wrapf at 1. pose proof (Put_online ref (objData obj) o1 Ho1) as HS.
  destruct (onS3 _ o1) as [[etag|e|p|] o2]; try done.
  2: { destruct HS as (G1 & G2 & G3 & G4). split; [done|]. apply (attempted_online obj ref); [congruence..| |exact Hk1].
       unfold heldAfter in *. by rewrite <- Hh1. }
  destruct HS as (G1 & G2 & G3 & G4 & G5 & G6). rewrite Hh1 in G6.
  set (ref' := mkRef (refPath ref) (refModTime ref) (Ref ref) etag).
  assert (foldl applyRow (refsOf o2) [mkUpdate (Some ref') None] = <[objPath obj := ref']> (refsOf o)) as HF.
  { rewrite G3, Hr1. cbn. unfold objectRef_Key. cbn. by rewrite Hp. }
  pose proof (onRefs_tx [mkUpdate (Some ref') None] (fun tx => TableTx_Store tx [ref']) o2
    ltac:(intros; by apply Store_spec) G1) as HT.
  assert (filedUnder (foldl applyRow (refsOf o2) [mkUpdate (Some ref') None])) as Hf
    by exact (filedUnder_insert (refsOf o2) ref' (inv_refsFiled o2 G1)).
  specialize (HT Hf). rewrite HF in HT.
  assert (ownKeys (<[objPath obj := ref']> (refsOf o)) (refs o2)) as Hok.
  { apply ownKeys_insert; [|exact Hk1|by rewrite G4]. rewrite <- Hr1, <- G3. apply (inv_keys o2 G1). }
  specialize (HT Hok). destruct (onRefs _ o2) as [[a|e|p|] o3]; try done.
  2: { destruct HT as (T1 & T2 & T3 & T4). split; [done|]. apply (attempted_online obj ref); [congruence..| |exact Hk1].
       right. exists etag. by rewrite T4. }
  destruct HT as (T1 & T2 & T3 & T4). rewrite G6 in T4.
  split; [done|]. split; [congruence|]. rewrite T3. split; [apply dom_insert_L|]. split; [|split].
  - exists (mkObject (objPath obj) (refModTime ref) (objData obj) etag). split; [|done].
    exists ref'. cbn. rewrite T3. split; [apply lookup_insert_eq|]. split; [done|]. by left.
  - intros obj' (r & Q1 & _ & Q2) Hpo. rewrite T3, Hpo, lookup_insert_eq in Q1. injection Q1 as <-.
    destruct Q2 as [[Q2 Q3]|Q2].
    + rewrite Q2 in Q3. by eapply version_one.
    + rewrite T4 in Q2. change (s3Key ref') with (s3Key ref) in Q2. rewrite lookup_insert_eq in Q2. by injection Q2.
  - intros obj' Hne. unfold onlineGenuine. rewrite T3, T4, lookup_insert_ne by done.
    assert (forall r, refsOf o !! objPath obj' = Some r -> s3Key ref <> s3Key r) as HK.
    { intros r Hl E. by apply Hne, (Hk1 _ r Hl). }
    split; intros (r & Q1 & Q2 & Q3); exists r; (split; [done|]); (split; [done|]);
      pose proof (lookup_insert_ne (heldOf o) (s3Key ref) (s3Key r) (etag, objData obj) (HK r Q1)) as HL;
      (destruct Q3 as [Q3|Q3]; [by left|right]); (etrans; [|exact Q3]); [symmetry|]; exact HL.
Qed.

Lemma Online_GetObject_law p (o : Online) :
  onlineInv o ->
  match Online_GetCalendarObject p o with
  | (Ok obj, o') => onlineInv o' /\ sameOnline o o'
      /\ p ∈ dom (refsOf o) /\ objPath obj = p /\ onlineGenuine o obj
  | (Err e, o') => onlineInv o' /\ sameOnline o o'
      /\ (isNotFound e = true <-> p ∉ dom (refsOf o))
  | _ => False
  end.
Proof using SL SF path_given.
  intros Ho. unfold Online_GetCalendarObject. rewrite (bind_ok _ _ _ _ _ (onRefs_Get _ o)).
  destruct (refsOf o !! p) as [ref|] eqn:E.
  - assert (refPath ref = p) as Hp by exact (inv_refsFiled o Ho _ _ E).
    pose proof (getObjectFromRef_spec ref o Ho) as HG.
    destruct (getObjectFromRef ref o) as [[obj|e|q|] o']; try done.
    + destruct HG as (G1 & G2 & G3 & G0 & G4 & G5 & G6). split; [done|]. split; [by apply sameOnline_eq|].
      split; [by eapply elem_of_dom_2|]. split; [congruence|]. exists ref. by rewrite G4, Hp, E.
    + destruct HG as (G1 & G2 & G3 & G0 & G4). rewrite G4. split; [done|]. split; [by apply sameOnline_eq|].
      split; [done|]. intros H. exfalso. by apply H, (elem_of_dom_2 _ _ _ E).
  - cbn. split; [done|]. split; [done|]. split; [|done]. intros _. by apply not_elem_of_dom.
Qed.

Lemma ownKeys_delete m n p : ownKeys m n -> ownKeys (delete p m) n.
Proof using Type.
  intros [H1 H2]. split.
  - intros a b ra rb [_ Ha]%lookup_delete_Some [_ Hb]%lookup_delete_Some. by eapply H1.
  - intros a ra k [_ Ha]%lookup_delete_Some. by eapply H2.
Qed.

Lemma Remove_online ref (o : Online) :
  onlineInv o ->
  match onS3 (S3Cache.Remove c (s3Key ref)) o with
  | (Ok _, o') | (Err _, o') => onlineInv o' /\ calendarsOf o' = calendarsOf o /\ refsOf o' = refsOf o
      /\ (heldOf o' = heldOf o \/ heldOf o' = delete (s3Key ref) (heldOf o))
  | _ => False
  end.
Proof using SL path_given.
  intros Ho. pose proof (Remove_spec version c path_given (s3Key ref) (objectCache o) (inv_cache o Ho)) as HP.
  pose proof (Remove_held version c (s3Key ref) (objectCache o)) as HH. destruct Ho as [H1 H2 H3 H4 H5 H6].
  unfold onS3. destruct (S3Cache.Remove _ _ _) as [[h|e|p|] w]; try done. by destruct HP.
Qed.

Lemma Online_DeleteObject_law p (o : Online) :
  onlineInv o ->
  match Online_DeleteCalendarObject p o with
  | (Ok _, o') => onlineInv o' /\ calendarsOf o' = calendarsOf o
      /\ p ∈ dom (refsOf o) /\ dom (refsOf o') = dom (refsOf o) ∖ {[ p ]}
      /\ forall obj, objPath obj <> p -> (onlineGenuine o' obj <-> onlineGenuine o obj)
  | (Err e, o') => onlineInv o' /\ calendarsOf o' = calendarsOf o
      /\ (dom (refsOf o') = dom (refsOf o) \/ dom (refsOf o') = dom (refsOf o) ∖ {[ p ]})
      /\ (p ∉ dom (refsOf o) -> isNotFound e = true)
      /\ forall obj, objPath obj <> p -> (onlineGenuine o' obj <-> onlineGenuine o obj)
  | _ => False
  end.
Proof using JL RDC BL SL path_given.
  intros Ho. unfold Online_DeleteCalendarObject. rewrite (bind_ok _ _ _ _ _ (onRefs_Get _ o)).
  destruct (refsOf o !! p) as [ref|] eqn:E; [|cbn; auto 6].
  assert (p ∈ dom (refsOf o)) as Hp by (by eapply elem_of_dom_2).
  unfold bind at 1, wrapf at 1.
  assert (foldl applyRow (refsOf o) [mkUpdate None (Some p)] = delete p (refsOf o)) as HF by done.
  pose proof (onRefs_tx [mkUpdate None (Some p)] (fun tx => TableTx_Delete tx [p]) o
    ltac:(intros; by apply Delete_spec) Ho) as HT. rewrite HF in HT.
  specialize (HT (filedUnder_delete (refsOf o) p (inv_refsFiled o Ho)) (ownKeys_delete _ _ p (inv_keys o Ho))).
  destruct (onRefs _ o) as [[a|e|q|] o1]; try done.
  2: { destruct HT as (T1 & T2 & T3 & T4). split; [done|]. split; [done|].
       unfold onlineGenuine. rewrite T3, T4. split; [by left|done]. }
  destruct HT as (T1 & T2 & T3 & T4). pose proof (Remove_online ref o1 T1) as HS. unfold wrapf.
  assert (forall o2, refsOf o2 = refsOf o1 -> (heldOf o2 = heldOf o1 \/ heldOf o2 = delete (s3Key ref) (heldOf o1)) ->
    forall obj, objPath obj <> p -> (onlineGenuine o2 obj <-> onlineGenuine o obj)) as Hg.
  { intros o2 H2 Hh obj Hne. unfold onlineGenuine. rewrite H2, T3, lookup_delete_ne by done.
    assert (forall r, refsOf o !! objPath obj = Some r -> heldOf o2 !! s3Key r = heldOf o !! s3Key r) as HE.
    { intros r Hl. rewrite T4 in Hh. destruct Hh as [->| ->]; [done|]. apply lookup_delete_ne. intros E'.
      apply Hne. by apply (proj1 (inv_keys o Ho) _ _ r ref Hl E). }
    split; intros (r & G1 & G2 & G3); exists r; (split; [done|]); (split; [done|]);
      (destruct G3 as [G3|G3]; [by left|right]); (etrans; [|exact G3]); [symmetry|]; by apply HE. }
  assert (dom (refsOf o1) = dom (refsOf o) ∖ {[ p ]}) as Hd by (rewrite T3; exact (dom_delete_L (refsOf o) p)).
  destruct (onS3 _ o1) as [[r|e|q|] o2]; try done; destruct HS as (G1 & G2 & G3 & G4); specialize (Hg o2 G3 G4);
    rewrite G2, G3; auto.
  do 2 (split; [done|]). split; [by right|]. split; [done|exact Hg].
Qed.

Lemma Online_ListObjects_law p (o : Online) :
  onlineInv o ->
  match Online_ListCalendarObjects p o with
  | (Ok l, o') => onlineInv o' /\ sameOnline o o'
      /\ NoDup (map objPath l)
      /\ (forall obj, obj ∈ l -> objPath obj ∈ dom (refsOf o) /\ HasPrefix (objPath obj) p = true
            /\ onlineGenuine o obj)
      /\ forall q, onlineListed q -> q ∈ dom (refsOf o) -> HasPrefix q p = true -> q ∈ map objPath l
  | (Err e, o') => onlineInv o' /\ sameOnline o o'
  | _ => False
  end.
Proof using BL SL SF path_given.
  intros Ho. unfold Online_ListCalendarObjects.
  set (l := map snd (SortedMap_Between zeroRef (cache (objectRefTable o)) p (endPath p))).
  assert (onRefs (Table_Between zeroRef p (endPath p)) o = (Ok l, o)) as El by (by destruct o).
  rewrite (bind_ok _ _ _ _ _ El). clear El.
  pose proof Ho as [_ _ Hc Hf _ _].
  destruct (Between_spec zeroRef (cache (objectRefTable o)) p Hc Hf) as (B1 & B2 & B3). fold (endPath p) l in B1, B2, B3.
  pose proof (goEach_spec
    (fun o' => onlineInv o' /\ calendarsOf o' = calendarsOf o /\ refsOf o' = refsOf o /\ heldOf o' = heldOf o)
    (fun ref obj => objPath obj = refPath ref /\ objModTime obj = refModTime ref
       /\ ((objETag obj = refETag ref /\ version (s3Key ref) (objETag obj) (objData obj))
           \/ heldOf o !! s3Key ref = Some (objETag obj, objData obj)))
    (fun ref => wrapf "error while fetching object #%d from ref at path %q: %w" [] (getObjectFromRef ref)) l o) as HG.
  match type of HG with ?P -> _ -> _ => assert P as HP end.
  { intros ref o1 _ (G1 & G2 & G3 & G0). unfold wrapf. pose proof (getObjectFromRef_spec ref o1 G1) as HR.
    destruct (getObjectFromRef ref o1) as [[obj|e|q|] o2]; try done.
    - destruct HR as (R1 & R2 & R3 & R0 & R4). rewrite G0 in R4, R0. split; [|done]. split; [done|]. by rewrite R2, R3.
    - destruct HR as (R1 & R2 & R3 & R0 & _). split; [done|]. by rewrite R2, R3, R0. }
  specialize (HG HP (conj Ho (conj eq_refl (conj eq_refl eq_refl)))).
  destruct (goEach _ l o) as [[bs|e|q|] o']; try done.
  - destruct HG as ((G1 & G2 & G3 & G0) & HF). split; [done|]. split; [by apply sameOnline_eq|].
    assert (map objPath bs = map refPath l) as Hm.
    { clear -HF. induction HF as [|ref obj l bs [H _] HF IH]; [done|]. cbn. by rewrite H, IH. }
    split; [by rewrite Hm|]. split.
    + intros obj Hobj. apply list_elem_of_lookup in Hobj as [i Hi].
      destruct (Forall2_lookup_r _ _ _ _ _ HF Hi) as (ref & Hr%list_elem_of_lookup_2 & R1 & R2 & R3).
      destruct (B2 ref Hr) as [B4 B5]. rewrite R1. split; [by eapply elem_of_dom_2|]. split; [exact B5|].
      exists ref. by rewrite R1.
    + intros q Hq [ref Hr]%elem_of_dom [r ->]%HasPrefix_spec. rewrite Hm.
      pose proof (Hf _ _ Hr) as Hk. apply list_elem_of_fmap. exists ref. split; [done|].
      apply B3; [by rewrite Hk|]. exists r. split; [done|]. by eapply listed_below.
  - destruct HG as (G1 & G2 & G3 & G0). split; [done|]. by apply sameOnline_eq.
Qed.

Lemma Online_ListCalendars_law p (o : Online) :
  onlineInv o ->
  match Online_ListCalendars p o with
  | (Ok l, o') => onlineInv o' /\ sameOnline o o'
      /\ NoDup (map storedPath l)
      /\ forall cal, onlineListed (storedPath cal) ->
           (cal ∈ l <-> calendarsOf o !! storedPath cal = Some cal /\ HasPrefix (storedPath cal) p = true)
  | _ => False
  end.
Proof using BL.
  intros Ho. pose proof Ho as [Hc Hf _ _ _ _].
  destruct (Between_spec zeroCalendar (cache (calendarTable o)) p Hc Hf) as (B1 & B2 & B3).
  assert (Online_ListCalendars p o
    = (Ok (map snd (SortedMap_Between zeroCalendar (cache (calendarTable o)) p (endPath p))), o)) as ->
    by (by destruct o).
  do 2 (split; [done|]). split; [exact B1|]. intros cal Hl. split.
  - intros H. by destruct (B2 cal H).
  - intros [H1 [r Hr]%HasPrefix_spec]. apply B3; [done|]. exists r. split; [done|].
    apply (listed_below p). by rewrite <- Hr.
Qed.

Lemma Online_GetCalendar_law p (o : Online) :
  onlineInv o ->
  match Online_GetCalendar p o with
  | (Ok cal, o') => o' = o /\ calendarsOf o !! p = Some cal
  | (Err e, o') => o' = o /\ calendarsOf o !! p = None /\ isNotFound e = true
  | _ => False
  end.
Proof using Type.
  intros Ho. unfold Online_GetCalendar. rewrite (bind_ok _ _ _ _ _ (onCalendars_Get p o)).
  by destruct (calendarsOf o !! p).
Qed.

#[export, refine] Instance Online_StoreLaws : StoreLaws Online_Store := {
  Inv := onlineInv;
  calendars := calendarsOf;
  objects := fun o => dom (refsOf o);
  genuine := onlineGenuine;
  listed := onlineListed
}.
Proof using JL CDC RDC BL SL SF SH NRL path_given.
  - exact Online_CreateCalendar_law.
  - exact Online_GetCalendar_law.
  - exact Online_ListCalendars_law.
  - exact Online_CreateObject_law.
  - exact Online_GetObject_law.
  - exact Online_ListObjects_law.
  - exact Online_DeleteObject_law.
Defined.
(** C17: The online store is a store of objects by their path, whatever fails, as long as
    nobody else writes to its bucket and a path's ETags tell its contents apart.  It holds the
    paths of its references.  What it gives under a path that is held is, with its ETag, what
    S3 holds now under the key of the reference, or the version whose ETag the reference has;
    a path is reported as not found only when it is not held.  Creating an object adds its
    path, and what is read there next, if the reading does not fail, is the content that was
    put; nothing else changes.  A creation that fails leaves the paths as they are and may only
    have changed the content of an object that was there to the one that was to be put, as S3
    is written before the database.  Deleting removes the path, also perhaps when it fails. *)
Theorem online_keeps_promise (obj : Object) (p : Path) (o : Online) :
  onlineInv o ->
  match Online_CreateCalendarObject obj o with
  | (Ok _, o') => onlineInv o' /\ calendarsOf o' = calendarsOf o
      /\ dom (refsOf o') = {[ objPath obj ]} ∪ dom (refsOf o)
      /\ match Online_GetCalendarObject (objPath obj) o' with
         | (Ok found, _) => objPath found = objPath obj /\ objData found = objData obj
         | (Err e, _) => isNotFound e = false
         | _ => False
         end
      /\ (forall obj', onlineGenuine o' obj' -> objPath obj' = objPath obj -> objData obj' = objData obj)
      /\ forall obj', objPath obj' <> objPath obj -> (onlineGenuine o' obj' <-> onlineGenuine o obj')
  | (Err _, o') => onlineInv o' /\ attempted calendarsOf (fun o => dom (refsOf o)) onlineGenuine obj o o'
  | _ => False
  end
  /\ match Online_GetCalendarObject p o with
     | (Ok found, o') => onlineInv o' /\ sameOnline o o'
         /\ p ∈ dom (refsOf o) /\ objPath found = p /\ onlineGenuine o found
     | (Err e, o') => onlineInv o' /\ sameOnline o o' /\ (isNotFound e = true <-> p ∉ dom (refsOf o))
     | _ => False
     end
  /\ match Online_DeleteCalendarObject p o with
     | (Ok _, o') => onlineInv o' /\ calendarsOf o' = calendarsOf o
         /\ p ∈ dom (refsOf o) /\ dom (refsOf o') = dom (refsOf o) ∖ {[ p ]}
         /\ forall obj, objPath obj <> p -> (onlineGenuine o' obj <-> onlineGenuine o obj)
     | (Err e, o') => onlineInv o' /\ calendarsOf o' = calendarsOf o
         /\ (dom (refsOf o') = dom (refsOf o) \/ dom (refsOf o') = dom (refsOf o) ∖ {[ p ]})
         /\ (p ∉ dom (refsOf o) -> isNotFound e = true)
         /\ forall obj, objPath obj <> p -> (onlineGenuine o' obj <-> onlineGenuine o obj)
     | _ => False
     end.
Proof using JL RDC BL SL SF SH NRL path_given.
  intros Ho. split; [|split; [by apply Online_GetObject_law|by apply Online_DeleteObject_law]].
  pose proof (Online_CreateObject_law obj o Ho) as HC.
  destruct (Online_CreateCalendarObject obj o) as [[a|e|q|] o1]; try done.
  destruct HC as (C1 & C2 & C3 & _ & C4 & C5). do 3 (split; [done|]). split; [|done].
  pose proof (Online_GetObject_law (objPath obj) o1 C1) as HG.
  destruct (Online_GetCalendarObject (objPath obj) o1) as [[found|e|q|] o2]; try done.
  - destruct HG as (_ & _ & _ & G1 & G2). auto.
  - destruct HG as (_ & _ & G). destruct (isNotFound e); [|done]. exfalso. apply (proj1 G eq_refl). rewrite C3. apply elem_of_union. left. by apply elem_of_singleton.
Qed.
End Online.
