(* ===== verification/CalBackend.v ===== *)
(** * The calendar backend

    service/calendar/backend: calendars and objects over any store (backend.go,
    etag.go, user_principal.go), with the conditional headers of lib/webdav
    (webdav.go); proved against the promise of a store.

    The quoting of an ETag is the class [Quoting]. *)

From stdpp Require Import gmap.
From S2P Require Import Prelude GoStrings GoPath GoSearch Caldav CalStore.
From Stdlib Require Import Strings.Ascii.
#[local] Open Scope Z_scope.
#[local] Set Warnings "-clear-no-such-hyp".

(** ** lib/webdav: conditional headers *)

(** [strconv.Quote] and [strconv.Unquote] *)
Class Quoting : Type := { Quote : string -> string; Unquote : string -> outcome string }.
Class QuotingLaws (Q : Quoting) : Prop := {
  Unquote_ends s : ends (Unquote s);
  Unquote_Quote s : Unquote (Quote s) = Ok s
}.

Section Conditional.
Context {Q : Quoting}.

Definition ConditionalMatch : Type := string.
Definition IsSet (val : ConditionalMatch) : bool := negb (val =? "")%string.
Definition IsWildcard (val : ConditionalMatch) : bool := (val =? "*")%string.

Definition ConditionalMatch_ETag (val : ConditionalMatch) : outcome string :=
  wrapping "webdav: failed to unquote ETag %q: %w" (Unquote val).

Definition MatchETag (val : ConditionalMatch) (etag : string) : outcome bool :=
  if (val =? "")%string then Ok false
  else if IsWildcard val then Ok true
  else t <-? ConditionalMatch_ETag val ;; Ok (t =? etag)%string.

(** ** etag.go *)

Definition ETagMatcher : Type := string -> outcome bool.

Definition NegateETagMatch (matcher : ETagMatcher) : ETagMatcher :=
  fun etag => matched <-? matcher etag ;; Ok (negb matched).

Definition AndETagMatch (matchers : list ETagMatcher) : ETagMatcher :=
  fun etag => allMatch (fun matcher : ETagMatcher => matcher etag) matchers.
End Conditional.

(** ** backend.go *)

Definition ErrUnexpectedNilCalendar : error := PlainError "unexpected nil calendar".
Definition ErrUnexpectedNilObject : error := PlainError "unexpected nil object".
Definition ErrETagDidNotMatch : error := PlainError "etag did not match".
Definition ErrMissingAuthentication : error := PlainError "missing authentication".
Definition StatusPreconditionFailed : Z := 412.

Definition defaultComponentSet : list string := ["VEVENT"; "VTODO"; "VJOURNAL"; "VFREEBUSY"].

Record PutCalendarObjectOptions : Type := mkPutOptions {
  IfNoneMatch : ConditionalMatch;
  IfMatch : ConditionalMatch
}.

(** The user that the context names, if any. *)
Definition CurrentUserPrincipal (auth : option string) : outcome string :=
  match auth with
  | None => Err ErrMissingAuthentication
  | Some username => Ok ("/" +:+ username)
  end.

Definition CalendarHomeSetPath (auth : option string) : outcome string :=
  up <-? wrapping "could not get user principal: %w" (CurrentUserPrincipal auth) ;;
  Ok (up +:+ "/calendars/").

Definition normalizePath (path : string) : Path := TrimRight (Clean path) slash.

Definition caldavCalendarToStoreCalendar (cal : Caldav.Calendar) : Calendar :=
  mkCalendar (normalizePath (calendarPath cal))
    (mkMetadata (calendarName cal) (Description cal) (SupportedComponentSet cal) (MaxResourceSize cal)
       (Color cal) "").

Definition storeCalendarToCaldavCalendar (cal : Calendar) : Caldav.Calendar :=
  Caldav.mkCalendar (storedPath cal) (metadataName (Metadata cal)) (metadataDescription (Metadata cal)) 0
    (metadataComponentSet (Metadata cal)) (metadataColor (Metadata cal)).

Section Backend.
Context {I : Ics} {Q : Quoting} {E : CalEnv} {W : Type} {S : Store W}.

(** The store and the number of times the clock was read. *)
Record Backend : Type := mkBackend { store : W; clock : nat }.

Definition onStore {A} (m : Go W A) : Go Backend A :=
  fun b => let '(a, w) := m (store b) in (a, mkBackend w (clock b)).

Definition timeNow : Go Backend Z := fun b => (Ok (currentTime (clock b)), mkBackend (store b) (Datatypes.S (clock b))).

Definition Backend_CreateCalendar (calendar : option Caldav.Calendar) : Go Backend unit :=
  match calendar with
  | None => fail ErrUnexpectedNilCalendar
  | Some cal =>
      let cal :=
        match SupportedComponentSet cal with
        | [] => Caldav.mkCalendar (calendarPath cal) (calendarName cal) (Description cal)
                  (MaxResourceSize cal) defaultComponentSet (Color cal)
        | _ => cal
        end in
      wrapf "error while creating calendar at path %q in storage: %w" []
        (onStore (CreateCalendar (caldavCalendarToStoreCalendar cal)))
  end.

Definition Backend_ListCalendars (auth : option string) : Go Backend (list Caldav.Calendar) :=
  path <-- wrapf "could not get home-set path: %w" [] (lift (CalendarHomeSetPath auth)) ;;
  cals <-- wrapf "error while fetching calendars at path %q from storage: %w" []
    (onStore (ListCalendars (normalizePath path))) ;;
  ret (map storeCalendarToCaldavCalendar cals).

Definition Backend_GetCalendar (path : string) : Go Backend Caldav.Calendar :=
  cal <-- wrapf "error while getting calendar at path %q in storage: %w" []
    (onStore (GetCalendar (normalizePath path))) ;;
  ret (storeCalendarToCaldavCalendar cal).

Definition caldavObjectToStoreObject (path : string) (calendar : ICalendar) : Go Backend Object :=
  now <-- timeNow ;;
  lift (SerializeObject (mkCalendarObject path now 0 "" (Some calendar))).

Definition storeObjectToCaldavObject (obj : Object) : outcome CalendarObject :=
  cal <-? wrapping "error while parsing ics object and generating etag: %w" (Object_Calendar obj) ;;
  Ok (mkCalendarObject (objPath obj) (objModTime obj) (Object_Size obj) (objETag obj) (Some cal)).

(** The matchers of the headers that are set. *)
Definition optionMatcher (opts : PutCalendarObjectOptions) : ETagMatcher :=
  AndETagMatch
    ((if IsSet (IfMatch opts) then [MatchETag (IfMatch opts)] else [])
     ++ (if IsSet (IfNoneMatch opts) then [NegateETagMatch (MatchETag (IfNoneMatch opts))] else [])).

(** A missing object meets every condition. *)
Definition checkOptions (path : string) (opts : PutCalendarObjectOptions) : Go Backend unit :=
  fun b =>
    match onStore (GetCalendarObject (normalizePath path)) b with
    | (Err e, b') =>
        if isNotFound e then (Ok tt, b')
        else (Err (Errorf "error while checking for previous object at path %q: %w" [e]), b')
    | (Ok obj, b') =>
        match optionMatcher opts (objETag obj) with
        | Err e => (Err (HTTPError StatusPreconditionFailed (Errorf "error while matching etag: %w" [e])), b')
        | Ok false => (Err ErrETagDidNotMatch, b')
        | Ok true => (Ok tt, b')
        | Panic p => (Panic p, b')
        | Diverge => (Diverge, b')
        end
    | (Panic p, b') => (Panic p, b')
    | (Diverge, b') => (Diverge, b')
    end.

Definition PutCalendarObject (path : string) (calendar : option ICalendar)
    (opts : option PutCalendarObjectOptions) : Go Backend CalendarObject :=
  match calendar with
  | None => fail ErrUnexpectedNilObject
  | Some cal =>
      (match opts with Some opts => checkOptions path opts | None => ret tt end) ;;;
      obj <-- wrapf "could not convert caldav Object at path %q into store Object: %w" []
        (caldavObjectToStoreObject path cal) ;;
      wrapf "error while creating calendar object at path %q in storage: %w" []
        (onStore (CreateCalendarObject obj)) ;;;
      wrapf "error while converting stored object back to a caldav CalendarObject: %w" []
        (lift (storeObjectToCaldavObject obj))
  end.

Definition Backend_GetCalendarObject (path : string) : Go Backend CalendarObject :=
  obj <-- wrapf "error while fetching calendar object at path %q from storage: %w" []
    (onStore (GetCalendarObject (normalizePath path))) ;;
  wrapf "error while converting object at path %q to a caldav CalendarObject: %w" []
    (lift (storeObjectToCaldavObject obj)).

Definition listCalendarObjects (path : string) : Go Backend (list CalendarObject) :=
  objs <-- wrapf "error while fetching calendar objects at path %q from storage: %w" []
    (onStore (ListCalendarObjects (normalizePath path))) ;;
  goEach (fun obj => wrapf "error while converting object #%d at path %q to a caldav CalendarObject: %w" []
            (lift (storeObjectToCaldavObject obj))) objs.

Definition Backend_ListCalendarObjects (path : string) : Go Backend (list CalendarObject) :=
  listCalendarObjects path.

Definition QueryCalendarObjects (path : string) (query : CalendarQuery) : Go Backend (list CalendarObject) :=
  objects <-- wrapf "error while listing all calendar objects for query: %w" [] (listCalendarObjects path) ;;
  wrapf "error while filtering down calendar objects: %w" []
    (lift (Filter (Some (QueryCompFilter query)) objects)).

Definition Backend_DeleteCalendarObject (path : string) : Go Backend unit :=
  wrapf "error while deleting calendar object at path %q in storage: %w" []
    (onStore (DeleteCalendarObject (normalizePath path))).

(** ** Over any store that keeps its promise *)

Context {SL : StoreLaws S} {IL : IcsLaws I} {QL : QuotingLaws Q}.

(** The store is as it was, for its clients. *)
Definition untouched (b b' : Backend) : Prop :=
  Inv (store b') /\ unchanged calendars objects genuine (store b) (store b').

Lemma untouched_refl b : Inv (store b) -> untouched b b.
Proof using Type. by intros. Qed.

Lemma untouched_trans b1 b2 b3 : untouched b1 b2 -> untouched b2 b3 -> untouched b1 b3.
Proof using Type.
  intros (_ & H1 & H2 & H3) (H4 & H5 & H6 & H7). split; [done|]. split; [congruence|].
  split; [congruence|]. intros o. by rewrite H7, H3.
Qed.

Lemma wrapping_Ok {A} msg (o : outcome A) a : wrapping msg o = Ok a <-> o = Ok a.
Proof using Type. by destruct o. Qed.

Lemma ends_wrapping {A} msg (o : outcome A) : ends o -> ends (wrapping msg o).
Proof using Type. by destruct o. Qed.

Lemma ends_obind {A B} (o : outcome A) (k : A -> outcome B) : ends o -> (forall a, ends (k a)) -> ends (obind o k).
Proof using Type. destruct o; cbn; auto. Qed.

Lemma storeObject_ends obj : ends (storeObjectToCaldavObject obj).
Proof using IL. apply ends_obind; [|done]. by apply ends_wrapping, ends_wrapping, ParseCalendar_ends. Qed.

Lemma storeObject_path obj co : storeObjectToCaldavObject obj = Ok co -> objectPath co = objPath obj.
Proof using Type.
  unfold storeObjectToCaldavObject. intros (cal & _ & H)%obind_ok_inv. by injection H as <-.
Qed.

Lemma MatchETag_ends val etag : ends (MatchETag val etag).
Proof using QL.
  unfold MatchETag. destruct (_ =? _)%string; [done|]. destruct (IsWildcard val); [done|].
  apply ends_obind; [|done]. apply ends_wrapping, Unquote_ends.
Qed.

Lemma ends_allMatch {A} (f : A -> outcome bool) l : Forall (fun a => ends (f a)) l -> ends (allMatch f l).
Proof using Type. induction 1 as [|a l Ha Hl IH]; [done|]. cbn. apply ends_obind; [done|]. by intros []. Qed.

Lemma optionMatcher_ends opts etag : ends (optionMatcher opts etag).
Proof using QL.
  apply ends_allMatch, Forall_app. unfold NegateETagMatch.
  destruct (IsSet (IfMatch opts)), (IsSet (IfNoneMatch opts)); split; repeat constructor;
    first [apply MatchETag_ends | apply ends_obind; [apply MatchETag_ends|done]].
Qed.

(** What the conditional headers ask of the ETag of an object that is there: If-Match that it
    is this one, or any; If-None-Match that it is not this one, and not any. *)
Definition conditionsMet (opts : PutCalendarObjectOptions) (etag : string) : Prop :=
  (IfMatch opts <> "" -> IfMatch opts = "*" \/ Unquote (IfMatch opts) = Ok etag)
  /\ (IfNoneMatch opts <> "" -> IfNoneMatch opts <> "*" /\ exists t, Unquote (IfNoneMatch opts) = Ok t /\ t <> etag).

Lemma MatchETag_spec val etag matched :
  val <> "" -> MatchETag val etag = Ok matched ->
  if matched then val = "*" \/ Unquote val = Ok etag else val <> "*" /\ exists t, Unquote val = Ok t /\ t <> etag.
Proof using Type.
  intros Hv. unfold MatchETag, IsWildcard, ConditionalMatch_ETag.
  destruct (String.eqb_spec val "") as [|_]; [done|]. destruct (String.eqb_spec val "*") as [->|Hn]; [intros [= <-]; by left|].
  destruct (Unquote val) as [t|e|p|] eqn:EU; cbn; try done.
  destruct (String.eqb_spec t etag) as [->|Ht]; intros [= <-]; [by right|]. split; [done|]. by exists t.
Qed.

Lemma optionMatcher_spec opts etag : optionMatcher opts etag = Ok true -> conditionsMet opts etag.
Proof using Type.
  unfold optionMatcher, AndETagMatch, IsSet, conditionsMet, NegateETagMatch.
  intros H.
  assert (forall l, allMatch (fun m : ETagMatcher => m etag) l = Ok true -> Forall (fun m : ETagMatcher => m etag = Ok true) l) as HA.
  { clear. induction l as [|m l IH]; [constructor|]. cbn. intros (ok & Hm & H)%obind_ok_inv. destruct ok; [|done].
    constructor; [done|by apply IH]. }
  apply HA, Forall_app in H as [H1 H2]. split; intros Hs; rewrite (proj2 (String.eqb_neq _ _) Hs) in *; cbn [negb] in *.
  - apply Forall_cons in H1 as [H1 _]. by apply (MatchETag_spec _ _ true).
  - apply Forall_cons in H2 as [(b & Hb & H2)%obind_ok_inv _]. injection H2 as H2. destruct b; [done|].
    by apply (MatchETag_spec _ _ false).
Qed.

(** What the check of the headers finds. *)
Lemma checkOptions_spec path opts b :
  Inv (store b) ->
  match checkOptions path opts b with
  | (Ok _, b') => untouched b b'
      /\ (normalizePath path ∈ objects (store b) -> exists o, genuine (store b) o
            /\ objPath o = normalizePath path /\ conditionsMet opts (objETag o))
  | (Err _, b') => untouched b b'
  | _ => False
  end.
Proof using IL QL.
  intros Hb. unfold checkOptions, onStore. pose proof (GetObject_law (normalizePath path) (store b) Hb) as HG.
  destruct (GetCalendarObject _ (store b)) as [[obj|e|p|] w]; try done.
  - destruct HG as (G1 & G2 & G3 & G4 & G5). pose proof (optionMatcher_ends opts (objETag obj)) as HM.
    destruct (optionMatcher opts (objETag obj)) as [[|]|e|p|] eqn:Em; try done.
    split; [done|]. intros _. exists obj. split_and!; try done. by apply optionMatcher_spec.
  - destruct HG as (G1 & G2 & G3). destruct (isNotFound e); [|done]. split; [done|].
    intros H. by apply G3 in H.
Qed.

(** The conditional headers were met, if the normal form of the path was held. *)
Definition checked (path : string) (opts : PutCalendarObjectOptions) (b : Backend) : Prop :=
  normalizePath path ∈ objects (store b) ->
  exists o, genuine (store b) o /\ objPath o = normalizePath path /\ conditionsMet opts (objETag o).

(** The effect of a put: the path is held, and what is held there is the content of the
    calendar. *)
Definition putDone (path : string) (cal : ICalendar) (opts : PutCalendarObjectOptions) (b b' : Backend) : Prop :=
  Inv (store b') /\ calendars (store b') = calendars (store b)
  /\ objects (store b') = {[ path ]} ∪ objects (store b)
  /\ (exists o, genuine (store b') o /\ objPath o = path /\ SerializeTo cal = Ok (objData o))
  /\ (forall o, genuine (store b') o -> objPath o = path -> SerializeTo cal = Ok (objData o))
  /\ (forall o, objPath o <> path -> (genuine (store b') o <-> genuine (store b) o))
  /\ checked path opts b.

(** What a put may have changed when the store fails: the content at its path, to that of the
    calendar. *)
Definition putTried (path : string) (cal : ICalendar) (opts : PutCalendarObjectOptions) (b b' : Backend) : Prop :=
  Inv (store b') /\ calendars (store b') = calendars (store b) /\ objects (store b') = objects (store b)
  /\ (forall o, genuine (store b') o -> objPath o = path -> genuine (store b) o \/ SerializeTo cal = Ok (objData o))
  /\ (forall o, objPath o <> path -> (genuine (store b') o <-> genuine (store b) o))
  /\ checked path opts b.

Lemma PutCalendarObject_spec path cal opts b :
  Inv (store b) ->
  match PutCalendarObject path (Some cal) (Some opts) b with
  | (Ok co, b') => putDone path cal opts b b' /\ objectPath co = path
  | (Err _, b') => untouched b b' \/ putTried path cal opts b b' \/ putDone path cal opts b b'
  | _ => False
  end.
Proof using IL QL.
  intros Hb. unfold PutCalendarObject, bind at 1. pose proof (checkOptions_spec path opts b Hb) as HC.
  destruct (checkOptions path opts b) as [[u|e|p|] b1]; try done; [|by left]. destruct HC as [Hu Ho].
  unfold bind at 1, wrapf at 1, caldavObjectToStoreObject, timeNow, bind at 1, lift. cbv beta iota.
  unfold SerializeObject. cbn [Data objectPath ModTime]. pose proof (SerializeTo_ends cal) as HS.
  destruct (SerializeTo cal) as [data|e|p|] eqn:Es; try done; [|left; exact Hu].
  cbn [wrapping obind]. set (obj := mkObject path _ data _). set (b2 := mkBackend (store b1) _).
  unfold bind, wrapf at 1, onStore. pose proof Hu as [Hi1 _]. pose proof (CreateObject_law obj (store b2) Hi1) as HO.
  destruct (CreateCalendarObject obj (store b2)) as [[u'|e|p|] w3]; try done.
  2: { right. left. destruct HO as (G1 & G2 & G3 & G4 & G5). destruct Hu as (_ & U1 & U2 & U3).
       split; [done|]. cbn [store]. split; [by rewrite G2|]. split; [by rewrite G3|]. split; [|split; [|exact Ho]].
       - intros o Hg Hp. destruct (G5 o Hp Hg) as [H|H]; [left; by apply U3|right]. by rewrite H.
       - intros o Hne. rewrite G4 by done. apply U3. }
  destruct HO as (G1 & G2 & G3 & (o' & G4 & G5 & G6) & G8 & G7). destruct Hu as (_ & U1 & U2 & U3).
  assert (putDone path cal opts b (mkBackend w3 (clock b2))) as HP.
  { split; [done|]. cbn [store]. split; [by rewrite G2|]. split; [by rewrite G3; cbn; rewrite U2|].
    split; [exists o'; by rewrite G5, G6, Es|]. split; [intros o Hg Hp; by rewrite (G8 o Hg Hp)|]. split; [|exact Ho].
    intros o Hne. rewrite G7 by done. apply U3. }
  unfold wrapf, lift. pose proof (storeObject_ends obj) as HE.
  destruct (storeObjectToCaldavObject obj) as [co|e|p|] eqn:Ec; try done; [|by right; right].
  split; [done|]. by apply storeObject_path in Ec.
Qed.

(** C16: Putting an object over any store.  On success the path is held, with the content of
    the calendar and no other, nothing else has changed, and if an object was held at the
    normal form of the path, which is the path itself unless that has empty or dot elements or
    ends with a slash, then the conditional headers were met by its ETag: If-Match names it or
    any, If-None-Match another one.  A put that is refused for its headers changes nothing; one
    that fails in the store may have changed the content that was held at the path to that of
    the calendar, and one whose result cannot be read back was done, but both only when the
    headers were met.  With If-None-Match: *, an object held at the normal form of the path is
    an error, and nothing is changed. *)
Theorem Put_conditional (path : string) (cal : ICalendar) (opts : PutCalendarObjectOptions) (b : Backend) :
  Inv (store b) ->
  match PutCalendarObject path (Some cal) (Some opts) b with
  | (Ok co, b') => putDone path cal opts b b' /\ objectPath co = path
  | (Err _, b') => untouched b b' \/ putTried path cal opts b b' \/ putDone path cal opts b b'
  | _ => False
  end
  /\ (IfNoneMatch opts = "*"%string -> normalizePath path ∈ objects (store b) ->
      exists e b', PutCalendarObject path (Some cal) (Some opts) b = (Err e, b') /\ untouched b b').
Proof using IL QL.
  intros Hb. pose proof (PutCalendarObject_spec path cal opts b Hb) as HP. split; [exact HP|].
  intros Hw Hin.
  assert (~ checked path opts b) as Hno.
  { intros H. destruct (H Hin) as (o & _ & _ & _ & Ho). rewrite Hw in Ho. by destruct (Ho ltac:(done)) as [[] _]. }
  destruct (PutCalendarObject path (Some cal) (Some opts) b) as [[co|e|p|] b']; try done.
  - by destruct HP as [(_ & _ & _ & _ & _ & _ & []%Hno) _].
  - exists e, b'. split; [done|]. destruct HP as [HP|[(_ & _ & _ & _ & _ & []%Hno)|(_ & _ & _ & _ & _ & _ & []%Hno)]]. done.
Qed.

(** ** Reading *)

Lemma listCalendarObjects_spec path b :
  Inv (store b) ->
  match listCalendarObjects path b with
  | (Ok cos, b') => untouched b b'
      /\ exists objs, Forall2 (fun o co => storeObjectToCaldavObject o = Ok co) objs cos
          /\ (forall o, o ∈ objs -> objPath o ∈ objects (store b)
                /\ HasPrefix (objPath o) (normalizePath path) = true /\ genuine (store b) o)
          /\ forall p, listed p -> p ∈ objects (store b) -> HasPrefix p (normalizePath path) = true ->
                p ∈ map objPath objs
  | (Err _, b') => untouched b b'
  | _ => False
  end.
Proof using IL.
  intros Hb. unfold listCalendarObjects, bind, wrapf at 1, onStore.
  pose proof (ListObjects_law (normalizePath path) (store b) Hb) as HL.
  destruct (ListCalendarObjects _ (store b)) as [[objs|e|p|] w]; try done.
  destruct HL as (G1 & G2 & G3 & G4 & G5). set (b1 := mkBackend w (clock b)).
  pose proof (goEach_spec (fun b' => b' = b1) (fun o co => storeObjectToCaldavObject o = Ok co)
    (fun obj => wrapf "error while converting object #%d at path %q to a caldav CalendarObject: %w" []
       (lift (storeObjectToCaldavObject obj))) objs b1) as HG.
  match type of HG with ?P -> _ -> _ => assert P as HP end.
  { intros o b' _ ->. unfold wrapf, lift. pose proof (storeObject_ends o) as HE.
    by destruct (storeObjectToCaldavObject o). }
  specialize (HG HP eq_refl). destruct (goEach _ objs b1) as [[cos|e|p|] b2]; try done.
  - destruct HG as [-> HF]. split; [done|]. by exists objs.
  - by subst b2.
Qed.

(** C19: A query over any store changes nothing, and returns the objects held at the paths
    that begin with the text of the normal form of the path, whose content matches its filter:
    every one returned is read from such an object that is held and matches, and every such
    object held, at a path that the store lists, was read and is returned unless it does not
    match.  Objects of a collection whose name only begins with that of the path are among
    them. *)
Theorem Query_spec (path : string) (query : CalendarQuery) (b : Backend) :
  Inv (store b) ->
  match QueryCalendarObjects path query b with
  | (Ok cos, b') => untouched b b'
      /\ (forall co, co ∈ cos -> Match (QueryCompFilter query) co = Ok true
            /\ exists o, genuine (store b) o /\ objPath o ∈ objects (store b)
                 /\ HasPrefix (objPath o) (normalizePath path) = true /\ storeObjectToCaldavObject o = Ok co)
      /\ forall p, listed p -> p ∈ objects (store b) -> HasPrefix p (normalizePath path) = true ->
            exists o co, genuine (store b) o /\ objPath o = p /\ storeObjectToCaldavObject o = Ok co
              /\ (co ∈ cos \/ Match (QueryCompFilter query) co = Ok false)
  | (Err _, b') | (Panic _, b') => untouched b b'
  | (Diverge, _) => False
  end.
Proof using IL.
  intros Hb. unfold QueryCalendarObjects, bind, wrapf at 1.
  pose proof (listCalendarObjects_spec path b Hb) as HL.
  destruct (listCalendarObjects path b) as [[all|e|p|] b1]; try done.
  destruct HL as (Hu & objs & HF & H1 & H2). unfold wrapf, lift.
  pose proof (filterObjects_spec (QueryCompFilter query) all []) as HS. cbn [Filter].
  destruct (filterObjects _ all []) as [cos|e|p|]; try done.
  destruct HS as [Hv ->]. rewrite app_nil_l. split; [done|].
  assert (forall o co, objs !! o = Some co -> exists c, all !! o = Some c /\ storeObjectToCaldavObject co = Ok c) as Hl.
  { intros i o Hi. by apply (Forall2_lookup_l _ _ _ _ _ HF). }
  split.
  - intros co Hco. apply list_elem_of_In, filter_In in Hco as [Hin Hm]. apply list_elem_of_In in Hin.
    destruct (Hv co Hin) as [v Ev]. unfold matched in Hm. rewrite Ev in Hm. subst v. split; [done|].
    apply list_elem_of_lookup in Hin as [i Hi].
    destruct (Forall2_lookup_r _ _ _ _ _ HF Hi) as (o & Ho%list_elem_of_lookup_2 & Hc).
    destruct (H1 o Ho) as (G1 & G2 & G3). by exists o.
  - intros p Hlp Hin Hpre. specialize (H2 p Hlp Hin Hpre). apply list_elem_of_fmap in H2 as (o & -> & Ho).
    destruct (H1 o Ho) as (G1 & G2 & G3). apply list_elem_of_lookup in Ho as [i Hi].
    destruct (Hl i o Hi) as (co & Hco%list_elem_of_lookup_2 & Hc). exists o, co.
    split; [done|]. split; [done|]. split; [done|].
    destruct (Hv co Hco) as [[|] Ev]; [left|by right].
    apply list_elem_of_In, filter_In. split; [by apply list_elem_of_In|]. unfold matched. by rewrite Ev.
Qed.

Lemma Backend_GetCalendarObject_spec path b :
  Inv (store b) ->
  match Backend_GetCalendarObject path b with
  | (Ok co, b') => untouched b b' /\ normalizePath path ∈ objects (store b)
      /\ exists o, genuine (store b) o /\ objPath o = normalizePath path /\ storeObjectToCaldavObject o = Ok co
  | (Err _, b') => untouched b b'
  | _ => False
  end.
Proof using IL.
  intros Hb. unfold Backend_GetCalendarObject, bind, wrapf at 1, onStore.
  pose proof (GetObject_law (normalizePath path) (store b) Hb) as HG.
  destruct (GetCalendarObject _ (store b)) as [[obj|e|p|] w]; try done; [|by destruct HG as (? & ? & _)].
  destruct HG as (G1 & G2 & G3 & G4 & G5). unfold wrapf, lift. pose proof (storeObject_ends obj) as HE.
  destruct (storeObjectToCaldavObject obj) as [co|e|p|] eqn:Ec; try done.
  split; [done|]. split; [done|]. by exists obj.
Qed.

(** A condition on an object that is missing is met: the put creates it. *)
Lemma if_match_missing path opts b :
  Inv (store b) -> normalizePath path ∉ objects (store b) -> exists b', checkOptions path opts b = (Ok tt, b').
Proof using Type.
  intros Hb Hn. unfold checkOptions, onStore. pose proof (GetObject_law (normalizePath path) (store b) Hb) as HG.
  destruct (GetCalendarObject _ (store b)) as [[obj|e|p|] w]; try done.
  - by destruct HG as (_ & _ & H & _).
  - destruct HG as (_ & _ & H). rewrite (proj2 H Hn). by eexists.
Qed.
End Backend.
