(* ===== verification/WebDav.v ===== *)
(** * WebDAV

    lib/webdav/internal and lib/webdav/error: the errors with a status, the headers,
    the properties of a PROPFIND and their multi-status responses (elements.go,
    internal.go, server.go).

    XML is decoded by encoding/xml, behind the class [Xml]; encoding the known
    elements does not fail.  The order in which Go iterates over a map of properties
    is the class [RangeProps]. *)

From stdpp Require Import base list strings.
From S2P Require Import Prelude GoStrings GoSearch.
#[local] Open Scope Z_scope.
#[local] Set Warnings "-clear-no-such-hyp".

(** ** lib/webdav/error *)

Definition StatusOK : Z := 200.
Definition StatusBadRequest : Z := 400.
Definition StatusForbidden : Z := 403.
Definition StatusNotFound : Z := 404.
Definition StatusMethodNotAllowed : Z := 405.
Definition StatusInternalServerError : Z := 500.
Definition StatusNotImplemented : Z := 501.

Definition HTTPErrorf (code : Z) (msg : string) : error := HTTPError code (PlainError msg).

(** [errors.AsType[*HTTPError]]: the code of the first error with a status. *)
Fixpoint asHTTPError (e : error) : option Z :=
  match e with
  | HTTPError code _ => Some code
  | Errorf _ ws =>
      (fix first (l : list error) : option Z :=
         match l with
         | [] => None
         | w :: l' => match asHTTPError w with Some code => Some code | None => first l' end
         end) ws
  | _ => None
  end.

(** The code of [HTTPErrorFromError], of [ServeError] and of [NewErrorResponse]. *)
Definition errorStatus (err : error) : Z := default StatusInternalServerError (asHTTPError err).

Definition IsNotFound (err : error) : bool :=
  match asHTTPError err with Some code => code =? StatusNotFound | None => false end.

(** ** internal.go *)

Definition ErrInvalidDepthValue : error := PlainError "webdav: invalid Depth value".
Definition ErrInvalidOverwriteValue : error := PlainError "webdav: invalid Overwrite value".

Definition Depth : Type := Z.
Definition DepthZero : Depth := 0.
Definition DepthOne : Depth := 1.
Definition DepthInfinity : Depth := -1.

Definition ParseDepth (s : string) : outcome Depth :=
  if (s =? "0")%string then Ok DepthZero
  else if (s =? "1")%string then Ok DepthOne
  else if (s =? "infinity")%string then Ok DepthInfinity
  else Err ErrInvalidDepthValue.

Definition Depth_String (d : Depth) : outcome string :=
  if d =? DepthZero then Ok "0"
  else if d =? DepthOne then Ok "1"
  else if d =? DepthInfinity then Ok "infinity"
  else Panic "webdav: invalid Depth value".

Definition ParseOverwrite (s : string) : outcome bool :=
  if (s =? "T")%string then Ok true
  else if (s =? "F")%string then Ok false
  else Err ErrInvalidOverwriteValue.

Definition FormatOverwrite (overwrite : bool) : string := if overwrite then "T" else "F".

(** What is printed is read back. *)
Lemma ParseDepth_String d s : Depth_String d = Ok s -> ParseDepth s = Ok d.
Proof.
  unfold Depth_String. destruct (Z.eqb_spec d DepthZero) as [->|]; [by intros [= <-]|].
  destruct (Z.eqb_spec d DepthOne) as [->|]; [by intros [= <-]|].
  destruct (Z.eqb_spec d DepthInfinity) as [->|]; [by intros [= <-]|]. done.
Qed.

Lemma ParseOverwrite_Format b : ParseOverwrite (FormatOverwrite b) = Ok b.
Proof. by destruct b. Qed.

(** ** elements.go: properties *)

(** An XML name: its name space and local part. *)
Definition Name : Type := string * string.
Definition Namespace : string := "DAV:".
Definition ResourceTypeName : Name := (Namespace, "resourcetype").
Definition DisplayNameName : Name := (Namespace, "displayname").
Definition GetContentLengthName : Name := (Namespace, "getcontentlength").
Definition GetContentTypeName : Name := (Namespace, "getcontenttype").
Definition GetLastModifiedName : Name := (Namespace, "getlastmodified").
Definition GetETagName : Name := (Namespace, "getetag").
Definition CollectionName : Name := (Namespace, "collection").
Definition PrincipalName : Name := (Namespace, "principal").
Definition CurrentUserPrincipalName : Name := (Namespace, "current-user-principal").
Definition CurrentUserPrivilegeSetName : Name := (Namespace, "current-user-privilege-set").

(** The value of a property: the empty element of its name, a text, links, or names. *)
Inductive PropValue : Type :=
| EmptyValue
| TextValue (text : string)
| NumberValue (n : Z)
| TimeValue (t : Z)
| HrefValue (path : string)
| NamesValue (names : list Name).

Record RawXMLValue : Type := mkRaw { XMLName : option Name; rawValue : PropValue }.

Record PropStat : Type := mkPropStat { statusCode : Z; statProps : list (Name * PropValue) }.

Record Response : Type := mkResponse {
  Hrefs : list string;
  PropStats : list PropStat;
  responseStatus : option Z
}.

Definition NewErrorResponse (path : string) (err : error) : Response :=
  mkResponse [path] [] (Some (errorStatus err)).

(** A value is added to the first status with its code, or to a new one. *)
Fixpoint addProp (code : Z) (prop : Name * PropValue) (stats : list PropStat) : list PropStat :=
  match stats with
  | [] => [mkPropStat code [prop]]
  | stat :: stats' =>
      if statusCode stat =? code then mkPropStat (statusCode stat) (statProps stat ++ [prop]) :: stats'
      else stat :: addProp code prop stats'
  end.

Definition EncodeProp (resp : Response) (code : Z) (prop : Name * PropValue) : Response :=
  mkResponse (Hrefs resp) (addProp code prop (PropStats resp)) (responseStatus resp).

(** A request names the properties, or asks for all, or for their names. *)
Record PropFind : Type := mkPropFind {
  findProp : option (list RawXMLValue);
  findAllProp : bool;
  findPropName : bool
}.

(** ** server.go: the response of a PROPFIND *)

(** The properties of a resource: a map from their name to what computes them. *)
Definition PropMap : Type := list (Name * outcome PropValue).

Definition lookupProp (name : Name) (props : PropMap) : option (outcome PropValue) :=
  option_map snd (find (fun p => bool_decide (fst p = name)) props).

(** The order of an iteration over the map, each time. *)
Class RangeProps : Type := { rangeProps : nat -> PropMap -> PropMap }.
Class RangePropsLaws (R : RangeProps) : Prop := {
  rangeProps_all n props : Permutation (rangeProps n props) props
}.

Section PropFind.
Context {R : RangeProps}.

(** What a property is given as: its value, or the empty element with the code of its
    error. *)
Definition given (name : Name) (o : outcome PropValue) : outcome (Z * (Name * PropValue)) :=
  match o with
  | Ok val => Ok (StatusOK, (name, val))
  | Err err => Ok (errorStatus err, (name, EmptyValue))
  | Panic p => Panic p
  | Diverge => Diverge
  end.

Fixpoint giveAll (resp : Response) (props : PropMap) : outcome Response :=
  match props with
  | [] => Ok resp
  | (name, f) :: props' =>
      let? (code, prop) := given name f in giveAll (EncodeProp resp code prop) props'
  end.

(** The properties that are asked for, in their order; an element without a name is
    skipped, one that the resource does not have is not found. *)
Fixpoint giveNamed (resp : Response) (props : PropMap) (asked : list RawXMLValue) : outcome Response :=
  match asked with
  | [] => Ok resp
  | raw :: asked' =>
      match XMLName raw with
      | None => giveNamed resp props asked'
      | Some name =>
          match lookupProp name props with
          | Some f => let? (code, prop) := given name f in giveNamed (EncodeProp resp code prop) props asked'
          | None => giveNamed (EncodeProp resp StatusNotFound (name, EmptyValue)) props asked'
          end
      end
  end.

Definition NewPropFindResponse (n : nat) (path : string) (propfind : PropFind) (props : PropMap) : outcome Response :=
  let resp := mkResponse [path] [] None in
  let props :=
    match lookupProp ResourceTypeName props with
    | Some _ => props
    | None => props ++ [(ResourceTypeName, Ok (NamesValue []))]
    end in
  if findPropName propfind then
    Ok (fold_left (fun resp p => EncodeProp resp StatusOK (fst p, EmptyValue)) (rangeProps n props) resp)
  else if findAllProp propfind then giveAll resp (rangeProps n props)
  else
    match findProp propfind with
    | Some asked => giveNamed resp props asked
    | None => Err (HTTPErrorf StatusBadRequest "webdav: request missing propname, allprop or prop element")
    end.
End PropFind.

(** ** What a response holds *)

(** The values under a code. *)
Definition under (code : Z) (resp : Response) : list (Name * PropValue) :=
  flat_map statProps (List.filter (fun stat => statusCode stat =? code) (PropStats resp)).

(** No code comes twice, and no status is empty. *)
Definition tidy (resp : Response) : Prop :=
  NoDup (map statusCode (PropStats resp)) /\ Forall (fun stat => statProps stat <> []) (PropStats resp).

Lemma addProp_codes code prop stats c :
  c ∈ map statusCode (addProp code prop stats) <-> c = code \/ c ∈ map statusCode stats.
Proof.
  induction stats as [|stat stats IH]; cbn.
  - rewrite elem_of_cons. tauto.
  - destruct (Z.eqb_spec (statusCode stat) code) as [E|E]; cbn; rewrite !elem_of_cons; [|rewrite IH]; naive_solver.
Qed.

Lemma EncodeProp_tidy resp code prop : tidy resp -> tidy (EncodeProp resp code prop).
Proof.
  intros [H1 H2]. unfold tidy, EncodeProp. cbn. induction (PropStats resp) as [|stat stats IH]; cbn.
  - split; [apply NoDup_singleton|]. by repeat constructor.
  - cbn in H1. apply NoDup_cons in H1 as [H1 H1']. inversion H2 as [|? ? H3 H4]; subst.
    destruct (IH H1' H4) as [G1 G2].
    destruct (Z.eqb_spec (statusCode stat) code) as [E|E]; cbn.
    + split; [by apply NoDup_cons|]. constructor; [|done]. cbn. by destruct (statProps stat).
    + split; [|by constructor]. apply NoDup_cons. split; [|done]. rewrite addProp_codes. naive_solver.
Qed.

Lemma EncodeProp_under resp code prop c :
  tidy resp -> under c (EncodeProp resp code prop) = under c resp ++ (if c =? code then [prop] else []).
Proof.
  intros [H _]. unfold under, EncodeProp. cbn. induction (PropStats resp) as [|stat stats IH]; cbn.
  - rewrite (Z.eqb_sym code c). by destruct (c =? code).
  - cbn in H. apply NoDup_cons in H as [Hn H]. specialize (IH H).
    destruct (Z.eqb_spec (statusCode stat) code) as [E|E]; cbn.
    + destruct (Z.eqb_spec (statusCode stat) c) as [E'|E'].
      * assert (c = code) as -> by congruence. rewrite Z.eqb_refl. cbn.
        assert (List.filter (fun s => statusCode s =? code) stats = []) as ->; [|by rewrite !app_nil_r].
        rewrite E in Hn. clear -Hn. induction stats as [|s stats IH]; [done|]. cbn in *.
        rewrite elem_of_cons in Hn. destruct (Z.eqb_spec (statusCode s) code); [naive_solver|]. apply IH. naive_solver.
      * destruct (Z.eqb_spec c code); [congruence|]. by rewrite app_nil_r.
    + destruct (statusCode stat =? c); cbn; rewrite IH; [by rewrite app_assoc|done].
Qed.

(** What is given under a code for each property that is asked for. *)
Definition answer (props : PropMap) (name : Name) : Z * PropValue :=
  match lookupProp name props with
  | Some (Ok val) => (StatusOK, val)
  | Some (Err err) => (errorStatus err, EmptyValue)
  | _ => (StatusNotFound, EmptyValue)
  end.

Definition answers (props : PropMap) (code : Z) (asked : list RawXMLValue) : list (Name * PropValue) :=
  flat_map (fun raw =>
    match XMLName raw with
    | Some name => if fst (answer props name) =? code then [(name, snd (answer props name))] else []
    | None => []
    end) asked.

Lemma giveNamed_spec resp props asked res :
  tidy resp -> giveNamed resp props asked = Ok res ->
  tidy res /\ Hrefs res = Hrefs resp /\ forall code, under code res = under code resp ++ answers props code asked.
Proof.
  revert resp. induction asked as [|raw asked IH]; intros resp Ht H; cbn in H.
  { injection H as <-. split; [done|]. split; [done|]. intros. by rewrite app_nil_r. }
  unfold answers. cbn [flat_map]. fold (answers props). unfold answer.
  destruct (XMLName raw) as [name|]; [|apply (IH resp Ht H)].
  destruct (lookupProp name props) as [[val|e|p|]|]; cbn in H; try done;
    apply IH in H as (H1 & H2 & H3); try (by apply EncodeProp_tidy);
    (split; [done|]); (split; [done|]); intros code; rewrite H3, EncodeProp_under, <- app_assoc by done;
    cbn; rewrite (Z.eqb_sym code); done.
Qed.

(** The response to a PROPFIND that names properties groups them by status, each
    status once: the value of each property that the resource has, an empty element
    under the status of its error if it cannot be computed, and the others as not
    found, in the order asked. *)
Theorem PropFind_answers {R : RangeProps} (n : nat) (path : string) (asked : list RawXMLValue) (props : PropMap)
    (resp : Response) :
  lookupProp ResourceTypeName props <> None ->
  NewPropFindResponse n path (mkPropFind (Some asked) false false) props = Ok resp ->
  Hrefs resp = [path] /\ tidy resp /\ forall code, under code resp = answers props code asked.
Proof.
  intros Hr H. unfold NewPropFindResponse in H. cbn in H.
  destruct (lookupProp ResourceTypeName props); [|done].
  apply giveNamed_spec in H as (H1 & H2 & H3); [done|]. split; constructor.
Qed.
