(* ===== verification/XmlRaw.v ===== *)
(** * Raw XML values

    lib/webdav/internal/xml.go: the elements that are kept as they were read, to be decoded
    or written later: reading one from a decoder, writing it to an encoder, and the reader
    that gives its tokens again.

    A decoder is the tokens that it will give and the error after them; it gives an end
    element only for the element that is open.  What is kept to be written only is any value
    of a type [V], which encoding/xml encodes ([EncodeValue]). *)

From stdpp Require Import base list strings.
From S2P Require Import Prelude GoStrings WebDav.
#[local] Open Scope Z_scope.
#[local] Set Warnings "-register-all".

(** ** Tokens *)

Inductive Token : Type :=
| StartElement (name : Name) (attrs : list (Name * string))
| EndElement (name : Name)
| CharData (text : string)
| Comment (text : string)
| ProcInst (target inst : string)
| Directive (text : string).

Definition EOF : error := PlainError "EOF".

(** [errors.Is(err, io.EOF)] *)
Definition isEOF (e : error) : bool := match e with PlainError msg => (msg =? "EOF")%string | _ => false end.

Record Decoder : Type := mkDecoder { upcoming : list Token; failure : error }.

Section Raw.
Context {V : Type}.

(** A value that was read, with its token and children, or one to be written. *)
Inductive Raw : Type :=
| RawTree (tok : Token) (children : list Raw)
| RawOut (out : V).

Definition NewRawXMLElement (name : Name) (attrs : list (Name * string)) (children : list Raw) : Raw :=
  RawTree (StartElement name attrs) children.
Definition EncodeRawXMLElement (v : V) : outcome Raw := Ok (RawOut v).

Definition Raw_XMLName (val : Raw) : option Name :=
  match val with RawTree (StartElement name _) _ => Some name | _ => None end.

(** ** Reading *)

(** The loop of [UnmarshalXML]: the children up to the end element, after [children]. *)
Fixpoint readChildren (fuel : nat) (children : list Raw) (d : list Token) (err : error)
    : outcome (list Raw * list Token) :=
  match fuel with
  | O => Diverge
  | S fuel =>
      match d with
      | [] => Err err
      | StartElement name attrs :: d' =>
          let? (sub, d'') := readChildren fuel [] d' err in
          readChildren fuel (children ++ [RawTree (StartElement name attrs) sub]) d'' err
      | EndElement _ :: d' => Ok (children, d')
      | tok :: d' => readChildren fuel (children ++ [RawTree tok []]) d' err
      end
  end.

(** Each round takes a token. *)
Definition UnmarshalXML (d : Decoder) (start : Token) : outcome (Raw * Decoder) :=
  let? (children, rest) := readChildren (S (length (upcoming d))) [] (upcoming d) (failure d) in
  Ok (RawTree start children, mkDecoder rest (failure d)).

(** ** Writing *)

(** The encoder may refuse a token or a value; it has written what it was given before. *)
Context (refuses : Token -> option error) (EncodeValue : V -> outcome (list Token)).

Definition EncodeToken (tok : Token) : Go (list Token) unit := fun out =>
  match refuses tok with Some e => (Err e, out) | None => (Ok tt, out ++ [tok]) end.

Fixpoint MarshalXML (val : Raw) : Go (list Token) unit :=
  match val with
  | RawOut v => fun out => match EncodeValue v with
                           | Ok toks => (Ok tt, out ++ toks)
                           | Err e => (Err e, out)
                           | Panic p => (Panic p, out)
                           | Diverge => (Diverge, out)
                           end
  | RawTree (StartElement name attrs) children =>
      EncodeToken (StartElement name attrs) ;;;
      (fix marshalAll (l : list Raw) : Go (list Token) unit :=
         match l with [] => ret tt | child :: l' => MarshalXML child ;;; marshalAll l' end) children ;;;
      EncodeToken (EndElement name)
  | RawTree (EndElement _) _ => panic "unexpected end element"
  | RawTree tok _ => EncodeToken tok
  end.

(** ** The reader of tokens *)

Inductive Reader : Type :=
  mkReader (val : Raw) (r_start r_end : bool) (child : nat) (childReader : option Reader).

Definition newReader (val : Raw) : Reader := mkReader val false false 0 None.

Definition TokenReader (val : Raw) : outcome Reader :=
  match val with
  | RawOut _ => Panic "webdav: called RawXMLValue.TokenReader on a marshal-only XML value"
  | _ => Ok (newReader val)
  end.

(** [Token]; the loop over the children goes on with the next one when a child's reader is
    at its end. *)
Fixpoint nextToken (fuel : nat) (tr : Reader) : outcome Token * Reader :=
  match fuel with
  | O => (Diverge, tr)
  | S fuel =>
      let '(mkReader val start ended child childReader) := tr in
      if ended then (Err EOF, tr)
      else
        match val with
        | RawTree (StartElement name attrs) children =>
            if negb start then (Ok (StartElement name attrs), mkReader val true ended child childReader)
            else
              match children !! child with
              | None => (Ok (EndElement name), mkReader val start true child childReader)
              | Some c =>
                  match (match childReader with Some r => Ok r | None => TokenReader c end) with
                  | Ok r =>
                      match nextToken fuel r with
                      | (Err e, r') =>
                          if isEOF e then nextToken fuel (mkReader val start ended (S child) None)
                          else (Err e, mkReader val start ended child (Some r'))
                      | (o, r') => (o, mkReader val start ended child (Some r'))
                      end
                  | Err e => (Err e, tr)
                  | Panic p => (Panic p, tr)
                  | Diverge => (Diverge, tr)
                  end
              end
        | RawTree tok _ => (Ok tok, mkReader val start true child childReader)
        | RawOut _ => (Panic "invalid memory address or nil pointer dereference", tr)
        end
  end.

(** ** What a value stands for *)

Fixpoint tokensOf (val : Raw) : list Token :=
  match val with
  | RawTree (StartElement name attrs) children =>
      StartElement name attrs :: flat_map tokensOf children ++ [EndElement name]
  | RawTree tok _ => [tok]
  | RawOut _ => []
  end.

Definition isLeaf (tok : Token) : bool :=
  match tok with StartElement _ _ | EndElement _ => false | _ => true end.

(** A value that was read: its leaves are no elements and have no children. *)
Inductive wasRead : Raw -> Prop :=
| wasRead_element name attrs children : Forall wasRead children -> wasRead (RawTree (StartElement name attrs) children)
| wasRead_leaf tok : isLeaf tok = true -> wasRead (RawTree tok []).

Fixpoint height (val : Raw) : nat :=
  match val with
  | RawTree _ children => S (foldr (fun c n => Nat.max (height c) n) 0%nat children)
  | RawOut _ => 0%nat
  end.

Section Induction.
Variables (P : Raw -> Prop).
Hypothesis element : forall name attrs children, Forall wasRead children -> Forall P children ->
  P (RawTree (StartElement name attrs) children).
Hypothesis leaf : forall tok, isLeaf tok = true -> P (RawTree tok []).
Fixpoint wasRead_induction (val : Raw) (H : wasRead val) : P val :=
  match H in wasRead val return P val with
  | wasRead_element name attrs children Hs =>
      element name attrs children Hs
        ((fix all l (Hs : Forall wasRead l) : Forall P l :=
            match Hs in Forall _ l return Forall P l with
            | List.Forall_nil _ => @List.Forall_nil _ P
            | List.Forall_cons _ x l' H Hs' => @List.Forall_cons _ P x l' (wasRead_induction x H) (all l' Hs')
            end) children Hs)
  | wasRead_leaf tok Hl => leaf tok Hl
  end.
End Induction.

(** ** The tokens that are still to come *)

Definition valueOf (tr : Reader) : Raw := let '(mkReader val _ _ _ _) := tr in val.

Fixpoint pending (tr : Reader) : list Token :=
  let '(mkReader val start ended child childReader) := tr in
  if ended then []
  else
    match val with
    | RawTree (StartElement name attrs) children =>
        (if start then [] else [StartElement name attrs])
        ++ (match childReader with
            | Some r => pending r ++ flat_map tokensOf (drop (S child) children)
            | None => flat_map tokensOf (drop child children)
            end)
        ++ [EndElement name]
    | RawTree tok _ => [tok]
    | RawOut _ => []
    end.

(** The reader of a child is one of the child that it is at. *)
Fixpoint following (tr : Reader) : Prop :=
  let '(mkReader val _ _ child childReader) := tr in
  wasRead val /\ match childReader with
                 | Some r => (exists name attrs children, val = RawTree (StartElement name attrs) children
                                /\ children !! child = Some (valueOf r)) /\ following r
                 | None => True
                 end.

Fixpoint depth (tr : Reader) : nat :=
  let '(mkReader _ _ _ _ childReader) := tr in S (match childReader with Some r => depth r | None => 0%nat end).

Lemma tokensOf_some val : wasRead val -> tokensOf val <> [].
Proof using Type. intros [name attrs children _|[] H]; done. Qed.

(** What the next token is to be. *)
Definition gives (tr : Reader) (res : outcome Token * Reader) : Prop :=
  match pending tr with
  | [] => res = (Err EOF, tr)
  | t :: rest => exists tr', res = (Ok t, tr') /\ pending tr' = rest /\ following tr' /\ valueOf tr' = valueOf tr
  end.

Lemma newReader_gives fuel val : wasRead val -> gives (newReader val) (nextToken (S fuel) (newReader val)).
Proof using Type.
  intros H. unfold gives, newReader. destruct H as [name attrs children H|tok H]; cbn.
  - eexists. split; [reflexivity|]. split; [done|]. split; [|done]. cbn. split; [by constructor|done].
  - destruct tok; try done; (eexists; split; [reflexivity|]; split; [done|]; split; [|done]; cbn; split; [by constructor|done]).
Qed.

Lemma newReader_pending val : wasRead val -> pending (newReader val) = tokensOf val.
Proof using Type. intros [name attrs children H|[] H]; done. Qed.

Lemma nextToken_gives fuel tr : (depth tr + 2 <= fuel)%nat -> following tr -> gives tr (nextToken fuel tr).
Proof using Type.
  revert tr. induction fuel as [|fuel IH]; intros tr HF HW; [lia|].
  destruct tr as [val start ended child cr]. cbn [depth] in HF. destruct HW as [HV HW]. unfold gives. cbn.
  destruct ended; [done|]. destruct HV as [name attrs children HV|tok HV].
  2: { destruct tok; try done; (eexists; split; [reflexivity|]; split; [done|]; split; [|done]; cbn; split; [by constructor|done]). }
  destruct start; cbn [negb app].
  2: { eexists. split; [reflexivity|]. split; [done|]. split; [|done]. cbn. split; [by constructor|]. by destruct cr. }
  assert (wasRead (RawTree (StartElement name attrs) children)) as HE by by constructor.
  destruct cr as [r|].
  - destruct HW as [(? & ? & ? & [= <- <- <-] & Hc) HR]. rewrite Hc. pose proof (IH r ltac:(lia) HR) as Hr. unfold gives in Hr.
    destruct (pending r) as [|t rest]; cbn [app].
    + assert (0 < depth r)%nat as Hp by (destruct r; cbn; lia). rewrite Hr. pose proof (IH (mkReader (RawTree (StartElement name attrs) children) true false (S child) None)
        ltac:(cbn [depth]; lia) (conj HE I)) as Hn. unfold gives in Hn. cbn [pending app] in Hn.
      by destruct (flat_map tokensOf (drop (S child) children)).
    + destruct Hr as (r' & -> & <- & HR' & HV'). eexists. split; [reflexivity|]. split; [cbn; by rewrite <- app_assoc|].
      split; [|done]. cbn. split; [done|]. split; [|done]. exists name, attrs, children. by rewrite HV'.
  - destruct (children !! child) as [c|] eqn:Hc.
    + rewrite (drop_S _ _ _ Hc). cbn [flat_map]. assert (wasRead c) as HCh by (rewrite Forall_forall in HV; apply HV; by apply list_elem_of_lookup_2 in Hc).
      assert (TokenReader c = Ok (newReader c)) as -> by by destruct HCh.
      destruct fuel as [|fuel']; [lia|]. pose proof (newReader_gives fuel' c HCh) as Hg. unfold gives in Hg.
      rewrite newReader_pending in Hg by done. destruct (tokensOf c) as [|t rest] eqn:E; [by apply tokensOf_some in E|].
      destruct Hg as (r' & -> & <- & HR' & HV'). cbn [app]. eexists. split; [reflexivity|].
      split; [cbn; by rewrite <- !app_assoc|]. split; [|done]. cbn. split; [done|]. split; [|done].
      exists name, attrs, children. by rewrite HV'.
    + rewrite drop_ge by by apply lookup_ge_None. cbn. eexists. split; [reflexivity|]. split; [done|]. by split.
Qed.

(** Reading to the end. *)
Fixpoint readAll (n fuel : nat) (tr : Reader) : outcome (list Token) :=
  match n with
  | O => Diverge
  | S n' =>
      match nextToken fuel tr with
      | (Ok t, tr') => l <-? readAll n' fuel tr' ;; Ok (t :: l)
      | (Err e, _) => if isEOF e then Ok [] else Err e
      | (Panic p, _) => Panic p
      | (Diverge, _) => Diverge
      end
  end.

Lemma height_child (children : list Raw) c i tok : children !! i = Some c -> (height c < height (RawTree tok children))%nat.
Proof using Type.
  intros H. cbn. revert i H. induction children as [|a l IH]; intros i H; [done|]. cbn. destruct i as [|i]; cbn in H.
  - injection H as ->. lia.
  - specialize (IH i H). lia.
Qed.

Lemma depth_height fuel tr : (depth tr <= fuel)%nat -> following tr -> (depth tr <= height (valueOf tr))%nat.
Proof using Type.
  revert tr. induction fuel as [|fuel IH]; intros [val start ended child [r|]] HF HW; cbn in HF; try lia.
  - destruct HW as (HV & (name & attrs & children & -> & Hc) & HR). specialize (IH r ltac:(lia) HR).
    pose proof (height_child _ _ _ (StartElement name attrs) Hc). cbn [depth valueOf]. lia.
  - destruct HW as [HV _]. cbn. destruct HV; cbn; lia.
Qed.

Lemma readAll_pending n fuel tr :
  (length (pending tr) < n)%nat -> (height (valueOf tr) + 2 <= fuel)%nat -> following tr -> readAll n fuel tr = Ok (pending tr).
Proof using Type.
  revert tr. induction n as [|n IH]; intros tr HN HF HW; [lia|]. cbn.
  pose proof (depth_height (depth tr) tr ltac:(lia) HW) as HD. pose proof (nextToken_gives fuel tr ltac:(lia) HW) as HG.
  unfold gives in HG. destruct (pending tr) as [|t rest] eqn:E; [by rewrite HG|].
  destruct HG as (tr' & -> & HP & HW' & HV). rewrite IH; [by rewrite HP|rewrite HP; cbn in HN; lia|by rewrite HV|done].
Qed.

(** ** What is read is what was there *)

(** The tokens of an element that is being read: complete elements and leaves. *)
Lemma readChildren_tokens (children : list Raw) fuel acc name rest err :
  Forall wasRead children -> (length (flat_map tokensOf children) < fuel)%nat ->
  readChildren fuel acc (flat_map tokensOf children ++ EndElement name :: rest) err = Ok (acc ++ children, rest).
Proof using Type.
  intros HW. revert children HW acc name rest. induction fuel as [|fuel IH]; intros children HW acc name rest HF; [lia|].
  destruct HW as [|c children Hc HW]; [by rewrite app_nil_r|]. destruct Hc as [n attrs sub Hs|tok Ht].
  - cbn in HF |- *. rewrite <- !app_assoc. cbn [app]. rewrite length_app in HF. cbn in HF.
    rewrite (IH sub Hs); [|rewrite length_app in HF; cbn in HF; lia]. cbn [app obind].
    rewrite (IH children HW); [by rewrite <- app_assoc|rewrite length_app in HF; cbn in HF; lia].
  - destruct tok; try done; cbn in HF |- *; (rewrite (IH children HW); [by rewrite <- app_assoc|lia]).
Qed.

(** Conversely what was read is complete, and so are the tokens taken, up to the names of
    the end elements. *)
Lemma readChildren_read fuel acc d err children rest :
  Forall wasRead acc -> readChildren fuel acc d err = Ok (children, rest) -> Forall wasRead children.
Proof using Type.
  revert acc d children rest. induction fuel as [|fuel IH]; intros acc d children rest HA H; [done|]. cbn in H.
  destruct d as [|[name attrs|name|t|t|t i|t] d]; try done.
  - destruct (readChildren fuel [] d err) as [[sub d']| | |] eqn:E; cbn in H; try done.
    apply IH in H; [done|]. apply Forall_app. split; [done|]. constructor; [|done]. constructor. by apply IH in E.
  - by injection H as <- <-.
  - apply IH in H; [done|]. apply Forall_app. split; [done|]. constructor; [by constructor|done].
  - apply IH in H; [done|]. apply Forall_app. split; [done|]. constructor; [by constructor|done].
  - apply IH in H; [done|]. apply Forall_app. split; [done|]. constructor; [by constructor|done].
  - apply IH in H; [done|]. apply Forall_app. split; [done|]. constructor; [by constructor|done].
Qed.

Lemma readChildren_ends fuel acc d err : (length d < fuel)%nat ->
  match readChildren fuel acc d err with
  | Ok (children, rest) => (length rest < length d)%nat
  | Err e => e = err
  | _ => False
  end.
Proof using Type.
  revert acc d. induction fuel as [|fuel IH]; intros acc d HF; [lia|]. cbn.
  destruct d as [|[name attrs|name|t|t|t i|t] d]; cbn in HF; try done; try (cbn; lia).
  - pose proof (IH [] d ltac:(lia)) as H1. destruct (readChildren fuel [] d err) as [[sub d']| | |]; try done. cbn [obind].
    specialize (IH (acc ++ [RawTree (StartElement name attrs) sub]) d' ltac:(lia)).
    destruct (readChildren fuel _ d' err) as [[ch rest]| | |]; try done. cbn. lia.
  - specialize (IH (acc ++ [RawTree (CharData t) []]) d ltac:(lia)). destruct (readChildren fuel _ d err) as [[ch rest]| | |]; try done. cbn. lia.
  - specialize (IH (acc ++ [RawTree (Comment t) []]) d ltac:(lia)). destruct (readChildren fuel _ d err) as [[ch rest]| | |]; try done. cbn. lia.
  - specialize (IH (acc ++ [RawTree (ProcInst t i) []]) d ltac:(lia)). destruct (readChildren fuel _ d err) as [[ch rest]| | |]; try done. cbn. lia.
  - specialize (IH (acc ++ [RawTree (Directive t) []]) d ltac:(lia)). destruct (readChildren fuel _ d err) as [[ch rest]| | |]; try done. cbn. lia.
Qed.

(** A token without the name of an end element. *)
Definition skeleton (tok : Token) : Token := match tok with EndElement _ => EndElement ("", "") | _ => tok end.
Definition shape (l : list Token) : list Token := map skeleton l.

Lemma shape_app l k : shape (l ++ k) = shape l ++ shape k.
Proof using Type. apply map_app. Qed.

Lemma readChildren_shape fuel acc d err children rest :
  readChildren fuel acc d err = Ok (children, rest) ->
  exists new, children = acc ++ new /\ shape d = shape (flat_map tokensOf new) ++ EndElement ("", "") :: shape rest.
Proof using Type.
  revert acc d children rest. induction fuel as [|fuel IH]; intros acc d children rest H; [done|]. cbn in H.
  assert (forall tok d', isLeaf tok = true -> readChildren fuel (acc ++ [RawTree tok []]) d' err = Ok (children, rest) ->
    exists new, children = acc ++ new /\ shape (tok :: d') = shape (flat_map tokensOf new) ++ EndElement ("", "") :: shape rest) as HL.
  { intros tok d' Ht (new & -> & E)%IH. exists (RawTree tok [] :: new). rewrite <- app_assoc. split; [done|].
    unfold shape in *. destruct tok; try done; cbn; by rewrite E. }
  destruct d as [|[name attrs|name|t|t|t i|t] d]; try done; try (by apply HL).
  - destruct (readChildren fuel [] d err) as [[sub d']| | |] eqn:E; cbn in H; try done.
    apply IH in H as (new & -> & H). apply IH in E as (sub' & -> & E). cbn [app] in *.
    exists (RawTree (StartElement name attrs) sub' :: new). rewrite <- app_assoc. split; [done|].
    unfold shape in *. cbn [flat_map tokensOf]. rewrite map_app. cbn [map skeleton]. rewrite E, H, map_app. cbn.
    by rewrite <- !app_assoc.
  - injection H as <- <-. exists []. by rewrite app_nil_r.
Qed.

Lemma MarshalXML_tokens val : (forall tok, refuses tok = None) -> wasRead val ->
  forall out, MarshalXML val out = (Ok tt, out ++ tokensOf val).
Proof using Type.
  intros HR HW. refine (wasRead_induction (fun val => forall out, MarshalXML val out = (Ok tt, out ++ tokensOf val)) _ _ val HW).
  - intros name attrs children _ HC out. cbn. unfold bind, EncodeToken. rewrite HR.
    assert (forall out, (fix marshalAll (l : list Raw) : Go (list Token) unit :=
      match l with [] => ret tt | child :: l' => fun s => match MarshalXML child s with
        | (Ok _, s') => marshalAll l' s' | (Err e, s') => (Err e, s') | (Panic p, s') => (Panic p, s') | (Diverge, s') => (Diverge, s') end end)
      children out = (Ok tt, out ++ flat_map tokensOf children)) as HA.
    { induction HC as [|c l Hc HC IH]; intros o; [by rewrite app_nil_r|]. rewrite Hc, IH. cbn. by rewrite <- app_assoc. }
    unfold bind in HA. rewrite HA, HR. by rewrite <- !app_assoc.
  - intros tok Ht out. destruct tok; try done; cbn; unfold EncodeToken; by rewrite HR.
Qed.

(** C21: An element that is read is kept whole: reading ends, behind it, or with the error of
    the decoder; the reader of its tokens then gives just the tokens that were taken (an end
    element with the name of its start), in order and to the end; read from them, it is the
    same value again; and writing it to an encoder writes them. *)
Theorem raw_replayed (d : Decoder) (name : Name) (attrs : list (Name * string)) :
  let start := StartElement name attrs in
  match UnmarshalXML d start with
  | Ok (val, d') =>
      failure d' = failure d
      /\ exists toks,
        shape (upcoming d) = shape toks ++ shape (upcoming d')
        /\ TokenReader val = Ok (newReader val)
        /\ (forall n fuel, (length toks + 1 < n)%nat -> (height val + 2 <= fuel)%nat ->
              readAll n fuel (newReader val) = Ok (start :: toks))
        /\ (forall rest err, UnmarshalXML (mkDecoder (toks ++ rest) err) start = Ok (val, mkDecoder rest err))
        /\ ((forall tok, refuses tok = None) -> forall out, MarshalXML val out = (Ok tt, out ++ start :: toks))
  | Err e => e = failure d
  | _ => False
  end.
Proof using Type.
  intros start. unfold UnmarshalXML. pose proof (readChildren_ends (S (length (upcoming d))) [] (upcoming d) (failure d) ltac:(lia)) as HE.
  destruct (readChildren _ [] (upcoming d) _) as [[children rest]|e| |] eqn:E; try done. cbn [obind upcoming failure].
  split; [done|]. pose proof (readChildren_shape _ _ _ _ _ _ E) as (new & -> & HS). cbn [app] in *.
  assert (wasRead (RawTree start new)) as HW by (constructor; by eapply readChildren_read in E).
  assert (Forall wasRead new) as HN by by eapply readChildren_read in E.
  exists (flat_map tokensOf new ++ [EndElement name]). split_and!.
  - rewrite HS, shape_app. cbn. by rewrite <- app_assoc.
  - done.
  - intros n fuel Hn Hf. rewrite readAll_pending; [by rewrite newReader_pending| |done|by split].
    rewrite newReader_pending by done. cbn [tokensOf start]. cbn. lia.
  - intros rest' err. rewrite <- app_assoc. cbn [app].
    rewrite (readChildren_tokens new); [done|done|]. rewrite length_app. lia.
  - intros HR out. by apply MarshalXML_tokens.
Qed.
End Raw.

(** ** Examples *)

(** <prop>text<href/><!--c--></prop>, and what follows. *)
Definition propName : Name := (Namespace, "prop").
Definition hrefName : Name := (Namespace, "href").
Definition sampleDecoder : Decoder :=
  mkDecoder [CharData "text"; StartElement hrefName []; EndElement hrefName; Comment "c"; EndElement propName; CharData "after"] EOF.
Definition sampleValue : Raw (V := unit) :=
  RawTree (StartElement propName []) [RawTree (CharData "text") []; RawTree (StartElement hrefName []) []; RawTree (Comment "c") []].

Lemma raw_replayed_witness :
  UnmarshalXML (V := unit) sampleDecoder (StartElement propName []) = Ok (sampleValue, mkDecoder [CharData "after"] EOF)
  /\ exists toks, readAll 9 5 (newReader sampleValue) = Ok (StartElement propName [] :: toks)
       /\ shape (upcoming sampleDecoder) = shape toks ++ [CharData "after"].
Proof.
  split; [reflexivity|].
  pose proof (raw_replayed (V := unit) (fun _ => None) (fun _ => Ok []) sampleDecoder propName []) as H.
  assert (UnmarshalXML (V := unit) sampleDecoder (StartElement propName []) = Ok (sampleValue, mkDecoder [CharData "after"] EOF)) as E by reflexivity.
  cbv zeta in H. rewrite E in H. destruct H as (_ & toks & H1 & _ & H2 & _). exists toks. split; [|exact H1].
  apply H2; [|cbn; lia]. assert (length toks = 5%nat) as ->; [|lia].
  apply (f_equal length) in H1. unfold shape in H1. rewrite length_app, !length_map in H1. cbn in H1. lia.
Defined.

(** An element whose end is missing is refused with the error of the decoder. *)
Example unfinished :
  UnmarshalXML (V := unit) (mkDecoder [CharData "text"] EOF) (StartElement propName []) = Err EOF.
Proof. reflexivity. Qed.

(** A value that is only to be written has no reader. *)
Example write_only : TokenReader (RawOut tt) = Panic "webdav: called RawXMLValue.TokenReader on a marshal-only XML value".
Proof. reflexivity. Qed.
