(* ===== verification/CalServer.v ===== *)
(** * The CalDAV server

    lib/webdav/caldav/server.go and elements.go over lib/webdav/internal/server.go:
    the requests, the decoding of the filters of a query, the properties of the
    resources, and the handler of every method, over the calendar backend.

    A request is what net/http gives: its method, path and headers, the user that the
    authentication found, and its body, decoded by the class [Wire] (encoding/xml,
    mime, net/url).  Writing a reply does not fail, nor does closing a body. *)

From stdpp Require Import gmap.
From S2P Require Import Prelude Hoare GoStrings GoPath GoSearch Caldav CalStore CalBackend WebDav.
From Stdlib Require Import Strings.Ascii.
#[local] Open Scope Z_scope.
#[local] Set Warnings "-register-all,-clear-no-such-hyp".

(** ** elements.go: the elements of a report *)

Definition caldavNS : string := "urn:ietf:params:xml:ns:caldav".
Definition appleNS : string := "http://apple.com/ns/ical/".
Definition calendarHomeSetName : Name := (caldavNS, "calendar-home-set").
Definition calendarDescriptionName : Name := (caldavNS, "calendar-description").
Definition supportedCalendarDataName : Name := (caldavNS, "supported-calendar-data").
Definition supportedCalendarComponentSetName : Name := (caldavNS, "supported-calendar-component-set").
Definition maxResourceSizeName : Name := (caldavNS, "max-resource-size").
Definition calendarColorName : Name := (appleNS, "calendar-color").
Definition calendarElementName : Name := (caldavNS, "calendar").
Definition calendarDataName : Name := (caldavNS, "calendar-data").

Definition ErrInvalidNegateCondition : error := PlainError "invalid negate-condition value".

(** [negateCondition.UnmarshalText] and [MarshalText] *)
Definition negateCondition_Unmarshal (b : string) : outcome bool :=
  if (b =? "yes")%string then Ok true
  else if (b =? "no")%string then Ok false
  else Err (Errorf "caldav: %w: %q" [ErrInvalidNegateCondition]).
Definition negateCondition_Marshal (nc : bool) : string := if nc then "yes" else "".

Record timeRange : Type := mkTimeRange { rangeStart : Z; rangeEnd : Z }.
Record textMatch : Type := mkTextEl { elText : string; Collation : string; elNegate : bool }.

Record paramFilter : Type := mkParamEl {
  elParamName : string; elParamNotDefined : bool; elParamText : option textMatch }.

Record propFilter : Type := mkPropEl {
  elPropName : string; elPropNotDefined : bool; elPropRange : option timeRange;
  elPropText : option textMatch; elPropParams : list paramFilter }.

Inductive compFilter : Type := mkCompEl {
  elCompName : string; elCompNotDefined : bool; elCompRange : option timeRange;
  elPropFilters : list propFilter; elCompFilters : list compFilter }.

Inductive comp : Type := mkComp {
  elName : string; Allprop : bool; elProps : list string; Allcomp : bool; elComps : list comp }.

Record calendarDataReq : Type := mkDataReq { dataComp : option comp; dataExpand : option timeRange }.

Record calendarQuery : Type := mkQueryEl { queryFind : PropFind; queryFilter : compFilter }.
Record calendarMultiget : Type := mkMultiget { multigetHrefs : list string; multigetFind : PropFind }.

Inductive reportReq : Type :=
| ReportQuery (query : calendarQuery)
| ReportMultiget (multiget : calendarMultiget).

Record mkcolReq : Type := mkMkcol {
  mkResourceType : list Name;
  mkDisplayName : string;
  mkDescription : string;
  mkSupportedComponents : list string;
  mkMaxResourceSize : Z
}.

(** ** server.go: decoding *)

Definition ErrInvalidCalendarPath : error :=
  PlainError "invalid calendar path (must be under calendar home-set)".
Definition ErrTextMatchIncompatibleWithIfNotDefined : error :=
  PlainError "if is-not-defined is provided, text-match can't be provided".
Definition ErrMany1IncompatibleWithIfNotDefined : error :=
  PlainError "if is-not-defined is provided, text-match, time-range, or param-filter can't be provided".
Definition ErrMany2IncompatibleWithIfNotDefined : error :=
  PlainError "if is-not-defined is provided, time-range, prop-filter, or comp-filter can't be provided".

Definition isSome {A} (o : option A) : bool := match o with Some _ => true | None => false end.
Definition nonEmpty {A} (l : list A) : bool := match l with [] => false | _ => true end.

(** [for _, el := range els { v, err := f(el); if err != nil { return }; append(v) }] *)
Definition decodeAll {A B} (f : A -> outcome B) : list A -> outcome (list B) :=
  fix loop l :=
    match l with
    | [] => Ok []
    | a :: l' => b <-? f a ;; bs <-? loop l' ;; Ok (b :: bs)
    end.

Definition decodeTextMatch (el : option textMatch) : option TextMatch :=
  option_map (fun el => mkTextMatch (elText el) false) el.

Definition decodeParamFilter (el : paramFilter) : outcome ParamFilter :=
  if elParamNotDefined el && isSome (elParamText el)
  then Err (Errorf "caldav: failed to parse param-filter: %w" [ErrTextMatchIncompatibleWithIfNotDefined])
  else Ok (mkParamFilter (elParamName el) (elParamNotDefined el) (decodeTextMatch (elParamText el))).

Definition startOf (r : option timeRange) : Z := match r with Some r => rangeStart r | None => zeroDate end.
Definition endOf (r : option timeRange) : Z := match r with Some r => rangeEnd r | None => zeroDate end.

Definition decodePropFilter (el : propFilter) : outcome PropFilter :=
  if elPropNotDefined el && (isSome (elPropText el) || isSome (elPropRange el) || nonEmpty (elPropParams el))
  then Err (Errorf "caldav: failed to parse prop-filter: %w" [ErrMany1IncompatibleWithIfNotDefined])
  else
    params <-? decodeAll decodeParamFilter (elPropParams el) ;;
    Ok (mkPropFilter (elPropName el) (elPropNotDefined el) (startOf (elPropRange el)) (endOf (elPropRange el))
          (decodeTextMatch (elPropText el)) params).

Fixpoint decodeCompFilter (el : compFilter) : outcome CompFilter :=
  if elCompNotDefined el
     && (isSome (elCompRange el) || nonEmpty (elPropFilters el) || nonEmpty (elCompFilters el))
  then Err (Errorf "caldav: failed to parse comp-filter: %w" [ErrMany2IncompatibleWithIfNotDefined])
  else
    props <-? decodeAll decodePropFilter (elPropFilters el) ;;
    comps <-? decodeAll decodeCompFilter (elCompFilters el) ;;
    Ok (mkCompFilter (elCompName el) (elCompNotDefined el) (startOf (elCompRange el)) (endOf (elCompRange el))
          props comps).

(** The component request has no name: the decoder leaves it out. *)
Fixpoint decodeComp (el : comp) : outcome CalendarCompRequest :=
  if Allprop el && nonEmpty (elProps el)
  then Err (HTTPErrorf StatusBadRequest "caldav: only one of allprop or prop can be specified in calendar-data")
  else if Allcomp el && nonEmpty (elComps el)
  then Err (HTTPErrorf StatusBadRequest "caldav: only one of allcomp or comp can be specified in calendar-data")
  else
    comps <-? decodeAll decodeComp (elComps el) ;;
    Ok (mkCompRequest "" (Allprop el) (elProps el) (Allcomp el) comps None).

Definition decodeCalendarDataReq (calendarData : calendarDataReq) : outcome CalendarCompRequest :=
  match dataComp calendarData with
  | None => Ok (mkCompRequest "" true [] true [] None)
  | Some el => decodeComp el
  end.

(** ** Requests and replies *)

Record Request : Type := mkRequest {
  Method : string;
  URLPath : string;
  user : option string;
  headerIfNoneMatch : string;
  headerIfMatch : string;
  headerContentType : string;
  headerDepth : string;
  headerDestination : string;
  headerOverwrite : string;
  Body : string
}.

Class Wire : Type := {
  ParseMediaType : string -> outcome string;
  xmlReport : string -> outcome reportReq;
  xmlPropFind : string -> outcome PropFind;
  xmlPropertyUpdate : string -> outcome unit;
  xmlMkcol : string -> outcome mkcolReq;
  xmlMkcalendar : string -> outcome mkcolReq;
  (** The element calendar-data among those asked for. *)
  xmlCalendarData : list RawXMLValue -> outcome calendarDataReq;
  urlParse : string -> outcome string
}.

Inductive Reply : Type :=
| RedirectReply (path : string)
| OptionsReply (caps allow : list string)
| ObjectReply (length : Z) (etag : string) (modTime : Z) (body : option string)
| CreatedReply (etag : string) (modTime : Z) (location : string)
| MultiStatusReply (resps : list Response)
| StatusReply (code : Z)
| ErrorReply (code : Z).

Definition StatusCreated : Z := 201.
Definition StatusNoContent : Z := 204.
Definition MIMEType : string := "text/calendar".

(** ** The kinds of resources *)

Definition resourceType : Type := Z.
Definition resourceTypeRoot : resourceType := 0.
Definition resourceTypeUserPrincipal : resourceType := 1.
Definition resourceTypeCalendarHomeSet : resourceType := 2.
Definition resourceTypeCalendar : resourceType := 3.
Definition resourceTypeCalendarObject : resourceType := 4.

Definition resourceTypeAtPath (Prefix reqPath : string) : resourceType :=
  let p := TrimPrefix (Clean reqPath) Prefix in
  let p := if HasPrefix p "/" then p else "/" +:+ p in
  if (p =? "/")%string then resourceTypeRoot
  else len (Split p slash) - 1.

Section Server.
Context {I : Ics} {Q : Quoting} {E : CalEnv} {W : Type} {S : Store W} {WR : Wire} {R : RangeProps}.
(** The prefix of the handler, without a trailing slash. *)
Variable Prefix : string.
Local Abbreviation BGo := (Go (Backend (W := W))).

(** Each response iterates over its map of properties once. *)
Definition tick : BGo nat := fun b => (Ok (clock b), mkBackend (store b) (Datatypes.S (clock b))).

Definition respond (path : string) (propfind : PropFind) (props : PropMap) : BGo Response :=
  n <-- tick ;; lift (NewPropFindResponse n path propfind props).

(** ** The properties of the resources *)

Definition collection (more : list Name) : PropValue := NamesValue (CollectionName :: more).

Definition principalProp (auth : option string) : Name * outcome PropValue :=
  (CurrentUserPrincipalName, path <-? CurrentUserPrincipal auth ;; Ok (HrefValue path)).

Definition propFindRoot (auth : option string) (propfind : PropFind) : BGo Response :=
  principalPath <-- lift (CurrentUserPrincipal auth) ;;
  respond principalPath propfind
    [(CurrentUserPrincipalName, Ok (HrefValue principalPath)); (ResourceTypeName, Ok (collection []))].

Definition propFindUserPrincipal (auth : option string) (propfind : PropFind) : BGo Response :=
  principalPath <-- lift (CurrentUserPrincipal auth) ;;
  homeSetPath <-- lift (CalendarHomeSetPath auth) ;;
  respond principalPath propfind
    [(CurrentUserPrincipalName, Ok (HrefValue principalPath));
     (calendarHomeSetName, Ok (HrefValue homeSetPath));
     (ResourceTypeName, Ok (collection [PrincipalName]))].

Definition propFindHomeSet (auth : option string) (propfind : PropFind) : BGo Response :=
  principalPath <-- lift (CurrentUserPrincipal auth) ;;
  homeSetPath <-- lift (CalendarHomeSetPath auth) ;;
  respond homeSetPath propfind
    [(CurrentUserPrincipalName, Ok (HrefValue principalPath)); (ResourceTypeName, Ok (collection []))].

Definition whenSet (b : bool) (p : Name * PropValue) : PropMap := if b then [(fst p, Ok (snd p))] else [].

Definition calendarProps (auth : option string) (cal : Caldav.Calendar) : PropMap :=
  [principalProp auth;
   (ResourceTypeName, Ok (collection [calendarElementName]));
   (supportedCalendarDataName, Ok (TextValue MIMEType));
   (supportedCalendarComponentSetName,
     Ok (NamesValue (map (fun name => (caldavNS, name))
           (match SupportedComponentSet cal with [] => ["VEVENT"] | set => set end))));
   (CurrentUserPrivilegeSetName, Ok (NamesValue [(Namespace, "read"); (Namespace, "write")]))]
  ++ whenSet (negb (calendarName cal =? "")%string) (DisplayNameName, TextValue (calendarName cal))
  ++ whenSet (negb (Description cal =? "")%string) (calendarDescriptionName, TextValue (Description cal))
  ++ whenSet (0 <? MaxResourceSize cal) (maxResourceSizeName, NumberValue (MaxResourceSize cal))
  ++ whenSet (negb (Color cal =? "")%string) (calendarColorName, TextValue (Color cal)).

Definition propFindCalendar (auth : option string) (propfind : PropFind) (cal : Caldav.Calendar) : BGo Response :=
  respond (calendarPath cal) propfind (calendarProps auth cal).

(** The objects that the backend gives have a calendar. *)
Definition serializeData (co : CalendarObject) : outcome string :=
  match Data co with
  | Some cal => SerializeTo cal
  | None => Panic "invalid memory address or nil pointer dereference"
  end.

Definition objectProps (auth : option string) (co : CalendarObject) : PropMap :=
  [principalProp auth;
   (GetContentTypeName, Ok (TextValue MIMEType));
   (calendarDataName, data <-? serializeData co ;; Ok (TextValue data))]
  ++ whenSet (0 <? ContentLength co) (GetContentLengthName, NumberValue (ContentLength co))
  ++ whenSet (negb (IsZero (ModTime co))) (GetLastModifiedName, TimeValue (ModTime co))
  ++ whenSet (negb (ETag co =? "")%string) (GetETagName, TextValue (Quote (ETag co))).

Definition propFindCalendarObject (auth : option string) (propfind : PropFind) (co : CalendarObject) : BGo Response :=
  respond (objectPath co) propfind (objectProps auth co).

(** [for ... { resp, err := f(a); if err != nil { return }; resps = append(resps, resp...) }] *)
Definition collect {A} (l : list A) (f : A -> BGo (list Response)) : BGo (list Response) :=
  forEach l [] (fun resps a => resp <-- f a ;; ret (resps ++ resp)).

Definition one (m : BGo Response) : BGo (list Response) := resp <-- m ;; ret [resp].

Definition propFindAllCalendarObjects (auth : option string) (propfind : PropFind) (cal : Caldav.Calendar)
    : BGo (list Response) :=
  aos <-- Backend_ListCalendarObjects (calendarPath cal) ;;
  collect aos (fun ao => one (propFindCalendarObject auth propfind ao)).

Definition propFindAllCalendars (auth : option string) (propfind : PropFind) (recurse : bool)
    : BGo (list Response) :=
  abs <-- Backend_ListCalendars auth ;;
  collect abs (fun ab =>
    resp <-- propFindCalendar auth propfind ab ;;
    resps <-- (if recurse then propFindAllCalendarObjects auth propfind ab else ret []) ;;
    ret (resp :: resps)).

Definition Server_PropFind (r : Request) (propfind : PropFind) (depth : Depth) : BGo (list Response) :=
  let resType := resourceTypeAtPath Prefix (URLPath r) in
  if resType =? resourceTypeRoot then one (propFindRoot (user r) propfind)
  else if resType =? resourceTypeUserPrincipal then
    principalPath <-- lift (CurrentUserPrincipal (user r)) ;;
    if (URLPath r =? principalPath)%string then
      resp <-- propFindUserPrincipal (user r) propfind ;;
      more <-- (if negb (depth =? DepthZero) then
                  home <-- propFindHomeSet (user r) propfind ;;
                  rest <-- (if depth =? DepthInfinity then propFindAllCalendars (user r) propfind true else ret []) ;;
                  ret (home :: rest)
                else ret []) ;;
      ret (resp :: more)
    else ret []
  else if resType =? resourceTypeCalendarHomeSet then
    homeSetPath <-- lift (CalendarHomeSetPath (user r)) ;;
    if (URLPath r =? homeSetPath)%string then
      resp <-- propFindHomeSet (user r) propfind ;;
      more <-- (if negb (depth =? DepthZero)
                then propFindAllCalendars (user r) propfind (depth =? DepthInfinity) else ret []) ;;
      ret (resp :: more)
    else ret []
  else if resType =? resourceTypeCalendar then
    ab <-- Backend_GetCalendar (URLPath r) ;;
    resp <-- propFindCalendar (user r) propfind ab ;;
    more <-- (if negb (depth =? DepthZero) then propFindAllCalendarObjects (user r) propfind ab else ret []) ;;
    ret (resp :: more)
  else if resType =? resourceTypeCalendarObject then
    ao <-- Backend_GetCalendarObject (URLPath r) ;;
    one (propFindCalendarObject (user r) propfind ao)
  else ret [].

(** ** Bodies *)

Definition isContentXML (r : Request) : bool :=
  match ParseMediaType (headerContentType r) with
  | Ok t => (t =? "application/xml")%string || (t =? "text/xml")%string
  | _ => false
  end.

Definition DecodeXMLRequest {A} (xmlDecode : string -> outcome A) (r : Request) : outcome A :=
  if negb (isContentXML r) then Err (HTTPErrorf StatusBadRequest "webdav: expected application/xml request")
  else match xmlDecode (Body r) with
       | Err e => Err (HTTPError StatusBadRequest e)
       | o => o
       end.

Definition IsRequestBodyEmpty (r : Request) : bool := (Body r =? "")%string.

(** ** REPORT *)

Definition handleQuery (r : Request) (query : calendarQuery) : BGo Reply :=
  cf <-- lift (decodeCompFilter (queryFilter query)) ;;
  cos <-- QueryCalendarObjects (URLPath r) (mkQuery (mkCompRequest "" false [] false [] None) cf) ;;
  resps <-- collect cos (fun co => one (propFindCalendarObject (user r) (queryFind query) co)) ;;
  ret (MultiStatusReply resps).

(** The data request is decoded, and only its errors matter. *)
Definition decodeDataRequest (find : PropFind) : outcome unit :=
  match findProp find with
  | None => Ok tt
  | Some prop =>
      calendarData <-? match xmlCalendarData prop with
                       | Err err => if IsNotFound err then Ok (mkDataReq None None) else Err err
                       | o => o
                       end ;;
      _ <-? decodeCalendarDataReq calendarData ;;
      Ok tt
  end.

(** A path that cannot be read is given as the status of its error. *)
Definition multigetOne (auth : option string) (find : PropFind) (href : string) : BGo (list Response) :=
  fun b =>
    match Backend_GetCalendarObject href b with
    | (Ok co, b') => one (propFindCalendarObject auth find co) b'
    | (Err err, b') => (Ok [NewErrorResponse href err], b')
    | (Panic p, b') => (Panic p, b')
    | (Diverge, b') => (Diverge, b')
    end.

Definition handleMultiget (r : Request) (multiget : calendarMultiget) : BGo Reply :=
  lift (decodeDataRequest (multigetFind multiget)) ;;;
  resps <-- collect (multigetHrefs multiget) (multigetOne (user r) (multigetFind multiget)) ;;
  ret (MultiStatusReply resps).

Definition handleReport (r : Request) : BGo Reply :=
  report <-- lift (DecodeXMLRequest xmlReport r) ;;
  match report with
  | ReportQuery query => handleQuery r query
  | ReportMultiget multiget => handleMultiget r multiget
  end.

(** ** The other methods *)

Definition allowCollection : list string := ["OPTIONS"; "PROPFIND"; "REPORT"; "DELETE"; "MKCOL"].
Definition allowMissing : list string := ["OPTIONS"; "PUT"].
Definition allowObject : list string := ["OPTIONS"; "HEAD"; "GET"; "PUT"; "DELETE"; "PROPFIND"].

Definition Server_Options (r : Request) : BGo (list string * list string) :=
  let caps := ["calendar-access"] in
  if negb (resourceTypeAtPath Prefix (URLPath r) =? resourceTypeCalendarObject) then ret (caps, allowCollection)
  else
    fun b =>
      match Backend_GetCalendarObject (URLPath r) b with
      | (Ok _, b') => (Ok (caps, allowObject), b')
      | (Err err, b') => (if isSome (asHTTPError err) then Ok (caps, allowMissing) else Err err, b')
      | (Panic p, b') => (Panic p, b')
      | (Diverge, b') => (Diverge, b')
      end.

Definition handleOptions (r : Request) : BGo Reply :=
  let! (caps, allow) := Server_Options r in ret (OptionsReply (["1"; "3"] ++ caps) allow).

Definition HeadGet (r : Request) : BGo Reply :=
  co <-- Backend_GetCalendarObject (URLPath r) ;;
  body <-- (if negb (Method r =? "HEAD")%string
            then data <-- lift (serializeData co) ;; ret (Some data) else ret None) ;;
  ret (ObjectReply (ContentLength co) (ETag co) (ModTime co) body).

Definition Server_Put (r : Request) : BGo Reply :=
  let opts := mkPutOptions (headerIfNoneMatch r) (headerIfMatch r) in
  match ParseMediaType (headerContentType r) with
  | Err _ => fail (HTTPErrorf StatusBadRequest "caldav: malformed Content-Type: %v")
  | Panic p => panic p
  | Diverge => lift Diverge
  | Ok t =>
      if negb (t =? MIMEType)%string then fail (HTTPErrorf StatusBadRequest "caldav: unsupported Content-Type %q")
      else
        match ParseCalendar (Body r) with
        | Err _ => fail (HTTPErrorf StatusBadRequest "caldav: failed to parse iCalendar: %v")
        | Panic p => panic p
        | Diverge => lift Diverge
        | Ok cal =>
            co <-- PutCalendarObject (URLPath r) (Some cal) (Some opts) ;;
            ret (CreatedReply (ETag co) (ModTime co) (objectPath co))
        end
  end.

Definition Server_Delete (r : Request) : BGo Reply :=
  Backend_DeleteCalendarObject (URLPath r) ;;; ret (StatusReply StatusNoContent).

(** The calendar that a MKCOL or MKCALENDAR asks for. *)
Definition requestedCalendar (path : string) (m : option mkcolReq) : Caldav.Calendar :=
  match m with
  | None => Caldav.mkCalendar path "" "" 0 [] ""
  | Some m => Caldav.mkCalendar path (mkDisplayName m) (mkDescription m) (mkMaxResourceSize m)
                (mkSupportedComponents m) ""
  end.

Definition createUnderHome (r : Request) (m : option mkcolReq) : BGo Reply :=
  let cal := requestedCalendar (URLPath r) m in
  homeSetPath <-- lift (CalendarHomeSetPath (user r)) ;;
  (if negb (HasPrefix (calendarPath cal) homeSetPath) then fail ErrInvalidCalendarPath
   else Backend_CreateCalendar (Some cal)) ;;;
  ret (StatusReply StatusCreated).

Definition mkcolBody (r : Request) : outcome (option mkcolReq) :=
  if IsRequestBodyEmpty r then Ok None
  else
    match DecodeXMLRequest xmlMkcol r with
    | Err _ => Err (HTTPErrorf StatusBadRequest "carddav: error parsing mkcol request: %s")
    | Ok m =>
        if bool_decide (CollectionName ∈ mkResourceType m) && bool_decide (calendarElementName ∈ mkResourceType m)
        then Ok (Some m)
        else Err (HTTPErrorf StatusBadRequest "carddav: unexpected resource type")
    | Panic p => Panic p
    | Diverge => Diverge
    end.

Definition mkcalendarBody (r : Request) : outcome (option mkcolReq) :=
  if IsRequestBodyEmpty r then Ok None
  else
    match DecodeXMLRequest xmlMkcalendar r with
    | Err _ => Err (HTTPErrorf StatusBadRequest "carddav: error parsing mkcalendar request: %s")
    | Ok m => Ok (Some m)
    | Panic p => Panic p
    | Diverge => Diverge
    end.

Definition atCalendar (r : Request) : BGo unit :=
  if negb (resourceTypeAtPath Prefix (URLPath r) =? resourceTypeCalendar)
  then fail (HTTPErrorf StatusForbidden "caldav: calendar creation not allowed at given location")
  else ret tt.

Definition Server_Mkcol (r : Request) : BGo Reply :=
  atCalendar r ;;; m <-- lift (mkcolBody r) ;; createUnderHome r m.

Definition Server_Mkcalendar (r : Request) : BGo Reply :=
  atCalendar r ;;; m <-- lift (mkcalendarBody r) ;; createUnderHome r m.

Definition handlePropfind (r : Request) : BGo Reply :=
  propfind <-- lift
    (if IsRequestBodyEmpty r then Ok (mkPropFind None true false)
     else if isContentXML r then DecodeXMLRequest xmlPropFind r
     else Err (HTTPErrorf StatusBadRequest "webdav: unsupported request body")) ;;
  depth <-- lift
    (if (headerDepth r =? "")%string then Ok DepthInfinity
     else match ParseDepth (headerDepth r) with
          | Err e => Err (HTTPError StatusBadRequest e)
          | o => o
          end) ;;
  ms <-- Server_PropFind r propfind depth ;;
  ret (MultiStatusReply ms).

Definition handleProppatch (r : Request) : BGo Reply :=
  lift (DecodeXMLRequest xmlPropertyUpdate r) ;;;
  fail (HTTPErrorf StatusNotImplemented "caldav: PropPatch not implemented").

Definition parseDestination (r : Request) : outcome string :=
  if (headerDestination r =? "")%string
  then Err (HTTPErrorf StatusBadRequest "webdav: missing Destination header in MOVE request")
  else match urlParse (headerDestination r) with
       | Err _ => Err (HTTPErrorf StatusBadRequest "webdav: marlformed Destination header in MOVE request: %v")
       | o => o
       end.

Definition handleCopyMove (r : Request) : BGo Reply :=
  lift (parseDestination r) ;;;
  lift (if (headerOverwrite r =? "")%string then Ok true else ParseOverwrite (headerOverwrite r)) ;;;
  depth <-- lift (if (headerDepth r =? "")%string then Ok DepthInfinity else ParseDepth (headerDepth r)) ;;
  if (Method r =? "COPY")%string then
    if depth =? DepthOne
    then fail (HTTPErrorf StatusBadRequest "webdav: Depth: 1 is not supported in COPY request")
    else fail (HTTPErrorf StatusNotImplemented "caldav: Copy not implemented")
  else
    if negb (depth =? DepthInfinity)
    then fail (HTTPErrorf StatusBadRequest "webdav: only Depth: infinity is accepted in MOVE request")
    else fail (HTTPErrorf StatusNotImplemented "caldav: Move not implemented").

(** ** The handler *)

Definition isMethod (r : Request) (m : string) : bool := (Method r =? m)%string.

Definition dispatch (r : Request) : BGo Reply :=
  if isMethod r "REPORT" then handleReport r
  else if isMethod r "OPTIONS" then handleOptions r
  else if isMethod r "GET" || isMethod r "HEAD" then HeadGet r
  else if isMethod r "PUT" then Server_Put r
  else if isMethod r "DELETE" then Server_Delete r
  else if isMethod r "PROPFIND" then handlePropfind r
  else if isMethod r "PROPPATCH" then handleProppatch r
  else if isMethod r "MKCOL" then Server_Mkcol r
  else if isMethod r "MKCALENDAR" then Server_Mkcalendar r
  else if isMethod r "COPY" || isMethod r "MOVE" then handleCopyMove r
  else fail (HTTPErrorf StatusMethodNotAllowed "webdav: unsupported method").

Definition ServeHTTP (r : Request) : BGo Reply :=
  if (URLPath r =? "/.well-known/caldav")%string then
    match CurrentUserPrincipal (user r) with
    | Ok principalPath => ret (RedirectReply principalPath)
    | Err _ => ret (ErrorReply StatusInternalServerError)
    | Panic p => panic p
    | Diverge => lift Diverge
    end
  else
    fun b =>
      match dispatch r b with
      | (Err err, b') => (Ok (ErrorReply (errorStatus err)), b')
      | res => res
      end.

(** ** Over any store that keeps its promise *)

Context {SL : StoreLaws S} {IL : IcsLaws I} {QL : QuotingLaws Q}.

(** From a state of the store that is in order, the store is left as it was. *)
Definition leaves (b b' : Backend) : Prop := Inv (store b) -> untouched b b'.

#[local] Instance leaves_preorder : PreOrder leaves.
Proof using Type.
  split; [intros b Hb; by apply untouched_refl|]. intros b1 b2 b3 H1 H2 Hb.
  specialize (H1 Hb). eapply untouched_trans; [exact H1|]. by apply H2, H1.
Qed.

Definition reads {A} (m : BGo A) : Prop := keeps leaves (fun _ => True) m.

Lemma reads_run {A} (m : BGo A) : (forall b, Inv (store b) -> untouched b (snd (m b))) -> reads m.
Proof using Type. intros H b. split; [exact (H b)|]. by destruct (fst (m b)). Qed.

Lemma reads_bind {A B} (m : BGo A) (k : A -> BGo B) : reads m -> (forall a, reads (k a)) -> reads (bind m k).
Proof using Type. apply keeps_bind, _. Qed.
Lemma reads_ret {A} (a : A) : reads (ret a).
Proof using Type. apply keeps_ret, _. Qed.
Lemma reads_fail {A} e : reads (fail e : BGo A).
Proof using Type. by apply keeps_fail; [apply _|]. Qed.
Lemma reads_lift {A} (o : outcome A) : reads (lift o).
Proof using Type. apply keeps_lift; [apply _|]. by destruct o. Qed.
Lemma reads_collect {A} (l : list A) (f : A -> BGo (list Response)) : (forall a, reads (f a)) -> reads (collect l f).
Proof using Type.
  intros H. apply keeps_forEach; [apply _|]. intros resps a. apply keeps_bind; [apply _|apply H|].
  intros. apply keeps_ret, _.
Qed.

Lemma reads_respond path propfind props : reads (respond path propfind props).
Proof using Type.
  apply reads_bind; [|intros; apply reads_lift]. apply reads_run. intros b Hb. by split.
Qed.

Lemma reads_GetObject path : reads (Backend_GetCalendarObject path).
Proof using IL.
  apply reads_run. intros b Hb. pose proof (Backend_GetCalendarObject_spec path b Hb) as H.
  destruct (Backend_GetCalendarObject path b) as [[co|e|p|] b']; try done. by destruct H.
Qed.

Lemma reads_ListObjects path : reads (listCalendarObjects path).
Proof using IL.
  apply reads_run. intros b Hb. pose proof (listCalendarObjects_spec path b Hb) as H.
  destruct (listCalendarObjects path b) as [[co|e|p|] b']; try done. by destruct H.
Qed.

Lemma reads_Query path query : reads (QueryCalendarObjects path query).
Proof using IL.
  apply reads_bind; [|intros; apply (keeps_wrapf _ _ (fun _ => True)); [apply reads_lift|done]].
  apply (keeps_wrapf _ _ (fun _ => True)); [apply reads_ListObjects|done].
Qed.

Lemma reads_ListCalendars auth : reads (Backend_ListCalendars auth).
Proof using Type.
  apply reads_bind; [apply (keeps_wrapf _ _ (fun _ => True)); [apply reads_lift|done]|]. intros path.
  apply reads_bind; [|intros; apply reads_ret]. apply (keeps_wrapf _ _ (fun _ => True)); [|done].
  apply reads_run. intros b Hb. unfold onStore. pose proof (ListCalendars_law (normalizePath path) (store b) Hb) as H.
  destruct (ListCalendars _ (store b)) as [[l|e|p|] w]; try done. by destruct H as (? & ? & _).
Qed.

Lemma reads_GetCalendar path : reads (Backend_GetCalendar path).
Proof using Type.
  apply reads_bind; [|intros; apply reads_ret]. apply (keeps_wrapf _ _ (fun _ => True)); [|done].
  apply reads_run. intros b Hb. unfold onStore. pose proof (GetCalendar_law (normalizePath path) (store b) Hb) as H.
  destruct (GetCalendar _ (store b)) as [[l|e|p|] w]; try done; destruct H as [-> _]; by split.
Qed.

Create HintDb reads.
Hint Resolve reads_bind reads_ret reads_fail reads_lift reads_collect reads_respond reads_GetObject
  reads_ListObjects reads_Query reads_ListCalendars reads_GetCalendar : reads.

(** Read-only code, by its structure. *)
Ltac read_only :=
  repeat first
    [ match goal with
      | |- reads (if ?c then _ else _) => destruct c
      | |- reads (match ?x with _ => _ end) => destruct x
      end
    | progress (intros; eauto 2 with reads)
    | match goal with |- reads (bind _ _) => apply reads_bind end
    | match goal with |- reads (collect _ _) => apply reads_collect end ].

Lemma reads_one m : reads m -> reads (one m).
Proof using Type. intros. unfold one. read_only. Qed.

Lemma reads_allObjects auth propfind cal : reads (propFindAllCalendarObjects auth propfind cal).
Proof using IL.
  unfold propFindAllCalendarObjects, Backend_ListCalendarObjects, one, propFindCalendarObject. read_only.
Qed.

Lemma reads_allCalendars auth propfind recurse : reads (propFindAllCalendars auth propfind recurse).
Proof using IL.
  unfold propFindAllCalendars, propFindCalendar. pose proof (reads_allObjects auth propfind). read_only.
Qed.

Lemma reads_PropFind r propfind depth : reads (Server_PropFind r propfind depth).
Proof using IL.
  unfold Server_PropFind, one, propFindRoot, propFindUserPrincipal, propFindHomeSet, propFindCalendar,
    propFindCalendarObject.
  pose proof (reads_allObjects (user r) propfind). pose proof (reads_allCalendars (user r) propfind). read_only.
Qed.

Lemma reads_multigetOne auth find href : reads (multigetOne auth find href).
Proof using IL.
  apply reads_run. intros b Hb. unfold multigetOne.
  pose proof (Backend_GetCalendarObject_spec href b Hb) as H.
  destruct (Backend_GetCalendarObject href b) as [[co|e|p|] b']; try done.
  destruct H as (H & _). destruct (reads_one _ (reads_respond (objectPath co) find (objectProps auth co)) b') as [H1 _].
  eapply untouched_trans; [exact H|]. by apply H1, H.
Qed.

Lemma reads_Report r : reads (handleReport r).
Proof using IL.
  unfold handleReport, handleQuery, handleMultiget, one, propFindCalendarObject.
  pose proof reads_multigetOne. read_only.
Qed.

Lemma reads_Options r : reads (handleOptions r).
Proof using IL.
  unfold handleOptions, Server_Options. apply reads_bind; [|intros []; apply reads_ret].
  destruct (negb _); [apply reads_ret|]. apply reads_run. intros b Hb.
  pose proof (Backend_GetCalendarObject_spec (URLPath r) b Hb) as H.
  destruct (Backend_GetCalendarObject (URLPath r) b) as [[co|e|p|] b']; try done. by destruct H.
Qed.

(** ** What a request may change *)

(** A calendar was filed under the normal form of the path.  The path begins with the home
    of the user; so does the normal form, or it is the home, when they are the same up to a
    slash at the end: elements that are two dots lead elsewhere. *)
Definition createdCalendar (r : Request) (b b' : Backend) : Prop :=
  isMethod r "MKCOL" || isMethod r "MKCALENDAR" = true
  /\ (exists home, CalendarHomeSetPath (user r) = Ok home /\ HasPrefix (URLPath r) home = true
        /\ (URLPath r = normalizePath (URLPath r) \/ URLPath r = normalizePath (URLPath r) +:+ "/" ->
            HasPrefix (normalizePath (URLPath r)) home = true \/ home = normalizePath (URLPath r) +:+ "/"))
  /\ resourceTypeAtPath Prefix (URLPath r) = resourceTypeCalendar
  /\ calendars (store b) !! normalizePath (URLPath r) = None
  /\ (exists cal, storedPath cal = normalizePath (URLPath r)
        /\ calendars (store b') = <[normalizePath (URLPath r) := cal]> (calendars (store b)))
  /\ objects (store b') = objects (store b) /\ forall o, genuine (store b') o <-> genuine (store b) o.

(** An object was put at the path, with the content of the body of the request; or the store
    failed, and what is read at the path may be that content. *)
Definition putObjectAt (r : Request) (b b' : Backend) : Prop :=
  isMethod r "PUT" = true /\ exists cal opts, ParseCalendar (Body r) = Ok cal
    /\ opts = mkPutOptions (headerIfNoneMatch r) (headerIfMatch r)
    /\ (putDone (URLPath r) cal opts b b' \/ putTried (URLPath r) cal opts b b').

Definition deletedObjectAt (r : Request) (b b' : Backend) : Prop :=
  isMethod r "DELETE" = true /\ calendars (store b') = calendars (store b)
  /\ (objects (store b') = objects (store b)
      \/ objects (store b') = objects (store b) ∖ {[ normalizePath (URLPath r) ]})
  /\ forall o, objPath o <> normalizePath (URLPath r) -> (genuine (store b') o <-> genuine (store b) o).

Lemma HasPrefix_slash p home :
  HasPrefix (p +:+ "/") home = true -> HasPrefix p home = true \/ home = p +:+ "/".
Proof using Type.
  rewrite !HasPrefix_spec. revert home. induction p as [|a p IH]; intros home [r Hr].
  - destruct home as [|a home]; [left; by exists ""|right]. rewrite app_String in Hr. injection Hr as <- Hr.
    by destruct home.
  - destruct home as [|b home]; [left; by exists (String a p)|]. rewrite !app_String in Hr. injection Hr as <- Hr.
    destruct (IH home) as [[r' ->]| ->]; [by exists r|left; by exists r'|by right].
Qed.

Lemma createUnderHome_scope r m b :
  isMethod r "MKCOL" || isMethod r "MKCALENDAR" = true ->
  resourceTypeAtPath Prefix (URLPath r) = resourceTypeCalendar -> Inv (store b) ->
  let '(_, b') := createUnderHome r m b in
  untouched b b' \/ Inv (store b') /\ createdCalendar r b b'.
Proof using Type.
  intros Hm Ht Hb. unfold createUnderHome, bind at 1, lift.
  destruct (CalendarHomeSetPath (user r)) as [home|e|p|] eqn:Eh; try (left; by apply untouched_refl).
  assert (calendarPath (requestedCalendar (URLPath r) m) = URLPath r) as Hp by (by destruct m).
  rewrite Hp. destruct (HasPrefix (URLPath r) home) eqn:Epre; cbn [negb]; [|left; by apply untouched_refl].
  unfold Backend_CreateCalendar. set (cal := match SupportedComponentSet _ with [] => _ | _ => _ end).
  assert (storedPath (caldavCalendarToStoreCalendar cal) = normalizePath (URLPath r)) as Hs.
  { rewrite <- Hp. unfold cal. by destruct (SupportedComponentSet _). }
  unfold bind, wrapf, onStore. pose proof (CreateCalendar_law (caldavCalendarToStoreCalendar cal) (store b) Hb) as HC.
  destruct (CreateCalendar _ (store b)) as [[u|e|p|] w]; try done; cbn.
  - right. destruct HC as (G1 & G2 & G3 & G4 & G5). rewrite Hs in *. split; [done|].
    split; [done|]. split; [|split; [done|]; split; [done|]].
    { exists home. split; [done|]. split; [done|]. intros [EQ|EQ]; [left; by rewrite <- EQ|].
      apply HasPrefix_slash. by rewrite <- EQ. }
    split; [by exists (caldavCalendarToStoreCalendar cal)|]. done.
  - left. by destruct HC as (G1 & G2 & _).
Qed.

Lemma Put_scope r b :
  isMethod r "PUT" = true -> Inv (store b) ->
  let '(_, b') := Server_Put r b in untouched b b' \/ Inv (store b') /\ putObjectAt r b b'.
Proof using IL QL.
  intros Hm Hb. unfold Server_Put.
  destruct (ParseMediaType _) as [t|e|p|]; try (left; by apply untouched_refl).
  destruct (negb _); [left; by apply untouched_refl|].
  destruct (ParseCalendar _) as [cal|e|p|] eqn:EC; try (left; by apply untouched_refl).
  set (opts := mkPutOptions _ _). pose proof (PutCalendarObject_spec (URLPath r) cal opts b Hb) as HP.
  assert (forall b', putDone (URLPath r) cal opts b b' \/ putTried (URLPath r) cal opts b b' ->
            Inv (store b') /\ putObjectAt r b b') as HD.
  { intros b' H. split; [by destruct H as [[? _]|[? _]]|]. split; [done|]. by exists cal, opts. }
  unfold bind. destruct (PutCalendarObject _ _ _ b) as [[co|e|p|] b']; try done; cbn.
  - right. apply HD. left. apply HP.
  - destruct HP as [HP|[HP|HP]]; [by left|right; apply HD; by right|right; apply HD; by left].
Qed.

Lemma Delete_scope r b :
  isMethod r "DELETE" = true -> Inv (store b) ->
  let '(_, b') := Server_Delete r b in Inv (store b') /\ deletedObjectAt r b b'.
Proof using Type.
  intros Hm Hb. unfold Server_Delete, Backend_DeleteCalendarObject, bind, wrapf, onStore.
  pose proof (DeleteObject_law (normalizePath (URLPath r)) (store b) Hb) as HD.
  destruct (DeleteCalendarObject _ (store b)) as [[u|e|p|] w]; try done; cbn.
  - destruct HD as (G1 & G2 & _ & G4 & G5). split; [done|]. split; [done|]. split; [done|]. split; [by right|done].
  - destruct HD as (G1 & G2 & G3 & _ & G5). done.
Qed.

(** C15: Whatever the request, over any store: the store stays in order, and all that
    changes is what the method and the path of the request name.  A calendar appears only for
    a MKCOL or MKCALENDAR of a path of a calendar that begins with the home of the user, under
    the normal form of that path and where no calendar was; that is below the home too when the
    path is in normal form, up to a slash at its end, but not for a path with two dots (see
    [mkcol_escapes]).  An object appears or is replaced only at the path of a PUT, with the
    content of its body and when its conditional headers were met; an object goes only at the
    normal form of the path of a DELETE; no other method changes anything.  The user only
    matters for new calendars. *)
Theorem request_scope (r : Request) (b : Backend) :
  Inv (store b) ->
  let b' := snd (ServeHTTP r b) in
  untouched b b'
  \/ Inv (store b') /\ (createdCalendar r b b' \/ putObjectAt r b b' \/ deletedObjectAt r b b').
Proof using IL QL.
  intros Hb. cbn zeta.
  assert (forall m : BGo Reply, reads m -> untouched b (snd (m b))) as Hreads.
  { intros m H. by apply (H b). }
  unfold ServeHTTP. destruct (_ =? _)%string.
  { left. apply Hreads. destruct (CurrentUserPrincipal (user r)); [apply reads_ret|apply reads_ret| |apply reads_lift].
    apply reads_run. intros b0 Hb0. by split. }
  assert (snd (match dispatch r b with
          | (Err err, b') => (Ok (ErrorReply (errorStatus err)), b') | res => res end) = snd (dispatch r b)) as ->.
  { by destruct (dispatch r b) as [[a|e|p|] b']. }
  unfold dispatch.
  destruct (isMethod r "REPORT"); [left; apply Hreads, reads_Report|].
  destruct (isMethod r "OPTIONS"); [left; apply Hreads, reads_Options|].
  destruct (isMethod r "GET" || isMethod r "HEAD").
  { left. apply Hreads. unfold HeadGet. read_only. }
  destruct (isMethod r "PUT") eqn:EP.
  { pose proof (Put_scope r b EP Hb) as H. destruct (Server_Put r b) as [o b']. cbn.
    destruct H as [H|[H1 H2]]; [by left|]. right. auto. }
  destruct (isMethod r "DELETE") eqn:ED.
  { pose proof (Delete_scope r b ED Hb) as H. destruct (Server_Delete r b) as [o b']. cbn.
    destruct H as [H1 H2]. right. auto. }
  destruct (isMethod r "PROPFIND").
  { left. apply Hreads. unfold handlePropfind. pose proof reads_PropFind. read_only. }
  destruct (isMethod r "PROPPATCH"); [left; apply Hreads; unfold handleProppatch; read_only|].
  assert (forall body, isMethod r "MKCOL" || isMethod r "MKCALENDAR" = true ->
    let b' := snd (bind (atCalendar r) (fun _ => m <-- lift body ;; createUnderHome r m) b) in
    untouched b b' \/ Inv (store b') /\ createdCalendar r b b') as HC.
  { intros body Hm. unfold atCalendar, bind at 1.
    destruct (Z.eqb_spec (resourceTypeAtPath Prefix (URLPath r)) resourceTypeCalendar) as [Ht|Ht];
      cbn [negb]; [|left; by apply untouched_refl].
    unfold ret, bind, lift. destruct body as [m|e|p|]; try (left; by apply untouched_refl).
    pose proof (createUnderHome_scope r m b Hm Ht Hb) as H. by destruct (createUnderHome r m b). }
  destruct (isMethod r "MKCOL") eqn:EM.
  { destruct (HC (mkcolBody r) eq_refl) as [H|[H1 H2]]; [by left|]. right. auto. }
  destruct (isMethod r "MKCALENDAR") eqn:EA.
  { destruct (HC (mkcalendarBody r) eq_refl) as [H|[H1 H2]]; [by left|]. right. auto. }
  left. apply Hreads. unfold handleCopyMove. read_only.
Qed.
End Server.

(** ** What the decoding loses *)

Definition negated (el : propFilter) : propFilter :=
  mkPropEl (elPropName el) (elPropNotDefined el) (elPropRange el)
    (option_map (fun t => mkTextEl (elText t) (Collation t) (negb (elNegate t))) (elPropText el)) (elPropParams el).

(** The attribute negate-condition is dropped. *)
Lemma negate_condition_dropped el : decodePropFilter (negated el) = decodePropFilter el.
Proof. destruct el as [name nd range [t|] params]; done. Qed.

(** ** Who may do what *)

Definition asUser (u : option string) (r : Request) : Request :=
  mkRequest (Method r) (URLPath r) u (headerIfNoneMatch r) (headerIfMatch r) (headerContentType r)
    (headerDepth r) (headerDestination r) (headerOverwrite r) (Body r).

(** The user is not looked at when an object is read, written or deleted: any user
    who is authenticated has every object of everyone. *)
Theorem objects_of_everyone {I : Ics} {Q : Quoting} {E : CalEnv} {W} {S : Store W} {WR : Wire} {R : RangeProps}
    (Prefix : string) (r : Request) (u : option string) (b : Backend (W := W)) :
  URLPath r <> "/.well-known/caldav"%string ->
  (Method r ∈ ["OPTIONS"; "GET"; "HEAD"; "PUT"; "DELETE"])%string ->
  ServeHTTP Prefix (asUser u r) b = ServeHTTP Prefix r b.
Proof.
  intros Hp Hm. unfold ServeHTTP. cbn [URLPath asUser]. rewrite (proj2 (String.eqb_neq _ _) Hp).
  assert (dispatch Prefix (asUser u r) b = dispatch Prefix r b) as ->; [|done].
  unfold dispatch, isMethod. cbn [Method asUser].
  rewrite !elem_of_cons, elem_of_nil in Hm. by destruct Hm as [->|[->|[->|[->|[->|[]]]]]].
Qed.
