(* ===== verification/CalExamples.v ===== *)
(** * A sample calendar server, and what goes wrong in it

    Calendars, a clock, a quoting and decoders that behave as documented; requests to
    the server over the store in memory, among them ones that it answers wrongly; and
    the witnesses of the theorems on calendars. *)

From stdpp Require Import gmap.
From S2P Require Import Prelude S3Cache S3Spec S3Examples GoStrings GoPath GoSearch GoBTree CacheMap Pgcache.
From S2P Require Import PgcacheSpec PgReplicas PgExamples Psql Caldav CalStore CalOnline CalBackend WebDav CalServer.
From Stdlib Require Import Strings.Ascii.
#[local] Open Scope Z_scope.
#[local] Set Warnings "-register-all,-clear-no-such-hyp".

(** ** Calendars that are lists of events *)

(** An event: its start, its end, its summary and its attendees. *)
Definition sampleEvent : Type := Z * Z * string * list string.

Definition eventTexts (e : sampleEvent) (prop : string) : list string :=
  let '(_, _, summary, attendees) := e in
  if (prop =? "SUMMARY")%string then [summary]
  else if (prop =? "ATTENDEE")%string then attendees else [].

#[export] Instance sampleIcs : Ics := {|
  ICalendar := list sampleEvent;
  Component := sampleEvent;
  VEvent := sampleEvent;
  IANAProperty := string;
  RecurrenceRule := unit;
  RRule := unit;
  ParseCalendar := fun s =>
    match countable.decode (unbits s) with
    | Some l => Ok l
    | None => Err (PlainError "unexpected end of calendar")
    end;
  SerializeTo := fun l => Ok (bits (countable.encode l));
  Components := fun l => l;
  Events := fun l => l;
  eventComponents := fun e => [];
  asVEvent := fun e => Some e;
  Singular := fun prop e => (prop =? "SUMMARY")%string;
  GetProperty := fun e prop => head (eventTexts e prop);
  GetProperties := eventTexts;
  Value := fun s => s;
  ICalParameters := fun s => ∅;
  ComponentPropertyRdate := "RDATE";
  ComponentPropertyExdate := "EXDATE";
  GetStartAt := fun '(t, _, _, _) => Ok t;
  GetEndAt := fun '(_, t, _, _) => Ok t;
  GetRRules := fun e => Ok [];
  GetRDates := fun e => Ok [];
  GetExDates := fun e => Ok [];
  StrToRRule := fun r => Some r;
  DTStart := fun r t => r;
  Between := fun rules dates exceptions start stop inc => []
|}.

#[export] Instance sampleIcs_laws : IcsLaws sampleIcs.
Proof.
  split; try done; try (by intros [[[]]]). intros s. cbn. by destruct (countable.decode _).
Qed.

#[export] Instance sampleEnv : CalEnv := {|
  currentTime := fun n => 1000 + Z.of_nat n;
  HashBytes := fun data => "md5-" +:+ data;
  rangeMap := fun A n m => map snd (map_to_list m)
|}.
#[export] Instance sampleEnv_laws : CalEnvLaws sampleEnv.
Proof. split. done. Qed.

(** A text between quotes. *)
Definition unquoted (s : string) : outcome string :=
  match s with
  | String c s' => if (c =? "^")%char then Ok s' else Err (PlainError "invalid syntax")
  | EmptyString => Err (PlainError "invalid syntax")
  end.
#[export] Instance sampleQuoting : Quoting := {| Quote := fun s => String "^" s; Unquote := unquoted |}.
#[export] Instance sampleQuoting_laws : QuotingLaws sampleQuoting.
Proof. split; [|done]. intros [|a s]; [done|]. cbn. by destruct (a =? "^")%char. Qed.

#[export] Instance sampleRange : RangeProps := {| rangeProps := fun n props => props |}.
#[export] Instance sampleRange_laws : RangePropsLaws sampleRange.
Proof. done. Qed.

(** Bodies that name a report. *)
Definition allProps : PropFind := mkPropFind None true false.

(** The query of RFC 4791 for the events of a calendar between two times. *)
Definition eventsBetween (start stop : Z) : compFilter :=
  mkCompEl "VCALENDAR" false None [] [mkCompEl "VEVENT" false (Some (mkTimeRange start stop)) [] []].

#[export] Instance sampleWire : Wire := {|
  ParseMediaType := fun s => Ok s;
  xmlReport := fun body => Ok (ReportQuery (mkQueryEl allProps (eventsBetween 10 20)));
  xmlPropFind := fun body => Ok allProps;
  xmlPropertyUpdate := fun body => Ok tt;
  xmlMkcol := fun body => Err (PlainError "EOF");
  xmlMkcalendar := fun body => Err (PlainError "EOF");
  xmlCalendarData := fun props => Ok (mkDataReq None None);
  urlParse := fun s => Ok s
|}.

(** ** Matching *)

Definition dayOff : sampleEvent := (10, 20, "day off", ["ann"; "bob"]).
Definition workday : sampleEvent := (12, 14, "work", []).

Definition aroundDay (start stop : Z) : CompFilter := mkCompFilter "VEVENT" false start stop [] [].

Definition objectOf (path : string) (events : list sampleEvent) : CalendarObject :=
  mkCalendarObject path 0 0 "" (Some events).

(** What matching gives on two events: an event that is exactly the day that is asked
    for is not found in it, though one inside of it is. *)
Theorem whole_day_not_found :
  Filter (Some (aroundDay 10 20)) [objectOf "/a" [dayOff]; objectOf "/b" [workday]]
  = Ok [objectOf "/b" [workday]].
Proof. reflexivity. Qed.

Lemma Filter_spec_witness :
  Filter (Some (aroundDay 10 20)) [objectOf "/a" [dayOff]; objectOf "/b" [workday]]
  = Ok (List.filter (matched (aroundDay 10 20)) [objectOf "/a" [dayOff]; objectOf "/b" [workday]]).
Proof.
  pose proof (Filter_spec (aroundDay 10 20) [objectOf "/a" [dayOff]; objectOf "/b" [workday]]) as H.
  rewrite whole_day_not_found in *. destruct H as [_ H]. by rewrite <- H.
Defined.

Lemma matchCompTimeRange_spec_witness :
  matchCompTimeRange 10 20 dayOff = Ok false /\ matchCompTimeRange 11 20 dayOff = Ok false
  /\ matchCompTimeRange 11 19 dayOff = Ok true.
Proof.
  split; [|split].
  - exact (matchCompTimeRange_spec 10 20 10 20 dayOff eq_refl eq_refl eq_refl ltac:(lia) ltac:(lia)).
  - exact (matchCompTimeRange_spec 11 20 10 20 dayOff eq_refl eq_refl eq_refl ltac:(lia) ltac:(lia)).
  - exact (matchCompTimeRange_spec 11 19 10 20 dayOff eq_refl eq_refl eq_refl ltac:(lia) ltac:(lia)).
Defined.

Definition eventsIn (start stop : Z) : CompFilter :=
  mkCompFilter "VCALENDAR" false 0 0 [] [mkCompFilter "VEVENT" false start stop [] []].

(** The query of RFC 4791 is decoded to a nested filter. *)
Lemma eventsBetween_decoded : decodeCompFilter (eventsBetween 10 20) = Ok (eventsIn 10 20).
Proof. reflexivity. Qed.

Lemma nested_query_empty_witness :
  Filter (Some (eventsIn 10 20)) [objectOf "/a" [dayOff]; objectOf "/b" [workday]] = Ok [].
Proof.
  apply (nested_query_empty (eventsIn 10 20) (aroundDay 10 20) []); try reflexivity.
  intros co Hco. rewrite !elem_of_cons, elem_of_nil in Hco. destruct Hco as [->|[->|[]]].
  - exists [dayOff]. done.
  - exists [workday]. done.
Defined.

(** ** Requests over the store in memory *)

Definition emptyBackend : Backend (W := Mem) := mkBackend NewMem 0.

Lemma emptyBackend_inv : Inv (StoreLaws := Mem_StoreLaws) (store emptyBackend).
Proof. split; apply map_Forall_empty. Qed.

Definition request (method path : string) (user : string) (none match_ : string) (body : string) : Request :=
  mkRequest method path (Some user) none match_
    (if (method =? "PUT")%string then "text/calendar" else "application/xml") "" "" "" body.

Definition textOf (events : list sampleEvent) : string := bits (countable.encode events).

Definition putAt (path user none match_ : string) (events : list sampleEvent) : Request :=
  request "PUT" path user none match_ (textOf events).
Definition getAt (path user : string) : Request := request "GET" path user "" "" "".

(** The replies to requests, one after the other. *)
Fixpoint replies (rs : list Request) (b : Backend (W := Mem)) : list (outcome Reply) :=
  match rs with
  | [] => []
  | r :: rs' => let '(o, b') := ServeHTTP "" r b in o :: replies rs' b'
  end.

Definition replyCode (o : outcome Reply) : Z :=
  match o with
  | Ok (CreatedReply _ _ _) => 201
  | Ok (StatusReply code) | Ok (ErrorReply code) => code
  | Ok (RedirectReply _) => 308
  | Ok (MultiStatusReply _) => 207
  | Ok _ => 200
  | _ => 0
  end.

Definition codes (rs : list Request) : list Z := map replyCode (replies rs emptyBackend).

(** What is put is got, by everyone. *)
Theorem put_then_get :
  codes [putAt "/ann/calendars/work/1" "ann" "" "" [workday]; getAt "/ann/calendars/work/1" "mallory"]
  = [201; 200].
Proof. eval_refl. Qed.

(** Any user deletes the object of another. *)
Theorem delete_of_another :
  codes [putAt "/ann/calendars/work/1" "ann" "" "" [workday];
         request "DELETE" "/ann/calendars/work/1" "mallory" "" "" "";
         getAt "/ann/calendars/work/1" "ann"]
  = [201; 204; 500].
Proof. eval_refl. Qed.

(** The store in memory refuses an update of an object, that its client has. *)
Theorem memory_refuses_updates :
  codes [putAt "/ann/calendars/work/1" "ann" "" "" [workday];
         putAt "/ann/calendars/work/1" "ann" "" "*" [dayOff]] = [201; 500].
Proof. eval_refl. Qed.

(** A condition that fails is an internal error, not status 412; a missing object is
    not status 404; and If-Match creates the object that is missing. *)
Theorem conditions_reported :
  codes [putAt "/ann/calendars/work/1" "ann" "" "" [workday];
         putAt "/ann/calendars/work/1" "ann" "*" "" [dayOff]] = [201; 500]
  /\ codes [getAt "/ann/calendars/work/1" "ann"] = [500]
  /\ codes [request "OPTIONS" "/ann/calendars/work/1" "ann" "" "" ""] = [500]
  /\ codes [putAt "/ann/calendars/work/1" "ann" "" "*" [workday]] = [201].
Proof. split; [|split; [|split]]; eval_refl. Qed.

(** An object put at a path that ends with a slash is not found there. *)
Theorem lost_under_raw_path :
  codes [putAt "/ann/calendars/work/1/" "ann" "" "" [workday]; getAt "/ann/calendars/work/1/" "ann"]
  = [201; 500].
Proof. eval_refl. Qed.

(** The home of the user is only compared with the beginning of the path: a calendar with two
    dots in its path is made in the home of another. *)
Theorem mkcol_escapes :
  let '(o, b') := ServeHTTP "" (request "MKCOL" "/ann/calendars/../../bob/calendars/x" "ann" "" "" "") emptyBackend in
  replyCode o = 201 /\ is_Some (memCalendars (store b') !! "/bob/calendars/x").
Proof. vm_compute. split; [done|]. by eexists. Qed.

(** The listing of a calendar has the objects of those whose name it begins. *)
Definition hrefsOf (o : outcome Reply) : list string :=
  match o with Ok (MultiStatusReply resps) => flat_map Hrefs resps | _ => [] end.

Theorem sibling_listed :
  hrefsOf (List.last (replies
    [request "MKCOL" "/ann/calendars/work" "ann" "" "" "";
     putAt "/ann/calendars/work2/1" "ann" "" "" [workday];
     mkRequest "PROPFIND" "/ann/calendars/work" (Some "ann") "" "" "" "1" "" "" ""] emptyBackend)
    Diverge)
  = ["/ann/calendars/work"; "/ann/calendars/work2/1"].
Proof. eval_refl. Qed.

(** The query for the events of a day finds none. *)
Theorem query_finds_nothing :
  List.last (replies
    [putAt "/ann/calendars/work/1" "ann" "" "" [workday];
     request "REPORT" "/ann/calendars/work" "ann" "" "" "report"] emptyBackend) Diverge
  = Ok (MultiStatusReply []).
Proof. eval_refl. Qed.

(** ** Witnesses over the store in memory *)

Definition workPath : string := "/ann/calendars/work/1".
Definition workCalendar : ICalendar := [workday].
Definition offCalendar : ICalendar := [dayOff].
Definition noConditions : PutCalendarObjectOptions := mkPutOptions "" "".

(** The backend with one object. *)
Definition oneObject : Backend (W := Mem) :=
  Eval vm_compute in snd (ServeHTTP "" (putAt workPath "ann" "" "" [workday]) emptyBackend).

Lemma oneObject_run :
  PutCalendarObject workPath (Some workCalendar) (Some noConditions) emptyBackend
  = (Ok (mkCalendarObject workPath 1000 (Z.of_nat (String.length (textOf [workday])))
           ("md5-" +:+ textOf [workday]) (Some workCalendar)), oneObject).
Proof. eval_refl. Qed.

Lemma oneObject_inv : Inv (StoreLaws := Mem_StoreLaws) (store oneObject).
Proof.
  pose proof (PutCalendarObject_spec workPath workCalendar noConditions emptyBackend emptyBackend_inv) as H.
  rewrite oneObject_run in H. destruct H as [[H _] _]. exact H.
Qed.

Lemma work_held : workPath ∈ dom (memObjects (store oneObject)).
Proof.
  apply elem_of_dom. exists (mkObject workPath 1000 (textOf [workday]) ("md5-" +:+ textOf [workday])). eval_refl.
Qed.

Lemma Put_conditional_witness :
  putDone workPath workCalendar noConditions emptyBackend oneObject
  /\ exists e b', PutCalendarObject workPath (Some offCalendar) (Some (mkPutOptions "*" "")) oneObject = (Err e, b').
Proof.
  split.
  - destruct (Put_conditional workPath workCalendar noConditions emptyBackend emptyBackend_inv) as [H _].
    rewrite oneObject_run in H. apply H.
  - destruct (Put_conditional workPath offCalendar (mkPutOptions "*" "") oneObject oneObject_inv) as [_ H].
    destruct H as (e & b' & H & _); [reflexivity| |by exists e, b'].
    exact work_held.
Defined.

Definition calendarQueryOf (filter : CompFilter) : CalendarQuery :=
  mkQuery (mkCompRequest "" false [] false [] None) filter.

Definition workdayObject : CalendarObject :=
  mkCalendarObject workPath 1000 (Z.of_nat (String.length (textOf [workday])))
    ("md5-" +:+ textOf [workday]) (Some workCalendar).

Lemma query_run :
  QueryCalendarObjects "/ann/calendars/work" (calendarQueryOf (aroundDay 10 20)) oneObject
  = (Ok [workdayObject], snd (QueryCalendarObjects "/ann/calendars/work" (calendarQueryOf (aroundDay 10 20)) oneObject)).
Proof. apply run_pair. eval_refl. Qed.

Lemma Query_spec_witness :
  exists o, genuine (StoreLaws := Mem_StoreLaws) (store oneObject) o /\ storeObjectToCaldavObject o = Ok workdayObject.
Proof.
  pose proof (Query_spec "/ann/calendars/work" (calendarQueryOf (aroundDay 10 20)) oneObject oneObject_inv) as H.
  rewrite query_run in H. destruct H as (_ & H & _).
  destruct (H workdayObject ltac:(left)) as (_ & o & H1 & _ & _ & H2). by exists o.
Defined.

Definition deleteWork : Request := request "DELETE" workPath "mallory" "" "" "".

Lemma delete_run : memObjects (store (snd (ServeHTTP "" deleteWork oneObject))) = ∅.
Proof. eval_refl. Qed.

Lemma request_scope_witness :
  deletedObjectAt deleteWork oneObject (snd (ServeHTTP "" deleteWork oneObject)).
Proof.
  destruct (request_scope "" deleteWork oneObject oneObject_inv) as [H|[_ [H|[H|H]]]]; [| | |exact H]; exfalso.
  - destruct H as (_ & _ & H & _). apply (not_elem_of_empty (C := gset string) workPath).
    rewrite <- (dom_empty_L (D := gset string) (A := Object)), <- delete_run.
    exact (eq_ind_r (fun d => workPath ∈ d) work_held H).
  - by destruct H as [H _].
  - by destruct H as [H _].
Defined.

Lemma objects_of_everyone_witness :
  ServeHTTP "" (asUser (Some "mallory"%string) (getAt workPath "ann")) oneObject
  = ServeHTTP "" (getAt workPath "ann") oneObject.
Proof.
  apply objects_of_everyone; [done|]. cbn. rewrite !elem_of_cons. auto.
Defined.

Definition sampleProps : PropMap :=
  [(ResourceTypeName, Ok (NamesValue [CollectionName])); (DisplayNameName, Ok (TextValue "work"));
   (GetETagName, Err (HTTPErrorf 403 "forbidden"))].
Definition asked : list RawXMLValue :=
  map (fun name => mkRaw (Some name) EmptyValue) [GetContentTypeName; DisplayNameName; GetETagName].

Lemma PropFind_answers_witness :
  under 200 (mkResponse ["/p"] [mkPropStat 404 [(GetContentTypeName, EmptyValue)];
     mkPropStat 200 [(DisplayNameName, TextValue "work")]; mkPropStat 403 [(GetETagName, EmptyValue)]] None)
  = [(DisplayNameName, TextValue "work")].
Proof.
  destruct (PropFind_answers 0 "/p" asked sampleProps
    (mkResponse ["/p"] [mkPropStat 404 [(GetContentTypeName, EmptyValue)];
     mkPropStat 200 [(DisplayNameName, TextValue "work")]; mkPropStat 403 [(GetETagName, EmptyValue)]] None))
    as (_ & _ & H).
  - vm_compute. done.
  - reflexivity.
  - exact (H 200).
Defined.

(** ** Over the online store *)

Definition pathTree : BTree string Path_Less := keyTree (fun s : string => s).
#[export] Instance pathTree_laws : BTreeLaws pathTree := keyTree_laws (fun s : string => s).

Definition calendarDatabase : Database string Calendar := mapDatabase.
Definition refDatabase : Database string objectRef := mapDatabase.
#[export] Instance calendarDatabase_calls : DatabaseCalls calendarDatabase.
Proof. exact (DatabaseLaws_calls (DatabaseLaws := mapDatabase_laws)). Qed.
#[export] Instance refDatabase_calls : DatabaseCalls refDatabase.
Proof. exact (DatabaseLaws_calls (DatabaseLaws := mapDatabase_laws)). Qed.

#[export] Instance sampleRef : NewRef := {| newRef := fun n => "ref-" +:+ bits (Pos.of_succ_nat n) |}.

#[export] Instance sampleRef_laws : NewRefLaws sampleRef.
Proof. split. intros n m H%string_app_inj. apply (f_equal unbits) in H. rewrite !unbits_bits in H. lia. Qed.

#[export] Instance healthy_foreign : S3Foreign (S3 := sampleS3 healthy).
Proof.
  split; try done; cbn; unfold contentOf; intros n log key e; by destruct (contents log !! key); [|intros [= <-]].
Qed.

Local Abbreviation SampleOnline := (Online (B := pathTree)).

Definition calendarsChannel : notificationManager := mkManager "a" "teapot_invalidate_calendars".
Definition refsChannel : notificationManager := mkManager "a" "teapot_invalidate_refs".

Definition emptyOnline : SampleOnline :=
  mkOnline (B := pathTree) (mkPg ∅ NewSortedMap [] [] 0) (mkPg ∅ NewSortedMap [] [] 0) emptyS3 0.

Lemma emptyOnline_inv : onlineInv (S3 := sampleS3 healthy) sampleCache sampleVersion emptyOnline.
Proof.
  split; [apply (consistent_New zeroCalendar)|by intros p o ?|apply (consistent_New zeroRef)|by intros p o ?| |].
  - by split.
  - apply emptyS3_coherent.
Qed.

Local Abbreviation sampleCreate :=
  (Online_CreateCalendarObject (B := pathTree) (RD := refDatabase)
     (S3 := sampleS3 healthy) refsChannel sampleCache).
Local Abbreviation sampleGet :=
  (Online_GetCalendarObject (B := pathTree)
     (S3 := sampleS3 healthy) sampleCache).

Definition firstVersion : Object := mkObject workPath 5 "first" "".
Definition secondVersion : Object := mkObject workPath 9 "second" "".

Lemma online_keeps_promise_witness :
  exists o', sampleCreate firstVersion emptyOnline = (Ok tt, o') /\ dom (refsOf o') = {[ workPath ]}
    /\ (forall obj, onlineGenuine (S3 := sampleS3 healthy) sampleVersion o' obj -> objPath obj = workPath -> objData obj = "first")
    /\ fst (sampleGet workPath o') = Ok (mkObject workPath 5 "first" "first").
Proof.
  exists (snd (sampleCreate firstVersion emptyOnline)).
  assert (sampleCreate firstVersion emptyOnline = (Ok tt, snd (sampleCreate firstVersion emptyOnline))) as E.
  { apply run_pair. eval_refl. }
  pose proof (online_keeps_promise (B := pathTree) (RD := refDatabase)
    (S3 := sampleS3 healthy) refsChannel sampleCache sampleVersion ltac:(done) firstVersion workPath
    emptyOnline emptyOnline_inv) as [H _].
  rewrite E in H. destruct H as (_ & _ & H & _ & HG & _). split; [exact E|]. split; [|split; [exact HG|eval_refl]].
  rewrite H. change (refsOf emptyOnline) with (∅ : gmap Path objectRef).
  by rewrite dom_empty_L, (right_id_L ∅ (∪)).
Defined.

(** A database that is down. *)
Definition downDatabase : Database string objectRef := {|
  DBTx := unit;
  poolBegin := fun n => Err (PlainError "connection refused");
  listFunc := fun n d => Err (PlainError "connection refused");
  getFunc := fun n keys d => Err (PlainError "connection refused");
  storeFunc := fun n objects tx => Ok tx;
  deleteFunc := fun n keys tx => Ok tx;
  txCommit := fun n tx d => (Err (PlainError "connection refused"), d);
  pgNotify := fun n => (false, Some (PlainError "connection refused"));
  pgListen := fun n => Some (PlainError "connection refused");
  waitError := fun n => PlainError "connection refused";
  txWrites := fun tx => []
|}.

(** S3 is written before the database: an update that fails there has changed the content. *)
Theorem failed_create_changes :
  let '(o, w) := (sampleCreate firstVersion ;;;
                  Online_CreateCalendarObject (B := pathTree) (RD := downDatabase)
                    (S3 := sampleS3 healthy) refsChannel sampleCache secondVersion) emptyOnline in
  (exists e, o = Err e) /\ fst (sampleGet workPath w) = Ok (mkObject workPath 5 "second" "second").
Proof. vm_compute. split; [by eexists|done]. Qed.

(** An object that is replaced keeps the time of its first version. *)
Theorem replaced_keeps_time :
  fst ((sampleCreate firstVersion ;;; sampleCreate secondVersion ;;; sampleGet workPath) emptyOnline)
  = Ok (mkObject workPath 5 "second" "second").
Proof. eval_refl. Qed.

(** The server over this store: an update replaces the object, with its condition on
    the ETag that was given, and is refused under another. *)
#[local] Instance sampleOnlineStore : Store SampleOnline :=
  Online_Store (CD := calendarDatabase) (RD := refDatabase) (S3 := sampleS3 healthy) calendarsChannel refsChannel sampleCache.

Fixpoint onlineReplies (rs : list Request) (b : Backend (W := SampleOnline)) : list (outcome Reply) :=
  match rs with
  | [] => []
  | r :: rs' => let '(o, b') := ServeHTTP "" r b in o :: onlineReplies rs' b'
  end.

Theorem online_updates :
  map replyCode (onlineReplies
    [putAt workPath "ann" "" "" [workday];
     putAt workPath "ann" "" ("^" +:+ textOf [workday]) [dayOff];
     putAt workPath "ann" "" ("^" +:+ textOf [workday]) [workday];
     getAt workPath "bob"] (mkBackend emptyOnline 0))
  = [201; 201; 500; 200].
Proof. eval_refl. Qed.
