(* ===== verification/DavServer.v ===== *)
(** * The WebDAV server of files

    lib/webdav/server.go and webdav.go: a WebDAV server over any file system, the
    responses for a user principal, and the handler of lib/webdav/internal/server.go
    that dispatches the requests to any backend.

    The file system is the class [FileSystem]: its calls fail with errors of its own.
    A response is the list of what is done with its writer; the texts of numbers, times
    and XML elements are those of Go's library. *)

From stdpp Require Import gmap strings.
From S2P Require Import Prelude GoStrings Caldav CalStore CalBackend WebDav CalServer CalExamples.
#[local] Open Scope Z_scope.

(** ** webdav.go *)

Record FileInfo : Type := mkFileInfo {
  fi_Path : string;
  fi_Size : Z;
  fi_ModTime : Z;
  fi_IsDir : bool;
  fi_MIMEType : string;
  fi_ETag : string
}.

Record CreateOptions : Type := mkCreateOptions { co_IfMatch : ConditionalMatch; co_IfNoneMatch : ConditionalMatch }.
Record RemoveAllOptions : Type := mkRemoveAllOptions { ro_IfMatch : ConditionalMatch; ro_IfNoneMatch : ConditionalMatch }.
Record CopyOptions : Type := mkCopyOptions { cp_NoRecursive : bool; cp_NoOverwrite : bool }.
Record MoveOptions : Type := mkMoveOptions { mv_NoOverwrite : bool }.

(** ** The file system *)

(** An open file: what reading it to the end gives, and closing it; whether it is an
    [io.ReadSeeker]. *)
Record ReadCloser : Type := mkReadCloser {
  content : string;
  readError : option error;
  closeError : option error;
  seeker : bool
}.

Class FileSystem (F : Type) : Type := {
  Open : string -> Go F ReadCloser;
  Stat : string -> Go F FileInfo;
  ReadDir : string -> bool -> Go F (list FileInfo);
  Create : string -> string -> CreateOptions -> Go F (FileInfo * bool);
  RemoveAll : string -> RemoveAllOptions -> Go F unit;
  Mkdir : string -> Go F unit;
  Copy : string -> string -> CopyOptions -> Go F bool;
  Move : string -> string -> MoveOptions -> Go F bool
}.

(** [os.IsExist]: it looks at the error itself (and inside of the errors of package os),
    not at what an error wraps with [%w]. *)
Definition ErrExist : error := PlainError "file already exists".
Definition IsExist (e : error) : bool :=
  match e with PlainError msg => (msg =? "file already exists")%string | _ => false end.

(** The bodies of a PROPPATCH. *)
Record PropertyUpdate : Type := mkPropertyUpdate { upSet : list (list RawXMLValue); upRemove : list (list RawXMLValue) }.
Class UpdateXML : Type := { xmlUpdate : string -> outcome PropertyUpdate }.

(** ** Responses *)

Inductive Sent : Type :=
| HeaderSent (name : string) (val : PropValue)
| StatusSent (code : Z)
| CopySent (body : string)
| ContentSent (name : string) (modTime : Z) (body : string)
| MultiStatusSent (resps : list Response)
| ErrorSent (code : Z).

Definition StatusMultiStatus : Z := 207.
Definition StatusConflict : Z := 409.
Definition StatusPreconditionFailed : Z := 412.
Definition StatusUnsupportedMediaType : Z := 415.

(** The file system, what was sent, and the number of iterations over maps. *)
Record dav (F : Type) : Type := mkDav { fsys : F; sent : list Sent; ticks : nat }.
Arguments mkDav {F}.
Arguments fsys {F}.
Arguments sent {F}.
Arguments ticks {F}.

Section Server.
Context {F : Type} {FS : FileSystem F} {WR : Wire} {UX : UpdateXML} {R : RangeProps} {Q : Quoting}.
Local Abbreviation D := (Go (dav F)).

Definition send (c : Sent) : D unit := fun s => (Ok tt, mkDav (fsys s) (sent s ++ [c]) (ticks s)).
Definition onFS {A} (m : Go F A) : D A :=
  fun s => let (r, f) := m (fsys s) in (r, mkDav f (sent s) (ticks s)).
Definition respondDav (path : string) (propfind : PropFind) (props : PropMap) : D Response := fun s =>
  (NewPropFindResponse (ticks s) path propfind props, mkDav (fsys s) (sent s) (S (ticks s))).

(** [v, err := m; ...]: the error as a value. *)
Definition tryDav {A} (m : D A) : D (A + error) := fun s =>
  match m s with
  | (Ok a, s') => (Ok (inl a), s')
  | (Err e, s') => (Ok (inr e), s')
  | (Panic p, s') => (Panic p, s')
  | (Diverge, s') => (Diverge, s')
  end.

(** ** lib/webdav/internal/server.go: any backend *)

Record DavBackend : Type := mkDavBackend {
  b_Options : Request -> D (list string * list string);
  b_HeadGet : Request -> D unit;
  b_PropFind : Request -> PropFind -> Depth -> D (list Response);
  b_PropPatch : Request -> PropertyUpdate -> D Response;
  b_Put : Request -> D unit;
  b_Delete : Request -> D unit;
  b_Mkcol : Request -> D unit;
  b_Copy : Request -> string -> bool -> bool -> D bool;
  b_Move : Request -> string -> bool -> D bool;
  b_Mkcalendar : option (Request -> D unit)
}.

Definition ErrNoBackendAvailable : error := PlainError "webdav: no backend available".

Definition ServeError (err : error) : D unit := send (ErrorSent (errorStatus err)).
Definition ServeMultiStatus (resps : list Response) : D unit := send (MultiStatusSent resps).

Definition h_handleOptions (b : DavBackend) (r : Request) : D unit :=
  let! (caps, allow) := b_Options b r in
  send (HeaderSent "DAV" (TextValue (Join (["1"; "3"] ++ caps) ", "))) ;;;
  send (HeaderSent "Allow" (TextValue (Join allow ", "))) ;;;
  send (StatusSent StatusNoContent).

Definition h_handlePropfind (b : DavBackend) (r : Request) : D unit :=
  propfind <-- lift
    (if IsRequestBodyEmpty r then Ok (mkPropFind None true false)
     else if isContentXML r then DecodeXMLRequest xmlPropFind r
     else Err (HTTPErrorf StatusBadRequest "webdav: unsupported request body")) ;;
  depth <-- lift
    (if (headerDepth r =? "")%string then Ok DepthInfinity
     else match ParseDepth (headerDepth r) with
          | Err e => Err (HTTPError StatusBadRequest e)
          | o => o
          end) ;;
  ms <-- b_PropFind b r propfind depth ;;
  ServeMultiStatus ms.

Definition h_handleProppatch (b : DavBackend) (r : Request) : D unit :=
  update <-- lift (DecodeXMLRequest xmlUpdate r) ;;
  resp <-- b_PropPatch b r update ;;
  ServeMultiStatus [resp].

Definition h_handleCopyMove (b : DavBackend) (r : Request) : D unit :=
  dest <-- lift (parseDestination r) ;;
  overwrite <-- lift (if (headerOverwrite r =? "")%string then Ok true else ParseOverwrite (headerOverwrite r)) ;;
  depth <-- lift (if (headerDepth r =? "")%string then Ok DepthInfinity else ParseDepth (headerDepth r)) ;;
  created <--
    (if (Method r =? "COPY")%string then
       if depth =? DepthOne
       then fail (HTTPErrorf StatusBadRequest "webdav: Depth: 1 is not supported in COPY request")
       else b_Copy b r dest (depth =? DepthInfinity) overwrite
     else if negb (depth =? DepthInfinity)
     then fail (HTTPErrorf StatusBadRequest "webdav: only Depth: infinity is accepted in MOVE request")
     else b_Move b r dest overwrite) ;;
  send (StatusSent (if (created : bool) then StatusCreated else StatusNoContent)).

Definition h_dispatch (b : DavBackend) (r : Request) : D unit :=
  if isMethod r "OPTIONS" then h_handleOptions b r
  else if isMethod r "GET" || isMethod r "HEAD" then b_HeadGet b r
  else if isMethod r "PUT" then b_Put b r
  else if isMethod r "DELETE" then b_Delete b r ;;; send (StatusSent StatusNoContent)
  else if isMethod r "PROPFIND" then h_handlePropfind b r
  else if isMethod r "PROPPATCH" then h_handleProppatch b r
  else if isMethod r "MKCOL" then b_Mkcol b r ;;; send (StatusSent StatusCreated)
  else if isMethod r "MKCALENDAR" then
    match b_Mkcalendar b with
    | Some mkcalendar => mkcalendar r ;;; send (StatusSent StatusCreated)
    | None => fail (HTTPErrorf StatusMethodNotAllowed "webdav: server does not support MKCALENDAR")
    end
  else if isMethod r "COPY" || isMethod r "MOVE" then h_handleCopyMove b r
  else fail (HTTPErrorf StatusMethodNotAllowed "webdav: unsupported method").

Definition h_ServeHTTP (backend : option DavBackend) (r : Request) : D unit :=
  res <-- tryDav (match backend with Some b => h_dispatch b r | None => fail ErrNoBackendAvailable end) ;;
  match res with inl _ => ret tt | inr err => ServeError err end.

(** ** lib/webdav/server.go *)

Definition dav_Options (r : Request) : D (list string * list string) :=
  res <-- tryDav (onFS (Stat (URLPath r))) ;;
  match res with
  | inr err => if IsNotFound err then ret ([], ["OPTIONS"; "PUT"; "MKCOL"]) else fail err
  | inl fi =>
      ret ([], ["OPTIONS"; "DELETE"; "PROPFIND"; "COPY"; "MOVE"]
               ++ (if fi_IsDir fi then [] else ["HEAD"; "GET"; "PUT"]))
  end.

(** The headers of a file that GET and PUT share. *)
Definition fileHeaders (fi : FileInfo) : D unit :=
  (if negb (fi_MIMEType fi =? "")%string then send (HeaderSent "Content-Type" (TextValue (fi_MIMEType fi))) else ret tt) ;;;
  (if negb (IsZero (fi_ModTime fi)) then send (HeaderSent "Last-Modified" (TimeValue (fi_ModTime fi))) else ret tt) ;;;
  (if negb (fi_ETag fi =? "")%string then send (HeaderSent "ETag" (TextValue (Quote (fi_ETag fi)))) else ret tt).

(** [defer f.Close()]: its error is the result's, if there was none. *)
Definition closingFile (f : ReadCloser) (m : D unit) : D unit :=
  m ;;; match closeError f with Some e => fail (Errorf "error while closing result: %w" [e]) | None => ret tt end.

Definition dav_HeadGet (r : Request) : D unit :=
  fi <-- onFS (Stat (URLPath r)) ;;
  if fi_IsDir fi then fail (HTTPError StatusMethodNotAllowed (PlainError ""))
  else
    f <-- onFS (Open (URLPath r)) ;;
    closingFile f
      (send (HeaderSent "Content-Length" (NumberValue (fi_Size fi))) ;;;
       fileHeaders fi ;;;
       if seeker f then send (ContentSent (URLPath r) (fi_ModTime fi) (content f))
       else if negb (isMethod r "HEAD") then
         send (CopySent (content f)) ;;;
         match readError f with Some e => fail (Errorf "error while streaming output: %w" [e]) | None => ret tt end
       else ret tt).

Definition fileProps (fi : FileInfo) : PropMap :=
  [(ResourceTypeName, Ok (NamesValue (if fi_IsDir fi then [CollectionName] else [])))]
  ++ (if fi_IsDir fi then []
      else [(GetContentLengthName, Ok (NumberValue (fi_Size fi)))]
           ++ whenSet (negb (IsZero (fi_ModTime fi))) (GetLastModifiedName, TimeValue (fi_ModTime fi))
           ++ whenSet (negb (fi_MIMEType fi =? "")%string) (GetContentTypeName, TextValue (fi_MIMEType fi))
           ++ whenSet (negb (fi_ETag fi =? "")%string) (GetETagName, TextValue (Quote (fi_ETag fi)))).

Definition propFindFile (propfind : PropFind) (fi : FileInfo) : D Response :=
  respondDav (fi_Path fi) propfind (fileProps fi).

Definition dav_PropFind (r : Request) (propfind : PropFind) (depth : Depth) : D (list Response) :=
  fi <-- onFS (Stat (URLPath r)) ;;
  if negb (depth =? DepthZero) && fi_IsDir fi then
    children <-- onFS (ReadDir (URLPath r) (depth =? DepthInfinity)) ;;
    forEach children [] (fun resps child => resp <-- propFindFile propfind child ;; ret (resps ++ [resp]))
  else resp <-- propFindFile propfind fi ;; ret [resp].

(** The loops over the elements to set and to remove: each is refused. *)
Definition refuse (resp : Response) (raw : RawXMLValue) : Response :=
  match XMLName raw with Some name => EncodeProp resp StatusForbidden (name, EmptyValue) | None => resp end.

Definition dav_PropPatch (r : Request) (update : PropertyUpdate) : D Response :=
  fi <-- onFS (Stat (URLPath r)) ;;
  let resp := mkResponse [fi_Path fi] [] None in
  let resp := fold_left (fun resp raws => fold_left refuse raws resp) (upSet update) resp in
  let resp := fold_left (fun resp raws => fold_left refuse raws resp) (upRemove update) resp in
  match PropStats resp with
  | [] => fail (HTTPErrorf StatusBadRequest "webdav: request missing properties to update")
  | _ => ret resp
  end.

Definition createOptions (r : Request) : CreateOptions := mkCreateOptions (headerIfMatch r) (headerIfNoneMatch r).
Definition removeOptions (r : Request) : RemoveAllOptions := mkRemoveAllOptions (headerIfMatch r) (headerIfNoneMatch r).

Definition dav_Put (r : Request) : D unit :=
  let! (fi, created) := onFS (Create (URLPath r) (Body r) (createOptions r)) in
  fileHeaders fi ;;; send (StatusSent (if (created : bool) then StatusCreated else StatusNoContent)).

Definition dav_Delete (r : Request) : D unit := onFS (RemoveAll (URLPath r) (removeOptions r)).

Definition dav_Mkcol (r : Request) : D unit :=
  if negb (headerContentType r =? "")%string
  then fail (HTTPErrorf StatusUnsupportedMediaType "webdav: request body not supported in MKCOL request")
  else
    res <-- tryDav (onFS (Mkdir (URLPath r))) ;;
    match res with
    | inl _ => ret tt
    | inr err => if IsNotFound err then fail (HTTPError StatusConflict err) else fail err
    end.

(** What Copy and Move make of an existing destination. *)
Definition refusingExisting (m : D bool) : D bool :=
  res <-- tryDav m ;;
  match res with
  | inl created => ret created
  | inr err => if IsExist err then fail (HTTPError StatusPreconditionFailed err) else fail err
  end.

Definition dav_Copy (r : Request) (dest : string) (recursive overwrite : bool) : D bool :=
  refusingExisting (onFS (Copy (URLPath r) dest (mkCopyOptions (negb recursive) (negb overwrite)))).
Definition dav_Move (r : Request) (dest : string) (overwrite : bool) : D bool :=
  refusingExisting (onFS (Move (URLPath r) dest (mkMoveOptions (negb overwrite)))).

Definition davBackend : DavBackend :=
  mkDavBackend dav_Options dav_HeadGet dav_PropFind dav_PropPatch dav_Put dav_Delete dav_Mkcol dav_Copy dav_Move None.

(** [Handler.ServeHTTP]: without a file system there is nothing to serve. *)
Definition Dav_ServeHTTP (hasFileSystem : bool) (r : Request) : D unit :=
  if negb hasFileSystem then send (ErrorSent StatusInternalServerError)
  else h_ServeHTTP (Some davBackend) r.

(** ** The principal of a user *)

Record ServePrincipalOptions : Type := mkPrincipalOptions {
  CurrentUserPrincipalPath : string;
  HomeSets : list (Name * PropValue);
  Capabilities : list string
}.

(** Storing into a map of properties. *)
Definition setProp (p : Name * outcome PropValue) (props : PropMap) : PropMap :=
  p :: List.filter (fun q => negb (bool_decide (fst q = fst p))) props.

Definition servePrincipalPropfind (r : Request) (options : ServePrincipalOptions) : D unit :=
  propfind <-- lift (DecodeXMLRequest xmlPropFind r) ;;
  let props :=
    fold_left (fun props homeSet => setProp (fst homeSet, Ok (snd homeSet)) props) (HomeSets options)
      [(ResourceTypeName, Ok (NamesValue [PrincipalName]));
       (CurrentUserPrincipalName, Ok (HrefValue (CurrentUserPrincipalPath options)))] in
  resp <-- respondDav (URLPath r) propfind props ;;
  ServeMultiStatus [resp].

Definition ServePrincipal (r : Request) (options : ServePrincipalOptions) : D unit :=
  if isMethod r "OPTIONS" then
    send (HeaderSent "DAV" (TextValue (Join (["1"; "3"] ++ Capabilities options) ", "))) ;;;
    send (HeaderSent "Allow" (TextValue (Join ["OPTIONS"; "PROPFIND"; "REPORT"; "DELETE"; "MKCOL"] ", "))) ;;;
    send (StatusSent StatusNoContent)
  else if isMethod r "PROPFIND" then
    res <-- tryDav (servePrincipalPropfind r options) ;;
    match res with inl _ => ret tt | inr err => ServeError err end
  else send (ErrorSent StatusMethodNotAllowed).
(** ** What a request does *)

(** What is asked of the file system by the requests that change it, with the status of
    its success. *)
Definition storedStatus (created : bool) : Z := if created then StatusCreated else StatusNoContent.

Definition change (r : Request) : option (Go F Z) :=
  if isMethod r "PUT" then
    Some (res <-- Create (URLPath r) (Body r) (createOptions r) ;; ret (storedStatus (snd res)))
  else if isMethod r "DELETE" then Some (RemoveAll (URLPath r) (removeOptions r) ;;; ret StatusNoContent)
  else if isMethod r "MKCOL" then
    if (headerContentType r =? "")%string then Some (Mkdir (URLPath r) ;;; ret StatusCreated) else None
  else if isMethod r "COPY" || isMethod r "MOVE" then
    match parseDestination r, (if (headerOverwrite r =? "")%string then Ok true else ParseOverwrite (headerOverwrite r)),
          (if (headerDepth r =? "")%string then Ok DepthInfinity else ParseDepth (headerDepth r)) with
    | Ok dest, Ok overwrite, Ok depth =>
        if isMethod r "COPY" then
          if depth =? DepthOne then None
          else Some (created <-- Copy (URLPath r) dest (mkCopyOptions (negb (depth =? DepthInfinity)) (negb overwrite)) ;;
                     ret (storedStatus created))
        else if depth =? DepthInfinity then
          Some (created <-- Move (URLPath r) dest (mkMoveOptions (negb overwrite)) ;; ret (storedStatus created))
        else None
    | _, _, _ => None
    end
  else None.

(** The status of its failure. *)
Definition refusal (r : Request) (e : error) : Z :=
  if isMethod r "MKCOL" && IsNotFound e then StatusConflict
  else if (isMethod r "COPY" || isMethod r "MOVE") && IsExist e then StatusPreconditionFailed
  else errorStatus e.

Definition isHeader (c : Sent) : Prop := match c with HeaderSent _ _ => True | _ => False end.
Definition isStatus (c : Sent) : Prop := match c with StatusSent _ | MultiStatusSent _ | ErrorSent _ => True | _ => False end.

(** Headers and then one status. *)
Definition answeredBy (s s' : dav F) : Prop :=
  exists hs c, sent s' = sent s ++ hs ++ [c] /\ Forall isHeader hs /\ isStatus c.

(** Reading the file system leaves it alone, and nothing panics. *)
Definition calmly {A} (o : outcome A) : Prop := match o with Ok _ | Err _ => True | _ => False end.
Definition reads {A} (m : Go F A) : Prop := forall f, calmly (fst (m f)) /\ snd (m f) = f.

Class DavLaws : Prop := {
  Stat_reads name : reads (Stat name);
  Open_reads name : reads (Open name);
  ReadDir_reads name recursive : reads (ReadDir name recursive);
  media_calm s : calmly (ParseMediaType s);
  xmlPropFind_calm s : calmly (xmlPropFind s);
  xmlUpdate_calm s : calmly (xmlUpdate s);
  urlParse_calm s : calmly (urlParse s)
}.
Context {DL : DavLaws} {RL : RangePropsLaws R}.

(** [m] ends, leaves the file system, and sends what [P] says for its result. *)
Definition runs {A} (P : outcome A -> list Sent -> Prop) (m : D A) : Prop := forall s,
  calmly (fst (m s)) /\ fsys (snd (m s)) = fsys s /\ exists l, sent (snd (m s)) = sent s ++ l /\ P (fst (m s)) l.

(** Headers at most; headers and one status; anything. *)
Definition quiet {A} : D A -> Prop := runs (fun _ l => Forall isHeader l).
Definition replied (o : outcome unit) (l : list Sent) : Prop :=
  match o with
  | Ok _ => exists hs c, l = hs ++ [c] /\ Forall isHeader hs /\ isStatus c
  | _ => Forall isHeader l
  end.
Definition still {A} : D A -> Prop := runs (fun _ _ => True).

Lemma quiet_ret {A} (a : A) : quiet (ret a).
Proof using Type. intros s. split; [done|]. split; [done|]. exists []. by rewrite app_nil_r. Qed.

Lemma quiet_lift {A} (o : outcome A) : calmly o -> quiet (lift o).
Proof using Type. intros H s. split; [done|]. split; [done|]. exists []. by rewrite app_nil_r. Qed.

Lemma runs_bind {A B} (P : outcome B -> list Sent -> Prop) (m : D A) (k : A -> D B) :
  quiet m -> (forall a, runs P (k a)) -> (forall e l, Forall isHeader l -> P (Err e) l) ->
  (forall o hs l, Forall isHeader hs -> P o l -> P o (hs ++ l)) -> runs P (bind m k).
Proof using Type.
  intros H1 H2 HE HP s. destruct (H1 s) as (C1 & F1 & hs1 & S1 & G1). unfold bind.
  destruct (m s) as [[a|e|p|] s1]; cbn in *; try done; [|split; [done|]; split; [done|]; exists hs1; auto].
  destruct (H2 a s1) as (C2 & F2 & l & S2 & G2). split; [done|]. split; [congruence|].
  exists (hs1 ++ l). rewrite S2, S1, app_assoc. auto.
Qed.

Lemma quiet_bind {A B} (m : D A) (k : A -> D B) : quiet m -> (forall a, quiet (k a)) -> quiet (bind m k).
Proof using Type. intros H1 H2. apply runs_bind; [done..|]. intros o hs l. by apply Forall_app_2. Qed.

Lemma replied_bind {A} (m : D A) (k : A -> D unit) : quiet m -> (forall a, runs replied (k a)) -> runs replied (bind m k).
Proof using Type.
  intros H1 H2. apply runs_bind; [done..|]. intros [u|e|p|] hs l HH; cbn; try by apply Forall_app_2.
  intros (hs' & c & -> & H3 & H4). exists (hs ++ hs'), c. rewrite app_assoc. split; [done|]. split; [by apply Forall_app_2|done].
Qed.

Lemma still_bind {A B} (m : D A) (k : A -> D B) : still m -> (forall a, still (k a)) -> still (bind m k).
Proof using Type.
  intros H1 H2 s. destruct (H1 s) as (C1 & F1 & l1 & S1 & _). unfold bind.
  destruct (m s) as [[a|e|p|] s1]; cbn in *; try done; [|split; [done|]; split; [done|]; by exists l1].
  destruct (H2 a s1) as (C2 & F2 & l & S2 & _). split; [done|]. split; [congruence|].
  exists (l1 ++ l). by rewrite S2, S1, app_assoc.
Qed.

Lemma still_send c : still (send c).
Proof using Type. intros s. split; [done|]. split; [done|]. by exists [c]. Qed.

Lemma quiet_still {A} (m : D A) : quiet m -> still m.
Proof using Type. intros H s. destruct (H s) as (H1 & H2 & l & H3 & _). split; [done|]. split; [done|]. by exists l. Qed.

Lemma replied_status c : isStatus c -> runs replied (send c).
Proof using Type. intros H s. split; [done|]. split; [done|]. exists [c]. split; [done|]. by exists [], c. Qed.

Lemma replied_fail e : runs replied (fail e).
Proof using Type. intros s. split; [done|]. split; [done|]. exists []. rewrite app_nil_r. split; [done|constructor]. Qed.

Lemma quiet_onFS {A} (m : Go F A) : reads m -> quiet (onFS m).
Proof using Type.
  intros H s. destruct (H (fsys s)) as [HC HF]. unfold onFS. destruct (m (fsys s)) as [o f]; cbn in *. subst f.
  split; [done|]. split; [done|]. exists []. by rewrite app_nil_r.
Qed.

Lemma quiet_header name val : quiet (send (HeaderSent name val)).
Proof using Type. intros s. split; [done|]. split; [done|]. exists [HeaderSent name val]. split; [done|]. by constructor. Qed.

Lemma quiet_try {A} (m : D A) : quiet m -> quiet (tryDav m).
Proof using Type. intros H s. specialize (H s). unfold tryDav. by destruct (m s) as [[a|e|p|] s']. Qed.

Lemma giveAll_calm resp props : Forall (fun p => calmly (snd p)) props -> calmly (giveAll resp props).
Proof using Type.
  intros H. revert resp. induction H as [|[name [v|e|p|]] props Hp HF IH]; intros resp; cbn; done.
Qed.

Lemma giveNamed_calm resp props asked : Forall (fun p => calmly (snd p)) props -> calmly (giveNamed resp props asked).
Proof using Type.
  intros H. revert resp. induction asked as [|raw asked IH]; intros resp; cbn; [done|].
  destruct (XMLName raw) as [name|]; [|done]. unfold lookupProp.
  destruct (find _ props) as [[n [v|e|p|]]|] eqn:E; cbn; try done.
  all: apply find_some in E as [E _]; rewrite Forall_forall in H; apply list_elem_of_In in E; by specialize (H _ E).
Qed.

Lemma quiet_respond path propfind props : Forall (fun p => calmly (snd p)) props -> quiet (respondDav path propfind props).
Proof using RL.
  intros H s. split; [|split; [done|exists []; by rewrite app_nil_r]]. cbn. unfold NewPropFindResponse.
  set (props' := match lookupProp ResourceTypeName props with Some _ => props | None => props ++ [(ResourceTypeName, Ok (NamesValue []))] end).
  assert (Forall (fun p => calmly (snd p)) props') as H'.
  { unfold props'. destruct (lookupProp _ _); [done|]. apply Forall_app. split; [done|]. by constructor. }
  destruct (findPropName propfind); [done|]. destruct (findAllProp propfind).
  - apply giveAll_calm. by rewrite rangeProps_all.
  - destruct (findProp propfind); [by apply giveNamed_calm|done].
Qed.

Lemma quiet_forEach {A B} (l : list A) (b : B) (f : B -> A -> D B) : (forall b a, quiet (f b a)) -> quiet (forEach l b f).
Proof using Type.
  intros H. revert b. induction l as [|a l IH]; intros b; [apply quiet_ret|]. cbn. apply quiet_bind; [apply H|done].
Qed.

Lemma DecodeXMLRequest_calm {A} (d : string -> outcome A) r : (forall s, calmly (d s)) -> calmly (DecodeXMLRequest d r).
Proof using Type. intros H. unfold DecodeXMLRequest. destruct (negb _); [done|]. specialize (H (Body r)). by destruct (d (Body r)). Qed.

Lemma parseDestination_calm r : calmly (parseDestination r).
Proof using DL.
  unfold parseDestination. destruct (_ =? _)%string; [done|]. pose proof (urlParse_calm (headerDestination r)). by destruct (urlParse _).
Qed.
Create HintDb dav.
#[local] Hint Resolve quiet_ret quiet_header quiet_onFS quiet_try quiet_lift quiet_respond replied_fail
  Stat_reads Open_reads ReadDir_reads parseDestination_calm : dav.

Lemma quiet_fail {A} e : quiet (fail (A := A) e).
Proof using Type. by apply (quiet_lift (Err e)). Qed.
#[local] Hint Resolve quiet_fail : dav.

Lemma quiet_when (b : bool) (m : D unit) : quiet m -> quiet (if b then m else ret tt).
Proof using Type. destruct b; auto with dav. Qed.

Lemma fileHeaders_quiet fi : quiet (fileHeaders fi).
Proof using Type.
  unfold fileHeaders. apply quiet_bind; [apply quiet_when; auto with dav|]. intros _.
  apply quiet_bind; [apply quiet_when; auto with dav|]. intros _. apply quiet_when; auto with dav.
Qed.

Lemma whenSet_calm b p : Forall (fun p => calmly (snd p)) (whenSet b p).
Proof using Type. destruct b; repeat constructor. Qed.

Lemma fileProps_calm fi : Forall (fun p => calmly (snd p)) (fileProps fi).
Proof using Type.
  unfold fileProps. constructor; [done|]. destruct (fi_IsDir fi); [constructor|]. constructor; [done|].
  rewrite !Forall_app. split_and!; apply whenSet_calm.
Qed.

Lemma closingFile_still f m : still m -> still (closingFile f m).
Proof using Type. intros H. apply still_bind; [done|]. intros _. apply quiet_still. destruct (closeError f); auto with dav. Qed.

Lemma dav_HeadGet_still r : still (dav_HeadGet r).
Proof using DL.
  unfold dav_HeadGet. apply still_bind; [apply quiet_still; auto with dav|]. intros fi.
  destruct (fi_IsDir fi); [apply quiet_still; auto with dav|].
  apply still_bind; [apply quiet_still; auto with dav|]. intros f. apply closingFile_still.
  apply still_bind; [apply still_send|]. intros _. apply still_bind; [apply quiet_still, fileHeaders_quiet|]. intros _.
  destruct (seeker f); [apply still_send|]. destruct (negb _); [|apply quiet_still; auto with dav].
  apply still_bind; [apply still_send|]. intros _. apply quiet_still. destruct (readError f); auto with dav.
Qed.

Lemma h_handleOptions_replied r : runs replied (h_handleOptions davBackend r).
Proof using DL.
  unfold h_handleOptions. apply replied_bind.
  - cbn. unfold dav_Options. apply quiet_bind; [auto with dav|]. intros [fi|err]; [auto with dav|].
    destruct (IsNotFound err); auto with dav.
  - intros [caps allow]. apply replied_bind; [auto with dav|]. intros _. apply replied_bind; [auto with dav|]. intros _.
    by apply replied_status.
Qed.

Lemma dav_PropFind_quiet r propfind depth : quiet (dav_PropFind r propfind depth).
Proof using DL RL.
  unfold dav_PropFind. apply quiet_bind; [auto with dav|]. intros fi. destruct (_ && _).
  - apply quiet_bind; [auto with dav|]. intros children. apply quiet_forEach. intros resps child.
    apply quiet_bind; [apply quiet_respond, fileProps_calm|auto with dav].
  - apply quiet_bind; [apply quiet_respond, fileProps_calm|auto with dav].
Qed.

Lemma h_handlePropfind_replied r : runs replied (h_handlePropfind davBackend r).
Proof using DL RL.
  unfold h_handlePropfind. apply replied_bind.
  - apply quiet_lift. destruct (IsRequestBodyEmpty r); [done|]. destruct (isContentXML r); [|done].
    apply DecodeXMLRequest_calm, xmlPropFind_calm.
  - intros propfind. apply replied_bind.
    + apply quiet_lift. destruct (_ =? _)%string; [done|]. unfold ParseDepth. by repeat case_match.
    + intros depth. apply replied_bind; [apply dav_PropFind_quiet|]. intros ms. by apply replied_status.
Qed.

Lemma h_handleProppatch_replied r : runs replied (h_handleProppatch davBackend r).
Proof using DL.
  unfold h_handleProppatch. apply replied_bind; [apply quiet_lift, DecodeXMLRequest_calm, xmlUpdate_calm|].
  intros update. apply replied_bind; [|intros resp; by apply replied_status].
  cbn. unfold dav_PropPatch. apply quiet_bind; [auto with dav|]. intros fi. cbv zeta.
  destruct (PropStats _); auto with dav.
Qed.

(** What the handler makes of it. *)
Lemma replied_served m s :
  runs replied m -> exists s', (res <-- tryDav m ;; match res with inl _ => ret tt | inr err => ServeError err end) s = (Ok tt, s')
    /\ fsys s' = fsys s /\ answeredBy s s'.
Proof using Type.
  intros H. destruct (H s) as (HC & HF & l & HS & HR). unfold bind, tryDav, ServeError, send.
  destruct (m s) as [[[]|e|p|] s1]; cbn in *; try done; (eexists; split; [reflexivity|]; split; [done|]).
  - destruct HR as (hs & c & -> & H1 & H2). by exists hs, c.
  - exists l, (ErrorSent (errorStatus e)). cbn. rewrite HS, app_assoc. by auto.
Qed.

Lemma still_served (m : D unit) s :
  still m -> exists s', (res <-- tryDav m ;; match res with inl _ => ret tt | inr err => ServeError err end) s = (Ok tt, s')
    /\ fsys s' = fsys s.
Proof using Type.
  intros H. destruct (H s) as (HC & HF & _). unfold bind, tryDav, ServeError, send.
  destruct (m s) as [[[]|e|p|] s1]; cbn in *; try done; (eexists; split; [reflexivity|done]).
Qed.

(** The change that a request asks for, as it ends. *)
Definition served (r : Request) (m : Go F Z) (s : dav F) : outcome unit * dav F -> Prop := fun res =>
  match m (fsys s) with
  | (Ok code, f) => exists hs, Forall isHeader hs /\ res = (Ok tt, mkDav f (sent s ++ hs ++ [StatusSent code]) (ticks s))
  | (Err e, f) => res = (Ok tt, mkDav f (sent s ++ [ErrorSent (refusal r e)]) (ticks s))
  | (Panic p, f) => res = (Panic p, mkDav f (sent s) (ticks s))
  | (Diverge, f) => res = (Diverge, mkDav f (sent s) (ticks s))
  end.

Lemma fileHeaders_sends fi s : exists hs, Forall isHeader hs /\ fileHeaders fi s = (Ok tt, mkDav (fsys s) (sent s ++ hs) (ticks s)).
Proof using Type.
  assert (forall (b : bool) name val s, exists hs, Forall isHeader hs
    /\ (if b then send (HeaderSent name val) else ret tt : D unit) s = (Ok tt, mkDav (fsys s) (sent s ++ hs) (ticks s))) as HW.
  { intros b name val s0. destruct b; [exists [HeaderSent name val]; split; [by repeat constructor|done]|].
    exists []. rewrite app_nil_r. by destruct s0. }
  unfold fileHeaders. unfold bind at 1. edestruct HW as (h1 & H1 & ->). unfold bind. edestruct HW as (h2 & H2 & ->).
  edestruct HW as (h3 & H3 & ->). exists (h1 ++ h2 ++ h3). cbn. rewrite !app_assoc. split; [|done].
  by repeat apply Forall_app_2.
Qed.

(** How [h_ServeHTTP] ends a dispatched request. *)
Definition ending (m : D unit) : D unit :=
  res <-- tryDav m ;; match res with inl _ => ret tt | inr err => ServeError err end.

Lemma ending_fails e s : exists s', ending (fail e) s = (Ok tt, s') /\ fsys s' = fsys s /\ answeredBy s s'.
Proof using Type. apply replied_served, replied_fail. Qed.

Lemma put_served r s : Method r = "PUT" ->
  served r (res <-- Create (URLPath r) (Body r) (createOptions r) ;; ret (storedStatus (snd res))) s (ending (dav_Put r) s).
Proof using Type.
  intros E. unfold served, ending, refusal, isMethod, dav_Put, bind, onFS, tryDav, ServeError, send. rewrite E. cbn.
  destruct (Create _ _ _ (fsys s)) as [[[fi created]|e|p|] f]; cbn; try done.
  destruct (fileHeaders_sends fi (mkDav f (sent s) (ticks s))) as (hs & HH & ->). exists hs. cbn. by rewrite <- app_assoc.
Qed.

Lemma delete_served r s : Method r = "DELETE" ->
  served r (RemoveAll (URLPath r) (removeOptions r) ;;; ret StatusNoContent) s
    (ending (dav_Delete r ;;; send (StatusSent StatusNoContent)) s).
Proof using Type.
  intros E. unfold served, ending, refusal, isMethod, dav_Delete, bind, onFS, tryDav, ServeError, send. rewrite E. cbn.
  destruct (RemoveAll _ _ (fsys s)) as [[u|e|p|] f]; cbn; try done. by exists [].
Qed.

Lemma mkcol_served r s : Method r = "MKCOL" ->
  match (if (headerContentType r =? "")%string then Some (Mkdir (URLPath r) ;;; ret StatusCreated) else None) with
  | Some m => served r m s (ending (dav_Mkcol r ;;; send (StatusSent StatusCreated)) s)
  | None => exists s', ending (dav_Mkcol r ;;; send (StatusSent StatusCreated)) s = (Ok tt, s') /\ fsys s' = fsys s /\ answeredBy s s'
  end.
Proof using Type.
  intros E. unfold dav_Mkcol. destruct (_ =? _)%string; cbn [negb]; [|apply ending_fails].
  unfold served, ending, refusal, isMethod, bind, onFS, tryDav, ServeError, send. rewrite E. cbn.
  destruct (Mkdir _ (fsys s)) as [[u|e|p|] f]; cbn; try done; [by exists []|]. by destruct (IsNotFound e).
Qed.

(** Copies and moves alike, once their headers are read. *)
Lemma created_served r s (m : Go F bool) : isMethod r "COPY" || isMethod r "MOVE" = true ->
  served r (created <-- m ;; ret (storedStatus created)) s
    (ending (created <-- refusingExisting (onFS m) ;; send (StatusSent (if (created : bool) then StatusCreated else StatusNoContent))) s).
Proof using Type.
  intros E. assert (isMethod r "MKCOL" = false) as E'.
  { unfold isMethod in *. apply orb_true_iff in E as [E|E]; apply String.eqb_eq in E; by rewrite E. }
  unfold served, ending, refusingExisting, refusal, bind, onFS, tryDav, ServeError, send. rewrite E, E'. cbn.
  destruct (m (fsys s)) as [[created|e|p|] f]; cbn; try done; [by exists []|]. by destruct (IsExist e).
Qed.

Lemma orElse_calm {A} (b : bool) (a : A) o : calmly o -> calmly (if b then Ok a else o).
Proof using Type. by destruct b. Qed.
Lemma ParseOverwrite_calm s : calmly (ParseOverwrite s).
Proof using Type. unfold ParseOverwrite. destruct (s =? "T")%string; [exact I|]. by destruct (s =? "F")%string. Qed.
Lemma ParseDepth_calm s : calmly (ParseDepth s).
Proof using Type.
  unfold ParseDepth. destruct (s =? "0")%string; [exact I|]. destruct (s =? "1")%string; [exact I|].
  by destruct (s =? "infinity")%string.
Qed.

Lemma bind_Ok {A B} (a : A) (k : A -> D B) : bind (lift (Ok a)) k = k a.
Proof using Type. reflexivity. Qed.
Lemma bind_fails {A B} e (k : A -> D B) : bind (fail e) k = fail e.
Proof using Type. reflexivity. Qed.

Lemma copyMove_served r s : (Method r =? "COPY")%string || (Method r =? "MOVE")%string = true ->
  match
    match parseDestination r, (if (headerOverwrite r =? "")%string then Ok true else ParseOverwrite (headerOverwrite r)),
          (if (headerDepth r =? "")%string then Ok DepthInfinity else ParseDepth (headerDepth r)) with
    | Ok dest, Ok overwrite, Ok depth =>
        if (Method r =? "COPY")%string then
          if depth =? DepthOne then None
          else Some (created <-- Copy (URLPath r) dest (mkCopyOptions (negb (depth =? DepthInfinity)) (negb overwrite)) ;;
                     ret (storedStatus created))
        else if depth =? DepthInfinity then
          Some (created <-- Move (URLPath r) dest (mkMoveOptions (negb overwrite)) ;; ret (storedStatus created))
        else None
    | _, _, _ => None
    end
  with
  | Some m => served r m s (ending (h_handleCopyMove davBackend r) s)
  | None => exists s', ending (h_handleCopyMove davBackend r) s = (Ok tt, s') /\ fsys s' = fsys s /\ answeredBy s s'
  end.
Proof using DL.
  intros E. unfold h_handleCopyMove. pose proof (parseDestination_calm r) as HD.
  destruct (parseDestination r) as [dest|e|p|]; try done; [|apply ending_fails].
  assert (calmly (if (headerOverwrite r =? "")%string then Ok true else ParseOverwrite (headerOverwrite r))) as HO.
  { apply orElse_calm, ParseOverwrite_calm. }
  destruct (if (headerOverwrite r =? "")%string then _ else _) as [overwrite|e|p|]; try done; [|apply ending_fails].
  assert (calmly (if (headerDepth r =? "")%string then Ok DepthInfinity else ParseDepth (headerDepth r))) as HP.
  { apply orElse_calm, ParseDepth_calm. }
  destruct (if (headerDepth r =? "")%string then _ else _) as [depth|e|p|]; try done; [|apply ending_fails].
  rewrite !bind_Ok. assert (isMethod r "COPY" || isMethod r "MOVE" = true) as E' by exact E.
  clear E. destruct (Method r =? "COPY")%string.
  - destruct (depth =? DepthOne); [rewrite bind_fails; apply ending_fails|by apply created_served].
  - destruct (depth =? DepthInfinity); [by apply created_served|cbn [negb]; rewrite bind_fails; apply ending_fails].
Qed.

Lemma unless_read (o : option (Go F Z)) r s res (b : bool) :
  match o with
  | Some m => served r m s res
  | None => exists s', res = (Ok tt, s') /\ fsys s' = fsys s /\ answeredBy s s'
  end ->
  match o with
  | Some m => served r m s res
  | None => exists s', res = (Ok tt, s') /\ fsys s' = fsys s /\ (b = false -> answeredBy s s')
  end.
Proof using Type. destruct o; [done|]. intros (s' & H1 & H2 & H3). by exists s'. Qed.

(** C20: A request for a change is served by what it asks of the file system, once, for its
    path, its body and its conditions: headers and the status of the success, or the
    status of the failure.  Every other request, even one that is refused, leaves the file
    system as it is and is answered, by headers and one status unless it reads a file. *)
Theorem dav_requests (r : Request) (s : dav F) :
  match change r with
  | Some m => served r m s (Dav_ServeHTTP true r s)
  | None => exists s', Dav_ServeHTTP true r s = (Ok tt, s') /\ fsys s' = fsys s
      /\ (isMethod r "GET" || isMethod r "HEAD" = false -> answeredBy s s')
  end.
Proof using DL RL.
  unfold Dav_ServeHTTP, h_ServeHTTP, h_dispatch, change, isMethod. cbn [negb].
  pose proof (fun e => ending_fails e s) as HF.
  destruct (String.eqb_spec (Method r) "OPTIONS") as [E|_].
  { rewrite E. cbn. destruct (replied_served _ s (h_handleOptions_replied r)) as (s' & H1 & H2 & H3). by exists s'. }
  destruct (String.eqb_spec (Method r) "GET") as [E|_].
  { rewrite E. cbn. destruct (still_served _ s (dav_HeadGet_still r)) as (s' & H1 & H2). by exists s'. }
  destruct (String.eqb_spec (Method r) "HEAD") as [E|_].
  { rewrite E. cbn. destruct (still_served _ s (dav_HeadGet_still r)) as (s' & H1 & H2). by exists s'. }
  cbn [orb]. destruct (String.eqb_spec (Method r) "PUT") as [E|NP]; [by apply put_served|].
  destruct (String.eqb_spec (Method r) "DELETE") as [E|ND]; [by apply delete_served|].
  destruct (String.eqb_spec (Method r) "PROPFIND") as [E|_].
  { rewrite E. cbn. destruct (replied_served _ s (h_handlePropfind_replied r)) as (s' & H1 & H2 & H3). by exists s'. }
  destruct (String.eqb_spec (Method r) "PROPPATCH") as [E|_].
  { rewrite E. cbn. destruct (replied_served _ s (h_handleProppatch_replied r)) as (s' & H1 & H2 & H3). by exists s'. }
  destruct (String.eqb_spec (Method r) "MKCOL") as [E|NM]; [by apply unless_read, mkcol_served|].
  destruct (String.eqb_spec (Method r) "MKCALENDAR") as [E|_].
  { rewrite E. cbn. destruct (HF (HTTPErrorf StatusMethodNotAllowed "webdav: server does not support MKCALENDAR")) as (s' & ? & ? & ?). by exists s'. }
  destruct (_ || _) eqn:EC; [by apply unless_read, copyMove_served|].
  destruct (HF (HTTPErrorf StatusMethodNotAllowed "webdav: unsupported method")) as (s' & ? & ? & ?). by exists s'.
Qed.

(** ** PROPPATCH *)

Definition namesOf (raws : list RawXMLValue) : list Name := omap XMLName raws.

Lemma refuse_all raws resp :
  tidy resp -> tidy (fold_left refuse raws resp) /\ Hrefs (fold_left refuse raws resp) = Hrefs resp
  /\ forall code, under code (fold_left refuse raws resp)
       = under code resp ++ (if code =? StatusForbidden then map (fun n => (n, EmptyValue)) (namesOf raws) else []).
Proof using Type.
  revert resp. induction raws as [|raw raws IH]; intros resp HT; cbn.
  { split; [done|]. split; [done|]. intros code. destruct (_ =? _); by rewrite app_nil_r. }
  unfold refuse at 2 4 6, namesOf. cbn. destruct (XMLName raw) as [name|]; [|by apply IH].
  destruct (IH (EncodeProp resp StatusForbidden (name, EmptyValue))) as (H1 & H2 & H3); [by apply EncodeProp_tidy|].
  split; [done|]. split; [done|]. intros code. rewrite H3, EncodeProp_under by done.
  destruct (code =? StatusForbidden); [by rewrite <- app_assoc|by rewrite !app_nil_r].
Qed.

Lemma refuse_lists l resp :
  tidy resp ->
  let resp' := fold_left (fun resp raws => fold_left refuse raws resp) l resp in
  tidy resp' /\ Hrefs resp' = Hrefs resp
  /\ forall code, under code resp'
       = under code resp ++ (if code =? StatusForbidden then map (fun n => (n, EmptyValue)) (namesOf (concat l)) else []).
Proof using Type.
  revert resp. induction l as [|raws l IH]; intros resp HT; cbn.
  { split; [done|]. split; [done|]. intros code. destruct (_ =? _); by rewrite app_nil_r. }
  destruct (refuse_all raws resp HT) as (H1 & H2 & H3). destruct (IH _ H1) as (G1 & G2 & G3).
  split; [done|]. split; [congruence|]. intros code. rewrite G3, H3. unfold namesOf. rewrite omap_app, map_app.
  destruct (code =? StatusForbidden); [by rewrite <- app_assoc|by rewrite !app_nil_r].
Qed.

(** Every property that a PROPPATCH names is refused, in the order of the request, the
    ones to set first; one that names none is a bad request. *)
Lemma PropPatch_refuses r update s fi f :
  Stat (URLPath r) (fsys s) = (Ok fi, f) ->
  let asked := namesOf (concat (upSet update) ++ concat (upRemove update)) in
  match dav_PropPatch r update s with
  | (Ok resp, _) => asked <> [] /\ Hrefs resp = [fi_Path fi]
      /\ forall code, under code resp = if code =? StatusForbidden then map (fun n => (n, EmptyValue)) asked else []
  | (Err e, _) => asked = [] /\ errorStatus e = StatusBadRequest
  | _ => False
  end.
Proof using Type.
  intros HS asked. unfold dav_PropPatch, bind, onFS. rewrite HS. cbv zeta.
  destruct (refuse_lists (upSet update) (mkResponse [fi_Path fi] [] None)) as (H1 & H2 & H3); [split; constructor|].
  destruct (refuse_lists (upRemove update) _ H1) as (G1 & G2 & G3). cbv zeta in *.
  set (resp := fold_left _ (upRemove update) _) in *.
  assert (forall code, under code resp = if code =? StatusForbidden then map (fun n => (n, EmptyValue)) asked else []) as HU.
  { intros code. rewrite G3, H3. unfold asked, namesOf. rewrite omap_app, map_app. by destruct (code =? StatusForbidden). }
  destruct (PropStats resp) as [|stat stats] eqn:E; cbn.
  - split; [|done]. specialize (HU StatusForbidden). unfold under in HU. rewrite E in HU. cbn in HU. by destruct asked.
  - split; [|split; [by rewrite G2, H2|done]]. intros Ha. destruct G1 as [_ G1]. rewrite E in G1. apply Forall_cons in G1 as [G1 _].
    specialize (HU (statusCode stat)). unfold under in HU. rewrite E in HU. cbn in HU. rewrite Z.eqb_refl in HU. cbn in HU.
    rewrite Ha in HU. destruct (statProps stat); [done|]. by destruct (_ =? _).
Qed.
End Server.

(** ** Examples *)

(** Files by name, the directories among them without content. *)
Definition files : Type := gmap string (option string).

Definition infoOf (name : string) (c : option string) : FileInfo :=
  mkFileInfo name (match c with Some text => Z.of_nat (String.length text) | None => 0 end) zeroDate
    (match c with Some _ => false | None => true end) "" "".

Definition notFound : error := HTTPErrorf StatusNotFound "no such file".

#[local] Instance plainFiles : FileSystem files := {|
  Open name f := match f !! name with Some (Some text) => (Ok (mkReadCloser text None None false), f) | _ => (Err notFound, f) end;
  Stat name f := match f !! name with Some c => (Ok (infoOf name c), f) | None => (Err notFound, f) end;
  ReadDir name recursive f := (Ok (map (fun p => infoOf p.1 p.2) (map_to_list f)), f);
  Create name body opts f :=
    (Ok (infoOf name (Some body), match f !! name with Some _ => false | None => true end), <[name := Some body]> f);
  RemoveAll name opts f := match f !! name with Some _ => (Ok tt, delete name f) | None => (Err notFound, f) end;
  Mkdir name f := match f !! name with Some _ => (Err ErrExist, f) | None => (Ok tt, <[name := None]> f) end;
  Copy name dest opts f :=
    match f !! name, f !! dest with
    | None, _ => (Err notFound, f)
    | Some c, Some _ => if cp_NoOverwrite opts then (Err ErrExist, f) else (Ok false, <[dest := c]> f)
    | Some c, None => (Ok true, <[dest := c]> f)
    end;
  Move name dest opts f :=
    match f !! name, f !! dest with
    | None, _ => (Err notFound, f)
    | Some c, Some _ => if mv_NoOverwrite opts then (Err ErrExist, f) else (Ok false, <[dest := c]> (delete name f))
    | Some c, None => (Ok true, <[dest := c]> (delete name f))
    end
|}.

#[local] Instance noUpdates : UpdateXML := {| xmlUpdate s := Ok (mkPropertyUpdate [[mkRaw (Some DisplayNameName) EmptyValue]] []) |}.

#[local] Instance plainFiles_laws : DavLaws (F := files).
Proof.
  split; try (intros; exact I).
  - intros name f. cbn. by destruct (f !! name) as [[text|]|].
  - intros name f. cbn. by destruct (f !! name) as [[text|]|].
  - intros name recursive f. done.
Qed.

Definition davRequest (method path destination overwrite body : string) : Request :=
  mkRequest method path None "" "" "" "" destination overwrite body.

Definition someFiles : files := {["/a" := Some "alpha"; "/b" := Some "beta"]}.

Lemma dav_requests_witness :
  exists hs, Forall isHeader hs
    /\ Dav_ServeHTTP true (davRequest "MOVE" "/a" "/c" "F" "") (mkDav someFiles [] 0)
       = (Ok tt, mkDav {["/c" := Some "alpha"; "/b" := Some "beta"]} (hs ++ [StatusSent StatusCreated]) 0).
Proof.
  pose proof (dav_requests (davRequest "MOVE" "/a" "/c" "F" "") (mkDav someFiles [] 0)) as H.
  destruct H as (hs & H1 & H2). exists hs. split; [exact H1|]. exact H2.
Defined.

(** A destination that exists is kept when it is not to be overwritten. *)
Example not_overwritten :
  Dav_ServeHTTP true (davRequest "COPY" "/a" "/b" "F" "") (mkDav someFiles [] 0)
  = (Ok tt, mkDav someFiles [ErrorSent StatusPreconditionFailed] 0).
Proof. reflexivity. Qed.

(** The errors of the headers Overwrite and Depth have no status here, and are answered as
    ones of the server, which PROPFIND answers as bad requests. *)
Example bad_overwrite :
  Dav_ServeHTTP true (davRequest "COPY" "/a" "/c" "X" "") (mkDav someFiles [] 0)
  = (Ok tt, mkDav someFiles [ErrorSent StatusInternalServerError] 0).
Proof. reflexivity. Qed.

(** A file that fails when it is closed is sent, and an error after it. *)
Lemma closed_late (F : Type) (FS : FileSystem F) (r : Request) (s : dav F) fi f e :
  isMethod r "HEAD" = false -> fi_IsDir fi = false -> closeError f = Some e -> readError f = None -> seeker f = false ->
  Stat (URLPath r) (fsys s) = (Ok fi, fsys s) -> Open (URLPath r) (fsys s) = (Ok f, fsys s) ->
  exists hs, Forall isHeader hs
    /\ ending (dav_HeadGet r) s
       = (Ok tt, mkDav (fsys s) (sent s ++ hs ++ [CopySent (content f); ErrorSent (errorStatus (Errorf "error while closing result: %w" [e]))]) (ticks s)).
Proof.
  intros HM HD HC HR HK HS HO. unfold ending, dav_HeadGet, closingFile, tryDav, onFS, bind, send, ServeError.
  rewrite HS, HD. cbn. rewrite HO. cbn. destruct (fileHeaders_sends fi (mkDav (fsys s) (sent s ++ [HeaderSent "Content-Length" (NumberValue (fi_Size fi))]) (ticks s)))
    as (hs & HH & E). unfold send in E. rewrite E. cbn. rewrite HK, HM. cbn. rewrite HR. cbn. rewrite HC. cbn.
  exists (HeaderSent "Content-Length" (NumberValue (fi_Size fi)) :: hs). split; [by constructor|]. unfold send. cbn. by rewrite <- !app_assoc.
Qed.
