(* ===== verification/LogWorker.v ===== *)
(** * The log worker

    service/log: the buffer (buffer.go), the ticker that can be triggered (ticker.go),
    and the worker that compresses the lines of a source to a file, flushes it and
    rotates it (worker.go), as a transition system of the rounds of its loop.

    The disk has names for files, that a rename moves and an open handle keeps.
    Compression (compress/gzip), the system calls that may fail and the clock are the
    class [LogEnv]. *)

From stdpp Require Import gmap.
From S2P Require Import Prelude Hoare GoStrings GoPath GoSearch.
#[local] Open Scope Z_scope.
#[local] Set Warnings "-register-all,-clear-no-such-hyp".

(** Conversions to [uint32] and [uint64]. *)
Definition uint32 (z : Z) : Z := z mod 2 ^ 32.
Definition uint64 (z : Z) : Z := z mod 2 ^ 64.

Class LogEnv : Type := {
  (** A compressor: a new one; what a write and a flush return, the bytes they give
      to the writer below, and the compressor after; what a reader of compressed bytes
      gets out of them. *)
  Gz : Type;
  gzNew : Gz;
  gzWrite : Gz -> string -> outcome Z * string * Gz;
  gzFlush : Gz -> outcome unit * string * Gz;
  inflate : string -> string;
  (** The system calls, each time: the error of an open, a close, a stat, a rename;
      how many bytes a write takes, and its error. *)
  openError : nat -> option error;
  closeError : nat -> option error;
  statError : nat -> option error;
  renameError : nat -> option error;
  writeFile : nat -> string -> nat * option error;
  nowRFC3339 : nat -> string
}.

(** What a compressor has given and taken since it was made, and whether it was
    flushed last. *)
Inductive gzRun {E : LogEnv} : Gz -> string -> string -> bool -> Prop :=
| gzRun_new : gzRun gzNew "" "" true
| gzRun_write g out data f p r o g' :
    gzRun g out data f -> gzWrite g p = (r, o, g') -> gzRun g' (out +:+ o) (data +:+ p) false
| gzRun_flush g out data f r o g' :
    gzRun g out data f -> gzFlush g = (r, o, g') -> gzRun g' (out +:+ o) data true.

(** A compressor over a buffer takes all it is given, and what was flushed can be read. *)
Class LogEnvLaws (E : LogEnv) : Prop := {
  gzWrite_all g p : fst (fst (gzWrite g p)) = Ok (Z.of_nat (String.length p));
  gzFlush_ok g : fst (fst (gzFlush g)) = Ok tt;
  inflate_flushed g out data : gzRun g out data true -> inflate out = data;
  (** A write takes at most what it is given. *)
  writeFile_le n s : (fst (writeFile n s) <= String.length s)%nat
}.

Definition ErrBytesMismatch : error := PlainError "bytes mismatch".
Definition ErrClosed : error := PlainError "file already closed".
Definition ErrInvalid : error := PlainError "invalid argument".
Definition ErrNotExist : error := PlainError "file does not exist".
Definition ErrShortWrite : error := PlainError "short write".
Definition nilPointer : string := "invalid memory address or nil pointer dereference".

(** ** ticker.go *)

(** Whether a token is in the channel [manual] and in the channel [out], which both
    have room for one. *)
Record manualTicker : Type := mkTicker { manual : bool; out : bool }.

Definition newManualTicker : manualTicker := mkTicker false false.
Definition Trigger (m : manualTicker) : manualTicker := mkTicker true (out m).
(** The rounds of its goroutine: the ticker ticks, or it was triggered. *)
Definition tickOnce (m : manualTicker) : manualTicker := mkTicker (manual m) true.
Definition deliver (m : manualTicker) : manualTicker :=
  if manual m then mkTicker false true else m.
(** A receive on [Triggered]. *)
Definition triggered (m : manualTicker) : option manualTicker :=
  if out m then Some (mkTicker (manual m) false) else None.

(** A trigger is not lost: it stays until it is received. *)
Lemma Trigger_pending m : manual (Trigger m) || out (Trigger m) = true.
Proof. done. Qed.
Lemma deliver_pending m : manual m || out m = true -> out (deliver m) = true.
Proof. unfold deliver. by destruct (manual m) eqn:E, (out m) eqn:E'; cbn; rewrite ?E, ?E'. Qed.

(** ** The disk and the worker *)

Record disk : Type := mkDisk {
  names : gmap string nat;
  contents : gmap nat string;
  sysCalls : nat
}.

Lemma drop_all_string s : dropString (String.length s) s = "".
Proof. rewrite <- (string_app_nil s) at 2. apply drop_app_string. Qed.

Section Worker.
Context {E : LogEnv}.

(** The fields of [worker], with its buffer ([flushBuffer]: the bytes in it, those
    ever written, and the file below), and the variables of its loop. *)
Record worker : Type := mkWorker {
  source : string;
  logDirectory : string;
  file : option nat;
  fileOpen : bool;
  buf : string;
  bytesWritten : Z;
  sink : nat;
  writer : option Gz;
  linesWrittenSinceLastFlush : Z;
  bytesWrittenSinceLastRotate : Z;
  lastPosition : Z;
  flush : manualTicker;
  rotate : manualTicker
}.

Record proc : Type := mkProc { wk : worker; dk : disk }.

Definition call : Go proc nat :=
  fun p => (Ok (sysCalls (dk p)),
            mkProc (wk p) (mkDisk (names (dk p)) (contents (dk p)) (S (sysCalls (dk p))))).

Definition setNames (f : gmap string nat -> gmap string nat) : Go proc unit :=
  modify (fun p => mkProc (wk p) (mkDisk (f (names (dk p))) (contents (dk p)) (sysCalls (dk p)))).
Definition setContents (f : gmap nat string -> gmap nat string) : Go proc unit :=
  modify (fun p => mkProc (wk p) (mkDisk (names (dk p)) (f (contents (dk p))) (sysCalls (dk p)))).
Definition setWorker (f : worker -> worker) : Go proc unit :=
  modify (fun p => mkProc (f (wk p)) (dk p)).

(** A system call that may fail. *)
Definition sys (failure : nat -> option error) : Go proc unit :=
  n <-- call ;; match failure n with Some e => fail e | None => ret tt end.

(** ** buffer.go *)

Definition withBuffer (b : string) (written : Z) (w : worker) : worker :=
  mkWorker (source w) (logDirectory w) (file w) (fileOpen w) b written (sink w) (writer w)
    (linesWrittenSinceLastFlush w) (bytesWrittenSinceLastRotate w) (lastPosition w) (flush w) (rotate w).

Definition flushBuffer_Write (p : string) : Go proc unit :=
  setWorker (fun w => withBuffer (buf w +:+ p) (uint64 (bytesWritten w + Z.of_nat (String.length p))) w).

(** Writing the buffer to its file removes from it what the file took. *)
Definition flushBuffer_Flush : Go proc unit :=
  p <-- get ;;
  let b := buf (wk p) in
  if (b =? "")%string then ret tt
  else if negb (fileOpen (wk p)) then fail ErrClosed
  else
    n <-- call ;;
    let (m, e) := writeFile n b in
    setContents (alter (fun c => c +:+ takeString m b) (sink (wk p))) ;;;
    setWorker (fun w => withBuffer (dropString m b) (bytesWritten w) w) ;;;
    match e with
    | Some e => fail e
    | None => if (m <? String.length b)%nat then fail ErrShortWrite else ret tt
    end.

Definition Position (w : worker) : Z := bytesWritten w.

(** ** The compressor *)

Definition withWriter (g : option Gz) (w : worker) : worker :=
  mkWorker (source w) (logDirectory w) (file w) (fileOpen w) (buf w) (bytesWritten w) (sink w) g
    (linesWrittenSinceLastFlush w) (bytesWrittenSinceLastRotate w) (lastPosition w) (flush w) (rotate w).

Definition onGzip {A} (f : Gz -> outcome A * string * Gz) : Go proc A :=
  p <-- get ;;
  match writer (wk p) with
  | None => panic nilPointer
  | Some g =>
      let '(r, o, g') := f g in
      flushBuffer_Write o ;;; setWorker (withWriter (Some g')) ;;; lift r
  end.

(** ** worker.go *)

Definition LatestLogFilename : string := "latest".

Definition logFilePath (w : worker) (name : string) : string :=
  JoinPath [logDirectory w; Clean (source w +:+ "-" +:+ name +:+ ".jsonl.gz")].

Definition latest (w : worker) : string := logFilePath w LatestLogFilename.

(** O_CREATE and O_APPEND: the file of the name, or a new one. *)
Definition openFile (name : string) : Go proc nat :=
  sys openError ;;;
  p <-- get ;;
  match names (dk p) !! name with
  | Some i => ret i
  | None =>
      let i := fresh (dom (contents (dk p))) in
      setContents (<[i := ""]>) ;;; setNames (<[name := i]>) ;;; ret i
  end.

Definition opened (i : nat) (w : worker) : worker :=
  mkWorker (source w) (logDirectory w) (Some i) true "" 0 i (Some gzNew)
    (linesWrittenSinceLastFlush w) (bytesWrittenSinceLastRotate w) (lastPosition w) (flush w) (rotate w).

Definition openLogFile : Go proc unit :=
  p <-- get ;;
  i <-- wrapf "error while opening log file at %q: %w" [] (openFile (latest (wk p))) ;;
  setWorker (opened i).

(** A handle is closed even when closing it reports an error. *)
Definition closed (w : worker) : worker :=
  mkWorker (source w) (logDirectory w) (file w) false (buf w) (bytesWritten w) (sink w) (writer w)
    (linesWrittenSinceLastFlush w) (bytesWrittenSinceLastRotate w) (lastPosition w) (flush w) (rotate w).
Definition forgotten (w : worker) : worker :=
  mkWorker (source w) (logDirectory w) None (fileOpen w) (buf w) (bytesWritten w) (sink w) None
    (linesWrittenSinceLastFlush w) (bytesWrittenSinceLastRotate w) (lastPosition w) (flush w) (rotate w).

Definition closeFile : Go proc unit :=
  p <-- get ;;
  match file (wk p) with
  | None => fail ErrInvalid
  | Some _ => if negb (fileOpen (wk p)) then fail ErrClosed else setWorker closed ;;; sys closeError
  end.

Definition renameFile (old new : string) : Go proc unit :=
  sys renameError ;;;
  p <-- get ;;
  match names (dk p) !! old with
  | None => fail ErrNotExist
  | Some i => setNames (fun m => <[new := i]> (delete old m))
  end.

(** The name that the current file is archived under. *)
Definition closeCurrentFile : Go proc string :=
  wrapf "error while flushing gzip writer: %w" [] (onGzip gzFlush) ;;;
  wrapf "error while flushing current log file %q: %w" [] flushBuffer_Flush ;;;
  wrapf "error while closing current log file %q: %w" [] closeFile ;;;
  setWorker forgotten ;;;
  n <-- call ;;
  p <-- get ;;
  let archivalPath := logFilePath (wk p) (nowRFC3339 n) in
  k <-- call ;;
  match statError k, names (dk p) !! archivalPath with
  | None, None =>
      wrapf "error while arching current log file to %q: %w" [] (renameFile (latest (wk p)) archivalPath) ;;;
      ret archivalPath
  | e, _ =>
      fail (Errorf "attempted to archive file to already existing path: %q (%w)"
              (match e with Some e => [e] | None => [] end))
  end.

(** [for { err := f(); if err == nil { break }; sleep }] *)
Fixpoint untilDone {A} (fuel : nat) (m : Go proc A) : Go proc A :=
  fun p =>
    match fuel with
    | O => (Diverge, p)
    | S fuel' => match m p with (Err _, p') => untilDone fuel' m p' | r => r end
    end.

Definition withCounters (lines bytes position : Z) (w : worker) : worker :=
  mkWorker (source w) (logDirectory w) (file w) (fileOpen w) (buf w) (bytesWritten w) (sink w) (writer w)
    lines bytes position (flush w) (rotate w).

(** Each case of the select of [run].  Whether a flush was done. *)
Definition onFlush : Go proc bool :=
  p <-- get ;;
  if linesWrittenSinceLastFlush (wk p) <=? 0 then ret false
  else fun p =>
    match (onGzip gzFlush ;;; flushBuffer_Flush) p with
    | (Ok _, p') =>
        (setWorker (fun w => withCounters 0 (bytesWrittenSinceLastRotate w) (lastPosition w) w) ;;; ret true) p'
    | (Err _, p') => (Ok false, p')
    | (Panic s, p') => (Panic s, p')
    | (Diverge, p') => (Diverge, p')
    end.

(** The name that the file was archived under, if it was rotated. *)
Definition onRotate (fuel : nat) : Go proc (option string) :=
  p <-- get ;;
  if bytesWrittenSinceLastRotate (wk p) <=? 0 then ret None
  else
    archivalPath <-- untilDone fuel closeCurrentFile ;;
    setWorker (fun w => withCounters 0 0 (lastPosition w) w) ;;;
    untilDone fuel openLogFile ;;;
    ret (Some archivalPath).

Variables (maxLogLinesBeforeFlush maxFileSizeBeforeRotate : Z).

Definition newline : string := String (chr 10) "".

(** A line of more than one byte is ended. *)
Definition line (data : string) : string :=
  if (1 <? String.length data)%nat && negb (HasSuffix data newline) then data +:+ newline else data.

Definition withTickers (f r : manualTicker) (w : worker) : worker :=
  mkWorker (source w) (logDirectory w) (file w) (fileOpen w) (buf w) (bytesWritten w) (sink w) (writer w)
    (linesWrittenSinceLastFlush w) (bytesWrittenSinceLastRotate w) (lastPosition w) f r.

(** The counters and the triggers after a line was written. *)
Definition counted (w : worker) : worker :=
  let lines := uint32 (linesWrittenSinceLastFlush w + 1) in
  let newPosition := Position w in
  let bytes := uint64 (bytesWrittenSinceLastRotate w + uint64 (newPosition - lastPosition w)) in
  let w := withCounters lines bytes newPosition w in
  if maxFileSizeBeforeRotate <? bytes then withTickers (flush w) (Trigger (rotate w)) w
  else if maxLogLinesBeforeFlush <? lines then withTickers (Trigger (flush w)) (rotate w) w
  else w.

(** What is sent back to the client: nothing or an error. *)
Definition onRequest (data : string) : Go proc unit :=
  l <-- wrapf "error while writing log line to disk: %w" [] (onGzip (fun g => gzWrite g (line data))) ;;
  if negb (l =? Z.of_nat (String.length (line data))) then fail ErrBytesMismatch
  else setWorker counted.

Definition newWorker (source logDirectory : string) : Go disk worker :=
  fun d =>
    match openLogFile (mkProc (mkWorker source logDirectory None false "" 0 0 None 0 0 0
                                 newManualTicker newManualTicker) d) with
    | (Ok _, p) => (Ok (wk p), dk p)
    | (Err e, p) => (Err e, dk p)
    | (Panic s, p) => (Panic s, dk p)
    | (Diverge, p) => (Diverge, dk p)
    end.

(** ** The transition system *)

Inductive event : Type :=
| Logged (data : string)
| Refused (data : string)
| Flushed
| Skipped
| Rotated (path : string)
| Ticked.

Definition onFlushTicker (f : manualTicker -> manualTicker) (p : proc) : proc :=
  mkProc (withTickers (f (flush (wk p))) (rotate (wk p)) (wk p)) (dk p).
Definition onRotateTicker (f : manualTicker -> manualTicker) (p : proc) : proc :=
  mkProc (withTickers (flush (wk p)) (f (rotate (wk p))) (wk p)) (dk p).

Inductive step : proc -> event -> proc -> Prop :=
| step_logged p data p' : onRequest data p = (Ok tt, p') -> step p (Logged data) p'
| step_refused p data e p' : onRequest data p = (Err e, p') -> step p (Refused data) p'
| step_flushed p t p' :
    triggered (flush (wk p)) = Some t -> onFlush (onFlushTicker (fun _ => t) p) = (Ok true, p') -> step p Flushed p'
| step_flush_skipped p t p' :
    triggered (flush (wk p)) = Some t -> onFlush (onFlushTicker (fun _ => t) p) = (Ok false, p') -> step p Skipped p'
| step_rotated p t fuel path p' :
    triggered (rotate (wk p)) = Some t -> onRotate fuel (onRotateTicker (fun _ => t) p) = (Ok (Some path), p') ->
    step p (Rotated path) p'
| step_rotate_skipped p t fuel p' :
    triggered (rotate (wk p)) = Some t -> onRotate fuel (onRotateTicker (fun _ => t) p) = (Ok None, p') ->
    step p Skipped p'
| step_tick_flush p : step p Ticked (onFlushTicker tickOnce p)
| step_deliver_flush p : step p Ticked (onFlushTicker deliver p)
| step_tick_rotate p : step p Ticked (onRotateTicker tickOnce p)
| step_deliver_rotate p : step p Ticked (onRotateTicker deliver p).

Inductive execution (p0 : proc) : list event -> proc -> Prop :=
| execution_nil : execution p0 [] p0
| execution_snoc tr p e p' : execution p0 tr p -> step p e p' -> execution p0 (tr ++ [e]) p'.

(** ** What is kept of the lines *)

(** What the trace says: the names that files were archived under, with what each held
    when it was opened and the lines logged since; and the same of the current file. *)
Record history : Type := mkHistory {
  archives : list (string * (string * string));
  started : string;
  current : string
}.

Definition record (h : history) (e : event) : history :=
  match e with
  | Logged data => mkHistory (archives h) (started h) (current h +:+ line data)
  | Rotated path => mkHistory (archives h ++ [(path, (started h, current h))]) "" ""
  | _ => h
  end.

Definition fileAt (d : disk) (name : string) : option string := i ← names d !! name; contents d !! i.

(** A file holds what it did and then compressed bytes, which read as the data. *)
Definition holds (d : disk) (name started data : string) : Prop :=
  exists z, fileAt d name = Some (started +:+ z) /\ inflate z = data.

(** The file of every name is on the disk. *)
Definition wfDisk (d : disk) : Prop := map_Forall (fun _ i => is_Some (contents d !! i)) (names d).

(** The current file: its handle and name, and its content, which with the buffer is
    what the compressor gave. *)
Record tracks (h : history) (flushed : bool) (i : nat) (p : proc) : Prop := mkTracks {
  t_disk : wfDisk (dk p);
  t_file : file (wk p) = Some i;
  t_sink : sink (wk p) = i;
  t_name : names (dk p) !! latest (wk p) = Some i;
  t_gzip : exists g out c, writer (wk p) = Some g /\ gzRun g out (current h) flushed
             /\ contents (dk p) !! i = Some c /\ c +:+ buf (wk p) = started h +:+ out;
  t_archives : Forall (fun '(path, (s, data)) =>
      exists j z, names (dk p) !! path = Some j /\ j <> i /\ contents (dk p) !! j = Some (s +:+ z)
                  /\ inflate z = data) (archives h)
}.

Context {EL : LogEnvLaws E}.

(** Two processes with the same files, writer and buffer. *)
Lemma tracks_worker h f i w w' d :
  tracks h f i (mkProc w d) -> file w' = file w -> sink w' = sink w -> latest w' = latest w ->
  writer w' = writer w -> buf w' = buf w -> tracks h f i (mkProc w' d).
Proof using Type.
  intros [H1 H2 H3 H4 H5 H6] E1 E2 E3 E4 E5. split; cbn in *; [exact H1|congruence|congruence|by rewrite E3|by rewrite E4, E5|exact H6].
Qed.

Lemma tracks_calls h f i p n :
  tracks h f i p -> tracks h f i (mkProc (wk p) (mkDisk (names (dk p)) (contents (dk p)) n)).
Proof using Type. by intros [H1 H2 H3 H4 H5 H6]. Qed.

(** Handing data to the compressor. *)
Lemma onGzip_spec {A} (f : Gz -> outcome A * string * Gz) h b i p h' b' a :
  tracks h b i p ->
  (forall g, fst (fst (f g)) = Ok a) ->
  (forall g o g' out, gzRun g out (current h) b -> f g = (Ok a, o, g') -> gzRun g' (out +:+ o) (current h') b') ->
  started h' = started h -> archives h' = archives h ->
  exists p', onGzip f p = (Ok a, p') /\ tracks h' b' i p' /\ fileOpen (wk p') = fileOpen (wk p)
    /\ names (dk p') = names (dk p).
Proof using Type.
  intros [H1 H2 H3 H4 (g & out & c & G1 & G2 & G3 & G4) H6] Ha Hf Hs Harch.
  unfold onGzip, get, bind, lift, flushBuffer_Write, setWorker, modify. rewrite G1.
  destruct (f g) as [[r o] g'] eqn:Ef. pose proof (Ha g) as Hr. rewrite Ef in Hr. cbn in Hr. subst r.
  eexists. split; [reflexivity|]. split; [|done]. split; cbn; try done.
  - exists g', (out +:+ o), c. split; [done|]. split; [by eapply Hf|]. split; [done|].
    by rewrite <- string_app_assoc, G4, string_app_assoc, Hs.
  - by rewrite Harch.
Qed.

(** Flushing the buffer: what the file takes moves from the one to the other. *)
Lemma flushBuffer_Flush_spec h b i p :
  tracks h b i p -> fileOpen (wk p) = true \/ buf (wk p) = "" ->
  match flushBuffer_Flush p with
  | (Ok _, p') => tracks h b i p' /\ fileOpen (wk p') = fileOpen (wk p) /\ buf (wk p') = ""
                  /\ names (dk p') = names (dk p)
  | (Err _, p') => tracks h b i p' /\ fileOpen (wk p') = true
  | _ => False
  end.
Proof using EL.
  intros Ht Ho. pose proof Ht as [H1 H2 H3 H4 (g & out & c & G1 & G2 & G3 & G4) H6].
  unfold flushBuffer_Flush, get, bind at 1. destruct (String.eqb_spec (buf (wk p)) "") as [Eb|Eb]; [done|].
  destruct Ho as [Ho|]; [|done]. rewrite Ho. cbn [negb]. unfold call, bind at 1.
  pose proof (writeFile_le (sysCalls (dk p)) (buf (wk p))) as Hle.
  destruct (writeFile (sysCalls (dk p)) (buf (wk p))) as [m e]. cbn in Hle.
  unfold setContents, setWorker, modify, bind. cbn [wk dk names contents sysCalls].
  set (p' := mkProc (withBuffer (dropString m (buf (wk p))) (bytesWritten (wk p)) (wk p))
    (mkDisk (names (dk p)) (alter (fun c => c +:+ takeString m (buf (wk p))) (sink (wk p)) (contents (dk p)))
       (S (sysCalls (dk p))))).
  assert (tracks h b i p') as Ht'.
  { split; cbn; try done.
    - intros n j Hj. cbn in Hj |- *. destruct (decide (j = sink (wk p))) as [->|Hn]; [|rewrite lookup_alter_ne by done; by apply (H1 n)].
      rewrite lookup_alter_eq. rewrite H3, G3. by eexists.
    - exists g, out, (c +:+ takeString m (buf (wk p))). split; [done|]. split; [done|].
      split; [by rewrite H3, lookup_alter_eq, G3|].
      by rewrite string_app_assoc, take_drop_string.
    - eapply Forall_impl; [exact H6|]. intros [path [s data]] (j & z & J1 & J2 & J3 & J4). exists j, z.
      split; [done|]. split; [done|]. split; [|done]. rewrite lookup_alter_ne by congruence. done. }
  destruct e as [e|]; [by split|]. destruct (Nat.ltb_spec m (String.length (buf (wk p)))) as [Hm|Hm]; cbn; [by split|].
  split; [exact Ht'|]. split; [done|]. split; [|done].
  assert (m = String.length (buf (wk p))) as -> by lia. apply drop_all_string.
Qed.

(** ** Rotation *)

(** A process that cannot rotate any more: its file is closed under it, or forgotten. *)
Definition stuck (p : proc) : Prop :=
  writer (wk p) = None \/ (fileOpen (wk p) = false /\ exists h b i, tracks h b i p).

(** The archives are on the disk. *)
Definition archived (h : history) (d : disk) : Prop :=
  Forall (fun '(path, (s, data)) =>
    exists j z, names d !! path = Some j /\ contents d !! j = Some (s +:+ z) /\ inflate z = data) (archives h).

(** Between closing a file and opening the next: the name of the latest file is free,
    or, at the start, has the content that the history starts with. *)
Record between (h : history) (p : proc) : Prop := mkBetween {
  b_disk : wfDisk (dk p);
  b_archived : archived h (dk p);
  b_current : current h = "";
  b_started : names (dk p) !! latest (wk p) = None /\ started h = ""
              \/ archives h = [] /\ fileAt (dk p) (latest (wk p)) = Some (started h)
}.

Lemma sys_spec failure p :
  exists e, sys failure p
    = (match e with Some e => Err e | None => Ok tt end,
       mkProc (wk p) (mkDisk (names (dk p)) (contents (dk p)) (S (sysCalls (dk p))))).
Proof using Type.
  exists (failure (sysCalls (dk p))). unfold sys, bind, call. by destruct (failure _).
Qed.

Lemma closeFile_spec h b i p :
  tracks h b i p -> buf (wk p) = "" -> fileOpen (wk p) = true ->
  match closeFile p with
  | (Ok _, p') => tracks h b i p' /\ names (dk p') = names (dk p) /\ buf (wk p') = ""
  | (Err _, p') => stuck p'
  | _ => False
  end.
Proof using Type.
  intros Ht Hb Ho. unfold closeFile, get, bind at 1. rewrite (t_file _ _ _ _ Ht), Ho. cbn [negb].
  unfold setWorker, modify, bind. set (p1 := mkProc (closed (wk p)) (dk p)).
  assert (tracks h b i p1) as Ht1 by (by eapply (tracks_worker _ _ _ (wk p)); destruct p).
  destruct (sys_spec closeError p1) as [e ->]. apply (tracks_calls _ _ _ _ (S (sysCalls (dk p)))) in Ht1.
  destruct e as [e|]; [|done]. right. split; [done|]. by exists h, b, i.
Qed.

(** Closing the current file: it is archived with the lines logged since it was opened,
    or it can be tried again, or it never will be. *)
Lemma closeCurrentFile_spec h b i p :
  tracks h b i p -> fileOpen (wk p) = true ->
  match closeCurrentFile p with
  | (Ok path, p') => between (record h (Rotated path)) p' /\ names (dk p) !! path = None
  | (Err _, p') => (tracks h true i p' /\ fileOpen (wk p') = true) \/ stuck p'
  | _ => False
  end.
Proof using EL.
  intros Ht Ho. unfold closeCurrentFile, bind at 1, wrapf at 1.
  destruct (onGzip_spec gzFlush h b i p h true tt Ht) as (p1 & E1 & Ht1 & Ho1 & Hn1); [apply gzFlush_ok| |done..|].
  { intros g o g' out Hg Hf. by eapply gzRun_flush. }
  rewrite E1. unfold bind at 1, wrapf at 1. rewrite Ho in Ho1.
  pose proof (flushBuffer_Flush_spec h true i p1 Ht1 (or_introl Ho1)) as HF.
  destruct (flushBuffer_Flush p1) as [[u|e|s|] p2]; try done; [|by left].
  destruct HF as (Ht2 & Ho2 & Hb2 & Hn2). rewrite Ho1 in Ho2.
  unfold bind at 1, wrapf at 1. pose proof (closeFile_spec h true i p2 Ht2 Hb2 Ho2) as HC.
  destruct (closeFile p2) as [[v|e|s|] p3]; try done; [|by right]. destruct HC as (Ht3 & Hn3 & Hb3).
  assert (names (dk p3) = names (dk p)) as Hn by congruence. clear E1 Ht Ht1 Ht2 Ho1 Ho2 Hn1 Hn2 Hn3 Ho Hb2.
  destruct Ht3 as [H1 H2 H3 H4 (g & out & c & G1 & G2 & G3 & G4) H6].
  unfold setWorker at 1, modify at 1, bind at 1, call at 1, bind at 1, get at 1, bind at 1, call at 1, bind at 1.
  cbn [wk dk names contents sysCalls]. change (latest (forgotten (wk p3))) with (latest (wk p3)).
  set (path := logFilePath (forgotten (wk p3)) (nowRFC3339 (sysCalls (dk p3)))).
  destruct (statError _); [by right; left|]. destruct (names (dk p3) !! path) eqn:Ep; [by right; left|].
  unfold bind at 1, wrapf at 1, renameFile, bind at 1.
  match goal with |- context [sys renameError ?q] => destruct (sys_spec renameError q) as [e ->] end.
  destruct e; [by right; left|]. unfold get, bind at 1. cbn [wk dk names contents sysCalls]. rewrite H4.
  unfold setNames, modify, ret. cbn [wk dk names contents sysCalls]. rewrite <- Hn. split; [|done].
  assert (Hne : path <> latest (wk p3)) by (intros E'; rewrite E' in Ep; congruence).
  rewrite Hb3, string_app_nil in G4. split; cbn [dk wk names contents].
  - intros n j. cbn [names]. intros [[<- <-]|[Hn1 [Hn2 Hj]%lookup_delete_Some]]%lookup_insert_Some; [by eexists|by apply (H1 n)].
  - apply Forall_app. split; [|apply Forall_singleton].
    + eapply Forall_impl; [exact H6|]. intros [q [s data]] (j & z & J1 & J2 & J3 & J4). exists j, z.
      cbn [names contents]. rewrite lookup_insert_ne, lookup_delete_ne by congruence. done.
    + exists i, out. cbn [names contents]. rewrite lookup_insert_eq. split; [done|]. split; [congruence|].
      by eapply inflate_flushed.
  - done.
  - left. split; [|done]. change (latest (forgotten (wk p3))) with (latest (wk p3)).
    by rewrite lookup_insert_ne, lookup_delete_eq.
Qed.

Lemma untilDone_S {A} fuel (m : Go proc A) p :
  untilDone (S fuel) m p = match m p with (Err _, p') => untilDone fuel m p' | r => r end.
Proof using Type. done. Qed.

(** What cannot rotate does not. *)
Lemma stuck_closeCurrentFile p :
  stuck p -> match closeCurrentFile p with (Ok _, _) => False | (Err _, p') => stuck p' | _ => True end.
Proof using EL.
  intros [Hw|(Ho & h & b & i & Ht)]; unfold closeCurrentFile, bind at 1, wrapf at 1.
  { unfold onGzip, get, bind at 1. by rewrite Hw. }
  destruct (onGzip_spec gzFlush h b i p h true tt Ht) as (p1 & E1 & Ht1 & Ho1 & Hn1); [apply gzFlush_ok| |done..|].
  { intros g o g' out Hg Hf. by eapply gzRun_flush. }
  rewrite E1. unfold bind at 1, wrapf at 1. rewrite Ho in Ho1.
  assert (stuck p1) as Hs by (right; split; [done|]; by exists h, true, i).
  unfold flushBuffer_Flush, get, bind at 1. destruct (_ =? _)%string; [|by rewrite Ho1].
  unfold ret, bind at 1, wrapf at 1, closeFile, get, bind at 1. by rewrite (t_file _ _ _ _ Ht1), Ho1.
Qed.

Lemma stuck_never_done fuel p : stuck p -> forall path p', untilDone fuel closeCurrentFile p <> (Ok path, p').
Proof using EL.
  revert p. induction fuel as [|fuel IH]; intros p Hs path p'; [done|]. rewrite untilDone_S.
  pose proof (stuck_closeCurrentFile p Hs) as HC. destruct (closeCurrentFile p) as [[q|e|s|] p1]; try done. auto.
Qed.

Lemma untilDone_close fuel h b i p path p' :
  tracks h b i p -> fileOpen (wk p) = true -> untilDone fuel closeCurrentFile p = (Ok path, p') ->
  between (record h (Rotated path)) p'.
Proof using EL.
  revert p b. induction fuel as [|fuel IH]; intros p b Ht Ho H; [done|]. rewrite untilDone_S in H.
  pose proof (closeCurrentFile_spec h b i p Ht Ho) as HC.
  destruct (closeCurrentFile p) as [[q|e|s|] p1]; try done; [by injection H as -> ->; destruct HC|].
  destruct HC as [[Ht1 Ho1]|Hs]; [by eapply IH|]. by apply (stuck_never_done fuel p1 Hs) in H.
Qed.

Lemma openLogFile_spec h p :
  between h p ->
  match openLogFile p with
  | (Ok _, p') => (exists i, tracks h true i p') /\ fileOpen (wk p') = true /\ buf (wk p') = ""
  | (Err _, p') => between h p'
  | _ => False
  end.
Proof using Type.
  intros [H1 H2 H3 H4]. unfold openLogFile, get, bind at 1, bind at 1, wrapf, openFile, bind at 1.
  destruct (sys_spec openError p) as [e ->]. destruct e; [done|]. unfold get, bind at 1. cbn [wk dk names contents].
  destruct (names (dk p) !! latest (wk p)) as [i|] eqn:En.
  - destruct H4 as [[? _]|[H4 H5]]; [congruence|]. unfold ret, setWorker, modify. cbn [wk dk names contents].
    split; [|done]. exists i. unfold fileAt in H5. rewrite En in H5. cbn in H5.
    split; cbn; try done; [|by rewrite H4].
    exists gzNew, "", (started h). rewrite H3. split; [done|]. split; [constructor|done].
  - assert (started h = "") as Hs.
    { destruct H4 as [[_ ?]|[_ H5]]; [done|]. unfold fileAt in H5. by rewrite En in H5. }
    set (i := fresh (dom (contents (dk p)))).
    assert (contents (dk p) !! i = None) as Hi by (apply not_elem_of_dom, is_fresh).
    unfold setContents, setNames, setWorker, modify, bind, ret. cbn [wk dk names contents sysCalls].
    split; [|done]. exists i. split; cbn [wk dk names contents].
    + intros n j. cbn [names contents]. intros [[<- <-]|[_ Hj]]%lookup_insert_Some; [by rewrite lookup_insert_eq|].
      destruct (H1 _ _ Hj) as [c Hc]. rewrite lookup_insert_ne by congruence. by eexists.
    + done.
    + done.
    + apply lookup_insert_eq.
    + exists gzNew, "", "". rewrite H3, Hs, lookup_insert_eq. split; [done|]. split; [constructor|done].
    + eapply Forall_impl; [exact H2|]. intros [q [s data]] (j & z & J1 & J2 & J3). exists j, z.
      assert (j <> i) by congruence. assert (q <> latest (wk p)) by congruence.
      change (latest (opened i (wk p))) with (latest (wk p)).
      rewrite !lookup_insert_ne by congruence. done.
Qed.

Lemma untilDone_open fuel h p u p' :
  between h p -> untilDone fuel openLogFile p = (Ok u, p') ->
  (exists i, tracks h true i p') /\ fileOpen (wk p') = true.
Proof using Type.
  revert p. induction fuel as [|fuel IH]; intros p Hb H; [done|]. rewrite untilDone_S in H.
  pose proof (openLogFile_spec h p Hb) as HO. destruct (openLogFile p) as [[q|e|s|] p1]; try done; [|by eapply IH].
  injection H as -> <-. by destruct HO as (? & ? & _).
Qed.

(** ** Executions *)

Definition inv (h : history) (p : proc) : Prop :=
  (exists b i, tracks h b i p) /\ fileOpen (wk p) = true.

Lemma inv_worker h w w' d :
  inv h (mkProc w d) -> file w' = file w -> sink w' = sink w -> latest w' = latest w ->
  writer w' = writer w -> buf w' = buf w -> fileOpen w' = fileOpen w -> inv h (mkProc w' d).
Proof using Type.
  intros [(b & i & Ht) Ho] E1 E2 E3 E4 E5 E6. split; [|cbn in *; congruence].
  exists b, i. by eapply tracks_worker.
Qed.

Lemma onRequest_spec h data p :
  inv h p -> exists p', onRequest data p = (Ok tt, p') /\ inv (record h (Logged data)) p'.
Proof using EL.
  intros [(b & i & Ht) Ho].
  destruct (onGzip_spec (fun g => gzWrite g (line data)) h b i p (record h (Logged data)) false
    (Z.of_nat (String.length (line data))) Ht) as (p1 & E1 & Ht1 & Ho1 & _); [intros; apply gzWrite_all| |done..|].
  { intros g o g' out Hg Hf. by eapply gzRun_write. }
  unfold onRequest, bind, wrapf. rewrite E1, Z.eqb_refl. cbn [negb]. unfold setWorker, modify.
  eexists. split; [reflexivity|]. apply (inv_worker _ (wk p1)); [split; [destruct p1; eauto|cbn; congruence]|..];
    unfold counted; cbv zeta; repeat case_match; done.
Qed.

Lemma onFlush_spec h p :
  inv h p ->
  match onFlush p with
  | (Ok b, p') => inv h p' /\ (b = true -> exists i, tracks h true i p' /\ buf (wk p') = "")
  | _ => False
  end.
Proof using EL.
  intros Hi. pose proof Hi as [(b & i & Ht) Ho]. unfold onFlush, get, bind at 1. destruct (_ <=? _); [by split|].
  destruct (onGzip_spec gzFlush h b i p h true tt Ht) as (p1 & E1 & Ht1 & Ho1 & _); [apply gzFlush_ok| |done..|].
  { intros g o g' out Hg Hf. by eapply gzRun_flush. }
  unfold bind at 1. rewrite E1. rewrite Ho in Ho1.
  pose proof (flushBuffer_Flush_spec h true i p1 Ht1 (or_introl Ho1)) as HF.
  destruct (flushBuffer_Flush p1) as [[u|e|s|] p2]; try done.
  - destruct HF as (Ht2 & Ho2 & Hb2 & _). rewrite Ho1 in Ho2. unfold setWorker, modify, bind, ret.
    set (w' := withCounters _ _ _ (wk p2)). assert (tracks h true i (mkProc w' (dk p2))) as Ht3.
    { by eapply (tracks_worker _ _ _ (wk p2)); destruct p2. }
    split; [|intros _; by exists i]. split; [|done]. by exists true, i.
  - destruct HF as [Ht2 Ho2]. split; [|done]. split; [|done]. by exists true, i.
Qed.

Lemma onRotate_spec fuel h p o p' :
  inv h p -> onRotate fuel p = (Ok o, p') ->
  match o with Some path => inv (record h (Rotated path)) p' | None => p' = p end.
Proof using EL.
  intros [(b & i & Ht) Ho] H. unfold onRotate, get, bind at 1 in H. destruct (_ <=? _); [by injection H as <- <-|].
  apply bind_ok_inv in H as (path & p1 & H1 & H). apply (untilDone_close _ h b i) in H1; [|done..].
  apply bind_ok_inv in H as (u & p2 & H2 & H). injection H2 as <- <-.
  assert (between (record h (Rotated path))
    (mkProc (withCounters 0 0 (lastPosition (wk p1)) (wk p1)) (dk p1))) as Hb.
  { by destruct H1. }
  apply bind_ok_inv in H as (v & p3 & H3 & H). injection H as <- <-.
  apply (untilDone_open _ (record h (Rotated path))) in H3 as [[j Hj] H3]; [|done]. split; [|done]. by exists true, j.
Qed.

Lemma step_inv h p e p' :
  inv h p -> step p e p' ->
  inv (record h e) p' /\ (e = Flushed -> exists i, tracks (record h e) true i p' /\ buf (wk p') = "").
Proof using EL.
  intros Hi Hs.
  assert (forall f r, inv h (mkProc (withTickers f r (wk p)) (dk p))) as Hticks.
  { intros f r. destruct p as [w d]. by apply (inv_worker h w). }
  destruct Hs as [p data p' H|p data e p' H|p t p' Ht H|p t p' Ht H|p t fuel path p' Ht H|p t fuel p' Ht H| | | |];
    try (split; [apply Hticks|done]).
  - destruct (onRequest_spec h data p Hi) as (p1 & E1 & H1). rewrite H in E1. injection E1 as <-. done.
  - destruct (onRequest_spec h data p Hi) as (p1 & E1 & H1). congruence.
  - pose proof (onFlush_spec h (onFlushTicker (fun _ => t) p) (Hticks _ _)) as HF. rewrite H in HF. destruct HF; auto.
  - pose proof (onFlush_spec h (onFlushTicker (fun _ => t) p) (Hticks _ _)) as HF. rewrite H in HF. by destruct HF.
  - split; [|done]. by apply (onRotate_spec fuel h _ (Some path) p' (Hticks _ _)) in H.
  - split; [|done]. apply (onRotate_spec fuel h _ None p' (Hticks _ _)) in H as ->. apply Hticks.
Qed.

Definition recorded (start : string) (tr : list event) : history := foldl record (mkHistory [] start "") tr.

Lemma recorded_snoc start tr e : recorded start (tr ++ [e]) = record (recorded start tr) e.
Proof using Type. unfold recorded. by rewrite foldl_app. Qed.

Lemma execution_inv start p0 tr p :
  inv (mkHistory [] start "") p0 -> execution p0 tr p -> inv (recorded start tr) p.
Proof using EL.
  intros H0. induction 1 as [|tr p e p' _ IH Hs]; [done|]. rewrite recorded_snoc. by eapply step_inv.
Qed.

Lemma execution_last p0 tr e p :
  execution p0 (tr ++ [e]) p -> exists p1, execution p0 tr p1 /\ step p1 e p.
Proof using Type.
  intros H. remember (tr ++ [e]) as l eqn:El. destruct H as [|tr' p1 e' p' H1 H2]; [by destruct tr|].
  apply app_inj_tail in El as [-> ->]. eauto.
Qed.

(** The lines that were logged. *)
Fixpoint logged (tr : list event) : list string :=
  match tr with
  | [] => []
  | Logged data :: tr' => line data :: logged tr'
  | _ :: tr' => logged tr'
  end.

Lemma logged_snoc tr e :
  logged (tr ++ [e]) = logged tr ++ match e with Logged data => [line data] | _ => [] end.
Proof using Type. induction tr as [|e' tr IH]; [by destruct e|]. destruct e'; cbn; by rewrite IH. Qed.

Lemma concat_snoc l s : String.concat "" (l ++ [s]) = String.concat "" l +:+ s.
Proof using Type.
  induction l as [|a l IH]; [done|]. cbn [app String.concat].
  destruct l as [|b l]; [done|]. cbn [app] in *. rewrite IH. by rewrite !string_app_assoc.
Qed.

Lemma recorded_all start tr :
  String.concat "" (map (fun a => snd (snd a)) (archives (recorded start tr))) +:+ current (recorded start tr)
  = String.concat "" (logged tr).
Proof using Type.
  induction tr as [|e tr IH] using rev_ind; [done|]. rewrite recorded_snoc, logged_snoc.
  destruct e; cbn [record archives current]; rewrite ?app_nil_r; try exact IH.
  - by rewrite concat_snoc, <- IH, string_app_assoc.
  - rewrite map_app. cbn [map snd]. by rewrite concat_snoc, IH, string_app_nil.
Qed.

(** C22: Lines are not lost and not reordered.  Whatever I/O errors there are, along any
    execution of a worker: every file that it has archived reads, after what the latest
    file held when the worker started, as the lines logged between its opening and its
    rotation, and a later rotation or line does not touch it; after a flush the current
    file reads as the lines logged since it was opened; and together these are all the
    lines logged, in order. *)
Theorem lines_kept (src dir : string) (d d' : disk) (w : worker) (tr : list event) (p : proc) :
  wfDisk d -> newWorker src dir d = (Ok w, d') -> execution (mkProc w d') tr p ->
  let h := recorded (default "" (fileAt d (latest w))) tr in
  Forall (fun '(path, (s, data)) => holds (dk p) path s data) (archives h)
  /\ (last tr = Some Flushed -> holds (dk p) (latest (wk p)) (started h) (current h))
  /\ String.concat "" (map (fun a => snd (snd a)) (archives h)) +:+ current h = String.concat "" (logged tr).
Proof using EL.
  intros Hd Hw He h. unfold newWorker in Hw.
  set (p0 := mkProc (mkWorker src dir None false "" 0 0 None 0 0 0 newManualTicker newManualTicker) d) in *.
  assert (latest w = latest (wk p0)) as Hl.
  { destruct (openLogFile p0) as [[u|e|s|] p1] eqn:E1; try done. injection Hw as <- <-.
    unfold openLogFile, get, bind at 1 in E1. apply bind_ok_inv in E1 as (i & p2 & E2 & E3). injection E3 as <- <-.
    apply wrapf_ok_inv in E2. unfold openFile in E2. apply bind_ok_inv in E2 as (v & p3 & E3 & E4).
    destruct (sys_spec openError p0) as [e Es]. rewrite Es in E3. destruct e; [done|]. injection E3 as <- <-.
    unfold get, bind, setContents, setNames, modify, ret in E4. cbn [wk dk names contents sysCalls] in E4.
    destruct (names d !! latest (wk p0)); cbv beta iota in E4; injection E4 as <- <-; reflexivity. }
  assert (between (mkHistory [] (default "" (fileAt d (latest w))) "") p0) as Hb.
  { split; [done|by constructor|done|]. rewrite Hl. cbn [names dk p0 started archives].
    destruct (names d !! latest (wk p0)) as [j|] eqn:En; [right|left]; unfold fileAt; rewrite En; [|done].
    split; [done|]. cbn. destruct (Hd _ _ En) as [c ->]. done. }
  pose proof (openLogFile_spec _ p0 Hb) as HO. destruct (openLogFile p0) as [[u|e|s|] p1]; try done.
  injection Hw as <- <-. destruct HO as ([i0 Hi0] & Ho0 & _).
  assert (inv h p) as [(b & i & Ht) Ho].
  { apply (execution_inv _ (mkProc (wk p1) (dk p1))); [|done]. destruct p1. split; [|done]. by exists true, i0. }
  split; [|split; [|apply recorded_all]].
  - eapply Forall_impl; [exact (t_archives _ _ _ _ Ht)|]. intros [path [s data]] (j & z & J1 & J2 & J3 & J4).
    exists z. unfold fileAt. by rewrite J1.
  - intros Hlast. apply last_Some in Hlast as [tr' ->]. destruct (execution_last _ _ _ _ He) as (p2 & He1 & Hs).
    assert (inv (recorded (default "" (fileAt d (latest (wk p1)))) tr') p2) as Hi2.
    { apply (execution_inv _ (mkProc (wk p1) (dk p1))); [|done]. destruct p1. split; [|done]. by exists true, i0. }
    destruct (step_inv _ p2 Flushed p Hi2 Hs) as [_ HF].
    destruct (HF eq_refl) as (k & Hk & Hbuf). unfold h. rewrite recorded_snoc.
    destruct Hk as [K1 K2 K3 K4 (g & out & c & G1 & G2 & G3 & G4) K6]. rewrite Hbuf, string_app_nil in G4.
    exists out. unfold fileAt. rewrite K4. split; [|by eapply inflate_flushed].
    change (contents (dk p) !! k = Some (started (record (recorded (default "" (fileAt d (latest (wk p1)))) tr') Flushed) +:+ out)).
    by rewrite G3, <- G4.
Qed.

(** ** What a rotation does not reset *)

(** The variables that files have nothing to do with. *)
Definition steady (p p' : proc) : Prop :=
  source (wk p') = source (wk p) /\ logDirectory (wk p') = logDirectory (wk p)
  /\ lastPosition (wk p') = lastPosition (wk p)
  /\ bytesWrittenSinceLastRotate (wk p') = bytesWrittenSinceLastRotate (wk p).

#[local] Instance steady_preorder : PreOrder steady.
Proof using Type. split; [by intros p|]. intros p1 p2 p3 (? & ? & ? & ?) (? & ? & ? & ?). repeat split; congruence. Qed.

Definition steadily {A} (m : Go proc A) : Prop := keeps steady (fun _ => True) m.

Lemma steadily_bind {A B} (m : Go proc A) (k : A -> Go proc B) :
  steadily m -> (forall a, steadily (k a)) -> steadily (bind m k).
Proof using Type. apply keeps_bind, _. Qed.
Lemma steadily_wrapf {A} msg ws (m : Go proc A) : steadily m -> steadily (wrapf msg ws m).
Proof using Type. intros H. by apply (keeps_wrapf _ _ (fun _ => True)). Qed.
Lemma steadily_run {A} (m : Go proc A) : (forall p, steady p (snd (m p))) -> steadily m.
Proof using Type. intros H p. split; [apply H|]. by destruct (fst (m p)). Qed.
Lemma steadily_state f : (forall p, steady p (f p)) -> steadily (modify f).
Proof using Type. intros H. by apply steadily_run. Qed.
Lemma steadily_sys failure : steadily (sys failure).
Proof using Type. apply steadily_run. intros p. by destruct (sys_spec failure p) as [e ->]. Qed.
Lemma steadily_onGzip {A} (f : Gz -> outcome A * string * Gz) : steadily (onGzip f).
Proof using Type.
  apply steadily_run. intros p. unfold onGzip, get, bind, lift, flushBuffer_Write, setWorker, modify, panic.
  destruct (writer (wk p)) as [g|]; [|done]. by destruct (f g) as [[r o] g'].
Qed.

Create HintDb steady.
Hint Resolve steadily_bind steadily_wrapf steadily_sys steadily_onGzip : steady.
Hint Extern 1 (steadily (modify _)) => apply steadily_state; done : steady.
Hint Extern 1 (steadily (ret _)) => apply steadily_run; done : steady.
Hint Extern 1 (steadily (fail _)) => apply steadily_run; done : steady.
Hint Extern 1 (steadily get) => apply steadily_run; done : steady.
Hint Extern 1 (steadily call) => apply steadily_run; done : steady.

Ltac go_steady :=
  repeat first
    [ match goal with
      | |- steadily (if ?c then _ else _) => destruct c
      | |- steadily (match ?x with _ => _ end) => destruct x
      end
    | progress (intros; eauto 1 with steady)
    | match goal with
      | |- steadily (bind _ _) => apply steadily_bind
      | |- steadily (wrapf _ _ _) => apply steadily_wrapf
      end ].

Lemma steadily_flush : steadily flushBuffer_Flush.
Proof using Type. unfold flushBuffer_Flush, setContents, setWorker. go_steady. Qed.

Lemma steadily_close : steadily closeCurrentFile.
Proof using Type.
  unfold closeCurrentFile, closeFile, renameFile, setNames, setWorker. pose proof steadily_flush. go_steady.
Qed.

Lemma steadily_open : steadily openLogFile.
Proof using Type. unfold openLogFile, openFile, setContents, setNames, setWorker. go_steady. Qed.

Lemma steadily_untilDone {A} fuel (m : Go proc A) : steadily m -> steadily (untilDone fuel m).
Proof using Type.
  intros H. induction fuel as [|fuel IH]; apply steadily_run; intros p; [done|]. rewrite untilDone_S.
  destruct (H p) as [H1 _]. destruct (m p) as [[a|e|s|] p']; try done. cbn in H1.
  destruct (IH p') as [H2 _]. by etransitivity.
Qed.

Lemma Position_counted w : Position (counted w) = Position w.
Proof using Type. unfold counted. cbv zeta. by repeat case_match. Qed.

Lemma counted_wraps w :
  bytesWrittenSinceLastRotate w = 0 -> 0 <= Position w < lastPosition w -> lastPosition w <= 2 ^ 63 ->
  0 <= maxFileSizeBeforeRotate < 2 ^ 63 -> manual (rotate (counted w)) = true.
Proof using Type.
  intros HB HP HL HM. unfold counted. rewrite HB. cbv zeta.
  assert (uint64 (0 + uint64 (Position w - lastPosition w)) = Position w - lastPosition w + 2 ^ 64) as ->.
  { unfold uint64. rewrite Z.add_0_l, Z.mod_mod by lia.
    rewrite <- (Z.mod_small (Position w - lastPosition w + 2 ^ 64) (2 ^ 64)) by lia.
    replace (Position w - lastPosition w + 2 ^ 64) with (Position w - lastPosition w + 1 * 2 ^ 64) by lia.
    by rewrite Z.mod_add by lia. }
  destruct (Z.ltb_spec maxFileSizeBeforeRotate (Position w - lastPosition w + 2 ^ 64)); [done|lia].
Qed.

(** A rotation resets the position of the new file but not the variable it is
    compared with, and the unsigned difference wraps: the first line after a rotation,
    if it leaves the new file shorter than the old one was, triggers another. *)
Theorem rotated_again (p p1 p2 : proc) (fuel : nat) (path data : string) :
  onRotate fuel p = (Ok (Some path), p1) -> onRequest data p1 = (Ok tt, p2) ->
  0 <= Position (wk p2) < lastPosition (wk p) -> lastPosition (wk p) <= 2 ^ 63 -> 0 <= maxFileSizeBeforeRotate < 2 ^ 63 ->
  manual (rotate (wk p2)) = true.
Proof using EL.
  intros Hr Hq HP HL HM. unfold onRotate, get, bind at 1 in Hr. destruct (_ <=? _); [done|].
  apply bind_ok_inv in Hr as (path' & q1 & H1 & Hr). apply bind_ok_inv in Hr as (u & q2 & H2 & Hr).
  injection H2 as <- <-. apply bind_ok_inv in Hr as (v & q3 & H3 & Hr). injection Hr as <- <-.
  destruct (steadily_untilDone fuel _ steadily_close p) as [(_ & _ & K1 & _) _]. rewrite H1 in K1. cbn in K1.
  destruct (steadily_untilDone fuel _ steadily_open (mkProc (withCounters 0 0 (lastPosition (wk q1)) (wk q1)) (dk q1)))
    as [(_ & _ & K2 & K3) _]. rewrite H3 in K2, K3. cbn in K2, K3.
  unfold onRequest in Hq. apply bind_ok_inv in Hq as (l & q4 & H4 & Hq). apply wrapf_ok_inv in H4.
  destruct (steadily_onGzip (fun g => gzWrite g (line data)) q3) as [(_ & _ & K4 & K5) _]. rewrite H4 in K4, K5. cbn in K4, K5.
  destruct (negb _); [done|]. unfold setWorker, modify in Hq. injection Hq as <-. cbn [wk] in *.
  apply counted_wraps; rewrite ?Position_counted in HP; congruence || lia.
Qed.

(** ** When a rotation is done *)

(** No system call fails. *)
Definition noErrors : Prop :=
  (forall n, openError n = None /\ closeError n = None /\ statError n = None /\ renameError n = None)
  /\ forall n s, writeFile n s = (String.length s, None).

Lemma sys_healthy failure p :
  (forall n, failure n = None) ->
  sys failure p = (Ok tt, mkProc (wk p) (mkDisk (names (dk p)) (contents (dk p)) (S (sysCalls (dk p))))).
Proof using Type. intros H. unfold sys, bind, call. by rewrite H. Qed.

Lemma flush_healthy h b i p :
  noErrors -> tracks h b i p -> fileOpen (wk p) = true ->
  exists p', flushBuffer_Flush p = (Ok tt, p') /\ tracks h b i p' /\ fileOpen (wk p') = true
    /\ buf (wk p') = "" /\ names (dk p') = names (dk p)
    /\ source (wk p') = source (wk p) /\ logDirectory (wk p') = logDirectory (wk p).
Proof using EL.
  intros [_ HW] Ht Ho. pose proof (flushBuffer_Flush_spec h b i p Ht (or_introl Ho)) as HF.
  assert (fst (flushBuffer_Flush p) = Ok tt) as E1.
  { unfold flushBuffer_Flush, get, bind at 1. destruct (_ =? _)%string; [done|]. rewrite Ho. cbn [negb].
    unfold call, bind at 1. rewrite HW. unfold setContents, setWorker, modify, bind, ret.
    by rewrite Nat.ltb_irrefl. }
  destruct (steadily_flush p) as [(E2 & E3 & _) _].
  destruct (flushBuffer_Flush p) as [[[]|e|s|] p']; try done. cbn in *. exists p'.
  destruct HF as (H1 & H2 & H3 & H4). rewrite Ho in H2. done.
Qed.

Lemma closeCurrentFile_healthy h b i p :
  noErrors -> tracks h b i p -> fileOpen (wk p) = true ->
  exists n p', let path := logFilePath (wk p) (nowRFC3339 n) in
    match names (dk p) !! path with
    | None => closeCurrentFile p = (Ok path, p')
    | Some _ => exists e, closeCurrentFile p = (Err e, p') /\ writer (wk p') = None
    end.
Proof using EL.
  intros HE Ht Ho. pose proof HE as [HS _].
  destruct (onGzip_spec gzFlush h b i p h true tt Ht) as (p1 & E1 & Ht1 & Ho1 & Hn1); [apply gzFlush_ok| |done..|].
  { intros g o g' out Hg Hf. by eapply gzRun_flush. }
  rewrite Ho in Ho1.
  destruct (steadily_onGzip gzFlush p) as [(S1 & S2 & _) _]. rewrite E1 in S1, S2. cbn in S1, S2.
  destruct (flush_healthy h true i p1 HE Ht1 Ho1) as (p2 & E2 & Ht2 & Ho2 & Hb2 & Hn2 & S3 & S4).
  set (p3 := mkProc (closed (wk p2)) (mkDisk (names (dk p2)) (contents (dk p2)) (S (sysCalls (dk p2))))).
  assert (closeFile p2 = (Ok tt, p3)) as E3.
  { unfold closeFile, get, bind at 1. rewrite (t_file _ _ _ _ Ht2), Ho2. cbn [negb]. unfold setWorker, modify, bind.
    apply sys_healthy. apply HS. }
  exists (sysCalls (dk p3)).
  assert (forall name, logFilePath (wk p) name = logFilePath (forgotten (wk p3)) name) as Hpath.
  { intros name. unfold logFilePath. cbn. by rewrite S3, S4, S1, S2. }
  rewrite Hpath.
  assert (names (dk p) = names (dk p3)) as -> by (cbn; congruence).
  assert (closeCurrentFile p = (setWorker forgotten ;;; n <-- call ;; p <-- get ;;
    let archivalPath := logFilePath (wk p) (nowRFC3339 n) in
    k <-- call ;;
    match statError k, names (dk p) !! archivalPath with
    | None, None =>
        wrapf "error while arching current log file to %q: %w" [] (renameFile (latest (wk p)) archivalPath) ;;;
        ret archivalPath
    | e, _ => fail (Errorf "attempted to archive file to already existing path: %q (%w)"
                (match e with Some e => [e] | None => [] end))
    end) p3) as ->.
  { unfold closeCurrentFile, bind at 1, wrapf at 1. rewrite E1. unfold bind at 1, wrapf at 1. rewrite E2.
    unfold bind at 1, wrapf at 1. by rewrite E3. }
  assert (names (dk p3) !! latest (wk p3) = Some i) as Hl3 by exact (t_name _ _ _ _ Ht2).
  clear - HS Hl3. clearbody p3. set (path := logFilePath (forgotten (wk p3)) (nowRFC3339 (sysCalls (dk p3)))).
  cbv zeta. destruct (names (dk p3) !! path) as [j|] eqn:Ep; eexists; [eexists|];
    unfold setWorker, modify, bind at 1, call at 1, bind at 1, get, bind at 1, call, bind at 1;
    cbv beta zeta; cbn [wk dk names contents sysCalls]; fold path; rewrite (proj1 (proj2 (proj2 (HS _)))), Ep.
  - done.
  - unfold bind at 1, wrapf at 1, renameFile, bind at 1. rewrite sys_healthy by apply HS.
    unfold get, bind at 1. cbn [wk dk names contents sysCalls].
    change (latest (forgotten (wk p3))) with (latest (wk p3)). rewrite Hl3. done.
Qed.

(** C23: When no system call fails a rotation is done at the first try, if the name for
    the archive, the current time in seconds, is free; if it is not, as with two
    rotations in one second, the second try dereferences the writer that the first has
    forgotten, and the process dies. *)
Theorem rotation_done (h : history) (p : proc) (fuel : nat) :
  noErrors -> inv h p -> 0 < bytesWrittenSinceLastRotate (wk p) ->
  exists n p', let path := logFilePath (wk p) (nowRFC3339 n) in
    match names (dk p) !! path with
    | None => onRotate (S fuel) p = (Ok (Some path), p') /\ inv (record h (Rotated path)) p'
    | Some _ => onRotate (S (S fuel)) p = (Panic nilPointer, p')
    end.
Proof using EL.
  intros HE [(b & i & Ht) Ho] HB. destruct (closeCurrentFile_healthy h b i p HE Ht Ho) as (n & p1 & HC).
  exists n. cbv zeta in *. set (path := logFilePath (wk p) (nowRFC3339 n)) in *.
  assert (forall m, onRotate m p
    = (archivalPath <-- untilDone m closeCurrentFile ;;
       setWorker (fun w => withCounters 0 0 (lastPosition w) w) ;;;
       untilDone m openLogFile ;;; ret (Some archivalPath)) p) as HR.
  { intros m. unfold onRotate, get, bind at 1. by destruct (Z.leb_spec (bytesWrittenSinceLastRotate (wk p)) 0); [lia|]. }
  destruct (names (dk p) !! path) as [j|].
  - destruct HC as (e & HC & Hw). exists p1. rewrite HR. unfold bind at 1. rewrite untilDone_S, HC, untilDone_S.
    unfold closeCurrentFile, bind at 1, wrapf at 1, onGzip, get, bind at 1. by rewrite Hw.
  - set (p2 := mkProc (withCounters 0 0 (lastPosition (wk p1)) (wk p1)) (dk p1)).
    assert (between (record h (Rotated path)) p2) as Hb.
    { pose proof (closeCurrentFile_spec h b i p Ht Ho) as HS. rewrite HC in HS. by destruct HS as [[] _]. }
    destruct (openLogFile p2) as [o p3] eqn:EO. pose proof (openLogFile_spec _ p2 Hb) as HO. rewrite EO in HO.
    destruct o as [[]|e|s|]; try done.
    + exists p3. rewrite HR. unfold bind at 1. rewrite untilDone_S, HC. unfold setWorker, modify, bind at 1.
      fold p2. unfold bind at 1. rewrite untilDone_S, EO. split; [done|]. destruct HO as ([k Hk] & Ho' & _).
      split; [|done]. by exists true, k.
    + exfalso. revert EO. unfold openLogFile, get, bind at 1, bind at 1, wrapf, openFile, bind at 1.
      rewrite sys_healthy by apply HE. unfold get, bind at 1. by destruct (names _ !! _).
Qed.
End Worker.
