(* ===== verification/LogManager.v ===== *)
(** * The log service

    service/log: the workers of the sources (manager.go) and the handler of a batch of
    events (handler.go), over the worker of LogWorker.  Creating a directory and
    decoding JSON are the class [LogInput]. *)

From stdpp Require Import gmap.
From S2P Require Import Prelude GoStrings GoPath GoSearch LogWorker.
From Stdlib Require Import Strings.Ascii.
#[local] Open Scope Z_scope.
#[local] Set Warnings "-register-all,-clear-no-such-hyp".

Definition ErrTerminating : error := PlainError "process terminating".
Definition ErrInternal : error := PlainError "internal error".
Definition ErrBadRequest : error := PlainError "bad request".

(** The fields of [event] that the service reads. *)
Record logEvent : Type := mkEvent { Source : string; Data : string }.

Class LogInput : Type := {
  mkdirAll : nat -> string -> option error;
  decodeEvents : string -> outcome (list logEvent)
}.

Section Manager.
Context {E : LogEnv} {L : LogInput}.
Variables (directory : string) (maxLogLinesBeforeFlush maxFileSizeBeforeRotate : Z).

Record WorkerManager : Type := mkManager {
  workers : gmap string worker;
  mdisk : disk;
  terminating : bool
}.

Definition logPath (source : string) : string := JoinPath [directory; source].

(** The worker of a source, or a new one, whose loop starts. *)
Definition WorkerManager_worker (source : string) : Go WorkerManager worker :=
  fun m =>
    match workers m !! source with
    | Some w => (Ok w, m)
    | None =>
        let p := logPath source in
        let d := mkDisk (names (mdisk m)) (contents (mdisk m)) (S (sysCalls (mdisk m))) in
        match mkdirAll (sysCalls (mdisk m)) p with
        | Some e => (Err (Errorf "could not create log directory %q: %w" [e]), mkManager (workers m) d (terminating m))
        | None =>
            match newWorker source p d with
            | (Ok w, d') => (Ok w, mkManager (<[source := w]> (workers m)) d' (terminating m))
            | (Err e, d') => (Err (Errorf "error while creating worker for source %q: %w" [e]),
                              mkManager (workers m) d' (terminating m))
            | (Panic s, d') => (Panic s, mkManager (workers m) d' (terminating m))
            | (Diverge, d') => (Diverge, mkManager (workers m) d' (terminating m))
            end
        end
    end.

(** A request is handed to the loop of the worker, and its result waited for. *)
Definition ask {A} (source : string) (w : worker) (f : Go proc A) : Go WorkerManager A :=
  fun m =>
    let '(r, p) := f (mkProc w (mdisk m)) in
    (r, mkManager (<[source := wk p]> (workers m)) (dk p) (terminating m)).

Definition process (e : logEvent) : Go WorkerManager unit :=
  m <-- get ;;
  if terminating m then fail ErrTerminating
  else
    w <-- wrapf "could not get worker: %w" [] (WorkerManager_worker (Source e)) ;;
    ask (Source e) w (onRequest maxLogLinesBeforeFlush maxFileSizeBeforeRotate (Data e)).

(** ** handler.go *)

(** A [sync.WaitGroup] is its counter; [Go] adds one for its task, which takes it back
    when the task ends; [Wait] returns when the counter is zero. *)
Definition Add (n counter : Z) : Z := counter + n.
Definition Done (counter : Z) : Z := counter - 1.

(** The tasks of the events, in some order, with the counter of the group, and the
    errors of those that failed. *)
Fixpoint logTasks (events : list logEvent) (wg : Z) : Go WorkerManager (Z * list error) :=
  fun m =>
    match events with
    | [] => (Ok (wg, []), m)
    | e :: events' =>
        let wg := Add 1 (Add 1 wg) in
        match process e m with
        | (Ok _, m') => logTasks events' (Done wg) m'
        | (Err err, m') =>
            (let! (wg, errs) := logTasks events' (Done wg) in
             ret (wg, Errorf "%w: error while storing log: %w" [ErrInternal; err] :: errs)) m'
        | (Panic s, m') => (Panic s, m')
        | (Diverge, m') => (Diverge, m')
        end
    end.

Definition handleLogs (body : string) : Go WorkerManager unit :=
  events <-- wrapf "%w: error while decoding the request body: %w" [ErrBadRequest] (lift (decodeEvents body)) ;;
  let! (wg, collected) := logTasks events 0 in
  if negb (wg =? 0) then lift Diverge
  else match collected with
       | [] => ret tt
       | _ => fail (Errorf "writing one or more logs failed: %w" collected)
       end.

(** ** What clients get *)

Lemma logTasks_counter events wg m :
  match logTasks events wg m with
  | (Ok r, _) => fst r = wg + len events
  | (Err _, _) => False
  | _ => True
  end.
Proof using Type.
  revert wg m. induction events as [|e events IH]; intros wg m; cbn [logTasks].
  { cbn. unfold len. cbn. lia. }
  rewrite len_cons. unfold Add, Done. destruct (process e m) as [[u|err|s|] m1]; try done.
  - specialize (IH (1 + 1 + wg - 1) m1) as H. replace (wg + 1 + 1 - 1) with (1 + 1 + wg - 1) by lia.
    destruct (logTasks _ _ m1) as [[r|e'|s|] m2]; try done. lia.
  - unfold bind. specialize (IH (1 + 1 + wg - 1) m1) as H. replace (wg + 1 + 1 - 1) with (1 + 1 + wg - 1) by lia.
    destruct (logTasks _ _ m1) as [[[n errs]|e'|s|] m2]; try done. cbn in *. lia.
Qed.

(** A client that sends events never gets an answer: the handler adds to its wait
    group twice for each task, by Add and by Go, and the tasks take back one, so that it
    waits for ever; only an empty batch is answered. *)
Theorem handleLogs_blocks (body : string) (events : list logEvent) (m : WorkerManager) :
  decodeEvents body = Ok events ->
  match fst (handleLogs body m) with
  | Ok _ => events = []
  | Err _ => False
  | Panic _ | Diverge => True
  end.
Proof using Type.
  intros Hd. unfold handleLogs, bind at 1, wrapf at 1, lift at 1. cbv beta. rewrite Hd.
  unfold bind. pose proof (logTasks_counter events 0 m) as H.
  destruct (logTasks events 0 m) as [[[wg errs]|e|s|] m1] eqn:EL; try done. cbn in H.
  destruct (Z.eqb_spec wg 0) as [E0|E0]; cbn [negb]; [|done].
  assert (events = []) as ->.
  { destruct events as [|e l]; [done|]. rewrite len_cons in H. pose proof (len_nonneg l). lia. }
  cbn in EL. by injection EL as <- <- <-.
Qed.

(** ** Where the files are *)

(** The name of a log file. *)
Definition fileName (source name : string) : string := source +:+ "-" +:+ name +:+ ".jsonl.gz".

Lemma fileName_plain source name :
  plainPart source = true -> lacks slash name = true -> plainPart (fileName source name) = true.
Proof using Type.
  intros (H1 & H2 & H3 & H4)%plainPart_spec Hn. apply plainPart_spec. unfold fileName.
  assert (forall t, (String.length t < 3)%nat -> source +:+ "-" +:+ name +:+ ".jsonl.gz" <> t) as Hlen.
  { intros t Ht <-. rewrite !length_app_string in Ht. cbn in Ht. lia. }
  split; [apply Hlen; cbn; lia|]. split; [apply Hlen; cbn; lia|]. split; [apply Hlen; cbn; lia|].
  unfold lacks in *. rewrite !all_app, H4, Hn. done.
Qed.

(** The files of a source whose name is a plain path element are in the directory of
    that source, below the directory of the service, and no other such source has one
    of the same path. (A name with slashes and dots leaves the directory.) *)
Theorem files_inside (source name : string) (w : worker) :
  directory <> "" -> plainPart source = true -> lacks slash name = true ->
  LogWorker.source w = source -> logDirectory w = logPath source ->
  logFilePath w name
  = render (rooted directory)
      (rev (cleanParts (rooted directory) [] (Split directory slash)) ++ [source; fileName source name])
  /\ forall source' name' w', plainPart source' = true -> lacks slash name' = true ->
       LogWorker.source w' = source' -> logDirectory w' = logPath source' ->
       logFilePath w' name' = logFilePath w name -> source' = source.
Proof using Type.
  intros Hd. set (root := rooted directory). set (kept := cleanParts root [] (Split directory slash)).
  assert (forall s n w, plainPart s = true -> lacks slash n = true -> LogWorker.source w = s ->
    logDirectory w = logPath s -> logFilePath w n = render root (rev kept ++ [s; fileName s n])) as HP.
  { intros s n w0 Hs Hn Hw Hl. unfold logFilePath. rewrite Hw, Hl. fold (fileName s n).
    pose proof (fileName_plain s n Hs Hn) as Hf.
    assert (Clean (fileName s n) = fileName s n) as ->.
    { pose proof (plainPart_spec (fileName s n)) as [Hf' _]. destruct (Hf' Hf) as (F1 & F2 & F3 & F4).
      unfold Clean. rewrite (rooted_lacks _ F4), Split_single by done. cbn [cleanParts foldl].
      rewrite cleanPart_plain by done. change (render false (rev [fileName s n])) with (fileName s n).
      by rewrite (proj2 (String.eqb_neq _ _) F1). }
    unfold logPath. rewrite (JoinPath_plain directory [s]) by (done || by apply Forall_singleton).
    fold root kept.
    assert (wellKept root (s :: kept)) as Hk.
    { destruct (cleaned_kept root directory) as (plain & n0 & Hk1 & Hk2 & Hk3). exists (s :: plain), n0.
      unfold kept. rewrite Hk1. split; [done|]. split; [by constructor|done]. }
    assert (rev kept ++ [s] = rev (s :: kept)) as Er by done. rewrite Er.
    assert (render root (rev (s :: kept)) <> "") as Hne.
    { unfold render. intros E0.
      assert (Join (rev (s :: kept)) "/" <> "") as HJ; [|by destruct root; [done|]; rewrite app_Empty in E0].
      apply Join_nonempty; [by rewrite <- Er; destruct (rev kept)|].
      intros p Hp%list_elem_of_In%in_rev%list_elem_of_In. by eapply wellKept_parts. }
    destruct (render_parts root (s :: kept) Hk Hne) as [R1 R2].
    rewrite (JoinPath_plain _ [fileName s n]) by (done || by apply Forall_singleton).
    rewrite R1, R2. cbn [rev]. by rewrite <- !app_assoc. }
  intros Hs Hn Hw Hl. rewrite (HP source name w Hs Hn Hw Hl). split; [done|].
  intros s' n' w' Hs' Hn' Hw' Hl' H. rewrite (HP s' n' w' Hs' Hn' Hw' Hl') in H.
  assert (forall s n, plainPart s = true -> lacks slash n = true ->
    forall p, p ∈ rev kept ++ [s; fileName s n] -> lacks slash p = true) as HL.
  { intros s n H1 H2 p [Hp|Hp]%elem_of_app.
    - apply list_elem_of_In, in_rev, list_elem_of_In in Hp.
      eapply (wellKept_parts root kept); [apply cleaned_kept|done].
    - pose proof (fileName_plain s n H1 H2) as H3.
      apply plainPart_spec in H1 as (_ & _ & _ & H1). apply plainPart_spec in H3 as (_ & _ & _ & H3).
      rewrite !elem_of_cons, elem_of_nil in Hp. by destruct Hp as [->|[->|[]]]. }
  apply render_inj in H; [|by destruct (rev kept)|by destruct (rev kept)|by apply HL..].
  apply app_inv_head in H. by injection H.
Qed.
End Manager.
