(* ===== verification/LogExamples.v ===== *)
(** * A log worker that dies

    A compressor, a disk and a clock that behave as documented; a worker that dies of
    its second rotation; a source that writes outside of the directory; and the
    witnesses of the theorems on logs. *)

From stdpp Require Import gmap.
From S2P Require Import Prelude GoStrings GoPath GoSearch LogWorker LogManager.
From Stdlib Require Import Strings.Ascii.
#[local] Open Scope Z_scope.
#[local] Set Warnings "-clear-no-such-hyp".

(** ** The environment *)

(** A compressor that gives a header before anything else, and keeps what it is given
    until it is flushed. *)
#[export] Instance sampleLog : LogEnv := {|
  Gz := string * bool;
  gzNew := ("", false);
  gzWrite := fun '(pending, header) p =>
    (Ok (Z.of_nat (String.length p)), if header then "" else "#", (pending +:+ p, true));
  gzFlush := fun '(pending, header) => (Ok tt, (if header : bool then "" else "#") +:+ pending, ("", true));
  inflate := fun s => match s with String c r => if (c =? "#")%char then r else s | EmptyString => "" end;
  openError := fun n => None;
  closeError := fun n => None;
  statError := fun n => None;
  renameError := fun n => None;
  writeFile := fun n s => (String.length s, None);
  nowRFC3339 := fun n => "2026-01-01T00:00:00Z"
|}.

Lemma sampleLog_run g out data f :
  gzRun g out data f ->
  (f = true -> fst g = "")
  /\ if snd g then exists o, out = String "#" o /\ o +:+ fst g = data else out = "" /\ data = "" /\ fst g = "".
Proof.
  induction 1 as [|[pending header] out data f p r o [pending' header'] H IH E|[pending header] out data f r o [pending' header'] H IH E].
  - done.
  - cbn in E. injection E as <- <- <- <-. cbn in *. split; [done|]. destruct IH as [_ IH]. destruct header.
    + destruct IH as (o & -> & <-). exists o. by rewrite string_app_nil, string_app_assoc.
    + destruct IH as (-> & -> & ->). by exists "".
  - cbn in E. injection E as <- <- <- <-. cbn in *. split; [done|]. destruct IH as [_ IH]. destruct header.
    + destruct IH as (o & -> & <-). exists (o +:+ pending). cbn. by rewrite string_app_nil.
    + destruct IH as (-> & -> & ->). by exists "".
Qed.

#[export] Instance sampleLog_laws : LogEnvLaws sampleLog.
Proof.
  split.
  - by intros [pending header] p.
  - by intros [pending header].
  - intros [pending header] out data H%sampleLog_run. destruct H as [H1 H2]. cbn in *. rewrite H1 in H2 by done.
    destruct header; [|by destruct H2 as (-> & -> & _)]. destruct H2 as (o & -> & <-). cbn. by rewrite string_app_nil.
  - intros n s. cbn. lia.
Qed.

Lemma sampleLog_noErrors : noErrors.
Proof. by split. Qed.

Definition emptyDisk : disk := mkDisk ∅ ∅ 0.

Lemma emptyDisk_wf : wfDisk emptyDisk.
Proof. intros n i Hn. done. Qed.

(** ** An execution *)

Definition runLine (data : string) (p : proc) : proc := snd (onRequest 100 1000 data p).
Definition rotateNow (p : proc) : proc := snd (onRotate 2 (onRotateTicker (fun t => mkTicker (manual t) false) p)).

Definition firstWorker : worker := Eval vm_compute in
  match fst (newWorker "app" "/logs/app" emptyDisk) with
  | Ok w => w
  | _ => mkWorker "" "" None false "" 0 0 None 0 0 0 newManualTicker newManualTicker
  end.
Definition firstDisk : disk := Eval vm_compute in snd (newWorker "app" "/logs/app" emptyDisk).
Definition p0 : proc := mkProc firstWorker firstDisk.

Lemma firstWorker_run : newWorker "app" "/logs/app" emptyDisk = (Ok firstWorker, firstDisk).
Proof. eval_refl. Qed.

(** A line, then a rotation. *)
Definition p1 : proc := Eval vm_compute in runLine "hello world" p0.
Definition p2 : proc := Eval vm_compute in onRotateTicker tickOnce p1.
Definition p3 : proc := Eval vm_compute in rotateNow p2.
Definition archive : string := "/logs/app/app-2026-01-01T00:00:00Z.jsonl.gz".

Lemma p3_execution : execution 100 1000 p0 [Logged "hello world"; Ticked; Rotated archive] p3.
Proof.
  change [Logged "hello world"; Ticked; Rotated archive]
    with ((([] ++ [Logged "hello world"]) ++ [Ticked]) ++ [Rotated archive]).
  eapply execution_snoc; [eapply execution_snoc; [eapply execution_snoc; [apply execution_nil|]|]|].
  - apply (step_logged 100 1000 p0 "hello world" p1). eval_refl.
  - exact (step_tick_rotate 100 1000 p1).
  - apply (step_rotated 100 1000 p2 (mkTicker false false) 2 archive p3); eval_refl.
Qed.

Lemma lines_kept_witness : holds (dk p3) archive "" ("hello world" +:+ newline).
Proof.
  destruct (lines_kept 100 1000 "app" "/logs/app" emptyDisk firstDisk firstWorker
    [Logged "hello world"; Ticked; Rotated archive] p3 emptyDisk_wf firstWorker_run p3_execution) as (H & _ & _).
  cbn [recorded foldl record archives app started current] in H. apply Forall_cons in H as [H _].
  assert (default "" (fileAt emptyDisk (latest firstWorker)) = "") as Hs by done. rewrite Hs in H. exact H.
Defined.

(** ** What goes wrong *)

Lemma p2_inv : exists h, inv h p2.
Proof.
  exists (mkHistory [] "" ("hello world" +:+ newline)). split; [|done]. exists false, 0%nat. split; try done.
  - intros n i Hn. assert (n = "/logs/app/app-latest.jsonl.gz" /\ i = 0%nat) as [-> ->].
    { revert Hn. change (names (dk p2)) with ({[ "/logs/app/app-latest.jsonl.gz" := 0%nat ]} : gmap string nat).
      by intros [<- <-]%lookup_singleton_Some. }
    by eexists.
  - exists ("hello world" +:+ newline, true), "#", "". split; [done|]. split; [|done].
    apply (gzRun_write gzNew "" "" true ("hello world" +:+ newline)
      (Ok (Z.of_nat (String.length ("hello world" +:+ newline)))) "#"); [apply gzRun_new|done].
Qed.

Lemma rotation_done_witness : exists n p', fst (onRotate 1 p2) = Ok (Some (logFilePath (wk p2) (nowRFC3339 n)))
  /\ onRotate 1 p2 = (Ok (Some (logFilePath (wk p2) (nowRFC3339 n))), p').
Proof.
  destruct p2_inv as [h Hi]. destruct (rotation_done h p2 0 sampleLog_noErrors Hi ltac:(done)) as (n & p' & H).
  exists n, p'. cbv zeta in H. change (nowRFC3339 n) with (nowRFC3339 0) in *.
  assert (names (dk p2) !! logFilePath (wk p2) (nowRFC3339 0) = None) as Hn by eval_refl. rewrite Hn in H.
  destruct H as [H _]. split; [by rewrite H|exact H].
Defined.

(** The next line triggers a second rotation, in the same second: the worker, and with
    it the service, dies. *)
Definition p4 : proc := Eval vm_compute in runLine "x" (mkProc (withCounters 0 0 50 (wk p3)) (dk p3)).

Theorem second_rotation_dies :
  manual (rotate (wk p4)) = true /\ fst (onRotate 2 (onRotateTicker deliver p4)) = Panic nilPointer.
Proof. split; eval_refl. Qed.

(** The worker after a file of fifty bytes. *)
Definition p5 : proc := Eval vm_compute in mkProc (withCounters 1 50 50 (wk p2)) (dk p2).
Definition p6 : proc := Eval vm_compute in rotateNow p5.
Definition p7 : proc := Eval vm_compute in runLine "x" p6.

Lemma rotated_again_witness : manual (rotate (wk p7)) = true.
Proof.
  apply (rotated_again 100 1000 (onRotateTicker (fun t => mkTicker (manual t) false) p5) p6 p7 2 archive "x").
  - eval_refl.
  - eval_refl.
  - vm_compute. split; [discriminate|reflexivity].
  - done.
  - done.
Defined.

(** A batch of one event. *)
#[export] Instance sampleInput : LogInput := {|
  mkdirAll := fun n p => None;
  decodeEvents := fun body => Ok [mkEvent "app" body]
|}.

Definition noWorkers : WorkerManager := mkManager ∅ emptyDisk false.

Lemma handleLogs_blocks_witness :
  decodeEvents "hello" = Ok [mkEvent "app" "hello"]
  /\ match fst (handleLogs "/logs" 100 1000 "hello" noWorkers) with Ok _ | Err _ => False | _ => True end.
Proof.
  split; [reflexivity|].
  pose proof (handleLogs_blocks "/logs" 100 1000 "hello" [mkEvent "app" "hello"] noWorkers eq_refl) as H.
  destruct (fst (handleLogs "/logs" 100 1000 "hello" noWorkers)); done.
Defined.

(** A source with dots in its name writes where it wants. *)
Theorem source_escapes : logPath "/logs" "../etc" = "/etc".
Proof. reflexivity. Qed.

Lemma files_inside_witness :
  logFilePath firstWorker "latest" = "/logs/app/app-latest.jsonl.gz".
Proof.
  pose proof (files_inside "/logs" "app" "latest" firstWorker ltac:(done) eq_refl eq_refl eq_refl eq_refl) as [H _].
  rewrite H. reflexivity.
Defined.
