(* ===== verification/Desec.v ===== *)
(** * The deSEC webhook

    service/desec: the conversion between the endpoints of external-dns and the record
    sets of deSEC (conversion.go), the provider (provider.go) and the handlers of the
    webhook (webhook.go).  The deSEC API, the syntax of labels and JSON are the classes
    [DesecAPI], [LabelSyntax] and [WebhookJSON]. *)

From stdpp Require Import gmap.
From S2P Require Import Prelude Hoare GoStrings GoPath GoSearch.
From Stdlib Require Import Strings.Ascii.
#[local] Open Scope Z_scope.
#[local] Set Warnings "-register-all,-clear-no-such-hyp".

Abbreviation Labels := (gmap string string).

(** The fields of an endpoint and of a record set that the service reads or writes; a
    TTL is an int64 and an int. *)
Record Endpoint : Type := mkEndpoint {
  DNSName : string;
  Targets : list string;
  RecordType : string;
  RecordTTL : Z;
  EndpointLabels : option Labels
}.

Record RRSet : Type := mkRRSet {
  Name : string;
  Domain : string;
  SubName : string;
  Type_ : string;
  Records : list string;
  TTL : Z
}.

(** [plan.Changes]: lists of pointers, which JSON can make nil. *)
Record Changes : Type := mkChanges {
  Create : list (option Endpoint);
  UpdateNew : list (option Endpoint);
  Delete : list (option Endpoint)
}.

Class LabelSyntax : Type := { NewLabelsFromStringPlain : string -> outcome Labels }.

Definition nilPointer : string := "invalid memory address or nil pointer dereference".

(** The method or field of a pointer. *)
Definition deref {A} (p : option A) : outcome A :=
  match p with Some a => Ok a | None => Panic nilPointer end.

(** A loop over pointers that appends what it makes of each. *)
Fixpoint eachPointer {A B} (l : list (option A)) (f : A -> outcome (option B)) : outcome (list B) :=
  match l with
  | [] => Ok []
  | p :: l' =>
      a <-? deref p ;; b <-? f a ;; rest <-? eachPointer l' f ;;
      Ok (match b with Some b => b :: rest | None => rest end)
  end.

(** ** conversion.go *)

Section Conversion.
Context {U : Unicode} {L : LabelSyntax}.

Definition dot : ascii := ".".

(** Empty labels are dropped, and one dot ends the name. *)
Definition canonicalize (dn : string) : string :=
  ToLower (Join (filter (fun part => part <> "") (Split dn dot)) "." +:+ ".").

Definition rrsetToEndpoint (rrset : RRSet) (labels : option Labels) : Endpoint :=
  mkEndpoint (canonicalize (Name rrset)) (Records rrset) (Type_ rrset) (TTL rrset) labels.

Definition labelSeparator : ascii := "-".

Definition recordTypesSet : gset string := list_to_set
  ["a"; "aaaa"; "afsdb"; "apl"; "caa"; "cert"; "cname"; "dhcid"; "dname"; "dlv"; "eui48";
   "eui64"; "hinfo"; "https"; "kx"; "l32"; "l64"; "loc"; "lp"; "mx"; "naptr"; "nid"; "ns";
   "openpgpkey"; "ptr"; "rp"; "smimea"; "spf"; "srv"; "sshfp"; "svcb"; "tlsa"; "txt"; "uri"].

Definition couldBeLabel (rrset : RRSet) : bool :=
  if negb (ToLower (Type_ rrset) =? "txt")%string then false
  else match Records rrset with
       | [] => false
       | _ =>
           match Split (Name rrset) labelSeparator with
           | part :: _ :: _ => bool_decide (part ∈ recordTypesSet)
           | _ => false
           end
       end.

Definition labelName (rrset : RRSet) : string :=
  canonicalize (Type_ rrset +:+ String labelSeparator "" +:+ Name rrset).

(** The first pass, of the record sets that could be labels. *)
Fixpoint potentialLabels (rrsets : list RRSet) (found : gmap string Labels) : gmap string Labels :=
  match rrsets with
  | [] => found
  | rrset :: rrsets' =>
      potentialLabels rrsets'
        (match couldBeLabel rrset, Records rrset with
         | true, record :: _ =>
             match NewLabelsFromStringPlain record with
             | Ok labels => <[Name rrset := labels]> found
             | _ => found
             end
         | _, _ => found
         end)
  end.

Definition groupRRSets (rrsets : list RRSet) : list Endpoint :=
  let potential := potentialLabels rrsets ∅ in
  map (fun rrset => rrsetToEndpoint rrset (potential !! labelName rrset)) rrsets.

Definition partialRRSetFromFQDN (fqdn domain : string) : RRSet :=
  let fqdn := canonicalize fqdn in
  let domain := canonicalize domain in
  mkRRSet fqdn domain (TrimSuffix fqdn ("." +:+ domain)) "" [] 0.

Definition Second : Z := 1000000000.
Definition Hour : Z := 3600 * Second.

(** [time.Duration(raw) * time.Second] wraps around. *)
Definition underAnHour (raw : Z) : bool := int64 (raw * Second) <? Hour.

Definition ttl (raw : Z) : Z := if underAnHour raw then 3600 else raw.

Definition endpointToRRSet (domain : string) (e : Endpoint) : RRSet :=
  let record := partialRRSetFromFQDN (DNSName e) domain in
  mkRRSet (Name record) (Domain record) (SubName record) (RecordType e) (Targets e) (ttl (RecordTTL e)).

Definition endpointsToRRSets (endpoints : list (option Endpoint)) (domain : string) : outcome (list RRSet) :=
  eachPointer endpoints (fun e => Ok (Some (endpointToRRSet domain e))).

Definition endpointsToRRSetsIdentifiers (endpoints : list (option Endpoint)) (domain : string)
    : outcome (list RRSet) :=
  eachPointer endpoints (fun e =>
    let record := partialRRSetFromFQDN (DNSName e) domain in
    Ok (Some (mkRRSet (Name record) (Domain record) (SubName record) (RecordType e) []
                (ttl (RecordTTL e))))).

Definition filterRRSets (rrsets : list RRSet) (managedTypes : list string) : list RRSet :=
  filter (fun rrset => ToLower (Type_ rrset) ∈ managedTypes) rrsets.

(** ** provider.go *)

Definition ErrAliasUnsupported : error := PlainError "ALIAS records are not supported".

Definition quote : string := String (chr 34) "".

Definition quoted (target : string) : bool := HasPrefix target quote && HasSuffix target quote.

Definition quoteTarget (target : string) : string :=
  if quoted target then target else quote +:+ target +:+ quote.

(** One endpoint of [AdjustEndpoints]; [None] for one that is left out. *)
Definition adjustEndpoint (domain : string) (e : Endpoint) : outcome (option Endpoint) :=
  if (ToLower (RecordType e) =? "alias")%string then Err ErrAliasUnsupported
  else if negb (HasSuffix (DNSName e) domain) then Ok None
  else
    let recordTTL := if underAnHour (RecordTTL e) then 3600 else RecordTTL e in
    let targets :=
      if (ToLower (RecordType e) =? "txt")%string then map quoteTarget (Targets e) else Targets e in
    Ok (Some (mkEndpoint (DNSName e) targets (RecordType e) recordTTL (EndpointLabels e))).

Definition AdjustEndpoints (domain : string) (endpoints : list (option Endpoint)) : outcome (list Endpoint) :=
  eachPointer endpoints (adjustEndpoint domain).
End Conversion.

(** The deSEC API over a remote state. *)
Class DesecAPI : Type := {
  Remote : Type;
  GetAll : string -> Go Remote (list RRSet);
  BulkCreate : string -> list RRSet -> Go Remote (list RRSet);
  BulkUpdate : string -> list RRSet -> Go Remote (list RRSet);
  BulkDelete : string -> list RRSet -> Go Remote unit
}.

Section Provider.
Context {U : Unicode} {L : LabelSyntax} {D : DesecAPI}.
Variables (domain : string) (managedTypes : list string).

Definition GetDomainFilter : list string := [domain].

Definition provider_Records : Go Remote (list Endpoint) :=
  rrsets <-- wrapf "error while fetching all RRSets: %w" [] (GetAll domain) ;;
  ret (groupRRSets (filterRRSets rrsets managedTypes)).

(** [if len(rrsets) > 0 { ... }] *)
Definition whenAny {A} (rrsets : list RRSet) (m : list RRSet -> Go Remote A) : Go Remote unit :=
  match rrsets with [] => ret tt | _ => m rrsets ;;; ret tt end.

Definition ApplyChanges (changes : Changes) : Go Remote unit :=
  create <-- lift (endpointsToRRSets (Create changes) domain) ;;
  update <-- lift (endpointsToRRSets (UpdateNew changes) domain) ;;
  remove <-- lift (endpointsToRRSetsIdentifiers (Delete changes) domain) ;;
  whenAny create (fun l => wrapf "error while creating RRSets for the new endpoints: %w" [] (BulkCreate domain l)) ;;;
  whenAny update (fun l => wrapf "error while updating RRSets for already-existing endpoints: %w" [] (BulkUpdate domain l)) ;;;
  whenAny remove (fun l => wrapf "error while deleting old RRSets: %w" [] (BulkDelete domain l)).
End Provider.

(** ** webhook.go *)

(** What a handler does to a response: the status of the first WriteHeader, the last
    status written, that of the metric, and what is encoded in the body. *)
Inductive Body : Type :=
| BodyRecords (l : list Endpoint)
| BodyAdjusted (l : option (list Endpoint))
| BodyFilter (l : list string).

Record Response : Type := mkResponse {
  sent : option Z;
  statusCode : Z;
  contentType : bool;
  body : list Body
}.

Definition newResponse : Response := mkResponse None 0 false [].

Definition StatusOK : Z := 200.
Definition StatusNoContent : Z := 204.
Definition StatusBadRequest : Z := 400.
Definition StatusNotFound : Z := 404.
Definition StatusInternalServerError : Z := 500.

(** responseWriter.WriteHeader; net/http ignores all but the first. *)
Definition WriteHeader (code : Z) (w : Response) : Response :=
  mkResponse (Some (default code (sent w))) code (contentType w) (body w).

Definition setContentType (w : Response) : Response := mkResponse (sent w) (statusCode w) true (body w).

(** A first write sends 200. *)
Definition writeBody (b : Body) (w : Response) : Response :=
  mkResponse (Some (default StatusOK (sent w))) (statusCode w) (contentType w) (body w ++ [b]).

Inductive Method : Type := MethodGet | MethodPost | MethodOther.

Class WebhookJSON : Type := {
  decodeChanges : string -> outcome Changes;
  decodeEndpoints : string -> outcome (list (option Endpoint));
  (** Whether the body can be encoded and written. *)
  encode : Body -> option error
}.

Section Webhook.
Context {U : Unicode} {L : LabelSyntax} {D : DesecAPI} {J : WebhookJSON}.
Variables (domain : string) (managedTypes : list string).

Definition RecordsHandler (method : Method) (request : string) (w : Response) : Go Remote Response :=
  match method with
  | MethodGet => fun s =>
      match provider_Records domain managedTypes s with
      | (Ok records, s') =>
          let w := WriteHeader StatusOK (setContentType w) in
          (Ok (match encode (BodyRecords records) with None => writeBody (BodyRecords records) w | Some _ => w end), s')
      | (Err _, s') => (Ok (WriteHeader StatusInternalServerError w), s')
      | (Panic m, s') => (Panic m, s')
      | (Diverge, s') => (Diverge, s')
      end
  | MethodPost =>
      match decodeChanges request with
      | Ok changes => fun s =>
          match ApplyChanges domain changes s with
          | (Ok _, s') => (Ok (WriteHeader StatusNoContent w), s')
          | (Err _, s') => (Ok (WriteHeader StatusInternalServerError w), s')
          | (Panic m, s') => (Panic m, s')
          | (Diverge, s') => (Diverge, s')
          end
      | Err _ => ret (WriteHeader StatusBadRequest w)
      | Panic m => panic m
      | Diverge => lift Diverge
      end
  | MethodOther => ret (WriteHeader StatusBadRequest w)
  end.

(** After an error the handler goes on, and encodes the nil slice that came with it. *)
Definition AdjustEndpointsHandler (method : Method) (request : string) (w : Response) : outcome Response :=
  match method with
  | MethodPost =>
      match decodeEndpoints request with
      | Ok pve =>
          let w := setContentType w in
          let encoded b w :=
            match encode b with None => writeBody b w | Some _ => WriteHeader StatusInternalServerError w end in
          match AdjustEndpoints domain pve with
          | Ok pve => Ok (encoded (BodyAdjusted (Some pve)) w)
          | Err _ => Ok (encoded (BodyAdjusted None) (WriteHeader StatusInternalServerError w))
          | Panic m => Panic m
          | Diverge => Diverge
          end
      | Err _ => Ok (WriteHeader StatusBadRequest w)
      | Panic m => Panic m
      | Diverge => Diverge
      end
  | _ => Ok (WriteHeader StatusBadRequest w)
  end.

Definition URLNegotiate : string := "/".
Definition URLAdjustEndpoints : string := "/adjustendpoints".
Definition URLRecords : string := "/records".

Definition NegotiateHandler (method : Method) (path : string) (w : Response) : Response :=
  if negb (path =? URLNegotiate)%string then WriteHeader StatusNotFound w
  else match method with
       | MethodGet =>
           let w := setContentType w in
           match encode (BodyFilter (GetDomainFilter domain)) with
           | None => writeBody (BodyFilter (GetDomainFilter domain)) w
           | Some _ => WriteHeader StatusInternalServerError w
           end
       | _ => WriteHeader StatusBadRequest w
       end.

(** Handler: the routes of the mux, of which that of / also gets every other path, and
    the status that the metric is labelled with. *)
Definition Handler (method : Method) (path request : string) : Go Remote (Response * Z) :=
  w <-- (if (path =? URLRecords)%string then RecordsHandler method request newResponse
         else if (path =? URLAdjustEndpoints)%string then lift (AdjustEndpointsHandler method request newResponse)
         else ret (NegotiateHandler method path newResponse)) ;;
  ret (w, statusCode w).
End Webhook.

(** ** Names *)

(** Lower-casing works rune by rune: a dot is left where it is, and no rune is lost. *)
Class LowerLaws {U : Unicode} : Prop := {
  lower_dot a b : ToLower (a +:+ String dot b) = ToLower a +:+ String dot (ToLower b);
  lower_empty s : ToLower s = "" <-> s = ""
}.

Section Names.
#[local] Set Default Proof Using "All".
Context {U : Unicode} {UL : UnicodeLaws} {LL : LowerLaws}.

(** The labels of a name. *)
Definition labels (dn : string) : list string := filter (fun part => part <> "") (Split dn dot).













(** At the domain itself, that of its mail servers for one, nothing is trimmed: the
    sub-name is the whole name rather than nothing. *)
Lemma partialRRSet_apex domain : SubName (partialRRSetFromFQDN domain domain) = canonicalize domain.
Proof.
  unfold partialRRSetFromFQDN, TrimSuffix. cbn [SubName].
  destruct (CutSuffix _ _) as [r|] eqn:E; [|done]. apply CutSuffix_spec in E.
  apply (f_equal String.length) in E. rewrite !length_app_string in E. cbn in E. lia.
Qed.
End Names.

(** ** Endpoints *)

Section Endpoints.
Context {U : Unicode}.

Lemma quoteTarget_quoted target : quoted (quoteTarget target) = true.
Proof.
  unfold quoteTarget. destruct (quoted target) eqn:E; [done|]. unfold quoted.
  rewrite HasPrefix_app. cbn [andb]. apply HasSuffix_spec. exists (quote +:+ target).
  by rewrite string_app_assoc.
Qed.

Lemma quoteTarget_idem target : quoteTarget (quoteTarget target) = quoteTarget target.
Proof. unfold quoteTarget at 1. by rewrite quoteTarget_quoted. Qed.

(** A lone quotation mark is taken for a quoted text. *)
Lemma lone_quote : quoteTarget quote = quote.
Proof. reflexivity. Qed.

Lemma ttl_small raw : - 9223372036 <= raw <= 9223372036 -> ttl raw = Z.max 3600 raw.
Proof.
  intros H. unfold ttl, underAnHour, Hour, Second. rewrite int64_id by (unfold in_int64; lia).
  destruct (Z.ltb_spec (raw * 1000000000) (3600 * 1000000000)); lia.
Qed.

(** The TTL sent for a TTL that is not negative is at least an hour and nothing else
    than the TTL or an hour; it is the larger of the two unless the TTL in nanoseconds
    overflows, some 292 years on. *)
Theorem ttl_bounds (raw : Z) :
  0 <= raw < 2 ^ 63 ->
  3600 <= ttl raw <= Z.max 3600 raw
  /\ (ttl raw = raw \/ ttl raw = 3600)
  /\ (raw <= 9223372036 -> ttl raw = Z.max 3600 raw).
Proof.
  intros H. assert (raw <= 9223372036 -> ttl raw = Z.max 3600 raw) as Hs by (intros; apply ttl_small; lia).
  destruct (Z.le_gt_cases raw 9223372036) as [Hr|Hr].
  - rewrite Hs by done. lia.
  - unfold ttl. destruct (underAnHour raw); lia.
Qed.

(** A negative TTL can wrap to more than an hour, and is then sent as it is. *)
Lemma negative_ttl_kept : ttl (-9223372037) = -9223372037.
Proof. reflexivity. Qed.

Lemma eachPointer_ok {A B} (l : list (option A)) (f : A -> outcome (option B)) r :
  eachPointer l f = Ok r ->
  exists l' bs, l = map Some l' /\ Forall2 (fun a b => f a = Ok b) l' bs /\ r = omap id bs.
Proof.
  revert r. induction l as [|p l IH]; intros r; cbn [eachPointer].
  { intros [= <-]. by exists [], []. }
  intros (a & Ha & H)%obind_ok_inv. destruct p as [a'|]; [|done]. injection Ha as ->.
  apply obind_ok_inv in H as (b & Hb & H). apply obind_ok_inv in H as (rest & Hr & [= <-]).
  destruct (IH _ Hr) as (l' & bs & -> & H2 & ->). exists (a :: l'), (b :: bs).
  split; [done|]. split; [by constructor|]. by destruct b.
Qed.

Lemma eachPointer_map {A B} (l : list A) (f : A -> outcome (option B)) (g : A -> B) :
  (forall a, a ∈ l -> f a = Ok (Some (g a))) -> eachPointer (map Some l) f = Ok (map g l).
Proof.
  induction l as [|a l IH]; intros H; [done|]. cbn [map eachPointer deref obind].
  rewrite (H a) by left. cbn [obind]. rewrite IH by (intros; apply H; by right). done.
Qed.
End Endpoints.

Section Adjust.
Context {U : Unicode}.
Variable (domain : string).

Definition isType (t : string) (e : Endpoint) : bool := (ToLower (RecordType e) =? t)%string.

(** What the provider promises of an endpoint. *)
Record adjusted (e : Endpoint) : Prop := {
  adjusted_domain : HasSuffix (DNSName e) domain = true;
  adjusted_alias : isType "alias" e = false;
  adjusted_ttl : underAnHour (RecordTTL e) = false;
  adjusted_txt : isType "txt" e = true -> Forall (fun target => quoted target = true) (Targets e)
}.

(** The parts of an endpoint that it leaves alone. *)
Definition kept (e : Endpoint) : string * string * option Labels :=
  (DNSName e, RecordType e, EndpointLabels e).

Lemma adjustEndpoint_some e e' :
  adjustEndpoint domain e = Ok (Some e') -> adjusted e' /\ kept e' = kept e.
Proof.
  unfold adjustEndpoint. fold (isType "alias" e) (isType "txt" e).
  destruct (isType "alias" e) eqn:Ea; [done|].
  destruct (HasSuffix (DNSName e) domain) eqn:Es; [|done]. cbn [negb]. intros [= <-].
  split; [|done]. split; [done|exact Ea| |]; cbn [RecordTTL Targets].
  - by destruct (underAnHour (RecordTTL e)) eqn:Et.
  - intros Ht. change (isType "txt" e = true) in Ht. rewrite Ht. apply Forall_map, Forall_forall.
    intros target _. apply quoteTarget_quoted.
Qed.

Lemma adjustEndpoint_none e : adjustEndpoint domain e = Ok None -> HasSuffix (DNSName e) domain = false.
Proof.
  unfold adjustEndpoint. destruct (ToLower (RecordType e) =? "alias")%string; [done|].
  by destruct (HasSuffix (DNSName e) domain).
Qed.

Lemma adjusted_again e : adjusted e -> adjustEndpoint domain e = Ok (Some e).
Proof.
  intros [H1 H2 H3 H4]. unfold adjustEndpoint. fold (isType "alias" e) (isType "txt" e).
  rewrite H1, H2, H3. cbn [negb].
  assert ((if isType "txt" e then map quoteTarget (Targets e) else Targets e) = Targets e) as ->.
  { destruct (isType "txt" e) eqn:Et; [|done]. specialize (H4 eq_refl).
    induction H4 as [|t l Ht _ IH]; [done|]. cbn [map]. rewrite IH. unfold quoteTarget. by rewrite Ht. }
  by destruct e.
Qed.

(** The endpoints that AdjustEndpoints returns are those below the domain, in order,
    with their names, types and labels, a TTL of an hour or more, and texts in quotation
    marks; and adjusting them again changes nothing, so that the plan of external-dns
    comes to rest. *)
Theorem AdjustEndpoints_spec (endpoints : list (option Endpoint)) (result : list Endpoint) :
  AdjustEndpoints domain endpoints = Ok result ->
  Forall adjusted result
  /\ AdjustEndpoints domain (map Some result) = Ok result
  /\ exists given, endpoints = map Some given
     /\ map kept result = map kept (filter (fun e => HasSuffix (DNSName e) domain) given).
Proof.
  intros H. apply eachPointer_ok in H as (given & bs & -> & H2 & ->).
  assert (Forall adjusted (omap id bs)) as Ha.
  { clear -H2. induction H2 as [|e b l bs Hb _ IH]; [done|]. destruct b as [e'|]; cbn; [|exact IH].
    constructor; [|exact IH]. by apply adjustEndpoint_some in Hb as []. }
  split; [exact Ha|]. split.
  - unfold AdjustEndpoints. rewrite (eachPointer_map _ _ id), map_id; [done|].
    intros e He. rewrite Forall_forall in Ha. by apply adjusted_again, Ha.
  - exists given. split; [done|]. clear Ha. induction H2 as [|e b l bs Hb _ IH]; [done|].
    destruct b as [e'|]; cbn [omap list_omap id].
    + apply adjustEndpoint_some in Hb as [[Hd _ _ _] Hk]. rewrite filter_cons_True.
      2: { injection Hk as Hk _ _. rewrite <- Hk. by rewrite Hd. }
      cbn [map]. by rewrite Hk, IH.
    + apply adjustEndpoint_none in Hb. rewrite filter_cons_False; [exact IH|]. by rewrite Hb; intros [].
Qed.
End Adjust.

(** ** The zone *)

(** The name of a set of records below a domain, as the API gives it back. *)
Definition fullName (sub domain : string) : string :=
  if (sub =? "")%string then domain +:+ "." else sub +:+ "." +:+ domain +:+ ".".

Definition keyOf (r : RRSet) : string * string := (SubName r, Type_ r).

Abbreviation Zone := (gmap (string * string) (list string * Z)).

(** The sets of a bulk request put in a zone that keeps the records of each type as
    [canonical] makes them; a set without records is removed. *)
Definition setRRSet (canonical : string -> list string -> list string) (r : RRSet) (z : Zone) : Zone :=
  match Records r with
  | [] => delete (keyOf r) z
  | _ => <[keyOf r := (canonical (Type_ r) (Records r), TTL r)]> z
  end.
Definition setRRSets (canonical : string -> list string -> list string) (l : list RRSet) (z : Zone) : Zone :=
  foldl (fun z r => setRRSet canonical r z) z l.
Definition removeRRSets (l : list RRSet) (z : Zone) : Zone :=
  foldl (fun z r => delete (keyOf r) z) z l.

(** A zone has one set for a sub-name and a type; the API stores the records of a set in
    the canonical form of their type, which need not be the text that was sent, and its TTL;
    a bulk request is done wholly or not at all, but may fail after it was done, as when its
    answer comes too late. *)
Class DesecLaws (D : DesecAPI) : Type := {
  zone : string -> Remote -> Zone;
  canonicalRecords : string -> list string -> list string;
  GetAll_law d s :
    match GetAll d s with
    | (Ok l, s') =>
        zone d s' = zone d s
        /\ forall r, r ∈ l <-> zone d s !! keyOf r = Some (Records r, TTL r)
                               /\ Name r = fullName (SubName r) d /\ Domain r = d
    | (Err _, s') => zone d s' = zone d s
    | _ => False
    end;
  BulkCreate_law d l s :
    match BulkCreate d l s with
    | (Ok _, s') => zone d s' = setRRSets canonicalRecords l (zone d s)
    | (Err _, s') => zone d s' = zone d s \/ zone d s' = setRRSets canonicalRecords l (zone d s)
    | _ => False
    end;
  BulkUpdate_law d l s :
    match BulkUpdate d l s with
    | (Ok _, s') => zone d s' = setRRSets canonicalRecords l (zone d s)
    | (Err _, s') => zone d s' = zone d s \/ zone d s' = setRRSets canonicalRecords l (zone d s)
    | _ => False
    end;
  BulkDelete_law d l s :
    match BulkDelete d l s with
    | (Ok _, s') => zone d s' = removeRRSets l (zone d s)
    | (Err _, s') => zone d s' = zone d s \/ zone d s' = removeRRSets l (zone d s)
    | _ => False
    end
}.





Section Reconcile.
Context {U : Unicode} {UL : UnicodeLaws} {LL : LowerLaws} {L : LabelSyntax} {D : DesecAPI} {DL : DesecLaws D}.
Variables (domain : string) (managedTypes : list string).










End Reconcile.
