(* ===== verification/DesecExamples.v ===== *)
(** * The deSEC webhook on concrete zones

    A zone held in a map, with the laws of the API, the witnesses of the theorems of
    Desec, and what the handlers answer. *)

From stdpp Require Import gmap.
From S2P Require Import Prelude GoStrings GoPath GoSearch Desec.
From Stdlib Require Import Strings.Ascii.
#[local] Open Scope Z_scope.
#[local] Set Warnings "-register-all,-clear-no-such-hyp".

(** Lower-casing of the ASCII letters of any text. *)
Definition byteOnly : Unicode := {|
  unicodeToLower := mapString lowerByte;
  unicodeTrimSpace := fun s => s;
  unicodeEqualFold := fun s t => (mapString lowerByte s =? mapString lowerByte t)%string
|}.

Lemma byteOnly_lower s : @ToLower byteOnly s = mapString lowerByte s.
Proof. unfold ToLower. by destruct (isASCII s). Qed.

Lemma mapString_app f s t : mapString f (s +:+ t) = mapString f s +:+ mapString f t.
Proof. induction s as [|c s IH]; [done|]. rewrite app_String. cbn [mapString]. by rewrite IH, app_String. Qed.

#[export] Instance byteOnly_laws : @UnicodeLaws byteOnly.
Proof.
  split.
  - intros s _. cbn. rewrite byteOnly_lower. apply mapString_idem, lowerByte_idem.
  - intros s E. cbn. unfold TrimSpace. by rewrite E.
  - intros s E _. cbn. unfold TrimSpace. cbn. destruct (isASCII (mapString lowerByte s)) eqn:E2; [|done].
    exfalso. unfold isASCII in *. rewrite all_mapString in E2. rewrite <- not_true_iff_false in E. apply E.
    revert E2. apply all_impl. intros c. unfold isASCIIByte.
    destruct (lowerByte_code c) as [->|[? ->]]; lia.
  - intros s c _ Hc. cbn. unfold lacks. rewrite all_mapString. apply all_impl. intros d. rewrite !eqb_code.
    destruct (lowerByte_code d) as [->|[? ->]]; lia.
  - done.
Qed.

#[export] Instance byteOnly_lowers : @LowerLaws byteOnly.
Proof.
  split.
  - intros a b. rewrite !byteOnly_lower, mapString_app. done.
  - intros s. rewrite byteOnly_lower. by destruct s.
Qed.

(** A zone. *)
Definition asRRSet (d : string) (kv : (string * string) * (list string * Z)) : RRSet :=
  mkRRSet (fullName (fst (fst kv)) d) d (fst (fst kv)) (snd (fst kv)) (fst (snd kv)) (snd (snd kv)).

(** Host names are stored in lower case. *)
Definition lowerHosts (t : string) (records : list string) : list string :=
  if (t =? "CNAME")%string then map (mapString lowerByte) records else records.

Definition heldZone : DesecAPI := {|
  Remote := gmap (string * string) (list string * Z);
  GetAll d z := (Ok (map (asRRSet d) (map_to_list z)), z);
  BulkCreate d l z := (Ok l, setRRSets lowerHosts l z);
  BulkUpdate d l z := (Ok l, setRRSets lowerHosts l z);
  BulkDelete d l z := (Ok tt, removeRRSets l z)
|}.

#[export] Instance heldZone_laws : DesecLaws heldZone.
Proof.
  refine {| zone := fun _ (z : @Remote heldZone) => z; canonicalRecords := lowerHosts |}; cbn; try done.
  intros d z. split; [done|]. intros r. split.
  - intros ([[sub ty] [recs t]] & -> & H)%list_elem_of_fmap. apply elem_of_map_to_list in H. done.
  - intros (H & Hn & Hd). apply list_elem_of_fmap. exists (keyOf r, (Records r, TTL r)).
    split; [|by apply elem_of_map_to_list]. unfold asRRSet. cbn. rewrite <- Hn. destruct r. cbn in *. by subst.
Defined.

(** No text is a label. *)
Definition noLabels : LabelSyntax := {| NewLabelsFromStringPlain _ := Err (PlainError "no labels") |}.
#[local] Existing Instances byteOnly noLabels heldZone.

Definition www : Endpoint := mkEndpoint "www.Example.com" ["192.0.2.1"] "A" 300 None.
Definition note : Endpoint := mkEndpoint "a.example.com" ["hello"] "TXT" 7200 None.
Definition other : Endpoint := mkEndpoint "www.other.com" ["192.0.2.2"] "A" 300 None.

(** [www] is left out, as the check is sensitive to case. *)
Example adjust_sample :
  AdjustEndpoints "example.com" [Some www; Some note; Some other]
  = Ok [mkEndpoint "a.example.com" [quote +:+ "hello" +:+ quote] "TXT" 7200 None].
Proof. vm_compute. reflexivity. Qed.

(** The suffix is not that of a whole label: a name of another zone passes. *)
Example neighbour_passes : exists r,
  AdjustEndpoints "example.com" [Some (mkEndpoint "notexample.com" ["192.0.2.3"] "A" 3600 None)] = Ok [r]
  /\ SubName (endpointToRRSet "example.com" r) = "notexample.com.".
Proof. eexists. split; vm_compute; reflexivity. Qed.

(** A null among the endpoints is dereferenced. *)
Example null_endpoint_panics : AdjustEndpoints "example.com" [None] = Panic nilPointer.
Proof. reflexivity. Qed.

Lemma ttl_bounds_witness : 0 <= 300 < 2 ^ 63 /\ 3600 <= ttl 300.
Proof. split; [done|]. by apply (ttl_bounds 300). Defined.

Lemma AdjustEndpoints_spec_witness :
  AdjustEndpoints "example.com" [Some www; Some note; Some other]
    = Ok [mkEndpoint "a.example.com" [quote +:+ "hello" +:+ quote] "TXT" 7200 None]
  /\ Forall (adjusted "example.com") [mkEndpoint "a.example.com" [quote +:+ "hello" +:+ quote] "TXT" 7200 None].
Proof.
  split; [apply adjust_sample|]. eapply (AdjustEndpoints_spec "example.com" [Some www; Some note; Some other]).
  apply adjust_sample.
Defined.

Definition mail : Endpoint := mkEndpoint "mail.example.com" ["192.0.2.7"] "A" 3600 None.

Definition zone0 : @Remote heldZone := ({[("old", "A") := (["192.0.2.8"], 3600)]} : Zone).



(** The targets that are read back need not be those that were sent. *)
Example targets_canonical : exists s1,
  ApplyChanges "example.com" (mkChanges [Some (mkEndpoint "w.example.com" ["Example.ORG."] "CNAME" 3600 None)] [] []) zone0 = (Ok tt, s1)
  /\ (s1 : Zone) !! ("w", "CNAME") = Some (["example.org."], 3600).
Proof. eexists. split; reflexivity. Qed.

(** ** What the webhook answers *)

Definition sampleJSON : WebhookJSON := {|
  decodeChanges s := if (s =? "changes")%string then Ok (mkChanges [Some mail] [] []) else Err (PlainError "syntax");
  decodeEndpoints s :=
    if (s =? "alias")%string then Ok [Some (mkEndpoint "a.example.com" ["b.example.com"] "ALIAS" 3600 None)]
    else Err (PlainError "syntax");
  encode _ := None
|}.
#[local] Existing Instance sampleJSON.

(** An alias is refused with 500, and then null is written all the same. *)
Example alias_answer :
  Handler "example.com" ["a"] MethodPost "/adjustendpoints" "alias" zone0
  = (Ok (mkResponse (Some 500) 500 true [BodyAdjusted None], 500), zone0).
Proof. reflexivity. Qed.

(** A negotiation is answered with 200 but counted as a status of 0, as the metric only
    knows the statuses written explicitly. *)
Example negotiation_counted :
  Handler "example.com" ["a"] MethodGet "/" "" zone0
  = (Ok (mkResponse (Some 200) 0 true [BodyFilter ["example.com"]], 0), zone0).
Proof. reflexivity. Qed.

Example changes_answer :
  Handler "example.com" ["a"] MethodPost "/records" "changes" (∅ : Zone)
  = (Ok (mkResponse (Some 204) 204 false [], 204), ({[("mail", "A") := (["192.0.2.7"], 3600)]} : Zone)).
Proof. reflexivity. Qed.
