(* ===== verification/Tmpl.v ===== *)
(** * Template strings

    lib/tmplstring: the walk over a parsed template (parse.go), the fields of the struct
    it is rendered with (reflect.go), the validation and the rendering (tmplstring.go).
    Parsing and executing templates (text/template) are the class [TemplateLang]. *)

From stdpp Require Import gmap.
From S2P Require Import Prelude GoStrings.
#[local] Set Warnings "-register-all,-clear-no-such-hyp".

Definition ErrNotStruct : error :=
  PlainError "provided type is not a struct. only structs are supported".
Definition ErrMissingField : error := PlainError "expression references missing field".

(** The nodes of text/template/parse: a pipeline is a list of commands, a command a list
    of arguments. *)
Inductive Arg : Type :=
| FieldNode (Ident : list string)
| OtherArg (text : string).

Abbreviation Pipe := (list (list Arg)).

Inductive Node : Type :=
| TextNode (text : string)
| ActionNode (pipe : Pipe)
| ListNode (nodes : list Node)
| IfNode (pipe : Pipe) (body : Node) (elseList : option Node)
| RangeNode (pipe : Pipe) (body : Node) (elseList : option Node)
| WithNode (pipe : Pipe) (body : Node) (elseList : option Node)
| OtherNode (text : string).

(** Types, as reflection shows them: a struct has fields, exported or not. *)
Inductive GoType : Type :=
| Struct (fields : list (string * bool * GoType))
| NoStruct (kind : string).

(** ** parse.go *)

Definition firstIdent (a : Arg) : gset string :=
  match a with FieldNode (f :: _) => {[f]} | _ => ∅ end.

Definition exprsInPipe (p : Pipe) : gset string :=
  union_list (map (fun c => union_list (map firstIdent c)) p).

Fixpoint exprsInTemplate (n : Node) : gset string :=
  let inElse (e : option Node) := match e with Some m => exprsInTemplate m | None => ∅ end in
  match n with
  | ActionNode p => exprsInPipe p
  | ListNode ns => union_list (map exprsInTemplate ns)
  | IfNode _ b e => exprsInTemplate b ∪ inElse e
  | RangeNode _ b e => exprsInTemplate b ∪ inElse e
  | WithNode _ b e => exprsInTemplate b ∪ inElse e
  | TextNode _ | OtherNode _ => ∅
  end.

(** ** reflect.go *)

Fixpoint fieldsInStructHelper (t : GoType) : list string :=
  match t with
  | NoStruct _ => []
  | Struct fs =>
      concat (map (fun '(name, exported, u) =>
        if (exported : bool)
        then name :: map (fun sub => name +:+ "." +:+ sub) (fieldsInStructHelper u)
        else []) fs)
  end.

Definition fieldsInStruct (t : GoType) : outcome (list string) :=
  match t with Struct _ => Ok (fieldsInStructHelper t) | NoStruct _ => Err ErrNotStruct end.

(** ** tmplstring.go *)

Class TemplateLang : Type := {
  Params : Type;
  paramsType : GoType;
  fieldValue : Params -> string -> option string;
  Parse : string -> outcome Node;
  Execute : Node -> Params -> outcome string
}.

(** What text/template documents of texts, sequences, and the field of the parameter, for
    a field of its type that holds a string. *)
Class TemplateLaws (T : TemplateLang) : Prop := {
  Execute_ends n p : ends (Execute n p);
  Execute_text s p : Execute (TextNode s) p = Ok s;
  Execute_list ns p :
    Execute (ListNode ns) p
    = foldr (fun n r => s <-? Execute n p ;; t <-? r ;; Ok (s +:+ t)) (Ok "") ns;
  Execute_field f p v : fieldValue p f = Some v -> Execute (ActionNode [[FieldNode [f]]]) p = Ok v
}.

Section TMPL.
Context {T : TemplateLang}.

Record TMPL : Type := mkTMPL { tmpl : Node }.

Definition NewTMPL (str : string) : outcome TMPL :=
  match Parse str with
  | Ok root =>
      match fieldsInStruct paramsType with
      | Ok fields =>
          let expressions := exprsInTemplate root ∖ list_to_set fields in
          match elements expressions with
          | [] => Ok (mkTMPL root)
          | es =>
              Err (Errorf "error while validating string template: %w"
                     (map (fun _ => Errorf "invalid expression %q: %w" [ErrMissingField]) es))
          end
      | Err e => Err (Errorf "error while gathering fields from parameter struct: %w" [e])
      | Panic m => Panic m
      | Diverge => Diverge
      end
  | Err e => Err (Errorf "error while parsing string template: %w" [e])
  | Panic m => Panic m
  | Diverge => Diverge
  end.

Definition Render (t : TMPL) (params : Params) : outcome string :=
  match Execute (tmpl t) params with
  | Err e => Err (Errorf "could not execute templated string: %w" [e])
  | r => r
  end.

(** ** What is validated *)

Lemma Render_ends {TL : TemplateLaws T} t params : ends (Render t params).
Proof. unfold Render. pose proof (Execute_ends (tmpl t) params). by destruct (Execute _ _). Qed.

(** A template is accepted exactly when it parses, its parameter is a struct, and the
    first identifiers of the fields in its actions are fields of that struct. *)
Lemma NewTMPL_accepts str t :
  NewTMPL str = Ok t <->
  Parse str = Ok (tmpl t)
  /\ exists fs, paramsType = Struct fs
     /\ forall f, f ∈ exprsInTemplate (tmpl t) -> f ∈ fieldsInStructHelper (Struct fs).
Proof.
  unfold NewTMPL. destruct (Parse str) as [root|e|m|] eqn:EP.
  2-4: split; [done|by intros [? _]].
  destruct paramsType as [fs|k] eqn:ET; cbn [fieldsInStruct].
  2: { split; [done|]. by intros (_ & fs & ? & _). }
  destruct (elements (exprsInTemplate root ∖ list_to_set (fieldsInStructHelper (Struct fs)))) eqn:EE.
  - apply elements_empty_inv in EE. split.
    + intros [= <-]. split; [done|]. exists fs. split; [done|]. cbn [tmpl].
      intros f Hf. destruct (decide (f ∈ fieldsInStructHelper (Struct fs))) as [H|H]; [done|].
      set_solver.
    + intros ([= ->] & fs' & [= <-] & _). by destruct t.
  - split; [done|]. intros ([= ->] & fs' & [= <-] & H). exfalso.
    assert (s ∈ elements (exprsInTemplate (tmpl t) ∖ list_to_set (fieldsInStructHelper (Struct fs)))) as Hs
      by (rewrite EE; by left).
    apply elem_of_elements, elem_of_difference in Hs as [H1 H2]. apply H2, elem_of_list_to_set, H, H1.
Qed.

(** The templates of texts and fields: no conditions, loops, functions or nested fields. *)
Inductive piece : Node -> Prop :=
| piece_text s : piece (TextNode s)
| piece_field f : piece (ActionNode [[FieldNode [f]]]).

Definition pieceValue (p : Params) (n : Node) : string :=
  match n with
  | TextNode s => s
  | ActionNode [[FieldNode [f]]] => default "" (fieldValue p f)
  | _ => ""
  end.

(** Such a template that was accepted always renders, to its texts with the very values
    of the fields between them: nothing is escaped. *)
Lemma Render_pieces {TL : TemplateLaws T} str ns p :
  Forall piece ns -> NewTMPL str = Ok (mkTMPL (ListNode ns)) ->
  (forall f, f ∈ fieldsInStructHelper paramsType -> is_Some (fieldValue p f)) ->
  Render (mkTMPL (ListNode ns)) p = Ok (Join (map (pieceValue p) ns) "").
Proof.
  intros Hn (_ & fs & ET & Hf)%NewTMPL_accepts Hv. unfold Render. cbn [tmpl] in *.
  rewrite Execute_list. rewrite <- ET in Hf. clear ET.
  assert (foldr (fun n r => s <-? Execute n p ;; t <-? r ;; Ok (s +:+ t)) (Ok "") ns
          = Ok (Join (map (pieceValue p) ns) "")) as ->; [|done].
  induction Hn as [|n ns Hn Hns IH]; [done|]. cbn [foldr].
  assert (Execute n p = Ok (pieceValue p n)) as ->.
  { destruct Hn as [s|f]; [apply Execute_text|].
    destruct (Hv f) as [v Ev]; [apply Hf; cbn; set_solver|]. cbn. rewrite Ev. by apply Execute_field. }
  cbn [obind]. rewrite IH by (intros f H; apply Hf; cbn in *; set_solver). cbn [obind map].
  f_equal. destruct ns; cbn; [by rewrite string_app_nil|done].
Qed.
End TMPL.
