(* ===== verification/LdapClient.v ===== *)
(** * The LDAP client

    lib/ldap: finding, listing and mapping the users of a directory (find.go, user.go),
    authenticating them (client.go), changing their passwords (passwd.go), and the
    construction of a client (factory.go).  The connections (go-ldap) and the pool they
    come from are the class [DirConn]; the pool itself is in LdapPool. *)

From stdpp Require Import base list strings.
From S2P Require Import Prelude GoStrings GoSearch Tmpl.
#[local] Open Scope Z_scope.
#[local] Set Warnings "-register-all,-clear-no-such-hyp".

Definition ErrUserNotFound : error := PlainError "user not found".
Definition ErrTooManyMatches : error := PlainError "too many matches for user search".
(** Errors are told apart by their text: the name of the package tells this one from
    those of lib/httpauth and lib/webauth. *)
Definition ErrInvalidCredentials : error := PlainError "ldap: invalid credentials".
Definition ErrNotMatchingUsername : error := PlainError "username doesn't match".
Definition ErrUnexpectedGeneratedPassword : error :=
  PlainError "LDAP server unexpectedly returned a generated password".

(** A search of a whole subtree for the entries that match a filter. *)
Record SearchRequest : Type := mkSearch { BaseDN : string; Filter : string }.

Class DirConn : Type := {
  World : Type;
  Conn : Type;
  Entry : Type;
  EntryDN : Entry -> string;
  GetAttributeValue : Entry -> string -> string;
  GetAttributeValues : Entry -> string -> list string;
  poolGet : Go World Conn;
  SimpleBind : Conn -> string -> string -> Go World unit;
  Search : Conn -> SearchRequest -> Go World (list Entry);
  (** The password that the server generated. *)
  PasswordModify : Conn -> string -> string -> string -> Go World string;
  CloseConn : Conn -> Go World unit
}.

Record User : Type := mkUser {
  DN : string;
  Username : string;
  Firstname : string;
  Lastname : string;
  Mail : string;
  Home : string;
  Groups : list string;
  Accesses : list string;
  UID : Z;
  GID : Z;
  Admin : bool
}.

Definition filterDN (dns : list string) (suffix : string) : list string :=
  filter (fun dn => HasSuffix dn suffix) dns.

Section Client.
Context {C : DirConn} {T : TemplateLang}.

(** The fields of [Factory] that its clients share. *)
Record Factory : Type := mkFactory {
  rootDN : string;
  rootPasswd : string;
  usersDN : string;
  usersFilter : TMPL;
  groupsDN : string;
  adminGroupDN : string;
  accessesDN : string
}.

(** [filterTemplateValues] *)
Variable (withUsername : string -> Params).
Variable (f : Factory).

(** A client: its connection, and in its state whether it met an error. *)
Record Client : Type := mkClient { world : World; errored : bool }.

Definition onWorld {A} (m : Go World A) : Go Client A :=
  fun c => let (r, w) := m (world c) in (r, mkClient w (errored c)).

Definition setErrored : Go Client unit := modify (fun c => mkClient (world c) true).

(** An error of [m] is also noted. *)
Definition noting {A} (m : Go Client A) : Go Client A :=
  fun c => match m c with (Err e, c') => (Err e, mkClient (world c') true) | r => r end.

(** ** find.go *)

Definition find (conn : Conn) (username : string) : Go Client Entry :=
  filter <-- wrapf "error while rendering user filter template: %w" []
               (lift (Render (usersFilter f) (withUsername username))) ;;
  entries <-- wrapf "error while performing search for user: %w" []
                (onWorld (Search conn (mkSearch (usersDN f) filter))) ;;
  match entries with
  | [] => fail ErrUserNotFound
  | [entry] =>
      if (username =? GetAttributeValue entry "cn")%string then ret entry
      else fail (Errorf "expected %q for username, but got %q: %w" [ErrNotMatchingUsername])
  | _ => fail ErrTooManyMatches
  end.

Definition list_ (conn : Conn) : Go Client (list Entry) :=
  filter <-- wrapf "error while rendering user filter template: %w" []
               (lift (Render (usersFilter f) (withUsername "*"))) ;;
  wrapf "error while performing search for user: %w" []
    (onWorld (Search conn (mkSearch (usersDN f) filter))).

(** ** user.go *)

Definition wrapOutcome {A} (msg : string) (o : outcome A) : outcome A :=
  match o with Err e => Err (Errorf msg [e]) | r => r end.

Definition mapUser (entry : Entry) : outcome User :=
  uid <-? wrapOutcome "error while parsing uid: %w" (Atoi (GetAttributeValue entry "uidnumber")) ;;
  gid <-? wrapOutcome "error while parsing gid: %w" (Atoi (GetAttributeValue entry "gidnumber")) ;;
  let memberof := GetAttributeValues entry "memberof" in
  Ok (mkUser (EntryDN entry) (GetAttributeValue entry "cn") (GetAttributeValue entry "givenname")
        (GetAttributeValue entry "sn") (GetAttributeValue entry "mail")
        (GetAttributeValue entry "homedirectory")
        (filterDN memberof (groupsDN f)) (filterDN memberof (accessesDN f)) uid gid
        (bool_decide (adminGroupDN f ∈ memberof))).

Fixpoint mapUsers (entries : list Entry) : outcome (list User) :=
  match entries with
  | [] => Ok []
  | entry :: entries' =>
      user <-? wrapOutcome "error while mapping user %s: %w" (mapUser entry) ;;
      users <-? mapUsers entries' ;;
      Ok (user :: users)
  end.

Definition Users (conn : Conn) : Go Client (list User) :=
  noting (entries <-- wrapf "error while listing all users: %w" [] (list_ conn) ;;
          lift (mapUsers entries)).

Definition Client_User (conn : Conn) (username : string) : Go Client User :=
  noting (entry <-- wrapf "error while looking up user: %w" [] (find conn username) ;;
          lift (mapUser entry)).

(** ** client.go *)

Definition Authenticate (conn : Conn) (username password : string) : Go Client User :=
  entry <-- noting (wrapf "error while looking up user for bind: %w" [] (find conn username)) ;;
  wrapf "error while binding as %q: %w, likely %w" [ErrInvalidCredentials]
    (onWorld (SimpleBind conn (EntryDN entry) password)) ;;;
  lift (mapUser entry).

(** The error of closing is only logged. *)
Definition Close (conn : Conn) : Go Client unit :=
  fun c => match onWorld (CloseConn conn) c with (Err _, c') => (Ok tt, c') | r => r end.

(** ** passwd.go *)

Definition Passwd (conn : Conn) (username password : string) : Go Client unit :=
  entry <-- wrapf "error while looking up user: %w" [] (find conn username) ;;
  generated <-- wrapf "error while modifying user password: %w" []
                  (onWorld (PasswordModify conn (EntryDN entry) "" password)) ;;
  if negb (generated =? "")%string then fail ErrUnexpectedGeneratedPassword else ret tt.

(** ** factory.go *)

Definition NewClient : Go World Conn :=
  conn <-- wrapf "could not enstablish a connection to the LDAP server: %w" [] poolGet ;;
  wrapf "error while binding as root: %w" [] (SimpleBind conn (rootDN f) (rootPasswd f)) ;;;
  ret conn.

(** A client is made, used, and closed. *)
Definition withClient {A} (use : Conn -> Go Client A) : Go World A :=
  conn <-- NewClient ;;
  fun w =>
    match use conn (mkClient w false) with
    | (Diverge, c) => (Diverge, world c)
    | (r, c) => match Close conn c with
                | (Ok _, c') => (r, world c')
                | (Panic m, c') => (Panic m, world c')
                | (Err e, c') => (Err e, world c')
                | (Diverge, c') => (Diverge, world c')
                end
    end.
End Client.

(** ** What a client finds *)

(** The directory as the root user sees it: the entries that a search finds, the
    passwords that a bind accepts, and how many connections are held.  None of the
    operations of a client but PasswordModify changes it; any can fail. *)
Class DirLaws (C : DirConn) : Type := {
  entriesOf : World -> SearchRequest -> list Entry;
  accepts : World -> string -> string -> Prop;
  openConns : World -> Z;
  sameDir : World -> World -> Prop :=
    fun w w' => entriesOf w' = entriesOf w /\ accepts w' = accepts w;
  poolGet_law w :
    match poolGet w with
    | (Ok _, w') => sameDir w w' /\ openConns w' = openConns w + 1
    | (Err _, w') => sameDir w w' /\ openConns w' = openConns w
    | _ => False
    end;
  Search_law conn req w :
    match Search conn req w with
    | (Ok l, w') => l = entriesOf w req /\ sameDir w w' /\ openConns w' = openConns w
    | (Err _, w') => sameDir w w' /\ openConns w' = openConns w
    | _ => False
    end;
  (** AllowEmptyPassword is false. *)
  SimpleBind_law conn dn passwd w :
    match SimpleBind conn dn passwd w with
    | (Ok _, w') => accepts w dn passwd /\ passwd <> "" /\ sameDir w w' /\ openConns w' = openConns w
    | (Err _, w') => sameDir w w' /\ openConns w' = openConns w
    | _ => False
    end;
  (** A change of password, of that of one entry. *)
  PasswordModify_law conn dn old new w :
    match PasswordModify conn dn old new w with
    | (Ok generated, w') =>
        entriesOf w' = entriesOf w /\ openConns w' = openConns w
        /\ (forall dn' p, dn' <> dn -> accepts w' dn' p <-> accepts w dn' p)
        /\ (generated = "" -> forall p, accepts w' dn p <-> p = new)
    | (Err _, w') =>
        entriesOf w' = entriesOf w /\ openConns w' = openConns w
        /\ (forall dn' p, dn' <> dn -> accepts w' dn' p <-> accepts w dn' p)
    | _ => False
    end;
  (** A connection is closed even when closing it reports an error. *)
  CloseConn_law conn w :
    match CloseConn conn w with
    | (Ok _, w') | (Err _, w') => sameDir w w' /\ openConns w' = openConns w - 1
    | _ => False
    end
}.

Section ClientSpec.
Context {C : DirConn} {DL : DirLaws C} {T : TemplateLang} {TL : TemplateLaws T}.
Variables (withUsername : string -> Params) (f : Factory).

(** A step that leaves the directory and the connections alone. *)
Definition calm (w w' : World) : Prop := sameDir w w' /\ openConns w' = openConns w.

#[export] Instance calm_preorder : PreOrder calm.
Proof using Type.
  split.
  - by intros w.
  - intros w1 w2 w3 [[H1 H2] H3] [[H4 H5] H6].
    split; [split; [by rewrite H4, H1|by rewrite H5, H2]|by rewrite H6, H3].
Qed.

Lemma find_spec conn username c :
  match find withUsername f conn username c with
  | (Ok entry, c') =>
      (exists fil, Render (usersFilter f) (withUsername username) = Ok fil
         /\ entriesOf (world c) (mkSearch (usersDN f) fil) = [entry])
      /\ GetAttributeValue entry "cn" = username /\ calm (world c) (world c') /\ errored c' = errored c
  | (Err _, c') => calm (world c) (world c') /\ errored c' = errored c
  | _ => False
  end.
Proof using TL.
  unfold find, bind at 1, wrapf at 1, lift.
  pose proof (Render_ends (usersFilter f) (withUsername username)) as HE.
  destruct (Render _ _) as [fil|e|m|] eqn:ER; try done.
  unfold bind, wrapf, onWorld. pose proof (Search_law conn (mkSearch (usersDN f) fil) (world c)) as HS.
  destruct (Search _ _ _) as [[l|e|m|] w']; cbn [world errored]; try done.
  destruct HS as (-> & HS). destruct (entriesOf _ _) as [|entry [|e2 l]] eqn:EL; cbn; try done.
  destruct (String.eqb_spec username (GetAttributeValue entry "cn")) as [E|E]; [|done].
  split; [by exists fil|]. by rewrite E.
Qed.

Lemma mapUser_ends entry : ends (mapUser f entry).
Proof using Type.
  clear DL TL withUsername. unfold mapUser, wrapOutcome. pose proof (Atoi_ends (GetAttributeValue entry "uidnumber")) as H1.
  pose proof (Atoi_ends (GetAttributeValue entry "gidnumber")) as H2.
  by destruct (Atoi (GetAttributeValue entry "uidnumber")), (Atoi (GetAttributeValue entry "gidnumber")).
Qed.

(** Who the user of an entry is. *)
Lemma mapUser_spec entry user :
  mapUser f entry = Ok user ->
  DN user = EntryDN entry /\ Username user = GetAttributeValue entry "cn"
  /\ (Admin user = true <-> adminGroupDN f ∈ GetAttributeValues entry "memberof")
  /\ (forall g, g ∈ Groups user <-> g ∈ GetAttributeValues entry "memberof" /\ HasSuffix g (groupsDN f) = true)
  /\ in_int64 (UID user) /\ in_int64 (GID user).
Proof using Type.
  clear DL TL withUsername. unfold mapUser. intros (uid & Hu & H)%obind_ok_inv. apply obind_ok_inv in H as (gid & Hg & [= <-]). cbn.
  split; [done|]. split; [done|]. split; [apply bool_decide_eq_true|]. split.
  - intros g. unfold filterDN. rewrite list_elem_of_filter, Is_true_true. tauto.
  - unfold wrapOutcome in *. destruct (Atoi _) eqn:E1 in Hu; try done. destruct (Atoi _) eqn:E2 in Hg; try done.
    injection Hu as ->. injection Hg as ->. split; by eapply Atoi_range.
Qed.

Lemma Authenticate_spec conn username password c :
  match Authenticate withUsername f conn username password c with
  | (Ok user, c') =>
      (exists fil entry, Render (usersFilter f) (withUsername username) = Ok fil
         /\ entriesOf (world c) (mkSearch (usersDN f) fil) = [entry]
         /\ GetAttributeValue entry "cn" = username
         /\ accepts (world c) (EntryDN entry) password /\ password <> ""
         /\ mapUser f entry = Ok user)
      /\ calm (world c) (world c')
  | (Err _, c') => calm (world c) (world c')
  | _ => False
  end.
Proof using TL.
  unfold Authenticate, bind, noting, wrapf. pose proof (find_spec conn username c) as HF.
  destruct (find _ _ _ _ c) as [[entry|e|m|] c1]; try done; [|by destruct HF].
  destruct HF as ((fil & HR & HE) & Hcn & HW & _). unfold onWorld.
  pose proof (SimpleBind_law conn (EntryDN entry) password (world c1)) as HB.
  destruct (SimpleBind _ _ _ _) as [[u|e|m|] w2]; cbn [world]; try done; [|by etrans; [exact HW|]].
  destruct HB as (Ha & Hp & HB). unfold lift.
  assert (calm (world c) w2) as H2 by by etrans; [exact HW|].
  pose proof (mapUser_ends entry) as HM. destruct (mapUser f entry) as [user|e|m|] eqn:EM; try done.
  split; [|done]. exists fil, entry. destruct HW as [[_ HA] _]. rewrite HA in Ha. done.
Qed.

(** A change of password reaches the entry whose name is exactly the user's, whatever
    the template makes of it, and after a success only the new password is accepted. *)
Lemma Passwd_spec conn username password c :
  match Passwd withUsername f conn username password c with
  | (Ok _, c') =>
      exists fil entry, Render (usersFilter f) (withUsername username) = Ok fil
        /\ entriesOf (world c) (mkSearch (usersDN f) fil) = [entry]
        /\ GetAttributeValue entry "cn" = username
        /\ (forall p, accepts (world c') (EntryDN entry) p <-> p = password)
        /\ (forall dn p, dn <> EntryDN entry -> accepts (world c') dn p <-> accepts (world c) dn p)
  | (Err _, c') =>
      calm (world c) (world c')
      \/ exists entry, GetAttributeValue entry "cn" = username
           /\ forall dn p, dn <> EntryDN entry -> accepts (world c') dn p <-> accepts (world c) dn p
  | _ => False
  end.
Proof using TL.
  unfold Passwd, bind, wrapf. pose proof (find_spec conn username c) as HF.
  destruct (find _ _ _ _ c) as [[entry|e|m|] c1]; try done; [|by left; destruct HF].
  destruct HF as ((fil & HR & HE) & Hcn & [[_ HA] _] & _). unfold onWorld.
  pose proof (PasswordModify_law conn (EntryDN entry) "" password (world c1)) as HP.
  destruct (PasswordModify _ _ _ _ _) as [[g|e|m|] w2]; cbn [world]; try done.
  - destruct HP as (_ & _ & HP1 & HP2). destruct (String.eqb_spec g "") as [Eg|Eg]; cbn.
    + exists fil, entry. do 3 (split; [done|]). split; [by apply HP2|].
      intros dn p Hn. rewrite <- HA. by apply HP1.
    + right. exists entry. split; [done|]. intros dn p Hn. rewrite <- HA. by apply HP1.
  - right. exists entry. split; [done|]. intros dn p Hn. rewrite <- HA. by apply HP.
Qed.

(** Whatever a client did, its connection is closed in the end; but when the bind as
    the root user failed, the connection from the pool is never closed. *)
Lemma withClient_spec {A} (use : Conn -> Go Client A) (P : A -> Prop) w :
  (forall conn c, sameDir w (world c) ->
     match use conn c with
     | (Ok a, c') => P a /\ calm (world c) (world c')
     | (Err _, c') => calm (world c) (world c')
     | _ => False
     end) ->
  match withClient f use w with
  | (Ok a, w') => P a /\ calm w w'
  | (Err e, w') => sameDir w w'
      /\ (openConns w' = openConns w
          \/ openConns w' = openConns w + 1 /\ exists e', e = Errorf "error while binding as root: %w" [e'])
  | _ => False
  end.
Proof using Type.
  intros HU. unfold withClient, NewClient, bind, wrapf. pose proof (poolGet_law w) as HG.
  destruct (poolGet w) as [[conn|e|m|] w1]; try done; [|destruct HG; split; [done|by left]].
  destruct HG as [HG HO]. pose proof (SimpleBind_law conn (rootDN f) (rootPasswd f) w1) as HB.
  destruct (SimpleBind _ _ _ _) as [[u|e|m|] w2]; try done.
  2: { destruct HB as [HB1 HB2]. split.
       - destruct HG as [H1 H2], HB1 as [H3 H4]. split; congruence.
       - right. split; [lia|by exists e]. }
  destruct HB as (_ & _ & HB1 & HB2). cbn [ret].
  assert (sameDir w w2) as HD by (destruct HG as [H1 H2], HB1 as [H3 H4]; split; congruence).
  specialize (HU conn (mkClient w2 false) HD). cbn [world] in HU.
  assert (forall c w', calm w2 (world c) -> sameDir (world c) w' /\ openConns w' = openConns (world c) - 1 -> calm w w') as HW.
  { intros c w' [[H1 H2] H3] [[H4 H5] H6]. destruct HD as [H7 H8]. split; [split; congruence|lia]. }
  destruct (use conn _) as [r c]. unfold Close, onWorld. pose proof (CloseConn_law conn (world c)) as HC.
  destruct r as [a|e|m|]; try done;
    destruct (CloseConn conn (world c)) as [[[]|e'|m'|] w3]; try done; cbn [world].
  - destruct HU as [HP HU]. split; [done|]. by eapply HW.
  - destruct HU as [HP HU]. split; [done|]. by eapply HW.
  - destruct (HW c w3 HU HC) as [? ?]. split; [done|by left].
  - destruct (HW c w3 HU HC) as [? ?]. split; [done|by left].
Qed.
End ClientSpec.
