(* ===== verification/HttpAuth.v ===== *)
(** * Authentication over HTTP

    lib/httpauth: authentication against the directory (httpauth.go), basic credentials
    (basic.go), cookies with signed tokens (jwt.go); lib/webauth: logging in and out
    (login.go, logout.go).  Tokens (golang-jwt) are the class [JWT]; time is in
    nanoseconds and given to what reads the clock. *)

From stdpp Require Import base list strings.
From S2P Require Import Prelude GoStrings GoSearch Tmpl LdapClient.
#[local] Open Scope Z_scope.
#[local] Set Warnings "-register-all,-clear-no-such-hyp".

(** The errors of the same text of the three packages are told apart by the package. *)
Definition ErrInvalidCredentials : error := PlainError "httpauth: invalid credentials".
Definition ErrMissingCredentials : error := PlainError "missing credentials".
Definition webauth_ErrInvalidCredentials : error := PlainError "webauth: invalid credentials".
Definition ErrBadRequest : error := PlainError "bad request".
Definition nilPointer : string := "invalid memory address or nil pointer dereference".

Definition Is (e target : error) : bool :=
  match target with PlainError t => isError t e | _ => false end.

Definition StatusUnauthorized : Z := 401.
Definition StatusInternalServerError : Z := 500.
Definition StatusFound : Z := 302.

Record Auth : Type := mkAuth { ExpiresAt : option Z; AuthUsername : string; AuthAdmin : bool }.

(** What the handlers read of a request: the credentials of its header, its cookies, and
    what the middlewares put in its context. *)
Record Request : Type := mkRequest {
  BasicAuth : option (string * string);
  cookies : list (string * string);
  authContext : option Auth;
  basicAuthErr : option error
}.

Definition withAuth (auth : Auth) (r : Request) : Request :=
  mkRequest (BasicAuth r) (cookies r) (Some auth) (basicAuthErr r).
Definition withAuthErr (e : error) (r : Request) : Request :=
  mkRequest (BasicAuth r) (cookies r) (authContext r) (Some e).

Definition GetAuth (r : Request) : option Auth := authContext r.

(** [http.Error], with the header that asks for credentials or without. *)
Record Reply : Type := mkReply { code : Z; askCredentials : bool }.

Definition authFromUser (user : User) (expiresAt : option Z) : Auth :=
  mkAuth expiresAt (Username user) (Admin user).

Section HttpAuth.
Context {C : DirConn} {T : TemplateLang}.
Variables (withUsername : string -> Params) (factory : Factory).

Abbreviation Handler := (Request -> Go World Reply).

(** What [authenticate] does with its client. *)
Definition authenticateWith (username password : string) (conn : Conn) : Go Client User := fun c =>
  match Authenticate withUsername factory conn username password c with
  | (Err e, c') =>
      (Err (if Is e LdapClient.ErrInvalidCredentials then ErrInvalidCredentials else e), c')
  | r => r
  end.

Definition authenticate (username password : string) : Go World User :=
  withClient factory (authenticateWith username password).

(** ** basic.go *)

Definition DefaultBasicAuthErrorHandler : Handler := fun r =>
  match basicAuthErr r with
  | Some err =>
      if Is err LdapClient.ErrInvalidCredentials then ret (mkReply StatusUnauthorized true)
      else ret (mkReply StatusInternalServerError false)
  | None => ret (mkReply StatusInternalServerError false)
  end.

Definition BasicAuth_Middleware (errorHandler next : Handler) : Handler := fun r w =>
  match BasicAuth r with
  | Some (username, password) =>
      if (username =? "")%string then next r w
      else
        match authenticate username password w with
        | (Ok user, w') => next (withAuth (authFromUser user None) r) w'
        | (Err err, w') => errorHandler (withAuthErr err r) w'
        | (Panic m, w') => (Panic m, w')
        | (Diverge, w') => (Diverge, w')
        end
  | None => next r w
  end.

Definition Required (next : Handler) : Handler := fun r =>
  match GetAuth r with
  | None => ret (mkReply StatusUnauthorized true)
  | Some _ => next r
  end.
End HttpAuth.

(** ** jwt.go *)

Definition cookieName : string := "teapot-auth".

(** The claims of a token ([jwtAuth]). *)
Record Claims : Type := mkClaims {
  Issuer : string;
  Subject : string;
  ClaimsExpiresAt : option Z;
  NotBefore : option Z;
  IssuedAt : option Z;
  ClaimsAdmin : bool
}.

Class JWT : Type := {
  NewNumericDate : Z -> Z;
  SignedString : Claims -> string -> outcome string;
  ParseWithClaims : string -> string -> Z -> outcome Claims
}.

Record JWTAuth : Type := mkJWTAuth {
  secret : string;
  issuer : string;
  duration : Z;
  prefix : string;
  secure : bool
}.

Record Cookie : Type := mkCookie {
  Name : string;
  Value : string;
  Path : string;
  Expires : option Z;
  Secure : bool;
  HttpOnly : bool
}.

(** [r.Cookie]: the first of that name. *)
Definition requestCookie (name : string) (r : Request) : option string :=
  snd <$> List.find (fun c => (fst c =? name)%string) (cookies r).

Section JWTAuthSection.
Context {C : DirConn} {T : TemplateLang} {J : JWT}.
Variables (withUsername : string -> Params) (factory : Factory) (ja : JWTAuth).

Abbreviation Handler := (Request -> Go World Reply).

Definition checkAuthCookie (now : Z) (r : Request) : outcome (option Claims) :=
  match requestCookie cookieName r with
  | None => Ok None
  | Some value =>
      if (value =? "")%string then Ok None
      else match ParseWithClaims value (secret ja) now with
           | Ok claims => Ok (Some claims)
           | Err _ => Ok None
           | Panic m => Panic m
           | Diverge => Diverge
           end
  end.

Definition JWTAuth_Middleware (now : Z) (next : Handler) : Handler := fun r =>
  claims <-- lift (checkAuthCookie now r) ;;
  match claims with
  | Some claims =>
      if (Issuer claims =? issuer ja)%string then
        match ClaimsExpiresAt claims with
        | Some t => next (withAuth (mkAuth (Some t) (Subject claims) (ClaimsAdmin claims)) r)
        | None => panic nilPointer
        end
      else next r
  | None => next r
  end.

Definition authCookie (now : Z) (username : string) (admin : bool) : outcome Cookie :=
  let expiry := now + duration ja in
  let claims := mkClaims (issuer ja) username (Some (NewNumericDate expiry))
                  (Some (NewNumericDate now)) (Some (NewNumericDate now)) admin in
  match SignedString claims (secret ja) with
  | Ok ss => Ok (mkCookie cookieName ss (prefix ja) (Some expiry) (secure ja) true)
  | Err e => Err (Errorf "error while signing JWT for %q: %w" [e])
  | Panic m => Panic m
  | Diverge => Diverge
  end.

Definition JWTAuth_Authenticate (now : Z) (username password : string) : Go World (Cookie * Auth) :=
  user <-- authenticate withUsername factory username password ;;
  cookie <-- wrapf "error while generating JWT cookie: %w" [] (lift (authCookie now (Username user) (Admin user))) ;;
  ret (cookie, mkAuth None (Username user) (Admin user)).

Definition DeAuthenticate : Cookie := mkCookie cookieName "" (prefix ja) None (secure ja) true.

(** ** lib/webauth *)

Inductive Method : Type := MethodGet | MethodPost | MethodOther.

(** What a page answers: itself, an error panel with a status, a redirection, or an
    error, and the cookie that it sets. *)
Inductive Outcome : Type :=
| Page
| LoginError (status : Z) (e : error)
| Redirect (url : string) (status : Z)
| Failed (internal : bool) (e : error).

Variables (loginPath : string) (returnPath : Auth -> string).

Definition Login (now : Z) (method : Method) (username password : string) (r : Request)
    : Go World (option Cookie * Outcome) := fun w =>
  match method with
  | MethodPost =>
      if ((username =? "") || (password =? ""))%string
      then (Ok (None, LoginError StatusUnauthorized ErrMissingCredentials), w)
      else
        match JWTAuth_Authenticate now username password w with
        | (Ok (cookie, auth), w') => (Ok (Some cookie, Redirect (returnPath auth) StatusFound), w')
        | (Err err, w') =>
            if Is err ErrInvalidCredentials
            then (Ok (None, LoginError StatusUnauthorized webauth_ErrInvalidCredentials), w')
            else (Ok (None, Failed true err), w')
        | (Panic m, w') => (Panic m, w')
        | (Diverge, w') => (Diverge, w')
        end
  | MethodGet =>
      match GetAuth r with
      | Some auth => (Ok (None, Redirect (returnPath auth) StatusFound), w)
      | None => (Ok (None, Page), w)
      end
  | MethodOther => (Ok (None, Failed false (Errorf "invalid method %q: %w" [ErrBadRequest])), w)
  end.

Definition Logout (method : Method) (r : Request) : option Cookie * Outcome :=
  match method with
  | MethodGet =>
      (match GetAuth r with Some _ => Some DeAuthenticate | None => None end, Redirect loginPath StatusFound)
  | _ => (None, Failed false (Errorf "invalid method %q: %w" [ErrBadRequest]))
  end.
End JWTAuthSection.

(** ** Who is let in *)

Definition Second : Z := 1000000000.

(** A token is alive from its first to its last moment. *)
Definition alive (now : Z) (c : Claims) : Prop :=
  (forall t, ClaimsExpiresAt c = Some t -> now < t) /\ (forall t, NotBefore c = Some t -> t <= now).

Definition wholeSeconds (o : option Z) : Prop := match o with Some t => t mod Second = 0 | None => True end.

(** Dates are cut to seconds; a token has the claims it was signed with, and is accepted
    as long as it is alive, with the secret it was signed with and no other. *)
Class JWTLaws (J : JWT) : Type := {
  signedWith : string -> string -> Claims -> Prop;
  NewNumericDate_law t : NewNumericDate t = t - t mod Second;
  SignedString_law c s :
    wholeSeconds (ClaimsExpiresAt c) -> wholeSeconds (NotBefore c) -> wholeSeconds (IssuedAt c) ->
    exists token, SignedString c s = Ok token /\ token <> "" /\ signedWith s token c;
  signedWith_claims s token c c' : signedWith s token c -> signedWith s token c' -> c = c';
  ParseWithClaims_law token s now :
    match ParseWithClaims token s now with
    | Ok c => signedWith s token c /\ alive now c
    | Err _ => forall c, signedWith s token c -> ~ alive now c
    | _ => False
    end
}.

Section Spec.
Context {C : DirConn} {DL : DirLaws C} {T : TemplateLang} {TL : TemplateLaws T}.
Variables (withUsername : string -> Params) (factory : Factory).

(** The directory knows one user of that name, with that password, and his groups tell
    whether he is an administrator. *)
Definition vouches (w : World) (username password : string) (admin : bool) : Prop :=
  exists fil entry, Render (usersFilter factory) (withUsername username) = Ok fil
    /\ entriesOf w (mkSearch (usersDN factory) fil) = [entry]
    /\ GetAttributeValue entry "cn" = username
    /\ accepts w (EntryDN entry) password /\ password <> ""
    /\ (admin = true <-> adminGroupDN factory ∈ GetAttributeValues entry "memberof").

(** An authentication lets in whom the directory vouches for, and leaves it alone; its
    connection is closed, unless the bind as the root user failed. *)
Lemma authenticate_spec username password w :
  match authenticate withUsername factory username password w with
  | (Ok user, w') => Username user = username /\ vouches w username password (Admin user) /\ calm w w'
  | (Err e, w') => sameDir w w'
      /\ (openConns w' = openConns w
          \/ openConns w' = openConns w + 1 /\ exists e', e = Errorf "error while binding as root: %w" [e'])
  | _ => False
  end.
Proof using TL.
  unfold authenticate. set (use := authenticateWith withUsername factory username password).
  assert (forall conn c, sameDir w (world c) ->
    match use conn c with
    | (Ok user, c') => (Username user = username /\ vouches w username password (Admin user)) /\ calm (world c) (world c')
    | (Err _, c') => calm (world c) (world c')
    | _ => False
    end) as HU.
  { intros conn c [HE HA]. pose proof (Authenticate_spec withUsername factory conn username password c) as HS.
    unfold use, authenticateWith. destruct (Authenticate _ _ _ _ _ c) as [[u|e'|m'|] c']; try done.
    destruct HS as ((fil & entry & H1 & H2 & H3 & H4 & H5 & H6) & HC). split; [|done].
    apply mapUser_spec in H6 as (_ & H7 & H8 & _). split; [by rewrite H7|].
    exists fil, entry. rewrite <- HE, <- HA. done. }
  pose proof (withClient_spec factory use _ w HU) as HW.
  destruct (withClient _ _ w) as [[user|e|m|] w']; try done. by destruct HW as [[? ?] ?].
Qed.
End Spec.

Section Guard.
Context {C : DirConn} {DL : DirLaws C} {T : TemplateLang} {TL : TemplateLaws T}.
Variables (withUsername : string -> Params) (factory : Factory).

(** C26: A page behind basic authentication is only reached by whom the directory vouches
    for: the page is given the user whose name and password the request has, with his
    rights, the directory as it was and every connection closed; otherwise the answer is
    a 401, or the error handler's, and the page is not run.  The error handler too is given
    the directory as it was, and every connection closed but the one on which the bind as the
    root user failed, which is kept. *)
Theorem basic_protected (errorHandler next : Request -> Go World Reply) (r : Request) (w : World) :
  authContext r = None ->
  let run := BasicAuth_Middleware withUsername factory errorHandler (Required next) r w in
  (exists username password admin w',
     BasicAuth r = Some (username, password) /\ username <> "" /\ vouches withUsername factory w username password admin
     /\ calm w w' /\ run = next (withAuth (mkAuth None username admin) r) w')
  \/ run = (Ok (mkReply StatusUnauthorized true), w)
  \/ (exists err w', sameDir w w'
       /\ (openConns w' = openConns w
           \/ openConns w' = openConns w + 1 /\ exists e, err = Errorf "error while binding as root: %w" [e])
       /\ run = errorHandler (withAuthErr err r) w').
Proof using TL.
  intros Hr run. unfold run, BasicAuth_Middleware, Required.
  destruct (BasicAuth r) as [[username password]|] eqn:EB.
  2: { right. left. unfold GetAuth. by rewrite Hr. }
  destruct (String.eqb_spec username "") as [E|E].
  { right. left. unfold GetAuth. by rewrite Hr. }
  pose proof (authenticate_spec withUsername factory username password w) as HA.
  destruct (authenticate _ _ _ _ w) as [[user|e|m|] w']; try done.
  - left. destruct HA as (HU & HV & HC). exists username, password, (Admin user), w'.
    do 4 (split; [done|]). unfold authFromUser. by rewrite HU.
  - right. right. exists e, w'. destruct HA. by split_and!.
Qed.

(** A wrong password is answered with 500, and the browser does not ask again: the
    handler looks for the error of lib/ldap, for which lib/httpauth has put its own. *)
Lemma wrong_password_500 next r w username password w' :
  BasicAuth r = Some (username, password) -> username <> "" ->
  authenticate withUsername factory username password w = (Err ErrInvalidCredentials, w') ->
  BasicAuth_Middleware withUsername factory DefaultBasicAuthErrorHandler next r w
  = (Ok (mkReply StatusInternalServerError false), w').
Proof using Type.
  intros HB HU HA. unfold BasicAuth_Middleware. rewrite HB, (proj2 (String.eqb_neq _ _) HU), HA. done.
Qed.
End Guard.

Section Sessions.
Context {C : DirConn} {DL : DirLaws C} {T : TemplateLang} {TL : TemplateLaws T} {J : JWT} {JL : JWTLaws J}.
Variables (withUsername : string -> Params) (factory : Factory) (ja : JWTAuth).

(** A login: when, the directory then, the credentials and the cookie given. *)
Record login : Type := mkLogin {
  loginAt : Z; loginWorld : World; loginUser : string; loginPassword : string; loginCookie : Cookie
}.

(** The logins so far, whatever happened in between. *)
Inductive logins : list login -> Prop :=
| logins_none : logins []
| logins_more l now username password w cookie auth w' :
    logins l ->
    JWTAuth_Authenticate withUsername factory ja now username password w = (Ok (cookie, auth), w') ->
    logins (l ++ [mkLogin now w username password cookie]).

Lemma whole_date t : wholeSeconds (Some (NewNumericDate t)).
Proof using JL. cbn. rewrite NewNumericDate_law. unfold Second. rewrite Zminus_mod_idemp_r, Z.sub_diag. done. Qed.

Lemma date_bounds t : t - Second < NewNumericDate t <= t.
Proof using JL. rewrite NewNumericDate_law. pose proof (Z.mod_pos_bound t Second eq_refl). lia. Qed.

(** The claims of a cookie. *)
Definition claimsOf (now : Z) (username : string) (admin : bool) : Claims :=
  mkClaims (issuer ja) username (Some (NewNumericDate (now + duration ja)))
    (Some (NewNumericDate now)) (Some (NewNumericDate now)) admin.

Lemma authCookie_spec now username admin :
  exists token, authCookie ja now username admin
    = Ok (mkCookie cookieName token (prefix ja) (Some (now + duration ja)) (secure ja) true)
    /\ token <> "" /\ signedWith (secret ja) token (claimsOf now username admin).
Proof using JL.
  unfold authCookie. fold (claimsOf now username admin).
  destruct (SignedString_law (claimsOf now username admin) (secret ja)) as (token & -> & Hn & Hs);
    try apply whole_date. by exists token.
Qed.

Lemma JWTAuth_Authenticate_spec now username password w :
  match JWTAuth_Authenticate withUsername factory ja now username password w with
  | (Ok (cookie, auth), w') =>
      vouches withUsername factory w username password (AuthAdmin auth) /\ AuthUsername auth = username
      /\ calm w w' /\ Value cookie <> ""
      /\ signedWith (secret ja) (Value cookie) (claimsOf now username (AuthAdmin auth))
      /\ Name cookie = cookieName /\ HttpOnly cookie = true
  | (Err _, w') => sameDir w w'
  | _ => False
  end.
Proof using TL JL.
  unfold JWTAuth_Authenticate, bind at 1.
  pose proof (authenticate_spec withUsername factory username password w) as HA.
  destruct (authenticate _ _ _ _ w) as [[user|e|m|] w']; try done; [|by destruct HA].
  destruct HA as (HU & HV & HC). unfold bind, wrapf, lift.
  destruct (authCookie_spec now (Username user) (Admin user)) as (token & -> & Hn & Hs).
  cbn. rewrite HU in *. done.
Qed.

(** C25: A request is let in by its cookie only within the time of a login.  When every
    token of its cookies that is signed with the secret was given at a login, a page
    behind the cookie is reached only as a user who logged in, whom the directory then
    vouched for with these rights, from less than a second before that moment until the
    duration of a session after it; otherwise the answer is a 401. *)
Theorem session_authentic (l : list login) (now : Z) (next : Request -> Go World Reply) (r : Request) (w : World) :
  logins l -> authContext r = None ->
  (forall token claims, (cookieName, token) ∈ cookies r -> signedWith (secret ja) token claims ->
     exists e, e ∈ l /\ Value (loginCookie e) = token) ->
  let run := JWTAuth_Middleware ja now (Required next) r w in
  run = (Ok (mkReply StatusUnauthorized true), w)
  \/ exists e admin expires,
       e ∈ l /\ run = next (withAuth (mkAuth (Some expires) (loginUser e) admin) r) w
       /\ vouches withUsername factory (loginWorld e) (loginUser e) (loginPassword e) admin
       /\ loginAt e - Second < now < loginAt e + duration ja.
Proof using TL JL.
  intros Hl Hr Hc run.
  assert (forall e, e ∈ l -> exists admin,
    vouches withUsername factory (loginWorld e) (loginUser e) (loginPassword e) admin
    /\ signedWith (secret ja) (Value (loginCookie e)) (claimsOf (loginAt e) (loginUser e) admin)) as HL.
  { clear -Hl TL JL. induction Hl as [|l now u p w cookie auth w' Hl IH Ha]; [by intros e ?%not_elem_of_nil|].
    intros e [He|[->|[]%not_elem_of_nil]%elem_of_cons]%elem_of_app; [by apply IH|].
    pose proof (JWTAuth_Authenticate_spec now u p w) as HS. rewrite Ha in HS.
    destruct HS as (HV & _ & _ & _ & HS & _). by exists (AuthAdmin auth). }
  unfold run, JWTAuth_Middleware, bind, lift, checkAuthCookie, requestCookie, Required.
  destruct (List.find _ (cookies r)) as [[n value]|] eqn:EF; cbn [fmap option_fmap option_map snd].
  2: { left. unfold GetAuth. by rewrite Hr. }
  apply find_some in EF as [Hin Hn]. cbn [fst] in Hn. apply String.eqb_eq in Hn as ->.
  destruct (String.eqb_spec value "") as [Ev|Ev]; [left; unfold GetAuth; by rewrite Hr|].
  pose proof (ParseWithClaims_law value (secret ja) now) as HP.
  destruct (ParseWithClaims value (secret ja) now) as [c|e|m|]; try done.
  2: { left. unfold GetAuth. by rewrite Hr. }
  destruct HP as [HS [HX HN]].
  destruct (Hc value c) as (e & He & Hv); [by apply list_elem_of_In|done|].
  destruct (HL e He) as (admin & HV & HSe). rewrite Hv in HSe.
  rewrite (signedWith_claims _ _ _ _ HS HSe) in *. cbn [Issuer claimsOf ClaimsExpiresAt Subject ClaimsAdmin].
  rewrite String.eqb_refl. right. exists e, admin, (NewNumericDate (loginAt e + duration ja)).
  do 3 (split; [done|]). specialize (HX _ eq_refl). specialize (HN _ eq_refl).
  pose proof (date_bounds (loginAt e + duration ja)). pose proof (date_bounds (loginAt e)). lia.
Qed.

(** A cookie given at a login lets its user in, with his rights, from the login on and
    up to the last whole second of the session, and from then on it does not. *)
Theorem session_cookie (t now : Z) (username password : string) (w w' : World) (cookie : Cookie) (auth : Auth)
    (next : Request -> Go World Reply) (r : Request) :
  JWTAuth_Authenticate withUsername factory ja t username password w = (Ok (cookie, auth), w') ->
  requestCookie (Name cookie) r = Some (Value cookie) -> t <= now ->
  JWTAuth_Middleware ja now next r w'
  = if now <? NewNumericDate (t + duration ja)
    then next (withAuth (mkAuth (Some (NewNumericDate (t + duration ja))) username (AuthAdmin auth)) r) w'
    else next r w'.
Proof using DL TL JL.
  intros HA Hr Ht. pose proof (JWTAuth_Authenticate_spec t username password w) as HS. rewrite HA in HS.
  destruct HS as (_ & _ & _ & Hne & HS & Hn & _). rewrite Hn in Hr.
  unfold JWTAuth_Middleware, bind, lift, checkAuthCookie. rewrite Hr, (proj2 (String.eqb_neq _ _) Hne).
  pose proof (ParseWithClaims_law (Value cookie) (secret ja) now) as HP. pose proof (date_bounds t) as Hd.
  destruct (ParseWithClaims _ _ now) as [c|e|m|]; try done.
  - destruct HP as [HS' [HX _]]. rewrite (signedWith_claims _ _ _ _ HS' HS) in *.
    cbn [Issuer claimsOf ClaimsExpiresAt Subject ClaimsAdmin]. rewrite String.eqb_refl.
    specialize (HX _ eq_refl). destruct (Z.ltb_spec now (NewNumericDate (t + duration ja))); [done|lia].
  - destruct (Z.ltb_spec now (NewNumericDate (t + duration ja))) as [H|H]; [|done].
    exfalso. apply (HP _ HS). split; intros t' [= <-]; lia.
Qed.

(** After a logout the browser sends an empty cookie, which lets nobody in. *)
Lemma logout_cookie now r w next :
  requestCookie cookieName r = Some (Value (DeAuthenticate ja)) ->
  JWTAuth_Middleware (C := C) ja now next r w = next r w.
Proof using Type. intros H. unfold JWTAuth_Middleware, bind, lift, checkAuthCookie. by rewrite H. Qed.
End Sessions.
