(* ===== verification/LdapPool.v ===== *)
(** * The pool of LDAP connections

    lib/ldap: the pool (pool.go) as a transition system of its channels, of the workers
    that fill it and of the callers of [get], and the start of the workers by the factory
    (factory.go).  Connections are numbered as they are dialed. *)

From stdpp Require Import base list numbers relations.
From S2P Require Import Prelude.
#[local] Open Scope nat_scope.
#[local] Set Warnings "-register-all,-clear-no-such-hyp".

(** Where a worker is in the loop of [fill]: waiting for demand, dialing, about to put
    its demand back after a failure, about to put a connection in, or ended. *)
Inductive wphase : Type :=
| Waiting
| Dialing
| Retrying
| Holding (conn : nat)
| Stopped.

(** Where a caller is in the loop of [get]: waiting for a connection, about to ask for
    another in its place, looking whether it is alive, closing it, or returned. *)
Inductive gphase : Type :=
| Asking
| Received (conn : nat)
| Checking (conn : nat)
| Closing (conn : nat)
| Returned (conn : nat)
| Failed.

Record pool : Type := mkPool {
  demand : nat;
  source : list nat;
  workers : list wphase;
  getters : list gphase;
  dialed : nat;
  cancelled : bool
}.

Section Pool.
Variable (size : nat).

(** [n] workers, and the demand that [newPool] puts in. *)
Definition newPool (n : nat) : pool := mkPool size [] (replicate n Waiting) [] 0 false.

Definition atWorker (i : nat) (w : wphase) (s : pool) : pool :=
  mkPool (demand s) (source s) (<[i := w]> (workers s)) (getters s) (dialed s) (cancelled s).
Definition atGetter (j : nat) (g : gphase) (s : pool) : pool :=
  mkPool (demand s) (source s) (workers s) (<[j := g]> (getters s)) (dialed s) (cancelled s).
Definition setDemand (d : nat) (s : pool) : pool :=
  mkPool d (source s) (workers s) (getters s) (dialed s) (cancelled s).
Definition setSource (l : list nat) (s : pool) : pool :=
  mkPool (demand s) l (workers s) (getters s) (dialed s) (cancelled s).
Definition setDialed (n : nat) (s : pool) : pool :=
  mkPool (demand s) (source s) (workers s) (getters s) n (cancelled s).

(** The steps of a worker ([fill]) and of a caller ([get]); a send needs room in its
    channel. *)
Inductive move : pool -> pool -> Prop :=
| fill_demand s i d :
    workers s !! i = Some Waiting -> demand s = S d -> move s (setDemand d (atWorker i Dialing s))
| fill_done s i :
    workers s !! i = Some Waiting -> cancelled s = true -> move s (atWorker i Stopped s)
| fill_dialed s i :
    workers s !! i = Some Dialing -> move s (setDialed (S (dialed s)) (atWorker i (Holding (dialed s)) s))
| fill_failed s i :
    workers s !! i = Some Dialing -> move s (atWorker i Retrying s)
| fill_retry s i :
    workers s !! i = Some Retrying -> demand s < size ->
    move s (setDemand (S (demand s)) (atWorker i Waiting s))
| fill_push s i c :
    workers s !! i = Some (Holding c) -> length (source s) < size ->
    move s (setSource (source s ++ [c]) (atWorker i Waiting s))
| fill_abandon s i c :
    workers s !! i = Some (Holding c) -> cancelled s = true -> move s (atWorker i Stopped s)
| get_conn s j c l :
    getters s !! j = Some Asking -> source s = c :: l -> move s (setSource l (atGetter j (Received c) s))
| get_demand s j c :
    getters s !! j = Some (Received c) -> demand s < size ->
    move s (setDemand (S (demand s)) (atGetter j (Checking c) s))
| get_alive s j c :
    getters s !! j = Some (Checking c) -> move s (atGetter j (Returned c) s)
| get_dead s j c :
    getters s !! j = Some (Checking c) -> move s (atGetter j (Closing c) s)
| get_closed s j c :
    getters s !! j = Some (Closing c) -> move s (atGetter j Asking s)
| get_close_error s j c :
    getters s !! j = Some (Closing c) -> move s (atGetter j Failed s).

(** What happens around the pool: a call of [get], the end of the context of a caller or
    of that of the workers. *)
Inductive step : pool -> pool -> Prop :=
| step_move s s' : move s s' -> step s s'
| step_call s :
    step s (mkPool (demand s) (source s) (workers s) (getters s ++ [Asking]) (dialed s) (cancelled s))
| step_timeout s j : getters s !! j = Some Asking -> step s (atGetter j Failed s)
| step_cancel s :
    step s (mkPool (demand s) (source s) (workers s) (getters s) (dialed s) true).

Definition reachable (n : nat) : pool -> Prop := rtc step (newPool n).

(** ** Slots *)

(** The slots of the pool that a worker or a caller holds. *)
Definition wslots (w : wphase) : nat :=
  match w with Dialing | Retrying | Holding _ => 1 | _ => 0 end.
Definition gslots (g : gphase) : nat := match g with Received _ => 1 | _ => 0 end.

Definition wconn (w : wphase) : option nat := match w with Holding c => Some c | _ => None end.
Definition gconn (g : gphase) : option nat :=
  match g with Received c | Checking c | Closing c | Returned c => Some c | _ => None end.

Definition slots (s : pool) : nat :=
  demand s + length (source s) + sum_list_with wslots (workers s) + sum_list_with gslots (getters s).

(** The connections that are somewhere. *)
Definition conns (s : pool) : list nat :=
  omap wconn (workers s) ++ source s ++ omap gconn (getters s).

(** ** The invariant *)

Record inv (s : pool) : Prop := {
  inv_slots : slots s <= size;
  inv_full : cancelled s = false -> slots s = size;
  inv_once : NoDup (conns s);
  inv_dialed : Forall (fun c => c < dialed s) (conns s)
}.

(** A change of phase that keeps the slots and the connections, or adds a connection just
    dialed, or drops some. *)
Lemma inv_change s s' :
  inv s -> slots s' <= slots s -> (cancelled s' = false -> cancelled s = false /\ slots s' = slots s) ->
  (exists lost, conns s ≡ₚ conns s' ++ lost) /\ dialed s' = dialed s
  \/ (exists lost, dialed s :: conns s ≡ₚ conns s' ++ lost) /\ dialed s' = S (dialed s) ->
  inv s'.
Proof using Type.
  intros [H1 H2 H3 H4] Hs Hc Hn. split; [lia| | |].
  - intros E. destruct (Hc E) as [E1 E2]. rewrite E2. by apply H2.
  - destruct Hn as [[[lost Hp] _]|[[lost Hp] _]].
    + rewrite Hp in H3. by apply NoDup_app in H3 as [].
    + assert (NoDup (dialed s :: conns s)) as Hd.
      { constructor; [|done]. intros Hin. rewrite Forall_forall in H4. specialize (H4 _ Hin). cbn in H4. lia. }
      rewrite Hp in Hd. by apply NoDup_app in Hd as [].
  - destruct Hn as [[[lost Hp] ->]|[[lost Hp] ->]].
    + rewrite Hp in H4. by apply Forall_app in H4 as [].
    + assert (Forall (fun c => c < S (dialed s)) (dialed s :: conns s)) as Hd.
      { constructor; [lia|]. eapply Forall_impl; [exact H4|]. intros c Hlt. cbn in *. lia. }
      rewrite Hp in Hd. by apply Forall_app in Hd as [].
Qed.

(** The connections of the workers, of the channel and of the callers. *)
Lemma conns_workers s i x y src :
  workers s !! i = Some x -> exists k,
    conns s ≡ₚ option_list (wconn x) ++ k ++ source s ++ omap gconn (getters s)
    /\ omap wconn (<[i := y]> (workers s)) ++ src ++ omap gconn (getters s)
       ≡ₚ option_list (wconn y) ++ k ++ src ++ omap gconn (getters s).
Proof using Type.
  intros (k & H1 & H2)%(replace_omap wconn _ _ _ y). exists k. unfold conns. by rewrite H1, H2, <- !app_assoc.
Qed.

Lemma conns_getters s j x y src :
  getters s !! j = Some x -> exists k,
    conns s ≡ₚ option_list (gconn x) ++ omap wconn (workers s) ++ source s ++ k
    /\ omap wconn (workers s) ++ src ++ omap gconn (<[j := y]> (getters s))
       ≡ₚ option_list (gconn y) ++ omap wconn (workers s) ++ src ++ k.
Proof using Type.
  intros (k & H1 & H2)%(replace_omap gconn _ _ _ y). exists k. unfold conns. rewrite H1, H2.
  split; by rewrite (Permutation_app_swap_app _ (option_list _)), (Permutation_app_swap_app _ (option_list _)).
Qed.

Lemma nil_r_perm (l k : list nat) : l ≡ₚ k -> exists lost, l ≡ₚ k ++ lost.
Proof using Type. intros H. exists []. by rewrite app_nil_r. Qed.

(** A worker changes phase; the channels and the count of dials change as said. *)
Lemma worker_inv s i x y d src n cn :
  inv s -> workers s !! i = Some x ->
  let s' := mkPool d src (<[i := y]> (workers s)) (getters s) n cn in
  d + length src + wslots y <= demand s + length (source s) + wslots x ->
  (cn = false -> cancelled s = false /\ d + length src + wslots y = demand s + length (source s) + wslots x) ->
  (n = dialed s /\ (exists lost, option_list (wconn x) ++ source s ≡ₚ (option_list (wconn y) ++ src) ++ lost)
   \/ n = S (dialed s) /\ (exists lost, dialed s :: option_list (wconn x) ++ source s ≡ₚ (option_list (wconn y) ++ src) ++ lost)) ->
  inv s'.
Proof using Type.
  intros HI H s' Hs Hc Hn. pose proof (replace_sum wslots _ _ _ y H) as HS.
  destruct (conns_workers s i x y src H) as (k & K1 & K2).
  apply (inv_change s); [done|unfold slots; cbn; lia| |].
  - intros E. destruct (Hc E). split; [done|]. unfold slots; cbn; lia.
  - unfold conns at 2 4. cbn [workers source getters s' dialed].
    destruct Hn as [[-> [lost L]]|[-> [lost L]]]; [left|right]; (split; [exists lost|done]);
      rewrite K1, K2.
    + rewrite (Permutation_app_swap_app (option_list (wconn x)) k), (Permutation_app_swap_app (option_list (wconn y)) k).
      rewrite (app_assoc (option_list (wconn x))), (app_assoc (option_list (wconn y))), L.
      rewrite <- !app_assoc. do 3 f_equiv. apply Permutation_app_comm.
    + rewrite (Permutation_app_swap_app (option_list (wconn x)) k), (Permutation_app_swap_app (option_list (wconn y)) k).
      rewrite (app_assoc (option_list (wconn x))), (app_assoc (option_list (wconn y))).
      rewrite (Permutation_middle k). rewrite app_comm_cons, L.
      rewrite <- !app_assoc. do 3 f_equiv. apply Permutation_app_comm.
Qed.

(** A caller does. *)
Lemma getter_inv s j x y d src :
  inv s -> getters s !! j = Some x ->
  let s' := mkPool d src (workers s) (<[j := y]> (getters s)) (dialed s) (cancelled s) in
  d + length src + gslots y = demand s + length (source s) + gslots x ->
  (exists lost, option_list (gconn x) ++ source s ≡ₚ (option_list (gconn y) ++ src) ++ lost) ->
  inv s'.
Proof using Type.
  intros HI H s' Hs [lost L]. pose proof (replace_sum gslots _ _ _ y H) as HS.
  destruct (conns_getters s j x y src H) as (k & K1 & K2).
  apply (inv_change s); [done|unfold slots; cbn; lia| |].
  - intros E. split; [done|]. unfold slots; cbn; lia.
  - left. split; [exists lost|done]. unfold conns at 2. cbn [workers source getters s']. rewrite K1, K2.
    rewrite (Permutation_app_swap_app (option_list (gconn x)) _), (Permutation_app_swap_app (option_list (gconn y)) _).
    rewrite (app_assoc (option_list (gconn x))), (app_assoc (option_list (gconn y))), L.
    rewrite <- !app_assoc. do 3 f_equiv. apply Permutation_app_comm.
Qed.

#[local] Ltac same_conns := exists []; cbn; by rewrite app_nil_r.
#[local] Ltac counts := try lia; try (intros; congruence); try (intros; split; [done|lia]).

Lemma move_inv s s' : inv s -> move s s' -> inv s'.
Proof using Type.
  intros HI Hm.
  destruct Hm as [s i d H Hd|s i H E|s i H|s i H|s i H Hd|s i c H Hl|s i c H E
                 |s j c l H El|s j c H Hd|s j c H|s j c H|s j c H|s j c H].
  - apply (worker_inv s i Waiting Dialing); try done; cbn; rewrite ?Hd; counts.
    left. split; [done|]. same_conns.
  - apply (worker_inv s i Waiting Stopped); try done; cbn; counts.
    left. split; [done|]. same_conns.
  - apply (worker_inv s i Dialing (Holding (dialed s))); try done; cbn; counts.
    right. split; [done|]. same_conns.
  - apply (worker_inv s i Dialing Retrying); try done; cbn; counts.
    left. split; [done|]. same_conns.
  - apply (worker_inv s i Retrying Waiting); try done; cbn; counts.
    left. split; [done|]. same_conns.
  - apply (worker_inv s i (Holding c) Waiting); try done; cbn; rewrite ?length_app; cbn; counts.
    left. split; [done|]. exists []. rewrite app_nil_r. apply Permutation_cons_append.
  - apply (worker_inv s i (Holding c) Stopped); try done; cbn; counts.
    left. split; [done|]. exists [c]. apply Permutation_cons_append.
  - apply (getter_inv s j Asking (Received c)); try done; rewrite El; cbn; counts. same_conns.
  - apply (getter_inv s j (Received c) (Checking c)); try done; cbn; counts. same_conns.
  - apply (getter_inv s j (Checking c) (Returned c)); try done; cbn; counts. same_conns.
  - apply (getter_inv s j (Checking c) (Closing c)); try done; cbn; counts. same_conns.
  - apply (getter_inv s j (Closing c) Asking); try done; cbn; counts. exists [c]. apply Permutation_cons_append.
  - apply (getter_inv s j (Closing c) Failed); try done; cbn; counts. exists [c]. apply Permutation_cons_append.
Qed.

Lemma poolStep_inv s s' : inv s -> step s s' -> inv s'.
Proof using Type.
  intros HI Hst. destruct Hst as [s1 s2 Hm|s1|s1 j H|s1].
  - by eapply move_inv.
  - apply (inv_change s1); [done|..]; unfold slots, conns; cbn; rewrite ?sum_list_with_app, ?omap_app; cbn; counts.
    left. split; [|done]. rewrite app_nil_r. same_conns.
  - apply (getter_inv s1 j Asking Failed); try done. same_conns.
  - apply (inv_change s1); [done|..]; unfold slots, conns; cbn; counts; try done.
    left. split; [|done]. same_conns.
Qed.

Lemma newPool_inv n : inv (newPool n).
Proof using Type.
  assert (sum_list_with wslots (replicate n Waiting) = 0) as H0 by by induction n.
  assert (omap wconn (replicate n Waiting) = []) as H1 by (clear; by induction n as [|n IH]).
  split; unfold slots, conns; cbn; rewrite ?H0, ?H1; cbn; try lia; constructor.
Qed.

Lemma reachable_inv n s : reachable n s -> inv s.
Proof using Type.
  intros H. unfold reachable in H. remember (newPool n) as s0 eqn:E.
  assert (inv s0) as H0 by (subst; apply newPool_inv). clear E.
  induction H as [s|s1 s2 s3 H _ IH]; [done|]. by apply IH, (poolStep_inv s1).
Qed.

(** C28: The pool never loses a slot nor blocks on a full channel, and gives a connection
    to one caller only.  In every state that it can reach: until the workers are told to
    stop, the demand, the connections waiting and the slots in hand add up to the size;
    whoever is about to send finds room in the channel; and no connection is in two
    places: with a worker, in the channel, with a caller or returned to one. *)
Theorem pool_safe (n : nat) (s : pool) :
  reachable n s ->
  (cancelled s = false -> slots s = size)
  /\ (forall i, workers s !! i = Some Retrying -> demand s < size)
  /\ (forall i c, workers s !! i = Some (Holding c) -> length (source s) < size)
  /\ (forall j c, getters s !! j = Some (Received c) -> demand s < size)
  /\ NoDup (conns s).
Proof using Type.
  intros [H1 H2 H3 _]%reachable_inv. unfold slots in *. repeat split; try done.
  - intros i H. pose proof (sum_elem wslots _ _ _ H). cbn in *. lia.
  - intros i c H. pose proof (sum_elem wslots _ _ _ H). cbn in *. lia.
  - intros j c H. pose proof (sum_elem gslots _ _ _ H). cbn in *. lia.
Qed.

(** A caller that waits is never stuck behind the pool: until the workers are told to
    stop, if there is room and a worker, then some worker or some caller can move, and
    if a connection waits in the channel the caller itself can take it. *)
Theorem pool_progress (n : nat) (s : pool) (j : nat) :
  reachable n s -> 0 < size -> cancelled s = false ->
  (exists i w, workers s !! i = Some w /\ w <> Stopped) ->
  getters s !! j = Some Asking ->
  exists s', move s s' /\ (source s <> [] -> exists c, getters s' !! j = Some (Received c)).
Proof using Type.
  intros Hr Hs Hc (i & w & Hw & Hn) Hg. destruct (source s) as [|c l] eqn:Es.
  2: { eexists. split; [by eapply get_conn|]. intros _. exists c. cbn.
       apply list_lookup_insert_eq. by eapply lookup_lt_Some. }
  destruct (pool_safe n s Hr) as (H1 & H2 & H3 & H4 & _). specialize (H1 Hc).
  assert (exists s', move s s') as [s' Hm]; [|by exists s'].
  destruct w; [|eexists; by eapply fill_failed|eexists; eapply fill_retry; [done|by eapply H2]
               |eexists; eapply fill_push; [done|by eapply H3]|done].
  destruct (demand s) as [|d] eqn:Ed; [|eexists; by eapply fill_demand].
  unfold slots in H1. rewrite Ed, Es in H1. cbn in H1.
  destruct (decide (0 < sum_list_with wslots (workers s))) as [H|H].
  - apply sum_positive in H as (k & w & Hk & Hp). destruct w; cbn in Hp; try lia; eexists.
    + by eapply fill_failed.
    + eapply fill_retry; [done|]. rewrite Ed. lia.
    + eapply fill_push; [done|]. rewrite Es. done.
  - destruct (sum_positive gslots (getters s)) as (k & g & Hk & Hp); [lia|].
    destruct g; cbn in Hp; try lia. eexists. eapply get_demand; [done|]. rewrite Ed. lia.
Qed.

(** ** The start of the workers *)

(** A [sync.WaitGroup] panics when its counter goes below zero. *)
Definition wgAdd (delta counter : Z) : outcome Z :=
  if (counter + delta <? 0)%Z then Panic "sync: negative WaitGroup counter" else Ok (counter + delta)%Z.

(** Calls of Add and Done on a group, in the order in which they happen. *)
Fixpoint wgAll (deltas : list Z) (counter : Z) : outcome Z :=
  match deltas with
  | [] => Ok counter
  | d :: deltas' => counter <-? wgAdd d counter ;; wgAll deltas' counter
  end.

(** Factory.Run: for each worker an Add, and that of Go; at the end a Done. *)
Definition runDeltas (n : nat) : list Z := concat (replicate n [1; 1]%Z) ++ [(-1)%Z].
(** A worker that ends: its Done, and that of Go. *)
Definition endDeltas : list Z := [-1; -1]%Z.

Lemma wgAll_sum deltas counter c : wgAll deltas counter = Ok c -> c = foldr Z.add counter deltas.
Proof using Type.
  revert counter. induction deltas as [|d l IH]; intros counter; cbn [wgAll foldr]; [by intros [= <-]|].
  intros (c1 & H1 & H2)%obind_ok_inv. unfold wgAdd in H1. destruct (_ <? 0)%Z; [done|]. injection H1 as <-.
  rewrite (IH _ H2). clear. induction l as [|a l IH]; cbn; [lia|]. rewrite IH. lia.
Qed.

Lemma wgAll_nonneg deltas counter c : (0 <= counter)%Z -> wgAll deltas counter = Ok c -> (0 <= c)%Z.
Proof using Type.
  revert counter. induction deltas as [|d l IH]; intros counter Hc; cbn [wgAll]; [by intros [= <-]|].
  intros (c1 & H1 & H2)%obind_ok_inv. unfold wgAdd in H1. destruct (Z.ltb_spec (counter + d) 0); [done|].
  injection H1 as <-. by eapply IH.
Qed.

(** When all the workers have ended the factory has called Done once too often: however
    the calls interleave, the last panics. *)
Lemma factory_stop_panics n deltas :
  deltas ≡ₚ runDeltas n ++ concat (replicate n endDeltas) ->
  match wgAll deltas 0 with Ok _ => False | _ => True end.
Proof using Type.
  intros Hp. destruct (wgAll deltas 0) as [c|e|m|] eqn:E; try done.
  pose proof (wgAll_nonneg _ _ _ (Z.le_refl 0) E) as Hn. rewrite (wgAll_sum _ _ _ E) in Hn.
  assert (foldr Z.add 0%Z deltas = foldr Z.add 0%Z (runDeltas n ++ concat (replicate n endDeltas))) as Hs.
  { clear -Hp. induction Hp; cbn; lia. }
  rewrite Hs in Hn. clear -Hn. unfold runDeltas in Hn. rewrite <- app_assoc, foldr_app in Hn.
  assert (forall z k, foldr Z.add z (concat (replicate k [1; 1]%Z)) = z + 2 * Z.of_nat k)%Z as H1.
  { intros z k. induction k as [|k IH]; [cbn; lia|]. cbn [replicate concat app foldr]. rewrite IH. lia. }
  assert (forall z k, foldr Z.add z (concat (replicate k endDeltas)) = z - 2 * Z.of_nat k)%Z as H2.
  { intros z k. induction k as [|k IH]; [cbn; lia|]. cbn [replicate concat app foldr endDeltas]. rewrite IH. lia. }
  rewrite H1 in Hn. cbn [app foldr] in Hn. rewrite H2 in Hn. lia.
Qed.
End Pool.
