(* ===== verification/AuthExamples.v ===== *)
(** * Authentication on a concrete directory

    A directory of one user, a template language of texts and fields, tokens that hold
    their claims and secret in the clear, with the laws of the classes; the witnesses of
    the theorems of HttpAuth and LdapPool. *)

From stdpp Require Import gmap countable relations.
From S2P Require Import Prelude GoStrings GoSearch Tmpl LdapClient LdapPool HttpAuth.
#[local] Open Scope Z_scope.
#[local] Set Warnings "-register-all,-clear-no-such-hyp".

(** ** Templates *)

Fixpoint execNode (n : Node) (p : string) : outcome string :=
  match n with
  | TextNode s => Ok s
  | ListNode ns => foldr (fun n r => s <-? execNode n p ;; t <-? r ;; Ok (s +:+ t)) (Ok "") ns
  | ActionNode [[FieldNode [f]]] => if (f =? "Username")%string then Ok p else Err (PlainError "no field")
  | _ => Err (PlainError "not here")
  end.

Definition filterNodes : list Node :=
  [TextNode "(cn="; ActionNode [[FieldNode ["Username"]]]; TextNode ")"].

Definition sampleTemplates : TemplateLang := {|
  Params := string;
  paramsType := Struct [("Username", true, NoStruct "string")];
  fieldValue p f := if (f =? "Username")%string then Some p else None;
  Parse str := if (str =? "(cn={{ .Username }})")%string then Ok (ListNode filterNodes)
               else if (str =? "{{ if .Usrname }}x{{ end }}")%string
               then Ok (ListNode [IfNode [[FieldNode ["Usrname"]]] (ListNode [TextNode "x"]) None])
               else Err (PlainError "syntax");
  Execute := execNode
|}.

Fixpoint execNode_ends (n : Node) (p : string) : ends (execNode n p).
Proof.
  destruct n as [s|pipe|ns|? ? ?|? ? ?|? ? ?|s]; cbn [execNode]; [exact I| | |exact I..].
  - clear execNode_ends. destruct pipe as [|[|[[|f [|? ?]]|?] [|? ?]] [|? ?]]; try done.
    by destruct (f =? "Username")%string.
  - induction ns as [|n ns IH]; [exact I|]. cbn [foldr]. specialize (execNode_ends n p).
    destruct (execNode n p); try done. cbn [obind]. by destruct (foldr _ _ ns).
Defined.

#[export] Instance sampleTemplates_laws : TemplateLaws sampleTemplates.
Proof.
  split; cbn; try done.
  - apply execNode_ends.
  - intros f p v. by destruct (f =? "Username")%string; intros [= ->].
Qed.

#[local] Existing Instance sampleTemplates.

Example filter_accepted : NewTMPL "(cn={{ .Username }})" = Ok (mkTMPL (ListNode filterNodes)).
Proof. vm_compute. reflexivity. Qed.

(** A condition is not looked at: the template is accepted and never renders. *)
Example condition_unchecked :
  exists t, NewTMPL "{{ if .Usrname }}x{{ end }}" = Ok t /\ exists e, Render t "alice" = Err e.
Proof. eexists. split; [vm_compute; reflexivity|]. eexists. reflexivity. Qed.

(** ** A directory *)

Record world0 : Type := mkWorld0 { passwords : gmap string string; held : Z }.

Definition aliceDN : string := "cn=alice,ou=users".
Definition aliceAttrs : list (string * list string) :=
  [("cn", ["alice"]); ("uidnumber", ["1000"]); ("gidnumber", ["-1"]);
   ("memberof", ["cn=admin,ou=groups"; "cn=wiki,ou=accesses"])].

Definition attrValues (e : string * list (string * list string)) (a : string) : list string :=
  match List.find (fun kv => (fst kv =? a)%string) (snd e) with Some kv => snd kv | None => [] end.

Definition foundBy (req : SearchRequest) : list (string * list (string * list string)) :=
  if (Filter req =? "(cn=alice)")%string || (Filter req =? "(cn=*)")%string
  then [(aliceDN, aliceAttrs)] else [].

Definition sampleDir : DirConn := {|
  World := world0;
  Conn := unit;
  Entry := string * list (string * list string);
  EntryDN := fst;
  GetAttributeValue e a := match attrValues e a with v :: _ => v | [] => "" end;
  GetAttributeValues := attrValues;
  poolGet w := (Ok tt, mkWorld0 (passwords w) (held w + 1));
  SimpleBind _ dn pw w :=
    (if negb (pw =? "")%string && bool_decide (passwords w !! dn = Some pw) then Ok tt
     else Err (PlainError "Invalid Credentials"), w);
  Search _ req w := (Ok (foundBy req), w);
  PasswordModify _ dn _ new w := (Ok "", mkWorld0 (<[dn := new]> (passwords w)) (held w));
  CloseConn _ w := (Ok tt, mkWorld0 (passwords w) (held w - 1))
|}.

#[export] Instance sampleDir_laws : DirLaws sampleDir.
Proof.
  refine {| entriesOf := fun (_ : @World sampleDir) req => foundBy req : list (@Entry sampleDir);
            accepts := fun (w : @World sampleDir) dn pw => passwords w !! dn = Some pw;
            openConns := held |}; cbn; try done.
  - intros _ dn pw w. destruct (String.eqb_spec pw "") as [E|E]; [done|].
    by destruct (bool_decide_reflect (passwords w !! dn = Some pw)).
  - intros _ dn old new w. split; [done|]. split; [done|]. split.
    + intros dn' p Hn. by rewrite lookup_insert_ne.
    + intros _ p. rewrite lookup_insert_eq. split; [by intros [= ->]|by intros ->].
Defined.

#[local] Existing Instance sampleDir.

Definition sampleFactory : Factory :=
  mkFactory "cn=root" "secret" "ou=users" (mkTMPL (ListNode filterNodes)) "ou=groups" "cn=admin,ou=groups" "ou=accesses".

(** [filterTemplateValues] of a name. *)
Definition named (username : string) : @Params sampleTemplates := username.

Definition world1 : @World sampleDir :=
  mkWorld0 (<["cn=root" := "secret"]> {[aliceDN := "wonder"]}) 0.

Definition aliceUser : User :=
  mkUser aliceDN "alice" "" "" "" "" ["cn=admin,ou=groups"] ["cn=wiki,ou=accesses"] 1000 (-1) true.

Lemma alice_authenticated : authenticate named sampleFactory "alice" "wonder" world1 = (Ok aliceUser, world1).
Proof. vm_compute. reflexivity. Qed.

Lemma alice_refused :
  authenticate named sampleFactory "alice" "wander" world1 = (Err ErrInvalidCredentials, world1).
Proof. vm_compute. reflexivity. Qed.

(** An injected filter finds the entry but not under the name that was given. *)
Example injection_refused : exists e,
  authenticate named sampleFactory "*" "wonder" world1 = (Err e, world1) /\ Is e ErrNotMatchingUsername = true.
Proof. eexists. split; vm_compute; reflexivity. Qed.

Definition aliceRequest : Request := mkRequest (Some ("alice", "wonder")) [] None None.
Definition served : Request -> Go World Reply := fun _ => ret (mkReply 200 false).

Lemma basic_protected_witness :
  authContext aliceRequest = None
  /\ ((exists username password admin w',
         BasicAuth aliceRequest = Some (username, password) /\ username <> ""
         /\ vouches named sampleFactory world1 username password admin /\ calm world1 w'
         /\ BasicAuth_Middleware named sampleFactory DefaultBasicAuthErrorHandler (Required served) aliceRequest world1
            = served (withAuth (mkAuth None username admin) aliceRequest) w')
      \/ BasicAuth_Middleware named sampleFactory DefaultBasicAuthErrorHandler (Required served) aliceRequest world1
         = (Ok (mkReply StatusUnauthorized true), world1)
      \/ (exists err w', sameDir world1 w'
           /\ (openConns w' = openConns world1
               \/ openConns w' = openConns world1 + 1 /\ exists e, err = Errorf "error while binding as root: %w" [e])
            /\ BasicAuth_Middleware named sampleFactory DefaultBasicAuthErrorHandler (Required served) aliceRequest world1
               = DefaultBasicAuthErrorHandler (withAuthErr err aliceRequest) w')).
Proof. split; [reflexivity|]. by apply (basic_protected named sampleFactory DefaultBasicAuthErrorHandler served aliceRequest world1). Defined.

(** A wrong password gets a 500. *)
Example wrong_password_answer :
  BasicAuth_Middleware named sampleFactory DefaultBasicAuthErrorHandler (Required served)
    (mkRequest (Some ("alice", "wander")) [] None None) world1
  = (Ok (mkReply 500 false), world1).
Proof. apply (wrong_password_500 _ _ _ _ _ "alice" "wander"); [done|done|apply alice_refused]. Qed.

(** ** Tokens *)

Definition claimsTuple (c : Claims) : (string * string) * (option Z * option Z * option Z * bool) :=
  (Issuer c, Subject c, (ClaimsExpiresAt c, NotBefore c, IssuedAt c, ClaimsAdmin c)).
Definition tupleClaims (t : (string * string) * (option Z * option Z * option Z * bool)) : Claims :=
  let '(i, s, (e, n, a, b)) := t in mkClaims i s e n a b.

#[export] Instance Claims_eq_dec : EqDecision Claims.
Proof. solve_decision. Defined.
#[export] Instance Claims_countable : Countable Claims.
Proof. refine (inj_countable' claimsTuple tupleClaims _). by intros []. Defined.

Definition tokenOf (secret : string) (c : Claims) : string := "." +:+ bits (countable.encode (secret, c)).

Definition aliveBool (now : Z) (c : Claims) : bool :=
  match ClaimsExpiresAt c with Some t => now <? t | None => true end
  && match NotBefore c with Some t => t <=? now | None => true end.

(** The claims that a token holds, when it is made with that secret. *)
Definition claimsIn (secret token : string) : option Claims :=
  match token with
  | String _ s =>
      match (countable.decode (unbits s) : option (string * Claims)) with
      | Some (_, c) => if (tokenOf secret c =? token)%string then Some c else None
      | None => None
      end
  | EmptyString => None
  end.

Definition sampleJWT : JWT := {|
  NewNumericDate t := t - t mod Second;
  SignedString c secret := Ok (tokenOf secret c);
  ParseWithClaims token secret now :=
    match claimsIn secret token with
    | Some c => if aliveBool now c then Ok c else Err (PlainError "token is expired")
    | None => Err (PlainError "signature is invalid")
    end
|}.

Lemma aliveBool_spec now c : aliveBool now c = true <-> alive now c.
Proof.
  unfold aliveBool, alive. rewrite andb_true_iff. destruct (ClaimsExpiresAt c) as [e|], (NotBefore c) as [n|].
  all: split; [intros [H1 H2]; split; intros t Ht; try done; injection Ht as <-; lia|].
  all: intros [H1 H2]; split; try done; try (specialize (H1 _ eq_refl)); try (specialize (H2 _ eq_refl)); lia.
Qed.

Lemma claimsIn_tokenOf secret c : claimsIn secret (tokenOf secret c) = Some c.
Proof.
  unfold claimsIn. destruct (tokenOf secret c) as [|a s] eqn:E; [done|].
  assert (s = bits (countable.encode (secret, c))) as -> by by injection E.
  by rewrite unbits_bits, decode_encode, E, String.eqb_refl.
Qed.

Lemma claimsIn_spec secret token c : claimsIn secret token = Some c <-> token = tokenOf secret c.
Proof.
  split; [|intros ->; apply claimsIn_tokenOf]. unfold claimsIn. destruct token as [|a s]; [done|].
  destruct (countable.decode (unbits s) : option (string * Claims)) as [[s' c']|]; [|done].
  destruct (String.eqb_spec (tokenOf secret c') (String a s)) as [E|E]; [|done]. by intros [= <-].
Qed.

#[export] Instance sampleJWT_laws : JWTLaws sampleJWT.
Proof.
  refine {| signedWith := fun secret token c => token = tokenOf secret c |}.
  - done.
  - intros c s _ _ _. by exists (tokenOf s c).
  - intros s token c c' H1 H2. apply claimsIn_spec in H1, H2. congruence.
  - intros token s now. cbn. destruct (claimsIn s token) as [c|] eqn:E.
    + apply claimsIn_spec in E as ->. destruct (aliveBool now c) eqn:EA.
      * split; [done|]. by apply aliveBool_spec.
      * intros c' H. assert (c = c') as <-.
        { apply (f_equal (claimsIn s)) in H. rewrite !claimsIn_tokenOf in H. by injection H. }
        rewrite <- aliveBool_spec. by rewrite EA.
    + intros c ->. by rewrite claimsIn_tokenOf in E.
Defined.

#[local] Existing Instance sampleJWT.

Definition sampleAuth : JWTAuth := mkJWTAuth "hunter2" "files" (3600 * Second) "/" true.
Definition aliceClaims : Claims := mkClaims "files" "alice" (Some (3605 * Second)) (Some (5 * Second)) (Some (5 * Second)) true.
Definition aliceCookie : Cookie :=
  mkCookie cookieName (tokenOf "hunter2" aliceClaims) "/" (Some (3605 * Second + 7)) true true.

Lemma alice_login :
  JWTAuth_Authenticate named sampleFactory sampleAuth (5 * Second + 7) "alice" "wonder" world1
  = (Ok (aliceCookie, mkAuth None "alice" true), world1).
Proof. unfold JWTAuth_Authenticate, bind. rewrite alice_authenticated. reflexivity. Qed.

Definition cookieRequest : Request := mkRequest None [(cookieName, Value aliceCookie)] None None.

Lemma session_cookie_witness :
  JWTAuth_Middleware sampleAuth (3000 * Second) served cookieRequest world1
  = (if 3000 * Second <? NewNumericDate (5 * Second + 7 + duration sampleAuth)
     then served (withAuth (mkAuth (Some (NewNumericDate (5 * Second + 7 + duration sampleAuth))) "alice" true) cookieRequest) world1
     else served cookieRequest world1).
Proof.
  apply (session_cookie named sampleFactory sampleAuth (5 * Second + 7) (3000 * Second) "alice" "wonder" world1
           world1 aliceCookie (mkAuth None "alice" true) served cookieRequest).
  - apply alice_login.
  - reflexivity.
  - done.
Defined.

Definition aliceLogin : login := mkLogin (5 * Second + 7) world1 "alice" "wonder" aliceCookie.

Lemma session_authentic_witness :
  JWTAuth_Middleware sampleAuth (3000 * Second) (Required served) cookieRequest world1
    = (Ok (mkReply StatusUnauthorized true), world1)
  \/ exists e admin expires,
       e ∈ [aliceLogin]
       /\ JWTAuth_Middleware sampleAuth (3000 * Second) (Required served) cookieRequest world1
          = served (withAuth (mkAuth (Some expires) (loginUser e) admin) cookieRequest) world1
       /\ vouches named sampleFactory (loginWorld e) (loginUser e) (loginPassword e) admin
       /\ loginAt e - Second < 3000 * Second < loginAt e + duration sampleAuth.
Proof.
  apply (session_authentic named sampleFactory sampleAuth [aliceLogin]).
  - apply (logins_more named sampleFactory sampleAuth [] (5 * Second + 7) "alice" "wonder" world1 aliceCookie
             (mkAuth None "alice" true) world1); [constructor|apply alice_login].
  - reflexivity.
  - intros token claims [H|[]%not_elem_of_nil]%elem_of_cons _. injection H as ->.
    exists aliceLogin. split; [by left|done].
Defined.

(** ** The pool *)

Definition pool1 : pool := mkPool 0 [] [Dialing] [Asking] 0 false.

Lemma pool1_reachable : reachable 1 1 pool1.
Proof.
  eapply rtc_l; [apply step_call|]. eapply rtc_l; [|apply rtc_refl].
  apply step_move. exact (fill_demand 1 (mkPool 1 [] [Waiting] [Asking] 0 false) 0 0 eq_refl eq_refl).
Qed.

Lemma pool_safe_witness : cancelled pool1 = false /\ slots pool1 = 1%nat.
Proof. split; [reflexivity|]. by apply (pool_safe 1 1 pool1 pool1_reachable). Defined.

Lemma pool_progress_witness :
  exists s', move 1 pool1 s' /\ (source pool1 <> [] -> exists c, getters s' !! 0%nat = Some (Received c)).
Proof.
  apply (pool_progress 1 1 pool1 0 pool1_reachable); [lia|reflexivity| |reflexivity].
  exists 0%nat, Dialing. split; [reflexivity|discriminate].
Defined.

(** With one worker the last Done panics when it ends. *)
Example one_worker_stops : wgAll (runDeltas 1 ++ endDeltas) 0 = Panic "sync: negative WaitGroup counter".
Proof. reflexivity. Qed.
