(* ===== verification/Supervisor.v ===== *)
(** * The supervision of services

    lib/run: the start of the services one after the other and the wait for their errors
    (run.go), and the runnables that run as one (combine.go), as transition systems of
    their goroutines.  What a service does is any sequence of notifications and an end. *)

From stdpp Require Import base list relations.
From S2P Require Import Prelude.
#[local] Open Scope nat_scope.
#[local] Set Warnings "-register-all,-clear-no-such-hyp".

Definition ErrTimeout : error := PlainError "timed out".
Definition ErrPanic : error := PlainError "caught panic".

(** ** run.go *)

(** The goroutine of [watch]: not started, in [Run] of the service, about to send the
    error of the service, or ended. *)
Inductive phase : Type :=
| NotStarted
| Running
| Failing (e : error)
| Ended.

(** [notify]: whether it was sent, and its channel, which has room for one: a nil or an
    error. *)
Record service : Type := mkService { sent : bool; ch : option (option error); phaseOf : phase }.

(** The goroutine of [Run.Run]: about to start a service, waiting for it, waiting for an
    error or the end of the context, or returned. *)
Inductive mainPhase : Type :=
| Starting (i : nat)
| Awaiting (i : nat)
| Watching
| Returned (e : option error).

Record runState : Type := mkRun { services : list service; main : mainPhase; cancelled : bool }.

Definition newRun (n : nat) : runState := mkRun (replicate n (mkService false None NotStarted)) (Starting 0) false.

Definition at_ (i : nat) (v : service) (s : runState) : runState :=
  mkRun (<[i := v]> (services s)) (main s) (cancelled s).
Definition goto (m : mainPhase) (s : runState) : runState := mkRun (services s) m (cancelled s).

(** [Notify]: the channel is not waited for. *)
Definition Notify (v : service) : service :=
  mkService true (match ch v with None => Some None | c => c end) (phaseOf v).

(** [wrap]: the error of a service that failed or panicked. *)
Definition wrap (panicked : bool) (e : error) : error :=
  if panicked then Errorf "error in component %q: %w. Trace: %s" [ErrPanic] else e.

Inductive runStep : runState -> runState -> Prop :=
| run_start s i v :
    main s = Starting i -> services s !! i = Some v ->
    runStep s (goto (Awaiting i) (at_ i (mkService (sent v) (ch v) Running) s))
| run_started s i :
    main s = Starting i -> services s !! i = None -> runStep s (goto Watching s)
| run_notify s i v :
    services s !! i = Some v -> phaseOf v = Running -> runStep s (at_ i (Notify v) s)
| run_end s i v :
    services s !! i = Some v -> phaseOf v = Running ->
    runStep s (at_ i (mkService (sent v) (ch v) Ended) s)
| run_fail s i v panicked e :
    services s !! i = Some v -> phaseOf v = Running ->
    runStep s (at_ i (mkService (sent v) (ch v) (Failing (wrap panicked e))) s)
| run_notifyError s i v e :
    services s !! i = Some v -> phaseOf v = Failing e -> sent v = false -> ch v = None ->
    runStep s (at_ i (mkService false (Some (Some e)) Ended) s)
| run_error s i v e :
    services s !! i = Some v -> phaseOf v = Failing e -> sent v = true -> main s = Watching ->
    runStep s (goto (Returned (Some e)) (at_ i (mkService true (ch v) Ended) s))
| run_received s i v :
    main s = Awaiting i -> services s !! i = Some v -> ch v = Some None ->
    runStep s (goto (Starting (S i)) (at_ i (mkService (sent v) None (phaseOf v)) s))
| run_failed s i v e :
    main s = Awaiting i -> services s !! i = Some v -> ch v = Some (Some e) ->
    runStep s (goto (Returned (Some (Errorf "error while starting service: %w" [e])))
                 (at_ i (mkService (sent v) None (phaseOf v)) s))
| run_timeout s i :
    main s = Awaiting i ->
    runStep s (goto (Returned (Some (Errorf "error while starting service: %w"
                 [Errorf "service %q failed to start after %s: %w" [ErrTimeout]]))) s)
| run_done s :
    main s = Watching -> cancelled s = true -> runStep s (goto (Returned None) s)
| run_cancel s : runStep s (mkRun (services s) (main s) true).

Definition runs (n : nat) : runState -> Prop := rtc runStep (newRun n).

(** How many services the main goroutine has begun and how many it has seen started. *)
Definition begun (m : mainPhase) (n : nat) : nat :=
  match m with Starting i => i | Awaiting i => S i | _ => n end.
Definition seen (m : mainPhase) (n : nat) : nat :=
  match m with Starting i | Awaiting i => i | _ => n end.

Record serviceInv (v : service) : Prop := {
  (** A channel holds a nil only if it was notified, and an error only at the end. *)
  nil_sent : ch v = Some None -> sent v = true;
  error_ended e : ch v = Some (Some e) -> sent v = false /\ phaseOf v = Ended;
  failing_free e : phaseOf v = Failing e -> sent v = false -> ch v = None;
  idle_fresh : phaseOf v = NotStarted -> sent v = false /\ ch v = None
}.

(** The order of the start: what the main goroutine knows, until it returns an error,
    and what stays true whatever happens. *)
Record runInv (n : nat) (s : runState) : Prop := {
  run_length : length (services s) = n;
  run_services : forall i v, services s !! i = Some v -> serviceInv v;
  run_main : match main s with Starting i => i <= n | Awaiting i => i < n | _ => True end;
  run_idle : match main s with Returned _ => True | m =>
    forall i v, services s !! i = Some v -> begun m n <= i -> phaseOf v = NotStarted end;
  run_sent : match main s with Returned (Some _) => True | m =>
    forall i v, services s !! i = Some v -> i < seen m n -> sent v = true end;
  run_ordered : forall i j v w, services s !! i = Some v -> services s !! j = Some w ->
    j < i -> phaseOf v <> NotStarted -> sent w = true;
  run_cancelled : main s = Returned None -> cancelled s = true
}.

(** A goroutine of a service that has begun goes on. *)
Lemma runInv_service n s i v v' :
  runInv n s -> services s !! i = Some v -> serviceInv v' ->
  (sent v = true -> sent v' = true) -> (phaseOf v' = NotStarted <-> phaseOf v = NotStarted) ->
  runInv n (at_ i v' s).
Proof.
  intros [H1 H2 H3 H4 H5 H6 H7] Hi Hv Hs Hp.
  assert (forall k w, services (at_ i v' s) !! k = Some w -> exists w0, services s !! k = Some w0
            /\ serviceInv w /\ (sent w0 = true -> sent w = true) /\ (phaseOf w = NotStarted <-> phaseOf w0 = NotStarted)) as HU.
  { intros k w Hk. cbn in Hk. apply list_lookup_insert_Some in Hk as [(-> & <- & _)|[Hn Hk]].
    - by exists v.
    - exists w. split; [done|]. split; [by eapply H2|done]. }
  split; cbn [main services at_ cancelled] in *; try done.
  - by rewrite length_insert.
  - intros k w Hk. by destruct (HU _ _ Hk) as (? & _ & ? & _).
  - destruct (main s); try done; intros k w Hk Hb; destruct (HU _ _ Hk) as (w0 & E & _ & _ & ->);
      by eapply H4.
  - destruct (main s) as [| | |[]]; try done; intros k w Hk Hb; destruct (HU _ _ Hk) as (w0 & E & _ & Hw & _);
      apply Hw; by eapply H5.
  - intros k j w u Hk Hj Hlt Hw. destruct (HU _ _ Hk) as (w0 & E & _ & _ & Hw0), (HU _ _ Hj) as (u0 & E' & _ & Hu & _).
    apply Hu. eapply H6; [exact E|exact E'|done|]. by rewrite <- Hw0.
Qed.

Lemma serviceInv_Notify v : serviceInv v -> phaseOf v = Running -> serviceInv (Notify v).
Proof.
  intros [H1 H2 H3 H4] Hp. split; cbn; try done.
  - intros e He. destruct (ch v) as [c|] eqn:E; [|done]. injection He as ->.
    destruct (H2 e eq_refl) as [_ ?]. congruence.
  - congruence.
Qed.

Lemma runStep_inv n s s' : runInv n s -> runStep s s' -> runInv n s'.
Proof.
  intros HI Hst. pose proof HI as [H1 H2 H3 H4 H5 H6 H7].
  destruct Hst as [s i v Hm Hi|s i Hm Hi|s i v Hi Hp|s i v Hi Hp|s i v pan e Hi Hp|s i v e Hi Hp Hs Hc
                  |s i v e Hi Hp Hs Hm|s i v Hm Hi Hc|s i v e Hm Hi Hc|s i Hm|s Hm Hc|s].
  - (* run_start *)
    rewrite Hm in *. destruct (H2 _ _ Hi) as [V1 V2 V3 V4].
    assert (phaseOf v = NotStarted) as Ev by (by eapply H4).
    destruct (V4 Ev) as [Es Ec].
    split; cbn; try done.
    + by rewrite length_insert.
    + intros k w [(-> & <- & _)|[Hn Hk]]%list_lookup_insert_Some; [|by eapply H2].
      split; cbn; rewrite ?Es, ?Ec; done.
    + rewrite <- H1. by eapply lookup_lt_Some.
    + intros k w [(-> & <- & _)|[Hn Hk]]%list_lookup_insert_Some Hb; [lia|]. eapply H4; [done|cbn; lia].
    + intros k w [(-> & <- & _)|[Hn Hk]]%list_lookup_insert_Some Hb; [lia|]. by eapply H5.
    + intros k j w u Hk [(-> & <- & _)|[Hn Hj]]%list_lookup_insert_Some Hlt Hw.
      * apply list_lookup_insert_Some in Hk as [(-> & <- & _)|[Hn Hk]]; [lia|].
        destruct Hw. eapply H4; [done|cbn; lia].
      * apply list_lookup_insert_Some in Hk as [(-> & <- & _)|[Hn' Hk]]; [by eapply H5|].
        exact (H6 k j w u Hk Hj Hlt Hw).
  - (* run_started *)
    rewrite Hm in *. apply lookup_ge_None in Hi. split; cbn; try done.
    + intros k w Hk Hb. apply lookup_lt_Some in Hk. lia.
    + intros k w Hk Hb. eapply H5; [done|]. cbn. lia.
  - apply (runInv_service _ _ _ v); try done. apply serviceInv_Notify; [by eapply H2|done].
  - apply (runInv_service _ _ _ v); try done; [|cbn; rewrite Hp; done].
    destruct (H2 _ _ Hi) as [V1 V2 V3 V4]. split; cbn; try done.
    intros e He. split; [|done]. by apply (V2 e).
  - apply (runInv_service _ _ _ v); try done; [|cbn; rewrite Hp; done].
    destruct (H2 _ _ Hi) as [V1 V2 V3 V4]. split; cbn; try done.
    + intros e0 He. destruct (V2 e0 He). congruence.
    + intros e0 _ Hs. destruct (ch v) as [[e1|]|] eqn:E; [|by specialize (V1 eq_refl); congruence|done].
      destruct (V2 e1 eq_refl). congruence.
  - apply (runInv_service _ _ _ v); try done; [cbn; congruence|cbn; by rewrite Hp].
  - (* run_error *)
    assert (runInv n (at_ i (mkService true (ch v) Ended) s)) as [I1 I2 I3 I4 I5 I6 I7].
    { apply (runInv_service _ _ _ v); try done; [|cbn; rewrite Hp; done].
      destruct (H2 _ _ Hi) as [V1 V2 V3 V4]. split; cbn; try done.
      intros e0 He. destruct (V2 e0 He). congruence. }
    split; cbn; try done.
  - (* run_received *)
    destruct (H2 _ _ Hi) as [V1 V2 V3 V4]. specialize (V1 Hc).
    assert (runInv n (at_ i (mkService (sent v) None (phaseOf v)) s)) as [I1 I2 I3 I4 I5 I6 I7].
    { apply (runInv_service _ _ _ v); try done. split; cbn; try done.
      intros Hp. destruct (V4 Hp). congruence. }
    cbn in I4, I5. rewrite Hm in H3, I4, I5. split; cbn; try done; try lia.
    intros k w Hk Hb. destruct (decide (k = i)) as [->|Hn]; [|eapply I5; [done|cbn; lia]].
    apply list_lookup_insert_Some in Hk as [(_ & <- & _)|[Hn Hk]]; done.
  - (* run_failed *)
    destruct (H2 _ _ Hi) as [V1 V2 V3 V4].
    assert (runInv n (at_ i (mkService (sent v) None (phaseOf v)) s)) as [I1 I2 I3 I4 I5 I6 I7].
    { apply (runInv_service _ _ _ v); try done. split; cbn; try done.
      intros Hp. destruct (V4 Hp). congruence. }
    split; cbn; try done.
  - split; cbn; try done.
  - split; cbn; try done. rewrite Hm in H5. exact H5.
  - split; cbn; try done.
Qed.

Lemma newRun_inv n : runInv n (newRun n).
Proof.
  split; cbn; try done; try lia.
  - apply length_replicate.
  - intros i v Hv%lookup_replicate. destruct Hv as [-> _]. by split.
  - by intros i v [-> _]%lookup_replicate.
  - intros i j v w [-> _]%lookup_replicate. done.
Qed.

Lemma runs_inv n s : runs n s -> runInv n s.
Proof.
  intros H. unfold runs in H. remember (newRun n) as s0 eqn:E.
  assert (runInv n s0) as H0 by (subst; apply newRun_inv). clear E.
  induction H as [|s1 s2 s3 Hs _ IH]; [done|]. by apply IH, (runStep_inv n s1).
Qed.

(** C37: Services are started one after the other: when one has begun, all that were added
    before it have notified.  The supervisor returns without an error only when its
    context was cancelled after all have notified.  A service that fails before it
    notified never blocks on its channel, and while the supervisor watches, the error of
    a service that failed can be returned. *)
Theorem run_supervised (n : nat) (s : runState) :
  runs n s ->
  (forall i j v w, services s !! i = Some v -> services s !! j = Some w -> j < i ->
     phaseOf v <> NotStarted -> sent w = true)
  /\ (main s = Returned None -> cancelled s = true /\ forall i v, services s !! i = Some v -> sent v = true)
  /\ (forall i v e, services s !! i = Some v -> phaseOf v = Failing e -> sent v = false -> ch v = None)
  /\ (forall i v e, services s !! i = Some v -> phaseOf v = Failing e -> main s = Watching ->
        exists s', runStep s s' /\ main s' = Returned (Some e)).
Proof.
  intros [H1 H2 H3 H4 H5 H6 H7]%runs_inv. split; [exact H6|]. split; [|split].
  - intros Hm. split; [by apply H7|]. rewrite Hm in H5. intros i v Hi. eapply H5; [done|].
    cbn. rewrite <- H1. by eapply lookup_lt_Some.
  - intros i v e Hi. destruct (H2 _ _ Hi) as [_ _ H _]. apply H.
  - intros i v e Hi He Hm. eexists. split; [eapply run_error; try done|done].
    rewrite Hm in H5. eapply H5; [done|]. cbn. rewrite <- H1. by eapply lookup_lt_Some.
Qed.

(** A service that returns without an error before it notified leaves the supervisor
    waiting: only the timeout ends it. *)
Lemma silent_end_waits s i v s' :
  main s = Awaiting i -> services s !! i = Some v -> phaseOf v = Ended -> ch v = None ->
  runStep s s' ->
  (exists e, main s' = Returned (Some e)) \/ (main s' = Awaiting i /\ exists v', services s' !! i = Some v' /\ phaseOf v' = Ended /\ ch v' = None).
Proof.
  intros Hm Hi Hp Hc Hst.
  assert (forall k w w', services s !! k = Some w -> phaseOf w <> Ended ->
            exists v', services (at_ k w' s) !! i = Some v' /\ phaseOf v' = Ended /\ ch v' = None) as Hk.
  { intros k w w' Hk Hw. exists v. split; [|done]. cbn. rewrite list_lookup_insert_ne; [done|].
    intros E. subst k. rewrite Hi in Hk. injection Hk as <-. done. }
  destruct Hst as [s k w Hm'|s k Hm'|s k w Hk' Hp'|s k w Hk' Hp'|s k w pan e Hk' Hp'|s k w e Hk' Hp'
                  |s k w e Hk' Hp' Hs' Hm'|s k w Hm' Hk' Hc'|s k w e Hm' Hk' Hc'|s k Hm'|s Hm' Hc'|s];
    try congruence; try (right; split; [done|]; eapply Hk; [done|congruence]);
    rewrite Hm in *; simplify_eq.
  - left. by eexists.
  - right. split; [done|]. by exists v.
Qed.

(** ** combine.go *)

(** A runnable before it calls Notify, between its Add and its Load, and after. *)
Inductive notifier : Type := Silent | Added | Notified.

Record combined : Type := mkCombined { notifiers : list notifier; counter : nat; lower : nat }.

Definition newCombined (total : nat) : combined := mkCombined (replicate total Silent) 0 0.

Inductive combinedStep (total : nat) : combined -> combined -> Prop :=
| combined_add c i :
    notifiers c !! i = Some Silent ->
    combinedStep total c (mkCombined (<[i := Added]> (notifiers c)) (S (counter c)) (lower c))
| combined_load c i :
    notifiers c !! i = Some Added ->
    combinedStep total c (mkCombined (<[i := Notified]> (notifiers c)) (counter c)
      (if counter c =? total then S (lower c) else lower c)).

Definition silent (x : notifier) : nat := match x with Silent => 1 | _ => 0 end.

Record combinedInv (total : nat) (c : combined) : Prop := {
  comb_length : length (notifiers c) = total;
  comb_count : counter c + sum_list_with silent (notifiers c) = total;
  comb_lower : 0 < lower c -> counter c = total;
  comb_last : counter c = total -> 0 < total -> 0 < lower c \/ exists i, notifiers c !! i = Some Added
}.

Lemma combinedStep_inv total c c' : combinedInv total c -> combinedStep total c c' -> combinedInv total c'.
Proof.
  intros [H1 H2 H3 H4] Hst. destruct Hst as [c i Hi|c i Hi];
    cbn [notifiers counter lower] in *.
  - pose proof (replace_sum silent _ _ _ Added Hi) as HS. cbn [silent] in HS. split; cbn [notifiers counter lower].
    + by rewrite length_insert.
    + lia.
    + intros Hl. specialize (H3 Hl). lia.
    + intros _ _. right. exists i. apply list_lookup_insert_eq. by eapply lookup_lt_Some.
  - pose proof (replace_sum silent _ _ _ Notified Hi) as HS. cbn [silent] in HS. split; cbn [notifiers counter lower].
    + by rewrite length_insert.
    + lia.
    + destruct (Nat.eqb_spec (counter c) total); [done|exact H3].
    + intros Ht _. rewrite Ht, Nat.eqb_refl. left. lia.
Qed.

Lemma silent_replicate n : sum_list_with silent (replicate n Silent) = n.
Proof. induction n as [|n IH]; [done|]. cbn [replicate sum_list_with silent]. by rewrite IH. Qed.

(** Runnables that run as one and each notify once, however their calls interleave:
    the notification is never passed on before the last of them has notified, and by
    the time all calls have returned it was. *)
Theorem combined_notify (total : nat) (c : combined) :
  rtc (combinedStep total) (newCombined total) c ->
  (0 < lower c -> forall i, notifiers c !! i <> Some Silent)
  /\ (0 < total -> (forall i, i < total -> notifiers c !! i = Some Notified) -> 0 < lower c).
Proof.
  intros H. assert (combinedInv total c) as [H1 H2 H3 H4].
  { remember (newCombined total) as c0 eqn:E.
    assert (combinedInv total c0) as H0.
    { subst. split; cbn [notifiers counter lower newCombined]; try lia; [apply length_replicate|].
      rewrite silent_replicate. lia. }
    clear E. induction H as [|c1 c2 c3 Hs _ IH]; [done|]. by apply IH, (combinedStep_inv total c1). }
  split.
  - intros Hl i Hi. specialize (H3 Hl). pose proof (replace_sum silent _ _ _ Added Hi) as HS. cbn [silent] in HS. lia.
  - intros Ht Hall.
    assert (forall x, x ∈ notifiers c -> silent x = 0) as Hx.
    { intros x [i Hi]%list_elem_of_lookup. pose proof (lookup_lt_Some _ _ _ Hi).
      rewrite Hall in Hi by lia. by injection Hi as <-. }
    assert (sum_list_with silent (notifiers c) = 0) as Hs.
    { clear -Hx. induction (notifiers c) as [|a l IH]; [done|]. cbn [sum_list_with].
      rewrite (Hx a) by left. apply IH. intros x Hl. apply Hx. by right. }
    assert (counter c = total) as Hc by lia.
    destruct (H4 Hc Ht) as [?|[i Hi]]; [done|].
    pose proof (lookup_lt_Some _ _ _ Hi). rewrite Hall in Hi by lia. done.
Qed.

(** With none to run there is no notification at all, and the start times out. *)
Lemma combined_none c : rtc (combinedStep 0) (newCombined 0) c -> c = newCombined 0.
Proof.
  intros H. remember (newCombined 0) as c0 eqn:E. induction H as [|c1 c2 c3 Hs _ IH]; [done|].
  subst. inversion Hs as [c i Hi|c i Hi]; subst; done.
Qed.

(** ** Examples *)

Definition oneRunning : runState := mkRun [mkService false None Running; mkService false None NotStarted] (Awaiting 0) false.

Lemma oneRunning_runs : runs 2 oneRunning.
Proof. eapply rtc_l; [|apply rtc_refl]. exact (run_start (newRun 2) 0 _ eq_refl eq_refl). Qed.

Lemma run_supervised_witness :
  runs 2 oneRunning /\ (main oneRunning = Returned None -> cancelled oneRunning = true).
Proof.
  split; [apply oneRunning_runs|]. intros H. by apply (run_supervised 2 oneRunning oneRunning_runs).
Defined.

Definition bothNotified : combined := mkCombined [Notified; Notified] 2 2.

(** Both have added before either loads: the notification is passed on twice. *)
Lemma bothNotified_reached : rtc (combinedStep 2) (newCombined 2) bothNotified.
Proof.
  eapply rtc_l; [exact (combined_add 2 (newCombined 2) 0 eq_refl)|].
  eapply rtc_l; [exact (combined_add 2 (mkCombined [Added; Silent] 1 0) 1 eq_refl)|].
  eapply rtc_l; [exact (combined_load 2 (mkCombined [Added; Added] 2 0) 0 eq_refl)|].
  eapply rtc_l; [exact (combined_load 2 (mkCombined [Notified; Added] 2 1) 1 eq_refl)|]. apply rtc_refl.
Qed.

Lemma combined_notify_witness : 0 < lower bothNotified -> forall i, notifiers bothNotified !! i <> Some Silent.
Proof. apply (combined_notify 2 bothNotified bothNotified_reached). Defined.
