(* ===== verification/GoMaps.v ===== *)
(** * Maps and sorting

    What Go leaves open: the order of an iteration over a map, each time, and the order in
    which [slices.SortFunc] leaves elements that compare equal.  The components that
    iterate or sort are proved for every order; [stdOrder] is one of them. *)

From stdpp Require Import gmap sorting.
From S2P Require Import Prelude.
#[local] Open Scope Z_scope.

(** [n] tells one iteration from another. *)
Class GoOrder : Type := {
  rangeOver : forall {K V} `{Countable K}, nat -> gmap K V -> list (K * V);
  rangeSet : forall {K} `{Countable K}, nat -> gset K -> list K;
  sortFunc : forall {A}, (A -> A -> Z) -> list A -> list A
}.

Definition notAbove {A} (cmp : A -> A -> Z) (x y : A) : Prop := cmp x y <= 0.
#[export] Instance notAbove_dec {A} (cmp : A -> A -> Z) : RelDecision (notAbove cmp).
Proof. intros x y. unfold notAbove. apply _. Defined.

Class GoOrderLaws (O : GoOrder) : Prop := {
  rangeOver_all {K V} `{Countable K} n (m : gmap K V) : rangeOver n m ≡ₚ map_to_list m;
  rangeSet_all {K} `{Countable K} n (s : gset K) : rangeSet n s ≡ₚ elements s;
  sortFunc_all {A} (cmp : A -> A -> Z) l : sortFunc cmp l ≡ₚ l;
  sortFunc_sorted {A} (cmp : A -> A -> Z) l :
    Total (notAbove cmp) -> Transitive (notAbove cmp) -> StronglySorted (notAbove cmp) (sortFunc cmp l)
}.

Definition stdOrder : GoOrder := {|
  rangeOver K V _ _ n m := map_to_list m;
  rangeSet K _ _ n s := elements s;
  sortFunc A cmp l := merge_sort (notAbove cmp) l
|}.

#[export] Instance stdOrder_laws : GoOrderLaws stdOrder.
Proof.
  split; [done|done| |].
  - intros A cmp l. apply merge_sort_Permutation.
  - intros A cmp l H1 H2. by apply StronglySorted_merge_sort.
Qed.

Section Order.
Context {O : GoOrder} {L : GoOrderLaws O}.

Lemma elem_rangeOver `{Countable K} {V} n (m : gmap K V) k v : (k, v) ∈ rangeOver n m <-> m !! k = Some v.
Proof using L. rewrite rangeOver_all. apply elem_of_map_to_list. Qed.

Lemma elem_rangeSet `{Countable K} n (s : gset K) k : k ∈ rangeSet n s <-> k ∈ s.
Proof using L. rewrite rangeSet_all. apply elem_of_elements. Qed.

Lemma elem_sortFunc {A} (cmp : A -> A -> Z) l x : x ∈ sortFunc cmp l <-> x ∈ l.
Proof using L. by rewrite sortFunc_all. Qed.

(** A sort is determined when only equal elements compare equal. *)
Lemma sortFunc_unique {A} (cmp : A -> A -> Z) l1 l2 :
  Total (notAbove cmp) -> Transitive (notAbove cmp) ->
  (forall x y, x ∈ l1 -> y ∈ l1 -> notAbove cmp x y -> notAbove cmp y x -> x = y) ->
  l1 ≡ₚ l2 -> sortFunc cmp l1 = sortFunc cmp l2.
Proof using L.
  intros HT HR HA HP.
  apply (StronglySorted_unique_strong (notAbove cmp)); [| | |].
  - intros x1 x2 H1%elem_sortFunc H2%elem_sortFunc. rewrite <- HP in H2. by apply HA.
  - by apply sortFunc_sorted.
  - by apply sortFunc_sorted.
  - by rewrite !sortFunc_all.
Qed.
End Order.
