(* ===== verification/UiRender.v ===== *)
(** * The rendering of pages

    lib/ui: the styles of components (style.go), the context in which a component is
    rendered (context.go), the dependencies that the renderer serves and the tags that a
    page needs for them (render.go); lib/ui/http: what the browser says that it has
    loaded (request.go) and the dependencies it asks for (dependencies.go).

    A component is what it asks of its context until it gives its node.  The encoding of
    identifiers and of lists of texts are parameters; the order of a map is that of
    [GoOrder]. *)

From stdpp Require Import gmap strings.
From S2P Require Import Prelude GoStrings GoSearch GoPath GoMaps Linearize.
From Stdlib Require Import Strings.Ascii.
#[local] Open Scope Z_scope.
#[local] Set Warnings "-clear-no-such-hyp".

(** ** style.go *)

(** A style and its address: the keys of the maps are pointers. *)
Record Style : Type := mkStyle {
  address : nat;
  style_id : string;
  css : string;
  style_dependencies : list Dependency
}.

Class Sqids : Type := { EncodeId : Z -> outcome string }.

(** The letters of [[a-zA-Z0-9\-]]. *)
Definition varLetter (c : ascii) : bool :=
  let n := Z.of_nat (nat_of_ascii c) in
  ((97 <=? n) && (n <=? 122)) || ((65 <=? n) && (n <=? 90)) || ((48 <=? n) && (n <=? 57)) || (n =? 45).

Fixpoint varLetters (s : string) : string :=
  match s with
  | String c s' => if varLetter c then String c (varLetters s') else ""
  | EmptyString => ""
  end.

Definition varPrefix : string := "var(--".

(** [re.FindAllStringSubmatch(css, -1)]: the names after [var(--], from left to right; a
    match starts after the one before it. *)
Fixpoint varsFrom (skip : nat) (s : string) : list string :=
  match s with
  | EmptyString => []
  | String _ s' =>
      match skip with
      | S k => varsFrom k s'
      | O =>
          let name := varLetters (TrimPrefix s varPrefix) in
          if HasPrefix s varPrefix && negb (name =? "")%string
          then name :: varsFrom (Nat.pred (String.length varPrefix + String.length name)) s'
          else varsFrom 0 s'
      end
  end.

Definition styleDependency (name : string) : Dependency :=
  mkDependency DependencyTypeStyle (match Split name "-" with first :: _ => first | [] => "" end).

(** The counter of the package, and the styles made. *)
Record styleState : Type := mkStyles { counter : Z; made : nat }.

Section Styles.
Context {SQ : Sqids}.

Definition ParseStyle (text : string) : Go styleState Style :=
  st <-- get ;;
  match EncodeId (counter st) with
  | Err err => fail (Errorf "error while computing hash for style: %w" [err])
  | Panic p => panic p
  | Diverge => lift Diverge
  | Ok id =>
      put (mkStyles ((counter st + 1) mod 2 ^ 64) (S (made st))) ;;;
      ret (mkStyle (made st) ("s" +:+ id) text (map styleDependency (varsFrom 0 text)))
  end.

Definition MustParseStyle (text : string) : Go styleState Style := fun st =>
  match ParseStyle text st with
  | (Err _, st') => (Panic "error while parsing style: %w", st')
  | r => r
  end.
End Styles.

(** ** component.go and context.go *)

(** A node of the page is any text. *)
Inductive Component : Type :=
| Rendered (node : string)
| Class_ (styles : list Style) (k : string -> Component).

Record renderContext : Type := mkContext {
  ctx_styles : gmap nat Style;
  ctx_dependencies : gset Dependency
}.

Definition register (c : renderContext) (style : Style) : renderContext :=
  mkContext (<[address style := style]> (ctx_styles c))
    (foldl (fun deps dep => {[ dep ]} ∪ deps) (ctx_dependencies c) (style_dependencies style)).

Definition useStyle (c : renderContext) (style : Style) : renderContext :=
  match ctx_styles c !! address style with Some _ => c | None => register c style end.

(** [Class]: the styles are registered once, and their identifiers are the classes. *)
Definition classOf (styles : list Style) : string := Join (map style_id styles) " ".

Fixpoint renderIn (comp : Component) (c : renderContext) : string * renderContext :=
  match comp with
  | Rendered node => (node, c)
  | Class_ styles k => renderIn (k (classOf styles)) (foldl useStyle c styles)
  end.

(** ** render.go *)

Definition ErrInvalidDependencyPath : error := PlainError "invalid dependency path".
Definition ErrMissingDependency : error := PlainError "missing dependency".
Definition ErrDependencyRegistered : error := PlainError "dependency already registered".
Definition ErrDependencyNotRegistered : error := PlainError "dependency not registered".

Record Renderer : Type := mkRenderer {
  dependencies : gmap Dependency string;
  dependencyPaths : gmap Dependency string;
  pathDependencies : gmap string Dependency;
  assetPath : string;
  debug : bool;
  lin : LinearizeState;
  iterations : nat
}.

Definition script (name : string) : Dependency := mkDependency DependencyTypeScript name.
Definition style (name : string) : Dependency := mkDependency DependencyTypeStyle name.
Definition ScriptHTMX : Dependency := script "htmx".
Definition ScriptHTMXResponseTargets : Dependency := script "response-targets".
Definition ScriptHTMXHeadSupport : Dependency := script "head-support".
Definition ScriptTeapotRender : Dependency := script "render".
Definition StyleNormalize : Dependency := style "normalize".
Definition StyleColors : Dependency := style "colors".
Definition StyleFont : Dependency := style "font".

Definition defaultDependencies : gset Dependency :=
  {[ ScriptHTMX; ScriptHTMXResponseTargets; ScriptHTMXHeadSupport; ScriptTeapotRender;
     StyleColors; StyleNormalize; StyleFont ]}.

Definition pageGraph : DependencyGraph :=
  {[ ScriptHTMXResponseTargets := [ScriptHTMX]; ScriptHTMXHeadSupport := [ScriptHTMX];
     ScriptTeapotRender := [ScriptHTMX]; StyleColors := [StyleNormalize]; StyleFont := [StyleNormalize] ]}.

Record AlreadyLoaded : Type := mkLoaded { loadedStyles : gset string; loadedDependencies : gset Dependency }.

Definition AlreadyLoaded_IsEmpty (al : AlreadyLoaded) : bool :=
  bool_decide (loadedStyles al = ∅) && bool_decide (loadedDependencies al = ∅).
Definition EmptyAlreadyLoaded : AlreadyLoaded := mkLoaded ∅ ∅.

(** The tags of a page: links to stylesheets, scripts with a source, a style with its
    identifier and text, scripts that register what was loaded. *)
Inductive Tag : Type :=
| LinkTag (href : string)
| ScriptTag (src : string)
| StyleTag (id text : string)
| InjectTag (src : string).

(** Encoding a list of texts as JSON does not fail. *)
Class JsonList : Type := {
  MarshalList : list string -> string;
  UnmarshalList : string -> outcome (list string)
}.
Class JsonListLaws (J : JsonList) : Prop := {
  UnmarshalList_Marshal l : UnmarshalList (MarshalList l) = Ok l;
  MarshalList_some l : MarshalList l <> ""
}.

(** The verb [%x] on bytes. *)
Definition hexDigit (n : nat) : ascii := ascii_of_nat (if (n <? 10)%nat then 48 + n else 87 + n).
Fixpoint hexOf (s : string) : string :=
  match s with
  | EmptyString => ""
  | String c s' => String (hexDigit (nat_of_ascii c / 16)) (String (hexDigit (nat_of_ascii c mod 16)) (hexOf s'))
  end.

(** [strings.ReplaceAll] of a newline. *)
Definition newlineChar : ascii := ascii_of_nat 10.
Definition replaceNewlines (s new : string) : string := Join (Split s newlineChar) new.

Section Render.
Context {R : RangeKeys} {S256 : Sha256} {O : GoOrder} {J : JsonList}.

Definition pathOf (rer : Renderer) (dep : Dependency) (bytes : string) : string :=
  JoinPath [assetPath rer; Dependency_String dep +:+ "-" +:+ hexOf (Sum256 bytes)].

Definition registerOne (rer : Renderer) (dep : Dependency) (bytes : string) : Renderer :=
  let path := pathOf rer dep bytes in
  mkRenderer (<[dep := bytes]> (dependencies rer)) (<[dep := path]> (dependencyPaths rer))
    (<[path := dep]> (pathDependencies rer)) (assetPath rer) (debug rer) (lin rer) (iterations rer).

Definition nextIteration : Go Renderer nat := fun rer =>
  (Ok (iterations rer),
   mkRenderer (dependencies rer) (dependencyPaths rer) (pathDependencies rer) (assetPath rer) (debug rer) (lin rer)
     (S (iterations rer))).

(** One function's dependencies; that the map of all is extended by them once more after
    the loop changes nothing. *)
Definition registerAll (deps : gmap Dependency string) : Go Renderer unit :=
  n <-- nextIteration ;;
  forEach (rangeOver n deps) tt (fun _ d =>
    rer <-- get ;;
    match dependencies rer !! fst d with
    | Some _ => fail (Errorf "error while registering dependency %q: %w" [ErrDependencyRegistered])
    | None => put (registerOne rer (fst d) (snd d))
    end).

(** A function gives dependencies and maybe an error: those it gives with an error are
    registered as well. *)
Definition RegisterDependencies (fns : list (gmap Dependency string * option error)) : Go Renderer unit :=
  errs <-- forEach fns [] (fun errs fn =>
    registerAll (fst fn) ;;;
    ret (errs ++ match snd fn with
                 | Some err => [Errorf "error while loading dependencies at %d: %w" [err]]
                 | None => []
                 end)) ;;
  match errs with [] => ret tt | _ => fail (Errorf "" errs) end.

Definition NewRenderer (path : string) (defaults : list (gmap Dependency string * option error)) : outcome Renderer :=
  match RegisterDependencies defaults (mkRenderer ∅ ∅ ∅ path false (mkLinearize ∅ 0) 0) with
  | (Ok _, rer) => Ok rer
  | (Err err, _) => Err (Errorf "error while registering default dependencies: %w" [err])
  | (Panic p, _) => Panic p
  | (Diverge, _) => Diverge
  end.

Definition Renderer_Dependency (rer : Renderer) (path : string) : outcome (Dependency * string) :=
  if negb (HasPrefix path (assetPath rer)) then Err ErrInvalidDependencyPath
  else match pathDependencies rer !! path with
       | Some dep => Ok (dep, default "" (dependencies rer !! dep))
       | None => Err ErrMissingDependency
       end.

Definition registerScript (target : string) (elements : list string) : string :=
  "(" +:+ MarshalList elements +:+ ").forEach(e => window.teapot." +:+ target +:+ ".add(e))".

Definition dependencyPath (rer : Renderer) (dep : Dependency) : outcome string :=
  match dependencyPaths rer !! dep with
  | Some path => Ok path
  | None => Err (Errorf "could not find path for dependency %q: %w" [ErrDependencyNotRegistered])
  end.

Definition contextRender (component : Component) : string * renderContext :=
  renderIn component (mkContext ∅ defaultDependencies).

(** The renderer's cache of orders. *)
Definition linearizeWith (units : gset Dependency) : Go Renderer (list Dependency) := fun rer =>
  let (r, l) := Linearize units pageGraph (lin rer) in
  (r, mkRenderer (dependencies rer) (dependencyPaths rer) (pathDependencies rer) (assetPath rer) (debug rer) l
        (iterations rer)).

(** The loop over the dependencies. *)
Definition tagDependency (rer : Renderer) (loaded : AlreadyLoaded) (acc : list Tag * list Tag * list Dependency)
    (dep : Dependency) : outcome (list Tag * list Tag * list Dependency) :=
  let '(links, scripts, deps) := acc in
  if decide (dep ∈ loadedDependencies loaded) then Ok acc
  else
    match dependencyPath rer dep with
    | Err err => Err (Errorf "error while rendering dependency tags (script, style): %w" [err])
    | Panic p => Panic p
    | Diverge => Diverge
    | Ok url =>
        if Type_ dep =? DependencyTypeStyle then Ok (links ++ [LinkTag url], scripts, deps ++ [dep])
        else if Type_ dep =? DependencyTypeScript then Ok (links, scripts ++ [ScriptTag url], deps ++ [dep])
        else if Type_ dep =? DependencyTypeInvalid then Ok (links, scripts, deps ++ [dep])
        else Err ErrInvalidDependency
    end.

Fixpoint tagDependencies (rer : Renderer) (loaded : AlreadyLoaded) (acc : list Tag * list Tag * list Dependency)
    (l : list Dependency) : outcome (list Tag * list Tag * list Dependency) :=
  match l with
  | [] => Ok acc
  | dep :: l' => acc' <-? tagDependency rer loaded acc dep ;; tagDependencies rer loaded acc' l'
  end.

(** The rule of a style. *)
Definition ruleOf (dbg : bool) (s : Style) : string :=
  if dbg
  then "." +:+ style_id s +:+ " {" +:+ String newlineChar "" +:+ "  "
       +:+ replaceNewlines (css s) (String newlineChar "  ") +:+ String newlineChar "}"
  else "." +:+ style_id s +:+ "{" +:+ replaceNewlines (css s) "" +:+ "}".

(** The styles that are not loaded, in the order of the map. *)
Definition newStyles (loaded : AlreadyLoaded) (l : list (nat * Style)) : list Style :=
  List.filter (fun s => negb (bool_decide (style_id s ∈ loadedStyles loaded))) (map snd l).

Definition renderWithDependencies (loaded : AlreadyLoaded) (component : Component)
    : Go Renderer (list Tag * list Tag * string) :=
  let (node, ctx) := contextRender component in
  linearized <-- wrapf "error while linearizing dependencies: %w" [] (linearizeWith (ctx_dependencies ctx)) ;;
  rer <-- get ;;
  tagged <-- lift (tagDependencies rer loaded ([], [], []) linearized) ;;
  let '(links, scripts, deps) := tagged in
  n <-- nextIteration ;;
  let styles := newStyles loaded (rangeOver n (ctx_styles ctx)) in
  let stylesheet := Join (map (ruleOf (debug rer)) styles) "" in
  let links := if (stylesheet =? "")%string then links
               else links ++ [StyleTag ("style-" +:+ hexOf (Sum256 stylesheet)) stylesheet] in
  let scripts := match styles with
                 | [] => scripts
                 | _ => scripts ++ [InjectTag (registerScript "styles" (map style_id styles))]
                 end in
  let scripts := match deps with
                 | [] => scripts
                 | _ => scripts ++ [InjectTag (registerScript "dependencies" (map Dependency_String deps))]
                 end in
  ret (links, scripts, node).

(** [Render]: the styles, the scripts, then the component. *)
Definition Render (loaded : AlreadyLoaded) (component : Component) : Go Renderer (list Tag * string) :=
  let! (tags, node) := (res <-- renderWithDependencies loaded component ;;
                        let '(links, scripts, node) := res in ret (links ++ scripts, node)) in
  ret (tags, node).

(** [RenderPage]: the tags go to the end of the page's head, the component to that of its
    body, which gets the extension head-support of htmx. *)
Record Page : Type := mkPage { head : list Tag; hx_ext : string; body : list string }.
Definition RenderPage (loaded : AlreadyLoaded) (component : Component) (headTags : list Tag) (bodyNodes : list string)
    : Go Renderer Page :=
  res <-- renderWithDependencies loaded component ;;
  let '(links, scripts, node) := res in ret (mkPage (headTags ++ links ++ scripts) "head-support" (bodyNodes ++ [node])).

(** ** lib/ui/http *)

Fixpoint parseElements {T} `{Countable T} (fn : string -> outcome T) (l : list string) (result : gset T)
    : outcome (gset T) :=
  match l with
  | [] => Ok result
  | str :: l' =>
      match fn str with
      | Err err => Err (Errorf "error while parsing element %q in header: %w" [err])
      | Panic p => Panic p
      | Diverge => Diverge
      | Ok key => parseElements fn l' ({[ key ]} ∪ result)
      end
  end.

Definition parseSet {T} `{Countable T} (raw : string) (fn : string -> outcome T) : outcome (gset T) :=
  if (raw =? "")%string then Ok ∅
  else
    match UnmarshalList raw with
    | Err err => Err (Errorf "error while parsing header %q: %w" [err])
    | Panic p => Panic p
    | Diverge => Diverge
    | Ok strs => parseElements fn strs ∅
    end.

(** A request of htmx, and the headers X-Teapot-Styles and X-Teapot-Dependencies. *)
Definition AlreadyLoadedFromRequest (isHx : bool) (stylesHeader depsHeader : string) : outcome AlreadyLoaded :=
  if negb isHx then Ok EmptyAlreadyLoaded
  else
    match parseSet stylesHeader (fun s => Ok s) with
    | Err err => Err (Errorf "error while parsing already loaded syles from header %q: %w" [err])
    | Panic p => Panic p
    | Diverge => Diverge
    | Ok styles =>
        match parseSet depsHeader ParseDependency with
        | Err err => Err (Errorf "error while parsing already loaded dependencies from header %q: %w" [err])
        | Panic p => Panic p
        | Diverge => Diverge
        | Ok deps => Ok (mkLoaded styles deps)
        end
    end.

(** [ServeDependencies]: the content type and the body of the answer; a type that the
    switch does not know is an internal error. *)
Definition ServeDependencies (rer : Renderer) (path : string) : outcome (string * string) :=
  match Renderer_Dependency rer path with
  | Err err => Err (Errorf "invalid dependency request: %w" [err])
  | Panic p => Panic p
  | Diverge => Diverge
  | Ok (dep, bytes) =>
      if Type_ dep =? DependencyTypeStyle then Ok ("text/css", bytes)
      else if Type_ dep =? DependencyTypeScript then Ok ("application/javascript", bytes)
      else if Type_ dep =? DependencyTypeInvalid then Ok ("text/plain", bytes)
      else Err (Errorf "could not serve: %w" [ErrInvalidDependencyType])
  end.

(** ** What a page needs *)

(** The styles that a component asks for. *)
Fixpoint used (comp : Component) : list Style :=
  match comp with
  | Rendered _ => []
  | Class_ styles k => styles ++ used (k (classOf styles))
  end.

(** Its node. *)
Fixpoint nodeOf (comp : Component) : string :=
  match comp with
  | Rendered node => node
  | Class_ styles k => nodeOf (k (classOf styles))
  end.

(** What it needs: the dependencies of every page, and those of each style it asks for. *)
Definition required (comp : Component) : gset Dependency :=
  defaultDependencies ∪ list_to_set (flat_map style_dependencies (used comp)).

Lemma elem_required comp d :
  d ∈ required comp <-> d ∈ defaultDependencies \/ exists s, s ∈ used comp /\ d ∈ style_dependencies s.
Proof using Type.
  unfold required. rewrite elem_of_union, elem_of_list_to_set, list_elem_of_In, in_flat_map.
  setoid_rewrite list_elem_of_In. done.
Qed.

(** A pointer is to one style. *)
Definition coherent (l : list Style) : Prop := forall s1 s2, s1 ∈ l -> s2 ∈ l -> address s1 = address s2 -> s1 = s2.

Lemma foldl_deps (l : list Dependency) (d0 : gset Dependency) d : d ∈ foldl (fun deps dep => {[ dep ]} ∪ deps) d0 l <-> d ∈ d0 \/ d ∈ l.
Proof using Type.
  revert d0. induction l as [|a l IH]; intros d0; cbn; [rewrite elem_of_nil; tauto|].
  rewrite IH, elem_of_union, elem_of_singleton, elem_of_cons. tauto.
Qed.

(** A context that has come from [l]. *)
Definition contextOf (l : list Style) (c : renderContext) : Prop :=
  (forall a s, ctx_styles c !! a = Some s <-> s ∈ l /\ address s = a)
  /\ forall d, d ∈ ctx_dependencies c <-> d ∈ defaultDependencies \/ exists s, s ∈ l /\ d ∈ style_dependencies s.

Lemma useStyle_contextOf l c s : coherent (l ++ [s]) -> contextOf l c -> contextOf (l ++ [s]) (useStyle c s).
Proof using Type.
  intros HC [H1 H2]. unfold useStyle. destruct (ctx_styles c !! address s) as [s'|] eqn:E.
  - apply H1 in E as [E1 E2]. assert (s' = s) as -> by (apply HC; [apply elem_of_app; by left|apply elem_of_app; right; by left|done]).
    split.
    + intros a s0. rewrite H1, elem_of_app, list_elem_of_singleton. naive_solver.
    + intros d. rewrite H2. split; (intros [Hd|(s0 & H3 & H4)]; [by left|right]).
      * exists s0. rewrite elem_of_app. by auto.
      * apply elem_of_app in H3 as [H3|H3%list_elem_of_singleton]; [eauto|subst s0; eauto].
  - unfold register. split; cbn.
    + intros a s0. rewrite lookup_insert_Some, H1, elem_of_app, list_elem_of_singleton. split.
      * intros [[<- <-]|[_ [H3 H4]]]; auto.
      * intros [[H3| ->] H4]; [|by left]. right. split; [|done]. intros Ha. subst a.
        assert (ctx_styles c !! address s = Some s0) as Hs by by apply H1. congruence.
    + intros d. rewrite foldl_deps, H2. split.
      * intros [[Hd|(s0 & H3 & H4)]|Hd]; [by left|right; exists s0|right; exists s]; rewrite elem_of_app, list_elem_of_singleton; auto.
      * intros [Hd|(s0 & H3 & H4)]; [auto|]. apply elem_of_app in H3 as [H3|H3%list_elem_of_singleton]; [left; right; eauto|subst s0; by right].
Qed.

Lemma useStyles_contextOf styles l c : coherent (l ++ styles) -> contextOf l c -> contextOf (l ++ styles) (foldl useStyle c styles).
Proof using Type.
  revert l c. induction styles as [|s styles IH]; intros l c HC H; [by rewrite app_nil_r|].
  rewrite cons_middle, app_assoc in *. cbn. apply IH; [done|]. apply useStyle_contextOf; [|done].
  intros s1 s2 H1 H2. apply HC; apply elem_of_app; by left.
Qed.

Lemma renderIn_contextOf comp l c : coherent (l ++ used comp) -> contextOf l c -> contextOf (l ++ used comp) (renderIn comp c).2.
Proof using Type.
  revert l c. induction comp as [node|styles k IH]; intros l c HC H; cbn in *; [by rewrite app_nil_r|].
  rewrite app_assoc in *. apply IH; [done|]. apply useStyles_contextOf; [|done].
  intros s1 s2 H1 H2. apply HC; apply elem_of_app; by left.
Qed.

Lemma contextRender_spec comp : coherent (used comp) -> contextOf (used comp) (contextRender comp).2.
Proof using Type.
  intros HC. apply (renderIn_contextOf comp []); [done|]. split; cbn.
  - intros a s. rewrite lookup_empty, elem_of_nil. by split; [|intros []].
  - intros d. split; [by left|]. intros [Hd|(s & Hs%elem_of_nil & _)]; done.
Qed.

Lemma renderIn_node comp c : (renderIn comp c).1 = nodeOf comp.
Proof using Type. revert c. induction comp as [node|styles k IH]; intros c; [done|apply IH]. Qed.

(** What the context of a component registers is what the component needs. *)
Lemma contextRender_required comp : coherent (used comp) -> ctx_dependencies (contextRender comp).2 = required comp.
Proof using Type.
  intros HC. apply set_eq. intros d. rewrite elem_required. by apply contextRender_spec.
Qed.

(** The graph of the pages has no cycle. *)
Definition rank (d : Dependency) : nat := if decide (d = ScriptHTMX \/ d = StyleNormalize) then 0 else 1.

Lemma pageGraph_ranked x y : y ∈ needs pageGraph x -> (rank y < rank x)%nat.
Proof using Type.
  unfold needs, pageGraph. intros H.
  repeat (rewrite ?lookup_insert in H; case_decide; [subst x; cbn in H; apply list_elem_of_singleton in H as ->; vm_compute; lia|]).
  destruct (decide (StyleFont = x)) as [<-|Hx].
  - rewrite lookup_singleton_eq in H. cbn in H. apply list_elem_of_singleton in H as ->. vm_compute. lia.
  - rewrite lookup_singleton_ne in H by done. by apply elem_of_nil in H.
Qed.

Lemma pageGraph_acyclic units : acyclic units pageGraph.
Proof using Type.
  assert (forall x y, tc (requires units pageGraph) x y -> (rank y < rank x)%nat) as H.
  { intros x y Ht. induction Ht as [x y (_ & _ & Hr)|x y z (_ & _ & Hr) _ IH]; apply pageGraph_ranked in Hr; lia. }
  intros x Hx%H. lia.
Qed.

(** ** What a page gets *)

Definition linkOf (rer : Renderer) (d : Dependency) : option Tag :=
  if Type_ d =? DependencyTypeStyle then LinkTag <$> dependencyPaths rer !! d else None.
Definition scriptOf (rer : Renderer) (d : Dependency) : option Tag :=
  if Type_ d =? DependencyTypeScript then ScriptTag <$> dependencyPaths rer !! d else None.

Definition isNew (loaded : AlreadyLoaded) (d : Dependency) : bool := negb (bool_decide (d ∈ loadedDependencies loaded)).

(** A dependency that cannot be given to a page. *)
Definition unavailable (rer : Renderer) (d : Dependency) : Prop :=
  dependencyPaths rer !! d = None
  \/ Type_ d <> DependencyTypeStyle /\ Type_ d <> DependencyTypeScript /\ Type_ d <> DependencyTypeInvalid.

Lemma tagDependencies_spec rer loaded l links scripts deps :
  match tagDependencies rer loaded (links, scripts, deps) l with
  | Ok res =>
      let new := List.filter (isNew loaded) l in
      res = (links ++ omap (linkOf rer) new, scripts ++ omap (scriptOf rer) new, deps ++ new)
      /\ forall d, d ∈ new -> ~ unavailable rer d
  | Err _ => exists d, d ∈ l /\ (d ∉ loadedDependencies loaded) /\ unavailable rer d
  | _ => False
  end.
Proof using Type.
  revert links scripts deps. induction l as [|d l IH]; intros links scripts deps; cbn.
  { rewrite !app_nil_r. split; [done|]. by intros d ?%elem_of_nil. }
  assert (isNew loaded d = if decide (d ∈ loadedDependencies loaded) then false else true) as HN.
  { unfold isNew. destruct (decide _); [by rewrite bool_decide_true|by rewrite bool_decide_false]. }
  rewrite HN. clear HN. destruct (decide (d ∈ loadedDependencies loaded)) as [Hd|Hd].
  { cbn. specialize (IH links scripts deps). destruct (tagDependencies _ _ _ l) as [res|e| |]; [exact IH| |done..]. destruct IH as (d' & H1 & H2 & H3). exists d'. split; [by right|done]. }
  cbn. unfold dependencyPath.
  destruct (dependencyPaths rer !! d) as [url|] eqn:EP; cbn.
  2: { exists d. split; [by left|]. split; [done|]. by left. }
  unfold linkOf at 1, scriptOf at 1. rewrite EP.
  destruct (Z.eqb_spec (Type_ d) DependencyTypeStyle) as [E1|E1]; [|destruct (Z.eqb_spec (Type_ d) DependencyTypeScript) as [E2|E2];
    [|destruct (Z.eqb_spec (Type_ d) DependencyTypeInvalid) as [E3|E3]]]; cbn.
  4: { exists d. split; [by left|]. split; [done|]. by right. }
  all: match goal with |- context [tagDependencies _ _ (?a, ?b, ?c) _] => specialize (IH a b c) end.
  all: destruct (tagDependencies _ _ _ _) as [res|e| |]; try done;
    [|destruct IH as (d' & H1 & H2 & H3); exists d'; split; [by right|done]].
  all: destruct IH as [-> IH]; split; [rewrite ?E1, ?E2; cbn; rewrite <- ?app_assoc; done|].
  all: intros d' [->|Hin]%elem_of_cons HU; [|by apply (IH d')]; unfold unavailable in HU; destruct HU as [H|(H1 & H2 & H3)]; congruence.
Qed.

Context {RL : RangeKeysLaws R} {OL : GoOrderLaws O}.
Context (pages : gset Dependency -> Prop).

(** The style tag of a page, and the scripts that tell the browser what it got. *)
Definition stylesheetOf (dbg : bool) (styles : list Style) : string := Join (map (ruleOf dbg) styles) "".
Definition styleTags (dbg : bool) (styles : list Style) : list Tag :=
  match styles with
  | [] => []
  | _ => [StyleTag ("style-" +:+ hexOf (Sum256 (stylesheetOf dbg styles))) (stylesheetOf dbg styles)]
  end.
Definition injected (target : string) (ids : list string) : list Tag :=
  match ids with [] => [] | _ => [InjectTag (registerScript target ids)] end.

Lemma ruleOf_some dbg s : ruleOf dbg s <> "".
Proof using Type. by destruct dbg. Qed.

Lemma stylesheet_some dbg s styles : stylesheetOf dbg (s :: styles) <> "".
Proof using Type. unfold stylesheetOf. pose proof (ruleOf_some dbg s). destruct styles; cbn; destruct dbg; done. Qed.

Lemma styleTags_appended dbg styles (links : list Tag) :
  (if (stylesheetOf dbg styles =? "")%string then links
   else links ++ [StyleTag ("style-" +:+ hexOf (Sum256 (stylesheetOf dbg styles))) (stylesheetOf dbg styles)])
  = links ++ styleTags dbg styles.
Proof using Type.
  destruct styles as [|s styles]; [by rewrite app_nil_r|]. unfold styleTags. pose proof (stylesheet_some dbg s styles) as H.
  by destruct (String.eqb_spec (stylesheetOf dbg (s :: styles)) "").
Qed.

Lemma newStyles_spec loaded l c n : contextOf l c -> 
  let styles := newStyles loaded (rangeOver n (ctx_styles c)) in
  NoDup styles /\ forall s, s ∈ styles <-> s ∈ l /\ style_id s ∉ loadedStyles loaded.
Proof using OL.
  intros [HC _] styles. split.
  - apply NoDup_ListNoDup, List.NoDup_filter, NoDup_ListNoDup. apply (NoDup_fmap_1 address). rewrite <- list_fmap_compose.
    assert (((address ∘ snd) <$> rangeOver n (ctx_styles c)) = (fst <$> rangeOver n (ctx_styles c))) as ->.
    { apply list_fmap_ext. intros i [a s] Hi. apply list_elem_of_lookup_2 in Hi. apply elem_rangeOver, HC in Hi. by destruct Hi. }
    rewrite rangeOver_all. apply NoDup_fst_map_to_list.
  - intros s. unfold styles, newStyles. rewrite list_elem_of_In, filter_In, <- list_elem_of_In, negb_true_iff, bool_decide_eq_false.
    apply and_iff_compat_r. rewrite list_elem_of_fmap. split.
    + intros ([a s'] & -> & H). apply elem_rangeOver, HC in H. by destruct H.
    + intros H. exists (address s, s). split; [done|]. apply elem_rangeOver, HC. done.
Qed.

Lemma filter_lookup {A} (p : A -> bool) l i x :
  List.filter p l !! i = Some x -> exists k, l !! k = Some x /\ List.filter p (take k l) = take i (List.filter p l).
Proof using Type.
  revert i. induction l as [|a l IH]; intros i H; cbn in *; [done|]. destruct (p a) eqn:E.
  - destruct i as [|i]; cbn in H; [exists 0%nat; by injection H as ->|].
    destruct (IH i H) as (k & H1 & H2). exists (S k). split; [done|]. cbn. by rewrite E, H2.
  - destruct (IH i H) as (k & H1 & H2). exists (S k). split; [done|]. cbn. by rewrite E, H2.
Qed.

Lemma elem_isNew loaded l d : d ∈ List.filter (isNew loaded) l <-> d ∈ l /\ d ∉ loadedDependencies loaded.
Proof using Type.
  unfold isNew. by rewrite list_elem_of_In, filter_In, <- list_elem_of_In, negb_true_iff, bool_decide_eq_false.
Qed.

(** The new ones of a list in topological order. *)
Lemma new_ordered loaded units l : topological units pageGraph l ->
  let deps := List.filter (isNew loaded) l in
  NoDup deps /\ (forall d, d ∈ deps <-> d ∈ units /\ d ∉ loadedDependencies loaded)
  /\ forall i d d', deps !! i = Some d -> d' ∈ needs pageGraph d -> d' ∈ units ->
       d' ∈ loadedDependencies loaded \/ d' ∈ take i deps.
Proof using Type.
  intros [HP HT] deps. split; [|split].
  - apply NoDup_ListNoDup, List.NoDup_filter, NoDup_ListNoDup. rewrite HP. apply NoDup_elements.
  - intros d. unfold deps. by rewrite elem_isNew, HP, elem_of_elements.
  - intros i d d' Hi Hn Hu. destruct (filter_lookup _ _ _ _ Hi) as (k & Hk & E).
    destruct (decide (d' ∈ loadedDependencies loaded)); [by left|right]. unfold deps. rewrite <- E. apply elem_isNew. split; [|done].
    apply (HT k d d' Hk). split_and!; [|done|done]. apply elem_of_elements. rewrite <- HP. by apply list_elem_of_lookup_2 in Hk.
Qed.

(** C33: A page gets what its component needs and the browser does not have, and nothing
    else: the default dependencies and those of each style it asks for, each once and after what
    it requires unless that is loaded; the rules of its styles, each once; and the scripts
    that register just these as loaded.  It is refused only for a dependency that it needs
    and that nobody registered, or of no known type.  The texts that key the cache of orders
    are distinct for the sets of dependencies that pages need, and a style has one address. *)
Theorem page_complete (loaded : AlreadyLoaded) (comp : Component) (rer : Renderer) :
  distinctKeys pages -> pages (required comp) -> cacheOk pages pageGraph (lin rer) -> coherent (used comp) ->
  match renderWithDependencies loaded comp rer with
  | (Ok (links, scripts, node), rer') =>
      node = nodeOf comp /\ cacheOk pages pageGraph (lin rer')
      /\ exists deps styles,
        NoDup deps /\ (forall d, d ∈ deps <-> d ∈ required comp /\ d ∉ loadedDependencies loaded)
        /\ (forall i d d', deps !! i = Some d -> d' ∈ needs pageGraph d -> d' ∈ required comp ->
              d' ∈ loadedDependencies loaded \/ d' ∈ take i deps)
        /\ NoDup styles /\ (forall s, s ∈ styles <-> s ∈ used comp /\ style_id s ∉ loadedStyles loaded)
        /\ links = omap (linkOf rer) deps ++ styleTags (debug rer) styles
        /\ scripts = omap (scriptOf rer) deps ++ injected "styles" (map style_id styles)
                     ++ injected "dependencies" (map Dependency_String deps)
        /\ (forall d, d ∈ deps -> ~ unavailable rer d)
  | (Err e, _) => exists d, d ∈ required comp /\ (d ∉ loadedDependencies loaded) /\ unavailable rer d
  | _ => False
  end.
Proof using OL RL.
  intros HK HP HO HC. unfold renderWithDependencies. pose proof (contextRender_spec comp HC) as HX.
  pose proof (contextRender_required comp HC) as HR. pose proof (renderIn_node comp (mkContext ∅ defaultDependencies)) as HN.
  change (renderIn comp _) with (contextRender comp) in HN.
  destruct (contextRender comp) as [node ctx]. cbn in HX, HR, HN |- *. rewrite <- HR in *. subst node. unfold bind, wrapf, linearizeWith.
  pose proof (Linearize_orders pages (ctx_dependencies ctx) pageGraph (lin rer) HK HP HO) as HL.
  destruct (Linearize _ _ _) as [[l|e|p|] st]; try done; [|by destruct HL as (_ & HL & _); destruct (HL (pageGraph_acyclic _))].
  destruct HL as (HT & HO' & _). cbn. set (rer1 := mkRenderer _ _ _ _ _ st _).
  pose proof (tagDependencies_spec rer1 loaded l [] [] []) as HD. unfold lift.
  destruct (tagDependencies rer1 loaded _ l) as [tagged|e|p|]; try done.
  2: { destruct HD as (d & H1 & H2). exists d. split; [|exact H2]. apply elem_of_elements. by rewrite <- (proj1 HT). }
  destruct HD as [-> HU]. cbn. split; [done|]. split; [done|].
  destruct (newStyles_spec loaded _ ctx (iterations rer) HX) as [HS1 HS2].
  destruct (new_ordered loaded _ l HT) as (HN1 & HN2 & HN3).
  set (deps := List.filter (isNew loaded) l) in *. set (styles := newStyles _ _) in *.
  exists deps, styles. do 5 (split; [done|]). split; [|split; [|exact HU]].
  - apply (styleTags_appended (debug rer) styles).
  - destruct styles, deps; cbn; rewrite ?app_nil_r, <- ?app_assoc; done.
Qed.

(** ** What the browser says *)

Context {JL : JsonListLaws J}.

Lemma parseElements_spec {T} `{Countable T} (fn : string -> outcome T) (show : T -> string) l result :
  (forall t, t ∈ l -> fn (show t) = Ok t) -> parseElements fn (map show l) result = Ok (list_to_set l ∪ result).
Proof using Type.
  revert result. induction l as [|t l IH]; intros result Hl; cbn; [by rewrite union_empty_l_L|].
  rewrite Hl by by left. rewrite IH by (intros t' Ht; apply Hl; by right).
  by rewrite !(assoc_L (∪)), (comm_L (∪) (list_to_set l)).
Qed.

Lemma parseSet_spec {T} `{Countable T} (fn : string -> outcome T) (show : T -> string) l :
  (forall t, t ∈ l -> fn (show t) = Ok t) -> parseSet (MarshalList (map show l)) fn = Ok (list_to_set l).
Proof using JL.
  intros Hl. unfold parseSet. destruct (String.eqb_spec (MarshalList (map show l)) "") as [E|_]; [by apply MarshalList_some in E|].
  rewrite UnmarshalList_Marshal, (parseElements_spec fn show) by done. by rewrite union_empty_r_L.
Qed.

(** The identifiers and the names that the scripts of a page register, sent back in the
    headers of the next request, are read as what that page gave. *)
Lemma loaded_read_back (ids : list string) (deps : list Dependency) :
  (forall d, d ∈ deps -> (Type_ d = DependencyTypeStyle \/ Type_ d = DependencyTypeScript) /\ lacks ":" (Name d) = true) ->
  AlreadyLoadedFromRequest true (MarshalList ids) (MarshalList (map Dependency_String deps))
  = Ok (mkLoaded (list_to_set ids) (list_to_set deps)).
Proof using JL.
  intros Hd. unfold AlreadyLoadedFromRequest. cbn [negb]. rewrite <- (map_id ids) at 1. rewrite (parseSet_spec _ (fun x => x)) by done.
  rewrite (parseSet_spec _ Dependency_String); [done|]. intros d Hin. by apply ParseDependency_String, Hd.
Qed.

(** ** Where dependencies are served *)

(** Each dependency has its path, which leads to a dependency of that path. *)
Record registered (rer : Renderer) : Prop := {
  registered_path dep path : dependencyPaths rer !! dep = Some path ->
    exists bytes, dependencies rer !! dep = Some bytes /\ path = pathOf rer dep bytes
      /\ exists dep', pathDependencies rer !! path = Some dep';
  registered_dep path dep : pathDependencies rer !! path = Some dep -> dependencyPaths rer !! dep = Some path
}.

Lemma registerOne_registered rer dep bytes :
  dependencies rer !! dep = None -> registered rer -> registered (registerOne rer dep bytes).
Proof using Type.
  intros HN [H1 H2]. split; unfold registerOne; cbn [dependencies dependencyPaths pathDependencies].
  - intros d path [[<- <-]|[Hne Hp]]%lookup_insert_Some.
    + exists bytes. rewrite !lookup_insert_eq. split; [done|]. split; [done|]. by eexists.
    + destruct (H1 d path Hp) as (b & G1 & -> & d' & G2). exists b. rewrite lookup_insert_ne by done.
      split; [done|]. split; [done|].
      destruct (decide (pathOf rer dep bytes = pathOf rer d b)) as [->|E]; [rewrite lookup_insert_eq|rewrite lookup_insert_ne by done]; eauto.
  - intros path d [[<- <-]|[Hne Hp]]%lookup_insert_Some; [by rewrite lookup_insert_eq|]. apply H2 in Hp.
    rewrite lookup_insert_ne; [done|]. intros <-. destruct (H1 _ _ Hp) as (b & G & _). congruence.
Qed.

Lemma forEach_inv {St A X} (I : St -> Prop) (l : list A) (x : X) (f : X -> A -> Go St X) s :
  (forall x a s, I s -> I (snd (f x a s))) -> I s -> I (snd (forEach l x f s)).
Proof using Type.
  intros Hf. revert x s. induction l as [|a l IH]; intros x s Hs; [done|]. cbn. unfold bind.
  specialize (Hf x a s Hs). destruct (f x a s) as [[y|e|p|] s']; cbn in *; auto.
Qed.

Lemma RegisterDependencies_registered fns rer : registered rer -> registered (snd (RegisterDependencies fns rer)).
Proof using Type.
  intros H. unfold RegisterDependencies, bind at 1.
  match goal with |- context [forEach fns [] ?f rer] => pose proof (forEach_inv registered fns [] f rer) as HI; lapply HI end.
  - clear HI. intros HI. specialize (HI H). destruct (forEach _ _ _ rer) as [[errs|e|p|] rer1]; cbn in *; [|done..]. by destruct errs.
  - clear -R. intros errs fn rer H. unfold bind, registerAll, nextIteration. cbn.
    match goal with |- context [forEach ?l tt ?f ?r] => pose proof (forEach_inv registered l tt f r) as HI; lapply HI end.
    + clear HI. intros HI. lapply HI; [clear HI; intros HI|by destruct H].
      destruct (forEach _ tt _ _) as [[u|e|p|] rer1]; cbn in *; done.
    + clear HI. intros u d rer1 H1. unfold bind, get, put, fail, lift. cbn.
      destruct (dependencies rer1 !! d.1) eqn:E; cbn; [done|]. by apply registerOne_registered.
Qed.

(** The link of a page is answered, by a dependency of the same path. *)
Lemma link_served rer d path :
  registered rer -> dependencyPaths rer !! d = Some path -> HasPrefix path (assetPath rer) = true ->
  exists d' bytes, Renderer_Dependency rer path = Ok (d', bytes) /\ path = pathOf rer d' bytes.
Proof using Type.
  intros [H1 H2] Hp HA. destruct (H1 d path Hp) as (b & _ & _ & d' & Hd). pose proof (H2 _ _ Hd) as Hp'.
  destruct (H1 d' path Hp') as (b' & Hb & -> & _). exists d', b'. split; [|done]. unfold Renderer_Dependency.
  by rewrite HA, Hd, Hb.
Qed.
End Render.

(** ** Examples *)

(** Lists of texts, each character after a mark and each text before one. *)
Fixpoint markAll (s : string) : string :=
  match s with EmptyString => "" | String c s' => String "+" (String c (markAll s')) end.
Fixpoint marshalMarked (l : list string) : string :=
  match l with [] => "" | s :: l' => markAll s +:+ String ";" (marshalMarked l') end.
Fixpoint unmarshalMarked (s acc : string) : outcome (list string) :=
  match s with
  | EmptyString => Ok []
  | String m s' =>
      if (m =? ";")%char then l <-? unmarshalMarked s' "" ;; Ok (acc :: l)
      else match s' with
           | String c s'' => unmarshalMarked s'' (acc +:+ String c "")
           | EmptyString => Err (PlainError "unexpected end of JSON input")
           end
  end.

Lemma unmarshalMarked_text s acc rest : unmarshalMarked (markAll s +:+ rest) acc = unmarshalMarked rest (acc +:+ s).
Proof.
  revert acc. induction s as [|c s IH]; intros acc; [by rewrite string_app_nil|].
  change (unmarshalMarked (markAll s +:+ rest) (acc +:+ String c "") = unmarshalMarked rest (acc +:+ String c s)).
  rewrite IH, string_app_assoc. done.
Qed.

#[local] Instance markedList : JsonList := {|
  MarshalList l := String "[" (marshalMarked l);
  UnmarshalList s := match s with String _ s' => unmarshalMarked s' "" | EmptyString => Err (PlainError "unexpected end of JSON input") end
|}.

#[local] Instance markedList_laws : JsonListLaws markedList.
Proof.
  split; [|done]. intros l. cbn. induction l as [|s l IH]; [done|]. cbn.
  rewrite unmarshalMarked_text. cbn. by rewrite IH.
Qed.

#[local] Instance plainIds : Sqids := {| EncodeId n := Ok (if n =? 0 then "a" else "b") |}.
#[local] Existing Instance elementsOrder.
#[local] Existing Instance stdOrder.
#[local] Existing Instance plainSha.

(** The names of variables are cut at their first dash. *)
Example variables_found :
  fst (ParseStyle "color: var(--colors-red); margin: var(--size-1var(--x); var()" (mkStyles 0 0))
  = Ok (mkStyle 0 "sa" "color: var(--colors-red); margin: var(--size-1var(--x); var()" [style "colors"; style "size"]).
Proof. reflexivity. Qed.

Definition everyDefault : gmap Dependency string :=
  list_to_map (map (fun d => (d, Name d)) (elements defaultDependencies)).

Definition cardStyle : Style := mkStyle 0 "sa" "color: var(--colors-red)" [style "colors"].
Definition card : Component := Class_ [cardStyle; cardStyle] (fun c => Rendered ("<div class=" +:+ c +:+ ">")).

Definition sampleRenderer : Renderer :=
  match NewRenderer "/static/" [(everyDefault, None)] with
  | Ok rer => rer
  | _ => mkRenderer ∅ ∅ ∅ "" false (mkLinearize ∅ 0) 0
  end.

(** The font is loaded, and so is the style of another component. *)
Definition halfLoaded : AlreadyLoaded := mkLoaded {[ "sb" ]} {[ StyleFont ]}.

Lemma page_complete_witness :
  exists links scripts rer' deps styles,
    renderWithDependencies halfLoaded card sampleRenderer = (Ok (links, scripts, "<div class=sa sa>"), rer')
    /\ NoDup deps /\ (forall d, d ∈ deps <-> d ∈ required card /\ d ∉ loadedDependencies halfLoaded)
    /\ links = omap (linkOf sampleRenderer) deps ++ styleTags (debug sampleRenderer) styles.
Proof.
  assert (linearized (lin sampleRenderer) = ∅) as HL by by vm_compute.
  assert (coherent (used card)) as HC.
  { intros s1 s2 H1 H2 _. cbn in H1, H2. apply elem_of_cons in H1 as [->|H1]; [|apply list_elem_of_singleton in H1 as ->];
      (apply elem_of_cons in H2 as [->|H2]; [|apply list_elem_of_singleton in H2 as ->]); done. }
  pose proof (page_complete (fun u => u = required card) halfLoaded card sampleRenderer) as H.
  lapply H; [clear H; intros H|by intros u u' n -> ->]. specialize (H eq_refl).
  lapply H; [clear H; intros H; specialize (H HC)|intros u n l _ Hl; rewrite HL, lookup_empty in Hl; discriminate].
  set (r := renderWithDependencies halfLoaded card sampleRenderer) in *.
  assert (match fst r with Ok _ => True | _ => False end) as HO by (vm_compute; exact I).
  clearbody r. destruct r as [[[[links scripts] node]|e|p|] rer']; [|destruct HO..].
  destruct H as (H0 & _ & deps & styles & H1 & H2 & _ & _ & _ & H3 & _).
  exists links, scripts, rer', deps, styles. split; [|split; [exact H1|split; [exact H2|exact H3]]].
  rewrite H0. reflexivity.
Defined.

(** A style whose variable has no stylesheet of its name cannot be used. *)
Example unregistered_refused :
  exists e, fst (renderWithDependencies EmptyAlreadyLoaded (Class_ [mkStyle 1 "sb" "" [style "size"]] Rendered) sampleRenderer) = Err e.
Proof. eexists. vm_compute. reflexivity. Qed.
