(* ===== verification/HttpServers.v ===== *)
(** * The HTTP servers and the health checks

    lib/httpsrv/httpsrv.go and lib/observability/observability.go: the services that run an
    HTTP server, as a transition system of the goroutine of the server and of Run;
    lib/observability/z.go: the handler of the readiness and liveness checks.

    The servers of net/http and the checks are given by what they do. *)

From stdpp Require Import gmap relations strings.
From S2P Require Import Prelude GoStrings GoMaps.
#[local] Open Scope Z_scope.

(** ** Run *)

(** A channel of errors, nil or made; a select never takes a nil one. *)
Inductive errChan : Type := NilChan | MadeChan.

(** [var ch chan error] *)
Definition declaredChan : errChan := NilChan.
(** [make(chan error)] *)
Definition madeChan : errChan := MadeChan.

(** The goroutine of the server: it has announced the service and serves, or it wants to
    send what ListenAndServe returned, or it is done. *)
Inductive serving : Type :=
| Starting
| Listening
| Sending_ (err : option error)
| Sent_.

Inductive running : Type :=
| Selecting
| Receiving
| Returned (o : outcome unit).

Record httpService : Type := mkService {
  ch : errChan;
  cancelled : bool;
  notified : bool;
  server : serving;
  run_ : running
}.

(** [defer close(ch)]: what Run ends with. *)
Definition closing (c : errChan) (o : outcome unit) : outcome unit :=
  match c with NilChan => Panic "close of nil channel" | MadeChan => o end.

(** The end of Run on what it received; [msg] is its text for an error in the select. *)
Definition received (msg : string) (err : option error) : outcome unit :=
  match err with Some e => Err (Errorf msg [e]) | None => Ok tt end.
Definition receivedLast (err : option error) : outcome unit :=
  match err with Some e => Err e | None => Ok tt end.

(** The servers shut down one after the other: the first error ends the loop. *)
Fixpoint shutdownAll (msg : string) (l : list (outcome unit)) : outcome unit :=
  match l with
  | [] => Ok tt
  | Ok _ :: l' => shutdownAll msg l'
  | Err e :: _ => Err (Errorf msg [e])
  | Panic p :: _ => Panic p
  | Diverge :: _ => Diverge
  end.

Section Run.
(** What shutting down gives, each time, and the texts of the errors. *)
Variables (shutdown : list (outcome unit) -> Prop) (shutdownMsg runMsg : string).

Inductive serviceStep : httpService -> httpService -> Prop :=
| Cancels s : serviceStep s (mkService (ch s) true (notified s) (server s) (run_ s))
| Serves s : server s = Starting ->
    serviceStep s (mkService (ch s) (cancelled s) true Listening (run_ s))
| ServeEnds s err : server s = Listening ->
    serviceStep s (mkService (ch s) (cancelled s) (notified s) (Sending_ err) (run_ s))
| Receives s err : ch s = MadeChan -> server s = Sending_ err -> run_ s = Selecting ->
    serviceStep s (mkService (ch s) (cancelled s) (notified s) Sent_ (Returned (closing (ch s) (received runMsg err))))
| ReceivesLast s err : ch s = MadeChan -> server s = Sending_ err -> run_ s = Receiving ->
    serviceStep s (mkService (ch s) (cancelled s) (notified s) Sent_ (Returned (closing (ch s) (receivedLast err))))
| ShutsDown s l : cancelled s = true -> run_ s = Selecting -> shutdown l ->
    serviceStep s (mkService (ch s) (cancelled s) (notified s) (server s)
      (match shutdownAll shutdownMsg l with
       | Ok _ => Receiving
       | o => Returned (closing (ch s) o)
       end)).

Definition newService (c : errChan) : httpService := mkService c false false Starting Selecting.

(** With the channel as it is declared. *)
Record stuck (s : httpService) : Prop := {
  stuck_ch : ch s = NilChan;
  stuck_run : match run_ s with Returned o => exists p, o = Panic p | _ => True end;
  stuck_server : server s <> Sent_
}.

Lemma stuck_step s s' : stuck s -> serviceStep s s' -> stuck s'.
Proof using Type.
  intros [H1 H2 H3] HS. destruct HS; cbn in *; try congruence; split; cbn; try done.
  destruct (shutdownAll shutdownMsg l); [done|rewrite H1; by eexists..].
Qed.

(** Whatever happens to a service whose channel is only declared, as the services declare
    it, its Run never returns: it waits, when it was told to stop and everything was shut
    down as well, or panics when something could not be shut down; and the error of a
    server that ends, on an address in use for one, stays where it is. *)
Theorem service_never_returns (s : httpService) :
  rtc serviceStep (newService declaredChan) s ->
  (forall o, run_ s = Returned o -> exists p, o = Panic p)
  /\ (forall err s', server s = Sending_ err -> rtc serviceStep s s' -> server s' = Sending_ err)
  /\ (forall s', run_ s = Receiving -> rtc serviceStep s s' -> run_ s' = Receiving).
Proof using Type.
  intros HR. assert (stuck s) as HS.
  { refine (rtc_ind_r stuck (newService declaredChan) _ _ s HR); [by split|].
    intros s1 s2 _ H12 H1. by eapply stuck_step. }
  clear HR. split; [|split].
  - intros o Ho. destruct HS as [_ HS _]. by rewrite Ho in HS.
  - intros err s' He HR. induction HR as [s|s s1 s' H1 _ IH]; [done|]. apply IH; [by eapply stuck_step|].
    destruct HS as [HC _ _]. destruct H1; cbn in *; congruence.
  - intros s' Hr HR. induction HR as [s|s s1 s' H1 _ IH]; [done|]. apply IH; [by eapply stuck_step|].
    destruct HS as [HC _ _]. destruct H1; cbn in *; congruence.
Qed.

(** A channel that is made lets the error through. *)
Lemma made_reports err :
  rtc serviceStep (newService madeChan) (mkService MadeChan false true Sent_ (Returned (received runMsg err))).
Proof using Type.
  eapply rtc_l; [by apply Serves|]. eapply rtc_l; [by apply (ServeEnds _ err)|]. cbn.
  eapply rtc_l; [by apply (Receives _ err)|]. apply rtc_refl.
Qed.
End Run.

(** HTTPSrv.Run shuts down its server. *)
Definition httpsrvStep : httpService -> httpService -> Prop :=
  serviceStep (fun l => exists o, l = [o]) "error while shutting down the HTTP server: %w"
    "error while running the HTTP server: %w".

(** Observability.Run shuts down its server and the tracing, which is a nil pointer when it
    is disabled. *)
Definition tracingShutdown (tracing : option (outcome unit)) : outcome unit :=
  match tracing with Some o => o | None => Panic "invalid memory address or nil pointer dereference" end.
Definition observabilityStep (tracing : option (outcome unit)) : httpService -> httpService -> Prop :=
  serviceStep (fun l => exists o, l = [o; tracingShutdown tracing])
    "error while shutting down observability %q: %w" "error while running the observability server: %w".

(** The collectors' registrations, before. *)
Definition registerMetrics (results : list (outcome unit)) : outcome unit :=
  match flat_map (fun o => match o with Err e => [e] | _ => [] end) results with
  | [] => Ok tt
  | errs => Err (Errorf "" errs)
  end.
Definition Observability_start (results : list (outcome unit)) : outcome httpService :=
  match registerMetrics results with
  | Err e => Err (Errorf "error while registering all metrics: %w" [e])
  | _ => Ok (newService declaredChan)
  end.

(** ** z.go *)

(** What a check gives when it is run. *)
Definition Check_ : Type := option error.

Inductive zLine : Type :=
| ExcludedLine (name : string)
| FailedLine (name : string) (err : error)
| PassedLine (name : string)
| SummaryLine (name : string).

Inductive zSent : Type :=
| BodySent (lines : list zLine)
| StatusSent_ (code : Z)
| NotFoundSent
| ErrorSent_ (line : zLine) (code : Z).

(** The status that a client sees: that of the first thing sent. *)
Definition zStatus (l : list zSent) : Z :=
  match l with
  | [] | BodySent _ :: _ => 200
  | StatusSent_ code :: _ | ErrorSent_ _ code :: _ => code
  | NotFoundSent :: _ => 404
  end.

Record exec : Type := mkExec { exec_name : string; exec_check : Check_; exec_excluded : bool; exec_err : option error }.

Section Checks.
Context {O : GoOrder}.

(** The checks to run, in the order of the map; each goroutine stores its error in its own
    place, and all are waited for. *)
Definition execsOf (n : nat) (checks : gmap string Check_) (exclude : gset string) : list exec :=
  map (fun p => mkExec p.1 p.2 (bool_decide (p.1 ∈ exclude)) None) (rangeOver n checks).
Definition runExec (e : exec) : exec :=
  if exec_excluded e then e else mkExec (exec_name e) (exec_check e) (exec_excluded e) (exec_check e).

Definition lineOf (e : exec) : zLine :=
  if exec_excluded e then ExcludedLine (exec_name e)
  else match exec_err e with Some err => FailedLine (exec_name e) err | None => PassedLine (exec_name e) end.

Definition z_Handler (n : nat) (service : string) (checks : gmap string Check_) (selector : string)
    (exclude : gset string) (verbose : bool) : list zSent :=
  if negb (selector =? "")%string then
    match checks !! selector with
    | None => [NotFoundSent]
    | Some (Some err) => [ErrorSent_ (FailedLine selector err) 500]
    | Some None => [BodySent [PassedLine selector]]
    end
  else
    let execs := map runExec (execsOf n checks exclude) in
    let failed := existsb (fun e => match exec_err e with Some _ => true | None => false end) execs in
    (if verbose then [BodySent (map lineOf execs)] else [])
    ++ (if failed then [StatusSent_ 500] else if verbose then [BodySent [SummaryLine service]] else []).

Context {L : GoOrderLaws O}.

(** A check that is not excluded and fails. *)
Definition failing (checks : gmap string Check_) (exclude : gset string) (name : string) : Prop :=
  exists err, checks !! name = Some (Some err) /\ name ∉ exclude.

Lemma elem_execs n checks exclude e :
  e ∈ map runExec (execsOf n checks exclude) <->
  exists name c, checks !! name = Some c
    /\ e = mkExec name c (bool_decide (name ∈ exclude)) (if bool_decide (name ∈ exclude) then None else c).
Proof using L.
  unfold execsOf. rewrite !list_elem_of_fmap. split.
  - intros (e0 & -> & H). apply list_elem_of_fmap in H as ([name c] & -> & H%elem_rangeOver). exists name, c. split; [done|].
    unfold runExec. cbn. by destruct (bool_decide _).
  - intros (name & c & H & ->). eexists. split; [|apply list_elem_of_fmap; exists (name, c); split; [reflexivity|by apply elem_rangeOver]].
    unfold runExec. cbn. by destruct (bool_decide _).
Qed.

(** Whatever the order of the checks: one that is asked for by name answers for itself; all
    of them together answer 500 exactly when one that is not excluded fails, unless the
    answer is to be verbose, which lists every check once with its result and then is always
    a success. *)
Theorem checks_answered (n : nat) (service : string) (checks : gmap string Check_) (exclude : gset string) :
  (forall name, name <> "" ->
     zStatus (z_Handler n service checks name exclude false)
     = match checks !! name with None => 404 | Some (Some _) => 500 | Some None => 200 end)
  /\ (zStatus (z_Handler n service checks "" exclude false) = 500 <-> exists name, failing checks exclude name)
  /\ (zStatus (z_Handler n service checks "" exclude false) = 200 <-> ~ exists name, failing checks exclude name)
  /\ zStatus (z_Handler n service checks "" exclude true) = 200
  /\ exists lines rest, z_Handler n service checks "" exclude true = BodySent lines :: rest
     /\ length lines = size checks
     /\ forall name c, checks !! name = Some c ->
            (if decide (name ∈ exclude) then ExcludedLine name
             else match c with Some err => FailedLine name err | None => PassedLine name end) ∈ lines.
Proof using L.
  set (execs := map runExec (execsOf n checks exclude)).
  assert (existsb (fun e => match exec_err e with Some _ => true | None => false end) execs = true
          <-> exists name, failing checks exclude name) as HF.
  { rewrite existsb_exists. split.
    - intros (e & He & Hf). rewrite <- list_elem_of_In in He. apply elem_execs in He as (name & c & H & ->). cbn in Hf.
      destruct (bool_decide (name ∈ exclude)) eqn:EB; [done|]. destruct c as [err|]; [|done].
      exists name, err. split; [done|]. by apply bool_decide_eq_false in EB.
    - intros (name & err & H & Hn). exists (mkExec name (Some err) false (Some err)). split; [|done].
      rewrite <- list_elem_of_In. apply elem_execs. exists name, (Some err). split; [done|]. by rewrite bool_decide_false. }
  split_and!.
  - intros name Hn. unfold z_Handler. destruct (String.eqb_spec name "") as [|_]; [done|]. cbn. by destruct (checks !! name) as [[err|]|].
  - unfold z_Handler. cbn. fold execs. destruct (existsb _ execs); cbn; [by rewrite <- HF|]. split; [done|]. intros H%HF. done.
  - unfold z_Handler. cbn. fold execs. destruct (existsb _ execs); cbn; [|split; [|done]; intros _ H%HF; done].
    split; [done|]. intros H. destruct H. by apply HF.
  - done.
  - unfold z_Handler. cbn. fold execs. eexists _, _. split; [reflexivity|]. split.
    + unfold execs, execsOf. rewrite !length_map, rangeOver_all. apply length_map_to_list.
    + intros name c Hc. apply list_elem_of_fmap. eexists. split; [|apply elem_execs; by exists name, c].
      unfold lineOf. cbn. destruct (decide (name ∈ exclude)); [by rewrite bool_decide_true|rewrite bool_decide_false by done; by destruct c].
Qed.
End Checks.

(** ** Examples *)

#[local] Existing Instance stdOrder.

(** A verbose answer hides the failure that it lists. *)
Example verbose_hides :
  let checks := {["database" := Some (PlainError "down")]} : gmap string Check_ in
  zStatus (z_Handler 0 "readyz" checks "" ∅ false) = 500 /\ zStatus (z_Handler 0 "readyz" checks "" ∅ true) = 200.
Proof. by split. Qed.

(** Two steps to a service that cannot start, and is said to have. *)
Lemma service_never_returns_witness :
  let s := mkService NilChan false true (Sending_ (Some (PlainError "address already in use"))) Selecting in
  rtc httpsrvStep (newService declaredChan) s
  /\ forall s', rtc httpsrvStep s s' -> server s' = Sending_ (Some (PlainError "address already in use")).
Proof.
  intros s. assert (rtc httpsrvStep (newService declaredChan) s) as HR.
  { eapply rtc_l; [by apply Serves|]. eapply rtc_l; [by apply (ServeEnds _ _ _ _ (Some (PlainError "address already in use")))|]. apply rtc_refl. }
  split; [exact HR|]. intros s' HS.
  destruct (service_never_returns _ _ _ s HR) as (_ & H & _). exact (H _ s' eq_refl HS).
Defined.
