(* ===== verification/Kube.v ===== *)
(** * Kubernetes

    The nodes of Kubernetes, the calls of client-go on them ([KubeAPI]) and what
    lib/kubeutil does with these: annotating a node and removing a taint. *)

From stdpp Require Import gmap strings relations.
From S2P Require Import Prelude.
#[local] Open Scope Z_scope.

(** What of a v1.Node is read or written. *)
Inductive NodeAddressType : Type :=
| NodeHostName | NodeInternalIP | NodeExternalIP | NodeInternalDNS | NodeExternalDNS
| NodeOther (kind : string).
Record NodeAddress : Type := mkNodeAddress { Type_ : NodeAddressType; Address : string }.
#[export] Instance NodeAddressType_eq_dec : EqDecision NodeAddressType.
Proof. solve_decision. Defined.
#[export] Instance NodeAddress_eq_dec : EqDecision NodeAddress.
Proof. solve_decision. Defined.
Record Taint : Type := mkTaint { t_Key : string; t_Value : string }.

Record kubeNode : Type := mkKubeNode {
  k_Name : string;
  PodCIDRs : list string;
  Addresses : list NodeAddress;
  Annotations : gmap string string;
  Taints : list Taint
}.

Definition withAnnotations (f : gmap string string -> gmap string string) (n : kubeNode) : kubeNode :=
  mkKubeNode (k_Name n) (PodCIDRs n) (Addresses n) (f (Annotations n)) (Taints n).
Definition withTaints (l : list Taint) (n : kubeNode) : kubeNode :=
  mkKubeNode (k_Name n) (PodCIDRs n) (Addresses n) (Annotations n) l.
Definition withAddresses (l : list NodeAddress) (n : kubeNode) : kubeNode :=
  mkKubeNode (k_Name n) (PodCIDRs n) l (Annotations n) (Taints n).

(** CoreV1().Nodes() and retry.RetryOnConflict. *)
Class KubeAPI : Type := {
  Kube : Type;
  NodesGet : string -> Kube -> outcome kubeNode;
  NodesUpdate : kubeNode -> Kube -> outcome unit * Kube;
  NodesUpdateStatus : kubeNode -> Kube -> outcome unit * Kube;
  RetryOnConflict : (Kube -> outcome unit * Kube) -> Kube -> outcome unit * Kube
}.

(** A node is read as it is, and an update that succeeds stores it (its status apart, or
    its status alone) and leaves the others.  When an update fails anything may have
    happened, since others write too.  [RetryOnConflict] makes the call until it
    succeeds or has failed often enough. *)
Class KubeLaws (KA : KubeAPI) : Type := {
  nodesOf : Kube -> gmap string kubeNode;
  get_law name k : match NodesGet name k with
    | Ok n => nodesOf k !! name = Some n /\ k_Name n = name
    | Err _ => True
    | _ => False
    end;
  update_law n k : match NodesUpdate n k with
    | (Ok _, k') => exists old, nodesOf k !! k_Name n = Some old
        /\ nodesOf k' = <[k_Name n := withAddresses (Addresses old) n]> (nodesOf k)
    | (Err _, _) => True
    | _ => False
    end;
  updateStatus_law n k : match NodesUpdateStatus n k with
    | (Ok _, k') => exists old, nodesOf k !! k_Name n = Some old
        /\ nodesOf k' = <[k_Name n := withAddresses (Addresses n) old]> (nodesOf k)
    | (Err _, _) => True
    | _ => False
    end;
  retry_law f k : exists k1, rtc (fun a b => exists e, f a = (Err e, b)) k k1 /\ RetryOnConflict f k = f k1
}.

Section Util.
Context {KA : KubeAPI}.

Definition wrapUpdate (msg : string) (r : outcome unit * Kube) : outcome unit * Kube :=
  match r with (Err e, k) => (Err (Errorf msg [e]), k) | _ => r end.

(** [AnnotateNode]. *)
Definition AnnotateNode (name key value : string) : Kube -> outcome unit * Kube :=
  RetryOnConflict (fun k =>
    match NodesGet name k with
    | Ok node =>
        wrapUpdate "failed to update kubernetes node %q: %w"
          (NodesUpdate (withAnnotations (fun m => <[key := value]> m) node) k)
    | Err e => (Err (Errorf "failed to get kubernetes node %q: %w" [e]), k)
    | Panic m => (Panic m, k)
    | Diverge => (Diverge, k)
    end).

(** [slices.IndexFunc] and [slices.Delete] of one element. *)
Fixpoint IndexFunc {A} (p : A -> bool) (l : list A) : option nat :=
  match l with
  | [] => None
  | a :: l' => if p a then Some O else option_map S (IndexFunc p l')
  end.

(** [RemoveTaint]. *)
Definition RemoveTaint (nodeName key value : string) (k : Kube) : outcome unit * Kube :=
  match NodesGet nodeName k with
  | Ok node =>
      match IndexFunc (fun t => (t_Key t =? key)%string && (t_Value t =? value)%string) (Taints node) with
      | None => (Ok tt, k)
      | Some i =>
          wrapUpdate "failed to update taint %q kubernetes node %q: %w"
            (NodesUpdate (withTaints (delete i (Taints node)) node) k)
      end
  | Err e => (Err (Errorf "failed to get kubernetes node %q: %w" [e]), k)
  | Panic m => (Panic m, k)
  | Diverge => (Diverge, k)
  end.

Context {L : KubeLaws KA}.

Lemma withAddresses_same n : withAddresses (Addresses n) n = n.
Proof. by destruct n. Qed.

(** What is written is there, and the rest of the node as it was when it was read. *)
Lemma AnnotateNode_spec name key value k :
  match AnnotateNode name key value k with
  | (Ok _, k') => exists n, nodesOf k' !! name = Some n /\ Annotations n !! key = Some value
  | (Err _, _) => True
  | _ => False
  end.
Proof using L.
  unfold AnnotateNode. match goal with |- context [RetryOnConflict ?f k] => destruct (retry_law f k) as (k1 & _ & ->) end.
  pose proof (get_law name k1) as HG. destruct (NodesGet name k1) as [n|e| |]; try done. destruct HG as [HG1 HG2].
  pose proof (update_law (withAnnotations (fun m => <[key := value]> m) n) k1) as HU. unfold wrapUpdate.
  destruct (NodesUpdate _ k1) as [[[]|e| |] k2]; try done. destruct HU as (old & _ & ->). cbn [k_Name withAnnotations].
  rewrite HG2. eexists. split; [apply lookup_insert_eq|]. cbn. apply lookup_insert_eq.
Qed.

Lemma IndexFunc_spec {A} (p : A -> bool) l :
  match IndexFunc p l with
  | Some i => exists a, l !! i = Some a /\ p a = true /\ forall j b, j < i -> l !! j = Some b -> p b = false
  | None => forall a, a ∈ l -> p a = false
  end%nat.
Proof.
  induction l as [|a l IH]; cbn; [by intros a ?%not_elem_of_nil|]. destruct (p a) eqn:E.
  - exists a. split_and!; try done. lia.
  - destruct (IndexFunc p l) as [i|]; cbn.
    + destruct IH as (b & H1 & H2 & H3). exists b. split_and!; try done. intros [|j] c Hj Hc; cbn in Hc; [congruence|].
      apply (H3 j c); [lia|done].
    + intros b [->|Hb]%elem_of_cons; [done|by apply IH].
Qed.

(** One taint of that name and value is gone, and nothing else changed. *)
Lemma RemoveTaint_spec name key value k :
  match RemoveTaint name key value k with
  | (Ok _, k') => exists n, nodesOf k !! name = Some n /\
      ((forall t, t ∈ Taints n -> (t_Key t, t_Value t) <> (key, value)) /\ k' = k
       \/ exists i, Taints n !! i = Some (mkTaint key value)
            /\ nodesOf k' = <[name := withTaints (delete i (Taints n)) n]> (nodesOf k))
  | (Err _, _) => True
  | _ => False
  end.
Proof using L.
  unfold RemoveTaint. pose proof (get_law name k) as HG. destruct (NodesGet name k) as [n|e| |]; try done.
  destruct HG as [HG1 HG2].
  pose proof (IndexFunc_spec (fun t => (t_Key t =? key)%string && (t_Value t =? value)%string) (Taints n)) as HI.
  destruct (IndexFunc _ _) as [i|].
  - destruct HI as ([tk tv] & H1 & [H2 H3]%andb_prop & _). cbn in H2, H3.
    apply String.eqb_eq in H2 as ->, H3 as ->.
    pose proof (update_law (withTaints (delete i (Taints n)) n) k) as HU. unfold wrapUpdate.
    destruct (NodesUpdate _ k) as [[[]|e| |] k2]; try done. destruct HU as (old & Ho & ->). cbn [k_Name withTaints] in *.
    rewrite HG2 in Ho |- *. rewrite HG1 in Ho. injection Ho as <-. exists n. split; [done|]. right. exists i. by split.
  - exists n. split; [done|]. left. split; [|done]. intros t Ht [= E1 E2]. specialize (HI t Ht). subst.
    by rewrite !String.eqb_refl in HI.
Qed.
End Util.
