(* ===== verification/NetTypes.v ===== *)
(** * The nodes of the network

    The addresses of net/netip that service/net computes with, and controller.go: the
    node that Kubernetes describes, read into an event.  The texts of addresses, prefixes,
    ports and keys are read by parameters ([NetParse]). *)

From stdpp Require Import gmap strings.
From S2P Require Import Prelude Kube.
#[local] Open Scope Z_scope.
#[local] Set Warnings "-clear-no-such-hyp".

(** ** Addresses *)

(** The zero Addr, an address of 32 bits, or one of 128 bits with its zone. *)
Inductive Addr : Type :=
| NoAddr
| IPv4 (a : Z)
| IPv6 (a : Z) (zone : string).

#[export] Instance Addr_eq_dec : EqDecision Addr.
Proof. solve_decision. Defined.
#[export] Instance Addr_countable : Countable Addr.
Proof.
  apply (inj_countable'
    (fun a => match a with NoAddr => inl (inl tt) | IPv4 z => inl (inr z) | IPv6 z s => inr (z, s) end)
    (fun x => match x with inl (inl _) => NoAddr | inl (inr z) => IPv4 z | inr (z, s) => IPv6 z s end)).
  by intros [].
Defined.

Definition Addr_IsValid (a : Addr) : bool := match a with NoAddr => false | _ => true end.
Definition Is4 (a : Addr) : bool := match a with IPv4 _ => true | _ => false end.
Definition BitLen (a : Addr) : Z := match a with NoAddr => 0 | IPv4 _ => 32 | IPv6 _ _ => 128 end.
Definition withoutZone (a : Addr) : Addr := match a with IPv6 z _ => IPv6 z "" | _ => a end.
Definition Zone (a : Addr) : string := match a with IPv6 _ s => s | _ => "" end.

(** The address after; the zero Addr after the last. *)
Definition Next (a : Addr) : Addr :=
  match a with
  | NoAddr => NoAddr
  | IPv4 z => if z + 1 <? 2 ^ 32 then IPv4 (z + 1) else NoAddr
  | IPv6 z s => if z + 1 <? 2 ^ 128 then IPv6 (z + 1) s else NoAddr
  end.

Definition IPv4Unspecified : Addr := IPv4 0.

Record AddrPort : Type := mkAddrPort { ap_Addr : Addr; Port : Z }.
Definition AddrPort_IsValid (ap : AddrPort) : bool := Addr_IsValid (ap_Addr ap).

(** [bits] is -1 when it is not valid for the address. *)
Record Prefix : Type := mkPrefix { p_Addr : Addr; Bits : Z }.
#[export] Instance Prefix_eq_dec : EqDecision Prefix.
Proof. solve_decision. Defined.
#[export] Instance Prefix_countable : Countable Prefix.
Proof. apply (inj_countable' (fun p => (p_Addr p, Bits p)) (fun x => mkPrefix x.1 x.2)). by intros []. Defined.

Definition PrefixFrom (a : Addr) (bits : Z) : Prefix :=
  mkPrefix (withoutZone a)
    (if Addr_IsValid a && (0 <=? bits) && (bits <=? BitLen a) then bits else -1).
Definition Prefix_IsValid (p : Prefix) : bool := 0 <=? Bits p.

(** What ParsePrefix and PrefixFrom give. *)
Definition wfPrefix (p : Prefix) : Prop :=
  p_Addr p = withoutZone (p_Addr p) /\ (Bits p = -1 \/ Addr_IsValid (p_Addr p) = true /\ 0 <= Bits p <= BitLen (p_Addr p)).

(** A net.IP and a net.IPNet: the bytes of the address as one number, with its length. *)
Record IP : Type := mkIP { ipBits : Z; ipValue : Z }.
#[export] Instance IP_eq_dec : EqDecision IP.
Proof. solve_decision. Defined.
#[export] Instance IP_countable : Countable IP.
Proof. apply (inj_countable' (fun p => (ipBits p, ipValue p)) (fun x => mkIP x.1 x.2)). by intros []. Defined.

(** [AsSlice]: nil for the zero Addr. *)
Definition AsSlice (a : Addr) : IP :=
  match a with NoAddr => mkIP 0 0 | IPv4 z => mkIP 32 z | IPv6 z _ => mkIP 128 z end.

(** [IP.Equal]: an IPv4 address and the same as an IPv6 one are equal. *)
Definition to16 (ip : IP) : IP :=
  if ipBits ip =? 32 then mkIP 128 (2 ^ 32 * (2 ^ 16 - 1) + ipValue ip) else ip.
Definition IP_Equal (a b : IP) : bool := bool_decide (to16 a = to16 b).

(** [CIDRMask(ones, bits)]. *)
Definition CIDRMask (ones bits : Z) : IP := mkIP bits (2 ^ bits - 2 ^ (bits - ones)).

Record IPNet : Type := mkIPNet { n_IP : IP; Mask : IP }.
#[export] Instance IPNet_eq_dec : EqDecision IPNet.
Proof. solve_decision. Defined.
#[export] Instance IPNet_countable : Countable IPNet.
Proof. apply (inj_countable' (fun p => (n_IP p, Mask p)) (fun x => mkIPNet x.1 x.2)). by intros []. Defined.

(** [IPNet.Network]: the name of the kind of network. *)
Definition Network (_ : IPNet) : string := "ip+net".

(** internal/util.go *)
Definition PrefixToIPNet (p : Prefix) : outcome IPNet :=
  if negb (Prefix_IsValid p) then Err (PlainError "invalid Prefix") else
  let ip := p_Addr p in
  if negb (Addr_IsValid ip) then Err (PlainError "invalid IP address in Prefix") else
  Ok (mkIPNet (AsSlice ip) (CIDRMask (Bits p) (BitLen ip))).

Lemma PrefixToIPNet_ok p :
  wfPrefix p -> Prefix_IsValid p = true ->
  PrefixToIPNet p = Ok (mkIPNet (AsSlice (p_Addr p)) (CIDRMask (Bits p) (BitLen (p_Addr p)))).
Proof.
  intros [_ [H|[H1 H2]]] Hv; unfold PrefixToIPNet; rewrite Hv; cbn.
  - unfold Prefix_IsValid in Hv. rewrite H in Hv. done.
  - by rewrite H1.
Qed.

(** Two prefixes with one network are one. *)
Lemma PrefixToIPNet_inj p q n :
  wfPrefix p -> wfPrefix q -> PrefixToIPNet p = Ok n -> PrefixToIPNet q = Ok n -> p = q.
Proof.
  intros [Hp1 Hp2] [Hq1 Hq2]. unfold PrefixToIPNet, Prefix_IsValid.
  destruct p as [a i], q as [b j]; cbn in *.
  destruct (Z.leb_spec 0 i), (Z.leb_spec 0 j); cbn; try done.
  destruct (Addr_IsValid a) eqn:Ea, (Addr_IsValid b) eqn:Eb; cbn; try done.
  intros [= <-] [= H1 H2 H3].
  assert (b = a) as ->. { destruct a, b; cbn in *; try done; congruence. }
  destruct Hp2 as [?|[_ Hp2]]; [lia|]. destruct Hq2 as [?|[_ Hq2]]; [lia|].
  f_equal. assert (2 ^ (BitLen a - i) = 2 ^ (BitLen a - j)) as HE by lia.
  apply Z.pow_inj_r in HE; lia.
Qed.

(** ** Nodes *)

(** A WireGuard key: its 32 bytes. *)
Definition Key : Type := string.

Record Node : Type := mkNode {
  n_Name : string;
  n_InternalAddress : Addr;
  n_PublicKey : option Key;
  n_ExternalAddress : AddrPort;
  n_CIDRs : list Prefix
}.

Inductive Event : Type :=
| Update (n : Node)
| Delete (name : string).

Definition AnnotationExternalPort : string := "net.teapot.ovh/external-port".
Definition AnnotationPublicKey : string := "net.teapot.ovh/public-key".
Definition DefaultWireguardPort : Z := 51692.

(** netip.ParseAddr, netip.ParsePrefix, fmt.Sscanf into an uint16, wgtypes.ParseKey. *)
Class NetParse : Type := {
  ParseAddr : string -> outcome Addr;
  ParsePrefix : string -> outcome Prefix;
  scanPort : string -> outcome Z;
  ParseKey : string -> outcome Key
}.

(** A deferred cleanup: its error counts if there was none before. *)
Definition deferred {St A} (m : Go St A) (cleanup : Go St unit) (msg : string) : Go St A :=
  fun w =>
    let '(o, w1) := m w in
    let '(o', w2) := cleanup w1 in
    (match o, o' with
     | Ok _, Err e => Err (Errorf msg [e])
     | _, Panic p => Panic p
     | _, Diverge => Diverge
     | _, _ => o
     end, w2).

Section Handle.
Context {P : NetParse}.

Definition errorf {A} (msg : string) (o : outcome A) : outcome A :=
  match o with Err e => Err (Errorf msg [e]) | r => r end.

Definition parseCIDRs : list string -> outcome (list Prefix) :=
  fix go l :=
    match l with
    | [] => Ok []
    | cidr :: l' =>
        prefix <-? errorf "error while parsing CIDR %q as network prefix: %w" (ParsePrefix cidr) ;;
        rest <-? go l' ;;
        Ok (prefix :: rest)
    end.

(** The loop over the addresses, with [externalIP] and [internalIP]. *)
Fixpoint parseAddresses (l : list NodeAddress) (ips : Addr * Addr) : outcome (Addr * Addr) :=
  match l with
  | [] => Ok ips
  | addr :: l' =>
      match Type_ addr with
      | NodeInternalIP =>
          ip <-? errorf "error while parsing the internal ip %q for node %s: %w" (ParseAddr (Address addr)) ;;
          parseAddresses l' (ips.1, ip)
      | NodeExternalIP =>
          ip <-? errorf "error while parsing the external ip %q for node %s: %w" (ParseAddr (Address addr)) ;;
          parseAddresses l' (ip, ips.2)
      | _ => parseAddresses l' ips
      end
  end.

(** [Net.handle]: the event it publishes. *)
Definition handle (name : string) (node : option kubeNode) : outcome Event :=
  match node with
  | None => Ok (Delete name)
  | Some n =>
      cidrs <-? parseCIDRs (PodCIDRs n) ;;
      let? (externalIP, internalIP) := parseAddresses (Addresses n) (NoAddr, NoAddr) in
      port <-? match Annotations n !! AnnotationExternalPort with
               | None => Ok DefaultWireguardPort
               | Some rawPort =>
                   errorf "error while parsing the external port %q for node %s: %w" (scanPort rawPort)
               end ;;
      publicKey <-? match Annotations n !! AnnotationPublicKey with
                    | None => Ok None
                    | Some rawPublicKey =>
                        pk <-? errorf "error while parsing the public key %q for node %s: %w" (ParseKey rawPublicKey) ;;
                        Ok (Some pk)
                    end ;;
      Ok (Update (mkNode (k_Name n) internalIP publicKey (mkAddrPort externalIP port) cidrs))
  end.

(** The last address of a kind, read. *)
Definition lastAddress (t : NodeAddressType) (l : list NodeAddress) : option string :=
  last (omap (fun a => if bool_decide (Type_ a = t) then Some (Address a) else None) l).

Definition reads {A} (parse : string -> outcome A) (text : option string) (absent a : A) : Prop :=
  match text with None => a = absent | Some s => parse s = Ok a end.

Definition legible (l : list NodeAddress) : Prop :=
  forall a, a ∈ l -> Type_ a = NodeInternalIP \/ Type_ a = NodeExternalIP -> exists ip, ParseAddr (Address a) = Ok ip.

Lemma errorf_ok {A} msg (o : outcome A) a : errorf msg o = Ok a <-> o = Ok a.
Proof. by destruct o. Qed.

Lemma errorf_bind {A B} msg (o : outcome A) (k : A -> outcome B) b :
  obind (errorf msg o) k = Ok b <-> exists a, o = Ok a /\ k a = Ok b.
Proof. destruct o; cbn; split; try done; try (by intros (a0 & ? & ?)); [by eexists|intros (? & [= <-] & ?); done]. Qed.

Lemma parseCIDRs_ok l ps : parseCIDRs l = Ok ps <-> Forall2 (fun s p => ParsePrefix s = Ok p) l ps.
Proof.
  revert ps. induction l as [|s l IH]; intros ps; cbn.
  - split; [intros [= <-]; constructor|by intros ->%Forall2_nil_inv_l].
  - rewrite errorf_bind. split.
    + intros (p & Hp & H). destruct (parseCIDRs l) as [r| | |] eqn:E; try done. injection H as <-.
      constructor; [done|by apply IH].
    + intros H. inversion H as [|? p ? r H1 H2]; subst. exists p. split; [done|]. apply IH in H2. by rewrite H2.
Qed.

Lemma last_cons_default {A} (x : A) l (f : option A -> Prop) : f (last (x :: l)) <-> f (Some (default x (last l))).
Proof. by rewrite last_cons; destruct (last l). Qed.

Lemma parseAddresses_ok l ips ext int :
  parseAddresses l ips = Ok (ext, int) <->
  legible l /\ reads ParseAddr (lastAddress NodeExternalIP l) ips.1 ext
  /\ reads ParseAddr (lastAddress NodeInternalIP l) ips.2 int.
Proof.
  revert ips. induction l as [|a l IH]; intros [x y].
  - cbn. split; [intros [= -> ->]; split; [by intros ? ?%not_elem_of_nil|done]|by intros (_ & -> & ->)].
  - assert (forall t, lastAddress t (a :: l) = if bool_decide (Type_ a = t)
              then Some (default (Address a) (lastAddress t l)) else lastAddress t l) as HL.
    { intros t. unfold lastAddress. cbn. case_bool_decide; [|done]. rewrite last_cons.
      by destruct (last _). }
    rewrite !HL. clear HL.
    assert (legible (a :: l) <-> legible l /\ (Type_ a = NodeInternalIP \/ Type_ a = NodeExternalIP ->
              exists ip, ParseAddr (Address a) = Ok ip)) as HG.
    { unfold legible. setoid_rewrite elem_of_cons. naive_solver. }
    rewrite HG. clear HG. cbn [parseAddresses].
    assert (forall t z ip, ParseAddr (Address a) = Ok ip -> forall w,
              reads ParseAddr (Some (default (Address a) (lastAddress t l))) z w <-> reads ParseAddr (lastAddress t l) ip w) as HR.
    { intros t z ip Hip w. destruct (lastAddress t l); cbn; [done|]. rewrite Hip. split; [by intros [= <-]|by intros ->]. }
    destruct (Type_ a) eqn:Et; rewrite ?errorf_bind; try (rewrite IH; cbn; naive_solver).
    all: repeat case_bool_decide; try congruence; cbn [fst snd]; split.
    + intros (ip & Hip & Hw). apply IH in Hw as (H1 & H2 & H3). split; [split; [done|naive_solver]|].
      split; [done|]. by rewrite (HR _ _ _ Hip).
    + intros ([H1 Hx] & H3 & H4). destruct Hx as [ip Hip]; [naive_solver|]. exists ip. split; [done|].
      apply IH. by rewrite (HR _ _ _ Hip) in H4.
    + intros (ip & Hip & Hw). apply IH in Hw as (H1 & H2 & H3). split; [split; [done|naive_solver]|].
      split; [|done]. by rewrite (HR _ _ _ Hip).
    + intros ([H1 Hx] & H3 & H4). destruct Hx as [ip Hip]; [naive_solver|]. exists ip. split; [done|].
      apply IH. by rewrite (HR _ _ _ Hip) in H3.
Qed.

(** What the controller publishes of a node: each of its fields read, the last address of
    each kind, the default port and no key when they are not annotated; and it publishes
    nothing when one of them cannot be read. *)
Theorem handle_update (name : string) (n : kubeNode) (u : Node) :
  handle name (Some n) = Ok (Update u) <->
  n_Name u = k_Name n
  /\ Forall2 (fun s p => ParsePrefix s = Ok p) (PodCIDRs n) (n_CIDRs u)
  /\ legible (Addresses n)
  /\ reads ParseAddr (lastAddress NodeExternalIP (Addresses n)) NoAddr (ap_Addr (n_ExternalAddress u))
  /\ reads ParseAddr (lastAddress NodeInternalIP (Addresses n)) NoAddr (n_InternalAddress u)
  /\ reads scanPort (Annotations n !! AnnotationExternalPort) DefaultWireguardPort (Port (n_ExternalAddress u))
  /\ match Annotations n !! AnnotationPublicKey, n_PublicKey u with
     | None, None => True
     | Some s, Some k => ParseKey s = Ok k
     | _, _ => False
     end.
Proof.
  destruct u as [nm int key [ext port] cidrs]. cbn [n_Name n_CIDRs n_ExternalAddress n_InternalAddress n_PublicKey ap_Addr Port].
  rewrite <- parseCIDRs_ok. unfold handle.
  assert (forall ps, parseAddresses (Addresses n) (NoAddr, NoAddr) = Ok ps <->
            legible (Addresses n) /\ reads ParseAddr (lastAddress NodeExternalIP (Addresses n)) NoAddr ps.1
            /\ reads ParseAddr (lastAddress NodeInternalIP (Addresses n)) NoAddr ps.2) as HA.
  { intros [e i]. apply (parseAddresses_ok _ (NoAddr, NoAddr)). }
  destruct (parseCIDRs (PodCIDRs n)) as [ps| | |]; cbn [obind]; [|naive_solver..].
  destruct (parseAddresses (Addresses n) (NoAddr, NoAddr)) as [[e i]| | |] eqn:EA; cbn [obind].
  2-4: split; [done|]; intros (_ & _ & H1 & H2 & H3 & _);
    assert (Ok (ext, int) = Ok (ext, int)) as HX by done; specialize (HA (ext, int)); cbn in HA; naive_solver.
  assert (reads ParseAddr (lastAddress NodeExternalIP (Addresses n)) NoAddr ext ->
          reads ParseAddr (lastAddress NodeInternalIP (Addresses n)) NoAddr int ->
          legible (Addresses n) -> ext = e /\ int = i) as HU.
  { intros H1 H2 H3. assert (Ok (e, i) = Ok (ext, int)) as [= -> ->]; [|done]. by apply HA. }
  destruct (HA (e, i)) as [HA1 _]. specialize (HA1 eq_refl). cbn in HA1. clear HA EA.
  destruct (Annotations n !! AnnotationExternalPort) as [rp|], (Annotations n !! AnnotationPublicKey) as [rk|]; cbn [obind reads].
  all: rewrite ?errorf_bind; try (destruct (scanPort rp) as [p| | |] eqn:EP; cbn [errorf obind]);
       try (destruct (ParseKey rk) as [k| | |] eqn:EK; cbn [errorf obind]).
  all: split; [intros HE|intros (-> & [= ->] & Hl & He & Hi & Hr)].
  all: try (destruct HE as (? & ? & ?)); simplify_eq; try naive_solver.
  all: destruct (HU He Hi Hl) as [-> ->], key; naive_solver.
Qed.
End Handle.
