(* ===== verification/Ccm.v ===== *)
(** * The cloud controller

    service/ccm: the addresses of the machine's own node.  The external address is fetched
    from a server, the internal one is computed from the name of the node, and both are
    written into the status of the node and kept there; when the node has both, its taint
    is removed.  The steps of each goroutine are what it does with one event. *)

From stdpp Require Import gmap strings.
From S2P Require Import Prelude GoStrings Kube NetTypes.
#[local] Open Scope Z_scope.
#[local] Set Warnings "-clear-no-such-hyp".

(** netip.Addr.String. *)
Class AddrTexts (P : NetParse) : Type := {
  AddrString : Addr -> string;
  addr_read a : Addr_IsValid a = true -> ParseAddr (AddrString a) = Ok a
}.

Record ccmEvent : Type := mkCcmEvent { ev_Node : string; ev_ExternalIP : Addr; ev_InternalIP : Addr; ev_Hostname : string }.

Record CCM : Type := mkCCM { ccm_internalIP : Addr; ccm_externalIP : Addr; ccm_node : string }.

Section CCM.
Context {P : NetParse} {T : AddrTexts P} {KA : KubeAPI}.

(** The controller, Kubernetes, and what was published. *)
Record ccmWorld : Type := mkCcmWorld { ccm : CCM; cloud : Kube; published : list ccmEvent }.

Definition onCloud (f : Kube -> outcome unit * Kube) : Go ccmWorld unit :=
  fun w => let '(o, k) := f (cloud w) in (o, mkCcmWorld (ccm w) k (published w)).

(** ** ccm.go *)

Definition statusAddresses (c : CCM) : list NodeAddress :=
  [mkNodeAddress NodeHostName (ccm_node c)]
  ++ (if Addr_IsValid (ccm_internalIP c) then [mkNodeAddress NodeInternalIP (AddrString (ccm_internalIP c))] else [])
  ++ (if Addr_IsValid (ccm_externalIP c) then [mkNodeAddress NodeExternalIP (AddrString (ccm_externalIP c))] else []).

Definition ccm_update : Go ccmWorld unit :=
  w <-- get ;;
  let addresses := statusAddresses (ccm w) in
  onCloud (RetryOnConflict (fun k =>
    match NodesGet (ccm_node (ccm w)) k with
    | Ok node =>
        wrapUpdate "failed to update kubernetes node %q: %w" (NodesUpdateStatus (withAddresses addresses node) k)
    | Err e => (Err (Errorf "failed to get kubernetes node %q: %w" [e]), k)
    | Panic m => (Panic m, k)
    | Diverge => (Diverge, k)
    end)).

Definition SetInternalIP (a : Addr) : Go ccmWorld unit :=
  modify (fun w => mkCcmWorld (mkCCM a (ccm_externalIP (ccm w)) (ccm_node (ccm w))) (cloud w) (published w)) ;;;
  ccm_update.

Definition SetExternalIP (a : Addr) : Go ccmWorld unit :=
  modify (fun w => mkCcmWorld (mkCCM (ccm_internalIP (ccm w)) a (ccm_node (ccm w))) (cloud w) (published w)) ;;;
  ccm_update.

(** An address that cannot be parsed is the zero one. *)
Definition orZero (o : outcome Addr) : Addr := match o with Ok a => a | _ => NoAddr end.

(** The loop over the addresses of the status. *)
Definition readAddress (ev : ccmEvent) (a : NodeAddress) : ccmEvent :=
  match Type_ a with
  | NodeExternalIP => mkCcmEvent (ev_Node ev) (orZero (ParseAddr (Address a))) (ev_InternalIP ev) (ev_Hostname ev)
  | NodeInternalIP => mkCcmEvent (ev_Node ev) (ev_ExternalIP ev) (orZero (ParseAddr (Address a))) (ev_Hostname ev)
  | NodeHostName => mkCcmEvent (ev_Node ev) (ev_ExternalIP ev) (ev_InternalIP ev) (Address a)
  | _ => ev
  end.

Definition nilPointer : string := "invalid memory address or nil pointer dereference".

(** [CCM.handle]: [node] is nil when the node does not exist. *)
Definition ccm_handle (name : string) (node : option kubeNode) : Go ccmWorld unit :=
  w <-- get ;;
  if negb (name =? ccm_node (ccm w))%string then ret tt
  else match node with
  | None => panic nilPointer
  | Some n =>
      let ev := foldl readAddress (mkCcmEvent (k_Name n) NoAddr NoAddr "") (Addresses n) in
      modify (fun w => mkCcmWorld (ccm w) (cloud w) (published w ++ [ev]))
  end.

(** ** externalip *)

Definition setExternalIP (ip : Addr) : Go ccmWorld Addr :=
  wrapf "error while updating node ExternalIP (source: %s): %w" [] (SetExternalIP ip) ;;;
  ret ip.

(** What ExternalIP.Run gets: what the ticker makes it fetch, or an event. *)
Inductive eipInput : Type :=
| Fetched (publicIP : outcome Addr)
| EipEvent (ev : ccmEvent).

(** One round of [ExternalIP.Run], with the field externalIP. *)
Definition eipRound (externalIP : Addr) (i : eipInput) : Go ccmWorld Addr :=
  match i with
  | Fetched f =>
      publicIP <-- wrapf "error while fetching public IP: %w" [] (lift f) ;;
      if bool_decide (externalIP = publicIP) then ret externalIP else setExternalIP publicIP
  | EipEvent ev =>
      if Addr_IsValid externalIP then
        if bool_decide (ev_ExternalIP ev = externalIP) then ret externalIP else setExternalIP externalIP
      else ret (ev_ExternalIP ev)
  end.

(** ** internalip *)

(** [bytes[i] = b] on the bytes of an address. *)
Definition setByte (i : Z) (b : Z) (ip : IP) : outcome IP :=
  if 8 * (i + 1) <=? ipBits ip then
    let sh := ipBits ip - 8 * (i + 1) in
    Ok (mkIP (ipBits ip) (ipValue ip - Z.land (Z.shiftr (ipValue ip) sh) 255 * 2 ^ sh + b * 2 ^ sh))
  else Panic "index out of range".

(** [AddrFromSlice]. *)
Definition AddrFromSlice (ip : IP) : option Addr :=
  if ipBits ip =? 32 then Some (IPv4 (ipValue ip))
  else if ipBits ip =? 128 then Some (IPv6 (ipValue ip) "")
  else None.

(** crypto/md5: the 16 bytes of the sum. *)
Class MD5 : Type := { md5Sum : string -> list Z }.
Context {M : MD5}.

(** The exclusive or of every second byte from [i]. *)
Definition xorBytes (hash : list Z) (i : nat) : Z :=
  fold_left Z.lxor (map (fun j => nth (j + i) hash 0) [0; 2; 4; 6; 8; 10; 12; 14]%nat) 0.

Definition ErrAddressForNode : error := PlainError "could not generate random node local address".

Definition nodeInternalIP (prefix : Prefix) (nodeName : string) : outcome Addr :=
  let hash := md5Sum nodeName in
  bytes <-? setByte 2 (xorBytes hash 0) (AsSlice (p_Addr prefix)) ;;
  bytes <-? setByte 3 (xorBytes hash 1) bytes ;;
  match AddrFromSlice bytes with
  | None => Err ErrAddressForNode
  | Some addr => Ok addr
  end.

Record InternalIP : Type := mkInternalIP { iip_internalIP : Addr; iip_prefix : Prefix; iip_node : string }.

Definition setInternalIP (i : InternalIP) (ip : Addr) : Go ccmWorld InternalIP :=
  wrapf "error while updating node InternalIP (source: %s): %w" [] (SetInternalIP ip) ;;;
  ret (mkInternalIP ip (iip_prefix i) (iip_node i)).

(** One round of [InternalIP.Run]. *)
Definition iipRound (i : InternalIP) (ev : ccmEvent) : Go ccmWorld InternalIP :=
  if negb (Addr_IsValid (ev_InternalIP ev)) || (iip_node i =? ev_Node ev)%string then
    let i := mkInternalIP (iip_internalIP i) (iip_prefix i) (ev_Node ev) in
    newIP <-- wrapf "error while computing local node IP: %w" [] (lift (nodeInternalIP (iip_prefix i) (ev_Node ev))) ;;
    setInternalIP i newIP
  else if Addr_IsValid (iip_internalIP i) && negb (bool_decide (ev_InternalIP ev = iip_internalIP i)) then
    setInternalIP i (iip_internalIP i)
  else ret i.

(** ** initialize *)

(** One round of [Initialize.Run]. *)
Definition initRound (ev : ccmEvent) : Go ccmWorld unit :=
  if negb (Addr_IsValid (ev_InternalIP ev)) || negb (Addr_IsValid (ev_ExternalIP ev)) then ret tt
  else wrapf "error while removing uninitialized taint from node %q: %w" []
         (onCloud (RemoveTaint (ev_Node ev) "node.cloudprovider.kubernetes.io/uninitialized" "true")).

(** ** The bounds of the internal address *)

Definition sums : Prop := forall s, Forall (fun b => 0 <= b < 256) (md5Sum s).

Lemma lxor_byte a b : 0 <= a < 256 -> 0 <= b < 256 -> 0 <= Z.lxor a b < 256.
Proof.
  intros Ha Hb. assert (0 <= Z.lxor a b) as H0 by (apply Z.lxor_nonneg; lia). split; [done|].
  destruct (Z.eq_dec (Z.lxor a b) 0) as [->|Hn]; [lia|]. apply Z.log2_lt_pow2 with (b := 8); [lia|].
  pose proof (Z.log2_lxor a b ltac:(lia) ltac:(lia)) as HL.
  assert (forall x, 0 <= x < 256 -> Z.log2 x < 8) as HX.
  { intros x Hx. destruct (Z.eq_dec x 0) as [->|]; [by vm_compute|]. apply Z.log2_lt_pow2; lia. }
  pose proof (HX a Ha). pose proof (HX b Hb). lia.
Qed.

Lemma xorBytes_bounds s i : sums -> 0 <= xorBytes (md5Sum s) i < 256.
Proof.
  intros HS. unfold xorBytes.
  assert (forall j, 0 <= nth j (md5Sum s) 0 < 256) as HN.
  { intros j. destruct (nth_in_or_default j (md5Sum s) 0) as [H| ->]; [|lia].
    specialize (HS s). rewrite List.Forall_forall in HS. by apply HS. }
  assert (forall l a, 0 <= a < 256 -> 0 <= fold_left Z.lxor (map (fun j => nth (j + i) (md5Sum s) 0) l) a < 256) as HF.
  { induction l as [|j l IH]; intros a Ha; cbn; [done|]. apply IH, lxor_byte; [done|apply HN]. }
  apply HF. lia.
Qed.

(** The internal address of a node keeps the first half of an IPv4 network's address and
    takes the second from its name: it is within the network as long as that is not
    smaller than a /16. *)
Theorem nodeInternalIP_bounds (a bits : Z) (name : string) :
  sums -> 0 <= a < 2 ^ 32 -> 0 <= bits <= 16 ->
  exists x, nodeInternalIP (mkPrefix (IPv4 a) bits) name = Ok (IPv4 x)
    /\ 0 <= x < 2 ^ 32 /\ x / 2 ^ 16 = a / 2 ^ 16 /\ x / 2 ^ (32 - bits) = a / 2 ^ (32 - bits).
Proof.
  intros HS Ha Hb. pose proof (xorBytes_bounds name 0 HS) as H0. pose proof (xorBytes_bounds name 1 HS) as H1.
  unfold nodeInternalIP. set (b0 := xorBytes _ 0) in *. set (b1 := xorBytes _ 1) in *.
  cbn [p_Addr AsSlice]. unfold setByte. cbn [ipBits ipValue Z.leb Z.compare obind].
  change (8 * (2 + 1) <=? 32) with true. cbn [obind ipBits ipValue].
  change (8 * (3 + 1) <=? 32) with true. cbn [obind ipBits ipValue AddrFromSlice Z.eqb Pos.eqb].
  change (32 - 8 * (2 + 1)) with 8. change (32 - 8 * (3 + 1)) with 0.
  rewrite Z.shiftr_0_r, !Z.shiftr_div_pow2 by lia.
  change 255 with (Z.ones 8). rewrite !Z.land_ones by lia. rewrite Z.pow_0_r, !Z.mul_1_r.
  set (y := a - (a / 2 ^ 8) mod 2 ^ 8 * 2 ^ 8 + b0 * 2 ^ 8).
  assert (y = a / 2 ^ 16 * 2 ^ 16 + b0 * 2 ^ 8 + a mod 2 ^ 8) as Ey.
  { unfold y. change (2 ^ 16) with 65536. change (2 ^ 8) with 256.
    assert (a / 65536 = a / 256 / 256) as -> by (rewrite Z.div_div by lia; reflexivity).
    pose proof (Z.div_mod a 256 ltac:(lia)). pose proof (Z.div_mod (a / 256) 256 ltac:(lia)). lia. }
  assert (y mod 2 ^ 8 = a mod 2 ^ 8) as Em.
  { rewrite Ey. replace (a / 2 ^ 16 * 2 ^ 16 + b0 * 2 ^ 8 + a mod 2 ^ 8) with (a mod 2 ^ 8 + (a / 2 ^ 16 * 2 ^ 8 + b0) * 2 ^ 8) by lia.
    rewrite Z.mod_add by lia. apply Z.mod_mod. lia. }
  rewrite Em.
  exists (y - a mod 2 ^ 8 + b1). set (x := y - a mod 2 ^ 8 + b1).
  assert (x = a / 2 ^ 16 * 2 ^ 16 + (b0 * 2 ^ 8 + b1)) as Ex by (unfold x; lia).
  assert (x / 2 ^ 16 = a / 2 ^ 16) as E16 by (rewrite Ex, Z.div_add_l by lia; rewrite (Z.div_small (b0 * 2 ^ 8 + b1)); lia).
  assert (0 <= a / 2 ^ 16 < 2 ^ 16) as H16.
  { split; [apply Z.div_pos; lia|]. apply Z.div_lt_upper_bound; lia. }
  split; [done|]. split; [lia|]. split; [done|].
  assert (forall z, z / 2 ^ (32 - bits) = z / 2 ^ 16 / 2 ^ (16 - bits)) as HD.
  { intros z. rewrite Z.div_div by lia. f_equal. rewrite <- Z.pow_add_r by lia. f_equal. lia. }
  by rewrite !HD, E16.
Qed.

(** ** The addresses in Kubernetes *)

Context {L : KubeLaws KA}.

(** The node of the machine has the addresses of the controller. *)
Definition addressesStored (w : ccmWorld) : Prop :=
  exists n, nodesOf (cloud w) !! ccm_node (ccm w) = Some n /\ k_Name n = ccm_node (ccm w)
    /\ Addresses n = statusAddresses (ccm w).

(** The nodes of Kubernetes are filed under their names. *)
Definition named (k : Kube) : Prop := forall name n, nodesOf k !! name = Some n -> k_Name n = name.

Lemma ccm_update_spec w :
  match ccm_update w with
  | (Ok _, w') => ccm w' = ccm w /\ published w' = published w
      /\ exists n, nodesOf (cloud w') !! ccm_node (ccm w) = Some n /\ Addresses n = statusAddresses (ccm w)
  | (Err _, w') => ccm w' = ccm w /\ published w' = published w
  | _ => False
  end.
Proof using L.
  unfold ccm_update, bind, get, onCloud.
  match goal with |- context [RetryOnConflict ?f ?k] => destruct (retry_law f k) as (k1 & _ & ->) end.
  pose proof (get_law (ccm_node (ccm w)) k1) as HG. destruct (NodesGet _ k1) as [n|e| |]; try done. destruct HG as [HG1 HG2].
  pose proof (updateStatus_law (withAddresses (statusAddresses (ccm w)) n) k1) as HU. unfold wrapUpdate.
  destruct (NodesUpdateStatus _ k1) as [[[]|e| |] k2]; try done. destruct HU as (old & _ & HU). cbn. split_and!; try done.
  rewrite HU. cbn [k_Name withAddresses]. rewrite HG2. eexists. split; [apply lookup_insert_eq|]. done.
Qed.

Definition zeroOr (a : Addr) : Addr := if Addr_IsValid a then a else NoAddr.

Lemma readAddress_status c name :
  foldl readAddress (mkCcmEvent name NoAddr NoAddr "") (statusAddresses c)
  = mkCcmEvent name (zeroOr (ccm_externalIP c)) (zeroOr (ccm_internalIP c)) (ccm_node c).
Proof using Type.
  unfold statusAddresses, zeroOr.
  destruct (Addr_IsValid (ccm_internalIP c)) eqn:Ei, (Addr_IsValid (ccm_externalIP c)) eqn:Ee; cbn;
    rewrite ?addr_read by done; done.
Qed.

(** What the controller writes it reads back: once it has set an address, the node of the
    machine has its name and the addresses that are set, and handling that node publishes
    these addresses. *)
Theorem addresses_published (a : Addr) (internal : bool) (w w' : ccmWorld) :
  (if internal then SetInternalIP a else SetExternalIP a) w = (Ok tt, w') ->
  (if internal then ccm_internalIP (ccm w') else ccm_externalIP (ccm w')) = a
  /\ exists n w'', nodesOf (cloud w') !! ccm_node (ccm w') = Some n
       /\ ccm_handle (ccm_node (ccm w')) (Some n) w' = (Ok tt, w'')
       /\ published w'' = published w' ++
            [mkCcmEvent (k_Name n) (zeroOr (ccm_externalIP (ccm w'))) (zeroOr (ccm_internalIP (ccm w'))) (ccm_node (ccm w'))].
Proof using L.
  assert (forall w0 w1, ccm_update w0 = (Ok tt, w1) -> ccm w1 = ccm w0 /\
    exists n w2, nodesOf (cloud w1) !! ccm_node (ccm w1) = Some n
       /\ ccm_handle (ccm_node (ccm w1)) (Some n) w1 = (Ok tt, w2)
       /\ published w2 = published w1 ++
            [mkCcmEvent (k_Name n) (zeroOr (ccm_externalIP (ccm w1))) (zeroOr (ccm_internalIP (ccm w1))) (ccm_node (ccm w1))]) as HU.
  { intros w0 w1 H. pose proof (ccm_update_spec w0) as HS. rewrite H in HS. destruct HS as (S1 & _ & n & S2 & S3).
    split; [done|]. rewrite S1. exists n. eexists. split; [done|].
    unfold ccm_handle, bind, get, modify. rewrite S1, String.eqb_refl. cbn. split; [done|]. cbn.
    by rewrite S3, readAddress_status. }
  destruct internal; unfold SetInternalIP, SetExternalIP, bind, modify; intros H; apply HU in H as [H1 H2]; rewrite H1 in *; done.
Qed.

(** Once the goroutine has seen the node, whatever the status says the internal address
    becomes that of the name again. *)
Lemma tampering_undone i ev w i' w' :
  iip_node i = ev_Node ev -> iipRound i ev w = (Ok i', w') ->
  exists ip, nodeInternalIP (iip_prefix i) (ev_Node ev) = Ok ip /\ ccm_internalIP (ccm w') = ip
    /\ iip_internalIP i' = ip /\ iip_node i' = iip_node i.
Proof using L.
  intros Hi. unfold iipRound. rewrite Hi, String.eqb_refl, orb_true_r. cbn [iip_prefix iip_internalIP iip_node].
  unfold bind at 1, wrapf at 1, lift. destruct (nodeInternalIP _ _) as [ip|e| |] eqn:EN; cbn; try done.
  unfold setInternalIP, bind at 1, wrapf at 1, SetInternalIP, bind at 1, modify.
  pose proof (ccm_update_spec (mkCcmWorld (mkCCM ip (ccm_externalIP (ccm w)) (ccm_node (ccm w))) (cloud w) (published w))) as HS.
  destruct (ccm_update _) as [[[]|e| |] w1]; cbn; try done. intros [= <- <-]. exists ip. cbn.
  destruct HS as (-> & _). done.
Qed.

(** But an address that the node has before the goroutine ever sees it without one is never
    looked at: the round does nothing, and so does every later one. *)
Lemma preset_internal_kept i ev w :
  Addr_IsValid (ev_InternalIP ev) = true -> iip_node i <> ev_Node ev -> Addr_IsValid (iip_internalIP i) = false ->
  iipRound i ev w = (Ok i, w).
Proof using Type.
  intros H1 H2 H3. unfold iipRound. rewrite H1, H3. cbn. by destruct (String.eqb_spec (iip_node i) (ev_Node ev)).
Qed.

(** Handling the removal of the machine's own node dereferences nil. *)
Lemma removed_node_panics w : ccm_handle (ccm_node (ccm w)) None w = (Panic nilPointer, w).
Proof using Type. unfold ccm_handle, bind, get, panic. by rewrite String.eqb_refl. Qed.
End CCM.

(** ** Examples *)

(** Nodes in a map, and texts of addresses that can be read back. *)
Definition putNode (f : kubeNode -> kubeNode -> kubeNode) (n : kubeNode) (k : gmap string kubeNode)
    : outcome unit * gmap string kubeNode :=
  match k !! k_Name n with
  | Some old => (Ok tt, <[k_Name n := f old n]> k)
  | None => (Err (PlainError "not found"), k)
  end.

#[export] Instance mapNodes : KubeAPI := {|
  Kube := gmap string kubeNode;
  NodesGet := fun name k => match k !! name with
    | Some n => if (k_Name n =? name)%string then Ok n else Err (PlainError "not found")
    | None => Err (PlainError "not found") end;
  NodesUpdate := putNode (fun old n => withAddresses (Addresses old) n);
  NodesUpdateStatus := putNode (fun old n => withAddresses (Addresses n) old);
  RetryOnConflict := fun f k => f k
|}.

#[export] Instance mapNodes_laws : KubeLaws mapNodes.
Proof.
  refine {| nodesOf := fun k : Kube => k |}; cbn.
  - intros name k. destruct (k !! name) as [n|] eqn:E; [|done]. by destruct (String.eqb_spec (k_Name n) name).
  - intros n k. unfold putNode. destruct (k !! k_Name n) as [old|] eqn:E; [|done]. by exists old.
  - intros n k. unfold putNode. destruct (k !! k_Name n) as [old|] eqn:E; [|done]. by exists old.
  - intros f k. exists k. split; [apply relations.rtc_refl|done].
Defined.

#[export] Instance bitsParse : NetParse := {|
  ParseAddr := fun s => match countable.decode (unbits s) with Some a => Ok a | None => Err (PlainError "unable to parse IP") end;
  ParsePrefix := fun s => match countable.decode (unbits s) with Some a => Ok a | None => Err (PlainError "netip.ParsePrefix") end;
  scanPort := fun s => Err (PlainError "expected integer");
  ParseKey := fun s => Ok s
|}.

#[export] Instance bitsTexts : AddrTexts bitsParse.
Proof.
  refine {| AddrString := fun a => bits (countable.encode a) |}.
  intros a _. cbn. by rewrite unbits_bits, countable.decode_encode.
Defined.

Definition newCloud : ccmWorld :=
  @mkCcmWorld mapNodes (mkCCM NoAddr NoAddr "a") {["a" := mkKubeNode "a" [] [] ∅ []]} [].

Lemma addresses_published_witness :
  exists w', SetInternalIP (IPv4 1681915904) newCloud = (Ok tt, w') /\ ccm_internalIP (ccm w') = IPv4 1681915904.
Proof.
  assert (SetInternalIP (IPv4 1681915904) newCloud
          = (Ok tt, (SetInternalIP (IPv4 1681915904) newCloud).2)) as H by (vm_compute; reflexivity).
  exists (SetInternalIP (IPv4 1681915904) newCloud).2. split.
  - exact H.
  - exact (proj1 (addresses_published (IPv4 1681915904) true newCloud _ H)).
Defined.

#[export] Instance zeroSums : MD5 := {| md5Sum := fun _ => repeat 1 16 |}.

Lemma nodeInternalIP_bounds_witness :
  exists x, nodeInternalIP (mkPrefix (IPv4 1681915904) 16) "a" = Ok (IPv4 x) /\ x / 2 ^ 16 = 1681915904 / 2 ^ 16.
Proof.
  destruct (nodeInternalIP_bounds 1681915904 16 "a") as (x & H1 & _ & H2 & _).
  - intros s. cbn. repeat (constructor; [lia|]). constructor.
  - lia.
  - lia.
  - exists x. split; [exact H1|exact H2].
Defined.

(** In a network smaller than a /16 the address is outside of it; an IPv6 one is changed in
    its first bytes. *)
Example outside_small_network :
  nodeInternalIP (mkPrefix (IPv4 1681916160) 24) "a" = Ok (IPv4 1681915904).
Proof. reflexivity. Qed.
Example no_network_panics : nodeInternalIP (mkPrefix NoAddr (-1)) "a" = Panic "index out of range".
Proof. reflexivity. Qed.
