(* ===== verification/KubeController.v ===== *)
(** * The controllers

    lib/kubecontroller: the informer that puts the keys of changed resources on a queue, and
    the workers that hand them to a handler and try a key again when that fails.  The queue of
    client-go, the store of the informer and the handler are parameters.  The workers, the
    informer and the delays of the queue run at once: they are the steps of [step], and a
    history tells what happened. *)

From stdpp Require Import base gmap strings relations list.
From S2P Require Import Prelude.
#[local] Open Scope nat_scope.
#[local] Set Warnings "-clear-no-such-hyp".

(** workqueue.TypedRateLimitingInterface.  [Get] gives no result as long as it waits, and
    no key once the queue has shut down.  [Elapse] is the end of the delay of a key that was
    added rate limited. *)
Class WorkQueue : Type := {
  Queue : Type;
  QueueGet : Queue -> option (option string * Queue);
  QueueAdd : string -> Queue -> Queue;
  QueueDone : string -> Queue -> Queue;
  QueueForget : string -> Queue -> Queue;
  NumRequeues : string -> Queue -> nat;
  AddRateLimited : string -> Queue -> Queue;
  QueueShutDown : Queue -> Queue;
  Elapse : string -> Queue -> Queue
}.

(** The keys that are to be handed out, those whose delay runs, those that were handed out
    and are not done, and whether the queue has shut down.  A key can be all of the first
    three at once: a change that the informer reports makes neither a delay nor the work on a
    key end.  A queue that has shut down takes no key any more. *)
Class QueueLaws (WQ : WorkQueue) : Type := {
  pending : Queue -> gset string;
  delayed : Queue -> gset string;
  processing : Queue -> gset string;
  closed : Queue -> bool;
  get_law q : match QueueGet q with
    | Some (Some k, q') => (k ∈ pending q) /\ (k ∉ processing q) /\ pending q' = pending q ∖ {[k]}
        /\ delayed q' = delayed q /\ processing q' = {[k]} ∪ processing q /\ closed q' = closed q
        /\ forall key, NumRequeues key q' = NumRequeues key q
    | Some (None, q') => closed q = true /\ q' = q
    | None => closed q = false /\ pending q ⊆ processing q
    end;
  add_law k q : delayed (QueueAdd k q) = delayed q /\ processing (QueueAdd k q) = processing q
    /\ closed (QueueAdd k q) = closed q /\ (forall key, NumRequeues key (QueueAdd k q) = NumRequeues key q)
    /\ pending (QueueAdd k q) = if closed q then pending q else {[k]} ∪ pending q;
  done_law k q : pending (QueueDone k q) = pending q /\ delayed (QueueDone k q) = delayed q
    /\ closed (QueueDone k q) = closed q /\ (forall key, NumRequeues key (QueueDone k q) = NumRequeues key q)
    /\ processing (QueueDone k q) = processing q ∖ {[k]};
  forget_law k q : pending (QueueForget k q) = pending q /\ delayed (QueueForget k q) = delayed q
    /\ processing (QueueForget k q) = processing q /\ closed (QueueForget k q) = closed q
    /\ forall key, NumRequeues key (QueueForget k q) = if (k =? key)%string then 0 else NumRequeues key q;
  limited_law k q : pending (AddRateLimited k q) = pending q /\ processing (AddRateLimited k q) = processing q
    /\ closed (AddRateLimited k q) = closed q
    /\ (forall key, NumRequeues key (AddRateLimited k q) = NumRequeues key q + if (k =? key)%string then 1 else 0)
    /\ delayed (AddRateLimited k q) = if closed q then delayed q else {[k]} ∪ delayed q;
  shutdown_law q : pending (QueueShutDown q) = pending q /\ delayed (QueueShutDown q) = delayed q
    /\ processing (QueueShutDown q) = processing q /\ closed (QueueShutDown q) = true
    /\ forall key, NumRequeues key (QueueShutDown q) = NumRequeues key q;
  elapse_law k q : k ∈ delayed q -> delayed (Elapse k q) = delayed q ∖ {[k]} /\ processing (Elapse k q) = processing q
    /\ closed (Elapse k q) = closed q /\ (forall key, NumRequeues key (Elapse k q) = NumRequeues key q)
    /\ pending (Elapse k q) = if closed q then pending q else {[k]} ∪ pending q
}.

Section Controller.
Context {WQ : WorkQueue} {Resource World Object : Type}.

(** What of the controller does not change: the store, the handler, the retries; and the
    functions of the informer's cache that give the key of an object, unless they fail. *)
Record Controller : Type := mkController {
  GetByKey : string -> World -> outcome (option Resource);
  c_handler : string -> option Resource -> World -> outcome unit * World;
  numRetries : Z;
  MetaNamespaceKeyFunc : Object -> option string;
  DeletionHandlingMetaNamespaceKeyFunc : Object -> option string
}.

(** [NewController]: the retries; zero stands for five. *)
Definition retriesOf (configured : Z) : Z := if (configured =? 0)%Z then 5%Z else configured.

Record controllerWorld : Type := mkControllerWorld { queue : Queue; world : World }.

Definition onQueue (f : Queue -> Queue) : Go controllerWorld unit :=
  modify (fun w => mkControllerWorld (f (queue w)) (world w)).

(** The handlers of the informer. *)
Definition addKey (key : option string) : Go controllerWorld unit :=
  match key with Some key => onQueue (QueueAdd key) | None => ret tt end.
Definition AddFunc (c : Controller) (obj : Object) : Go controllerWorld unit := addKey (MetaNamespaceKeyFunc c obj).
Definition UpdateFunc (c : Controller) (old recent : Object) : Go controllerWorld unit := addKey (MetaNamespaceKeyFunc c recent).
Definition DeleteFunc (c : Controller) (obj : Object) : Go controllerWorld unit :=
  addKey (DeletionHandlingMetaNamespaceKeyFunc c obj).

Definition callHandler (c : Controller) (key : string) : Go controllerWorld unit :=
  w <-- get ;;
  resource <-- lift (GetByKey c key (world w)) ;;
  (fun w => let '(o, x) := c_handler c key resource (world w) in (o, mkControllerWorld (queue w) x)).

(** [err] is nil when the call gave none. *)
Definition handleErr (c : Controller) (err : option error) (key : string) : Go controllerWorld unit :=
  match err with
  | None => onQueue (QueueForget key)
  | Some _ =>
      w <-- get ;;
      if (Z.of_nat (NumRequeues key (queue w)) <? numRetries c)%Z then onQueue (AddRateLimited key)
      else onQueue (QueueForget key)
  end.

(** The result tells whether there is more; the key is done whatever happens.  On its own,
    a worker whose queue is empty waits for ever. *)
Definition processNextItem (c : Controller) : Go controllerWorld bool :=
  key <-- (fun w => match QueueGet (queue w) with
                    | Some (k, q) => (Ok k, mkControllerWorld q (world w))
                    | None => (Diverge, w)
                    end) ;;
  match key with
  | None => ret false
  | Some key =>
      fun w =>
        let '(o, w1) := (fun w => match callHandler c key w with
                                  | (Ok _, w') => handleErr c None key w'
                                  | (Err e, w') => handleErr c (Some e) key w'
                                  | r => r
                                  end) w in
        (match o with Ok _ => Ok true | Err e => Err e | Panic m => Panic m | Diverge => Diverge end,
         match o with Diverge => w1 | _ => mkControllerWorld (QueueDone key (queue w1)) (world w1) end)
  end.

(** [runWorker], for at most [n] items. *)
Fixpoint runWorker (c : Controller) (n : nat) : Go controllerWorld unit :=
  match n with
  | O => ret tt
  | S n' => more <-- processNextItem c ;; if (more : bool) then runWorker c n' else ret tt
  end.

(** ** Workers and informer at once *)

(** Where a worker is in [processNextItem]: before [Get], with the key it got, with the
    answer of the handler, with the number of requeues it read, before the deferred [Done],
    or before it because the handler panicked; or it has ended. *)
Inductive phase : Type :=
| Idle
| Holds (key : string)
| Called (key : string) (err : option error)
| Counted (key : string) (nrq : nat)
| Decided (key : string)
| Unwinds (key : string)
| Ended
| Panicked.

Inductive kevent : Type :=
| Reported (key : string)
| Handed (key : string)
| Answered (key : string) (ok : bool)
| Succeeded (key : string)
| Retried (key : string)
| GaveUp (key : string).

(** One step of a worker, unless it waits or has ended.  A worker that has ended is started
    again by [wait.UntilWithContext]. *)
Definition workerStep (c : Controller) (p : phase) (w : controllerWorld) : option (phase * controllerWorld * option kevent) :=
  let on f := mkControllerWorld (f (queue w)) (world w) in
  match p with
  | Idle => match QueueGet (queue w) with
            | Some (Some key, q) => Some (Holds key, mkControllerWorld q (world w), Some (Handed key))
            | Some (None, q) => Some (Ended, mkControllerWorld q (world w), None)
            | None => None
            end
  | Holds key => match callHandler c key w with
                 | (Ok _, w') => Some (Called key None, w', Some (Answered key true))
                 | (Err e, w') => Some (Called key (Some e), w', Some (Answered key false))
                 | (Panic _, w') => Some (Unwinds key, w', None)
                 | (Diverge, _) => None
                 end
  | Called key None => Some (Decided key, on (QueueForget key), Some (Succeeded key))
  | Called key (Some _) => Some (Counted key (NumRequeues key (queue w)), w, None)
  | Counted key nrq =>
      if (Z.of_nat nrq <? numRetries c)%Z then Some (Decided key, on (AddRateLimited key), Some (Retried key))
      else Some (Decided key, on (QueueForget key), Some (GaveUp key))
  | Decided key => Some (Idle, on (QueueDone key), None)
  | Unwinds key => Some (Panicked, on (QueueDone key), None)
  | Ended => Some (Idle, w, None)
  | Panicked => None
  end.

(** The history with what may have happened. *)
Definition record (o : option kevent) (h : list kevent) : list kevent :=
  match o with Some e => e :: h | None => h end.

Inductive informerEvent : Type := Added (obj : Object) | Updated (old recent : Object) | Deleted (obj : Object).

Definition inform (c : Controller) (ev : informerEvent) : Go controllerWorld unit :=
  match ev with
  | Added obj => AddFunc c obj
  | Updated old recent => UpdateFunc c old recent
  | Deleted obj => DeleteFunc c obj
  end.

(** The key that an event of the informer is about. *)
Definition keyOf (c : Controller) (ev : informerEvent) : option string :=
  match ev with
  | Added obj | Updated _ obj => MetaNamespaceKeyFunc c obj
  | Deleted obj => DeletionHandlingMetaNamespaceKeyFunc c obj
  end.

(** The workers, and what happened, the latest first. *)
Record system : Type := mkSystem { sys : controllerWorld; workers : list phase; history : list kevent }.

Context {L : QueueLaws WQ}.

(** The delay of a key that is delayed may end, the store and the cluster may change, and the
    queue may be shut down, at any time. *)
Inductive step (c : Controller) : system -> system -> Prop :=
| step_worker i p p' w w' o ws h :
    ws !! i = Some p -> workerStep c p w = Some (p', w', o) ->
    step c (mkSystem w ws h) (mkSystem w' (<[i := p']> ws) (record o h))
| step_informed ev w w' ws h :
    inform c ev w = (Ok tt, w') ->
    step c (mkSystem w ws h) (mkSystem w' ws (record (Reported <$> keyOf c ev) h))
| step_elapsed q x ws h k :
    k ∈ delayed q -> step c (mkSystem (mkControllerWorld q x) ws h) (mkSystem (mkControllerWorld (Elapse k q) x) ws h)
| step_changed q x x' ws h : step c (mkSystem (mkControllerWorld q x) ws h) (mkSystem (mkControllerWorld q x') ws h)
| step_shutdown q x ws h :
    step c (mkSystem (mkControllerWorld q x) ws h) (mkSystem (mkControllerWorld (QueueShutDown q) x) ws h).

(** ** What a history says of a key *)

(** How often it was put back since it was last given up or succeeded; what the handler last
    said of it, if nothing was decided since; and whether it is to be handed out: it was
    reported or put back after it was last handed out. *)
Fixpoint streak (key : string) (h : list kevent) : nat :=
  match h with
  | [] => 0
  | Retried k :: h => streak key h + if (k =? key)%string then 1 else 0
  | (Succeeded k | GaveUp k) :: h => if (k =? key)%string then 0 else streak key h
  | _ :: h => streak key h
  end.

Fixpoint answer (key : string) (h : list kevent) : option bool :=
  match h with
  | [] => None
  | Answered k ok :: h => if (k =? key)%string then Some ok else answer key h
  | (Handed k | Succeeded k | Retried k | GaveUp k) :: h => if (k =? key)%string then None else answer key h
  | Reported _ :: h => answer key h
  end.

Fixpoint owed (key : string) (h : list kevent) : bool :=
  match h with
  | [] => false
  | (Reported k | Retried k) :: h => (k =? key)%string || owed key h
  | Handed k :: h => negb (k =? key)%string && owed key h
  | _ :: h => owed key h
  end.

(** That the last event may follow the ones before it: a success follows an answer without
    an error; a retry and giving up follow one with an error, and which of them it is depends
    on how often the key was put back already. *)
Definition lawful (c : Controller) (e : kevent) (h : list kevent) : Prop :=
  match e with
  | Succeeded key => answer key h = Some true
  | Retried key => answer key h = Some false /\ (Z.of_nat (streak key h) < numRetries c)%Z
  | GaveUp key => answer key h = Some false /\ Z.of_nat (streak key h) = (0 `max` numRetries c)%Z
  | Reported _ | Handed _ | Answered _ _ => True
  end.

Definition held (p : phase) : option string :=
  match p with
  | Holds k | Called k _ | Counted k _ | Decided k | Unwinds k => Some k
  | Idle | Ended | Panicked => None
  end.

(** What the history says of the key of a worker. *)
Definition phaseOk (h : list kevent) (p : phase) : Prop :=
  match p with
  | Called k None => answer k h = Some true
  | Called k (Some _) => answer k h = Some false
  | Counted k n => answer k h = Some false /\ n = streak k h
  | _ => True
  end.

(** ** The invariant *)

Record sysInv (c : Controller) (s : system) : Prop := {
  inv_processing i p k : workers s !! i = Some p -> held p = Some k -> k ∈ processing (queue (sys s));
  inv_once i j p p' k : workers s !! i = Some p -> workers s !! j = Some p' -> held p = Some k -> held p' = Some k -> i = j;
  inv_counts k : NumRequeues k (queue (sys s)) = streak k (history s);
  inv_phase i p : workers s !! i = Some p -> phaseOk (history s) p;
  inv_bound k : (Z.of_nat (streak k (history s)) <= 0 `max` numRetries c)%Z;
  inv_lawful es e h : history s = es ++ e :: h -> lawful c e h;
  inv_owed k : closed (queue (sys s)) = false -> owed k (history s) = true ->
    k ∈ pending (queue (sys s)) ∪ delayed (queue (sys s));
  inv_held k : k ∈ processing (queue (sys s)) -> exists i p, workers s !! i = Some p /\ held p = Some k
}.

(** A worker's step is about its key alone. *)
Definition about (e : kevent) : string :=
  match e with
  | Reported k | Handed k | Answered k _ | Succeeded k | Retried k | GaveUp k => k
  end.

Lemma phaseOk_other h e p :
  (forall k, held p = Some k -> about e <> k) -> phaseOk h p -> phaseOk (e :: h) p.
Proof using Type.
  destruct p as [|k|k [?|]|k n|k|k| |]; try done; intros HN; specialize (HN k eq_refl);
    destruct e; cbn in *; try done; destruct (String.eqb_spec key k); rewrite ?Nat.add_0_r; done.
Qed.

Lemma lawful_cons c e h :
  lawful c e h -> (forall es e' h', h = es ++ e' :: h' -> lawful c e' h') ->
  forall es e' h', e :: h = es ++ e' :: h' -> lawful c e' h'.
Proof using Type. intros H1 H2 [|a es] e' h' HE; injection HE as <- HE; [by rewrite <- HE|by eapply H2]. Qed.

Lemma callHandler_queue c key w : queue (callHandler c key w).2 = queue w.
Proof using Type.
  unfold callHandler, bind, get, lift. destruct (GetByKey c key (world w)); cbn; try done. by destruct (c_handler _ _ _ _).
Qed.

(** A step that puts the worker [i] in a phase and adds an event about its key. *)
Lemma phases_step (ws : list phase) (i : nat) p' h o :
  (forall j p, ws !! j = Some p -> phaseOk h p) ->
  (forall j p k e, ws !! j = Some p -> j <> i -> held p = Some k -> o = Some e -> about e <> k) ->
  phaseOk (record o h) p' ->
  forall j p, <[i := p']> ws !! j = Some p -> phaseOk (record o h) p.
Proof using Type.
  intros H1 H2 H3 j p [(<- & <- & _)|[Hne Hj]]%list_lookup_insert_Some; [done|].
  destruct o as [e|]; [|by eapply H1]. apply phaseOk_other; [|by eapply H1]. intros k Hk. by eapply H2.
Qed.

(** A step after which the worker [i] holds what it held, or less. *)
Lemma held_step (P : string -> Prop) (ws : list phase) (i : nat) p p' :
  ws !! i = Some p -> (forall k, held p' = Some k -> held p = Some k) ->
  (forall j q k, ws !! j = Some q -> held q = Some k -> P k) ->
  forall j q k, <[i := p']> ws !! j = Some q -> held q = Some k -> P k.
Proof using Type.
  intros Hi HK H j q k [(<- & <- & _)|[Hne Hj]]%list_lookup_insert_Some Hq; [|by eapply H].
  eapply H; [exact Hi|by apply HK].
Qed.

Lemma once_step (ws : list phase) (i : nat) p p' :
  ws !! i = Some p ->
  (forall k, held p' = Some k -> held p = Some k \/ forall j q, ws !! j = Some q -> held q <> Some k) ->
  (forall i j p p' k, ws !! i = Some p -> ws !! j = Some p' -> held p = Some k -> held p' = Some k -> i = j) ->
  forall a b q q' k, <[i := p']> ws !! a = Some q -> <[i := p']> ws !! b = Some q' -> held q = Some k -> held q' = Some k -> a = b.
Proof using Type.
  intros Hi HK H a b q q' k Ha Hb Hq Hq'.
  apply list_lookup_insert_Some in Ha as [(<- & <- & _)|[Hna Ha]], Hb as [(<- & <- & _)|[Hnb Hb]]; try done.
  - destruct (HK k Hq) as [Hp|Hp]; [by eapply H|]. by destruct (Hp b q' Hb).
  - destruct (HK k Hq') as [Hp|Hp]; [by eapply H|]. by destruct (Hp a q Ha).
  - by eapply H.
Qed.

(** What a step of the queue alone has to keep. *)
Lemma queue_step c q x x' q' ws h :
  sysInv c (mkSystem (mkControllerWorld q x) ws h) ->
  processing q' = processing q -> (forall key, NumRequeues key q' = NumRequeues key q) ->
  (closed q' = false -> closed q = false /\ pending q ∪ delayed q ⊆ pending q' ∪ delayed q') ->
  sysInv c (mkSystem (mkControllerWorld q' x') ws h).
Proof using Type.
  intros [I1 I2 I3 I4 I5 I6 I7 I8] HP HN HC. split; cbn in *; try done.
  - intros i p k Hi Hk. rewrite HP. by eapply I1.
  - intros k. rewrite HN. apply I3.
  - intros k Hc Ho. destruct (HC Hc) as [Hc' Hs]. apply Hs. by apply I7.
  - intros k Hk. rewrite HP in Hk. by apply I8.
Qed.

Lemma informed_inv c ev w w' ws h :
  sysInv c (mkSystem w ws h) -> inform c ev w = (Ok tt, w') ->
  sysInv c (mkSystem w' ws (record (Reported <$> keyOf c ev) h)).
Proof using Type.
  intros HI HE. assert (addKey (keyOf c ev) w = (Ok tt, w')) as HA by (by destruct ev). clear HE.
  destruct (keyOf c ev) as [key|]; [|by injection HA as <-]. injection HA as <-. destruct w as [q x].
  destruct (add_law key q) as (L1 & L2 & L3 & L4 & L5).
  destruct HI as [I1 I2 I3 I4 I5 I6 I7 I8]. split; cbn in *; try done.
  - intros i p k Hi Hk. rewrite L2. by eapply I1.
  - intros k. by rewrite L4.
  - apply (lawful_cons c (Reported key) h); [done|exact I6].
  - intros k Hc Ho. rewrite L3 in Hc. rewrite L5, L1, Hc.
    destruct (String.eqb_spec key k) as [->|Hk]; [clear; set_solver|].
    specialize (I7 k Hc Ho). clear -I7. set_solver.
  - intros k Hk. rewrite L2 in Hk. by apply I8.
Qed.

(** What a step of a worker has to keep. *)
Lemma worker_frame c q x q' x' ws h i p p' o :
  sysInv c (mkSystem (mkControllerWorld q x) ws h) -> ws !! i = Some p ->
  (forall k, held p' = Some k -> held p = Some k \/ k ∉ processing q) ->
  (forall e, o = Some e -> held p = Some (about e) \/ about e ∉ processing q) ->
  (forall k, k ∈ processing q' <-> (k ∈ processing q /\ held p <> Some k) \/ held p' = Some k) ->
  (forall k, NumRequeues k q' = streak k (record o h)) ->
  phaseOk (record o h) p' ->
  (forall k, Z.of_nat (streak k (record o h)) <= 0 `max` numRetries c)%Z ->
  (forall e, o = Some e -> lawful c e h) ->
  (forall k, closed q' = false -> owed k (record o h) = true -> k ∈ pending q' ∪ delayed q') ->
  sysInv c (mkSystem (mkControllerWorld q' x') (<[i := p']> ws) (record o h)).
Proof using Type.
  intros [I1 I2 I3 I4 I5 I6 I7 I8] Hi H1 H2 H3 H5 H6 H7 H8 H9.
  assert (forall j a k, ws !! j = Some a -> j <> i -> held a = Some k -> held p <> Some k /\ k ∈ processing q) as HO.
  { intros j a k Hj Hne Hk. split; [|by eapply I1]. intros Hp. by apply Hne, (I2 j i a p k). }
  split; cbn [sys workers history queue]; try done.
  - intros j a k [(<- & <- & _)|[Hne Hj]]%list_lookup_insert_Some Hk; [by apply H3; right|].
    destruct (HO j a k Hj (not_eq_sym Hne) Hk) as [Hp Hq]. apply H3. by left.
  - apply (once_step ws i p p' Hi); [|exact I2]. intros k Hk. destruct (H1 k Hk) as [?|Hn]; [by left|right].
    intros j a Hj Ha. by eapply Hn, I1.
  - apply phases_step; [exact I4| |exact H6]. intros j a k e Hj Hne Hk He Hab. subst k.
    destruct (HO j a _ Hj Hne Hk) as [Hp Hq]. by destruct (H2 e He).
  - destruct o as [e|]; [|exact I6]. apply (lawful_cons c e h); [by apply H8|exact I6].
  - intros k [[Hk Hp]|Hk]%H3.
    + destruct (I8 k Hk) as (j & a & Hj & Ha). exists j, a. split; [|done]. rewrite list_lookup_insert_ne; [done|].
      intros ->. cbn in Hj. rewrite Hi in Hj. by injection Hj as ->.
    + exists i, p'. split; [|done]. apply list_lookup_insert_eq. by eapply lookup_lt_Some.
Qed.

(** What a step leaves alone when the queue stays as it is: the handler's answer, the count
    that is read, and the end of a worker. *)
Lemma worker_same_queue c q x x' ws h i p p' o :
  sysInv c (mkSystem (mkControllerWorld q x) ws h) -> ws !! i = Some p -> held p' = held p ->
  (o = None \/ exists k ok, o = Some (Answered k ok) /\ held p = Some k) -> phaseOk (record o h) p' ->
  sysInv c (mkSystem (mkControllerWorld q x') (<[i := p']> ws) (record o h)).
Proof using Type.
  intros HI Hi Hp Ho HP. pose proof HI as [I1 I2 I3 I4 I5 I6 I7 I8]. cbn in I1, I3, I5, I6, I7.
  assert (forall k, streak k (record o h) = streak k h /\ owed k (record o h) = owed k h) as HR
    by (by destruct Ho as [->|(? & ? & -> & _)]).
  eapply worker_frame; try done.
  - intros k Hk. left. by rewrite <- Hp.
  - intros e ->. destruct Ho as [|(k & ok & [= ->] & Hk)]; [done|]. by left.
  - intros k. rewrite Hp. destruct (decide (held p = Some k)); naive_solver.
  - intros k. by rewrite (proj1 (HR k)).
  - intros k. by rewrite (proj1 (HR k)).
  - intros e ->. by destruct Ho as [|(k & ok & [= ->] & Hk)].
  - intros k Hc. rewrite (proj2 (HR k)). by apply I7.
Qed.

(** The decision about a key: the counts follow, and what is owed is kept. *)
Lemma worker_decides c q q' x ws h i p k e :
  sysInv c (mkSystem (mkControllerWorld q x) ws h) -> ws !! i = Some p -> held p = Some k -> about e = k ->
  processing q' = processing q -> closed q' = closed q ->
  (forall key, NumRequeues key q' = streak key (e :: h)) ->
  (forall key, (Z.of_nat (streak key (e :: h)) <= 0 `max` numRetries c)%Z) -> lawful c e h ->
  (forall key, closed q = false -> owed key (e :: h) = true ->
     (owed key h = true /\ pending q ∪ delayed q ⊆ pending q' ∪ delayed q') \/ key ∈ pending q' ∪ delayed q') ->
  sysInv c (mkSystem (mkControllerWorld q' x) (<[i := Decided k]> ws) (e :: h)).
Proof using Type.
  intros HI Hi Hp He HP HC HN HB HL HO. pose proof HI as [I1 I2 I3 I4 I5 I6 I7 I8]. cbn in I1, I7.
  apply (worker_frame c q x q' x ws h i p (Decided k) (Some e)); try done.
  - intros k' [= <-]. by left.
  - intros ? [= <-]. left. by rewrite He.
  - intros k'. rewrite HP, Hp. cbn. specialize (I1 i p k Hi Hp). destruct (decide (k = k')); naive_solver.
  - by intros ? [= <-].
  - intros key Hc Ho. rewrite HC in Hc. destruct (HO key Hc Ho) as [[H1 H2]|H]; [|done]. apply H2. by apply I7.
Qed.

(** The end of the work on a key. *)
Lemma worker_done c q x ws h i p p' k :
  sysInv c (mkSystem (mkControllerWorld q x) ws h) -> ws !! i = Some p -> held p = Some k -> held p' = None ->
  phaseOk h p' -> sysInv c (mkSystem (mkControllerWorld (QueueDone k q) x) (<[i := p']> ws) h).
Proof using Type.
  intros HI Hi Hp Hp' HP. pose proof HI as [I1 I2 I3 I4 I5 I6 I7 I8]. cbn in I1, I3, I5, I7.
  destruct (done_law k q) as (D1 & D2 & D3 & D4 & D5).
  apply (worker_frame c q x _ x ws h i p p' None); try done.
  - intros k' Hk'. by rewrite Hp' in Hk'.
  - intros k'. rewrite D5, Hp, Hp', elem_of_difference, elem_of_singleton. naive_solver.
  - intros k'. by rewrite D4.
  - intros k' Hc. rewrite D1, D2. rewrite D3 in Hc. by apply I7.
Qed.

Lemma forgets_inv c q x ws h i p k e :
  sysInv c (mkSystem (mkControllerWorld q x) ws h) -> ws !! i = Some p -> held p = Some k ->
  e = Succeeded k \/ e = GaveUp k -> lawful c e h ->
  sysInv c (mkSystem (mkControllerWorld (QueueForget k q) x) (<[i := Decided k]> ws) (e :: h)).
Proof using Type.
  intros HI Hi Hp He HL. pose proof HI as [_ _ I3 _ I5 _ _ _]. cbn in I3, I5.
  destruct (forget_law k q) as (F1 & F2 & F3 & F4 & F5).
  assert (forall key, streak key (e :: h) = if (k =? key)%string then 0 else streak key h) as HS by (by destruct He as [-> | ->]).
  eapply worker_decides; try done.
  - by destruct He as [-> | ->].
  - intros key. by rewrite F5, HS, I3.
  - intros key. rewrite HS. specialize (I5 key). destruct (_ =? _)%string; lia.
  - intros key _ Ho. left. rewrite F1, F2. split; [|done]. by destruct He as [-> | ->].
Qed.

Lemma retries_inv c q x ws h i k :
  sysInv c (mkSystem (mkControllerWorld q x) ws h) -> ws !! i = Some (Counted k (streak k h)) ->
  answer k h = Some false -> (Z.of_nat (streak k h) < numRetries c)%Z ->
  sysInv c (mkSystem (mkControllerWorld (AddRateLimited k q) x) (<[i := Decided k]> ws) (Retried k :: h)).
Proof using Type.
  intros HI Hi Ha Hn. pose proof HI as [_ _ I3 _ I5 _ _ _]. cbn in I3, I5.
  destruct (limited_law k q) as (A1 & A2 & A3 & A4 & A5).
  eapply worker_decides; try done.
  - intros key. by rewrite A4, I3.
  - intros key. cbn. specialize (I5 key). destruct (String.eqb_spec k key) as [<-|_]; lia.
  - intros key Hc Ho. rewrite A1, A5, Hc. cbn in Ho.
    destruct (String.eqb_spec k key) as [->|_]; [right; clear; set_solver|left]. split; [exact Ho|clear; set_solver].
Qed.

Lemma workerStep_inv c w ws h i p p' w' o :
  sysInv c (mkSystem w ws h) -> ws !! i = Some p -> workerStep c p w = Some (p', w', o) ->
  sysInv c (mkSystem w' (<[i := p']> ws) (record o h)).
Proof using Type.
  intros HI Hi HS. destruct w as [q x], w' as [q' x']. pose proof HI as [I1 I2 I3 I4 I5 I6 I7 I8]. cbn in I1, I3, I4, I5, I6, I7.
  specialize (I4 i p Hi) as Hph.
  destruct p as [|k|k [e|]|k n|k|k| |]; cbn [workerStep phaseOk queue world] in HS, Hph; try done.
  - pose proof (get_law q) as HG. destruct (QueueGet q) as [[[k|] q1]|]; [| |done]; injection HS as <- <- <- <-.
    + destruct HG as (G1 & G2 & G3 & G4 & G5 & G6 & G7).
      eapply worker_frame; try done; cbn.
      * intros ? [= ->]. by right.
      * intros ? [= <-]. by right.
      * intros k'. rewrite G5, elem_of_union, elem_of_singleton. naive_solver.
      * intros k'. by rewrite G7.
      * by intros ? [= <-].
      * intros k' Hc [Hk Ho]%andb_prop. rewrite G6 in Hc. specialize (I7 k' Hc Ho). rewrite G3, G4.
        destruct (String.eqb_spec k k') as [|Hne]; [done|]. clear -I7 Hne. set_solver.
    + destruct HG as [_ ->]. by eapply worker_same_queue; [..|left|].
  - destruct (callHandler c k _) as [o1 w1] eqn:EC.
    pose proof (callHandler_queue c k (mkControllerWorld q x)) as HQ. rewrite EC in HQ. cbn in HQ.
    destruct w1 as [q1 x1]. cbn in HQ. subst q1. destruct o1 as [[]|e|m|]; try done; injection HS as <- <- <- <-;
      (eapply worker_same_queue; [done..| |cbn; by rewrite ?String.eqb_refl]); eauto.
  - injection HS as <- <- <- <-. eapply worker_same_queue; [done..|by left|]. split; [done|apply I3].
  - injection HS as <- <- <- <-. eapply forgets_inv; try done. by left.
  - destruct Hph as [Ha ->]. destruct (Z.ltb_spec (Z.of_nat (streak k h)) (numRetries c)) as [Hn|Hn]; injection HS as <- <- <- <-.
    + by apply retries_inv.
    + eapply forgets_inv; try done; [by right|]. split; [done|]. specialize (I5 k). lia.
  - injection HS as <- <- <- <-. by eapply worker_done.
  - injection HS as <- <- <- <-. by eapply worker_done.
  - injection HS as <- <- <- <-. eapply worker_same_queue; try done. by left.
Qed.

Lemma systemStep_inv c s s' : step c s s' -> sysInv c s -> sysInv c s'.
Proof using Type.
  intros [i p p' w w' o ws h Hi HS|ev w w' ws h HE|q x ws h k Hk|q x x' ws h|q x ws h] HI.
  - by eapply workerStep_inv.
  - by eapply informed_inv.
  - destruct (elapse_law k q Hk) as (E1 & E2 & E3 & E4 & E5). eapply queue_step; try done.
    intros Hc. rewrite E3 in Hc. split; [done|]. rewrite E1, E5, Hc. intros y. destruct (decide (y = k)); set_solver.
  - by eapply queue_step.
  - destruct (shutdown_law q) as (E1 & E2 & E3 & E4 & E5). eapply queue_step; try done. by rewrite E4.
Qed.

(** A queue on which no worker has worked yet. *)
Definition fresh (q : Queue) : Prop := processing q = ∅ /\ forall key, NumRequeues key q = 0.

Lemma start_inv c w n : fresh (queue w) -> sysInv c (mkSystem w (replicate n Idle) []).
Proof using Type.
  intros [HP HN]. split; cbn; try done.
  - by intros i p k [-> _]%lookup_replicate.
  - by intros i j p p' k [-> _]%lookup_replicate.
  - by intros i p [-> _]%lookup_replicate.
  - intros k. lia.
  - by intros [|? ?] ? ?.
  - intros k Hk. rewrite HP in Hk. by apply not_elem_of_empty in Hk.
Qed.

Lemma run_inv c w n s :
  fresh (queue w) -> rtc (step c) (mkSystem w (replicate n Idle) []) s -> sysInv c s.
Proof using Type.
  intros HF HR. assert (HI : sysInv c (mkSystem w (replicate n Idle) [])) by (by apply start_inv).
  induction HR as [|s1 s2 s3 H _ IH]; [done|]. by eapply IH, systemStep_inv.
Qed.

(** C36: Whatever the handler, the informer, the delays of the queue and the other workers
    do, a key is put back no more often than the controller allows since it last succeeded
    or was given up.  Everything that was decided about a key followed an answer of the
    handler for it: a success one without an error; after an error the key was put back when
    that had been done fewer times than allowed, and was given up when it had been done just as
    often.  No two workers have the same key; and as long as the queue is not shut down no
    change and no retry is lost: a key that the informer reported, or that was put back, after
    it was last handed out is on the queue or its delay runs, and when a worker finds nothing
    to do its delay runs or another worker has it. *)
Theorem retries_bounded (c : Controller) (n : nat) (w : controllerWorld) (s : system) :
  fresh (queue w) -> rtc (step c) (mkSystem w (replicate n Idle) []) s ->
  (forall key, (Z.of_nat (streak key (history s)) <= 0 `max` numRetries c)%Z)
  /\ (forall later e earlier, history s = later ++ e :: earlier -> lawful c e earlier)
  /\ (forall i j p p' key, workers s !! i = Some p -> workers s !! j = Some p' ->
       held p = Some key -> held p' = Some key -> i = j)
  /\ (forall key, closed (queue (sys s)) = false -> owed key (history s) = true ->
       (key ∈ pending (queue (sys s)) \/ key ∈ delayed (queue (sys s)))
       /\ (QueueGet (queue (sys s)) = None ->
           key ∈ delayed (queue (sys s)) \/ exists i p, workers s !! i = Some p /\ held p = Some key)).
Proof using Type.
  intros HF HR. destruct (run_inv c w n s HF HR) as [I1 I2 I3 I4 I5 I6 I7 I8]. split_and!; try done.
  intros key Hc Ho. specialize (I7 key Hc Ho). split; [by apply elem_of_union|]. intros HG.
  pose proof (get_law (queue (sys s))) as HL. rewrite HG in HL. destruct HL as [_ HL].
  apply elem_of_union in I7 as [Hp|Hd]; [right; apply I8, HL, Hp|by left].
Qed.

(** ** One worker alone *)

(** Some steps of a worker that nothing interrupts. *)
Inductive alone (c : Controller) : phase -> controllerWorld -> phase -> controllerWorld -> Prop :=
| alone_refl p w : alone c p w p w
| alone_step p w p1 w1 p2 w2 o : workerStep c p w = Some (p1, w1, o) -> alone c p1 w1 p2 w2 -> alone c p w p2 w2.

(** [processNextItem] is what the steps of a worker do from one [Get] to the next. *)
Lemma processNextItem_alone c w :
  match processNextItem c w with
  | (Ok true, w') => alone c Idle w Idle w'
  | (Ok false, w') => alone c Idle w Ended w'
  | (Panic _, w') => alone c Idle w Panicked w'
  | (Err _, _) => False
  | (Diverge, _) => exists p w', alone c Idle w p w' /\ workerStep c p w' = None
  end.
Proof using Type.
  unfold processNextItem, bind at 1. destruct (QueueGet (queue w)) as [[[key|] q]|] eqn:HG.
  2: { eapply alone_step; [cbn; by rewrite HG|apply alone_refl]. }
  2: { exists Idle, w. split; [apply alone_refl|]. cbn. by rewrite HG. }
  assert (forall p w', alone c (Holds key) (mkControllerWorld q (world w)) p w' -> alone c Idle w p w') as HA.
  { intros p w' H. eapply alone_step; [cbn; by rewrite HG|exact H]. }
  set (w0 := mkControllerWorld q (world w)) in *.
  destruct (callHandler c key w0) as [[[]|e|m|] w1] eqn:HC; cbn -[callHandler].
  - apply HA. eapply alone_step; [cbn -[callHandler]; by rewrite HC|]. do 2 (eapply alone_step; [done|]). apply alone_refl.
  - unfold bind, get. cbn. destruct (_ <? _)%Z eqn:HN; cbn; apply HA; (eapply alone_step; [cbn -[callHandler]; by rewrite HC|]);
      (eapply alone_step; [done|]); (eapply alone_step; [cbn; by rewrite HN|]); (eapply alone_step; [done|]); apply alone_refl.
  - apply HA. eapply alone_step; [cbn -[callHandler]; by rewrite HC|]. eapply alone_step; [done|]. apply alone_refl.
  - exists (Holds key), w0. split; [apply HA, alone_refl|]. cbn -[callHandler]. by rewrite HC.
Qed.
End Controller.

(** ** Examples *)

(** A queue of keys with their counts; delays end in any order. *)
Record listQ : Type := mkListQ {
  lq_pending : gset string; lq_delayed : gset string; lq_processing : gset string;
  lq_closed : bool; lq_counts : string -> nat
}.

#[export] Instance listQueue : WorkQueue := {|
  Queue := listQ;
  QueueGet q := match elements (lq_pending q ∖ lq_processing q) with
    | [] => if lq_closed q then Some (None, q) else None
    | k :: _ => Some (Some k, mkListQ (lq_pending q ∖ {[k]}) (lq_delayed q) ({[k]} ∪ lq_processing q) (lq_closed q) (lq_counts q))
    end;
  QueueAdd k q := mkListQ (if lq_closed q then lq_pending q else {[k]} ∪ lq_pending q) (lq_delayed q) (lq_processing q) (lq_closed q) (lq_counts q);
  QueueDone k q := mkListQ (lq_pending q) (lq_delayed q) (lq_processing q ∖ {[k]}) (lq_closed q) (lq_counts q);
  QueueForget k q := mkListQ (lq_pending q) (lq_delayed q) (lq_processing q) (lq_closed q)
    (fun x => if (k =? x)%string then 0 else lq_counts q x);
  NumRequeues k q := lq_counts q k;
  AddRateLimited k q := mkListQ (lq_pending q) (if lq_closed q then lq_delayed q else {[k]} ∪ lq_delayed q) (lq_processing q) (lq_closed q)
    (fun x => lq_counts q x + if (k =? x)%string then 1 else 0);
  QueueShutDown q := mkListQ (lq_pending q) (lq_delayed q) (lq_processing q) true (lq_counts q);
  Elapse k q := mkListQ (if lq_closed q then lq_pending q else {[k]} ∪ lq_pending q) (lq_delayed q ∖ {[k]}) (lq_processing q)
    (lq_closed q) (lq_counts q)
|}.

#[export] Instance listQueue_laws : QueueLaws listQueue.
Proof.
  refine {| pending := fun q : Queue => lq_pending q; delayed := fun q : Queue => lq_delayed q;
            processing := fun q : Queue => lq_processing q; closed := fun q : Queue => lq_closed q |}; try done.
  intros q. cbn. destruct (elements (lq_pending q ∖ lq_processing q)) as [|k l] eqn:E.
  - apply elements_empty_inv in E. destruct (lq_closed q); [done|]. split; [done|]. intros k Hk.
    destruct (decide (k ∈ lq_processing q)); [done|]. exfalso. apply (not_elem_of_empty (C := gset string) k), E. by apply elem_of_difference.
  - assert (k ∈ lq_pending q ∖ lq_processing q) as [H1 H2]%elem_of_difference; [|done].
    apply elem_of_elements. rewrite E. by left.
Defined.

Definition failing : Controller (Resource := unit) (World := nat) (Object := string) :=
  mkController (fun _ _ => Ok (Some tt)) (fun _ _ n => (Err (PlainError "not yet"), S n)) (retriesOf 0) Some Some.

Definition emptyQueue : Queue := mkListQ ∅ ∅ ∅ false (fun _ => 0).

(** The worker [0] on its own, for some steps. *)
Fixpoint works (c : Controller (Resource := unit) (World := nat) (Object := string)) (n : nat) (s : system) : system :=
  match n, workers s with
  | S n', [p] => match workerStep c p (sys s) with
                 | Some (p', w', o) => works c n' (mkSystem w' [p'] (record o (history s)))
                 | None => s
                 end
  | _, _ => s
  end.

Lemma works_steps c n s : rtc (step c) s (works c n s).
Proof.
  revert s. induction n as [|n IH]; intros [w ws h]; [done|]. cbn -[workerStep]. destruct ws as [|p [|? ?]]; try done.
  destruct (workerStep c p w) as [[[p' w'] o]|] eqn:E; [|done].
  eapply rtc_l; [|apply IH]. by apply (step_worker c 0 p p' w w' o [p] h).
Qed.

(** A resource that is reported while its retry is delayed is handed out at once; the
    handler fails again, and the retry is still delayed. *)
Definition reportedTwice : system :=
  let s1 := mkSystem (mkControllerWorld emptyQueue 0) [Idle] [] in
  let report s := mkSystem (inform failing (Added "a") (sys s)).2 (workers s) (Reported "a" :: history s) in
  works failing 9 (report (works failing 9 (report s1))).

Lemma reportedTwice_run : rtc (step failing) (mkSystem (mkControllerWorld emptyQueue 0) (replicate 1 Idle) []) reportedTwice.
Proof.
  eapply rtc_l; [by apply (step_informed failing (Added "a"))|]. etrans; [apply (works_steps failing 9)|].
  eapply rtc_l; [|apply (works_steps failing 9)]. by apply (step_informed failing (Added "a")).
Qed.

Example reportedTwice_history :
  history reportedTwice =
  [Retried "a"; Answered "a" false; Handed "a"; Reported "a"; Retried "a"; Answered "a" false; Handed "a"; Reported "a"]
  /\ lq_delayed (queue (sys reportedTwice)) = {["a"]} /\ lq_pending (queue (sys reportedTwice)) = ∅.
Proof. vm_compute. done. Qed.

Lemma retries_bounded_witness :
  fresh emptyQueue
  /\ (Z.of_nat (streak "a" (history reportedTwice)) <= 5)%Z /\ streak "a" (history reportedTwice) = 2
  /\ ("a" ∈ pending (queue (sys reportedTwice)) \/ "a" ∈ delayed (queue (sys reportedTwice))).
Proof.
  assert (HF : fresh emptyQueue) by (by split).
  destruct (retries_bounded failing 1 (mkControllerWorld emptyQueue 0) reportedTwice HF reportedTwice_run) as (H1 & _ & _ & H4).
  split; [exact HF|]. split; [exact (H1 "a")|]. split; [vm_compute; reflexivity|].
  apply (H4 "a"); vm_compute; reflexivity.
Defined.

(** Six calls, and the key is given up: the delays end one after the other. *)
Definition retriedOnce (w : controllerWorld) : controllerWorld :=
  let w' := (processNextItem failing w).2 in mkControllerWorld (Elapse "a" (queue w')) (world w').

Example given_up :
  let w := Nat.iter 6 retriedOnce (mkControllerWorld (QueueAdd "a" emptyQueue) 0) in
  world w = 6 /\ NumRequeues "a" (queue w) = 0 /\ (Nat.iter 5 retriedOnce (mkControllerWorld (QueueAdd "a" emptyQueue) 0)).(queue).(lq_counts) "a" = 5.
Proof. vm_compute. done. Qed.
