(* ===== verification/LoadBalancer.v ===== *)
(** * The load balancer

    service/loadbalancer: the services of Kubernetes of type LoadBalancer are given the
    external addresses of the nodes that run their pods.  The cached client of
    controller-runtime is a parameter ([LBClient]). *)

From stdpp Require Import gmap strings.
From S2P Require Import Prelude GoMaps Kube.
#[local] Open Scope Z_scope.
#[local] Set Warnings "-clear-no-such-hyp".

(** Namespace and name. *)
Abbreviation NamespacedName := (string * string)%type.

Record Pod : Type := mkPod { p_Namespace : string; p_Labels : gmap string string; p_NodeName : string; p_Phase : string }.

(** The status of a port of an ingress, and the ingress of corev1: a pointer and a slice
    that may be nil are options. *)
Record PortStatus : Type := mkPortStatus { ps_Port : Z; ps_Protocol : string; ps_Error : option string }.
Record LoadBalancerIngress : Type := mkLoadBalancerIngress {
  li_IP : string; li_Hostname : string; li_IPMode : option string; li_Ports : option (list PortStatus)
}.
#[export] Instance PortStatus_eq_dec : EqDecision PortStatus.
Proof. solve_decision. Defined.
#[export] Instance LoadBalancerIngress_eq_dec : EqDecision LoadBalancerIngress.
Proof. solve_decision. Defined.

(** Of a service, the name, [Spec.Type], [Spec.Selector] and
    [Status.LoadBalancer.Ingress]; a nil slice, which [reflect.DeepEqual] tells from an
    empty one, is [None]. *)
Record Service : Type := mkService {
  s_Name : NamespacedName; s_Type : string; s_Selector : gmap string string;
  s_Ingress : option (list LoadBalancerIngress)
}.
#[export] Instance Service_eq_dec : EqDecision Service.
Proof. solve_decision. Defined.

(** A condition of a node is its type and its status. *)
Record LBNode : Type := mkLBNode { n_Conditions : list (string * string); n_Addresses : list NodeAddress }.

Definition ServiceTypeLoadBalancer : string := "LoadBalancer".
Definition PodRunning : string := "Running".
Definition NodeReady : string := "Ready".
Definition ConditionTrue : string := "True".
Definition LoadBalancerIPModeProxy : string := "Proxy".

Definition isLoadBalancer (svc : Service) : bool := (s_Type svc =? ServiceTypeLoadBalancer)%string.

Class LBClient : Type := {
  ClusterSt : Type;
  getService : NamespacedName -> ClusterSt -> outcome Service;
  listPods : string -> gmap string string -> ClusterSt -> outcome (list Pod);
  podsOnNode : string -> ClusterSt -> outcome (list Pod);
  listServices : string -> ClusterSt -> outcome (list Service);
  getLBNode : string -> ClusterSt -> outcome LBNode;
  patchIngress : NamespacedName -> option (list LoadBalancerIngress) -> ClusterSt -> outcome unit * ClusterSt;
  isNotFound : error -> bool;
  selects : gmap string string -> gmap string string -> bool
}.

Section LB.
Context {C : LBClient} {O : GoOrder}.

Definition nodeIsReady (node : LBNode) : bool :=
  match List.find (fun c => (c.1 =? NodeReady)%string) (n_Conditions node) with
  | Some (_, status) => (status =? ConditionTrue)%string
  | None => false
  end.

(** What is appended for an address. *)
Definition ingressOf (address : string) : LoadBalancerIngress :=
  mkLoadBalancerIngress address "" (Some LoadBalancerIPModeProxy) None.

(** The loop over the addresses of a node, with [seen] and [ingresses]. *)
Definition addAddress (acc : gset string * list LoadBalancerIngress) (a : NodeAddress)
    : gset string * list LoadBalancerIngress :=
  if bool_decide (Type_ a = NodeExternalIP) && negb (bool_decide (Address a ∈ acc.1))
  then ({[Address a]} ∪ acc.1, acc.2 ++ [ingressOf (Address a)])
  else acc.

(** The loop over the nodes: one that cannot be read or is not ready is passed over. *)
Definition addNode (k : ClusterSt) (acc : gset string * list LoadBalancerIngress) (nodeName : string)
    : gset string * list LoadBalancerIngress :=
  match getLBNode nodeName k with
  | Ok node => if nodeIsReady node then foldl addAddress acc (n_Addresses node) else acc
  | _ => acc
  end.

Definition nodeNames (pods : list Pod) : gset string :=
  foldl (fun s pod => if negb (p_NodeName pod =? "")%string && (p_Phase pod =? PodRunning)%string then {[p_NodeName pod]} ∪ s else s) ∅ pods.

(** A slice that was only appended to: nil until something was. *)
Definition appended {A} (l : list A) : option (list A) := match l with [] => None | _ => Some l end.

(** [Reconcile]; [n] is the iteration over the names of the nodes. *)
Definition Reconcile (n : nat) (req : NamespacedName) : Go ClusterSt unit :=
  k <-- get ;;
  match getService req k with
  | Err e => if isNotFound e then ret tt else fail e
  | Panic m => panic m
  | Diverge => lift Diverge
  | Ok svc =>
      if negb (isLoadBalancer svc) then ret tt
      else
        pods <-- lift (listPods (fst (s_Name svc)) (s_Selector svc) k) ;;
        let ingresses := appended (snd (foldl (addNode k) (∅, []) (rangeSet n (nodeNames pods)))) in
        if bool_decide (s_Ingress svc = ingresses) then ret tt
        else fun k => patchIngress req ingresses k
  end.

(** [podToService]: the requests for the services that select a pod. *)
Definition podToService (pod : Pod) (k : ClusterSt) : list NamespacedName :=
  match listServices (p_Namespace pod) k with
  | Ok svcs =>
      map s_Name (List.filter (fun svc => isLoadBalancer svc && selects (s_Selector svc) (p_Labels pod)) svcs)
  | _ => []
  end.

(** [nodeToService]. *)
Definition addRequest (acc : gset NamespacedName * list NamespacedName) (req : NamespacedName) :=
  if bool_decide (req ∈ acc.1) then acc else ({[req]} ∪ acc.1, acc.2 ++ [req]).

Definition nodeToService (nodeName : string) (k : ClusterSt) : list NamespacedName :=
  match podsOnNode nodeName k with
  | Ok pods => snd (foldl addRequest (∅, []) (flat_map (fun pod => podToService pod k) pods))
  | _ => []
  end.

(** ** What is relied on *)

(** The service with other ingresses. *)
Definition withIngress (l : option (list LoadBalancerIngress)) (s : Service) : Service :=
  mkService (s_Name s) (s_Type s) (s_Selector s) l.

(** A patch that is answered was applied: the ingresses of the service are those sent (nil
    and empty are the same on the wire).  One that fails was applied or not. *)
Class LBLaws : Type := {
  servicesOf : ClusterSt -> gmap NamespacedName Service;
  podsOf : ClusterSt -> list Pod;
  getService_law name k : match getService name k with
    | Ok s => servicesOf k !! name = Some s /\ s_Name s = name
    | Err e => isNotFound e = true -> servicesOf k !! name = None
    | _ => False end;
  listPods_law ns sel k : match listPods ns sel k with
    | Ok pods => forall pod, pod ∈ pods <-> pod ∈ podsOf k /\ p_Namespace pod = ns /\ selects sel (p_Labels pod) = true
    | Err _ => True
    | _ => False end;
  podsOnNode_law name k : match podsOnNode name k with
    | Ok pods => forall pod, pod ∈ pods <-> pod ∈ podsOf k /\ p_NodeName pod = name
    | _ => True end;
  listServices_law ns k : match listServices ns k with
    | Ok svcs => forall s, s ∈ svcs <-> servicesOf k !! s_Name s = Some s /\ fst (s_Name s) = ns
    | _ => True end;
  getLBNode_law name k : match getLBNode name k with Ok _ | Err _ => True | _ => False end;
  patch_law name l k : match patchIngress name l k with
    | (Ok _, k') => exists i, default [] i = default [] l /\ servicesOf k' = alter (withIngress i) name (servicesOf k)
    | (Err _, k') => servicesOf k' = servicesOf k
        \/ exists i, default [] i = default [] l /\ servicesOf k' = alter (withIngress i) name (servicesOf k)
    | _ => False end
}.

Context {L : LBLaws} {OL : GoOrderLaws O}.

(** The first condition [Ready] of a node, the one that counts, is true. *)
Definition ready (node : LBNode) : Prop :=
  exists before after, n_Conditions node = before ++ ("Ready", "True") :: after
    /\ forall c, c ∈ before -> c.1 <> "Ready".

Lemma nodeIsReady_spec node : nodeIsReady node = true <-> ready node.
Proof using Type.
  unfold nodeIsReady, ready. destruct node as [l a]. cbn. induction l as [|[t v] l IH]; cbn.
  - split; [done|]. by intros ([|? ?] & ? & ? & _).
  - destruct (String.eqb_spec t NodeReady) as [->|Ht].
    + split.
      * intros ->%String.eqb_eq. exists [], l. split; [done|]. by intros c []%not_elem_of_nil.
      * intros ([|c b] & af & [= ? ?] & Hb); subst; [done|]. exfalso. apply (Hb (NodeReady, v)); [by left|done].
    + rewrite IH. split; intros (b & af & H & Hb).
      * exists ((t, v) :: b), af. split; [cbn; by rewrite H|]. intros c [->|Hc]%elem_of_cons; [done|by apply Hb].
      * destruct b as [|c b]; [by injection H as -> ->|]. injection H as <- ->. exists b, af. split; [done|].
        intros c Hc. apply Hb. by right.
Qed.

(** The addresses that a service is to have: the external ones of every node that can be
    read, is ready, and runs a pod that the selector of the service selects in its
    namespace. *)
Definition serves (k : ClusterSt) (svc : Service) (ip : string) : Prop :=
  exists pod node, pod ∈ podsOf k /\ p_Namespace pod = fst (s_Name svc) /\ selects (s_Selector svc) (p_Labels pod) = true
    /\ p_Phase pod = "Running" /\ p_NodeName pod <> "" /\ getLBNode (p_NodeName pod) k = Ok node /\ ready node
    /\ mkNodeAddress NodeExternalIP ip ∈ n_Addresses node.

Lemma foldl_collect {A K} `{Countable K} (b : A -> bool) (f : A -> K) l s x :
  x ∈ foldl (fun (s : gset K) a => if b a then {[f a]} ∪ s else s) s l
  <-> x ∈ s \/ exists a, a ∈ l /\ b a = true /\ f a = x.
Proof using Type.
  revert s. induction l as [|a l IH]; intros s; cbn [foldl].
  - split; [by left|]. intros [?|(? & []%not_elem_of_nil & _)]; done.
  - rewrite IH. setoid_rewrite elem_of_cons. destruct (b a) eqn:E.
    + rewrite elem_of_union, elem_of_singleton. split.
      * intros [[->|?]|(a' & ? & ? & ?)]; [right; by exists a; auto|by left|right; exists a'; auto].
      * intros [?|(a' & [->|?] & ? & ?)]; [by left; right|left; left; congruence|right; by exists a'].
    + split.
      * intros [?|(a' & ? & ? & ?)]; [by left|right; exists a'; auto].
      * intros [?|(a' & [->|?] & ? & ?)]; [by left|congruence|right; by exists a'].
Qed.

Lemma nodeNames_elem pods name :
  name ∈ nodeNames pods <-> exists pod, pod ∈ pods /\ p_Phase pod = "Running" /\ p_NodeName pod <> "" /\ p_NodeName pod = name.
Proof using Type.
  unfold nodeNames. rewrite (foldl_collect (fun pod => negb (p_NodeName pod =? "")%string && (p_Phase pod =? PodRunning)%string) p_NodeName).
  split.
  - intros [[]%not_elem_of_empty|(pod & H1 & [H2 H3%String.eqb_eq]%andb_prop & H4)]. exists pod. split_and!; try done.
    intros HE. by rewrite HE in H2.
  - intros (pod & H1 & H2 & H3 & H4). right. exists pod. split_and!; try done. rewrite H2. change (("Running" =? PodRunning)%string) with true. rewrite andb_true_r.
    by destruct (String.eqb_spec (p_NodeName pod) "").
Qed.

(** The list of the loop is the ingresses of the addresses of the set, each once. *)
Definition twin (acc : gset string * list LoadBalancerIngress) : Prop :=
  exists l, acc.2 = map ingressOf l /\ NoDup l /\ forall x, x ∈ acc.1 <-> x ∈ l.

Lemma addAddress_spec a acc :
  twin acc -> twin (addAddress acc a)
  /\ forall x, x ∈ (addAddress acc a).1 <-> x ∈ acc.1 \/ mkNodeAddress NodeExternalIP x = a.
Proof using Type.
  intros (l & HL & HN & HT). destruct a as [t a]. unfold addAddress. cbn [Type_ Address].
  case_bool_decide as Ht; cbn [andb]; [|split; [by exists l|naive_solver]].
  subst. case_bool_decide as Ha; cbn [negb].
  - split; [by exists l|]. intros x. split; [by left|]. by intros [?|[= ->]].
  - split.
    + exists (l ++ [a]). cbn. rewrite HL, map_app. split_and!; [done| |].
      * apply NoDup_app. split; [done|]. split; [|apply NoDup_singleton].
        intros x Hx ->%list_elem_of_singleton. by apply Ha, HT.
      * intros x. rewrite elem_of_union, elem_of_singleton, elem_of_app, list_elem_of_singleton, HT. tauto.
    + intros x. cbn. rewrite elem_of_union, elem_of_singleton. naive_solver.
Qed.

Lemma addAddresses_spec l acc :
  twin acc -> twin (foldl addAddress acc l)
  /\ forall x, x ∈ (foldl addAddress acc l).1 <-> x ∈ acc.1 \/ mkNodeAddress NodeExternalIP x ∈ l.
Proof using Type.
  revert acc. induction l as [|a l IH]; intros acc HT; cbn [foldl].
  - split; [done|]. intros x. split; [by left|]. intros [?|[]%not_elem_of_nil]; done.
  - destruct (addAddress_spec a acc HT) as [HA1 HA2]. destruct (IH _ HA1) as [H1 H2].
    split; [done|]. intros x. rewrite H2, HA2, elem_of_cons. tauto.
Qed.

Lemma addNodes_spec k names acc :
  twin acc -> twin (foldl (addNode k) acc names)
  /\ forall x, x ∈ (foldl (addNode k) acc names).1 <-> x ∈ acc.1 \/ exists name node, name ∈ names
       /\ getLBNode name k = Ok node /\ nodeIsReady node = true /\ mkNodeAddress NodeExternalIP x ∈ n_Addresses node.
Proof using Type.
  revert acc. induction names as [|name l IH]; intros acc HT; cbn [foldl].
  - split; [done|]. intros x. split; [by left|]. intros [?|(? & ? & []%not_elem_of_nil & _)]; done.
  - assert (twin (addNode k acc name) /\ forall x, x ∈ (addNode k acc name).1 <->
              x ∈ acc.1 \/ exists node, getLBNode name k = Ok node /\ nodeIsReady node = true /\ mkNodeAddress NodeExternalIP x ∈ n_Addresses node)
      as [HA1 HA2].
    { unfold addNode. destruct (getLBNode name k) as [node|e| |]; try (by split; [|split; [by left|intros [?|(? & ? & _)]]]).
      destruct (nodeIsReady node) eqn:ER.
      - destruct (addAddresses_spec (n_Addresses node) acc HT) as [H1 H2]. split; [done|]. intros x. rewrite H2.
        split; (intros [?|H]; [by left|right]); [by exists node|by destruct H as (? & [= <-] & _ & ?)].
      - split; [done|]. split; [by left|]. intros [?|(? & [= <-] & ? & _)]; [done|congruence]. }
    destruct (IH _ HA1) as [H1 H2]. split; [done|]. intros x. rewrite H2, HA2. setoid_rewrite elem_of_cons. split.
    + intros [[?|(node & ?)]|(nm & node & ? & ?)]; [by left|right; exists name, node; auto|right; exists nm, node; auto].
    + intros [?|(nm & node & [->|?] & ?)]; [by left; left|left; right; by exists node|right; by exists nm, node].
Qed.

Lemma ingresses_spec n k svc pods :
  listPods (fst (s_Name svc)) (s_Selector svc) k = Ok pods ->
  exists l, snd (foldl (addNode k) (∅, []) (rangeSet n (nodeNames pods))) = map ingressOf l
    /\ NoDup l /\ forall ip, ip ∈ l <-> serves k svc ip.
Proof using L OL.
  intros HP. pose proof (listPods_law (fst (s_Name svc)) (s_Selector svc) k) as HL. rewrite HP in HL.
  destruct (addNodes_spec k (rangeSet n (nodeNames pods)) (∅, [])) as [(l & HE & H1 & H2) H3].
  { exists []. split_and!; [done|constructor|]. intros x. cbn. split; [by intros ?%not_elem_of_empty|by intros ?%not_elem_of_nil]. }
  exists l. split_and!; [done..|]. intros ip. rewrite <- H2, H3. cbn [fst]. unfold serves. setoid_rewrite <- nodeIsReady_spec. split.
  - intros [[]%not_elem_of_empty|(name & node & Hn & H4 & H5 & H6)].
    apply elem_rangeSet, nodeNames_elem in Hn as (pod & Hp & Hr & Hne & <-).
    apply HL in Hp as (Hp1 & Hp2 & Hp3). by exists pod, node.
  - intros (pod & node & Hp1 & Hp2 & Hp3 & Hr & Hne & H4 & H5 & H6). right. exists (p_NodeName pod), node.
    split_and!; try done. apply elem_rangeSet, nodeNames_elem. exists pod. split_and!; try done. by apply HL.
Qed.

(** What is sent for these addresses, and how the service is then. *)
Definition sentFor (svc : Service) (ips : list string) (svc' : Service) : Prop :=
  s_Name svc' = s_Name svc /\ s_Type svc' = s_Type svc /\ s_Selector svc' = s_Selector svc
  /\ default [] (s_Ingress svc') = map (fun ip => mkLoadBalancerIngress ip "" (Some "Proxy") None) ips.

Lemma patched_sent k k' svc req ips i :
  servicesOf k !! req = Some svc -> default [] i = default [] (appended (map ingressOf ips)) ->
  servicesOf k' = alter (withIngress i) req (servicesOf k) ->
  exists svc', sentFor svc ips svc' /\ servicesOf k' = <[req := svc']> (servicesOf k).
Proof using Type.
  intros HS Hi ->. exists (withIngress i svc). split.
  - split_and!; try done. cbn [withIngress s_Ingress]. rewrite Hi. by destruct ips.
  - apply map_eq. intros name. destruct (decide (name = req)) as [->|Hn].
    + by rewrite lookup_alter_eq, lookup_insert_eq, HS.
    + by rewrite lookup_alter_ne, lookup_insert_ne.
Qed.

(** C31: A reconciliation that succeeds leaves the service, if it is one of a load balancer,
    with exactly one ingress, of mode Proxy and with no hostname and no ports, for every
    external address of the nodes that can be read, are ready (their first condition Ready
    is True) and run a running pod of its namespace that its selector selects, whatever the
    order of the map; a node that cannot be read is passed over.  Another service, or no
    service, is left alone.  A reconciliation that fails left the services as they were, or
    with that patch applied: its answer may have been lost. *)
Theorem Reconcile_spec (n : nat) (req : NamespacedName) (k : ClusterSt) :
  match Reconcile n req k with
  | (Ok _, k') =>
      match servicesOf k !! req with
      | None => k' = k
      | Some svc =>
          if (s_Type svc =? "LoadBalancer")%string then
            exists l svc', NoDup l /\ (forall ip, ip ∈ l <-> serves k svc ip)
              /\ sentFor svc l svc' /\ servicesOf k' = <[req := svc']> (servicesOf k)
          else k' = k
      end
  | (Err _, k') =>
      servicesOf k' = servicesOf k
      \/ exists svc l svc', servicesOf k !! req = Some svc /\ s_Type svc = "LoadBalancer"
           /\ NoDup l /\ (forall ip, ip ∈ l <-> serves k svc ip)
           /\ sentFor svc l svc' /\ servicesOf k' = <[req := svc']> (servicesOf k)
  | _ => False
  end.
Proof using L OL.
  unfold Reconcile, bind, get. pose proof (getService_law req k) as HG.
  destruct (getService req k) as [svc|e| |]; try done.
  2: { destruct (isNotFound e); [cbn; by rewrite HG|by left]. }
  destruct HG as [HG1 HG2]. rewrite HG1. unfold isLoadBalancer, ServiceTypeLoadBalancer.
  destruct (String.eqb_spec (s_Type svc) "LoadBalancer") as [EL|EL]; [|done]. cbn [negb]. unfold lift.
  pose proof (listPods_law (fst (s_Name svc)) (s_Selector svc) k) as HP.
  destruct (listPods _ _ k) as [pods|e| |] eqn:EP; try done; [|by left].
  destruct (ingresses_spec n k svc pods EP) as (l & HL & H1 & H2). rewrite HL.
  case_bool_decide as HE.
  - cbn. exists l, svc. split_and!; try done.
    + split_and!; try done. rewrite HE. by destruct l.
    + symmetry. by apply insert_id.
  - pose proof (patch_law req (appended (map ingressOf l)) k) as HU.
    destruct (patchIngress req _ k) as [[[]|e| |] k']; try done.
    + destruct HU as (i & Hi & HU). destruct (patched_sent k k' svc req l i HG1 Hi HU) as (svc' & H3 & H4).
      by exists l, svc'.
    + destruct HU as [HU|(i & Hi & HU)]; [by left|right].
      destruct (patched_sent k k' svc req l i HG1 Hi HU) as (svc' & H3 & H4). by exists svc, l, svc'.
Qed.

(** ** The events *)

Lemma addRequests_spec l acc :
  (forall x, x ∈ acc.1 <-> x ∈ acc.2) ->
  (forall x, x ∈ (foldl addRequest acc l).1 <-> x ∈ (foldl addRequest acc l).2)
  /\ forall x, x ∈ (foldl addRequest acc l).2 <-> x ∈ acc.2 \/ x ∈ l.
Proof using Type.
  revert acc. induction l as [|r l IH]; intros acc HT; cbn [foldl].
  - split; [done|]. intros x. split; [by left|]. intros [?|[]%not_elem_of_nil]; done.
  - assert ((forall x, x ∈ (addRequest acc r).1 <-> x ∈ (addRequest acc r).2)
            /\ forall x, x ∈ (addRequest acc r).2 <-> x ∈ acc.2 \/ x = r) as [HA1 HA2].
    { unfold addRequest. case_bool_decide as Hr.
      - split; [done|]. intros x. split; [by left|]. intros [?| ->]; [done|by apply HT].
      - cbn. split; intros x; rewrite ?elem_of_union, ?elem_of_singleton, ?elem_of_app, ?list_elem_of_singleton, ?HT; tauto. }
    destruct (IH _ HA1) as [H1 H2]. split; [done|]. intros x. rewrite H2, HA2, elem_of_cons. tauto.
Qed.

Lemma podToService_elem pod k svcs req :
  listServices (p_Namespace pod) k = Ok svcs ->
  req ∈ podToService pod k <-> exists svc, servicesOf k !! req = Some svc /\ s_Name svc = req
    /\ fst req = p_Namespace pod /\ isLoadBalancer svc = true /\ selects (s_Selector svc) (p_Labels pod) = true.
Proof using L.
  intros HL. unfold podToService. rewrite HL. pose proof (listServices_law (p_Namespace pod) k) as H. rewrite HL in H.
  rewrite list_elem_of_fmap. split.
  - intros (svc & -> & Hs). apply list_elem_of_In, List.filter_In in Hs as [Hs [H1 H2]%andb_prop].
    apply list_elem_of_In, H in Hs as [H3 H4]. by exists svc.
  - intros (svc & H1 & H2 & H3 & H4 & H5). exists svc. split; [done|].
    apply list_elem_of_In, List.filter_In. rewrite H4, H5. split; [|done]. apply list_elem_of_In, H. by rewrite H2.
Qed.

(** When a node changes, every service whose addresses may depend on it is reconciled:
    those of load balancers that select a pod of the node. *)
Lemma nodeToService_covers name k pods svc pod :
  podsOnNode name k = Ok pods -> (forall ns, exists svcs, listServices ns k = Ok svcs) ->
  servicesOf k !! s_Name svc = Some svc -> isLoadBalancer svc = true ->
  pod ∈ podsOf k -> p_NodeName pod = name -> fst (s_Name svc) = p_Namespace pod ->
  selects (s_Selector svc) (p_Labels pod) = true ->
  s_Name svc ∈ nodeToService name k.
Proof using L.
  intros HP HS H1 H2 H3 H4 H5 H6. unfold nodeToService. rewrite HP.
  pose proof (podsOnNode_law name k) as HL. rewrite HP in HL.
  destruct (addRequests_spec (flat_map (fun pod => podToService pod k) pods) (∅, [])) as [_ HA].
  { intros x. cbn. split; [by intros ?%not_elem_of_empty|by intros ?%not_elem_of_nil]. }
  apply HA. right. apply list_elem_of_In, List.in_flat_map. exists pod. rewrite <- !list_elem_of_In. split; [by apply HL|].
  destruct (HS (p_Namespace pod)) as [svcs Hsv]. apply (podToService_elem _ _ _ _ Hsv). by exists svc.
Qed.
End LB.

(** ** Examples *)

Record sampleSt : Type := mkSampleSt { st_services : gmap NamespacedName Service; st_pods : list Pod; st_nodes : gmap string LBNode }.

(** Labels select a pod when it has all of them. *)
Definition selectsAll (sel labels : gmap string string) : bool := bool_decide (map_Forall (fun k v => labels !! k = Some v) sel).

#[export] Instance sampleClient : LBClient := {|
  ClusterSt := sampleSt;
  getService := fun name k => match st_services k !! name with
    | Some s => if bool_decide (s_Name s = name) then Ok s else Err (PlainError "conversion failed")
    | None => Err (PlainError "not found") end;
  listPods := fun ns sel k => Ok (List.filter (fun p => bool_decide (p_Namespace p = ns) && selectsAll sel (p_Labels p)) (st_pods k));
  podsOnNode := fun name k => Ok (List.filter (fun p => bool_decide (p_NodeName p = name)) (st_pods k));
  listServices := fun ns k => Ok (List.filter (fun s => bool_decide (st_services k !! s_Name s = Some s /\ fst (s_Name s) = ns))
                                   (map snd (map_to_list (st_services k))));
  getLBNode := fun name k => match st_nodes k !! name with Some n => Ok n | None => Err (PlainError "not found") end;
  patchIngress := fun name l k =>
    (Ok tt, mkSampleSt (alter (withIngress l) name (st_services k)) (st_pods k) (st_nodes k));
  isNotFound := fun e => isError "not found" e;
  selects := selectsAll
|}.

#[export] Instance sampleClient_laws : LBLaws.
Proof.
  refine {| servicesOf := fun k : ClusterSt => st_services k; podsOf := fun k : ClusterSt => st_pods k |}; cbn.
  - intros name k. destruct (st_services k !! name) as [s|] eqn:E; [|done]. by case_bool_decide.
  - intros ns sel k pod. rewrite list_elem_of_In, List.filter_In, <- list_elem_of_In, andb_true_iff, bool_decide_eq_true. done.
  - intros name k pod. by rewrite list_elem_of_In, List.filter_In, <- list_elem_of_In, bool_decide_eq_true.
  - intros ns k s. rewrite list_elem_of_In, List.filter_In, <- list_elem_of_In, bool_decide_eq_true. split; [by intros [_ ?]|].
    intros [H1 H2]. split; [|done]. apply list_elem_of_fmap. exists (s_Name s, s). split; [done|]. by apply elem_of_map_to_list.
  - intros name k. by destruct (st_nodes k !! name).
  - intros name l k. by exists l.
Defined.

Definition webService : Service := mkService ("default", "web") "LoadBalancer" {["app" := "web"]} None.
Definition webPod (node : string) : Pod := mkPod "default" {["app" := "web"]} node "Running".
Definition readyNode (ip : string) : LBNode := mkLBNode [("MemoryPressure", "False"); ("Ready", "True")] [mkNodeAddress NodeExternalIP ip].
Definition twoNodes (svc : Service) : sampleSt :=
  mkSampleSt {[s_Name svc := svc]} [webPod "a"; webPod "b"] {["a" := readyNode "192.0.2.1"; "b" := readyNode "192.0.2.2"]}.

Definition twoWeb : @ClusterSt sampleClient := twoNodes webService.

Lemma Reconcile_spec_witness :
  match Reconcile (O := stdOrder) 0 ("default", "web") twoWeb with
  | (Ok _, k') => exists l, NoDup l /\ (forall ip, ip ∈ l <-> serves twoWeb webService ip)
  | _ => False
  end.
Proof.
  pose proof (Reconcile_spec (O := stdOrder) 0 ("default", "web") twoWeb) as H.
  assert (forall e, fst (Reconcile (O := stdOrder) 0 ("default", "web") twoWeb) <> Err e) as HO
    by (intros e; vm_compute; discriminate).
  destruct (Reconcile 0 ("default", "web") twoWeb) as [[u|e|m|] k'].
  - destruct H as (l & svc' & H1 & H2 & _). exists l. split; [exact H1|exact H2].
  - by destruct (HO e).
  - exact H.
  - exact H.
Defined.

(** The addresses are in the order of the map: another order and the status is written
    again, although nothing changed. *)
Definition ordered (rev : bool) : GoOrder := {|
  rangeOver K V _ _ n m := map_to_list m;
  rangeSet K _ _ n s := if rev then List.rev (elements s) else elements s;
  sortFunc A cmp l := l
|}.

Definition addressesOf (k : sampleSt) (name : NamespacedName) : option (list string) :=
  (fun s => map li_IP (default [] (s_Ingress s))) <$> st_services k !! name.

Example order_rewrites :
  let k1 := (Reconcile (O := ordered false) 0 ("default", "web") twoWeb).2 in
  let k2 := (Reconcile (O := ordered true) 0 ("default", "web") k1).2 in
  addressesOf k2 ("default", "web") = (@rev string <$> addressesOf k1 ("default", "web"))
  /\ (length <$> addressesOf k1 ("default", "web")) = Some 2%nat.
Proof. vm_compute. by split. Qed.

(** An address that is there with another mode is written again. *)
Example other_mode_rewritten :
  let svc := mkService ("default", "web") "LoadBalancer" {["app" := "web"]}
               (Some [mkLoadBalancerIngress "192.0.2.1" "" (Some "VIP") None]) in
  let k := mkSampleSt {[s_Name svc := svc]} [webPod "a"] {["a" := readyNode "192.0.2.1"]} in
  (s_Ingress <$> st_services (Reconcile (O := stdOrder) 0 ("default", "web") (k : @ClusterSt sampleClient)).2 !! ("default", "web"))
  = Some (Some [ingressOf "192.0.2.1"]).
Proof. vm_compute. done. Qed.

(** A service without a selector, which selects no pod in Kubernetes, gets the addresses of
    every node that runs a pod of its namespace. *)
Example no_selector_serves_all :
  let svc := mkService ("default", "bare") "LoadBalancer" ∅ None in
  let k := (Reconcile (O := stdOrder) 0 ("default", "bare") (twoNodes svc : @ClusterSt sampleClient)).2 in
  (length <$> addressesOf k ("default", "bare")) = Some 2%nat.
Proof. vm_compute. done. Qed.
