(* ===== verification/NetCluster.v ===== *)
(** * The cluster and the local node

    service/net/cluster.go and local.go: what the goroutines that follow the nodes keep of
    them and publish, and the WireGuard key of the machine, which a file keeps from one
    start to the next. *)

From stdpp Require Import gmap strings.
From S2P Require Import Prelude Kube NetTypes.
#[local] Open Scope Z_scope.
#[local] Set Warnings "-clear-no-such-hyp".

(** ** cluster.go *)

Record ClusterNode : Type := mkClusterNode {
  InternalAddress : Addr;
  PublicKey : option Key;
  ExternalAddress : AddrPort;
  CIDRs : list Prefix;
  IsLocal : bool
}.

(** The map of the nodes; the events that are published are this map, not copies. *)
Abbreviation ClusterEvent := (gmap string ClusterNode).
Record Cluster : Type := mkCluster { c_node : string; c_state : ClusterEvent }.

Definition NewCluster (localNode : string) : Cluster := mkCluster localNode ∅.

Definition toClusterNode (c : Cluster) (node : Node) : ClusterNode :=
  mkClusterNode (n_InternalAddress node) (n_PublicKey node) (n_ExternalAddress node)
    (List.filter (fun cidr => Is4 (p_Addr cidr)) (n_CIDRs node))
    (n_Name node =? c_node c)%string.

(** One round of [Cluster.Run], and whether it publishes. *)
Definition clusterRound (c : Cluster) (event : Event) : Cluster * bool :=
  match event with
  | Delete name => (mkCluster (c_node c) (delete name (c_state c)), false)
  | Update node => (mkCluster (c_node c) (<[n_Name node := toClusterNode c node]> (c_state c)), true)
  end.

(** All rounds, with what was in the map whenever it was published. *)
Fixpoint Cluster_Run (c : Cluster) (events : list Event) : Cluster * list ClusterEvent :=
  match events with
  | [] => (c, [])
  | event :: rest =>
      let '(c', publish) := clusterRound c event in
      let '(c'', published) := Cluster_Run c' rest in
      (c'', if publish then c_state c' :: published else published)
  end.

(** The last that was heard of a node. *)
Definition about (name : string) (event : Event) : bool :=
  match event with
  | Update node => (n_Name node =? name)%string
  | Delete name' => (name' =? name)%string
  end.
Definition lastAbout (name : string) (events : list Event) : option Event :=
  last (List.filter (about name) events).

Lemma clusterRound_node c e : c_node (clusterRound c e).1 = c_node c.
Proof. by destruct e. Qed.

Lemma Cluster_Run_lookup c es name :
  c_state (Cluster_Run c es).1 !! name =
  match lastAbout name es with
  | Some (Update node) => Some (toClusterNode c node)
  | Some (Delete _) => None
  | None => c_state c !! name
  end.
Proof.
  revert c. induction es as [|e es IH]; intros c; [done|]. cbn [Cluster_Run].
  destruct (clusterRound c e) as [c' p] eqn:E. destruct (Cluster_Run c' es) as [c'' ps] eqn:E'.
  assert (c_state c'' !! name = c_state (Cluster_Run c' es).1 !! name) as HQ by (by rewrite E').
  cbn [fst]. rewrite HQ, IH. clear HQ E'.
  assert (c_node c' = c_node c) as Hn by (by rewrite <- (clusterRound_node c e), E).
  unfold lastAbout. cbn [List.filter].
  assert (forall n, toClusterNode c' n = toClusterNode c n) as Ht by (intros n; unfold toClusterNode; by rewrite Hn).
  destruct e as [node|d]; injection E as <- <-; cbn [about].
  - destruct (String.eqb_spec (n_Name node) name) as [<-|Hd].
    + rewrite last_cons. destruct (last _) as [[?|?]|]; [by rewrite Ht|done|]. cbn. by rewrite lookup_insert_eq.
    + destruct (last _) as [[?|?]|]; [by rewrite Ht|done|]. cbn. by rewrite lookup_insert_ne.
  - destruct (String.eqb_spec d name) as [<-|Hd].
    + rewrite last_cons. destruct (last _) as [[?|?]|]; [by rewrite Ht|done|]. cbn. by rewrite lookup_delete_eq.
    + destruct (last _) as [[?|?]|]; [by rewrite Ht|done|]. cbn. by rewrite lookup_delete_ne.
Qed.

(** The cluster as it is published is what was last heard of each node, with its
    ranges of IPv4 only and at most the node of its own name as the local one: whatever was
    heard, every map published is the one of the events so far, and the last one is what
    is held unless nodes were deleted since. *)
Theorem cluster_tracks (localNode : string) (es : list Event) :
  let '(c, published) := Cluster_Run (NewCluster localNode) es in
  (forall name, c_state c !! name =
     match lastAbout name es with
     | Some (Update node) => Some (toClusterNode (NewCluster localNode) node)
     | _ => None
     end)
  /\ (forall name v, c_state c !! name = Some v -> IsLocal v = (name =? localNode)%string)
  /\ (forall m, m ∈ published -> exists es', es' `prefix_of` es /\ m = c_state (Cluster_Run (NewCluster localNode) es').1).
Proof.
  destruct (Cluster_Run (NewCluster localNode) es) as [c published] eqn:E.
  assert (c_state c = c_state (Cluster_Run (NewCluster localNode) es).1) as Hc by (by rewrite E).
  assert (forall name, c_state c !! name =
     match lastAbout name es with
     | Some (Update node) => Some (toClusterNode (NewCluster localNode) node)
     | _ => None
     end) as H1.
  { intros name. rewrite Hc, Cluster_Run_lookup. by destruct (lastAbout name es) as [[]|]. }
  split; [exact H1|]. split.
  - intros name v. rewrite H1. destruct (lastAbout name es) as [[node|]|] eqn:El; try done.
    intros [= <-]. cbn. unfold lastAbout in El. apply last_Some_elem_of in El.
    apply list_elem_of_In, List.filter_In in El as [_ El]. cbn in El. by apply String.eqb_eq in El as ->.
  - clear H1 Hc. revert c published E. generalize (NewCluster localNode) as c0.
    induction es as [|e es IH]; intros c0 c published E m Hm.
    + injection E as <- <-. by apply not_elem_of_nil in Hm.
    + cbn [Cluster_Run] in E. destruct (clusterRound c0 e) as [c1 p] eqn:E1.
      destruct (Cluster_Run c1 es) as [c2 ps] eqn:E2. injection E as <- <-.
      assert (m = c_state c1 \/ m ∈ ps) as [->|Hin].
      { destruct p; [by apply elem_of_cons in Hm|by right]. }
      * exists [e]. split; [apply (prefix_app [e]), prefix_nil|]. cbn. by rewrite E1.
      * destruct (IH _ _ _ E2 _ Hin) as (es' & H1 & H2). exists (e :: es').
        split; [by apply prefix_cons|]. cbn. rewrite E1. by destruct (Cluster_Run c1 es').
Qed.

(** A deletion is not published: whoever holds the map sees it, if at all, at the next
    update of another node. *)
Lemma deletion_unpublished c name : (Cluster_Run c [Delete name]).2 = [].
Proof. done. Qed.

(** ** local.go *)

(** wgtypes: the public key of a private one, and its text. *)
Class WgTypes : Type := { KeyPublicKey : Key -> Key; KeyString : Key -> string }.

Record Local : Type := mkLocal { l_node : string; l_port : Z; l_address : Addr; l_key : Key }.
Record LocalEvent : Type := mkLocalEvent {
  le_Address : Addr; le_Node : string; le_Port : Z; le_PrivateKey : Key
}.

Definition event (l : Local) : LocalEvent := mkLocalEvent (l_address l) (l_node l) (l_port l) (l_key l).

Section Local.
Context {WG : WgTypes} {KA : KubeAPI}.

(** What [Local.Run] changes: its state, Kubernetes, and what it has published. *)
Record localWorld : Type := mkLocalWorld { theLocal : Local; kube : Kube; localEvents : list LocalEvent }.

Definition publishLocal : Go localWorld unit :=
  modify (fun w => mkLocalWorld (theLocal w) (kube w) (localEvents w ++ [event (theLocal w)])).

Definition annotate (name key value : string) : Go localWorld unit :=
  fun w => let '(o, k) := AnnotateNode name key value (kube w) in
           (o, mkLocalWorld (theLocal w) k (localEvents w)).

(** One round of [Local.Run]. *)
Definition localRound (e : Event) : Go localWorld unit :=
  match e with
  | Delete _ => ret tt
  | Update node =>
      w <-- get ;;
      let l := theLocal w in
      if (n_Name node =? l_node l)%string then
        put (mkLocalWorld (mkLocal (l_node l) (Port (n_ExternalAddress node)) (ap_Addr (n_ExternalAddress node)) (l_key l))
               (kube w) (localEvents w)) ;;;
        (let pk := KeyPublicKey (l_key l) in
         if bool_decide (n_PublicKey node = Some pk) then ret tt
         else wrapf "error while storing public key in node %q annotation: %w" []
                (annotate (n_Name node) AnnotationPublicKey (KeyString pk))) ;;;
        publishLocal
      else ret tt
  end.

Definition Local_Run (events : list Event) : Go localWorld unit :=
  publishLocal ;;; forEach events tt (fun _ e => localRound e).

(** The node of this machine as last heard of. *)
Definition localSpec (l : Local) (es : list Event) : Local :=
  match last (omap (fun e => match e with
                             | Update node => if (n_Name node =? l_node l)%string then Some node else None
                             | Delete _ => None end) es) with
  | Some node => mkLocal (l_node l) (Port (n_ExternalAddress node)) (ap_Addr (n_ExternalAddress node)) (l_key l)
  | None => l
  end.

Lemma localSpec_cons l e es : localSpec l (e :: es) = localSpec (localSpec l [e]) es.
Proof.
  unfold localSpec. destruct e as [node|d]; cbn; [|done].
  destruct (String.eqb_spec (n_Name node) (l_node l)) as [He|He]; [|done]. rewrite last_cons. cbn.
  by destruct (last _).
Qed.

Lemma localRound_ok e w w' :
  localRound e w = (Ok tt, w') ->
  theLocal w' = localSpec (theLocal w) [e]
  /\ exists pub, localEvents w' = localEvents w ++ pub /\ (forall v, last pub = Some v -> v = event (theLocal w'))
     /\ (pub = [] -> theLocal w' = theLocal w).
Proof.
  unfold localRound, localSpec. destruct e as [node|d]; cbn.
  2: { intros [= <-]. split; [done|]. exists []. by rewrite app_nil_r. }
  unfold bind, get, put. destruct (String.eqb_spec (n_Name node) (l_node (theLocal w))) as [He|He].
  2: { intros [= <-]. split; [done|]. exists []. by rewrite app_nil_r. }
  cbn. case_bool_decide; cbn.
  - intros [= <-]. cbn. split; [done|]. eexists [_]. split; [done|]. split; [by intros ? [= <-]|done].
  - unfold wrapf, annotate. cbn. destruct (AnnotateNode _ _ _ _) as [[[]| | |] k]; cbn; try done.
    intros [= <-]. cbn. split; [done|]. eexists [_]. split; [done|]. split; [by intros ? [= <-]|done].
Qed.

(** The machine publishes itself at the start and whenever Kubernetes says something of
    its node: until a call fails, the last event has the address and port heard last, and
    its key. *)
Theorem local_published (l : Local) (k : Kube) (es : list Event) (w : localWorld) :
  Local_Run es (mkLocalWorld l k []) = (Ok tt, w) ->
  theLocal w = localSpec l es /\ last (localEvents w) = Some (event (theLocal w)).
Proof.
  unfold Local_Run. unfold bind at 1, publishLocal, modify. cbn. intros H.
  assert (forall w0 w1, forEach es tt (fun _ e => localRound e) w0 = (Ok tt, w1) ->
            last (localEvents w0) = Some (event (theLocal w0)) ->
            theLocal w1 = localSpec (theLocal w0) es /\ last (localEvents w1) = Some (event (theLocal w1))) as HI.
  { clear. induction es as [|e es IH]; intros w0 w1 H Hl; cbn [forEach] in H.
    - injection H as <-. done.
    - unfold bind in H. destruct (localRound e w0) as [[[]| | |] w2] eqn:E; try done.
      apply localRound_ok in E as (E1 & pub & E2 & E3 & E4).
      rewrite localSpec_cons, <- E1. apply IH; [done|]. rewrite E2.
      destruct (last pub) as [v|] eqn:EL.
      + rewrite last_app, EL. f_equal. by apply E3.
      + apply last_None in EL as ->. rewrite app_nil_r, Hl, E4 by done. done. }
  apply HI in H; done.
Qed.
End Local.

(** ** The key file *)

(** ReadFile, WriteFile (which may leave anything in the file when it fails),
    GeneratePrivateKey, and the key file at each call. *)
Class KeyEnv : Type := {
  readFails : nat -> option error;
  writeFails : nat -> option (error * option string);
  generated : nat -> outcome Key
}.
Record keyWorld : Type := mkKeyWorld { keyFile : option string; keyCalls : nat }.

Section Key.
Context {P : NetParse} {WG : WgTypes} {KE : KeyEnv}.
Context (mkdirAll : nat -> option error).

Definition counted {A} (f : nat -> option string -> outcome A * option string) : Go keyWorld A :=
  fun w => let '(o, file) := f (keyCalls w) (keyFile w) in (o, mkKeyWorld file (S (keyCalls w))).

Definition ErrNotExist : error := PlainError "file does not exist".

Definition ReadFile : Go keyWorld string :=
  counted (fun n file =>
    (match readFails n with
     | Some e => Err e
     | None => match file with Some s => Ok s | None => Err ErrNotExist end
     end, file)).

Definition WriteFile (text : string) : Go keyWorld unit :=
  counted (fun n file =>
    match writeFails n with
    | Some (e, left_) => (Err e, left_)
    | None => (Ok tt, Some text)
    end).

Definition getKey : Go keyWorld Key :=
  encodedKey <-- wrapf "error while reading key file from filesystem: %w" [] ReadFile ;;
  wrapf "error while parsing private key: %w" [] (lift (ParseKey encodedKey)).

Definition storeKey (key : Key) : Go keyWorld unit :=
  wrapf "error while writing wireguard key to filesystem: %w" [] (WriteFile (KeyString key)).

(** The part of [NewLocal] that fails: the directory and the key. *)
Definition NewLocal (localNode : string) : Go keyWorld Local :=
  wrapf "error while ensuring local state directory exists: %w" []
    (counted (fun n file => (match mkdirAll n with Some e => Err e | None => Ok tt end, file))) ;;;
  key <-- (fun w =>
    match getKey w with
    | (Err _, w') =>
        (key <-- wrapf "error while generating wireguard key for local node: %w" [] (counted (fun n file => (generated n, file))) ;;
         wrapf "error while generating wireguard key for local node: %w" [] (storeKey key) ;;;
         ret key) w'
    | r => r
    end) ;;
  ret (mkLocal localNode 0 NoAddr key).

(** What wgtypes promises of its texts. *)
Definition textsRead : Prop := forall k, ParseKey (KeyString k) = Ok k.

Lemma getKey_spec w :
  keyFile (getKey w).2 = keyFile w
  /\ match readFails (keyCalls w), keyFile w with
     | None, Some text => match ParseKey text with Ok k => (getKey w).1 = Ok k | _ => True end
     | _, _ => exists e, (getKey w).1 = Err e
     end
  /\ forall k, (getKey w).1 = Ok k -> exists text, keyFile w = Some text /\ ParseKey text = Ok k.
Proof.
  unfold getKey, bind, wrapf, ReadFile, counted, lift. cbn.
  destruct (readFails (keyCalls w)); [split_and!; try done; by eexists|].
  destruct (keyFile w) as [text|]; [|split_and!; try done; by eexists]. cbn.
  destruct (ParseKey text) eqn:E; cbn; split_and!; try done.
  intros k [= <-]. by exists text.
Qed.

(** The key that a start ends with can be read from the file: the next start that can
    read the file has the same one. *)
Theorem key_survives (name : string) (w w1 : keyWorld) (l : Local) :
  textsRead -> NewLocal name w = (Ok l, w1) ->
  mkdirAll (keyCalls w1) = None -> readFails (S (keyCalls w1)) = None ->
  exists w2, NewLocal name w1 = (Ok l, w2) /\ keyFile w2 = keyFile w1.
Proof.
  intros HT H Hm Hr.
  assert (exists text, keyFile w1 = Some text /\ ParseKey text = Ok (l_key l) /\ l = mkLocal name 0 NoAddr (l_key l))
    as (text & Hf & Hk & Hl).
  { unfold NewLocal, bind, wrapf at 1, counted in H. destruct (mkdirAll (keyCalls w)); [done|].
    destruct (getKey_spec (mkKeyWorld (keyFile w) (S (keyCalls w)))) as (G1 & _ & G3).
    destruct (getKey _) as [[k|e|m|] w'] eqn:E; cbn in *; try done.
    - injection H as <- <-. destruct (G3 k eq_refl) as (text & ? & ?). exists text. by rewrite G1.
    - cbv [ret wrapf storeKey WriteFile counted bind] in H. destruct (generated (keyCalls w')) as [k| | |]; cbn in H; try done.
      destruct (writeFails (S (keyCalls w'))) as [[]|]; cbn in H; [done|]. injection H as <- <-. cbn.
      exists (KeyString k). split; [done|]. by rewrite HT. }
  unfold NewLocal, bind, wrapf at 1, counted. rewrite Hm.
  destruct (getKey_spec (mkKeyWorld (keyFile w1) (S (keyCalls w1)))) as (G1 & G2 & _). cbn in G1, G2.
  destruct (getKey _) as [o w'] eqn:E. cbn in G1, G2. rewrite Hr, Hf, Hk in G2. subst o.
  exists w'. rewrite Hl. by cbn.
Qed.
End Key.
