(* ===== verification/NetRouter.v ===== *)
(** * The routes

    service/net/router: the routes to the other nodes that netd keeps in the kernel.  The
    kernel is any that keeps the promises of rtnetlink ([NetlinkLaws]); the iterations over
    maps and the sort are in any order. *)

From stdpp Require Import gmap strings sorting.
From S2P Require Import Prelude GoMaps NetTypes NetCluster.
#[local] Open Scope Z_scope.
#[local] Set Warnings "-clear-no-such-hyp".

Record route : Type := mkRoute { via : Addr; target : Prefix }.
#[export] Instance route_eq_dec : EqDecision route.
Proof. solve_decision. Defined.
#[export] Instance route_countable : Countable route.
Proof. apply (inj_countable' (fun r => (via r, target r)) (fun x => mkRoute x.1 x.2)). by intros []. Defined.

Definition directRoute (t : Prefix) : route := mkRoute IPv4Unspecified t.
Definition isDirect (r : route) : bool := bool_decide (via r = IPv4Unspecified).

(** A netlink.Route: its destination and gateway; without a gateway it has the scope of
    the link.  The link and the protocol are those of the router. *)
Record nlRoute : Type := mkNlRoute { Dst : IPNet; Gw : option IP }.
#[export] Instance nlRoute_eq_dec : EqDecision nlRoute.
Proof. solve_decision. Defined.
#[export] Instance nlRoute_countable : Countable nlRoute.
Proof. apply (inj_countable' (fun r => (Dst r, Gw r)) (fun x => mkNlRoute x.1 x.2)). by intros []. Defined.

Class Netlink : Type := {
  Kernel : Type;
  RouteAdd : nlRoute -> Kernel -> outcome unit * Kernel;
  RouteDel : nlRoute -> Kernel -> outcome unit * Kernel;
  routesOf : Kernel -> gset nlRoute
}.

(** os.ErrExist *)
Definition ErrExist : string := "file already exists".

(** A route is added unless there is one to the same destination; deleting removes it; a
    call that fails changes nothing. *)
Class NetlinkLaws (N : Netlink) : Prop := {
  add_law r k : match RouteAdd r k with
    | (Ok _, k') => routesOf k' = {[r]} ∪ routesOf k
    | (Err e, k') => routesOf k' = routesOf k
        /\ (isError ErrExist e = true -> exists r', r' ∈ routesOf k /\ Dst r' = Dst r)
    | _ => False
    end;
  del_law r k : match RouteDel r k with
    | (Ok _, k') => routesOf k' = routesOf k ∖ {[r]}
    | (Err _, k') => routesOf k' = routesOf k
    | _ => False
    end
}.

(** A kernel without failures: it takes a route whose destination is free and whose
    gateway, if it has one, has a route of its own on the link; it removes what is there. *)
Class NetlinkReliable (N : Netlink) : Prop := {
  add_works r k :
    (forall r', r' ∈ routesOf k -> Dst r' <> Dst r) ->
    (forall gw, Gw r = Some gw -> exists bits, mkNlRoute (mkIPNet gw (CIDRMask bits (ipBits gw))) None ∈ routesOf k) ->
    exists k', RouteAdd r k = (Ok tt, k');
  del_works r k : r ∈ routesOf k -> exists k', RouteDel r k = (Ok tt, k')
}.

Definition orderRoute (r1 r2 : route) : Z :=
  if isDirect r1 && negb (isDirect r2) then -1
  else if isDirect r2 && negb (isDirect r1) then 1
  else 0.

Section Router.
Context {N : Netlink} {O : GoOrder}.

Record Router : Type := mkRouter { routes : gset route; kernel : Kernel; iterations : nat }.

Definition netlinkRoute (r : route) : outcome nlRoute :=
  dst <-? errorf "error while parsing route target: %w" (PrefixToIPNet (target r)) ;;
  Ok (mkNlRoute dst (if isDirect r then None else Some (AsSlice (via r)))).

Definition setRoutes (f : gset route -> gset route) : Go Router unit :=
  modify (fun w => mkRouter (f (routes w)) (kernel w) (iterations w)).

Definition onKernel (f : Kernel -> outcome unit * Kernel) : Go Router unit :=
  fun w => let '(o, k) := f (kernel w) in (o, mkRouter (routes w) k (iterations w)).

(** The error of RouteAdd that is let pass. *)
Definition unlessExist (m : Go Router unit) : Go Router unit :=
  fun w => match m w with
           | (Err e, w') => if isError ErrExist e then (Ok tt, w') else (Err e, w')
           | r => r
           end.

Definition addRoute (r : route) : Go Router unit :=
  nlr <-- lift (netlinkRoute r) ;;
  wrapf "error while adding netlink route: %w" [] (unlessExist (onKernel (RouteAdd nlr))) ;;;
  setRoutes (fun s => {[r]} ∪ s).

Definition delRoute (r : route) : Go Router unit :=
  nlr <-- lift (netlinkRoute r) ;;
  wrapf "error while removing netlink route: %w" [] (onKernel (RouteDel nlr)) ;;;
  setRoutes (fun s => s ∖ {[r]}).

(** The next iteration over a map or a set. *)
Definition overSet {K} `{Countable K} (s : gset K) : Go Router (list K) :=
  fun w => (Ok (rangeSet (iterations w) s), mkRouter (routes w) (kernel w) (S (iterations w))).
Definition overMap {V} (m : gmap string V) : Go Router (list (string * V)) :=
  fun w => (Ok (rangeOver (iterations w) m), mkRouter (routes w) (kernel w) (S (iterations w))).

Definition NodePrefix : Z := 32.

(** The routes that one node adds to [rs]. *)
Definition nodeRoutes (rs : gset route) (node : ClusterNode) : gset route :=
  if IsLocal node || negb (Addr_IsValid (InternalAddress node)) then rs
  else
    let target := PrefixFrom (InternalAddress node) NodePrefix in
    foldl (fun s cidr => {[mkRoute (InternalAddress node) cidr]} ∪ s)
      ({[directRoute target]} ∪ rs) (CIDRs node).

Definition deriveRoutes (nodes : list ClusterNode) : gset route := foldl nodeRoutes ∅ nodes.

Definition configureRoutes (cluster : ClusterEvent) : Go Router unit :=
  nodes <-- overMap cluster ;;
  let desired := deriveRoutes (map snd nodes) in
  droutes <-- overSet desired ;;
  w <-- get ;;
  let toadd := sortFunc orderRoute (List.filter (fun r => bool_decide (r ∉ routes w)) droutes) in
  forEach toadd tt (fun _ r => wrapf "error while adding new route %q: %w" [] (addRoute r)) ;;;
  w <-- get ;;
  eroutes <-- overSet (routes w) ;;
  forEach eroutes tt (fun _ r =>
    if bool_decide (r ∈ desired) then ret tt
    else wrapf "error while removing stale route %q: %w" [] (delRoute r)).

Definition cleanupRoutes : Go Router unit :=
  w <-- get ;;
  eroutes <-- overSet (routes w) ;;
  forEach eroutes tt (fun _ r => wrapf "error while removing stale route %q: %w" [] (delRoute r)).

(** [Router.Run] over the clusters it receives before its context ends. *)
Definition Router_Run (clusters : list ClusterEvent) : Go Router unit :=
  deferred
    (forEach clusters tt (fun _ c => wrapf "error while configuring routes: %w" [] (configureRoutes c)))
    cleanupRoutes "error while cleaning up routes: %w".

(** ** What is wanted *)

Definition wanted (cluster : ClusterEvent) : gset route := deriveRoutes (map snd (map_to_list cluster)).

Lemma nodeRoutes_elem rs node r :
  r ∈ nodeRoutes rs node <->
  r ∈ rs \/ (IsLocal node = false /\ Addr_IsValid (InternalAddress node) = true
             /\ (r = directRoute (PrefixFrom (InternalAddress node) NodePrefix)
                 \/ exists cidr, cidr ∈ CIDRs node /\ r = mkRoute (InternalAddress node) cidr)).
Proof.
  unfold nodeRoutes. destruct (IsLocal node), (Addr_IsValid (InternalAddress node)); cbn; try naive_solver.
  assert (forall l (s : gset route), r ∈ foldl (fun s cidr => {[mkRoute (InternalAddress node) cidr]} ∪ s) s l <->
            r ∈ s \/ exists cidr, cidr ∈ l /\ r = mkRoute (InternalAddress node) cidr) as HF.
  { induction l as [|c l IH]; intros s; cbn [foldl].
    - split; [by left|]. intros [?|(? & []%not_elem_of_nil & _)]; done.
    - rewrite IH. setoid_rewrite elem_of_cons. rewrite elem_of_union, elem_of_singleton. naive_solver. }
  rewrite HF, elem_of_union, elem_of_singleton. naive_solver.
Qed.

Definition routeOf (node : ClusterNode) (r : route) : Prop :=
  IsLocal node = false /\ Addr_IsValid (InternalAddress node) = true
  /\ (r = directRoute (PrefixFrom (InternalAddress node) NodePrefix)
      \/ exists cidr, cidr ∈ CIDRs node /\ r = mkRoute (InternalAddress node) cidr).

Lemma deriveRoutes_elem nodes r : r ∈ deriveRoutes nodes <-> exists node, node ∈ nodes /\ routeOf node r.
Proof.
  unfold deriveRoutes.
  assert (forall s : gset route, r ∈ foldl nodeRoutes s nodes <-> r ∈ s \/ exists node, node ∈ nodes /\ routeOf node r) as H.
  { induction nodes as [|n nodes IH]; intros s; cbn [foldl].
    - split; [by left|]. intros [?|(? & []%not_elem_of_nil & _)]; done.
    - rewrite IH, nodeRoutes_elem. setoid_rewrite elem_of_cons. unfold routeOf. naive_solver. }
  rewrite H. set_solver.
Qed.

Lemma wanted_elem cluster r :
  r ∈ wanted cluster <-> exists name node, cluster !! name = Some node /\ routeOf node r.
Proof.
  unfold wanted. rewrite deriveRoutes_elem. split.
  - intros (node & H & Hr). apply list_elem_of_fmap in H as ([name n'] & -> & H%elem_of_map_to_list). by exists name, n'.
  - intros (name & node & H & Hr). exists node. split; [|done].
    apply list_elem_of_fmap. exists (name, node). split; [done|]. by apply elem_of_map_to_list.
Qed.

Lemma derive_wanted {L : GoOrderLaws O} n cluster : deriveRoutes (map snd (rangeOver n cluster)) = wanted cluster.
Proof.
  apply set_eq. intros r. unfold wanted. rewrite !deriveRoutes_elem.
  assert (map snd (rangeOver n cluster) ≡ₚ map snd (map_to_list cluster)) as HP
    by (apply Permutation_map, rangeOver_all).
  by setoid_rewrite HP.
Qed.

Lemma orderRoute_total : Total (notAbove orderRoute).
Proof. intros r1 r2. unfold notAbove, orderRoute. destruct (isDirect r1), (isDirect r2); cbn; lia. Qed.
Lemma orderRoute_trans : Transitive (notAbove orderRoute).
Proof. intros r1 r2 r3. unfold notAbove, orderRoute. destruct (isDirect r1), (isDirect r2), (isDirect r3); cbn; lia. Qed.

(** ** What is in the kernel *)

Definition nlOf (r : route) : nlRoute :=
  mkNlRoute (mkIPNet (AsSlice (p_Addr (target r))) (CIDRMask (Bits (target r)) (BitLen (p_Addr (target r)))))
    (if isDirect r then None else Some (AsSlice (via r))).

Definition wfRoute (r : route) : Prop :=
  wfPrefix (target r) /\ Prefix_IsValid (target r) = true
  /\ Addr_IsValid (via r) = true /\ via r = withoutZone (via r).

Lemma netlinkRoute_wf r : wfRoute r -> netlinkRoute r = Ok (nlOf r).
Proof. intros (H1 & H2 & _). unfold netlinkRoute. by rewrite PrefixToIPNet_ok. Qed.

Lemma Dst_nlOf r r' : wfRoute r -> wfRoute r' -> Dst (nlOf r) = Dst (nlOf r') -> target r = target r'.
Proof.
  intros (H1 & H2 & _) (H3 & H4 & _) HD. apply (PrefixToIPNet_inj _ _ (Dst (nlOf r))); try done.
  - by rewrite PrefixToIPNet_ok.
  - rewrite HD. by rewrite PrefixToIPNet_ok.
Qed.

(** The clusters that the controller publishes: ranges that can be parsed, and addresses
    without a zone. *)
Definition goodCluster (cluster : ClusterEvent) : Prop :=
  forall name node, cluster !! name = Some node ->
    InternalAddress node = withoutZone (InternalAddress node)
    /\ forall cidr, cidr ∈ CIDRs node -> wfPrefix cidr /\ Prefix_IsValid cidr = true.

Lemma PrefixFrom_host a : Addr_IsValid a = true ->
  PrefixFrom a NodePrefix = mkPrefix (withoutZone a) NodePrefix.
Proof. by destruct a. Qed.

Lemma wanted_wf cluster r : goodCluster cluster -> r ∈ wanted cluster -> wfRoute r.
Proof.
  intros HG (name & node & Hn & _ & Hv & Hr)%wanted_elem. destruct (HG _ _ Hn) as [Hz Hc].
  destruct Hr as [->|(cidr & Hin & ->)].
  - rewrite PrefixFrom_host by done. split_and!; try done. split; cbn.
    + by destruct (InternalAddress node).
    + right. unfold NodePrefix. destruct (InternalAddress node); cbn in *; try done; lia.
  - destruct (Hc _ Hin). by split_and!.
Qed.

(** With every route over a gateway there is the direct route to the gateway. *)
Lemma wanted_gateway cluster r :
  r ∈ wanted cluster -> isDirect r = false -> directRoute (PrefixFrom (via r) NodePrefix) ∈ wanted cluster.
Proof.
  intros (name & node & Hn & Hl & Hv & Hr)%wanted_elem Hd. apply wanted_elem. exists name, node.
  split; [done|]. split; [done|]. split; [done|]. left. destruct Hr as [->|(cidr & _ & ->)]; [|done].
  unfold isDirect in Hd. cbn in Hd. by rewrite bool_decide_eq_true_2 in Hd.
Qed.

Section Kernel.
Context {NL : NetlinkLaws N}.
(** The routes that others keep in the kernel, and those the router ever wants: each to a
    destination of its own. *)
Context (F : gset nlRoute) (D : gset route).

Definition apart : Prop :=
  (forall r, r ∈ D -> wfRoute r)
  /\ (forall r r', r ∈ D -> r' ∈ D -> target r = target r' -> r = r')
  /\ (forall r x, r ∈ D -> x ∈ F -> Dst x <> Dst (nlOf r)).

Definition tableInv (w : Router) : Prop :=
  routes w ⊆ D /\ routesOf (kernel w) = F ∪ set_map nlOf (routes w).

Context (HA : apart).

Lemma nlOf_inj r r' : r ∈ D -> r' ∈ D -> Dst (nlOf r) = Dst (nlOf r') -> r = r'.
Proof using HA. destruct HA as (H1 & H2 & _). intros Hr Hr' HD. apply H2; try done. by apply Dst_nlOf; auto. Qed.

Lemma tableInv_dst w r x :
  tableInv w -> r ∈ D -> x ∈ routesOf (kernel w) -> Dst x = Dst (nlOf r) -> r ∈ routes w /\ x = nlOf r.
Proof using HA.
  intros [HI1 HI2] Hr Hx HD. rewrite HI2 in Hx. apply elem_of_union in Hx as [Hx|Hx].
  - destruct HA as (_ & _ & H3). by destruct (H3 r x Hr Hx).
  - apply elem_of_map in Hx as (r' & -> & Hr'). assert (r' = r) as ->; [|done]. apply nlOf_inj; auto.
Qed.

Lemma addRoute_inv r w :
  r ∈ D -> tableInv w ->
  match addRoute r w with
  | (Ok _, w') => routes w' = {[r]} ∪ routes w /\ tableInv w'
  | (Err _, w') => routes w' = routes w /\ tableInv w'
  | _ => False
  end.
Proof using HA NL.
  intros Hr HI. destruct HA as (H1 & _). unfold addRoute, bind, lift. rewrite netlinkRoute_wf by auto.
  unfold wrapf, unlessExist, onKernel, setRoutes, modify.
  pose proof (add_law (nlOf r) (kernel w)) as HL. destruct (RouteAdd (nlOf r) (kernel w)) as [[[]|e| |] k']; try done; cbn.
  - split; [done|]. destruct HI as [HI1 HI2]. split; cbn; [set_solver|]. rewrite HL, HI2, set_map_union_L, set_map_singleton_L. set_solver.
  - destruct HL as [HL1 HL2]. destruct (isError ErrExist e); cbn.
    + destruct (HL2 eq_refl) as (x & Hx & HD). destruct (tableInv_dst w r x HI Hr Hx HD) as [Hin _].
      assert ({[r]} ∪ routes w = routes w) as HE by set_solver. split; [done|].
      destruct HI as [HI1 HI2]. split; cbn; rewrite HE; [done|]. by rewrite HL1.
    + split; [done|]. destruct HI as [HI1 HI2]. split; cbn; [done|]. by rewrite HL1.
Qed.

Lemma delRoute_inv r w :
  r ∈ routes w -> tableInv w ->
  match delRoute r w with
  | (Ok _, w') => routes w' = routes w ∖ {[r]} /\ tableInv w'
  | (Err _, w') => routes w' = routes w /\ tableInv w'
  | _ => False
  end.
Proof using HA NL.
  intros Hr HI. destruct HI as [HI1 HI2]. assert (r ∈ D) as HD by set_solver. destruct HA as (H1 & H2 & H3).
  unfold delRoute, bind, lift. rewrite netlinkRoute_wf by auto.
  unfold wrapf, onKernel, setRoutes, modify.
  pose proof (del_law (nlOf r) (kernel w)) as HL. destruct (RouteDel (nlOf r) (kernel w)) as [[[]|e| |] k']; try done; cbn.
  - split; [done|]. split; cbn; [set_solver|]. rewrite HL, HI2. apply set_eq. intros x.
    rewrite elem_of_difference, !elem_of_union, !elem_of_map, elem_of_singleton.
    split.
    + intros [[Hx|(r' & -> & Hr')] Hn]; [by left|right]. exists r'. split; [done|]. set_solver.
    + intros [Hx|(r' & -> & Hr')].
      * split; [by left|]. intros ->. by apply (H3 r (nlOf r)).
      * split; [right; exists r'; set_solver|]. intros HE. assert (r' = r); [|set_solver].
        apply nlOf_inj; [set_solver|done|by rewrite HE].
  - split; [done|]. split; cbn; [done|]. by rewrite HL.
Qed.

Lemma adds_inv l w :
  (forall r, r ∈ l -> r ∈ D) -> tableInv w ->
  match forEach l tt (fun _ r => wrapf "error while adding new route %q: %w" [] (addRoute r)) w with
  | (Ok _, w') => routes w' = list_to_set l ∪ routes w /\ tableInv w'
  | (Err _, w') => tableInv w'
  | _ => False
  end.
Proof using HA NL.
  revert w. induction l as [|r l IH]; intros w Hl HI; cbn [forEach].
  - split; [cbn; set_solver|done].
  - unfold bind at 1, wrapf at 1. pose proof (addRoute_inv r w ltac:(set_solver) HI) as Ha.
    destruct (addRoute r w) as [[[]|e| |] w1]; try done; [|by destruct Ha].
    destruct Ha as [Ha1 Ha2]. specialize (IH w1 ltac:(set_solver) Ha2).
    destruct (forEach l _ _ w1) as [[[]|e| |] w2]; try done. destruct IH as [-> IH]. split; [|done].
    rewrite Ha1. cbn. set_solver.
Qed.

Lemma dels_inv (keep : route -> bool) l w :
  NoDup l -> (forall r, r ∈ l -> r ∈ routes w) -> tableInv w ->
  match forEach l tt (fun _ r => if keep r then ret tt
                                 else wrapf "error while removing stale route %q: %w" [] (delRoute r)) w with
  | (Ok _, w') => routes w' = routes w ∖ list_to_set (List.filter (fun r => negb (keep r)) l) /\ tableInv w'
  | (Err _, w') => tableInv w'
  | _ => False
  end.
Proof using HA NL.
  revert w. induction l as [|r l IH]; intros w Hd Hl HI; cbn [forEach].
  - split; [cbn; set_solver|done].
  - apply NoDup_cons in Hd as [Hn Hd]. cbn [List.filter]. unfold bind at 1. destruct (keep r) eqn:Ek; cbn [negb].
    + apply (IH w); [done|set_solver|done].
    + unfold wrapf at 1. pose proof (delRoute_inv r w ltac:(set_solver) HI) as Ha.
      destruct (delRoute r w) as [[[]|e| |] w1]; try done; [|by destruct Ha].
      destruct Ha as [Ha1 Ha2]. specialize (IH w1 Hd ltac:(set_solver) Ha2).
      destruct (forEach l _ _ w1) as [[[]|e| |] w2]; try done. destruct IH as [-> IH]. split; [|done].
      rewrite Ha1. cbn. set_solver.
Qed.

Lemma adds_work {R : NetlinkReliable N} l w :
  (forall r, r ∈ l -> r ∈ D) -> tableInv w -> NoDup l -> (forall r, r ∈ l -> r ∉ routes w) ->
  StronglySorted (notAbove orderRoute) l ->
  (forall r, r ∈ l -> isDirect r = false ->
     directRoute (PrefixFrom (via r) NodePrefix) ∈ l \/ directRoute (PrefixFrom (via r) NodePrefix) ∈ routes w) ->
  exists w', forEach l tt (fun _ r => wrapf "error while adding new route %q: %w" [] (addRoute r)) w = (Ok tt, w').
Proof using HA NL.
  revert w. induction l as [|r l IH]; intros w Hl HI Hd Hn Hs Hg; cbn [forEach]; [by eexists|].
  apply NoDup_cons in Hd as [Hnr Hd]. inversion Hs as [|? ? Hs' Hle]; subst.
  assert (r ∈ D) as Hr by set_solver. assert (wfRoute r) as Hw by (by apply HA).
  destruct (add_works (nlOf r) (kernel w)) as [k Hk].
  { intros x Hx HD. destruct (tableInv_dst w r x HI Hr Hx HD) as [Hin _]. by apply (Hn r); [left|]. }
  { intros gw Hgw. unfold nlOf in Hgw. cbn in Hgw. destruct (isDirect r) eqn:Ed; [done|]. injection Hgw as <-.
    exists NodePrefix. destruct HI as [_ ->]. apply elem_of_union_r, elem_of_map.
    destruct Hw as (_ & _ & Hv & Hz). exists (directRoute (PrefixFrom (via r) NodePrefix)). split.
    - rewrite PrefixFrom_host by done. unfold nlOf, isDirect. cbn. rewrite bool_decide_eq_true_2 by done.
      rewrite <- Hz. by destruct (via r).
    - destruct (Hg r ltac:(by left) Ed) as [[He|Hin]%elem_of_cons|Hin]; [| |done].
      + rewrite <- He in Ed. by vm_compute in Ed.
      + rewrite List.Forall_forall in Hle. apply list_elem_of_In in Hin. specialize (Hle _ Hin).
        unfold notAbove, orderRoute in Hle. rewrite Ed in Hle. cbn in Hle. by vm_compute in Hle. }
  unfold bind at 1, wrapf at 1. pose proof (addRoute_inv r w Hr HI) as Ha.
  assert ((addRoute r w).1 = Ok tt) as Hok.
  { unfold addRoute, bind, lift. rewrite netlinkRoute_wf by done. unfold wrapf, unlessExist, onKernel. by rewrite Hk. }
  destruct (addRoute r w) as [o w1]. cbn in Hok. subst o. destruct Ha as [Ha1 Ha2].
  apply IH; try done; rewrite ?Ha1; [set_solver|set_solver|].
  intros r' Hr' Hd'. destruct (Hg r' ltac:(by right) Hd') as [[He|Hin]%elem_of_cons|Hin].
  - right. rewrite He. set_solver.
  - by left.
  - right. set_solver.
Qed.

Lemma dels_work {R : NetlinkReliable N} (keep : route -> bool) l w :
  NoDup l -> (forall r, r ∈ l -> r ∈ routes w) -> tableInv w ->
  exists w', forEach l tt (fun _ r => if keep r then ret tt
               else wrapf "error while removing stale route %q: %w" [] (delRoute r)) w = (Ok tt, w').
Proof using HA NL.
  revert w. induction l as [|r l IH]; intros w Hd Hl HI; cbn [forEach]; [by eexists|].
  apply NoDup_cons in Hd as [Hn Hd]. unfold bind at 1. destruct (keep r) eqn:Ek; [apply (IH w); [done|set_solver|done]|].
  assert (r ∈ routes w) as Hr by set_solver. assert (r ∈ D) as HrD by (destruct HI; set_solver).
  destruct (del_works (nlOf r) (kernel w)) as [k Hk].
  { destruct HI as [_ ->]. apply elem_of_union_r, elem_of_map. by exists r. }
  unfold wrapf at 1. pose proof (delRoute_inv r w Hr HI) as Ha.
  assert ((delRoute r w).1 = Ok tt) as Hok.
  { unfold delRoute, bind, lift. rewrite netlinkRoute_wf by (by apply HA). unfold wrapf, onKernel. by rewrite Hk. }
  destruct (delRoute r w) as [o w1]. cbn in Hok. subst o. destruct Ha as [Ha1 Ha2].
  apply IH; [done|set_solver|done].
Qed.

Context {OL : GoOrderLaws O}.

Lemma iterations_inv w n : tableInv (mkRouter (routes w) (kernel w) n) <-> tableInv w.
Proof using. done. Qed.

(** The routes to add, in the order of the additions. *)
Lemma toadd_elem n w cluster r :
  r ∈ sortFunc orderRoute (List.filter (fun r => bool_decide (r ∉ routes w)) (rangeSet n (wanted cluster)))
  <-> r ∈ wanted cluster /\ r ∉ routes w.
Proof using OL.
  rewrite elem_sortFunc. rewrite list_elem_of_In, List.filter_In, <- list_elem_of_In, elem_rangeSet.
  by rewrite bool_decide_eq_true.
Qed.

Lemma routes_configured_aux (cluster : ClusterEvent) (w : Router) :
  tableInv w -> wanted cluster ⊆ D ->
  match configureRoutes cluster w with
  | (Ok _, w') => routes w' = wanted cluster
      /\ routesOf (kernel w') = F ∪ set_map nlOf (wanted cluster)
  | (Err _, w') => tableInv w' /\ (NetlinkReliable N -> False)
  | _ => False
  end.
Proof using HA NL OL.
  intros HI HD. unfold configureRoutes, overMap, overSet, get. unfold bind at 1 2 3. rewrite derive_wanted. cbn [routes kernel iterations].
  set (l := sortFunc orderRoute _). set (w0 := mkRouter _ _ _).
  assert (forall r, r ∈ l <-> r ∈ wanted cluster /\ r ∉ routes w) as Hl by (intros r; apply toadd_elem).
  assert (NoDup l) as Hd.
  { unfold l. rewrite sortFunc_all. apply NoDup_ListNoDup, List.NoDup_filter, NoDup_ListNoDup.
    rewrite rangeSet_all. apply NoDup_elements. }
  pose proof (adds_inv l w0 ltac:(set_solver) HI) as Ha.
  assert (NetlinkReliable N -> exists w', forEach l tt (fun _ r => wrapf "error while adding new route %q: %w" [] (addRoute r)) w0 = (Ok tt, w')) as Hw.
  { intros HR. apply adds_work; [set_solver|done|done|set_solver| |].
    - apply sortFunc_sorted; [apply orderRoute_total|apply orderRoute_trans].
    - intros r Hr Hdr. apply Hl in Hr as [Hr _]. pose proof (wanted_gateway _ _ Hr Hdr) as Hg.
      destruct (decide (directRoute (PrefixFrom (via r) NodePrefix) ∈ routes w)) as [?|Hn]; [by right|left].
      by apply Hl. }
  unfold bind at 1. destruct (forEach l _ _ w0) as [[[]|e| |] w1]; try done.
  2: { split; [done|]. intros HR. by destruct (Hw HR). }
  destruct Ha as [Ha1 Ha2]. unfold bind at 1 2. cbn [routes kernel iterations]. set (w2 := mkRouter _ _ _).
  set (k := rangeSet _ _).
  assert (forall r, r ∈ k <-> r ∈ routes w1) as Hk by (intros r; apply elem_rangeSet).
  assert (NoDup k) as Hkd by (unfold k; rewrite rangeSet_all; apply NoDup_elements).
  pose proof (dels_inv (fun r => bool_decide (r ∈ wanted cluster)) k w2 Hkd ltac:(set_solver) Ha2) as Hb.
  pose proof (fun R : NetlinkReliable N => dels_work (R := R) (fun r => bool_decide (r ∈ wanted cluster)) k w2 Hkd ltac:(set_solver) Ha2) as Hx.
  destruct (forEach k _ _ w2) as [[[]|e| |] w3]; try done.
  2: { split; [done|]. intros HR. by destruct (Hx HR). }
  destruct Hb as [Hb1 [_ Hb2]].
  assert (routes w3 = wanted cluster) as HE.
  { rewrite Hb1. cbn. rewrite Ha1. apply set_eq. intros r.
    rewrite elem_of_difference, elem_of_union, !elem_of_list_to_set, Hl, !list_elem_of_In, List.filter_In, <- list_elem_of_In, Hk, Ha1.
    rewrite elem_of_union, elem_of_list_to_set, Hl, negb_true_iff, bool_decide_eq_false.
    destruct (decide (r ∈ wanted cluster)), (decide (r ∈ routes w)); cbn; naive_solver. }
  split; [done|]. by rewrite Hb2, HE.
Qed.

(** A kernel whose routes to other destinations are those of others, and a router that
    has recorded its own: [configureRoutes] leaves exactly the routes that the cluster
    wants, and those of the others, whatever the order of the maps.  When a call fails
    the kernel still has the others' routes and the recorded ones only; and a kernel without
    failures never refuses one, because the routes to the gateways are added first. *)
Theorem routes_configured (cluster : ClusterEvent) (w : Router) :
  tableInv w -> wanted cluster ⊆ D ->
  match configureRoutes cluster w with
  | (Ok _, w') => routes w' = wanted cluster
      /\ routesOf (kernel w') = F ∪ set_map nlOf (wanted cluster)
  | (Err _, w') => tableInv w' /\ (NetlinkReliable N -> False)
  | _ => False
  end.
Proof using HA NL OL. apply routes_configured_aux. Qed.

Lemma cleanup_inv w :
  tableInv w ->
  match cleanupRoutes w with
  | (Ok _, w') => routes w' = ∅ /\ tableInv w'
  | (Err _, w') => tableInv w' /\ (NetlinkReliable N -> False)
  | _ => False
  end.
Proof using HA NL OL.
  intros HI. unfold cleanupRoutes, overSet, get. unfold bind at 1 2. set (w1 := mkRouter _ _ _). set (k := rangeSet _ _).
  assert (forall r, r ∈ k <-> r ∈ routes w) as Hk by (intros r; apply elem_rangeSet).
  assert (NoDup k) as Hd by (unfold k; rewrite rangeSet_all; apply NoDup_elements).
  pose proof (dels_inv (fun _ => false) k w1 Hd ltac:(set_solver) HI) as Hb.
  pose proof (fun R : NetlinkReliable N => dels_work (R := R) (fun _ => false) k w1 Hd ltac:(set_solver) HI) as Hx.
  cbn [negb] in Hb, Hx. destruct (forEach k _ _ w1) as [[[]|e| |] w2]; try done.
  - destruct Hb as [Hb1 Hb2]. split; [|done]. rewrite Hb1. apply set_eq. intros r.
    rewrite elem_of_difference, elem_of_list_to_set, list_elem_of_In, List.filter_In, <- list_elem_of_In, Hk. cbn. set_solver.
  - split; [done|]. intros HR. by destruct (Hx HR).
Qed.

Lemma rounds_inv clusters w :
  tableInv w -> (forall c, c ∈ clusters -> wanted c ⊆ D) ->
  match forEach clusters tt (fun _ c => wrapf "error while configuring routes: %w" [] (configureRoutes c)) w with
  | (Ok _, w') => tableInv w'
  | (Err _, w') => tableInv w' /\ (NetlinkReliable N -> False)
  | _ => False
  end.
Proof using HA NL OL.
  revert w. induction clusters as [|c l IH]; intros w HI HD; cbn [forEach]; [done|].
  unfold bind at 1, wrapf at 1. pose proof (routes_configured_aux c w HI ltac:(set_solver)) as Hc.
  destruct (configureRoutes c w) as [[[]|e| |] w1]; try done. destruct Hc as [H1 H2].
  apply IH; [|set_solver]. split; [rewrite H1; set_solver|by rewrite H1].
Qed.
End Kernel.

(** C29: Whatever clusters the router is told of, as long as no two of their routes and none
    of the kernel's have the same destination: it never touches a route of others, it ends
    without an error only if it has removed all of its own, and with a kernel without
    failures it does. *)
Theorem router_leaves_nothing {NL : NetlinkLaws N} {OL : GoOrderLaws O}
    (clusters : list ClusterEvent) (k : Kernel) (D : gset route) :
  apart (routesOf k) D -> (forall c, c ∈ clusters -> wanted c ⊆ D) ->
  match Router_Run clusters (mkRouter ∅ k 0) with
  | (Ok _, w) => routesOf (kernel w) = routesOf k
  | (Err _, w) => routesOf k ⊆ routesOf (kernel w) ⊆ routesOf k ∪ set_map nlOf D /\ (NetlinkReliable N -> False)
  | _ => False
  end.
Proof.
  intros HA HD. assert (tableInv (routesOf k) D (mkRouter ∅ k 0)) as H0 by (split; cbn; [set_solver|by rewrite set_map_empty, union_empty_r_L]).
  assert (forall w, tableInv (routesOf k) D w -> routesOf k ⊆ routesOf (kernel w) ⊆ routesOf k ∪ set_map nlOf D) as HS.
  { intros w [H1 H2]. rewrite H2. set_solver. }
  unfold Router_Run, deferred. pose proof (rounds_inv _ _ HA clusters _ H0 HD) as HR.
  destruct (forEach clusters _ _ _) as [[[]|e| |] w1]; try done.
  - pose proof (cleanup_inv _ _ HA w1 HR) as HC. destruct (cleanupRoutes w1) as [[[]|e| |] w2]; try done.
    + destruct HC as [HC1 [_ HC2]]. by rewrite HC2, HC1, set_map_empty, union_empty_r_L.
    + destruct HC. auto.
  - destruct HR as [HR1 HR2]. pose proof (cleanup_inv _ _ HA w1 HR1) as HC. destruct (cleanupRoutes w1) as [[[]|e'| |] w2]; try done.
    + destruct HC. auto.
    + destruct HC. auto.
Qed.
End Router.
