(* ===== verification/NetWireguard.v ===== *)
(** * The WireGuard device

    service/net/wireguard: the peers of the machine's WireGuard device.  The device and the
    addresses of its interface are parameters ([WgDevice]). *)

From stdpp Require Import gmap strings sorting.
From S2P Require Import Prelude GoMaps NetTypes NetCluster NetRouter.
#[local] Open Scope Z_scope.
#[local] Set Warnings "-clear-no-such-hyp".

Definition WireguardKeepaliveInterval : Z := 15 * 10 ^ 9.

Record UDPAddr : Type := mkUDPAddr { u_IP : IP; u_Port : Z; u_Zone : string }.

(** A wgtypes.PeerConfig; the keepalive interval and ReplaceAllowedIPs are always the
    same. *)
Record PeerConfig : Type := mkPeerConfig {
  pc_PublicKey : Key;
  Endpoint : UDPAddr;
  AllowedIPs : list IPNet
}.
Definition PersistentKeepaliveInterval (_ : PeerConfig) : Z := WireguardKeepaliveInterval.
Definition ReplaceAllowedIPs (_ : PeerConfig) : bool := true.

(** A wgtypes.Config with ReplacePeers. *)
Record Config : Type := mkConfig { cfg_PrivateKey : Key; ListenPort : Z; Peers : list PeerConfig }.

(** The device: its addresses of IPv4, listed and added to, its configuration, its removal
    and the end of the client. *)
Class WgDevice : Type := {
  Device : Type;
  AddrList : Device -> outcome (list IP);
  AddrAdd : IPNet -> Device -> outcome unit * Device;
  ConfigureDevice : Config -> Device -> outcome unit * Device;
  deleteInterface : Device -> outcome unit * Device;
  clientClose : Device -> outcome unit * Device
}.

Definition DefaultPrivateKey : Key := string_of (repeat Byte.x00 32).

(** ** util.go *)

Definition addrPortToUDPAddr (ap : AddrPort) : outcome UDPAddr :=
  if negb (AddrPort_IsValid ap) then Err (PlainError "invalid AddrPort") else
  let ip := ap_Addr ap in
  if negb (Addr_IsValid ip) then Err (PlainError "invalid IP address") else
  Ok (mkUDPAddr (AsSlice ip) (Port ap) (Zone ip)).

Definition compareUDPAddr (a b : UDPAddr) : bool :=
  bool_decide (u_IP a = u_IP b) && (u_Port a =? u_Port b).

Definition compareNetIP (a b : IPNet) : bool :=
  bool_decide (n_IP a = n_IP b) && (Network a =? Network b)%string.

(** [slices.EqualFunc]. *)
Fixpoint EqualFunc {A} (eq : A -> A -> bool) (l1 l2 : list A) : bool :=
  match l1, l2 with
  | [], [] => true
  | a :: l1', b :: l2' => eq a b && EqualFunc eq l1' l2'
  | _, _ => false
  end.

Definition comparePeerConfig (a b : PeerConfig) : bool :=
  (pc_PublicKey a =? pc_PublicKey b)%string && compareUDPAddr (Endpoint a) (Endpoint b)
  && EqualFunc compareNetIP (AllowedIPs a) (AllowedIPs b).

(** [bytes.Compare] of the public keys. *)
Definition byKey (a b : PeerConfig) : Z :=
  match String.compare (pc_PublicKey a) (pc_PublicKey b) with Lt => -1 | Eq => 0 | Gt => 1 end.

Section Wireguard.
Context {DV : WgDevice} {O : GoOrder}.

Record Wireguard : Type := mkWireguard {
  w_local : LocalEvent;
  w_cluster : ClusterEvent;
  peers : list PeerConfig;
  port : Z;
  privateKey : Key;
  device : Device;
  loops : nat
}.

Definition setDevice (d : Device) (w : Wireguard) : Wireguard :=
  mkWireguard (w_local w) (w_cluster w) (peers w) (port w) (privateKey w) d (loops w).

Definition overCluster : Go Wireguard (list (string * ClusterNode)) :=
  fun w => (Ok (rangeOver (loops w) (w_cluster w)),
            mkWireguard (w_local w) (w_cluster w) (peers w) (port w) (privateKey w) (device w) (S (loops w))).

Definition addWireguardIP : Go Wireguard unit :=
  nodes <-- overCluster ;;
  match List.find (fun p => IsLocal p.2) nodes with
  | None => ret tt
  | Some (_, node) =>
      w <-- get ;;
      addrs <-- wrapf "error while listing addresses for the wireguard interface: %w" [] (lift (AddrList (device w))) ;;
      if existsb (fun a => IP_Equal a (AsSlice (InternalAddress node))) addrs then ret tt
      else
        ip <-- wrapf "error while computing local node IP: %w" []
                 (lift (PrefixToIPNet (PrefixFrom (InternalAddress node) NodePrefix))) ;;
        wrapf "error while adding local node IP: %w" []
          (fun w => let '(o, d) := AddrAdd ip (device w) in (o, setDevice d w))
  end.

Fixpoint allowedIPs (cidrs : list Prefix) : outcome (list IPNet) :=
  match cidrs with
  | [] => Ok []
  | c :: rest =>
      cidr <-? errorf "error while computing allowed IP for node %q from CIDR %q: %w" (PrefixToIPNet c) ;;
      ips <-? allowedIPs rest ;;
      Ok (cidr :: ips)
  end.

(** The peer of a node; none for the local one and for one without a key or an external
    address. *)
Definition peerOf (node : ClusterNode) : outcome (option PeerConfig) :=
  if IsLocal node then Ok None else
  match PublicKey node with
  | None => Ok None
  | Some key =>
      if negb (Addr_IsValid (ap_Addr (ExternalAddress node))) then Ok None else
      endpoint <-? errorf "error while computing endpoint for node %q: %w" (addrPortToUDPAddr (ExternalAddress node)) ;;
      ip <-? errorf "error while computing allowed IP for node %q: %w"
               (PrefixToIPNet (PrefixFrom (InternalAddress node) NodePrefix)) ;;
      ips <-? allowedIPs (CIDRs node) ;;
      Ok (Some (mkPeerConfig key endpoint (ip :: ips)))
  end.

Fixpoint peersOf (nodes : list ClusterNode) : outcome (list PeerConfig) :=
  match nodes with
  | [] => Ok []
  | node :: rest =>
      p <-? peerOf node ;;
      ps <-? peersOf rest ;;
      Ok (option_list p ++ ps)
  end.

Definition configureWireguard : Go Wireguard unit :=
  w <-- get ;;
  if (le_PrivateKey (w_local w) =? DefaultPrivateKey)%string || (le_Port (w_local w) =? 0) then ret tt
  else
    wrapf "error while adding local node IP to wireguard interface: %w" [] addWireguardIP ;;;
    nodes <-- overCluster ;;
    newPeers <-- lift (peersOf (map snd nodes)) ;;
    let newPeers := sortFunc byKey newPeers in
    w <-- get ;;
    if EqualFunc comparePeerConfig newPeers (peers w) && (privateKey w =? le_PrivateKey (w_local w))%string
       && (port w =? le_Port (w_local w))
    then ret tt
    else
      put (mkWireguard (w_local w) (w_cluster w) newPeers (le_Port (w_local w)) (le_PrivateKey (w_local w)) (device w) (loops w)) ;;;
      wrapf "error while configuring wireguard device: %w" []
        (fun w => let '(o, d) := ConfigureDevice (mkConfig (privateKey w) (port w) (peers w)) (device w) in
                  (o, setDevice d w)).

(** What [Wireguard.Run] receives: the cluster or the local node. *)
Inductive update : Type :=
| OnCluster (c : ClusterEvent)
| OnLocal (l : LocalEvent).

Definition onUpdate (u : update) : Go Wireguard unit :=
  modify (fun w => match u with
    | OnCluster c => mkWireguard (w_local w) c (peers w) (port w) (privateKey w) (device w) (loops w)
    | OnLocal l => mkWireguard l (w_cluster w) (peers w) (port w) (privateKey w) (device w) (loops w)
    end) ;;;
  wrapf "error while configuring wireguard interface: %w" [] configureWireguard.

Definition onDevice (f : Device -> outcome unit * Device) : Go Wireguard unit :=
  fun w => let '(o, d) := f (device w) in (o, setDevice d w).

(** [Wireguard.Run] over what it receives before its context ends. *)
Definition Wireguard_Run (updates : list update) : Go Wireguard unit :=
  deferred
    (deferred (forEach updates tt (fun _ u => onUpdate u))
       (onDevice deleteInterface) "error while deleting wireguard interface %q: %w")
    (onDevice clientClose) "error while closing wireguard client: %w".

(** ** The configuration *)

(** What is relied on of the device: what it was configured with last, if it was. *)
Class WgDeviceLaws : Type := {
  configOf : Device -> option Config;
  addr_list d : match AddrList d with Ok _ | Err _ => True | _ => False end;
  addr_add ip d : match AddrAdd ip d with
    | (Ok _, d') | (Err _, d') => configOf d' = configOf d
    | _ => False
    end;
  configure_law c d : match ConfigureDevice c d with
    | (Ok _, d') => configOf d' = Some c
    | (Err _, _) => True
    | _ => False
    end
}.

(** A device without failures. *)
Definition deviceWorks : Prop :=
  (forall d, exists l, AddrList d = Ok l) /\ (forall ip d, exists d', AddrAdd ip d = (Ok tt, d'))
  /\ (forall c d, exists d', ConfigureDevice c d = (Ok tt, d')).

(** Whether a node is to be a peer. *)
Definition isPeer (node : ClusterNode) : bool :=
  negb (IsLocal node) && bool_decide (PublicKey node <> None) && Addr_IsValid (ap_Addr (ExternalAddress node)).

(** Every peer and the local node have their internal address. *)
Definition addressed (cluster : ClusterEvent) : Prop :=
  forall name node, cluster !! name = Some node -> IsLocal node || isPeer node = true ->
    Addr_IsValid (InternalAddress node) = true.

(** The peer of a node that has an internal address. *)
Definition asPeer (node : ClusterNode) : PeerConfig :=
  let net p := mkIPNet (AsSlice (p_Addr p)) (CIDRMask (Bits p) (BitLen (p_Addr p))) in
  mkPeerConfig (default "" (PublicKey node))
    (mkUDPAddr (AsSlice (ap_Addr (ExternalAddress node))) (Port (ExternalAddress node)) (Zone (ap_Addr (ExternalAddress node))))
    (map net (PrefixFrom (InternalAddress node) NodePrefix :: CIDRs node)).

Definition wantedPeers (nodes : list ClusterNode) : list PeerConfig := map asPeer (List.filter isPeer nodes).

Definition rangesParsed (node : ClusterNode) : Prop :=
  forall cidr, cidr ∈ CIDRs node -> wfPrefix cidr /\ Prefix_IsValid cidr = true.

Lemma allowedIPs_spec cidrs :
  (forall cidr, cidr ∈ cidrs -> wfPrefix cidr /\ Prefix_IsValid cidr = true) ->
  allowedIPs cidrs = Ok (map (fun p => mkIPNet (AsSlice (p_Addr p)) (CIDRMask (Bits p) (BitLen (p_Addr p)))) cidrs).
Proof.
  induction cidrs as [|c l IH]; intros H; [done|]. cbn. destruct (H c ltac:(by left)) as [H1 H2].
  rewrite PrefixToIPNet_ok by done. cbn. rewrite IH; [done|]. intros x Hx. apply H. by right.
Qed.

Lemma host_prefix a : Addr_IsValid a = true -> wfPrefix (PrefixFrom a NodePrefix) /\ Prefix_IsValid (PrefixFrom a NodePrefix) = true.
Proof. destruct a; [done| |]; intros _; (split; [split; [done|right; split; [done|unfold NodePrefix; cbn; lia]]|done]). Qed.

Lemma peerOf_spec node :
  rangesParsed node ->
  match peerOf node with
  | Ok p => p = (if isPeer node then Some (asPeer node) else None)
  | Err _ => isPeer node = true /\ Addr_IsValid (InternalAddress node) = false
  | _ => False
  end.
Proof.
  intros HR. unfold peerOf, isPeer, asPeer. pose proof (host_prefix (InternalAddress node)) as HH.
  assert (Addr_IsValid (InternalAddress node) = false -> exists e, PrefixToIPNet (PrefixFrom (InternalAddress node) NodePrefix) = Err e) as HX
    by (destruct (InternalAddress node); [by eexists|done..]).
  revert HH HX. generalize (PrefixFrom (InternalAddress node) NodePrefix) as hp. intros hp HH HX. destruct (IsLocal node); [done|]. destruct (PublicKey node) as [key|]; [|done].
  destruct (Addr_IsValid (ap_Addr (ExternalAddress node))) eqn:EV; cbn [negb andb]; [|by rewrite andb_false_r].
  rewrite (bool_decide_eq_true_2 (Some key <> None)) by done.
  unfold addrPortToUDPAddr, AddrPort_IsValid. rewrite EV. cbn.
  destruct (Addr_IsValid (InternalAddress node)) eqn:EI.
  - destruct HH as [H1 H2]; [done|]. rewrite PrefixToIPNet_ok by done. cbn. by rewrite allowedIPs_spec.
  - destruct HX as [e ->]; done.
Qed.

Lemma peersOf_spec nodes :
  (forall node, node ∈ nodes -> rangesParsed node) ->
  match peersOf nodes with
  | Ok ps => ps = wantedPeers nodes
  | Err _ => exists node, node ∈ nodes /\ isPeer node = true /\ Addr_IsValid (InternalAddress node) = false
  | _ => False
  end.
Proof.
  induction nodes as [|node l IH]; intros H; [done|]. cbn [peersOf wantedPeers List.filter].
  pose proof (peerOf_spec node (H node ltac:(by left))) as HP.
  destruct (peerOf node) as [p|e| |]; cbn [obind]; try done.
  - specialize (IH ltac:(intros x Hx; apply H; by right)). destruct (peersOf l) as [ps|e| |]; cbn [obind]; try done.
    + subst. unfold wantedPeers. cbn [List.filter]. by destruct (isPeer node).
    + destruct IH as (x & Hx & Hp). exists x. split; [by right|done].
  - exists node. split; [by left|done].
Qed.

(** ** The order of the peers *)

Lemma byKey_le a b : notAbove byKey a b <-> String.le (pc_PublicKey a) (pc_PublicKey b).
Proof.
  unfold notAbove, byKey, String.le, String.leb. destruct (String.compare _ _); cbv beta iota; split; intros H; try exact I; try lia; by destruct H.
Qed.
Lemma byKey_total : Total (notAbove byKey).
Proof. intros a b. rewrite !byKey_le. apply String.le_total. Qed.
Lemma byKey_trans : Transitive (notAbove byKey).
Proof. intros a b c. rewrite !byKey_le. apply String.le_po. Qed.

Definition distinctKeys (cluster : ClusterEvent) : Prop :=
  forall n1 n2 v1 v2, cluster !! n1 = Some v1 -> cluster !! n2 = Some v2 ->
    isPeer v1 = true -> isPeer v2 = true -> PublicKey v1 = PublicKey v2 -> n1 = n2.

(** The peers in the order of their keys. *)
Definition sortedPeers (cluster : ClusterEvent) : list PeerConfig :=
  sortFunc byKey (wantedPeers (map snd (map_to_list cluster))).

Context {OL : GoOrderLaws O}.

(** The order of the iteration does not show. *)
Lemma sortedPeers_order n cluster :
  distinctKeys cluster -> sortFunc byKey (wantedPeers (map snd (rangeOver n cluster))) = sortedPeers cluster.
Proof using OL.
  intros HD.
  assert (rangeOver n cluster ≡ₚ map_to_list cluster) as HP by apply rangeOver_all.
  apply sortFunc_unique; [apply byKey_total|apply byKey_trans| |].
  - assert (forall x, x ∈ wantedPeers (map snd (rangeOver n cluster)) ->
              exists name v, cluster !! name = Some v /\ isPeer v = true /\ x = asPeer v) as HE.
    { intros x Hx. unfold wantedPeers in Hx. apply list_elem_of_In, List.in_map_iff in Hx as (v & <- & Hv).
      apply List.filter_In in Hv as [Hv Hp]. apply list_elem_of_In, list_elem_of_fmap in Hv as ([name v'] & -> & Hv).
      rewrite HP in Hv. apply elem_of_map_to_list in Hv. by exists name, v'. }
    intros x y Hx Hy H1 H2. apply HE in Hx as (n1 & v1 & E1 & P1 & ->), Hy as (n2 & v2 & E2 & P2 & ->).
    apply byKey_le in H1, H2. assert (pc_PublicKey (asPeer v1) = pc_PublicKey (asPeer v2)) as HK
      by (by apply (anti_symm String.le)).
    cbn in HK. assert (n1 = n2) as HN; [|by subst; simplify_eq].
    eapply HD; try done. unfold isPeer in P1, P2.
    destruct (PublicKey v1), (PublicKey v2); cbn in *; try congruence; try done.
    all: rewrite ?andb_false_r in *; done.
  - unfold wantedPeers. apply Permutation_map.
    assert (map snd (rangeOver n cluster) ≡ₚ map snd (map_to_list cluster)) as HQ by (by apply Permutation_map).
    clear HP. induction HQ; cbn; [done| | |by etrans].
    + by destruct (isPeer x); [constructor|].
    + destruct (isPeer x), (isPeer y); try done. constructor.
Qed.

(** ** The device follows the cluster *)

Context {DL : WgDeviceLaws}.

Definition known (w : Wireguard) : bool :=
  negb ((le_PrivateKey (w_local w) =? DefaultPrivateKey)%string || (le_Port (w_local w) =? 0)).

(** What the service recorded is what the device was configured with. *)
Definition deviceInv (w : Wireguard) : Prop :=
  privateKey w = DefaultPrivateKey
  \/ configOf (device w) = Some (mkConfig (privateKey w) (port w) (peers w)).

Definition parsedCluster (cluster : ClusterEvent) : Prop :=
  forall name node, cluster !! name = Some node -> rangesParsed node.

Lemma addWireguardIP_spec w :
  let '(o, w') := addWireguardIP w in
  w_local w' = w_local w /\ w_cluster w' = w_cluster w /\ peers w' = peers w /\ port w' = port w
  /\ privateKey w' = privateKey w /\ configOf (device w') = configOf (device w)
  /\ match o with
     | Ok _ => True
     | Err _ => ~ (deviceWorks /\ addressed (w_cluster w))
     | _ => False
     end.
Proof using OL.
  unfold addWireguardIP, overCluster. unfold bind at 1.
  destruct (List.find (fun p => IsLocal p.2) (rangeOver (loops w) (w_cluster w))) as [[name node]|] eqn:EF.
  2: { cbn. by split_and!. }
  apply List.find_some in EF as [Hin Hl]. cbn in Hl. apply list_elem_of_In, elem_rangeOver in Hin.
  unfold bind, get, wrapf, lift. cbn [device w_local w_cluster peers port privateKey].
  pose proof (addr_list (device w)) as HA. destruct (AddrList (device w)) as [addrs|e| |] eqn:EA; try done; cbn [fst snd].
  2: { split_and!; try done. intros [(HW & _) _]. destruct (HW (device w)) as [l Hl']. congruence. }
  destruct (existsb _ addrs); [cbn; by split_and!|].
  destruct (PrefixToIPNet (PrefixFrom (InternalAddress node) NodePrefix)) as [ip|e| |] eqn:EP.
  2-4: destruct (Addr_IsValid (InternalAddress node)) eqn:EI;
    [destruct (host_prefix _ EI) as [H1 H2]; by rewrite PrefixToIPNet_ok in EP|].
  2: { split_and!; try done. intros [_ HX]. rewrite (HX name node Hin) in EI; [done|]. by rewrite Hl. }
  2-3: by destruct (InternalAddress node).
  pose proof (addr_add ip (device w)) as HD. cbn. destruct (AddrAdd ip (device w)) as [[[]|e| |] d] eqn:ED; try done; cbn.
  split_and!; try done. intros [(_ & HW & _) _]. destruct (HW ip (device w)) as [d' Hd']. congruence.
Qed.

Lemma peersOf_cluster n cluster :
  parsedCluster cluster -> distinctKeys cluster ->
  match peersOf (map snd (rangeOver n cluster)) with
  | Ok ps => sortFunc byKey ps = sortedPeers cluster
  | Err _ => ~ addressed cluster
  | _ => False
  end.
Proof using OL.
  intros HP HD.
  assert (forall node, node ∈ map snd (rangeOver n cluster) -> exists name, cluster !! name = Some node) as HE.
  { intros node H. apply list_elem_of_fmap in H as ([name v] & -> & H). apply elem_rangeOver in H. by exists name. }
  pose proof (peersOf_spec (map snd (rangeOver n cluster))) as H.
  destruct (peersOf _) as [ps|e| |].
  - rewrite H; [by apply sortedPeers_order|]. intros node [name Hn]%HE. by eapply HP.
  - destruct H as (node & [name Hn]%HE & Hp & Hv); [intros node [name Hn]%HE; by eapply HP|].
    intros HX. rewrite (HX _ _ Hn) in Hv; [done|]. by rewrite Hp, orb_true_r.
  - apply H. intros node [name Hn]%HE. by eapply HP.
  - apply H. intros node [name Hn]%HE. by eapply HP.
Qed.

(** A peer with this key, reached at this address and port, and allowed the ranges of these
    addresses, in this order, whatever their masks. *)
Record sameButMasks (want have : PeerConfig) : Prop := {
  same_key : pc_PublicKey have = pc_PublicKey want;
  same_address : u_IP (Endpoint have) = u_IP (Endpoint want);
  same_port : u_Port (Endpoint have) = u_Port (Endpoint want);
  same_ranges : map n_IP (AllowedIPs have) = map n_IP (AllowedIPs want)
}.

Lemma compareNetIPs_spec a b : EqualFunc compareNetIP a b = true -> map n_IP b = map n_IP a.
Proof.
  revert b. induction a as [|x a IH]; intros [|y b]; try done. cbn. intros [H1 H2]%andb_prop.
  unfold compareNetIP in H1. apply andb_prop in H1 as [H1%bool_decide_eq_true _]. by rewrite H1, (IH b H2).
Qed.

Lemma comparePeers_spec a b : EqualFunc comparePeerConfig a b = true -> Forall2 sameButMasks a b.
Proof.
  revert b. induction a as [|x a IH]; intros [|y b]; try done. cbn. intros [H1 H2]%andb_prop.
  constructor; [|by apply IH]. unfold comparePeerConfig, compareUDPAddr in H1.
  apply andb_prop in H1 as [[H1%String.eqb_eq [H3%bool_decide_eq_true H4%Z.eqb_eq]%andb_prop]%andb_prop H5%compareNetIPs_spec].
  by split.
Qed.

Lemma sortedPeers_sorted cluster :
  sortedPeers cluster ≡ₚ wantedPeers (map snd (map_to_list cluster))
  /\ StronglySorted (fun a b => String.le (pc_PublicKey a) (pc_PublicKey b)) (sortedPeers cluster).
Proof using OL.
  split; [apply sortFunc_all|]. pose proof (sortFunc_sorted byKey (wantedPeers (map snd (map_to_list cluster))) byKey_total byKey_trans) as H.
  fold (sortedPeers cluster) in H. induction H as [|a l _ IH H]; constructor; [done|].
  eapply Forall_impl; [exact H|]. intros b. by rewrite byKey_le.
Qed.

(** C30: Suppose that the service recorded what it last configured the device with, that
    the ranges of the cluster are valid, and that no two nodes to be peers share a key.
    When an update of the cluster or of the local node succeeds, and the key and the port
    of the machine are known, the device has that key and port and exactly the peers of
    the cluster in the order of their keys, whatever the order of the map: each other node
    with a key and an address, with that key, reached at that address and port, and
    allowed its internal address and its ranges, whose masks may however be those of an
    earlier update.  An update fails only if a call on the device fails or a node has no
    internal address. *)
Theorem wireguard_configured (w : Wireguard) :
  deviceInv w -> parsedCluster (w_cluster w) -> distinctKeys (w_cluster w) ->
  match configureWireguard w with
  | (Ok _, w') =>
      deviceInv w'
      /\ (known w = true -> exists c wanted, configOf (device w') = Some c
           /\ cfg_PrivateKey c = le_PrivateKey (w_local w) /\ ListenPort c = le_Port (w_local w)
           /\ wanted ≡ₚ map asPeer (List.filter isPeer (map snd (map_to_list (w_cluster w))))
           /\ StronglySorted (fun a b => String.le (pc_PublicKey a) (pc_PublicKey b)) wanted
           /\ Forall2 sameButMasks wanted (Peers c))
  | (Err _, _) => ~ (deviceWorks /\ addressed (w_cluster w))
  | _ => False
  end.
Proof using OL.
  intros HI HP HD. destruct (sortedPeers_sorted (w_cluster w)) as [W1 W2]. unfold configureWireguard. unfold bind at 1, get at 1. unfold known.
  destruct (_ || _) eqn:EK; [by cbn|]. unfold bind at 1, wrapf at 1.
  pose proof (addWireguardIP_spec w) as HS. destruct (addWireguardIP w) as [o w1].
  destruct HS as (S1 & S2 & S3 & S4 & S5 & S6 & S7). destruct o as [[]|e| |]; try done.
  unfold bind at 1, overCluster at 1. unfold bind at 1, lift.
  pose proof (peersOf_cluster (loops w1) (w_cluster w1)) as HQ. rewrite S2 in HQ |- *. specialize (HQ HP HD).
  destruct (peersOf _) as [ps|e| |]; try done; [|tauto]. rewrite HQ. unfold bind at 1, get at 1.
  cbn [peers port privateKey w_local w_cluster device loops].
  apply orb_false_iff in EK as [EK1 EK2].
  assert (deviceInv w1) as HI1 by (unfold deviceInv; rewrite S3, S4, S5, S6; exact HI).
  destruct (EqualFunc _ _ _ && _ && _) eqn:EE.
  - apply andb_prop in EE as [[EE1 EE2]%andb_prop EE3]. cbn. split; [exact HI1|]. intros _.
    destruct HI1 as [HI1|HI1].
    + rewrite S1 in EE2. apply String.eqb_eq in EE2. rewrite <- EE2, HI1 in EK1. by vm_compute in EK1.
    + eexists _, _. split; [exact HI1|]. cbn. rewrite S1 in EE2, EE3. apply String.eqb_eq in EE2. apply Z.eqb_eq in EE3.
      split; [done|]. split; [done|]. split; [exact W1|]. split; [exact W2|]. by apply comparePeers_spec.
  - unfold bind, put, wrapf. cbn. rewrite S1.
    pose proof (configure_law (mkConfig (le_PrivateKey (w_local w)) (le_Port (w_local w)) (sortedPeers (w_cluster w))) (device w1)) as HC.
    destruct (ConfigureDevice _ _) as [[[]|e| |] d] eqn:EC; try done; cbn.
    + split; [by right|]. intros _. eexists _, _. split; [exact HC|]. cbn.
      split; [done|]. split; [done|]. split; [exact W1|]. split; [exact W2|].
      clear. induction (sortedPeers _); constructor; done.
    + intros [(_ & _ & HW) _]. destruct (HW (mkConfig (le_PrivateKey (w_local w)) (le_Port (w_local w)) (sortedPeers (w_cluster w))) (device w1)).
      congruence.
Qed.

(** Whatever is asked of it about two peers, the comparison does not look at the masks. *)
Lemma masks_ignored a b :
  map n_IP a = map n_IP b -> EqualFunc compareNetIP a b = true.
Proof.
  revert b. induction a as [|x a IH]; intros [|y b]; try done. intros [= H1 H2]. cbn. rewrite IH by done.
  unfold compareNetIP. rewrite H1, bool_decide_eq_true_2 by done. done.
Qed.
End Wireguard.
