(* ===== verification/NetCni.v ===== *)
(** * The container network

    service/net/cni: the bridge of the pods of a machine, the configuration file of the
    container network and the rules of the firewall that netd keeps for the ranges of its
    node.  The bridge, the file and iptables are parameters ([CniEnv]). *)

From stdpp Require Import gmap strings.
From S2P Require Import Prelude Hoare GoMaps NetTypes NetCluster NetRouter.
#[local] Open Scope Z_scope.
#[local] Set Warnings "-clear-no-such-hyp".

(** ** util.go: the configuration *)

Record hostLocalIPAMRange : Type := mkIPAMRange { Subnet : string; Gateway : string }.
Record hostLocalIPAMRoute : Type := mkIPAMRoute { rt_Dst : string }.
Record hostLocalIPAM : Type := mkIPAM {
  ipam_Type : string; Ranges : list (list hostLocalIPAMRange); Routes : list hostLocalIPAMRoute
}.
Record bridgePlugin : Type := mkBridge {
  b_Type : string; Bridge : string; IPAM : hostLocalIPAM; MTU : Z; IsGateway : bool; IPMasq : bool
}.
Record portmapPlugin : Type := mkPortmap { pm_Type : string; Backend : string; PortMappings : bool }.
Inductive plugin : Type :=
| PluginBridge (p : bridgePlugin)
| PluginPortmap (p : portmapPlugin).
Record cniConfigList : Type := mkConfigList { CNIVersion : string; cl_Name : string; Plugins : list plugin }.

Definition OptimalMTU : Z := 1380.

(** A rule: its table, its chain and its specification. *)
Definition rule : Type := string * string * list string.

(** The calls of the service: the addresses of the bridge and its removal, the file,
    iptables; and the texts of addresses and prefixes and the JSON of a configuration. *)
Class CniEnv : Type := {
  BridgeDev : Type;
  bridgeName : string;
  bridgeAddrs : BridgeDev -> outcome (list IP);
  bridgeAdd : IPNet -> BridgeDev -> outcome unit * BridgeDev;
  bridgeDel : BridgeDev -> outcome unit * BridgeDev;
  Disk : Type;
  writeConfig : string -> Disk -> outcome unit * Disk;
  removeConfig : Disk -> outcome unit * Disk;
  Ipt : Type;
  AppendUnique : rule -> Ipt -> outcome unit * Ipt;
  iptDelete : rule -> Ipt -> outcome unit * Ipt;
  AddrString : Addr -> string;
  PrefixString : Prefix -> string;
  MarshalIndent : cniConfigList -> outcome string
}.

Section CNI.
Context {E : CniEnv} {O : GoOrder}.

Definition allRoutes : Prefix := PrefixFrom IPv4Unspecified 0.

Definition cniConfig (device : string) (cidrs : list Prefix) : cniConfigList :=
  mkConfigList "1.1.0" "teapotnet"
    [PluginBridge (mkBridge "bridge" device
       (mkIPAM "host-local"
          (map (fun cidr => [mkIPAMRange (PrefixString cidr) (AddrString (Next (p_Addr cidr)))]) cidrs)
          [mkIPAMRoute (PrefixString allRoutes)])
       OptimalMTU true false);
     PluginPortmap (mkPortmap "portmap" "" true)].

(** ** cni.go *)

Record CNI : Type := mkCNI {
  cn_cluster : ClusterEvent;
  cn_local : LocalEvent;
  localNode : ClusterNode;
  written : string;
  rules : list rule;
  bridge : BridgeDev;
  disk : Disk;
  ipt : Ipt;
  turns : nat
}.

Definition onBridge (f : BridgeDev -> outcome unit * BridgeDev) : Go CNI unit :=
  fun c => let '(o, b) := f (bridge c) in
    (o, mkCNI (cn_cluster c) (cn_local c) (localNode c) (written c) (rules c) b (disk c) (ipt c) (turns c)).
Definition onDisk (f : Disk -> outcome unit * Disk) : Go CNI unit :=
  fun c => let '(o, d) := f (disk c) in
    (o, mkCNI (cn_cluster c) (cn_local c) (localNode c) (written c) (rules c) (bridge c) d (ipt c) (turns c)).
Definition onIpt (f : Ipt -> outcome unit * Ipt) : Go CNI unit :=
  fun c => let '(o, i) := f (ipt c) in
    (o, mkCNI (cn_cluster c) (cn_local c) (localNode c) (written c) (rules c) (bridge c) (disk c) i (turns c)).
Definition setLocalNode (n : ClusterNode) : Go CNI unit :=
  modify (fun c => mkCNI (cn_cluster c) (cn_local c) n (written c) (rules c) (bridge c) (disk c) (ipt c) (turns c)).
Definition setWritten (s : string) : Go CNI unit :=
  modify (fun c => mkCNI (cn_cluster c) (cn_local c) (localNode c) s (rules c) (bridge c) (disk c) (ipt c) (turns c)).
Definition setRules (l : list rule) : Go CNI unit :=
  modify (fun c => mkCNI (cn_cluster c) (cn_local c) (localNode c) (written c) l (bridge c) (disk c) (ipt c) (turns c)).
Definition nextTurn : Go CNI nat :=
  fun c => (Ok (turns c), mkCNI (cn_cluster c) (cn_local c) (localNode c) (written c) (rules c) (bridge c) (disk c) (ipt c) (S (turns c))).

(** The loop over the ranges; it returns at the first whose address is there. *)
Fixpoint addRangeIPs (addrs : list IP) (cidrs : list Prefix) : Go CNI unit :=
  match cidrs with
  | [] => ret tt
  | cidr :: rest =>
      let ip := Next (p_Addr cidr) in
      if existsb (fun a => IP_Equal a (AsSlice ip)) addrs then ret tt
      else
        nip <-- wrapf "error while computing bridge IP for CIDR %q: %w" []
                  (lift (PrefixToIPNet (PrefixFrom ip (Bits cidr)))) ;;
        wrapf "error while adding bridge IP for CIDR %q: %w" [] (onBridge (bridgeAdd nip)) ;;;
        addRangeIPs addrs rest
  end.

Definition addCNIIP : Go CNI unit :=
  c <-- get ;;
  addrs <-- wrapf "error while listing addresses for the CNI interface: %w" [] (lift (bridgeAddrs (bridge c))) ;;
  addRangeIPs addrs (CIDRs (localNode c)).

Definition writeCNIConfig : Go CNI unit :=
  c <-- get ;;
  rawConfig <-- wrapf "error while marshaling CNI config: %w" []
                  (lift (MarshalIndent (cniConfig bridgeName (CIDRs (localNode c))))) ;;
  if (rawConfig =? written c)%string then ret tt
  else
    wrapf "error while writing CNI config at %q: %w" [] (onDisk (writeConfig rawConfig)) ;;;
    setWritten rawConfig.

Definition rulesOfRange (cidr : Prefix) : list rule :=
  let s := PrefixString cidr in
  [("filter", "FORWARD", ["-s"; s; "-j"; "ACCEPT"]);
   ("filter", "FORWARD", ["-d"; s; "-j"; "ACCEPT"]);
   ("nat", "POSTROUTING", ["-s"; s; "!"; "-d"; s; "-j"; "MASQUERADE"])]%string.

Definition addCNIRules : Go CNI unit :=
  c <-- get ;;
  let rules := flat_map rulesOfRange (CIDRs (localNode c)) in
  forEach rules tt (fun _ r =>
    wrapf "error while adding iptables rule %q: %w" [] (onIpt (AppendUnique r))) ;;;
  setRules rules.

Definition configureCNI : Go CNI unit :=
  c <-- get ;;
  if (le_Node (cn_local c) =? "")%string then ret tt
  else
    n <-- nextTurn ;;
    match List.find (fun p => IsLocal p.2) (rangeOver n (cn_cluster c)) with
    | None => ret tt
    | Some (_, node) =>
        setLocalNode node ;;;
        wrapf "error while adding IPs to the CNI interface: %w" [] addCNIIP ;;;
        wrapf "error while writing CNI configuration: %w" [] writeCNIConfig ;;;
        wrapf "error while adding CNI iptables rules: %w" [] addCNIRules
    end.

Definition cleanupCNIFile : Go CNI unit :=
  c <-- get ;;
  if (0 <? String.length (written c))%nat
  then wrapf "error while removing CNI configuration: %w" [] (onDisk removeConfig)
  else ret tt.

Definition cleanupIptables : Go CNI unit :=
  c <-- get ;;
  forEach (rules c) tt (fun _ r =>
    wrapf "error while removing stale iptables rule %q: %w" [] (onIpt (iptDelete r))).

Inductive cniUpdate : Type :=
| CniCluster (c : ClusterEvent)
| CniLocal (l : LocalEvent).

Definition receive (u : cniUpdate) : Go CNI unit :=
  modify (fun c => match u with
    | CniCluster x => mkCNI x (cn_local c) (localNode c) (written c) (rules c) (bridge c) (disk c) (ipt c) (turns c)
    | CniLocal l => mkCNI (cn_cluster c) l (localNode c) (written c) (rules c) (bridge c) (disk c) (ipt c) (turns c)
    end) ;;;
  wrapf "error while configuring wireguard interface: %w" [] configureCNI.

(** [CNI.Run] over what it receives before its context ends; the last deferred runs
    first. *)
Definition CNI_Run (updates : list cniUpdate) : Go CNI unit :=
  deferred
    (deferred
       (deferred (forEach updates tt (fun _ u => receive u))
          cleanupCNIFile "error while cleaning up CNI file: %w")
       (onBridge bridgeDel) "error while deleting interface %q: %w")
    cleanupIptables "error while cleaning up iptables: %w".

Definition noNode : ClusterNode := mkClusterNode NoAddr None (mkAddrPort NoAddr 0) [] false.
Definition noLocal : LocalEvent := mkLocalEvent NoAddr "" 0 "".
Definition NewCNI (b : BridgeDev) (d : Disk) (i : Ipt) : CNI := mkCNI ∅ noLocal noNode "" [] b d i 0.

(** ** What is relied on *)

Class CniLaws : Type := {
  contentOf : Disk -> option string;
  rulesIn : Ipt -> gset rule;
  bridgeAddrs_law b : match bridgeAddrs b with Ok _ | Err _ => True | _ => False end;
  bridgeAdd_law n b : match bridgeAdd n b with (Ok _, _) | (Err _, _) => True | _ => False end;
  bridgeDel_law b : match bridgeDel b with (Ok _, _) | (Err _, _) => True | _ => False end;
  marshal_law c : match MarshalIndent c with Ok _ | Err _ => True | _ => False end;
  write_law s d : match writeConfig s d with
    | (Ok _, d') => contentOf d' = Some s | (Err _, _) => True | _ => False end;
  remove_law d : match removeConfig d with
    | (Ok _, d') => contentOf d' = None | (Err _, _) => True | _ => False end;
  append_law r i : match AppendUnique r i with
    | (Ok _, i') => rulesIn i' = {[r]} ∪ rulesIn i | (Err _, i') => rulesIn i' = rulesIn i | _ => False end;
  delete_law r i : match iptDelete r i with
    | (Ok _, i') => rulesIn i' = rulesIn i ∖ {[r]} | (Err _, i') => rulesIn i' = rulesIn i | _ => False end
}.

Context {L : CniLaws}.

(** All but the bridge as before. *)
Definition sameBut (c0 c : CNI) : Prop :=
  cn_cluster c = cn_cluster c0 /\ cn_local c = cn_local c0 /\ localNode c = localNode c0
  /\ written c = written c0 /\ rules c = rules c0 /\ disk c = disk c0 /\ ipt c = ipt c0.

Lemma addCNIIP_same c0 : steps (sameBut c0) addCNIIP (fun _ => True).
Proof using L.
  unfold addCNIIP. apply (steps_bind _ _ _ (fun _ => True)); [by intros w Hw|]. intros c _.
  apply (steps_bind _ _ _ (fun _ => True)).
  { apply steps_wrapf, steps_lift. pose proof (bridgeAddrs_law (bridge c)). by destruct (bridgeAddrs (bridge c)). }
  intros addrs _. induction (CIDRs (localNode c)) as [|cidr l IH]; cbn [addRangeIPs]; [by apply steps_ret|].
  destruct (existsb _ addrs); [by apply steps_ret|].
  apply (steps_bind _ _ _ (fun _ => True)).
  { apply steps_wrapf, steps_lift. unfold PrefixToIPNet. by repeat case_match. }
  intros nip _. apply (steps_bind _ _ _ (fun _ => True)); [|done]. apply steps_wrapf.
  intros w Hw. unfold onBridge. pose proof (bridgeAdd_law nip (bridge w)) as H.
  by destruct (bridgeAdd nip (bridge w)) as [[] b].
Qed.

(** The file has what was written, if something was. *)
Definition fileInv (c : CNI) : Prop := written c = "" \/ contentOf (disk c) = Some (written c).

Lemma writeCNIConfig_spec c :
  fileInv c ->
  let '(o, c') := writeCNIConfig c in
  cn_cluster c' = cn_cluster c /\ cn_local c' = cn_local c /\ localNode c' = localNode c
  /\ rules c' = rules c /\ ipt c' = ipt c
  /\ match o with
     | Ok _ => fileInv c' /\ exists json, MarshalIndent (cniConfig bridgeName (CIDRs (localNode c))) = Ok json
                /\ written c' = json
     | Err _ => True
     | _ => False
     end.
Proof using L.
  intros HF. unfold writeCNIConfig, bind, get, wrapf, lift.
  pose proof (marshal_law (cniConfig bridgeName (CIDRs (localNode c)))) as HM.
  destruct (MarshalIndent _) as [json|e| |]; try done.
  destruct (String.eqb_spec json (written c)) as [->|Hn]; cbn.
  - split_and!; try done. by eexists.
  - unfold onDisk. pose proof (write_law json (disk c)) as HW.
    destruct (writeConfig json (disk c)) as [[[]|e| |] d]; try done; cbn; split_and!; try done; [by right|by eexists].
Qed.

Lemma appends_spec l c :
  let '(o, c') := forEach l tt (fun _ r => wrapf "error while adding iptables rule %q: %w" [] (onIpt (AppendUnique r))) c in
  cn_cluster c' = cn_cluster c /\ cn_local c' = cn_local c /\ localNode c' = localNode c
  /\ written c' = written c /\ disk c' = disk c /\ rules c' = rules c
  /\ rulesIn (ipt c) ⊆ rulesIn (ipt c') ⊆ rulesIn (ipt c) ∪ list_to_set l
  /\ match o with Ok _ => list_to_set l ⊆ rulesIn (ipt c') | Err _ => True | _ => False end.
Proof using L.
  revert c. induction l as [|r l IH]; intros c; cbn [forEach].
  - cbn. split_and!; try done; set_solver.
  - unfold bind, wrapf at 1, onIpt at 1. pose proof (append_law r (ipt c)) as HA.
    destruct (AppendUnique r (ipt c)) as [[[]|e| |] i]; try done; cbn.
    + specialize (IH (mkCNI (cn_cluster c) (cn_local c) (localNode c) (written c) (rules c) (bridge c) (disk c) i (turns c))).
      destruct (forEach l _ _ _) as [o c']. cbn in IH. destruct IH as (-> & -> & -> & -> & -> & -> & [H1 H2] & H3).
      split_and!; try done; [set_solver|set_solver|]. destruct o; set_solver.
    + split_and!; try done; set_solver.
Qed.

Lemma deletes_spec l c :
  let '(o, c') := forEach l tt (fun _ r => wrapf "error while removing stale iptables rule %q: %w" [] (onIpt (iptDelete r))) c in
  rulesIn (ipt c) ∖ list_to_set l ⊆ rulesIn (ipt c') ⊆ rulesIn (ipt c) /\ written c' = written c /\ disk c' = disk c
  /\ match o with Ok _ => rulesIn (ipt c') = rulesIn (ipt c) ∖ list_to_set l | Err _ => True | _ => False end.
Proof using L.
  revert c. induction l as [|r l IH]; intros c; cbn [forEach].
  - cbn. split_and!; try done; set_solver.
  - unfold bind, wrapf at 1, onIpt at 1. pose proof (delete_law r (ipt c)) as HA.
    destruct (iptDelete r (ipt c)) as [[[]|e| |] i]; try done; cbn.
    + specialize (IH (mkCNI (cn_cluster c) (cn_local c) (localNode c) (written c) (rules c) (bridge c) (disk c) i (turns c))).
      destruct (forEach l _ _ _) as [o c']. cbn in IH. destruct IH as ([H1 H2] & -> & -> & H3).
      split_and!; try done; [set_solver|set_solver|]. destruct o; set_solver.
    + rewrite HA. split_and!; try done; set_solver.
Qed.

(** The first two cleanups leave the rules. *)
Lemma cleanups_file c :
  let '(o, c') := cleanupCNIFile c in
  ipt c' = ipt c /\ rules c' = rules c /\ written c' = written c
  /\ match o with Ok _ => written c = "" \/ contentOf (disk c') = None | Err _ => True | _ => False end.
Proof using L.
  unfold cleanupCNIFile, bind, get, wrapf, onDisk. destruct (written c) as [|a s] eqn:EW; cbn.
  - split_and!; auto.
  - pose proof (remove_law (disk c)) as H. destruct (removeConfig (disk c)) as [[[]|e| |] d]; try done; cbn; split_and!; auto.
Qed.

Lemma cleanups_bridge c :
  let '(o, c') := onBridge bridgeDel c in
  ipt c' = ipt c /\ rules c' = rules c /\ written c' = written c /\ disk c' = disk c
  /\ match o with Ok _ | Err _ => True | _ => False end.
Proof using L.
  unfold onBridge. pose proof (bridgeDel_law (bridge c)) as H. by destruct (bridgeDel (bridge c)) as [[[]|e| |] b].
Qed.

Context {OL : GoOrderLaws O}.

Definition localIn (cluster : ClusterEvent) (node : ClusterNode) : Prop :=
  exists name, cluster !! name = Some node /\ IsLocal node = true.

(** One configuration: it does nothing before the local node is known; then the rules of
    its ranges are in the table and recorded, and the file has its configuration.  No
    rule is removed: those of the ranges that the node had before stay, although they are
    not recorded any more. *)
Lemma configureCNI_spec c :
  fileInv c ->
  let '(o, c') := configureCNI c in
  cn_cluster c' = cn_cluster c /\ cn_local c' = cn_local c
  /\ (rules c' = rules c /\ ipt c' = ipt c \/
      exists node, localIn (cn_cluster c) node /\ (rules c' = rules c \/ rules c' = flat_map rulesOfRange (CIDRs node))
        /\ rulesIn (ipt c) ⊆ rulesIn (ipt c') ⊆ rulesIn (ipt c) ∪ list_to_set (flat_map rulesOfRange (CIDRs node)))
  /\ match o with
     | Ok _ => fileInv c' /\
         ((rules c' = rules c /\ ipt c' = ipt c
           /\ (le_Node (cn_local c) = "" \/ forall node, ~ localIn (cn_cluster c) node))
          \/ exists node, localIn (cn_cluster c) node /\ rules c' = flat_map rulesOfRange (CIDRs node)
              /\ list_to_set (rules c') ⊆ rulesIn (ipt c')
              /\ MarshalIndent (cniConfig bridgeName (CIDRs node)) = Ok (written c'))
     | Err _ => True
     | _ => False
     end.
Proof using L OL.
  intros HF. unfold configureCNI. unfold bind at 1, get.
  destruct (String.eqb_spec (le_Node (cn_local c)) "") as [Hn|Hn]; [cbn; split_and!; auto|].
  unfold bind at 1, nextTurn. destruct (List.find _ _) as [[name node]|] eqn:EF.
  2: { cbn. split_and!; auto. left. split_and!; try done. right. intros node (name & Hin & Hl).
       pose proof (List.find_none _ _ EF (name, node)) as HX. cbn in HX. rewrite HX in Hl; [done|].
       by apply list_elem_of_In, elem_rangeOver. }
  apply List.find_some in EF as [Hin Hl]. cbn in Hl. apply list_elem_of_In, elem_rangeOver in Hin.
  assert (localIn (cn_cluster c) node) as HL by (by exists name).
  unfold bind at 1, setLocalNode, modify. cbn [cn_cluster cn_local localNode written rules bridge disk ipt turns].
  set (c1 := mkCNI _ _ _ _ _ _ _ _ _).
  unfold bind at 1, wrapf at 1. pose proof (addCNIIP_same c1 c1 ltac:(by split_and!)) as H1.
  destruct (addCNIIP c1) as [[[]|e| |] c2]; try done; cbn.
  2: { destruct H1 as (-> & -> & _ & _ & -> & _ & ->). split_and!; auto. }
  destruct H1 as [(S1 & S2 & S3 & S4 & S5 & S6 & S7) _].
  unfold bind at 1, wrapf at 1. pose proof (writeCNIConfig_spec c2) as H2.
  assert (fileInv c2) as HF2 by (unfold fileInv; rewrite S4, S6; exact HF). specialize (H2 HF2).
  destruct (writeCNIConfig c2) as [[[]|e| |] c3]; cbn in H2 |- *; destruct H2 as (W1 & W2 & W3 & W4 & W5 & W6); try done.
  2: { rewrite W1, W2, W4, W5, S1, S2, S5, S7. split_and!; auto. }
  destruct W6 as (W6 & json & W7 & W8). rewrite S3 in W7. cbn in W7.
  unfold wrapf at 1, addCNIRules, bind, get. rewrite W3, S3. cbn [localNode c1].
  pose proof (appends_spec (flat_map rulesOfRange (CIDRs node)) c3) as H3.
  destruct (forEach _ _ _ c3) as [[[]|e| |] c4]; destruct H3 as (A1 & A2 & A3 & A4 & A5 & A6 & A7 & A8); try done.
  all: rewrite W5, S7 in A7; cbn [ipt c1] in A7; unfold setRules, modify; cbn [cn_cluster cn_local rules ipt written disk].
  - rewrite A1, A2, W1, W2, S1, S2. split_and!; try done.
    + right. exists node. split_and!; auto; apply A7.
    + unfold fileInv. cbn. rewrite A4, A5. exact W6.
    + right. exists node. split_and!; try done. by rewrite A4, W8.
  - rewrite A1, A2, A6, W1, W2, W4, S1, S2, S5. split_and!; try done.
    right. exists node. split_and!; auto; apply A7.
Qed.

Section Steady.
(** The rules of others, and the ranges that the local node has whenever it is heard of. *)
Context (F : gset rule) (cs : list Prefix).
Definition ours : list rule := flat_map rulesOfRange cs.
Context (HF : F ## list_to_set ours).

Definition steadyIn (cluster : ClusterEvent) : Prop := forall node, localIn cluster node -> CIDRs node = cs.

Definition steadyInv (c : CNI) : Prop :=
  steadyIn (cn_cluster c) /\ fileInv c
  /\ (rules c = [] /\ rulesIn (ipt c) = F \/ rules c = ours /\ rulesIn (ipt c) = F ∪ list_to_set ours).

(** What is left after a failure. *)
Definition failedInv (c : CNI) : Prop :=
  F ⊆ rulesIn (ipt c) ⊆ F ∪ list_to_set ours /\ (rules c = [] \/ rules c = ours).

Lemma steady_failed c : steadyInv c -> failedInv c.
Proof using L OL HF. intros (_ & _ & [[H1 H2]|[H1 H2]]); unfold failedInv; rewrite H2; (split; [set_solver|auto]). Qed.

Lemma configureCNI_steady c :
  steadyInv c ->
  match configureCNI c with
  | (Ok _, c') => steadyInv c'
  | (Err _, c') => failedInv c'
  | _ => False
  end.
Proof using L OL HF.
  intros HI. pose proof (steady_failed c HI) as HW. destruct HI as (HS & HFI & HR).
  pose proof (configureCNI_spec c HFI) as H. destruct (configureCNI c) as [o c'].
  destruct H as (H1 & H2 & H3 & H4). destruct o as [[]|e| |]; try done.
  - destruct H4 as [H4 H5]. split; [by rewrite H1|]. split; [done|].
    destruct H5 as [(-> & -> & _)|(node & Hn & H6 & H7 & _)]; [done|].
    rewrite (HS node Hn) in H6. right. split; [done|]. fold ours in H6.
    assert (F ⊆ rulesIn (ipt c') ⊆ F ∪ list_to_set ours) as [H8 H9].
    { destruct H3 as [[E1 E2]|(n2 & Hn2 & _ & H3)].
      - rewrite E2. destruct HW as [HW _]. exact HW.
      - rewrite (HS n2 Hn2) in H3. fold ours in H3. destruct HW as [HW _]. clear -H3 HW. set_solver. }
    rewrite H6 in H7. clear -H7 H8 H9. set_solver.
  - destruct HW as [HW1 HW2]. unfold failedInv. destruct H3 as [[-> ->]|(n2 & Hn2 & H3 & H5)]; [done|].
    rewrite (HS n2 Hn2) in H3, H5. fold ours in H3, H5. split; [|by destruct H3 as [->| ->]; auto].
    destruct H5 as [H5 H6], HW1 as [HW1 HW1b]. split; [by etrans|]. etrans; [exact H6|]. apply union_least; [exact HW1b|apply union_subseteq_r].
Qed.

Lemma rounds_steady updates c :
  steadyInv c -> (forall x, CniCluster x ∈ updates -> steadyIn x) ->
  match forEach updates tt (fun _ u => receive u) c with
  | (Ok _, c') => steadyInv c'
  | (Err _, c') => failedInv c'
  | _ => False
  end.
Proof using L OL HF.
  revert c. induction updates as [|u l IH]; intros c HI HS; cbn [forEach]; [done|].
  unfold bind at 1, receive at 1. unfold bind at 1, modify at 1, wrapf at 1.
  match goal with |- context [configureCNI ?x] => set (c1 := x) end.
  assert (steadyInv c1) as H1.
  { destruct HI as (I1 & I2 & I3). unfold c1. destruct u as [x|ev]; (split; [|split; [exact I2|exact I3]]); cbn; [|done].
    apply HS. by left. }
  pose proof (configureCNI_steady c1 H1) as HC. destruct (configureCNI c1) as [[[]|e| |] c2]; try done.
  apply IH; [done|]. intros x Hx. apply HS. by right.
Qed.

End Steady.

(** As long as the local node keeps its ranges, and the rules that are in the table before are
    not among theirs: a service that ends without an error leaves the table as it was and
    no configuration file; one that fails leaves the rules of others, and beside them only
    rules of those ranges. *)
Theorem cni_cleans_up (updates : list cniUpdate) (cs : list Prefix) (b : BridgeDev) (d : Disk) (i : Ipt) :
  rulesIn i ## list_to_set (flat_map rulesOfRange cs) ->
  (forall x node, CniCluster x ∈ updates -> localIn x node -> CIDRs node = cs) ->
  match CNI_Run updates (NewCNI b d i) with
  | (Ok _, c) => rulesIn (ipt c) = rulesIn i /\ (written c = "" \/ contentOf (disk c) = None)
  | (Err _, c) => rulesIn i ⊆ rulesIn (ipt c) ⊆ rulesIn i ∪ list_to_set (flat_map rulesOfRange cs)
  | _ => False
  end.
Proof using L OL.
  intros HD HU. assert (steadyInv (rulesIn i) cs (NewCNI b d i)) as H0.
  { split; [|split; [by left|by left]]. intros node (name & Hn & _). cbn in Hn. by rewrite lookup_empty in Hn. }
  pose proof (rounds_steady (rulesIn i) cs HD updates _ H0) as HR.
  assert (forall x, CniCluster x ∈ updates -> steadyIn cs x) as HS by (intros x Hx node Hn; by eapply HU).
  specialize (HR HS). unfold CNI_Run, deferred.
  destruct (forEach updates _ _ _) as [o1 c1].
  pose proof (cleanups_file c1) as H2. destruct (cleanupCNIFile c1) as [o2 c2]. destruct H2 as (A1 & A2 & A3 & A4).
  pose proof (cleanups_bridge c2) as H3. destruct (onBridge bridgeDel c2) as [o3 c3]. destruct H3 as (B1 & B2 & B3 & B4 & B5).
  pose proof (deletes_spec (rules c3) c3) as H4. unfold cleanupIptables, bind, get.
  destruct (forEach (rules c3) _ _ c3) as [o4 c4]. destruct H4 as ([D1 D2] & D3 & D4 & D5).
  rewrite B1, A1, B2, A2 in *. fold (ours cs) in *.
  assert (match o1 with Ok _ | Err _ => failedInv (rulesIn i) cs c1 | _ => False end) as HW.
  { destruct o1; try done. by apply steady_failed. }
  assert (match o1 with Ok _ | Err _ => rulesIn i ⊆ rulesIn (ipt c4) ⊆ rulesIn i ∪ list_to_set (ours cs) | _ => False end) as HE.
  { destruct o1; try done; destruct HW as [[W1 W2] [W3|W3]]; rewrite W3 in D1; set_solver. }
  destruct o1 as [[]|e1| |]; try done.
  2: { destruct o2, o3, o4; done. }
  destruct o2 as [[]|e2| |]; try done.
  2: { destruct o3, o4; done. }
  destruct o3 as [[]|e3| |]; try done.
  2: { destruct o4; done. }
  destruct o4 as [[]|e4| |]; try done.
  split.
  - rewrite D5. destruct HR as (_ & _ & [[-> ->]|[-> ->]]); clear -HD; unfold ours; set_solver.
  - rewrite D3, B3, A3, D4, B4. exact A4.
Qed.
End CNI.
