(* ===== verification/NetExamples.v ===== *)
(** * Examples of the network service

    A kernel, a device, a firewall and a file that keep their promises, on which the
    theorems of the network components are applied, and the cases in which the code does
    not do what it means to. *)

From stdpp Require Import gmap strings pretty.
From S2P Require Import Prelude Kube GoMaps NetTypes NetCluster NetRouter NetWireguard NetCni.
#[local] Open Scope Z_scope.
#[local] Set Warnings "-clear-no-such-hyp".

(** ** Two other nodes and a range *)

Definition addrB : Addr := IPv4 167772162.
Definition addrC : Addr := IPv4 167772163.
Definition rangeB : Prefix := mkPrefix (IPv4 167837952) 24.
Definition widerB : Prefix := mkPrefix (IPv4 167837952) 16.
Definition keyB : Key := "key of b".
Definition aNode (local : bool) (a : Addr) (key : Key) (cidrs : list Prefix) : ClusterNode :=
  mkClusterNode a (Some key) (mkAddrPort a 51692) cidrs local.

Definition clusterB : ClusterEvent := {["b" := aNode false addrB keyB [rangeB]]}.
(** The range goes from b to c. *)
Definition clusterC : ClusterEvent :=
  {["b" := aNode false addrB keyB []; "c" := aNode false addrC "key of c" [rangeB]]}.

(** ** A kernel *)

Definition tableAdd (r : nlRoute) (k : list nlRoute) : outcome unit * list nlRoute :=
  if existsb (fun x => bool_decide (Dst x = Dst r)) k then (Err (PlainError ErrExist), k)
  else if match Gw r with
          | None => true
          | Some gw => existsb (fun x => bool_decide (n_IP (Dst x) = gw /\ Gw x = None)) k
          end
  then (Ok tt, r :: k) else (Err (PlainError "network is unreachable"), k).

Definition tableDel (r : nlRoute) (k : list nlRoute) : outcome unit * list nlRoute :=
  if bool_decide (r ∈ k) then (Ok tt, List.filter (fun x => bool_decide (x <> r)) k)
  else (Err (PlainError "no such process"), k).

#[export] Instance tableKernel : Netlink := {|
  Kernel := list nlRoute; RouteAdd := tableAdd; RouteDel := tableDel; routesOf := list_to_set
|}.

#[export] Instance tableKernel_laws : NetlinkLaws tableKernel.
Proof.
  split; intros r k; cbn [RouteAdd RouteDel routesOf tableKernel].
  - unfold tableAdd. destruct (existsb _ k) eqn:EX.
    + split; [done|]. intros _. apply List.existsb_exists in EX as (x & Hx & Hd). exists x.
      rewrite bool_decide_eq_true in Hd. split; [|done]. by apply elem_of_list_to_set, list_elem_of_In.
    + destruct (match Gw r with None => _ | Some _ => _ end); [done|]. by split.
  - unfold tableDel. case_bool_decide; [|done]. apply set_eq. intros x.
    rewrite elem_of_difference, !elem_of_list_to_set, !list_elem_of_In, List.filter_In, bool_decide_eq_true.
    by rewrite not_elem_of_singleton.
Qed.

#[export] Instance tableKernel_reliable : NetlinkReliable tableKernel.
Proof.
  split; intros r k; cbn [RouteAdd RouteDel routesOf tableKernel].
  - intros Hd Hg. unfold tableAdd. destruct (existsb _ k) eqn:EX.
    { apply List.existsb_exists in EX as (x & Hx & Hd'). rewrite bool_decide_eq_true in Hd'.
      destruct (Hd x); [|done]. by apply elem_of_list_to_set, list_elem_of_In. }
    destruct (Gw r) as [gw|]; [|by eexists]. destruct (Hg gw eq_refl) as [bits Hb].
    apply elem_of_list_to_set, list_elem_of_In in Hb.
    destruct (existsb (fun x => bool_decide (n_IP (Dst x) = gw /\ Gw x = None)) k) eqn:EG; [by eexists|].
    assert (existsb (fun x => bool_decide (n_IP (Dst x) = gw /\ Gw x = None)) k = true); [|congruence].
    apply List.existsb_exists. eexists. split; [exact Hb|]. by apply bool_decide_eq_true.
  - intros Hr%elem_of_list_to_set. unfold tableDel. rewrite bool_decide_eq_true_2 by done. by eexists.
Qed.

Definition emptyRouter : Router := @mkRouter tableKernel ∅ [] 0.

Definition routesB : list route := [mkRoute IPv4Unspecified (mkPrefix addrB 32); mkRoute addrB rangeB].

Lemma routesB_wanted : wanted clusterB ⊆ list_to_set routesB.
Proof.
  intros r (name & node & Hn & _ & _ & Hr)%wanted_elem. unfold clusterB in Hn.
  apply lookup_singleton_Some in Hn as [<- <-]. apply elem_of_list_to_set.
  destruct Hr as [->|(cidr & Hin & ->)]; [by left|]. cbn in Hin. apply list_elem_of_singleton in Hin as ->. right. by left.
Qed.

Lemma routesB_apart : apart (routesOf (kernel emptyRouter)) (list_to_set routesB).
Proof.
  split; [|split].
  - intros r Hr. apply elem_of_list_to_set in Hr. unfold routesB in Hr. rewrite !elem_of_cons in Hr.
    destruct Hr as [->|[->|[]%not_elem_of_nil]]; (split_and!; [|done..]); (split; [done|]); right; (split; [done|cbn; lia]).
  - intros r r' Hr Hr'. apply elem_of_list_to_set in Hr, Hr'. unfold routesB in *. rewrite !elem_of_cons in Hr, Hr'.
    destruct Hr as [->|[->|[]%not_elem_of_nil]], Hr' as [->|[->|[]%not_elem_of_nil]]; done.
  - intros r x _ Hx. cbn in Hx. by apply elem_of_empty in Hx.
Qed.

Lemma emptyRouter_inv F D : F = routesOf (kernel emptyRouter) -> tableInv F D emptyRouter.
Proof. intros ->. split; [apply empty_subseteq|done]. Qed.

Lemma routes_configured_witness :
  match configureRoutes (O := stdOrder) clusterB emptyRouter with
  | (Ok _, w) => routes w = wanted clusterB
  | (Err _, _) => False
  | _ => False
  end.
Proof.
  pose proof (routes_configured (O := stdOrder) _ _ routesB_apart clusterB emptyRouter (emptyRouter_inv _ _ eq_refl) routesB_wanted) as H.
  destruct (configureRoutes clusterB emptyRouter) as [[u|e|m|] w].
  - exact (proj1 H).
  - exact (proj2 H _).
  - exact H.
  - exact H.
Defined.

Lemma router_leaves_nothing_witness :
  match Router_Run (O := stdOrder) [clusterB; clusterB] emptyRouter with
  | (Ok _, w) => routesOf (kernel w) = ∅
  | _ => False
  end.
Proof.
  pose proof (router_leaves_nothing (O := stdOrder) [clusterB; clusterB] [] _ routesB_apart) as H.
  assert (forall c, c ∈ [clusterB; clusterB] -> wanted c ⊆ list_to_set routesB) as HW.
  { intros c Hc. rewrite !elem_of_cons in Hc. destruct Hc as [->|[->|[]%not_elem_of_nil]]; apply routesB_wanted. }
  specialize (H HW). unfold emptyRouter. destruct (Router_Run _ _) as [[u|e|m|] w].
  - exact H.
  - exact (proj2 H _).
  - exact H.
  - exact H.
Defined.

Definition dstRange : IPNet := mkIPNet (AsSlice (p_Addr rangeB)) (CIDRMask 24 32).

(** When a range goes from one node to another the new route is not added, since the old
    one is still there, and then the old one is deleted: no route to the range is left,
    although the router has it recorded. *)
Example moved_range_lost :
  let w1 := (configureRoutes (O := stdOrder) clusterB emptyRouter).2 in
  let '(o, w2) := configureRoutes (O := stdOrder) clusterC w1 in
  existsb (fun r => bool_decide (Dst r = dstRange)) (kernel w1) = true
  /\ o = Ok tt /\ mkRoute addrC rangeB ∈ routes w2
  /\ existsb (fun r => bool_decide (Dst r = dstRange)) (kernel w2) = false.
Proof. vm_compute. split; [done|]. split; [done|]. split; [|done]. by eapply bool_decide_unpack. Qed.

(** ** A device *)

#[export] Instance sampleDevice : WgDevice := {|
  Device := list IP * option Config;
  AddrList := fun d => Ok d.1;
  AddrAdd := fun n d => (Ok tt, (n_IP n :: d.1, d.2));
  ConfigureDevice := fun c d => (Ok tt, (d.1, Some c));
  deleteInterface := fun d => (Ok tt, ([], None));
  clientClose := fun d => (Ok tt, d)
|}.

#[export] Instance sampleDevice_laws : WgDeviceLaws := {|
  configOf := fun d : Device => d.2;
  addr_list := fun d => I;
  addr_add := fun ip d => eq_refl;
  configure_law := fun c d => eq_refl
|}.

Definition localA : LocalEvent := mkLocalEvent (IPv4 1) "a" 51692 "private key of a".
Definition freshWg (c : ClusterEvent) (l : LocalEvent) : Wireguard :=
  @mkWireguard sampleDevice l c [] 0 DefaultPrivateKey ([], None) 0.

Lemma clusterB_lookup name node : clusterB !! name = Some node -> name = "b" /\ node = aNode false addrB keyB [rangeB].
Proof. unfold clusterB. by intros [<- <-]%lookup_singleton_Some. Qed.

Lemma clusterB_parsed : parsedCluster clusterB.
Proof.
  intros name node [-> ->]%clusterB_lookup cidr Hc. cbn in Hc. apply list_elem_of_singleton in Hc as ->.
  split; [|done]. split; [done|]. right. split; [done|]. cbn. lia.
Qed.

Lemma clusterB_distinct : distinctKeys clusterB.
Proof. by intros n1 n2 v1 v2 [-> _]%clusterB_lookup [-> _]%clusterB_lookup. Qed.

Lemma wireguard_configured_witness :
  match configureWireguard (O := stdOrder) (freshWg clusterB localA) with
  | (Ok _, w) => exists c, configOf (device w) = Some c /\ ListenPort c = 51692
  | _ => False
  end.
Proof.
  pose proof (wireguard_configured (O := stdOrder) (freshWg clusterB localA) (or_introl eq_refl) clusterB_parsed clusterB_distinct) as H.
  destruct (configureWireguard (freshWg clusterB localA)) as [[u|e|m|] w].
  - destruct H as [_ H]. destruct (H eq_refl) as (c & wanted & H1 & _ & H2 & _). exists c. split; [exact H1|exact H2].
  - apply H. split.
    + split; [intros d; eexists; reflexivity|]. split; intros; eexists; reflexivity.
    + intros name node Hn _. apply clusterB_lookup in Hn as [_ ->]. reflexivity.
  - exact H.
  - exact H.
Defined.

(** When only the length of a range changes the device keeps the old one. *)
Example mask_change_lost :
  let w1 := (configureWireguard (O := stdOrder) (freshWg clusterB localA)).2 in
  let w2 := (onUpdate (O := stdOrder) (OnCluster {["b" := aNode false addrB keyB [widerB]]}) w1).2 in
  (device w2).2 = (device w1).2
  /\ (device w1).2 = Some (mkConfig "private key of a" 51692
       [mkPeerConfig keyB (mkUDPAddr (AsSlice addrB) 51692 "") [mkIPNet (AsSlice addrB) (CIDRMask 32 32); dstRange]]).
Proof. vm_compute. by split. Qed.

(** A node with a key that has no internal address ends the service. *)
Example unaddressed_node_stops :
  exists e, (configureWireguard (O := stdOrder)
    (freshWg {["b" := mkClusterNode NoAddr (Some keyB) (mkAddrPort addrB 51692) [] false]} localA)).1 = Err e.
Proof. vm_compute. by eexists. Qed.

(** ** A bridge, a file and a firewall *)

Definition addrText (a : Addr) : string := match a with IPv4 z => pretty z | IPv6 z s => pretty z +:+ "%" +:+ s | NoAddr => "" end.
Definition prefixText (p : Prefix) : string := addrText (p_Addr p) +:+ "/" +:+ pretty (Bits p).

#[export] Instance sampleCni : CniEnv := {|
  BridgeDev := list IP;
  bridgeName := "cni0";
  bridgeAddrs := fun b => Ok b;
  bridgeAdd := fun n b => (Ok tt, n_IP n :: b);
  bridgeDel := fun b => (Ok tt, []);
  Disk := option string;
  writeConfig := fun s d => (Ok tt, Some s);
  removeConfig := fun d => (Ok tt, None);
  Ipt := gset rule;
  AppendUnique := fun r i => (Ok tt, {[r]} ∪ i);
  iptDelete := fun r i => (Ok tt, i ∖ {[r]});
  AddrString := addrText;
  PrefixString := prefixText;
  MarshalIndent := fun c => Ok (cl_Name c)
|}.

#[export] Instance sampleCni_laws : CniLaws.
Proof.
  refine {| contentOf := fun d : Disk => d; rulesIn := fun i : Ipt => i |}; intros; exact I || exact eq_refl.
Defined.

Definition meB (cidrs : list Prefix) : ClusterEvent := {["b" := aNode true addrB keyB cidrs]}.
Definition localB : LocalEvent := mkLocalEvent addrB "b" 51692 "private key of b".

Lemma cni_cleans_up_witness :
  match CNI_Run (O := stdOrder) [CniLocal localB; CniCluster (meB [rangeB])] (@NewCNI sampleCni [] None ∅) with
  | (Ok _, c) => rulesIn (ipt c) = ∅
  | _ => False
  end.
Proof.
  pose proof (cni_cleans_up (O := stdOrder) [CniLocal localB; CniCluster (meB [rangeB])] [rangeB] [] None ∅) as H.
  assert (rulesIn (∅ : Ipt) ## list_to_set (flat_map rulesOfRange [rangeB])) as H1 by (cbn; intros x Hx _; by apply elem_of_empty in Hx).
  assert (forall x node, CniCluster x ∈ [CniLocal localB; CniCluster (meB [rangeB])] -> localIn x node -> CIDRs node = [rangeB]) as H2.
  { intros x node Hx (name & Hn & _). rewrite !elem_of_cons in Hx. destruct Hx as [Hx|[[= ->]|[]%not_elem_of_nil]]; [done|].
    unfold meB in Hn. by apply lookup_singleton_Some in Hn as [_ <-]. }
  specialize (H H1 H2).
  assert (forall e, fst (CNI_Run (O := stdOrder) [CniLocal localB; CniCluster (meB [rangeB])] (@NewCNI sampleCni [] None ∅)) <> Err e) as HO
    by (intros e; vm_compute; discriminate).
  destruct (CNI_Run _ _) as [[u|e|m|] c].
  - exact (proj1 H).
  - by destruct (HO e).
  - exact H.
  - exact H.
Defined.

Definition oldRule : rule := ("filter", "FORWARD", ["-s"; prefixText rangeB; "-j"; "ACCEPT"])%string.

(** When the ranges of the local node change, the rules of the old ones stay in the table,
    also after the service has ended. *)
Example range_change_leaks :
  let '(o, c) := CNI_Run (O := stdOrder) [CniLocal localB; CniCluster (meB [rangeB]); CniCluster (meB [])]
                   (@NewCNI sampleCni [] None ∅) in
  o = Ok tt /\ oldRule ∈ (ipt c : gset rule).
Proof. vm_compute. split; [done|]. by eapply bool_decide_unpack. Qed.

(** A range whose address is on the bridge keeps the ranges after it from getting theirs. *)
Example later_ranges_skipped :
  let c := (configureCNI (O := stdOrder)
              (@mkCNI sampleCni (meB [rangeB; mkPrefix (IPv4 167903488) 24]) localB noNode "" []
                 [AsSlice (Next (p_Addr rangeB))] None ∅ 0)).2 in
  bridge c = [AsSlice (Next (p_Addr rangeB))].
Proof. vm_compute. done. Qed.

(** ** The key file *)

#[export] Instance sampleParse : NetParse := {|
  ParseAddr := fun s => if (s =? "10.0.0.2")%string then Ok addrB else Err (PlainError "unable to parse IP");
  ParsePrefix := fun s => if (s =? "10.1.0.0/24")%string then Ok rangeB else Err (PlainError "netip.ParsePrefix");
  scanPort := fun s => if (s =? "51693")%string then Ok 51693 else Err (PlainError "expected integer");
  ParseKey := fun s => Ok s
|}.
#[export] Instance sampleWg : WgTypes := {| KeyPublicKey := fun k => "public " +:+ k; KeyString := fun k => k |}.
#[export] Instance sampleKeys : KeyEnv := {|
  readFails := fun n => if (n =? 4)%nat then Some (PlainError "input/output error") else None;
  writeFails := fun _ => None;
  generated := fun n => Ok (pretty n)
|}.

Lemma key_survives_witness :
  let '(o, w1) := NewLocal (fun _ => None) "a" (mkKeyWorld None 0) in
  match o with
  | Ok l => exists w2, NewLocal (fun _ => None) "a" w1 = (Ok l, w2)
  | _ => False
  end.
Proof.
  destruct (key_survives (fun _ => None) "a" (mkKeyWorld None 0) (mkKeyWorld (Some "2") 4)
              (mkLocal "a" 0 NoAddr "2")) as (w2 & H & _).
  - intros k. reflexivity.
  - reflexivity.
  - reflexivity.
  - reflexivity.
  - exists w2. exact H.
Defined.

(** A key that cannot be read for once is replaced: the machine comes back as another. *)
Example unread_key_replaced :
  (NewLocal (fun _ => None) "a" (mkKeyWorld (Some "old") 3)).2 = mkKeyWorld (Some "5") 7.
Proof. reflexivity. Qed.

Example node_read :
  handle "b" (Some (mkKubeNode "b" ["10.1.0.0/24"] [mkNodeAddress NodeInternalIP "10.0.0.2"] {[AnnotationPublicKey := "k"]} []))
  = Ok (Update (mkNode "b" addrB (Some "k") (mkAddrPort NoAddr DefaultWireguardPort) [rangeB])).
Proof. reflexivity. Qed.
