(* ===== verification/Files.v ===== *)
(** * The files of users

    service/files: the mounts, the file system that each user's session is given, and the
    names that the WebDAV handler asks of it.  The file systems of hackpadfs, the cache of
    sessions and the template language are parameters. *)

From Stdlib Require Import Ascii.
From stdpp Require Import gmap strings.
From S2P Require Import Prelude GoStrings GoPath Tmpl.
#[local] Open Scope Z_scope.
#[local] Set Warnings "-clear-no-such-hyp".

Definition colon : ascii := ":".

Inductive VFS : Type := VFSOS.
Definition VFS_String (v : VFS) : string := match v with VFSOS => "os" end.

(** ** webdav/fs.go *)

Definition sanitizeName (name : string) : string :=
  let name := TrimPrefix (Clean name) "/" in
  if (name =? "")%string then "." else name.

(** The calls of hackpadfs on a file system, by the names they are given. *)
Inductive fsCall : Type :=
| CallMkdir (name : string) (perm : Z)
| CallOpenFile (name : string) (flag perm : Z)
| CallRemoveAll (name : string)
| CallRename (oldName newName : string)
| CallStat (name : string).

(** The methods of webDavFSWrapper: each is one call. *)
Definition wrapper_Mkdir (name : string) (perm : Z) : fsCall := CallMkdir (sanitizeName name) perm.
Definition wrapper_OpenFile (name : string) (flag perm : Z) : fsCall := CallOpenFile (sanitizeName name) flag perm.
Definition wrapper_RemoveAll (name : string) : fsCall := CallRemoveAll (sanitizeName name).
Definition wrapper_Rename (oldName newName : string) : fsCall := CallRename (sanitizeName oldName) (sanitizeName newName).
Definition wrapper_Stat (name : string) : fsCall := CallStat (sanitizeName name).

Lemma lacks_all_Join l : (forall p, p ∈ l -> plainPart p = true) -> l <> [] -> ValidPath (Join l "/") = true.
Proof.
  intros Hl Hn. unfold ValidPath. rewrite Split_Join_slash; [|done|intros p Hp; by apply plainPart_spec, Hl].
  apply orb_true_iff. right. apply forallb_forall. intros p Hp. by apply Hl, list_elem_of_In.
Qed.

(** Whatever rooted name a request has, with dots, double dots or empty elements, the
    name that the file system is asked for is a valid one: it stays below the root of the
    session, and it is the name itself when that was clean. *)
Theorem sanitizeName_valid (name : string) :
  rooted name = true ->
  ValidPath (sanitizeName name) = true /\ sanitizeName ("/" +:+ sanitizeName name) = sanitizeName name.
Proof.
  intros Hr. destruct (Clean_kept name) as (kept & Hk & _ & HC). rewrite Hr in *.
  assert (forall p, p ∈ kept -> plainPart p = true) as Hp.
  { destruct Hk as (plain & n & -> & Hp & Hn). rewrite (Hn eq_refl). cbn. rewrite app_nil_r. by apply Forall_forall. }
  assert (render true (rev kept) = "/" +:+ Join (rev kept) "/") as HR by done.
  rewrite decide_False in HC by (rewrite HR; discriminate).
  assert (sanitizeName name = if (Join (rev kept) "/" =? "")%string then "." else Join (rev kept) "/") as HS.
  { unfold sanitizeName. rewrite HC, HR. unfold TrimPrefix. cbn. done. }
  assert (kept = [] \/ Join (rev kept) "/" <> "") as HJ.
  { destruct kept as [|a k]; [by left|right]. apply Join_nonempty; [cbn; by destruct (rev k)|]. intros p Hin.
    apply list_elem_of_In, List.in_rev, list_elem_of_In in Hin. apply Hp, plainPart_spec in Hin. tauto. }
  destruct HJ as [->|HJ]; [by rewrite HS|]. rewrite (proj2 (String.eqb_neq _ _) HJ) in HS.
  assert (Clean ("/" +:+ Join (rev kept) "/") = "/" +:+ Join (rev kept) "/") as HI.
  { rewrite <- HR. by apply Clean_render; [|rewrite HR]. }
  rewrite HS. split.
  - apply lacks_all_Join; [intros p Hin; by apply Hp, list_elem_of_In, List.in_rev, list_elem_of_In|]. intros E. by rewrite E in HJ.
  - unfold sanitizeName. rewrite HI. change (TrimPrefix ("/" +:+ Join (rev kept) "/") "/") with (Join (rev kept) "/").
    by rewrite (proj2 (String.eqb_neq _ _) HJ).
Qed.

(** ** mount.go *)

Record mountConfig : Type := mkMountConfig { Source : string; Destination : string; cfg_VFS : VFS }.

Definition ErrExpectMountFormat : error :=
  PlainError "expected mount format to be: <vfs>:<src>:<dest>, missing some parts".
Definition ErrInvalidVFSType : error := PlainError "invalid VFS type".

Definition parseRawMount (mount : string) : outcome mountConfig :=
  match Split mount colon with
  | [vfs; src; dest] =>
      if (vfs =? VFS_String VFSOS)%string then Ok (mkMountConfig (Clean src) (Clean dest) VFSOS)
      else Err (Errorf "could not parse VFS mount type %q: %w" [ErrInvalidVFSType])
  | _ => Err ErrExpectMountFormat
  end.

(** hackpadfs: a directory of the machine, and the file system of a session: one in memory,
    read only to the requests, in which directories are made, and on which others are
    mounted. *)
Class HackPad : Type := {
  FS : Type;
  OsSub : string -> outcome FS;
  MemFS : Type;
  NewMemFS : outcome MemFS;
  Root : Type;
  NewRoot : MemFS -> outcome Root;
  MkdirAll : string -> Root -> outcome unit * Root;
  AddMount : string -> FS -> Root -> outcome unit * Root
}.

(** What is mounted in the file system of a session, and where. *)
Class HackPadLaws (H : HackPad) : Type := {
  mountsOf : Root -> list (string * FS);
  mem_law : ends NewMemFS;
  sub_law path : match OsSub path with Ok _ | Err _ => True | _ => False end;
  new_law mem : match NewRoot mem with Ok r => mountsOf r = [] | Err _ => True | _ => False end;
  mkdir_law d r : match MkdirAll d r with (Ok _, r') => mountsOf r' = mountsOf r | (Err _, _) => True | _ => False end;
  mount_law d fs r : match AddMount d fs r with
    | (Ok _, r') => mountsOf r' = mountsOf r ++ [(d, fs)] | (Err _, _) => True | _ => False end
}.

(** tlru.Cache.Do: the value that is there, or that of the call, which is kept. *)
Class SessionCache (V : Type) : Type := {
  Cache : Type;
  cacheDo : string -> outcome V -> Cache -> outcome V * Cache
}.
Class SessionCacheLaws {V} (S : SessionCache V) : Type := {
  cached : Cache -> string -> V -> Prop;
  do_law key fn c : let '(o, c') := cacheDo key fn c in
    (o = fn \/ exists v, cached c key v /\ o = Ok v)
    /\ (forall k v, cached c' k v -> cached c k v \/ k = key /\ fn = Ok v)
}.

Section UserFiles.
Context {TL : TemplateLang} {H : HackPad}.
(** The parameter of the templates with a name of a user. *)
Context (forUser : string -> Params).

Record mount : Type := mkMount { srcTmpl : TMPL; dst : string; vfs : VFS }.

Definition parseMountConfig (mc : mountConfig) : outcome mount :=
  match NewTMPL (Source mc) with
  | Ok t => Ok (mkMount t (Destination mc) (cfg_VFS mc))
  | Err e => Err (Errorf "error while parsing mount source %q: %w" [e])
  | Panic m => Panic m
  | Diverge => Diverge
  end.

(** [mount.src]. *)
Definition mount_src (m : mount) (username : string) : outcome FS :=
  match Render (srcTmpl m) (forUser username) with
  | Ok path =>
      match vfs m with
      | VFSOS =>
          match OsSub path with
          | Err e => Err (Errorf "error while opening filesystem for %q mount source: %w" [e])
          | r => r
          end
      end
  | Err e => Err (Errorf "error while generating mount source: %w" [e])
  | Panic p => Panic p
  | Diverge => Diverge
  end.

(** ** session.go *)

Fixpoint parseMounts (l : list string) : outcome (list mount) :=
  match l with
  | [] => Ok []
  | m :: rest =>
      mc <-? parseRawMount m ;;
      mount <-? parseMountConfig mc ;;
      mounts <-? parseMounts rest ;;
      Ok (mount :: mounts)
  end.

(** The loop over the mounts. *)
Fixpoint mountAll (username : string) (l : list mount) (r : Root) : outcome Root :=
  match l with
  | [] => Ok r
  | m :: rest =>
      match mount_src m username with
      | Ok src =>
          match MkdirAll (dst m) r with
          | (Ok _, r1) =>
              match AddMount (dst m) src r1 with
              | (Ok _, r2) => mountAll username rest r2
              | (Err e, _) => Err (Errorf "error while mounting %q filesystem at '%s': %w" [e])
              | (Panic p, _) => Panic p
              | (Diverge, _) => Diverge
              end
          | (Err e, _) => Err (Errorf "error while creating mounting directory at %q: %w" [e])
          | (Panic p, _) => Panic p
          | (Diverge, _) => Diverge
          end
      | Err e => Err (Errorf "error while getting filesystem for mountpoint %q: %w" [e])
      | Panic p => Panic p
      | Diverge => Diverge
      end
  end.

(** [newSessionFn]. *)
Definition newSession (mounts : list mount) (username : string) : outcome Root :=
  match NewMemFS with
  | Ok mem =>
      match NewRoot mem with
      | Ok r => mountAll username mounts r
      | Err e => Err (Errorf "error while creating root mount filesystem: %w" [e])
      | o => o
      end
  | Err e => Err (Errorf "error while creating root memory filesystem: %w" [e])
  | Panic p => Panic p
  | Diverge => Diverge
  end.

Context {SC : SessionCache Root}.

Record Sessions : Type := mkSessions { mounts : list mount; cache : Cache }.

(** [Sessions.Get]. *)
Definition Sessions_Get (username : string) : Go Sessions Root :=
  fun s => let '(o, c) := cacheDo username (newSession (mounts s) username) (cache s) in (o, mkSessions (mounts s) c).

(** [NewSessions]; the cache is one without sessions. *)
Definition NewSessions (raw : list string) (empty : Cache) : outcome Sessions :=
  ms <-? parseMounts raw ;; Ok (mkSessions ms empty).

(** ** Sessions *)

Context {HL : HackPadLaws H} {SL : SessionCacheLaws SC}.

(** What a user is to find: each mount at its destination, its source for that name. *)
Definition mountedFor (ms : list mount) (username : string) (l : list (string * FS)) : Prop :=
  Forall2 (fun m x => x.1 = dst m /\ exists path, Render (srcTmpl m) (forUser username) = Ok path /\ OsSub path = Ok x.2) ms l.

Lemma mountAll_spec username ms r r' :
  mountAll username ms r = Ok r' -> exists l, mountsOf r' = mountsOf r ++ l /\ mountedFor ms username l.
Proof using HL.
  revert r. induction ms as [|m ms IH]; intros r HM; cbn [mountAll] in HM.
  - injection HM as <-. exists []. split; [by rewrite app_nil_r|constructor].
  - destruct (mount_src m username) as [src|e| |] eqn:ES; try done.
    pose proof (mkdir_law (dst m) r) as H1. destruct (MkdirAll (dst m) r) as [[[]|e| |] r1]; try done.
    pose proof (mount_law (dst m) src r1) as H2. destruct (AddMount (dst m) src r1) as [[[]|e| |] r2]; try done.
    destruct (IH r2 HM) as (l & H3 & H4). exists ((dst m, src) :: l). split; [by rewrite H3, H2, H1, <- app_assoc|].
    constructor; [|done]. split; [done|]. unfold mount_src in ES.
    destruct (Render _ _) as [path|e| |]; try done. destruct (vfs m). exists path. split; [done|].
    by destruct (OsSub path).
Qed.

(** Every cached session is one of the user under whose name it is. *)
Definition sessionsInv (s : Sessions) : Prop :=
  forall user r, cached (cache s) user r -> mountedFor (mounts s) user (mountsOf r).

(** [Sessions.Get] of one user after the other. *)
Definition getAll (users : list string) : Go Sessions (list (outcome Root)) :=
  fold_right (fun u m => fun s => let '(o, s1) := Sessions_Get u s in
                                  let '(os, s2) := m s1 in
                                  (obind os (fun os => Ok (o :: os)), s2)) (ret []) users.

Lemma newSession_spec ms user r : newSession ms user = Ok r -> mountedFor ms user (mountsOf r).
Proof using HL.
  unfold newSession. destruct NewMemFS as [mem|e| |]; try done.
  pose proof (new_law mem) as HN. destruct (NewRoot mem) as [r0|e| |]; try done. intros HM.
  destruct (mountAll_spec user ms r0 r HM) as (l & -> & H1). by rewrite HN.
Qed.

Lemma Sessions_Get_spec user s :
  sessionsInv s ->
  let '(o, s') := Sessions_Get user s in
  sessionsInv s' /\ mounts s' = mounts s /\ forall r, o = Ok r -> mountedFor (mounts s) user (mountsOf r).
Proof using HL SL.
  intros HI. unfold Sessions_Get. pose proof (do_law user (newSession (mounts s) user) (cache s)) as HD.
  destruct (cacheDo _ _ _) as [o c]. destruct HD as [H1 H2]. split; [|split; [done|]].
  - intros u r Hr. destruct (H2 u r Hr) as [Hc|[-> Hn]]; [by apply HI|by apply newSession_spec].
  - intros r ->. destruct H1 as [H1|(v & H1 & [= ->])]; [by apply newSession_spec|by apply HI].
Qed.

(** However the requests of users follow each other, and whatever the cache keeps or
    drops, the session that a user is given has the configured mounts in their order, each
    with the directory that its template gives for the name of that user. *)
Theorem sessions_own (ms : list mount) (c : Cache) (users : list string) :
  (forall user r, ~ cached c user r) ->
  match (getAll users (mkSessions ms c)).1 with
  | Ok os => Forall2 (fun user o => forall r, o = Ok r -> mountedFor ms user (mountsOf r)) users os
  | _ => False
  end.
Proof using HL SL.
  intros HC. assert (sessionsInv (mkSessions ms c)) as HI by (intros user r Hr; by destruct (HC user r)).
  assert (ms = mounts (mkSessions ms c)) as HM by done. revert HI HM. generalize (mkSessions ms c) as s. clear HC.
  induction users as [|u users IH]; intros s HI HM; cbn [getAll fold_right]; [constructor|].
  pose proof (Sessions_Get_spec u s HI) as HS. destruct (Sessions_Get u s) as [o s1]. destruct HS as (S1 & S2 & S3).
  specialize (IH s1 S1 ltac:(by rewrite S2)). unfold getAll in IH.
  destruct (fold_right _ _ users s1) as [[os|e| |] s2]; cbn in *; try done.
  constructor; [|done]. by rewrite HM.
Qed.
End UserFiles.

(** ** Examples *)

Lemma sanitizeName_valid_witness :
  ValidPath (sanitizeName "/a/../../b//c/.") = true /\ sanitizeName "/a/../../b//c/." = "b/c".
Proof. split; [exact (proj1 (sanitizeName_valid "/a/../../b//c/." eq_refl))|reflexivity]. Defined.

(** A name that is not rooted can leave the directory; hackpadfs refuses it. *)
Example unrooted_name : sanitizeName "../x" = "../x" /\ ValidPath (sanitizeName "../x") = false.
Proof. by split. Qed.

Example raw_mount :
  parseRawMount "os:/srv/{{ .Username }}/:files" = Ok (mkMountConfig "/srv/{{ .Username }}" "files" VFSOS)
  /\ parseRawMount "os:/srv" = Err ErrExpectMountFormat
  /\ parseRawMount "s3:/srv:files" = Err (Errorf "could not parse VFS mount type %q: %w" [ErrInvalidVFSType]).
Proof. by split_and!. Qed.

(** ** A machine *)

(** Directories are their paths; a session is the list of its mounts. *)
#[local] Instance samplePad : HackPad := {|
  FS := string;
  OsSub path := if (path =? "")%string then Err (PlainError "invalid") else Ok path;
  MemFS := unit;
  NewMemFS := Ok tt;
  Root := list (string * string);
  NewRoot _ := Ok [];
  MkdirAll _ r := (Ok tt, r);
  AddMount d fs r := (Ok tt, r ++ [(d, fs)])
|}.

#[local] Instance samplePad_laws : HackPadLaws samplePad.
Proof. refine {| mountsOf := (fun r => r) : @Root samplePad -> _ |}; cbn; try done. intros path. by destruct (path =? "")%string. Defined.

(** A cache that drops nothing. *)
#[local] Instance sampleCache V : SessionCache V := {|
  Cache := gmap string V;
  cacheDo key fn c :=
    match c !! key with
    | Some v => (Ok v, c)
    | None => match fn with Ok v => (Ok v, <[key := v]> c) | o => (o, c) end
    end
|}.

#[local] Instance sampleCache_laws V : SessionCacheLaws (sampleCache V).
Proof.
  refine {| cached := fun (c : @Cache V (sampleCache V)) k v => (c : gmap string V) !! k = Some v |}.
  intros key fn c. cbn. destruct ((c : gmap string V) !! key) as [v|] eqn:E.
  - split; [right; by exists v|by left].
  - destruct fn as [v| | |]; (split; [by left|]); [|by left..]. intros k w. rewrite lookup_insert_Some.
    intros [[-> ->]|[_ Hk]]; [by right|by left].
Defined.

(** Templates with one field. *)
#[local] Instance homeTemplates : TemplateLang := {|
  Params := string;
  paramsType := Struct [("Username", true, NoStruct "string")];
  fieldValue p f := if (f =? "Username")%string then Some p else None;
  Parse str := if (str =? "/srv/{{ .Username }}")%string
               then Ok (ListNode [TextNode "/srv/"; ActionNode [[FieldNode ["Username"]]]])
               else Ok (ListNode [TextNode str]);
  Execute n p := match n with
    | ListNode [TextNode t] => Ok t
    | ListNode [TextNode t; ActionNode _] => Ok (t +:+ p)
    | _ => Err (PlainError "template") end
|}.

Definition twoMounts : outcome Sessions :=
  NewSessions (SC := sampleCache _) ["os:/srv/{{ .Username }}:home"; "os:/pub/:shared"] ∅.

Definition homes (ms : list mount) (users : list string) : outcome (list (outcome Root)) :=
  (getAll (SC := sampleCache _) (fun u => u) users (mkSessions ms ∅)).1.

Example two_users :
  (s <-? twoMounts ;; homes (mounts s) ["alice"; "bob"; "alice"]) =
  Ok [Ok [("home", "/srv/alice"); ("shared", "/pub")]; Ok [("home", "/srv/bob"); ("shared", "/pub")];
      Ok [("home", "/srv/alice"); ("shared", "/pub")]].
Proof. by vm_compute. Qed.

Lemma sessions_own_witness :
  match twoMounts with
  | Ok s => match homes (mounts s) ["alice"; "bob"; "alice"] with
            | Ok os => Forall2 (fun user o => forall r, o = Ok r -> mountedFor (fun u => u) (mounts s) user (mountsOf r)) ["alice"; "bob"; "alice"] os
            | _ => False
            end
  | _ => False
  end.
Proof.
  destruct twoMounts as [s| | |] eqn:E; [|vm_compute in E; discriminate..].
  refine (sessions_own (SC := sampleCache _) (fun u => u) (mounts s) ∅ ["alice"; "bob"; "alice"] _).
  intros user r. cbn. by rewrite lookup_empty.
Defined.
