(* ===== verification/Sql.v ===== *)
(** * Tables of Postgres

    What the SQL statements of the stores do to a table with a text primary key, the
    reading of their rows, and the relation between such a table and the finite map that
    lib/pgcache takes its rows for.  The connection, which can fail at any call or between
    two rows, is a parameter. *)

From stdpp Require Import gmap sorting.
From S2P Require Import Prelude CacheMap Pgcache.
#[local] Open Scope Z_scope.
#[local] Set Warnings "-clear-no-such-hyp".

(** ** Statements *)

(** Calls of a connection, by their number: one can fail, and the rows of an answer can end
    early, with an error. *)
Class PgConn : Type := {
  callError : nat -> option error;
  rowsEnd : nat -> option (nat * error)
}.

Definition ErrCardinality : error := PlainError "ON CONFLICT DO UPDATE command cannot affect row a second time".

Definition orWrap {A} (msg : string) (o : outcome A) : outcome A :=
  match o with Err e => Err (Errorf msg [e]) | r => r end.

(** A row has its key and its other columns. *)
Abbreviation sqlTable Cols := (list (string * Cols)).

Section Statements.
Context {PC : PgConn} {Cols : Type}.

(** [SELECT key, columns FROM table WHERE key = ANY($1)]. *)
Definition sqlSelectAny (keys : list string) (t : sqlTable Cols) : sqlTable Cols := filter (fun r => fst r ∈ keys) t.

(** [DELETE FROM table WHERE key = ANY($1)]. *)
Definition sqlDeleteAny (keys : list string) (t : sqlTable Cols) : sqlTable Cols := filter (fun r => fst r ∉ keys) t.

(** One row of an [INSERT ... ON CONFLICT (key) DO UPDATE SET]: what is set of the row that
    is there. *)
Definition upsertRow (set : Cols -> Cols -> Cols) (k : string) (c : Cols) (t : sqlTable Cols) : sqlTable Cols :=
  if bool_decide (k ∈ map fst t)
  then map (fun r => if (fst r =? k)%string then (k, set (snd r) c) else r) t
  else t ++ [(k, c)].

(** A statement fails when it comes to a row that it has already written. *)
Fixpoint sqlUpsert (set : Cols -> Cols -> Cols) (rows : sqlTable Cols) (touched : list string) (t : sqlTable Cols) : outcome (sqlTable Cols) :=
  match rows with
  | [] => Ok t
  | (k, c) :: rest =>
      if bool_decide (k ∈ touched) then Err ErrCardinality
      else sqlUpsert set rest (k :: touched) (upsertRow set k c t)
  end.

(** [conn.Query]: the rows that arrive, and the error after them. *)
Definition sqlQuery (n : nat) (rows : sqlTable Cols) : outcome (sqlTable Cols * option error) :=
  match callError n with
  | Some e => Err e
  | None => match rowsEnd n with Some (k, e) => Ok (take k rows, Some e) | None => Ok (rows, None) end
  end.

Definition sqlExec (n : nat) (stmt : sqlTable Cols -> outcome (sqlTable Cols)) (t : sqlTable Cols) : outcome (sqlTable Cols) :=
  match callError n with Some e => Err e | None => stmt t end.

(** The loop over the rows of an answer. *)
Fixpoint parseEach {T} (parse : string * Cols -> outcome T) (rows : sqlTable Cols) (after : option error) : outcome (list T) :=
  match rows with
  | [] => match after with Some e => Err (Errorf "could not read all psql results: %w" [e]) | None => Ok [] end
  | r :: rest => v <-? parse r ;; vs <-? parseEach parse rest after ;; Ok (v :: vs)
  end.

(** The loop that makes the rows of a statement. *)
Fixpoint rowsOf {T} (rowOf : T -> outcome (string * Cols)) (l : list T) : outcome (sqlTable Cols) :=
  match l with
  | [] => Ok []
  | o :: rest => r <-? rowOf o ;; rs <-? rowsOf rowOf rest ;; Ok (r :: rs)
  end.
End Statements.

(** ** A table and a map *)

Section Table.
Context {PC : PgConn} {Cols K T : Type} {KK : Key K} {OB : Object K T}.
Context (parse : string * Cols -> outcome T).

Definition keyOf (o : T) : string := KeyString (ObjectKey o).

(** Every key of the map has one row, which is read as its value. *)
Record represents (t : sqlTable Cols) (m : gmap string T) : Prop := {
  rep_nodup : NoDup (map fst t);
  rep_rows k c : (k, c) ∈ t -> exists v, m !! k = Some v /\ parse (k, c) = Ok v;
  rep_keys k v : m !! k = Some v -> k ∈ map fst t
}.

Lemma in_keys (t : sqlTable Cols) k : k ∈ map fst t <-> exists c, (k, c) ∈ t.
Proof using Type.
  rewrite list_elem_of_fmap. split; [intros ([k' c] & -> & H); by exists c|intros (c & H); by exists (k, c)].
Qed.

Lemma represents_key t m k : represents t m -> k ∈ map fst t <-> is_Some (m !! k).
Proof using Type.
  intros HR. split; [|intros [v Hv]; by eapply rep_keys].
  intros (c & Hc)%in_keys. destruct (rep_rows _ _ HR _ _ Hc) as (v & -> & _). by eexists.
Qed.

Lemma represents_empty : represents [] ∅.
Proof using Type. split; [constructor|by intros ? ? ?%not_elem_of_nil|by intros ? ? ?%lookup_empty_Some]. Qed.

(** What is read of rows are the values of their keys. *)
Lemma parseEach_values (t rows : sqlTable Cols) m after l :
  represents t m -> rows ⊆ t -> parseEach parse rows after = Ok l ->
  after = None /\ l = omap (fun k => m !! k) (map fst rows).
Proof using Type.
  intros HR. revert l. induction rows as [|[k c] rows IH]; intros l Hs H; cbn [parseEach] in H.
  - destruct after; [done|]. by injection H as <-.
  - apply obind_ok_inv in H as (v & Hv & H). apply obind_ok_inv in H as (vs & Hvs & [= <-]).
    destruct (rep_rows _ _ HR k c) as (v' & Hm & Hp); [apply Hs; by left|].
    destruct (IH vs) as [H1 H2]; [intros x Hx; apply Hs; by right|done|].
    split; [done|]. cbn. rewrite Hm, H2. f_equal. congruence.
Qed.

Lemma parseEach_reads (t rows : sqlTable Cols) m :
  represents t m -> rows ⊆ t -> exists l, parseEach parse rows None = Ok l.
Proof using Type.
  intros HR. induction rows as [|[k c] rows IH]; intros Hs; [by exists []|]. cbn [parseEach].
  destruct (rep_rows _ _ HR k c) as (v & _ & ->); [apply Hs; by left|].
  destruct IH as (l & ->); [intros x Hx; apply Hs; by right|]. by exists (v :: l).
Qed.

Lemma omap_values (m : gmap string T) : omap (fun k => m !! k) (map fst (map_to_list m)) = map snd (map_to_list m).
Proof using Type.
  assert (forall l, (forall k v, (k, v) ∈ l -> m !! k = Some v) -> omap (fun k => m !! k) (map fst l) = map snd l) as H.
  { induction l as [|[k v] l IH]; intros Hl; [done|]. cbn. rewrite (Hl k v) by by left.
    f_equal. apply IH. intros k' v' Hin. apply Hl. by right. }
  apply H. intros k v Hin. by apply elem_of_map_to_list.
Qed.

(** Listing a table gives the values of the map. *)
Lemma represents_list t m n l :
  represents t m -> (rs <-? sqlQuery n t ;; parseEach parse (fst rs) (snd rs)) = Ok l ->
  Permutation l (map snd (map_to_list m)).
Proof using Type.
  intros HR H. unfold sqlQuery in H. destruct (callError n); [done|].
  assert (exists rows after, rows ⊆ t /\ (after = None -> rows = t) /\ parseEach parse rows after = Ok l) as (rows & after & Hs & Ht & HP).
  { destruct (rowsEnd n) as [[k e]|]; cbn in H.
    - exists (take k t), (Some e). split_and!; [|done|done]. intros x (i & Hx & _)%elem_of_take. by eapply list_elem_of_lookup_2.
    - by exists t, None. }
  destruct (parseEach_values t rows m after l HR Hs HP) as [-> ->]. rewrite (Ht eq_refl), <- omap_values.
  apply omap_Permutation, NoDup_Permutation; [apply HR|apply NoDup_fst_map_to_list|].
  intros k. rewrite (represents_key t m k HR). split.
  - intros [v Hv]. apply list_elem_of_fmap. exists (k, v). split; [done|by apply elem_of_map_to_list].
  - intros ([k' v] & -> & Hv)%list_elem_of_fmap. apply elem_of_map_to_list in Hv. by exists v.
Qed.

Lemma represents_filter t m (P : string -> Prop) `{!forall k, Decision (P k)} :
  represents t m -> represents (filter (fun r => P (fst r)) t) (filter (fun kv => P (fst kv)) m).
Proof using Type.
  intros HR. split.
  - pose proof (rep_nodup _ _ HR) as HN. clear HR. induction t as [|[k c] t IH]; [constructor|].
    apply NoDup_cons in HN as [Hk HN]. rewrite filter_cons. case_decide; [|by apply IH]. apply NoDup_cons. split; [|by apply IH].
    intros (c' & [_ H1]%list_elem_of_filter)%in_keys. apply Hk, in_keys. by exists c'.
  - intros k c [HP Hc]%list_elem_of_filter. destruct (rep_rows _ _ HR _ _ Hc) as (v & Hv & Hp).
    exists v. split; [|done]. by apply map_lookup_filter_Some.
  - intros k v [Hv HP]%map_lookup_filter_Some. apply (rep_keys _ _ HR) in Hv. apply in_keys in Hv as (c & Hc).
    apply in_keys. exists c. by apply list_elem_of_filter.
Qed.

(** Getting rows by their keys gives the values of those that exist. *)
Lemma represents_get t m n keys l :
  represents t m -> NoDup keys ->
  (rs <-? sqlQuery n (sqlSelectAny keys t) ;; parseEach parse (fst rs) (snd rs)) = Ok l ->
  Permutation l (omap (fun k => m !! k) keys).
Proof using Type.
  intros HR HN H. pose proof (represents_filter t m (fun k => k ∈ keys) HR) as HF.
  apply (represents_list _ _ _ _ HF) in H. rewrite H, <- omap_values. clear H HF.
  assert (exists m', m' = filter (fun kv => fst kv ∈ keys) m) as [m' Em] by by eexists. rewrite <- Em.
  transitivity (omap (fun k => m' !! k) keys).
  - transitivity (omap (fun k => m' !! k) (filter (fun k => is_Some (m' !! k)) keys)).
    2: { clear. induction keys as [|k keys IH]; [done|]. rewrite filter_cons. case_decide as H.
         - destruct H as [v Hv]. cbn. rewrite Hv. by constructor.
         - cbn. destruct (m' !! k); [by destruct H; eexists|done]. }
    apply omap_Permutation, NoDup_Permutation; [apply NoDup_fst_map_to_list|by apply NoDup_filter|].
    intros k. rewrite list_elem_of_filter. split.
    + intros ([k' v] & -> & Hv)%list_elem_of_fmap. apply elem_of_map_to_list in Hv. cbn. split; [by exists v|].
      rewrite Em in Hv. by apply map_lookup_filter_Some in Hv as [_ ?].
    + intros [[v Hv] _]. apply list_elem_of_fmap. exists (k, v). split; [done|by apply elem_of_map_to_list].
  - assert (forall k, k ∈ keys -> m' !! k = m !! k) as HE.
    { intros k Hk. rewrite Em. destruct (m !! k) as [v|] eqn:E; [by apply map_lookup_filter_Some|].
      apply map_lookup_filter_None. by left. }
    clear -HE. induction keys as [|k keys IH]; [done|]. cbn. rewrite (HE k) by by left.
    destruct (m !! k); [constructor|]; apply IH; intros k' Hk; apply HE; by right.
Qed.

Lemma represents_delete t m keys :
  represents t m -> represents (sqlDeleteAny (map KeyString keys) t)
                      (foldl applyRow m (map (fun key => mkUpdate (T := T) None (Some key)) keys)).
Proof using Type.
  intros HR. pose proof (represents_filter t m (fun k => k ∉ map KeyString keys) HR) as HF.
  assert (foldl applyRow m (map (fun key => mkUpdate None (Some key)) keys)
          = filter (fun kv => fst kv ∉ map KeyString keys) m) as ->; [|done].
  clear. revert m. induction keys as [|k keys IH]; intros m; cbn [map foldl].
  - symmetry. apply map_filter_id. intros i x _. apply not_elem_of_nil.
  - rewrite IH. cbn. apply map_eq. intros i. apply option_eq. intros v.
    rewrite !map_lookup_filter_Some, lookup_delete_Some. cbn. rewrite not_elem_of_cons. naive_solver.
Qed.

Lemma fst_upsertRow set k c (t : sqlTable Cols) :
  map fst (upsertRow set k c t) = if bool_decide (k ∈ map fst t) then map fst t else map fst t ++ [k].
Proof using Type.
  unfold upsertRow. case_bool_decide; [|by rewrite map_app]. rewrite map_map. apply map_ext. intros [k' c']. cbn.
  by destruct (String.eqb_spec k' k) as [->|].
Qed.

(** A row that is put is read as the value, and so is what is set of one that is there. *)
Lemma represents_upsert set t m k c v :
  represents t m -> parse (k, c) = Ok v -> (forall c0, (k, c0) ∈ t -> parse (k, set c0 c) = Ok v) ->
  represents (upsertRow set k c t) (<[k := v]> m).
Proof using Type.
  intros HR Hn Hs. split.
  - rewrite fst_upsertRow. pose proof (rep_nodup _ _ HR). case_bool_decide as Hk; [done|].
    apply NoDup_app. split; [done|]. split; [|apply NoDup_singleton]. by intros x Hx ->%list_elem_of_singleton.
  - intros k' c'. unfold upsertRow. case_bool_decide as Hk.
    + intros ([k0 c0] & E & H0)%list_elem_of_fmap. cbn in E. destruct (String.eqb_spec k0 k) as [->|Hne]; injection E as -> ->.
      * exists v. rewrite lookup_insert_eq. split; [done|by apply Hs].
      * destruct (rep_rows _ _ HR _ _ H0) as (v' & ? & ?). exists v'. by rewrite lookup_insert_ne.
    + intros [H0|[= -> ->]%list_elem_of_singleton]%elem_of_app; [|exists v; by rewrite lookup_insert_eq].
      destruct (rep_rows _ _ HR _ _ H0) as (v' & ? & ?). exists v'. rewrite lookup_insert_ne; [done|].
      intros ->. apply Hk, in_keys. by exists c'.
  - intros k' v' Hv. rewrite fst_upsertRow. apply lookup_insert_Some in Hv as [[<- _]|[Hne Hv]].
    + case_bool_decide; [done|]. apply elem_of_app. right. by left.
    + apply (rep_keys _ _ HR) in Hv. case_bool_decide; [done|]. apply elem_of_app. by left.
Qed.
End Table.

(** ** Writing *)

(** What a statement of a transaction writes. *)
Inductive sqlWrite (K T : Type) : Type := WStore (objects : list T) | WDelete (keys : list K).
Arguments WStore {K T}. Arguments WDelete {K T}.

Definition updatesOf {K T} (w : sqlWrite K T) : list (update K T) :=
  match w with
  | WStore objects => map (fun o => mkUpdate (Some o) None) objects
  | WDelete keys => map (fun k => mkUpdate None (Some k)) keys
  end.

Section Writes.
Context {PC : PgConn} {Cols K T : Type} {KK : Key K} {OB : Object K T}.
Context (parse : string * Cols -> outcome T) (rowOf : T -> outcome (string * Cols)) (set : Cols -> Cols -> Cols).
(** Objects that are read back as they were written, and objects that may take the place of
    others in their row. *)
Context (good : T -> Prop) (over : T -> T -> Prop).
Context (row_law : forall o, good o -> exists c, rowOf o = Ok (keyOf o, c) /\ parse (keyOf o, c) = Ok o).
Context (set_law : forall o c v0 c0, good o -> rowOf o = Ok (keyOf o, c) -> over v0 o ->
  parse (keyOf o, c0) = Ok v0 -> parse (keyOf o, set c0 c) = Ok o).
Local Abbreviation represents := (represents parse).

(** The objects can be stored over what is there. *)
Definition storable (m : gmap string T) (objects : list T) : Prop :=
  forall o, o ∈ objects -> good o /\ forall v0, m !! keyOf o = Some v0 -> over v0 o.

Lemma rowsOf_good objects : (forall o, o ∈ objects -> good o) ->
  exists cs, rowsOf rowOf objects = Ok (zip (map keyOf objects) cs) /\ length cs = length objects.
Proof using row_law.
  induction objects as [|o objects IH]; intros HG; [by exists []|]. cbn [rowsOf].
  destruct (row_law o) as (c & -> & _); [apply HG; by left|].
  destruct IH as (cs & -> & HL); [intros x Hx; apply HG; by right|]. exists (c :: cs). cbn. by rewrite HL.
Qed.

Lemma represents_store objects touched rows t m t' :
  represents t m ->
  (forall o, o ∈ objects -> good o /\ (keyOf o ∉ touched -> forall v0, m !! keyOf o = Some v0 -> over v0 o)) ->
  rowsOf rowOf objects = Ok rows -> sqlUpsert set rows touched t = Ok t' ->
  represents t' (foldl applyRow m (updatesOf (WStore objects : sqlWrite K T))).
Proof using row_law set_law.
  revert touched rows t m. induction objects as [|o objects IH]; intros touched rows t m HR HO Hrows HU.
  { cbn in Hrows. injection Hrows as <-. cbn in HU. by injection HU as <-. }
  destruct (HO o) as [HG HV]; [by left|]. destruct (row_law o HG) as (c & Hrow & Hparse).
  cbn [rowsOf] in Hrows. rewrite Hrow in Hrows. cbn [obind] in Hrows. apply obind_ok_inv in Hrows as (rs & Hrs & [= <-]).
  cbn [sqlUpsert] in HU. case_bool_decide as Ht; [done|].
  apply (IH (keyOf o :: touched) rs (upsertRow set (keyOf o) c t)); [| |done|done].
  - apply represents_upsert; [done|done|]. intros c0 H0. destruct (rep_rows _ _ _ HR _ _ H0) as (v0 & Hv & Hp).
    eapply set_law; try done. by apply HV.
  - intros o' Ho'. destruct (HO o') as [HG' HV']; [by right|]. split; [done|]. intros [Hne Ht']%not_elem_of_cons v0.
    cbn. fold (keyOf o). rewrite lookup_insert_ne by done. by apply HV'.
Qed.

(** A statement whose call does not fail succeeds exactly when no row comes twice. *)
Lemma sqlUpsert_ends rows touched t :
  let once := NoDup (map fst rows) /\ forall k, k ∈ map fst rows -> k ∉ touched in
  (once /\ exists t', sqlUpsert set rows touched t = Ok t') \/ (~ once /\ sqlUpsert set rows touched t = Err ErrCardinality).
Proof using Type.
  revert touched t. induction rows as [|[k c] rows IH]; intros touched t; cbn [sqlUpsert map fst].
  { left. split; [|by eexists]. split; [constructor|by intros ? ?%not_elem_of_nil]. }
  destruct (bool_decide_reflect (k ∈ touched)) as [Hk|Hk].
  { right. split; [|done]. intros [_ H]. apply (H k); [by left|done]. }
  destruct (IH (k :: touched) (upsertRow set k c t)) as [[[H1 H2] H]|[H1 H2]].
  - left. split; [|done]. split.
    + apply NoDup_cons. split; [|done]. intros Hin. apply (H2 k Hin). by left.
    + intros k' [->|Hin]%elem_of_cons; [done|]. intros Ht. apply (H2 k' Hin). by right.
  - right. split; [|done]. intros [[H3 H4]%NoDup_cons H5]. apply H1. split; [done|].
    intros k' Hin [->|Ht]%elem_of_cons; [done|]. apply (H5 k'); [by right|done].
Qed.

(** The statements of a transaction, from the call of a number on. *)
Context (store : nat -> list T -> sqlTable Cols -> outcome (sqlTable Cols)).
Context (delete : nat -> list K -> sqlTable Cols -> outcome (sqlTable Cols)).

Definition runWrite (n : nat) (w : sqlWrite K T) (t : sqlTable Cols) : outcome (sqlTable Cols) :=
  match w with WStore objects => store n objects t | WDelete keys => delete n keys t end.

Fixpoint runWrites (n : nat) (ws : list (sqlWrite K T)) (t : sqlTable Cols) : outcome (sqlTable Cols) :=
  match ws with
  | [] => Ok t
  | w :: rest => t' <-? runWrite n w t ;; runWrites (S n) rest t'
  end.

(** Each statement can be run on what those before it leave. *)
Fixpoint storables (m : gmap string T) (ws : list (sqlWrite K T)) : Prop :=
  match ws with
  | [] => True
  | w :: rest =>
      match w with WStore objects => storable m objects | WDelete _ => True end
      /\ storables (foldl applyRow m (updatesOf w)) rest
  end.

Context (store_law : forall n objects t t', store n objects t = Ok t' ->
  exists rows, rowsOf rowOf objects = Ok rows /\ sqlUpsert set rows [] t = Ok t').
Context (delete_law : forall n keys t t', delete n keys t = Ok t' -> t' = sqlDeleteAny (map KeyString keys) t).

Lemma represents_writes n ws t m t' :
  represents t m -> storables m ws -> runWrites n ws t = Ok t' ->
  represents t' (foldl applyRow m (flat_map updatesOf ws)).
Proof using row_law set_law store_law delete_law.
  revert n t m. induction ws as [|w ws IH]; intros n t m HR HS H; cbn [runWrites] in H.
  - by injection H as <-.
  - apply obind_ok_inv in H as (t1 & H1 & H). destruct HS as [HS1 HS2]. cbn [flat_map]. rewrite foldl_app.
    eapply IH; [|exact HS2|exact H]. destruct w as [objects|keys]; cbn [runWrite] in H1.
    + apply store_law in H1 as (rows & Hr & Hu). eapply represents_store; [exact HR| |exact Hr|exact Hu].
      intros o Ho. destruct (HS1 o Ho) as [HG HO]. split; [done|]. intros _. exact HO.
    + apply delete_law in H1 as ->. by apply represents_delete.
Qed.

(** Without a failing call, and without a key twice in a statement, a transaction succeeds. *)
Lemma runWrites_succeed n ws t :
  (forall k objects t, callError k = None -> (forall o, o ∈ objects -> good o) -> NoDup (map keyOf objects) ->
     exists t', store k objects t = Ok t') ->
  (forall k keys t, callError k = None -> exists t', delete k keys t = Ok t') ->
  (forall k, callError k = None) ->
  (forall objects, WStore objects ∈ ws -> NoDup (map keyOf objects) /\ forall o, o ∈ objects -> good o) ->
  exists t', runWrites n ws t = Ok t'.
Proof using Type.
  intros HS HD HC. revert n t. induction ws as [|w ws IH]; intros n t HW; cbn [runWrites]; [by exists t|].
  assert (exists t1, runWrite n w t = Ok t1) as (t1 & ->).
  { destruct w as [objects|keys]; cbn [runWrite]; [|by apply HD]. destruct (HW objects) as [H1 H2]; [by left|]. by apply HS. }
  apply IH. intros objects Hin. apply HW. by right.
Qed.
End Writes.
