(* ===== verification/SqlStores.v ===== *)
(** * The rows of the stores

    The functions that service/bottin/store/psql.go and service/calendar/store/online*.go
    give to their cached tables: how entries, calendars and references to objects are
    written to the rows of Postgres and read from them, and that such a table stands for
    the map that the theorems about lib/pgcache take its rows for. *)

From stdpp Require Import gmap sorting.
From S2P Require Import Prelude GoStrings GoBTree CacheMap Pgcache PgcacheSpec StoreTypes MemStore Psql S3Cache Caldav CalStore CalOnline Sql.
#[local] Open Scope Z_scope.
#[local] Set Warnings "-clear-no-such-hyp".

(** encoding/json, to a column of type jsonb and back. *)
Class JsonText (A : Type) : Type := { toJson : A -> outcome string; fromJson : string -> outcome A }.

(** A value that comes back as it was.  (Text that is valid UTF-8 and has no NUL does.) *)
Definition jsonKept {A} {J : JsonText A} (a : A) : Prop := exists raw, toJson a = Ok raw /\ fromJson raw = Ok a.

Section Rows.
Context {U : Unicode} {PC : PgConn}.

(** ** Entries *)

(** An entry by value: its attributes are those that its map has at that moment. *)
Record storedEntry : Type := mkStored { storedDN : DN; storedAttributes : Attributes }.
#[export] Instance storedEntry_Object : Pgcache.Object Prefix storedEntry := { ObjectKey := fun e => DN_Prefix (storedDN e) }.

Context {JA : JsonText Attributes} {JM : JsonText CalendarMetadata}.

Definition parseEntryRow (r : string * string) : outcome storedEntry :=
  let '(rawPrefix, rawAttributes) := r in
  attributes <-? orWrap "error while decoding JSON attributes field: %w" (fromJson rawAttributes) ;;
  prefix <-? orWrap "error while decoding entry prefix: %w" (ParsePrefix rawPrefix) ;;
  Ok (mkStored (Prefix_DN prefix) attributes).

Definition parseRows (rs : sqlTable string * option error) : outcome (list storedEntry) :=
  parseEach parseEntryRow (fst rs) (snd rs).

Definition listPSQL (n : nat) (t : sqlTable string) : outcome (list storedEntry) :=
  rs <-? orWrap "error while listing entries from psql: %w" (sqlQuery n t) ;; parseRows rs.

Definition getPSQL (n : nat) (prefixes : list Prefix) (t : sqlTable string) : outcome (list storedEntry) :=
  rs <-? orWrap "error while listing select entries from psql: %w"
           (sqlQuery n (sqlSelectAny (map Prefix_String prefixes) t)) ;;
  parseRows rs.

Definition entryRow (e : storedEntry) : outcome (string * string) :=
  rawAttributes <-? orWrap "could not marshal attributes of entry %d for psql: %w" (toJson (storedAttributes e)) ;;
  Ok (Prefix_String (DN_Prefix (storedDN e)), rawAttributes).

(** [SET attributes = EXCLUDED.attributes]. *)
Definition setAttributes (old excluded : string) : string := excluded.

Definition storePSQL (n : nat) (entries : list storedEntry) (t : sqlTable string) : outcome (sqlTable string) :=
  rows <-? rowsOf entryRow entries ;;
  orWrap "error while inserting entries with psql: %w" (sqlExec n (sqlUpsert setAttributes rows []) t).

Definition deletePSQL (n : nat) (prefixes : list Prefix) (t : sqlTable string) : outcome (sqlTable string) :=
  orWrap "error while deleting entries in psql: %w"
    (sqlExec n (fun t => Ok (sqlDeleteAny (map Prefix_String prefixes) t)) t).

(** ** Calendars *)

Definition parseCalendarRow (r : string * string) : outcome Calendar :=
  let '(path, rawMetadata) := r in
  metadata <-? orWrap "error while decoding JSON calendar metadata field: %w" (fromJson rawMetadata) ;;
  Ok (mkCalendar path metadata).

Definition parseCalendarRows (rs : sqlTable string * option error) : outcome (list Calendar) :=
  parseEach parseCalendarRow (fst rs) (snd rs).

Definition listCalendarPSQL (n : nat) (t : sqlTable string) : outcome (list Calendar) :=
  rs <-? orWrap "error while listing calendars from psql: %w" (sqlQuery n t) ;; parseCalendarRows rs.

Definition getCalendarPSQL (n : nat) (paths : list Path) (t : sqlTable string) : outcome (list Calendar) :=
  rs <-? orWrap "error while listing select calendars from psql: %w" (sqlQuery n (sqlSelectAny paths t)) ;;
  parseCalendarRows rs.

Definition calendarRow (c : Calendar) : outcome (string * string) :=
  rawMetadata <-? orWrap "could not marshal metadata of calendar %d for psql: %w" (toJson (Metadata c)) ;;
  Ok (storedPath c, rawMetadata).

Definition setMetadata (old excluded : string) : string := excluded.

Definition storeCalendarPSQL (n : nat) (calendars : list Calendar) (t : sqlTable string) : outcome (sqlTable string) :=
  rows <-? rowsOf calendarRow calendars ;;
  orWrap "error while inserting calendars with psql: %w" (sqlExec n (sqlUpsert setMetadata rows []) t).

Definition deleteCalendarPSQL (n : nat) (paths : list Path) (t : sqlTable string) : outcome (sqlTable string) :=
  orWrap "error while deleting calendars in psql: %w" (sqlExec n (fun t => Ok (sqlDeleteAny paths t)) t).

(** ** References to objects *)

(** The columns mod_time (in microseconds), ref and etag. *)
Record refCols : Type := mkRefCols { mod_time : Z; ref : string; etag : string }.

Definition parseObjectRow (r : string * refCols) : outcome objectRef :=
  let '(path, c) := r in Ok (mkRef path (1000 * mod_time c) (ref c) (etag c)).

Definition parseObjectRows (rs : sqlTable refCols * option error) : outcome (list objectRef) :=
  parseEach parseObjectRow (fst rs) (snd rs).

Definition listObjectRefPSQL (n : nat) (t : sqlTable refCols) : outcome (list objectRef) :=
  rs <-? orWrap "error while listing object refs from psql: %w" (sqlQuery n t) ;; parseObjectRows rs.

Definition getObjectRefPSQL (n : nat) (paths : list Path) (t : sqlTable refCols) : outcome (list objectRef) :=
  rs <-? orWrap "error while listing select object refs from psql: %w" (sqlQuery n (sqlSelectAny paths t)) ;;
  parseObjectRows rs.

(** A timestamp has no nanoseconds. *)
Definition objectRow (r : objectRef) : outcome (string * refCols) :=
  Ok (refPath r, mkRefCols (refModTime r / 1000) (Ref r) (refETag r)).

(** [SET mod_time = EXCLUDED.mod_time, etag = EXCLUDED.etag]: the reference is not set. *)
Definition setTimeAndEtag (old excluded : refCols) : refCols := mkRefCols (mod_time excluded) (ref old) (etag excluded).

Definition storeObjectRefPSQL (n : nat) (refs : list objectRef) (t : sqlTable refCols) : outcome (sqlTable refCols) :=
  rows <-? rowsOf objectRow refs ;;
  orWrap "error while inserting object refs with psql: %w" (sqlExec n (sqlUpsert setTimeAndEtag rows []) t).

Definition deleteObjectRefPSQL (n : nat) (paths : list Path) (t : sqlTable refCols) : outcome (sqlTable refCols) :=
  orWrap "error while deleting object refs in psql: %w" (sqlExec n (fun t => Ok (sqlDeleteAny paths t)) t).

(** ** What the rows stand for *)

Lemma orWrap_Ok {A} msg (o : outcome A) a : orWrap msg o = Ok a -> o = Ok a.
Proof using Type. by destruct o. Qed.

Lemma orWrap_bind {A B} msg (o : outcome A) (f : A -> outcome B) b :
  (x <-? orWrap msg o ;; f x) = Ok b -> (x <-? o ;; f x) = Ok b.
Proof using Type. by destruct o. Qed.

Lemma store_runs {Cols T} (rowOf : T -> outcome (string * Cols)) set msg n (objects : list T) t t' :
  (rows <-? rowsOf rowOf objects ;; orWrap msg (sqlExec n (sqlUpsert set rows []) t)) = Ok t' ->
  exists rows, rowsOf rowOf objects = Ok rows /\ sqlUpsert set rows [] t = Ok t'.
Proof using Type.
  intros (rows & Hr & H)%obind_ok_inv. exists rows. split; [done|]. apply orWrap_Ok in H. unfold sqlExec in H.
  by destruct (callError n).
Qed.

Lemma delete_runs {Cols : Type} msg n keys (t t' : sqlTable Cols) :
  orWrap msg (sqlExec n (fun t => Ok (sqlDeleteAny keys t)) t) = Ok t' -> t' = sqlDeleteAny keys t.
Proof using Type. intros H%orWrap_Ok. unfold sqlExec in H. destruct (callError n); [done|]. by injection H as <-. Qed.

Lemma store_succeeds {Cols K T} {KK : CacheMap.Key K} {OB : Pgcache.Object K T} (parse : string * Cols -> outcome T)
    (rowOf : T -> outcome (string * Cols)) set (good : T -> Prop) msg n objects t :
  (forall o, good o -> exists c, rowOf o = Ok (keyOf o, c) /\ parse (keyOf o, c) = Ok o) ->
  callError n = None -> (forall o, o ∈ objects -> good o) -> NoDup (map keyOf objects) ->
  exists t', (rows <-? rowsOf rowOf objects ;; orWrap msg (sqlExec n (sqlUpsert set rows []) t)) = Ok t'.
Proof using Type.
  intros HL HC HG HN. destruct (rowsOf_good parse rowOf good HL objects HG) as (cs & Hr & Hlen). rewrite Hr. cbn.
  unfold sqlExec. rewrite HC. set (rows := zip (map keyOf objects) cs).
  assert (map fst rows = map keyOf objects) as HF by (apply fst_zip; rewrite length_map; lia).
  destruct (sqlUpsert_ends set rows [] t) as [[_ [t' ->]]|[Hn _]]; [by exists t'|].
  destruct Hn. rewrite HF. split; [done|]. intros k _. apply not_elem_of_nil.
Qed.

Lemma delete_succeeds {Cols : Type} msg n keys (t : sqlTable Cols) :
  callError n = None -> exists t', orWrap msg (sqlExec n (fun t => Ok (sqlDeleteAny keys t)) t) = Ok t'.
Proof using Type. intros HC. unfold sqlExec. rewrite HC. by eexists. Qed.

(** An entry whose DN was parsed, without a slash, and whose attributes JSON keeps. *)
Definition wellStored (e : storedEntry) : Prop :=
  parsed (storedDN e) /\ slashFree (storedDN e) /\ jsonKept (storedAttributes e).

Lemma entryRow_law e : wellStored e ->
  exists c, entryRow e = Ok (keyOf e, c) /\ parseEntryRow (keyOf e, c) = Ok e.
Proof using Type.
  intros ([Hn Hc Hl] & Hs & raw & H1 & H2). exists raw. unfold entryRow, parseEntryRow. rewrite H1, H2. split; [done|].
  assert (ParsePrefix (Prefix_String (DN_Prefix (storedDN e))) = Ok (DN_Prefix (storedDN e))) as HP.
  { apply parseComponentSlice_String; [done| |by apply Forall_DN_Prefix..]. intros E. by apply DN_Prefix_nil in E. }
  change (keyOf e) with (Prefix_String (DN_Prefix (storedDN e))). rewrite HP. cbn. rewrite DN_Prefix_DN. by destruct e.
Qed.

(** C18: A transaction of stores and deletes on the table of entries, when it succeeds,
    leaves rows that stand for the map with those updates applied in order: listing them
    gives exactly its entries and getting some exactly those of their keys that exist.  It
    does succeed when no call fails and no statement stores a key twice.  The entries that
    are stored are to have parsed DNs without slashes and attributes that JSON keeps. *)
Theorem entries_rows (n : nat) (ws : list (sqlWrite Prefix storedEntry)) (t : sqlTable string)
    (m : gmap string storedEntry) :
  represents parseEntryRow t m ->
  (forall objects e, WStore objects ∈ ws -> e ∈ objects -> wellStored e) ->
  let m' := foldl applyRow m (flat_map updatesOf ws) in
  (forall t', runWrites storePSQL deletePSQL n ws t = Ok t' ->
     represents parseEntryRow t' m'
     /\ (forall k l, listPSQL k t' = Ok l -> Permutation l (map snd (map_to_list m')))
     /\ (forall k prefixes l, NoDup (map Prefix_String prefixes) -> getPSQL k prefixes t' = Ok l ->
           Permutation l (omap (fun s => m' !! s) (map Prefix_String prefixes))))
  /\ ((forall k, callError k = None) -> (forall objects, WStore objects ∈ ws -> NoDup (map keyOf objects)) ->
      exists t', runWrites storePSQL deletePSQL n ws t = Ok t').
Proof using Type.
  intros HR HW m'. split.
  2: { intros HC HN. apply (runWrites_succeed wellStored); [| |done|].
       - intros k objects t1. apply (store_succeeds parseEntryRow), entryRow_law.
       - intros k keys t1. apply delete_succeeds.
       - intros objects Hin. split; [by apply HN|]. intros o. by apply HW. }
  intros t' H. assert (represents parseEntryRow t' m') as HR'.
  { apply (represents_writes parseEntryRow entryRow setAttributes wellStored (fun _ _ => True)) with (5 := HR) (7 := H).
    - apply entryRow_law.
    - intros o c v0 c0 Ho Hrow _ _. destruct (entryRow_law o Ho) as (c' & H1 & H2). rewrite H1 in Hrow. by injection Hrow as <-.
    - intros k objects t1 t2. apply store_runs.
    - intros k keys t1 t2. apply delete_runs.
    - clear H HR m' n t t'. revert m. induction ws as [|w ws IH]; intros m; [done|]. split.
      + destruct w as [objects|]; [|done]. intros e He. split; [|done]. apply (HW objects); [by left|done].
      + apply IH. intros objects e Hin. apply HW. by right. }
  split; [done|]. split.
  - intros k l Hl. apply (represents_list parseEntryRow t' m' k l HR'). by apply orWrap_bind in Hl.
  - intros k prefixes l HN Hl. apply (represents_get parseEntryRow t' m' k _ l HR' HN). by apply orWrap_bind in Hl.
Qed.

Lemma calendarRow_law c : jsonKept (Metadata c) ->
  exists cols, calendarRow c = Ok (keyOf c, cols) /\ parseCalendarRow (keyOf c, cols) = Ok c.
Proof using Type.
  intros (raw & H1 & H2). exists raw. unfold calendarRow, parseCalendarRow. rewrite H1, H2. split; [done|]. by destruct c.
Qed.

Lemma calendars_rows (n : nat) (ws : list (sqlWrite Path Calendar)) (t t' : sqlTable string) (m : gmap string Calendar) :
  represents parseCalendarRow t m ->
  (forall objects c, WStore objects ∈ ws -> c ∈ objects -> jsonKept (Metadata c)) ->
  runWrites storeCalendarPSQL deleteCalendarPSQL n ws t = Ok t' ->
  let m' := foldl applyRow m (flat_map updatesOf ws) in
  represents parseCalendarRow t' m'
  /\ (forall k l, listCalendarPSQL k t' = Ok l -> Permutation l (map snd (map_to_list m')))
  /\ (forall k paths l, NoDup paths -> getCalendarPSQL k paths t' = Ok l ->
        Permutation l (omap (fun s => m' !! s) paths)).
Proof using Type.
  intros HR HW H m'. assert (represents parseCalendarRow t' m') as HR'.
  { apply (represents_writes parseCalendarRow calendarRow setMetadata (fun c => jsonKept (Metadata c)) (fun _ _ => True)) with (5 := HR) (7 := H).
    - apply calendarRow_law.
    - intros o c v0 c0 Ho Hrow _ _. destruct (calendarRow_law o Ho) as (c' & H1 & H2). rewrite H1 in Hrow. by injection Hrow as <-.
    - intros k objects t1 t2. apply store_runs.
    - intros k keys t1 t2 H1. rewrite map_id. by eapply delete_runs.
    - clear H HR m' n t t'. revert m. induction ws as [|w ws IH]; intros m; [done|]. split.
      + destruct w as [objects|]; [|done]. intros e He. split; [|done]. apply (HW objects); [by left|done].
      + apply IH. intros objects e Hin. apply HW. by right. }
  split; [done|]. split.
  - intros k l Hl. apply (represents_list parseCalendarRow t' m' k l HR'). by apply orWrap_bind in Hl.
  - intros k paths l HN Hl. apply (represents_get parseCalendarRow t' m' k _ l HR' HN). by apply orWrap_bind in Hl.
Qed.

(** A reference as a row can hold it: its time in whole microseconds. *)
Definition wholeMicros (r : objectRef) : Prop := refModTime r mod 1000 = 0.

Lemma objectRow_law r : wholeMicros r ->
  exists c, objectRow r = Ok (keyOf r, c) /\ parseObjectRow (keyOf r, c) = Ok r.
Proof using Type.
  intros Hr. eexists. split; [reflexivity|]. unfold parseObjectRow. cbn. unfold wholeMicros in Hr.
  rewrite <- (Z_div_exact_2 (refModTime r) 1000) by lia. by destruct r.
Qed.

(** The rows of the references stand for their map as long as whoever stores a
    reference over another keeps its identifier, since the statement does not set it:
    under that condition, which a process that looked the old one up meets, a transaction
    that succeeds applies its updates in order, and lists and gets give what they should. *)
Theorem refs_rows (n : nat) (ws : list (sqlWrite Path objectRef)) (t t' : sqlTable refCols) (m : gmap string objectRef) :
  represents parseObjectRow t m ->
  storables wholeMicros (fun old new => Ref old = Ref new) m ws ->
  runWrites storeObjectRefPSQL deleteObjectRefPSQL n ws t = Ok t' ->
  let m' := foldl applyRow m (flat_map updatesOf ws) in
  represents parseObjectRow t' m'
  /\ (forall k l, listObjectRefPSQL k t' = Ok l -> Permutation l (map snd (map_to_list m')))
  /\ (forall k paths l, NoDup paths -> getObjectRefPSQL k paths t' = Ok l ->
        Permutation l (omap (fun s => m' !! s) paths)).
Proof using Type.
  intros HR HW H m'. assert (represents parseObjectRow t' m') as HR'.
  { apply (represents_writes parseObjectRow objectRow setTimeAndEtag wholeMicros (fun old new => Ref old = Ref new)) with (5 := HR) (6 := HW) (7 := H).
    - apply objectRow_law.
    - intros o c v0 c0 Ho Hrow Hover Hold. destruct (objectRow_law o Ho) as (c' & H1 & H2). rewrite H1 in Hrow.
      injection Hrow as <-. unfold objectRow in H1. injection H1 as <-. rewrite <- H2. cbn in Hold |- *.
      injection Hold as <-. cbn in Hover. by rewrite Hover.
    - intros k objects t1 t2. apply store_runs.
    - intros k keys t1 t2 H1. rewrite map_id. by eapply delete_runs. }
  split; [done|]. split.
  - intros k l Hl. apply (represents_list parseObjectRow t' m' k l HR'). by apply orWrap_bind in Hl.
  - intros k paths l HN Hl. apply (represents_get parseObjectRow t' m' k _ l HR' HN). by apply orWrap_bind in Hl.
Qed.
End Rows.

(** ** Examples *)

#[local] Instance calmConn : PgConn := {| callError _ := None; rowsEnd _ := None |}.
#[local] Instance plainJson : JsonText Attributes := {|
  toJson a := match map_to_list a with [] => Ok "{}" | _ => Err (PlainError "json") end;
  fromJson s := if (s =? "{}")%string then Ok ∅ else Err (PlainError "json")
|}.

Definition sampleEntry (name : string) : storedEntry :=
  mkStored [NewComponent "ou" name; NewComponent "dc" "teapot"] ∅.

Lemma sampleEntry_stored name :
  name = "users" \/ name = "groups" -> wellStored (U := asciiOnly) (sampleEntry name).
Proof.
  intros [->| ->]; (split; [|split; [by repeat constructor|by exists "{}"]]);
    (split; [done| |by repeat constructor]); repeat constructor.
Qed.

Definition sampleWrites : list (sqlWrite Prefix storedEntry) :=
  [WStore [sampleEntry "users"; sampleEntry "groups"]; WDelete [DN_Prefix (storedDN (sampleEntry "users"))]; WStore [sampleEntry "groups"]].

Lemma entries_rows_witness :
  exists t', runWrites storePSQL deletePSQL 0 sampleWrites [] = Ok t'
    /\ forall k l, listPSQL (U := asciiOnly) k t' = Ok l ->
         Permutation l (map snd (map_to_list (foldl (applyRow (K := Prefix)) ∅ (flat_map updatesOf sampleWrites)))).
Proof.
  assert (forall objects e, WStore objects ∈ sampleWrites -> e ∈ objects -> wellStored (U := asciiOnly) e) as HW.
  { intros objects e H He.
    apply elem_of_cons in H as [[= ->]|H]; [|apply elem_of_cons in H as [?|H]; [done|apply elem_of_cons in H as [[= ->]|H]]].
    - apply elem_of_cons in He as [->|[->|?%not_elem_of_nil]%elem_of_cons]; [| |done]; apply sampleEntry_stored; auto.
    - apply elem_of_cons in He as [->|?%not_elem_of_nil]; [|done]. apply sampleEntry_stored. by right.
    - by apply not_elem_of_nil in H. }
  destruct (entries_rows (U := asciiOnly) 0 sampleWrites [] ∅ (represents_empty _) HW) as [H1 H2].
  destruct H2 as (t' & Ht'); [done| |].
  - intros objects H.
    apply elem_of_cons in H as [[= ->]|H]; [|apply elem_of_cons in H as [?|H]; [done|apply elem_of_cons in H as [[= ->]|H]]].
    + eapply bool_decide_eq_true_1. vm_compute. reflexivity.
    + apply NoDup_singleton.
    + by apply not_elem_of_nil in H.
  - exists t'. split; [done|]. by apply (H1 t' Ht').
Defined.

(** One entry twice in a statement is refused. *)
Example stored_twice : storePSQL 0 [sampleEntry "users"; sampleEntry "users"] [] =
  Err (Errorf "error while inserting entries with psql: %w" [ErrCardinality]).
Proof. by vm_compute. Qed.

Definition refAt (ref : string) (time : Z) (etag : string) : objectRef := mkRef "/alice/cal/1.ics" time ref etag.
Definition refWrites : list (sqlWrite Path objectRef) := [WStore [refAt "u1" 1000 "e1"]; WStore [refAt "u1" 2000 "e2"]].

Lemma refs_rows_witness :
  exists t', runWrites storeObjectRefPSQL deleteObjectRefPSQL 0 refWrites [] = Ok t'
    /\ forall k l, listObjectRefPSQL k t' = Ok l ->
         Permutation l (map snd (map_to_list (foldl (applyRow (K := Path)) ∅ (flat_map updatesOf refWrites)))).
Proof.
  eexists. split; [reflexivity|].
  refine (proj1 (proj2 (refs_rows 0 refWrites [] _ ∅ (represents_empty _) _ eq_refl))).
  cbn. split; [|split; [|done]].
  - intros o [->|?%not_elem_of_nil]%elem_of_cons; [|done]. split; [done|]. intros v0. by rewrite lookup_empty.
  - intros o [->|?%not_elem_of_nil]%elem_of_cons; [|done]. split; [done|]. intros v0. vm_compute. by intros [= <-].
Defined.

(** Two processes that create one object, each under an identifier of its own: the row has
    the identifier of the first with the hash of the second, whose content nobody finds. *)
Example second_creator_lost :
  (t <-? storeObjectRefPSQL 0 [refAt "u1" 1000 "e1"] [] ;; t' <-? storeObjectRefPSQL 1 [refAt "u2" 2000 "e2"] t ;;
   listObjectRefPSQL 2 t') = Ok [refAt "u1" 2000 "e2"].
Proof. reflexivity. Qed.

(** The time of a row has no nanoseconds, that of the cache has. *)
Example nanoseconds_lost :
  (t <-? storeObjectRefPSQL 0 [refAt "u1" 1234 "e1"] [] ;; listObjectRefPSQL 1 t) = Ok [refAt "u1" 1000 "e1"].
Proof. reflexivity. Qed.
