(* ===== verification/HttpHandler.v ===== *)
(** * Answering requests

    lib/httphandler: handlers that return errors, and what is answered to each kind of
    error; lib/webhandler: the same for handlers that return components, which a renderer
    turns into pages.  The connection, the text of errors and the renderer are parameters. *)

From stdpp Require Import base list strings.
From S2P Require Import Prelude GoStrings.
#[local] Open Scope Z_scope.
#[local] Set Warnings "-clear-no-such-hyp,-register-all".

Definition ErrNotFound : error := PlainError "not found".
Definition ErrInternal : error := PlainError "internal error".
Definition ErrBadRequest : error := PlainError "bad request".
Definition ErrLengthMisatch : error := PlainError "length mismatch".

Definition StatusOK : Z := 200.
Definition StatusFound : Z := 302.
Definition StatusBadRequest : Z := 400.
Definition StatusUnauthorized : Z := 401.
Definition StatusNotFound : Z := 404.
Definition StatusInternalServerError : Z := 500.

(** The errors of a handler: others, the two kinds of this package, and errors that wrap. *)
Inductive herror : Type :=
| Other (e : error)
| InternalError (internal : error) (external : option error)
| RedirectError (url : string) (status : Z)
| Wrapping (msg : string) (wrapped : list herror).

Definition External (external : option error) : error := match external with Some e => e | None => ErrInternal end.

Section FirstOf.
Context {A : Type} (f : herror -> option A).
Fixpoint firstOf (l : list herror) : option A :=
  match l with [] => None | e :: rest => match f e with Some a => Some a | None => firstOf rest end end.
End FirstOf.

(** [errors.As]: the first of the kind in the tree. *)
Fixpoint asInternal (e : herror) : option (error * option error) :=
  match e with
  | InternalError i x => Some (i, x)
  | Wrapping _ l => firstOf asInternal l
  | _ => None
  end.

Fixpoint asRedirect (e : herror) : option (string * Z) :=
  match e with
  | RedirectError url status => Some (url, status)
  | Wrapping _ l => firstOf asRedirect l
  | _ => None
  end.

(** [errors.Is]: an internal error does not unwrap. *)
Fixpoint herrorIs (target : string) (e : herror) : bool :=
  match e with
  | Other e => isError target e
  | Wrapping _ l => existsb (herrorIs target) l
  | _ => false
  end.

(** ** lib/httphandler *)

(** What was answered so far; a second status is ignored. *)
Record ResponseWriter : Type := mkWriter { rw_status : option Z; rw_location : option string; rw_body : string }.
Definition newWriter : ResponseWriter := mkWriter None None "".

Definition WriteHeader (status : Z) (w : ResponseWriter) : ResponseWriter :=
  match rw_status w with Some _ => w | None => mkWriter (Some status) (rw_location w) (rw_body w) end.

Definition setLocation (url : string) (w : ResponseWriter) : ResponseWriter :=
  mkWriter (rw_status w) (Some url) (rw_body w).

(** The connection: how many bytes it takes, after those already written, and its error;
    and the texts of errors. *)
Class HttpEnv : Type := {
  takes : string -> string -> Z * option error;
  errorText : error -> string;
  herrorText : herror -> string
}.

Section Handlers.
Context {HE : HttpEnv}.

(** [w.Write]: a status that was not written is 200. *)
Definition bodyWrite (data : string) (w : ResponseWriter) : (Z * option error) * ResponseWriter :=
  let w := WriteHeader StatusOK w in
  let '(n, err) := takes (rw_body w) data in
  ((n, err), mkWriter (rw_status w) (rw_location w) (rw_body w +:+ String.substring 0 (Z.to_nat n) data)).

(** [Write]. *)
Definition Write (status : Z) (data : string) : Go ResponseWriter unit := fun w =>
  let '((l, err), w) := bodyWrite data (WriteHeader status w) in
  match err with
  | Some e => (Err (Errorf "error while writing response data: %w" [e]), w)
  | None =>
      if l =? Z.of_nat (String.length data) then (Ok tt, w)
      else (Err (Errorf "expected to write %d bytes, instead wrote %d: %w" [ErrLengthMisatch]), w)
  end.

(** [http.Redirect]; the short page that it writes is left out. *)
Definition httpRedirect (url : string) (status : Z) (w : ResponseWriter) : ResponseWriter :=
  WriteHeader status (setLocation url w).

Section Request.
(** The identifier of the request, and whom errors are reported to. *)
Context (requestId contact : string).

Definition reportTo (text : string) : string :=
  text +:+ ". please report this to: " +:+ contact +:+ ". request id: " +:+ requestId.

Definition DefaultInternalHandler (external : option error) : Go ResponseWriter unit :=
  Write StatusInternalServerError (reportTo (errorText (External external))).

Definition DefaultRedirectHandler (url : string) (status : Z) : Go ResponseWriter unit :=
  fun w => (Ok tt, httpRedirect url status w).

Definition DefaultNotFoundHandler (err : herror) : Go ResponseWriter unit := Write StatusNotFound (herrorText err).
Definition DefaultBadRequestHandler (err : herror) : Go ResponseWriter unit := Write StatusBadRequest (herrorText err).
Definition DefaultGenericHandler (err : herror) : Go ResponseWriter unit :=
  Write StatusBadRequest (reportTo "unhandled error").

(** [Adapt]: which handler is given an error.  Its own error is only logged. *)
Record ErrorHandlers : Type := mkHandlers {
  InternalHandler : option error -> Go ResponseWriter unit;
  RedirectHandler : string -> Z -> Go ResponseWriter unit;
  NotFoundHandler : herror -> Go ResponseWriter unit;
  BadRequestHandler : herror -> Go ResponseWriter unit;
  GenericHandler : herror -> Go ResponseWriter unit
}.

Definition DefaultErrorHandlers : ErrorHandlers := {|
  InternalHandler := DefaultInternalHandler;
  RedirectHandler := DefaultRedirectHandler;
  NotFoundHandler := DefaultNotFoundHandler;
  BadRequestHandler := DefaultBadRequestHandler;
  GenericHandler := DefaultGenericHandler
|}.

Definition handlerFor (hs : ErrorHandlers) (err : herror) : Go ResponseWriter unit :=
  match asInternal err with
  | Some (_, external) => InternalHandler hs external
  | None =>
      match asRedirect err with
      | Some (url, status) => RedirectHandler hs url status
      | None =>
          if herrorIs "not found" err then NotFoundHandler hs err
          else if herrorIs "bad request" err then BadRequestHandler hs err
          else GenericHandler hs err
      end
  end.

(** An error that is only logged. *)
Definition logged (m : Go ResponseWriter unit) : Go ResponseWriter unit :=
  fun w => match m w with (Err _, w') => (Ok tt, w') | r => r end.

(** A handler gives its error as a value; it can panic. *)
Definition Adapt (hs : ErrorHandlers) (fn : Go ResponseWriter (option herror)) : Go ResponseWriter unit :=
  err <-- fn ;;
  match err with None => ret tt | Some err => logged (handlerFor hs err) end.

(** ** lib/webhandler *)

(** What a handler or an error handler shows. *)
Context {Component : Type}.

Class Renderer : Type := {
  (** A page, or a part of one. *)
  isPage : Component -> bool;
  ErrorNotification : string -> Component;
  NotFoundText : Component;
  alreadyLoaded : option error;
  skeleton : Component -> outcome Component;
  renderPage : Component -> outcome string;
  renderPart : Component -> outcome string
}.

Context {RD : Renderer}.
(** The headers of HTMX. *)
Context (isRequest isBoosted : bool).

Definition ErrSkeleton : error := PlainError "error while rendering the page skeleton".
Definition ErrRendering : error := PlainError "rendering error".

(** The renderer writes what it rendered. *)
Definition rendered (o : outcome string) : Go ResponseWriter unit := fun w =>
  match o with
  | Ok text => let '((_, err), w) := bodyWrite text w in (match err with Some e => Err e | None => Ok tt end, w)
  | Err e => (Err e, w)
  | Panic m => (Panic m, w)
  | Diverge => (Diverge, w)
  end.

Definition web_InternalHandler (external : option error) (w : ResponseWriter) : option Component * ResponseWriter :=
  (Some (ErrorNotification (reportTo (errorText (External external)))), WriteHeader StatusInternalServerError w).
Definition web_RedirectHandler (url : string) (status : Z) (w : ResponseWriter) : option Component * ResponseWriter :=
  (None, if isRequest then setLocation url w else httpRedirect url status w).
Definition web_NotFoundHandler (err : herror) (w : ResponseWriter) : option Component * ResponseWriter :=
  (Some NotFoundText, WriteHeader StatusNotFound w).
Definition web_BadRequestHandler (err : herror) (w : ResponseWriter) : option Component * ResponseWriter :=
  (Some (ErrorNotification (reportTo (herrorText err))), WriteHeader StatusBadRequest w).
Definition web_GenericHandler (err : herror) (w : ResponseWriter) : option Component * ResponseWriter :=
  (Some (ErrorNotification (reportTo (herrorText err))), WriteHeader StatusBadRequest w).

Definition wrapErrorHandler (eh : ResponseWriter -> option Component * ResponseWriter) : Go ResponseWriter unit := fun w =>
  let '(component, w) := eh w in
  match component with
  | None => (Ok tt, w)
  | Some component =>
      match alreadyLoaded with
      | Some e => (Err (Errorf "error while loading already loaded for error handler: %w" [e]), w)
      | None =>
          if isRequest && negb isBoosted
          then wrapf "error while rendering error handler: %w" [] (rendered (renderPart component)) w
          else (component <-- wrapf "error while rendering skeleton for error handler: %w" [] (lift (skeleton component)) ;;
                wrapf "error while rendering error handler: %w" [] (rendered (renderPage component))) w
      end
  end.

Definition webHandlers : ErrorHandlers := {|
  InternalHandler x := wrapErrorHandler (web_InternalHandler x);
  RedirectHandler url status := wrapErrorHandler (web_RedirectHandler url status);
  NotFoundHandler err := wrapErrorHandler (web_NotFoundHandler err);
  BadRequestHandler err := wrapErrorHandler (web_BadRequestHandler err);
  GenericHandler err := wrapErrorHandler (web_GenericHandler err)
|}.

(** What a rendering leaves to be answered. *)
Definition orInternal {A} (external : error) (m : Go ResponseWriter A) : Go ResponseWriter (A + herror) := fun w =>
  match m w with
  | (Ok a, w') => (Ok (inl a), w')
  | (Err e, w') => (Ok (inr (InternalError e (Some external))), w')
  | (Panic p, w') => (Panic p, w')
  | (Diverge, w') => (Diverge, w')
  end.

Definition errorOf {A} (r : A + herror) : option herror := match r with inl _ => None | inr e => Some e end.

(** What a handler that returns a component does, as one that returns an error. *)
Definition showing (fn : Go ResponseWriter (Component + herror)) : Go ResponseWriter (option herror) :=
  r <-- fn ;;
  match r with
  | inr err => ret (Some err)
  | inl component =>
      match alreadyLoaded with
      | Some e => ret (Some (InternalError e None))
      | None =>
          if isPage component then
            r <-- orInternal ErrSkeleton (lift (skeleton component)) ;;
            match r with
            | inr err => ret (Some err)
            | inl component => r <-- orInternal ErrRendering (rendered (renderPage component)) ;; ret (errorOf r)
            end
          else r <-- orInternal ErrRendering (rendered (renderPart component)) ;; ret (errorOf r)
      end
  end.

Definition web_Adapt (fn : Go ResponseWriter (Component + herror)) : Go ResponseWriter unit :=
  Adapt webHandlers (showing fn).
End Request.

(** ** What is answered *)

(** A connection takes what it is given. *)
Definition takesAll : Prop := forall sent data, takes sent data = (Z.of_nat (String.length data), None).

Lemma substring_all s : String.substring 0 (String.length s) s = s.
Proof using Type. induction s as [|c s IH]; cbn; [done|]. by rewrite IH. Qed.

Lemma Write_spec status data w :
  takesAll -> rw_status w = None ->
  Write status data w = (Ok tt, mkWriter (Some status) (rw_location w) (rw_body w +:+ data)).
Proof using Type.
  intros HT Hw. unfold Write, bodyWrite, WriteHeader. rewrite Hw. cbn. rewrite HT, Z.eqb_refl. cbn.
  by rewrite Nat2Z.id, substring_all.
Qed.

(** The status and the text that each error is answered with. *)
Definition answerOf (requestId contact : string) (err : herror) : Z * option string * string :=
  match asInternal err with
  | Some (_, external) => (StatusInternalServerError, None, reportTo requestId contact (errorText (External external)))
  | None =>
      match asRedirect err with
      | Some (url, status) => (status, Some url, "")
      | None =>
          if herrorIs "not found" err then (StatusNotFound, None, herrorText err)
          else if herrorIs "bad request" err then (StatusBadRequest, None, herrorText err)
          else (StatusBadRequest, None, reportTo requestId contact "unhandled error")
      end
  end.

(** A handler that fails before it answered anything is answered for, whatever its
    error wraps: an internal error by a 500 with its external text alone, a redirection by
    its status and location, an error that is or wraps the one of what is not found by a
    404 and that of bad requests by a 400, each with the text of the error, any other by a
    400 that says nothing of it; the kinds are tried in this order. *)
Theorem Adapt_answers (requestId contact : string) (fn : Go ResponseWriter (option herror)) (err : herror) :
  takesAll -> fn newWriter = (Ok (Some err), newWriter) ->
  let '(status, location, body) := answerOf requestId contact err in
  Adapt (DefaultErrorHandlers requestId contact) fn newWriter = (Ok tt, mkWriter (Some status) location body).
Proof using Type.
  intros HT HF. unfold answerOf, Adapt, bind. rewrite HF. unfold logged, handlerFor.
  destruct (asInternal err) as [[i x]|]; [by unfold DefaultErrorHandlers, InternalHandler, DefaultInternalHandler; rewrite Write_spec|].
  destruct (asRedirect err) as [[url status]|]; [done|].
  destruct (herrorIs "not found" err); [by cbn; unfold DefaultNotFoundHandler; rewrite Write_spec|].
  destruct (herrorIs "bad request" err); [by cbn; unfold DefaultBadRequestHandler; rewrite Write_spec|].
  cbn. unfold DefaultGenericHandler. by rewrite Write_spec.
Qed.

(** What an internal error hides, and any error that is none of these. *)
Lemma internal_hidden requestId contact i1 i2 x :
  answerOf requestId contact (InternalError i1 x) = answerOf requestId contact (InternalError i2 x).
Proof using Type. done. Qed.

(** Pages show what plain answers hide: the text of an error of none of the kinds. *)
Lemma web_generic_shown {Component : Type} {RD : Renderer (Component := Component)} requestId contact err w :
  fst (web_GenericHandler requestId contact err w) = Some (ErrorNotification (reportTo requestId contact (herrorText err))).
Proof using Type. done. Qed.
End Handlers.

(** ** Examples *)

#[local] Instance plainEnv : HttpEnv := {|
  takes _ data := (Z.of_nat (String.length data), None);
  errorText e := match e with PlainError t => t | _ => "error" end;
  herrorText e := match e with Other (PlainError t) => t | Wrapping m _ => m | _ => "error" end
|}.

Definition lostDatabase : herror :=
  Wrapping "while listing" [Other (PlainError "bad request"); InternalError (PlainError "password=x refused") None].

Lemma Adapt_answers_witness :
  Adapt (DefaultErrorHandlers "7" "root") (ret (Some lostDatabase)) newWriter
  = (Ok tt, mkWriter (Some 500) None "internal error. please report this to: root. request id: 7").
Proof. refine (Adapt_answers "7" "root" (ret (Some lostDatabase)) lostDatabase _ eq_refl). done. Defined.
