(* ===== verification/Kontakte.v ===== *)
(** * The contacts service

    service/kontakte: who may see the page of a user, the list of users and the form for
    changing a password, and what the form does to the directory.  The pages are HTML and
    stand here for what they show. *)

From Stdlib Require Import Ascii.
From stdpp Require Import base list strings.
From S2P Require Import Prelude GoStrings GoPath GoSearch Tmpl LdapClient HttpAuth AuthExamples HttpHandler.
#[local] Open Scope Z_scope.
#[local] Set Warnings "-clear-no-such-hyp,-register-all".

Definition ErrMismatchedPasswords : error := PlainError "passwords don't match".
Definition InvalidGroupDN : string := "<invalid>".

Definition PathLogin : string := "/login".
Definition PathIndex : string := "/".
Definition PathUsers : string := "/users".

Definition PathUser (username : string) : string := JoinPath [PathUsers; username].
Definition PathPasswd (username : string) : string := JoinPath [PathUsers; username; "passwd"].

(** The name of a group in its DN: [fmt.Sscanf] of its first part, where %s skips spaces
    and reads up to one.  (Only the spaces of ASCII.) *)
Fixpoint token (s : string) : string :=
  match s with
  | String c s' => if isSpaceByte c then "" else String c (token s')
  | EmptyString => ""
  end.

Definition groupName (access : string) : string :=
  let first := hd "" (Split access ","%char) in
  match CutPrefix first "cn=" with
  | Some rest => let name := token (trimLeft rest) in if (name =? "")%string then InvalidGroupDN else name
  | None => InvalidGroupDN
  end.

(** What a page shows. *)
Inductive Component : Type :=
| passwd (username : string) (adminChange : bool)
| dialogError (err : error)
| dialogSuccess (username message : string)
| userPage (user : User)
| usersPage (users : list User).

(** The answer of a page: the status that it wrote, and its component or error. *)
Record Reply : Type := mkReply { written : option Z; result : Component + herror }.

Definition plain (c : Component) : Reply := mkReply None (inl c).
Definition redirect (url : string) : Reply := mkReply None (inr (RedirectError url StatusFound)).
Definition internal (e : error) : Reply := mkReply None (inr (InternalError e None)).
Definition invalidMethod : Reply :=
  mkReply None (inr (Wrapping "invalid method %q: %w" [Other HttpHandler.ErrBadRequest])).

Definition canViewUser (auth : option Auth) (username : string) : bool :=
  match auth with
  | Some auth => (AuthUsername auth =? username)%string || AuthAdmin auth
  | None => false
  end.

(** An error as a value. *)
Definition attempt {S A} (m : Go S A) : Go S (A + error) := fun s =>
  match m s with
  | (Ok a, s') => (Ok (inl a), s')
  | (Err e, s') => (Ok (inr e), s')
  | (Panic p, s') => (Panic p, s')
  | (Diverge, s') => (Diverge, s')
  end.

Section Pages.
Context {C : DirConn} {T : TemplateLang}.
Variables (withUsername : string -> Params) (factory : Factory).

(** [ldapFactory.NewClient], what the page does with its client, and [defer client.Close]:
    an error of the first is an internal one. *)
Definition usingClient {A} (use : Conn -> Go Client A) (k : A + error -> Reply) : Go World Reply := fun w =>
  match withClient factory (fun conn => attempt (use conn)) w with
  | (Ok r, w') => (Ok (k r), w')
  | (Err e, w') => (Ok (internal e), w')
  | (Panic p, w') => (Panic p, w')
  | (Diverge, w') => (Diverge, w')
  end.

Definition Kontakte_Passwd (auth : option Auth) (method : Method) (username password repeatPassword : string) : Go World Reply :=
  if negb (canViewUser auth username) then ret (redirect PathIndex)
  else match method, auth with
  | MethodGet, Some auth => ret (plain (passwd username (AuthAdmin auth && negb (AuthUsername auth =? username)%string)))
  | MethodPost, Some auth =>
      if ((password =? "") || (repeatPassword =? ""))%string
      then ret (mkReply (Some StatusBadRequest) (inl (dialogError (Errorf "invalid passwd request: %w" [ErrMissingCredentials]))))
      else if negb (password =? repeatPassword)%string
      then ret (mkReply (Some StatusBadRequest) (inl (dialogError (Errorf "invalid passwd request: %w" [ErrMismatchedPasswords]))))
      else if negb (AuthUsername auth =? username)%string && negb (AuthAdmin auth)
      then ret (mkReply (Some HttpHandler.StatusUnauthorized)
                  (inl (dialogError (Errorf "not authorized to perform password update: %w" [HttpHandler.ErrBadRequest]))))
      else
        usingClient (fun conn => Passwd withUsername factory conn username password) (fun r =>
          match r with
          | inr e => mkReply (Some HttpHandler.StatusUnauthorized) (inl (dialogError (Errorf "error while performing LDAP passwd: %w" [e])))
          | inl _ => mkReply (Some StatusOK) (inl (dialogSuccess username "The password has been updated successfully."))
          end)
  | _, _ => ret invalidMethod
  end.

Definition Kontakte_User (auth : option Auth) (method : Method) (username : string) : Go World Reply :=
  if negb (canViewUser auth username) then ret (redirect PathIndex)
  else match method with
  | MethodGet =>
      usingClient (fun conn => Client_User withUsername factory conn username) (fun r =>
        match r with
        | inr e => internal (Errorf "error while fetching user %q from LDAP: %w" [e])
        | inl usr => plain (userPage usr)
        end)
  | _ => ret invalidMethod
  end.

Definition Kontakte_Users (auth : option Auth) (method : Method) : Go World Reply :=
  match auth with
  | Some auth =>
      if negb (AuthAdmin auth) then ret (redirect PathIndex)
      else match method with
      | MethodGet =>
          usingClient (fun conn => Users withUsername factory conn) (fun r =>
            match r with
            | inr e => internal (Errorf "error while enumerating users from LDAP: %w" [e])
            | inl usrs => plain (usersPage usrs)
            end)
      | _ => ret invalidMethod
      end
  | None => ret (redirect PathIndex)
  end.

Definition Kontakte_Index (auth : option Auth) : Reply :=
  match auth with Some auth => redirect (PathUser (AuthUsername auth)) | None => redirect PathLogin end.

Definition Kontakte_NotFound (auth : option Auth) (path : string) : Reply :=
  if (path =? PathIndex)%string then Kontakte_Index auth else mkReply None (inr (Other HttpHandler.ErrNotFound)).

(** ** Who sees and changes what *)

Context {DL : DirLaws C} {TL : TemplateLaws T}.

(** The one entry of a user of that name. *)
Definition entryOf (w : World) (username : string) (entry : Entry) : Prop :=
  exists fil, Render (usersFilter factory) (withUsername username) = Ok fil
    /\ entriesOf w (mkSearch (usersDN factory) fil) = [entry] /\ GetAttributeValue entry "cn" = username.

(** The passwords of all entries but one are the same. *)
Definition onlyOf (w w' : World) (dn : string) : Prop :=
  forall dn' p, dn' <> dn -> accepts w' dn' p <-> accepts w dn' p.

Lemma usingClient_spec {A} (use : Conn -> Go Client A) k w (P : World -> A -> Prop) (E : World -> Prop) :
  (forall conn c, sameDir w (world c) ->
     match use conn c with (Ok a, c') => P (world c') a | (Err _, c') => E (world c') | _ => False end) ->
  (forall w1 w2 a, P w1 a -> sameDir w1 w2 -> P w2 a) -> (forall w1 w2, E w1 -> sameDir w1 w2 -> E w2) ->
  match usingClient use k w with
  | (Ok r, w') => (exists a, r = k (inl a) /\ P w' a) \/ (exists e, r = k (inr e) /\ E w') \/ (exists e, r = internal e /\ sameDir w w')
  | _ => False
  end.
Proof using Type.
  intros HU HP HEE. unfold usingClient, withClient, NewClient, bind, wrapf. pose proof (poolGet_law w) as HG.
  destruct (poolGet w) as [[conn|e|m|] w1]; try done.
  2: { right. right. eexists. split; [done|apply HG]. }
  destruct HG as [HG _]. pose proof (SimpleBind_law conn (rootDN factory) (rootPasswd factory) w1) as HB.
  assert (forall w2, sameDir w w1 -> sameDir w1 w2 -> sameDir w w2) as HT.
  { intros w2 [H1 H2] [H3 H4]. split; congruence. }
  destruct (SimpleBind _ _ _ w1) as [[u|e|m|] w2]; try done.
  2: { right. right. eexists. split; [done|]. apply HT; [done|apply HB]. }
  destruct HB as (_ & _ & HB & _). cbn [ret]. specialize (HU conn (mkClient w2 false) (HT _ HG HB)).
  unfold attempt. destruct (use conn _) as [[a|e|m|] c]; try done; unfold Close, onWorld.
  all: pose proof (CloseConn_law conn (world c)) as HC; destruct (CloseConn conn (world c)) as [[[]|e'|m'|] w3]; try done; cbn [world].
  - left. exists a. split; [done|]. eapply HP; [done|apply HC].
  - left. exists a. split; [done|]. eapply HP; [done|apply HC].
  - right. left. exists e. split; [done|]. eapply HEE; [done|apply HC].
  - right. left. exists e. split; [done|]. eapply HEE; [done|apply HC].
Qed.

Lemma sameDir_sym w1 w2 : sameDir w1 w2 -> sameDir w2 w1.
Proof using Type. intros [H1 H2]. by split. Qed.

(** What a change of password leaves. *)
Definition changed (username password : string) (w w' : World) : Prop :=
  exists entry, entryOf w username entry /\ onlyOf w w' (EntryDN entry)
    /\ forall p, accepts w' (EntryDN entry) p <-> p = password.
Definition unchanged (username : string) (w w' : World) : Prop :=
  sameDir w w' \/ exists entry, GetAttributeValue entry "cn" = username /\ onlyOf w w' (EntryDN entry).

Lemma usingPasswd username password k w :
  match usingClient (fun conn => Passwd withUsername factory conn username password) k w with
  | (Ok r, w') => (r = k (inl tt) /\ changed username password w w')
      \/ (exists e, r = k (inr e) /\ unchanged username w w') \/ (exists e, r = internal e /\ sameDir w w')
  | _ => False
  end.
Proof using TL.
  pose proof (usingClient_spec (fun conn => Passwd withUsername factory conn username password) k w
    (fun w' _ => changed username password w w') (unchanged username w)) as H.
  destruct (usingClient _ k w) as [[r|e|m|] w'].
  1: destruct H as [([] & -> & H)|[H|H]]; [| | |left; done|right; left; done|right; right; done].
  all: try (apply H; clear H).
  all: try (intros conn c [HD1 HD2]; pose proof (Passwd_spec withUsername factory conn username password c) as HP;
    destruct (Passwd _ _ _ _ _ c) as [[x|e'|m'|] c'']; try done).
  all: try (intros w1 w2 a (entry & H1 & H2 & H3) [HA HB]; exists entry; split; [done|]; unfold onlyOf; rewrite HB; done).
  all: try (intros w1 w2 [[HA HB]|(entry & H1 & H2)] [HC HD];
            [left; split; congruence|right; exists entry; unfold onlyOf; rewrite HD; done]).
  all: try (destruct HP as (fil & entry & H1 & H2 & H3 & H4 & H5); exists entry; unfold entryOf, onlyOf;
            rewrite <- HD1, <- HD2; split; [by exists fil|done]).
  all: destruct HP as [[[HA HB] _]|(entry & H1 & H2)];
    [left; split; congruence|right; exists entry; unfold onlyOf; rewrite <- HD2; done].
Qed.

(** C34: The form for passwords changes the directory only for a POST that has one password
    twice, made by the user himself or by an administrator, and then the passwords of no
    entry but one that has his name; when it reports success, the entry that the directory
    finds for that name accepts the new password and no other. *)
Theorem passwd_authorised (auth : option Auth) (method : Method) (username password repeatPassword : string) (w : World) :
  match Kontakte_Passwd auth method username password repeatPassword w with
  | (Ok r, w') =>
      (sameDir w w' /\ forall u m, result r <> inl (dialogSuccess u m))
      \/ method = MethodPost /\ password = repeatPassword /\ password <> ""
         /\ (exists a, auth = Some a /\ (AuthUsername a = username \/ AuthAdmin a = true))
         /\ exists entry, GetAttributeValue entry "cn" = username /\ onlyOf w w' (EntryDN entry)
            /\ forall u m, result r = inl (dialogSuccess u m) ->
                 u = username /\ entryOf w username entry /\ forall p, accepts w' (EntryDN entry) p <-> p = password
  | _ => False
  end.
Proof using TL.
  unfold Kontakte_Passwd, canViewUser. destruct auth as [a|]; [|by left].
  destruct (negb _) eqn:EV; [by left|]. apply negb_false_iff, orb_true_iff in EV. rewrite String.eqb_eq in EV.
  destruct method; [by left| |by left].
  destruct (String.eqb_spec password "") as [|Hp]; [by left|]. destruct (String.eqb_spec repeatPassword ""); [by left|].
  destruct (String.eqb_spec password repeatPassword) as [<-|]; [|by left]. cbn [orb negb].
  destruct (_ && _); [by left|].
  match goal with |- context [usingClient _ ?k w] => pose proof (usingPasswd username password k w) as H end.
  destruct (usingClient _ _ w) as [[r|e|m|] w']; try done.
  destruct H as [[-> (entry & H1 & H2 & H3)]|[(e & -> & [H|(entry & H1 & H2)])|(e & -> & H)]].
  - right. do 3 (split; [done|]). split; [by exists a|]. exists entry. pose proof H1 as (fil & _ & _ & Hcn).
    split; [done|]. split; [done|]. by intros u m [= <- _].
  - left. by split.
  - right. do 3 (split; [done|]). split; [by exists a|]. exists entry. split; [done|]. split; [done|]. done.
  - left. by split.
Qed.

Lemma Client_User_spec conn username c :
  match Client_User withUsername factory conn username c with
  | (Ok user, c') => calm (world c) (world c') /\ exists entry, entryOf (world c) username entry /\ mapUser factory entry = Ok user
  | (Err _, c') => calm (world c) (world c')
  | _ => False
  end.
Proof using TL.
  unfold Client_User, noting, bind, wrapf. pose proof (find_spec withUsername factory conn username c) as HF.
  destruct (find _ _ _ _ c) as [[entry|e|m|] c1]; try done; [|by destruct HF].
  destruct HF as ((fil & HR & HE) & Hcn & HW & _). unfold lift. pose proof (mapUser_ends factory entry) as HM.
  destruct (mapUser factory entry) as [user|e|m|] eqn:EM; try done. split; [done|]. exists entry. split; [by exists fil|done].
Qed.

Lemma usingUser username k w :
  match usingClient (fun conn => Client_User withUsername factory conn username) k w with
  | (Ok r, w') => sameDir w w' /\ ((exists user entry, r = k (inl user) /\ entryOf w username entry /\ mapUser factory entry = Ok user)
      \/ (exists e, r = k (inr e)) \/ exists e, r = internal e)
  | _ => False
  end.
Proof using TL.
  assert (forall w1 w2, sameDir w w1 -> sameDir w1 w2 -> sameDir w w2) as HT.
  { intros w1 w2 [HA HB] [HC HD]. split; congruence. }
  pose proof (usingClient_spec (fun conn => Client_User withUsername factory conn username) k w
    (fun w' user => sameDir w w' /\ exists entry, entryOf w username entry /\ mapUser factory entry = Ok user) (sameDir w)) as H.
  lapply H; [clear H; intros H; lapply H; [clear H; intros H; specialize (H HT)|]|].
  - destruct (usingClient _ k w) as [[r|e|m|] w']; try done.
    destruct H as [(u & -> & HD & entry & HE)|[(e & -> & HD)|(e & -> & HD)]]; (split; [done|]).
    + left. by exists u, entry.
    + right. left. by exists e.
    + right. right. by exists e.
  - intros w1 w2 u [HA HX] HB. split; [by eapply HT|done].
  - intros conn c HD. pose proof (Client_User_spec conn username c) as HP.
    destruct (Client_User _ _ _ _ c) as [[u|e'|m'|] c'']; try done.
    + destruct HP as [[HP _] (entry & (fil & H1 & H2 & H3) & H4)]. split; [by eapply HT|]. exists entry.
      destruct HD as [HD1 _]. split; [exists fil; by rewrite <- HD1|done].
    + destruct HP as [HP _]. by eapply HT.
Qed.

(** A user is shown to himself and to administrators, as the directory has him; the
    directory stays as it is. *)
Lemma user_shown (auth : option Auth) (method : Method) (username : string) (w : World) :
  match Kontakte_User auth method username w with
  | (Ok r, w') => sameDir w w'
      /\ forall u, result r = inl (userPage u) ->
           (exists a, auth = Some a /\ (AuthUsername a = username \/ AuthAdmin a = true))
           /\ Username u = username /\ exists entry, entryOf w username entry /\ DN u = EntryDN entry
  | _ => False
  end.
Proof using TL.
  unfold Kontakte_User, canViewUser. destruct auth as [a|]; [|by split].
  destruct (negb _) eqn:EV; [by split|]. apply negb_false_iff, orb_true_iff in EV. rewrite String.eqb_eq in EV.
  destruct method; [|by split|by split].
  match goal with |- context [usingClient _ ?k w] => pose proof (usingUser username k w) as H end.
  destruct (usingClient _ _ w) as [[r|e|m|] w']; try done.
  destruct H as [HD H]. split; [done|]. destruct H as [(user & entry & -> & HE & HM)|[(e & ->)|(e & ->)]]; [|done..].
  intros u [= <-]. split; [by exists a|]. apply mapUser_spec in HM as (H1 & H2 & _). pose proof HE as (fil & _ & _ & Hcn).
  split; [congruence|]. by exists entry.
Qed.
End Pages.

(** ** Examples *)

#[local] Existing Instance sampleTemplates.
#[local] Existing Instance sampleDir.

Definition alice : Auth := mkAuth None "alice" true.
Definition mallory : Auth := mkAuth None "mallory" false.

Lemma passwd_authorised_witness :
  match Kontakte_Passwd named sampleFactory (Some alice) MethodPost "alice" "rabbit" "rabbit" world1 with
  | (Ok r, w') =>
      result r = inl (dialogSuccess "alice" "The password has been updated successfully.")
      /\ exists entry, entryOf named sampleFactory world1 "alice" entry
           /\ forall p, accepts w' (EntryDN entry) p <-> p = "rabbit"
  | _ => False
  end.
Proof.
  pose proof (passwd_authorised named sampleFactory (Some alice) MethodPost "alice" "rabbit" "rabbit" world1) as H.
  destruct (Kontakte_Passwd _ _ _ _ _ _ _ world1) as [[r|e|m|] w'] eqn:E; [|destruct H..].
  assert (result r = inl (dialogSuccess "alice" "The password has been updated successfully.")) as HR.
  { vm_compute in E. by injection E as <- _. }
  split; [done|]. destruct H as [[_ H]|(_ & _ & _ & _ & entry & _ & _ & H)]; [by destruct (H _ _ HR)|].
  exists entry. destruct (H _ _ HR) as (_ & H1 & H2). by split.
Defined.

Example stranger_redirected :
  Kontakte_Passwd named sampleFactory (Some mallory) MethodPost "alice" "rabbit" "rabbit" world1 = (Ok (redirect "/"), world1).
Proof. reflexivity. Qed.

(** A name with a space is cut there. *)
Example group_names :
  groupName "cn=wiki,ou=accesses" = "wiki" /\ groupName "cn=wiki users,ou=accesses" = "wiki" /\ groupName "ou=wiki" = "<invalid>".
Proof. by split_and!. Qed.

(** The page of a user whose name is of dots is another page. *)
Example dotted_user : PathUser ".." = "/" /\ PathPasswd "../login" = "/login/passwd".
Proof. by split. Qed.
