(* ===== verification/Alert.v ===== *)
(** * Alerts

    service/alert: the webhook that alerts come in by (alertmanager/webhook.go), the channel
    they wait in, the service that takes one (alert.go) and opens an issue for it
    (github.go, rate_limit_backoff.go).  The goroutines of the service and of the webhook's
    requests are a transition system; GitHub and the retries are parameters. *)

From stdpp Require Import gmap strings relations.
From S2P Require Import Prelude GoStrings GoMaps CacheMap Pgcache.
#[local] Open Scope Z_scope.
#[local] Set Warnings "-clear-no-such-hyp".

Definition InFlightAlerts : nat := 8.

Record AlertData : Type := mkAlert {
  ID : string; Title : string; Description : string; Time : string; Labels : list string; Details : string
}.

(** ** The webhook *)

Definition StatusFiring : string := "firing".
Definition LabelAlertName : string := "alertname".
Definition LabelSeverity : string := "severity".
Definition AnnotationDescription : string := "description".
Definition UnknownAlert : string := "Unknown Alert".
Definition UnknownSeverity : string := "unknown-severity".
Definition AlertManagerLabel : string := "alertmanager".

(** An alert of the Alertmanager (template.Alert); its times are their texts. *)
Record PromAlert : Type := mkPromAlert {
  pa_Status : string; pa_Labels : gmap string string; pa_Annotations : gmap string string;
  pa_StartsAt : string; pa_EndsAt : string; pa_GeneratorURL : string; pa_Fingerprint : string
}.

Definition newline : string := String (Ascii.ascii_of_nat 10) "".

Section Webhook.
Context {O : GoOrder}.

Definition listItems (kvs : list (string * string)) : string :=
  fold_right (fun kv s => "<li><code>" +:+ fst kv +:+ "</code>: <code>" +:+ snd kv +:+ "</code></li>" +:+ newline +:+ s) "" kvs.

Definition endList : string := "</ul>" +:+ newline +:+ "<hr />" +:+ newline.

(** [alertDetails]; [n] numbers the iterations over the two maps. *)
Definition alertDetails (n : nat) (a : PromAlert) : string :=
  "<h3>Labels</h3>" +:+ newline +:+ "<ul>" +:+ newline +:+ listItems (rangeOver n (pa_Labels a)) +:+ endList
  +:+ "<h3>Annotations</h3>" +:+ newline +:+ "<ul>" +:+ newline +:+ listItems (rangeOver (S n) (pa_Annotations a)) +:+ endList
  +:+ "<h3>Timing</h3>" +:+ newline +:+ "<ul>" +:+ newline
  +:+ "<li>starts at: " +:+ pa_StartsAt a +:+ "</li>" +:+ newline
  +:+ "<li>ends at: " +:+ pa_EndsAt a +:+ "</li>" +:+ newline +:+ endList
  +:+ "<h3>Identifiers</h3>" +:+ newline +:+ "<ul>" +:+ newline
  +:+ "<li>url: " +:+ pa_GeneratorURL a +:+ "</li>" +:+ newline
  +:+ "<li>fingerprint: " +:+ pa_Fingerprint a +:+ "</li>" +:+ newline +:+ "</ul>" +:+ newline.

Definition alertData (n : nat) (a : PromAlert) : AlertData :=
  mkAlert (pa_Fingerprint a)
    ("alertmanager: " +:+ default UnknownAlert (pa_Labels a !! LabelAlertName))
    (default "" (pa_Annotations a !! AnnotationDescription)) (pa_StartsAt a)
    [AlertManagerLabel; default UnknownSeverity (pa_Labels a !! LabelSeverity)] (alertDetails n a).

(** The alerts that [Webhook] fires for the alerts of a request, in its order. *)
Fixpoint webhookFires (n : nat) (alerts : list PromAlert) : list AlertData :=
  match alerts with
  | [] => []
  | a :: rest => if (pa_Status a =? StatusFiring)%string then alertData n a :: webhookFires (S (S n)) rest else webhookFires n rest
  end.
End Webhook.

(** ** GitHub *)

Definition ErrMissingRepository : error := PlainError "missing repository information, you must set owner/repo".
Definition ErrRateLimitExceeded : error := PlainError "rate limit exceeded".
Definition ErrNoIssueNumber : error := PlainError "received no issue number".

Record IssueRequest : Type := mkIssue {
  issueTitle : string; issueBody : string; issueLabels : option (list string); issueAssignees : option (list string)
}.

(** The limit of a response: what was used of it, and when it ends. *)
Record Rate : Type := mkRate { Used : Z; Limit : Z; Reset_ : Z }.

Class GitHub : Type := {
  GW : Type;
  (** The number of the issue, if any, the rate of the response, if any, and the error. *)
  IssuesCreate : string -> string -> IssueRequest -> GW -> (option Z * option Rate * option error) * GW
}.

Record Alert : Type := mkAlertService { owner : string; repo : string; assignees : list string; maxRetries : nat }.

Section GitHubSection.
Context {GH : GitHub} {BO : Backoff}.

(** GitHub, and the release of [RateLimitBackOff]. *)
Record gitWorld : Type := mkGitWorld { git : GW; release : option Z }.

Definition ReleaseAt (t : Z) (w : gitWorld) : gitWorld := mkGitWorld (git w) (Some t).

(** The wait before the next try, at the time [now]. *)
Definition NextBackOff (now : Z) (w : gitWorld) : Z * gitWorld :=
  match release w with
  | Some t => (t - now, mkGitWorld (git w) None)
  | None => (0, w)
  end.

Definition issueOf (a : Alert) (alert : AlertData) : IssueRequest :=
  mkIssue (Title alert)
    (Description alert +:+ newline +:+ "Fired at: " +:+ Time alert +:+ newline +:+ newline
     +:+ "<details>" +:+ Details alert +:+ "</details>")
    (match Labels alert with [] => None | l => Some l end) (match assignees a with [] => None | l => Some l end).

(** One try of [createGitHubIssue]. *)
Definition tryIssue (a : Alert) (alert : AlertData) : Go gitWorld Z := fun w =>
  if ((owner a =? "") || (repo a =? ""))%string then (Err ErrMissingRepository, w)
  else
    let '((number, resp, err), g) := IssuesCreate (owner a) (repo a) (issueOf a alert) (git w) in
    let w := mkGitWorld g (release w) in
    match err with
    | Some e =>
        match resp with
        | Some r =>
            if Limit r <=? Used r
            then (Err (Errorf "error while creating issue: %w" [e; ErrRateLimitExceeded]), ReleaseAt (Reset_ r) w)
            else (Err (Errorf "failed to create issue: %w" [e]), w)
        | None => (Err (Errorf "failed to create issue: %w" [e]), w)
        end
    | None => match number with Some n => (Ok n, w) | None => (Err ErrNoIssueNumber, w) end
    end.

Definition createGitHubIssue (a : Alert) (alert : AlertData) : Go gitWorld Z := Retry (maxRetries a) (tryIssue a alert).

(** ** The service and those who fire *)

Inductive phase : Type :=
| Selecting
| Sending (alert : AlertData)
| Ended (o : outcome unit).

(** A request of the webhook: what it has yet to fire; a send on a closed channel panics. *)
Inductive firer : Type :=
| Firing (left : list AlertData)
| Panicked.

Record alerting : Type := mkAlerting {
  service : phase;
  alerts : list AlertData;
  alertsClosed : bool;
  firers : list firer;
  github : gitWorld;
  (** What each request has sent, and what the service has taken. *)
  fired : list (nat * AlertData);
  taken : list AlertData
}.

Definition newAlerting (g : gitWorld) : alerting := mkAlerting Selecting [] false [] g [] [].

Variable a : Alert.

Inductive alertStep : alerting -> alerting -> Prop :=
(** A request comes with its alerts. *)
| step_request s l :
    alertStep s (mkAlerting (service s) (alerts s) (alertsClosed s) (firers s ++ [Firing l]) (github s) (fired s) (taken s))
(** [Fire]: it waits for room in the channel. *)
| step_fire s i x l :
    firers s !! i = Some (Firing (x :: l)) -> alertsClosed s = false -> (length (alerts s) < InFlightAlerts)%nat ->
    alertStep s (mkAlerting (service s) (alerts s ++ [x]) false (<[i := Firing l]> (firers s)) (github s) (fired s ++ [(i, x)]) (taken s))
| step_fire_closed s i x l :
    firers s !! i = Some (Firing (x :: l)) -> alertsClosed s = true ->
    alertStep s (mkAlerting (service s) (alerts s) true (<[i := Panicked]> (firers s)) (github s) (fired s) (taken s))
(** [Run]: its context ends, or it takes an alert, opens the issue and returns. *)
| step_cancelled s :
    service s = Selecting ->
    alertStep s (mkAlerting (Ended (Ok tt)) (alerts s) true (firers s) (github s) (fired s) (taken s))
| step_take s x q :
    service s = Selecting -> alerts s = x :: q ->
    alertStep s (mkAlerting (Sending x) q (alertsClosed s) (firers s) (github s) (fired s) (taken s ++ [x]))
| step_send s x o g :
    service s = Sending x -> createGitHubIssue a x (github s) = (o, g) ->
    alertStep s (mkAlerting
      (Ended match o with
             | Ok _ => Ok tt
             | Err e => Err (Errorf "error while creating issue for alert: %w" [e])
             | Panic p => Panic p
             | Diverge => Diverge
             end)
      (alerts s) true (firers s) g (fired s) (taken s)).

(** ** What reaches GitHub *)

Definition sentBy (i : nat) (l : list (nat * AlertData)) : list AlertData :=
  map snd (filter (fun p => fst p = i) l).

Record alertInv (s : alerting) : Prop := {
  inv_room : (length (alerts s) <= InFlightAlerts)%nat;
  inv_order : map snd (fired s) = taken s ++ alerts s;
  inv_taken : match service s with
              | Selecting => taken s = [] /\ alertsClosed s = false
              | Sending x => taken s = [x] /\ alertsClosed s = false
              | Ended _ => (length (taken s) <= 1)%nat /\ alertsClosed s = true
              end
}.

Lemma alertInv_step s s' : alertInv s -> alertStep s s' -> alertInv s'.
Proof using Type.
  intros [H1 H2 H3] HS. destruct HS; split; cbn in *; try done.
  - rewrite length_app. cbn. lia.
  - by rewrite map_app, H2, <- app_assoc.
  - destruct (service s); destruct H3; split; first [done|congruence].
  - destruct (service s); destruct H3; split; first [done|congruence].
  - rewrite H in H3. destruct H3 as [-> _]. split; [cbn; lia|done].
  - rewrite H0 in H1. cbn in H1. lia.
  - rewrite H2, H0, <- app_assoc. done.
  - rewrite H in H3. destruct H3 as [-> ->]. done.
  - rewrite H in H3. destruct H3 as [-> _]. done.
Qed.

Lemma alertInv_reachable g s : rtc alertStep (newAlerting g) s -> alertInv s.
Proof using Type.
  intros HR. refine (rtc_ind_r alertInv (newAlerting g) _ _ s HR).
  - split; cbn; [lia|done|done].
  - intros x y _ H1 H2. by eapply alertInv_step.
Qed.

(** Whatever comes in, and however the goroutines take turns, the channel never holds
    more than eight alerts, what was fired is what the service took followed by what
    waits, in the order of the sends, and it takes at most one alert: once it has ended,
    with the outcome of that alert's issue or because it was cancelled, GitHub is not asked
    again, and every request that still has an alert to fire panics. *)
Theorem alerts_taken (g : gitWorld) (s : alerting) :
  rtc alertStep (newAlerting g) s ->
  (length (alerts s) <= InFlightAlerts)%nat /\ map snd (fired s) = taken s ++ alerts s /\ (length (taken s) <= 1)%nat
  /\ (taken s = [] -> github s = g)
  /\ (forall o, service s = Ended o -> forall s', alertStep s s' ->
        service s' = Ended o /\ github s' = github s /\ fired s' = fired s
        /\ forall i x l, firers s !! i = Some (Firing (x :: l)) ->
             firers s' !! i = Some (Firing (x :: l)) \/ firers s' !! i = Some Panicked).
Proof using Type.
  intros HR. pose proof (alertInv_reachable g s HR) as [H1 H2 H3]. split; [done|]. split; [done|]. split; [|split].
  - destruct (service s); [by destruct H3 as [-> _]; cbn; lia|by destruct H3 as [-> _]|apply H3].
  - enough (alertInv s /\ (taken s = [] -> github s = g)) as [_ H] by done. clear H1 H2 H3.
    refine (rtc_ind_r (fun s => alertInv s /\ (taken s = [] -> github s = g)) (newAlerting g) _ _ s HR).
    + split; [by apply (alertInv_reachable g), rtc_refl|done].
    + clear s HR. intros s s' _ HS [HI HG]. split; [by eapply alertInv_step|]. destruct HI as [_ _ H3]. destruct HS; cbn in *; try done.
      * by destruct (taken s).
      * rewrite H in H3. destruct H3 as [-> _]. done.
  - intros o Ho s' HS. rewrite Ho in H3. destruct H3 as [_ HC]. destruct HS; cbn in *; try congruence; (do 3 (split; [done|])).
    + intros i x l' Hi. left. by apply lookup_app_l_Some.
    + intros j y l' Hj. destruct (decide (i = j)) as [<-|Hne]; [|left; by rewrite list_lookup_insert_ne].
      right. apply list_lookup_insert_eq. by apply lookup_lt_is_Some; eexists.
Qed.

(** The time of a release is waited for once; the tries after it follow at once. *)
Lemma NextBackOff_once t now w : fst (NextBackOff now (snd (NextBackOff now (ReleaseAt t w)))) = 0.
Proof using Type. done. Qed.
End GitHubSection.

(** ** Examples *)

#[local] Instance sampleHub : GitHub := {|
  GW := list IssueRequest;
  IssuesCreate owner repo r w := ((Some (Z.of_nat (length w)), None, None), w ++ [r])
|}.
#[local] Instance onceBackoff : Backoff := {| Retry St A n f := f |}.

Definition sampleService : Alert := mkAlertService "teapotovh" "dev" [] 4.
Definition diskAlert (status : string) : PromAlert :=
  mkPromAlert status {[LabelAlertName := "DiskFull"]} ∅ "10:00" "" "" "f1".
Definition twoAlerts : list AlertData :=
  webhookFires (O := stdOrder) 0 [diskAlert "firing"; diskAlert "resolved"; diskAlert "firing"].

Example two_fired : map Title twoAlerts = ["alertmanager: DiskFull"; "alertmanager: DiskFull"].
Proof. by vm_compute. Qed.

Definition start : alerting := newAlerting (mkGitWorld ([] : @GW sampleHub) None).
(** The service has opened an issue for the first alert; the second waits for ever. *)
Definition oneOpened : alerting :=
  mkAlerting (Ended (Ok tt)) (drop 1 twoAlerts) true [Firing []]
    (mkGitWorld (map (issueOf sampleService) (take 1 twoAlerts) : @GW sampleHub) None) (map (fun x => (0%nat, x)) twoAlerts) (take 1 twoAlerts).

Lemma oneOpened_reachable : rtc (alertStep sampleService) start oneOpened.
Proof.
  unfold oneOpened. destruct twoAlerts as [|x [|y [|z l]]] eqn:E; try (vm_compute in E; discriminate). clear E. cbn.
  eapply rtc_l; [apply (step_request _ _ [x; y])|]. cbn.
  eapply rtc_l; [apply (step_fire _ _ 0 x [y]); [done|done|cbn; unfold InFlightAlerts; lia]|]. cbn.
  eapply rtc_l; [apply (step_fire _ _ 0 y []); [done|done|cbn; unfold InFlightAlerts; lia]|]. cbn.
  eapply rtc_l; [by eapply step_take|]. cbn.
  eapply rtc_l; [by eapply (step_send sampleService _ x)|]. apply rtc_refl.
Qed.

Lemma alerts_taken_witness :
  map snd (fired oneOpened) = taken oneOpened ++ alerts oneOpened
  /\ forall s', alertStep sampleService oneOpened s' -> github s' = github oneOpened.
Proof.
  destruct (alerts_taken sampleService (mkGitWorld ([] : @GW sampleHub) None) oneOpened oneOpened_reachable) as (_ & H1 & _ & _ & H2).
  split; [exact H1|]. intros s' HS. by destruct (H2 (Ok tt) eq_refl s' HS) as (_ & H & _).
Defined.
