(* ===== verification/Release.v ===== *)
(** * Releases

    tools/release: the tags of releases, the last of them, the commits since, the text of
    the new tag and the checks before it is made.  Git and the other commands are run by a
    shell, which is a parameter: what it answers to each command, by its number. *)

From Stdlib Require Import Ascii.
From stdpp Require Import gmap sorting strings.
From S2P Require Import Prelude GoStrings GoSearch.
#[local] Open Scope Z_scope.
#[local] Set Warnings "-clear-no-such-hyp".

Definition ErrNothingToRelease : error := PlainError "nothing to release".
Definition ErrWorkingTreeNotClean : error := PlainError "working tree is not clean".
Definition ErrFirstRelease : error := PlainError "first release".
Definition ErrDryRun : error := PlainError "-dry-run set, aborting".

Definition directories : list string := ["cmd"; "lib"; "service"; "proto"; "tools"].

Definition lf : ascii := ascii_of_nat 10.
Definition newline : string := String lf "".

(** ** Tags *)

Definition isDigitChar (c : ascii) : bool := (48 <=? code c) && (code c <=? 57).
Definition isHexChar (c : ascii) : bool := isDigitChar c || (97 <=? code c) && (code c <=? 102).

(** Exactly [n] characters of a class, and the rest. *)
Fixpoint charsOf (p : ascii -> bool) (n : nat) (s : string) : option string :=
  match n, s with
  | O, _ => Some s
  | S n, String c s' => if p c then charsOf p n s' else None
  | S _, EmptyString => None
  end.

Definition tagPrefix : string := "v0.0.0-".

(** [tagPattern]: ^v0\.0\.0-\d{14}-[0-9a-f]{12}$ *)
Definition tagMatches (tag : string) : bool :=
  match CutPrefix tag tagPrefix with
  | Some rest =>
      match charsOf isDigitChar 14 rest with
      | Some (String c rest) => (c =? "-")%char && match charsOf isHexChar 12 rest with Some "" => true | _ => false end
      | _ => false
      end
  | None => false
  end.

(** The order of [sort.Strings]. *)
Definition strLe (a b : string) : Prop := lessThan b a = false.
#[export] Instance strLe_dec : RelDecision strLe.
Proof. intros a b. unfold strLe. apply _. Defined.

(** The timestamp of a tag: the number of its fourteen digits. *)
Definition timestamp (tag : string) : string := String.substring 7 14 tag.
Fixpoint digitsValue (s : string) (acc : Z) : Z :=
  match s with
  | String c s' => digitsValue s' (10 * acc + (code c - 48))
  | EmptyString => acc
  end.
Definition timeOf (tag : string) : Z := digitsValue (timestamp tag) 0.

(** ** The order of tags *)

Lemma charsOf_spec p n s t :
  charsOf p n s = Some t -> exists d, s = d +:+ t /\ String.length d = n /\ all p d = true.
Proof.
  revert s. induction n as [|n IH]; intros s H; [cbn in H; injection H as ->; by exists ""|].
  destruct s as [|c s]; [done|]. cbn in H. destruct (p c) eqn:E; [|done].
  destruct (IH s H) as (d & -> & H1 & H2). exists (String c d). cbn. by rewrite E, H1, H2.
Qed.

Lemma digitsValue_less d1 d2 a1 a2 :
  String.length d1 = String.length d2 -> all isDigitChar d1 = true -> all isDigitChar d2 = true ->
  a1 < a2 -> digitsValue d1 a1 < digitsValue d2 a2.
Proof.
  revert d2 a1 a2. induction d1 as [|c d1 IH]; intros [|c2 d2] a1 a2 HL H1 H2 Ha; try done; cbn in *.
  apply andb_true_iff in H1 as [Hc H1], H2 as [Hc2 H2]. injection HL as HL. apply IH; [done|done|done|].
  unfold isDigitChar in *. apply andb_true_iff in Hc as [?%Z.leb_le ?%Z.leb_le], Hc2 as [?%Z.leb_le ?%Z.leb_le]. lia.
Qed.

(** Numbers of as many digits are in the order of their texts. *)
Lemma digitsValue_order d1 d2 t1 t2 a :
  String.length d1 = String.length d2 -> all isDigitChar d1 = true -> all isDigitChar d2 = true ->
  strLe (d1 +:+ t1) (d2 +:+ t2) -> digitsValue d1 a <= digitsValue d2 a.
Proof.
  revert d2 a. induction d1 as [|c d1 IH]; intros [|c2 d2] a HL H1 H2 Hs; try done; cbn in *.
  apply andb_true_iff in H1 as [Hc H1], H2 as [Hc2 H2]. injection HL as HL. unfold strLe in Hs.
  change (lessThan (String c2 (d2 +:+ t2)) (String c (d1 +:+ t1)) = false) in Hs.
  rewrite lessThan_cons in Hs. apply orb_false_iff in Hs as [Hs1 Hs2]. apply Z.ltb_ge in Hs1.
  destruct (Z.eqb_spec (code c2) (code c)) as [E|E].
  - rewrite E. by apply IH.
  - apply Z.lt_le_incl, digitsValue_less; [done..|lia].
Qed.

Lemma substring_app d t : String.substring 0 (String.length d) (d +:+ t) = d.
Proof. induction d as [|c d IH]; [by destruct t|]. change (String c (String.substring 0 (String.length d) (d +:+ t)) = String c d). by rewrite IH. Qed.

Lemma tagMatches_spec tag :
  tagMatches tag = true -> exists d t, tag = tagPrefix +:+ d +:+ t /\ String.length d = 14%nat
    /\ all isDigitChar d = true /\ timeOf tag = digitsValue d 0.
Proof.
  unfold tagMatches. intros H. destruct (CutPrefix tag tagPrefix) as [rest|] eqn:E; [|done].
  apply CutPrefix_spec in E as ->. destruct (charsOf isDigitChar 14 rest) as [t|] eqn:ED; [|done].
  apply charsOf_spec in ED as (d & -> & HL & HA). exists d, t. do 3 (split; [done|]).
  unfold timeOf, timestamp. f_equal. pose proof (substring_app d t) as HS. rewrite HL in HS. exact HS.
Qed.

(** The order of the tags is that of their times. *)
Lemma tags_chronological a b : tagMatches a = true -> tagMatches b = true -> strLe a b -> timeOf a <= timeOf b.
Proof.
  intros (d1 & t1 & -> & HL1 & HA1 & ->)%tagMatches_spec (d2 & t2 & -> & HL2 & HA2 & ->)%tagMatches_spec Hs.
  unfold strLe in Hs. rewrite lessThan_app in Hs. by eapply digitsValue_order; [congruence|done|done|].
Qed.

#[export] Instance strLe_total : Total strLe.
Proof.
  intros a b. unfold strLe. destruct (lessThan b a) eqn:E1; [|by left]. right.
  destruct (lessThan a b) eqn:E2; [|done]. pose proof (lessThan_trans _ _ _ E1 E2) as H. by rewrite lessThan_irrefl in H.
Qed.

#[export] Instance strLe_trans : Transitive strLe.
Proof.
  intros a b c. unfold strLe. intros H1 H2. destruct (lessThan c a) eqn:E; [|done].
  destruct (lessThan b c) eqn:E3; [pose proof (lessThan_trans _ _ _ E3 E); congruence|].
  by rewrite (lessThan_total c b H2 E3), H1 in E.
Qed.

Lemma last_sorted (l : list string) x : StronglySorted strLe l -> last l = Some x -> forall y, y ∈ l -> y = x \/ strLe y x.
Proof.
  induction 1 as [|a l Hl IH Ha]; [done|]. intros HL y Hy. destruct l as [|b l].
  - injection HL as ->. apply list_elem_of_singleton in Hy. by left.
  - apply elem_of_cons in Hy as [->|Hy]; [|by apply IH]. right. rewrite Forall_forall in Ha. apply Ha.
    change (last (b :: l) = Some x) in HL. by apply last_Some_elem_of in HL.
Qed.

(** ** The shell *)

(** What the command of a number prints, and its error.  The environment is not asked
    again. *)
Class Shell : Type := { answers : nat -> list string -> outcome string }.

Section Planning.
Context {U : Unicode} {SH : Shell}.

(** The commands that were run. *)
Definition run (command : list string) : Go (list (list string)) string := fun trace =>
  (answers (length trace) command, trace ++ [command]).

Definition gitRun (args : list string) : Go (list (list string)) string :=
  stdout <-- wrapf "git %s: %w\n%s" [] (run ("git" :: args)) ;; ret (TrimSpace stdout).

(** The tags of the output that the tool has made. *)
Definition releaseTags (out : string) : list string :=
  List.filter tagMatches (map TrimSpace (Split out lf)).

Definition lastRelease : Go (list (list string)) string :=
  out <-- gitRun ["tag"; "--list"] ;;
  match last (merge_sort strLe (releaseTags out)) with
  | Some tag => ret tag
  | None => fail ErrFirstRelease
  end.

Definition commitsSince (lastTag : string) : Go (list (list string)) (list string) :=
  let rangeArg := if (lastTag =? "")%string then "HEAD" else lastTag +:+ "..HEAD" in
  out <-- gitRun ["log"; "--pretty=format:%s"; rangeArg] ;;
  ret (if (out =? "")%string then [] else Split out lf).

Definition changelog (newTag lastTag : string) (subjects : list string) : string :=
  newTag +:+ newline +:+ newline +:+ "Changes since " +:+ lastTag +:+ ":" +:+ newline +:+ newline
  +:+ fold_right (fun s b => "* " +:+ s +:+ newline +:+ b) "" subjects.

(** The paths of the tools that were found, the flags and the time as the format
    20060102150405 has it. *)
Record settings : Type := mkSettings {
  gazellePath : string; buildifierPath : string; golangciLintPath : string;
  dryRunFlag : bool; dirtyFlag : bool; now : string
}.

(** [main]: -dirty implies -dry-run. *)
Definition dryRun (s : settings) : bool := dryRunFlag s || dirtyFlag s.

Definition newTagOf (s : settings) (headShort : string) : string := "v0.0.0-" +:+ now s +:+ "-" +:+ headShort.

Definition checked (msg : string) (command : list string) : Go (list (list string)) unit :=
  wrapf msg [] (run command) ;;; ret tt.

(** The tag command, with the message on its standard input. *)
Definition tagCommand (newTag message : string) : list string := ["tag"; "-a"; newTag; "-F"; "-"; message].

Definition release (s : settings) : Go (list (list string)) unit :=
  headShort <-- wrapf "resolving short HEAD: %w" [] (gitRun ["rev-parse"; "--short=12"; "HEAD"]) ;;
  let newTag := newTagOf s headShort in
  checked "bazel mod tidy failed: %w, %s, %s" ["bazel"; "mod"; "tidy"] ;;;
  checked "gazelle check failed: %w" [gazellePath s; "-mode=diff"] ;;;
  forEach directories tt (fun _ dir => checked "buildifier failed: %w, %s, %s" [buildifierPath s; "-mode=diff"; "-r"; dir]) ;;;
  checked "golangci-lint failed: %w" [golangciLintPath s; "run"] ;;;
  out <-- wrapf "checking status: %w" [] (gitRun ["status"; "--porcelain"]) ;;
  if negb (out =? "")%string && negb (dirtyFlag s) then fail ErrWorkingTreeNotClean
  else
    headSHA <-- wrapf "resolving HEAD: %w" [] (gitRun ["rev-parse"; "HEAD"]) ;;
    lastTag <-- wrapf "finding last release tag: %w" [] lastRelease ;;
    subjects <-- wrapf "listing commits since %s: %w" [] (commitsSince lastTag) ;;
    match subjects with
    | [] => fail (Errorf "no new commits since %s: %w" [ErrNothingToRelease])
    | _ =>
        let message := changelog newTag lastTag subjects in
        if dryRun s then fail ErrDryRun
        else wrapf "creating tag: %w" [] (gitRun (tagCommand newTag message)) ;;; ret tt
    end.

(** ** What is tagged *)

(** The commands before the tag is made. *)
Definition plan (s : settings) (lastTag : string) : list (list string) :=
  [["git"; "rev-parse"; "--short=12"; "HEAD"]; ["bazel"; "mod"; "tidy"]; [gazellePath s; "-mode=diff"]]
  ++ map (fun dir => [buildifierPath s; "-mode=diff"; "-r"; dir]) directories
  ++ [[golangciLintPath s; "run"]; ["git"; "status"; "--porcelain"]; ["git"; "rev-parse"; "HEAD"];
      ["git"; "tag"; "--list"];
      ["git"; "log"; "--pretty=format:%s"; if (lastTag =? "")%string then "HEAD" else lastTag +:+ "..HEAD"]].

Definition isTagCommand (c : list string) : Prop := exists newTag message, c = "git" :: tagCommand newTag message.

(** The answer to the command of a number. *)
Definition answered (trace : list (list string)) (i : nat) (out : string) : Prop :=
  exists c, trace !! i = Some c /\ answers i c = Ok out.

(** The last release of an output of git: none of its tags has a later time. *)
Definition newest (tags lastTag : string) : Prop :=
  lastTag ∈ releaseTags tags /\ forall tag, tag ∈ releaseTags tags -> timeOf tag <= timeOf lastTag.

Lemma last_newest tags lastTag : last (merge_sort strLe (releaseTags tags)) = Some lastTag -> newest tags lastTag.
Proof using Type.
  intros H. assert (forall tag, tag ∈ releaseTags tags -> tagMatches tag = true) as HM.
  { intros tag Hin. by apply list_elem_of_In, List.filter_In in Hin as [_ ?]. }
  assert (lastTag ∈ releaseTags tags) as Hin.
  { apply last_Some_elem_of in H. by rewrite merge_sort_Permutation in H. }
  split; [done|]. intros tag Ht. pose proof (StronglySorted_merge_sort strLe (releaseTags tags)) as HS.
  destruct (last_sorted _ _ HS H tag) as [->|Hle]; [by rewrite merge_sort_Permutation|done|].
  apply tags_chronological; auto.
Qed.

Lemma no_tag (trace : list (list string)) :
  Forall (fun c => length c <> 7%nat) trace -> ~ exists c, c ∈ trace /\ isTagCommand c.
Proof using Type.
  intros HF (c & Hin & t & m & ->). rewrite Forall_forall in HF. by apply (HF _ Hin).
Qed.

(** The answer to the next command; a command that fails ends a release without a tag. *)
Ltac ask H x E :=
  match type of H with context [answers ?n ?c] => destruct (answers n c) as [x|?|?|] eqn:E end; cbn in H; cbv [bind ret fail gitRun run wrapf] in H; cbn in H.
Ltac refused H HT :=
  injection H as <- <-; destruct HT as [HT|HT]; [discriminate|];
  exfalso; revert HT; apply no_tag; repeat constructor; discriminate.

(** C35: A release that succeeds, and one that asks git for a tag at all, has run exactly
    the planned commands before, each with success: the checks of the tools, a working tree
    that git finds clean, neither -dry-run nor -dirty, at least one commit since the last
    release, which no tag of the tool is later than; the message is the change log of those
    commits, and the tag is made of the time and of the commit that HEAD was. *)
Theorem release_guarded (s : settings) (o : outcome unit) (trace : list (list string)) :
  release s [] = (o, trace) -> o = Ok tt \/ (exists c, c ∈ trace /\ isTagCommand c) ->
  exists head status tags lastTag log subjects,
    trace = plan s lastTag ++ ["git" :: tagCommand (newTagOf s (TrimSpace head)) (changelog (newTagOf s (TrimSpace head)) lastTag subjects)]
    /\ (forall i, (i < 13)%nat -> exists out, answered trace i out)
    /\ answered trace 0 head /\ answered trace 9 status /\ TrimSpace status = ""
    /\ answered trace 11 tags /\ newest (TrimSpace tags) lastTag
    /\ answered trace 12 log /\ TrimSpace log <> "" /\ subjects = Split (TrimSpace log) lf
    /\ dryRunFlag s = false /\ dirtyFlag s = false.
Proof using Type.
  intros H HT. unfold release, checked, gitRun, lastRelease, commitsSince, run, bind, wrapf, ret, fail, directories in H.
  cbn in H. ask H x0 E0; [|refused H HT..]. ask H x1 E1; [|refused H HT..]. ask H x2 E2; [|refused H HT..].
  ask H x3 E3; [|refused H HT..]. ask H x4 E4; [|refused H HT..]. ask H x5 E5; [|refused H HT..].
  ask H x6 E6; [|refused H HT..]. ask H x7 E7; [|refused H HT..]. ask H x8 E8; [|refused H HT..].
  ask H x9 E9; [|refused H HT..]. destruct (negb (TrimSpace x9 =? "")%string && negb (dirtyFlag s)) eqn:ED; [refused H HT|].
  ask H x10 E10; [|refused H HT..]. ask H x11 E11; [|refused H HT..].
  destruct (last _) as [lastTag|] eqn:EL; [|refused H HT]. cbn in H.
  set (log := ["git"; "log"; "--pretty=format:%s"; if (lastTag =? "")%string then "HEAD" else lastTag +:+ "..HEAD"]) in H.
  ask H x12 E12; [|refused H HT..].
  destruct (if (TrimSpace x12 =? "")%string then [] else Split (TrimSpace x12) lf) as [|sub subs] eqn:ES; [refused H HT|].
  destruct (dryRun s) eqn:EY; [refused H HT|]. apply orb_false_iff in EY as [EY EZ]. cbv [wrapf gitRun run bind ret] in H. cbn in H.
  set (tagged := tagCommand _ _) in H. exists x0, x9, x11, lastTag, x12, (sub :: subs).
  assert (trace = plan s lastTag ++ ["git" :: tagged]) as ->.
  { destruct (answers 13 ("git" :: tagged)); by injection H as <- <-. }
  rewrite EZ, andb_true_r in ED. apply negb_false_iff, String.eqb_eq in ED.
  destruct (String.eqb_spec (TrimSpace x12) "") as [|Hlog]; [done|].
  split; [done|]. split.
  { intros i Hi. do 13 (destruct i as [|i]; [eexists; eexists; split; [reflexivity|eassumption]|]). lia. }
  assert (forall i c out, (plan s lastTag ++ ["git" :: tagged]) !! i = Some c -> answers i c = Ok out ->
    answered (plan s lastTag ++ ["git" :: tagged]) i out) as HA by (intros i c out; by exists c).
  split; [by eapply HA|]. split; [by eapply HA|]. split; [done|]. split; [by eapply HA|].
  split; [by apply last_newest|]. split; [by eapply HA|]. done.
Qed.

(** A repository without a tag of the tool cannot be released. *)
Lemma first_release_fails trace :
  match lastRelease trace with
  | (Ok tag, _) => tag <> ""
  | _ => True
  end.
Proof using Type.
  unfold lastRelease, gitRun, run, wrapf, bind, ret. unfold bind.
  destruct (answers (length trace) ["git"; "tag"; "--list"]) as [out| | |]; cbn; try done.
  destruct (last (merge_sort strLe (releaseTags (TrimSpace out)))) as [tag|] eqn:E; cbn; [|done].
  apply last_newest in E as [Hin _]. apply list_elem_of_In, List.filter_In in Hin as [_ H]. by intros ->.
Qed.
End Planning.

(** ** Examples *)

#[local] Instance sampleShell : Shell := {|
  answers n c := match n with
    | 0%nat => Ok "0123456789ab"
    | 11%nat => Ok ("v0.0.0-20250102030405-aaaaaaaaaaaa" +:+ newline +:+ "v0.0.0-20241231235959-ffffffffffff" +:+ newline +:+ "v1.0")
    | 12%nat => Ok ("fix" +:+ newline +:+ "feat")
    | _ => Ok ""
    end
|}.

Definition sampleSettings (dry : bool) : settings := mkSettings "gazelle" "buildifier" "golangci-lint" dry false "20250304050607".

Lemma release_guarded_witness :
  exists trace, release (U := asciiOnly) (sampleSettings false) [] = (Ok tt, trace)
    /\ exists tags lastTag, answered trace 11 tags /\ newest (U := asciiOnly) (TrimSpace (U := asciiOnly) tags) lastTag.
Proof.
  destruct (release (U := asciiOnly) (sampleSettings false) []) as [o trace] eqn:E.
  assert (o = Ok tt) as -> by (vm_compute in E; by injection E as <- _).
  exists trace. split; [reflexivity|].
  destruct (release_guarded (U := asciiOnly) (sampleSettings false) (Ok tt) trace E (or_introl eq_refl))
    as (h & st & tags & lastTag & log & subjects & H).
  exists tags, lastTag. repeat split; apply H.
Defined.

(** The message of the tag. *)
Example sample_tag :
  last (release (U := asciiOnly) (sampleSettings false) []).2 =
  Some ["git"; "tag"; "-a"; "v0.0.0-20250304050607-0123456789ab"; "-F"; "-";
        "v0.0.0-20250304050607-0123456789ab" +:+ newline +:+ newline +:+ "Changes since v0.0.0-20250102030405-aaaaaaaaaaaa:"
        +:+ newline +:+ newline +:+ "* fix" +:+ newline +:+ "* feat" +:+ newline].
Proof. by vm_compute. Qed.

Example dry_run : (release (U := asciiOnly) (sampleSettings true) []).1 = Err ErrDryRun.
Proof. by vm_compute. Qed.
