(* ===== verification/FilesWeb.v ===== *)
(** * The pages of the files service

    service/files/web: browsing the directories of a session, making folders, uploading
    and downloading files, and the links between the pages; service/files/webdav: which
    session a WebDAV request is served from.  The file system of a session and the pages'
    HTML are parameters. *)

From Stdlib Require Import Ascii.
From stdpp Require Import gmap strings.
From S2P Require Import Prelude GoStrings GoPath Tmpl Files LdapClient HttpAuth AuthExamples HttpHandler.
#[local] Open Scope Z_scope.
#[local] Set Warnings "-clear-no-such-hyp,-register-all".

Definition DirPerm : Z := 488.
Definition PathLogin : string := "/login".
Definition PathIndex : string := "/".
Definition PathBrowse : string := "/browse/".
Definition PathFile : string := "/file/".

Definition PathBrowseAt (paths : list string) : string := JoinPath (PathBrowse :: paths).
Definition PathFileAt (paths : list string) : string := JoinPath (PathFile :: paths).

(** ** Relative paths *)

(** The elements of a cleaned path. *)
Definition parts (path : string) : list string := List.filter (fun p => negb (p =? "")%string) (Split path slash).

(** What is left of two paths after the elements that they share. *)
Fixpoint apart (base targ : list string) : list string * list string :=
  match base, targ with
  | b :: base', t :: targ' => if (b =? t)%string then apart base' targ' else (base, targ)
  | _, _ => (base, targ)
  end.

(** [filepath.Rel] from a rooted path: only another rooted one can be reached. *)
Definition Rel (basepath targpath : string) : string + error :=
  let base := Clean basepath in
  let targ := Clean targpath in
  if (targ =? base)%string then inl "."
  else if negb (rooted targ) then inr (PlainError "Rel: can't make targ relative to base")
  else let '(b, t) := apart (parts base) (parts targ) in inl (Join (repeat ".." (length b) ++ t) "/").

(** ** Requests and answers *)

(** What the pages read of a request. *)
Record WebRequest : Type := mkWebRequest {
  wr_method : Method;
  wr_path : string;
  (** The path of the page a dialog is on, when its URL can be parsed. *)
  wr_current : string + error;
  wr_base : string;
  wr_folder : string;
  (** The name, the size and the content of the file of a form, and the error of parsing it. *)
  wr_form : option error;
  wr_file : option (string * Z * (string + error))
}.

Record DirEntry : Type := mkDirEntry { de_Name : string; de_IsDir : bool }.
Record entry : Type := mkEntry { e_name : string; e_path : string; e_dir : bool; e_size : Z }.

Inductive Component : Type :=
| browse (path user : string) (segments entries : list entry)
| newFolderDialog (url path : string)
| uploadDialog (url path : string)
| dialogError (err : herror).

Record Answer : Type := mkAnswer { a_status : option Z; a_result : Component + herror }.

Definition plain (c : Component) : Answer := mkAnswer None (inl c).
Definition failed (e : herror) : Answer := mkAnswer None (inr e).
Definition redirect (url : string) : Answer := failed (RedirectError url StatusFound).
Definition internal (e : error) : Answer := failed (InternalError e None).
Definition refused (status : Z) (e : herror) : Answer := mkAnswer (Some status) (inl (dialogError e)).
Definition invalidMethod : Answer := failed (Wrapping "invalid method %q: %w" [Other HttpHandler.ErrBadRequest]).
Definition badPath (msg : string) (e : error) : herror := Wrapping "" [Wrapping msg [Other e]; Other HttpHandler.ErrBadRequest].

Definition isNotExist (e : error) : bool := isError "file does not exist" e.

(** The file system of a session.  Reading does not change the disk. *)
Class RootOps (H : HackPad) : Type := {
  Disk : Type;
  ReadDir : Root -> string -> Disk -> outcome (list DirEntry);
  StatSize : Root -> string -> Disk -> outcome Z;
  OpenRead : Root -> string -> Disk -> outcome string;
  MkdirAllIn : Root -> string -> Z -> Go Disk unit;
  WriteFullFile : Root -> string -> string -> Z -> Go Disk unit
}.

(** hackpadfs: a name that is not valid is refused, and changes nothing.  [MkdirAllIn] makes
    the folders above the one named as well, where they are missing. *)
Class RootLaws {H : HackPad} (R : RootOps H) : Prop := {
  mkdir_invalid r name perm d : ValidPath name = false -> exists e, MkdirAllIn r name perm d = (Err e, d);
  write_invalid r name data perm d : ValidPath name = false -> exists e, WriteFullFile r name data perm d = (Err e, d);
  mkdir_ends r name perm d : ends (fst (MkdirAllIn r name perm d));
  write_ends r name data perm d : ends (fst (WriteFullFile r name data perm d));
  readdir_ends r name d : ends (ReadDir r name d);
  open_ends r name d : ends (OpenRead r name d);
  stat_ends r name d : ends (StatSize r name d)
}.

Section Web.
Context {TL : TemplateLang} {H : HackPad} (forUser : string -> Params) {SC : SessionCache Root} {RO : RootOps H}.

Record webWorld : Type := mkWebWorld { ww_sessions : Sessions; ww_disk : Disk }.

(** [web.files.Sesssions().Get]: without a session the answer is an internal error. *)
Definition withSession (username : string) (k : Root -> Go webWorld Answer) : Go webWorld Answer := fun w =>
  let '(o, s) := Sessions_Get forUser username (ww_sessions w) in
  let w := mkWebWorld s (ww_disk w) in
  match o with
  | Ok root => k root w
  | Err e => (Ok (internal e), w)
  | Panic p => (Panic p, w)
  | Diverge => (Diverge, w)
  end.

(** ** page_browse.go *)

(** The loop over the entries of a directory; a size is taken as an uint64. *)
Fixpoint entriesOf (root : Root) (path : string) (l : list DirEntry) (d : Disk) : outcome (list entry) :=
  match l with
  | [] => Ok []
  | e :: rest =>
      let entryPath := Clean (JoinPath [path; de_Name e]) in
      size <-? StatSize root entryPath d ;;
      entries <-? entriesOf root path rest d ;;
      Ok (mkEntry (de_Name e) entryPath (de_IsDir e) (size mod 2 ^ 64) :: entries)
  end.

(** The loop over the elements of the path. *)
Fixpoint segmentsOf (segmentPath : string) (l : list string) : list entry :=
  match l with
  | [] => []
  | segment :: rest =>
      if (segment =? ".")%string then segmentsOf segmentPath rest
      else let p := JoinPath [segmentPath; segment] in mkEntry segment p true 0 :: segmentsOf p rest
  end.

Definition Browse (auth : option Auth) (r : WebRequest) : Go webWorld Answer :=
  match wr_method r, auth with
  | MethodGet, None => ret (redirect PathIndex)
  | MethodGet, Some auth =>
      match Rel PathBrowse (wr_path r) with
      | inl rel =>
          let path := Clean rel in
          withSession (AuthUsername auth) (fun root w =>
            match ReadDir root path (ww_disk w) with
            | Ok dirEntries =>
                match entriesOf root path dirEntries (ww_disk w) with
                | Ok entries =>
                    (Ok (plain (browse path (AuthUsername auth)
                           (mkEntry (AuthUsername auth) "/" true 0 :: segmentsOf "" (Split path slash)) entries)), w)
                | Err e => (Ok (internal (Errorf "could not stat file at %q: %w" [e])), w)
                | Panic p => (Panic p, w)
                | Diverge => (Diverge, w)
                end
            | Err e =>
                (Ok (if isNotExist e then failed (Other HttpHandler.ErrNotFound)
                     else internal (Errorf "could not read directory at %q: %w" [e])), w)
            | Panic p => (Panic p, w)
            | Diverge => (Diverge, w)
            end)
      | inr e => ret (failed (badPath "could not get relative path: %w" e))
      end
  | _, _ => ret invalidMethod
  end.

(** The link of an entry. *)
Definition href (e : entry) : string :=
  if e_dir e then PathBrowseAt [e_path e] +:+ "/" else PathFileAt [e_path e].

(** The entries of the page: that of the directory above is put before the others. *)
Definition shownEntries (path : string) (entries : list entry) : list entry :=
  let path := JoinPath ["/"; path] in
  if (path =? "/")%string then entries else mkEntry ".." (JoinPath [path; ".."]) true 0 :: entries.

(** ** page_browse_dialog.go *)

Definition getDialogBasePath (r : WebRequest) (prefix : string) : string + herror :=
  match wr_current r with
  | inl urlPath =>
      match Rel prefix urlPath with
      | inl path => inl (Clean path)
      | inr e => inr (badPath "could not get relative path: %w" e)
      end
  | inr e => inr (badPath "could not parse current URL %q : %w" e)
  end.

Definition showDialog (r : WebRequest) (dialog : string -> Component) : Go webWorld Answer :=
  match getDialogBasePath r PathBrowse with
  | inl path => ret (plain (dialog path))
  | inr e => ret (failed e)
  end.

(** A call on the disk, whose error is shown. *)
Definition onDisk (call : Go Disk unit) (msg : string) (done : Answer) : Go webWorld Answer := fun w =>
  let '(o, d) := call (ww_disk w) in
  let w := mkWebWorld (ww_sessions w) d in
  match o with
  | Ok _ => (Ok done, w)
  | Err e => (Ok (refused StatusBadRequest (Wrapping msg [Other e])), w)
  | Panic p => (Panic p, w)
  | Diverge => (Diverge, w)
  end.

Definition BrowseDialogNewFolder (auth : option Auth) (r : WebRequest) : Go webWorld Answer :=
  match auth with
  | None => ret (redirect PathIndex)
  | Some auth =>
      match wr_method r with
      | MethodGet => showDialog r (newFolderDialog (wr_path r))
      | MethodPost =>
          if ((wr_base r =? "") || (wr_folder r =? ""))%string
          then ret (refused StatusUnauthorized (Wrapping "invalid empty path: %w" [Other HttpHandler.ErrBadRequest]))
          else
            let path := Clean (JoinPath [wr_base r; wr_folder r]) in
            withSession (AuthUsername auth) (fun root =>
              onDisk (MkdirAllIn root path DirPerm) "error while creating folder %q: %w" (redirect (PathBrowseAt [path] +:+ "/")))
      | MethodOther => ret invalidMethod
      end
  end.

Definition BrowseDialogUpload (auth : option Auth) (r : WebRequest) : Go webWorld Answer :=
  match auth with
  | None => ret (redirect PathIndex)
  | Some auth =>
      match wr_method r with
      | MethodGet => showDialog r (uploadDialog (wr_path r))
      | MethodPost =>
          match wr_form r with
          | Some e => ret (internal e)
          | None =>
              let invalid := refused StatusBadRequest (Wrapping "invalid empty path/file: %w" [Other HttpHandler.ErrBadRequest]) in
              match wr_file r with
              | Some (filename, size, content) =>
                  if (wr_base r =? "")%string || (filename =? "")%string || (size <=? 0) then ret invalid
                  else
                    let path := Clean (JoinPath [wr_base r; filename]) in
                    withSession (AuthUsername auth) (fun root =>
                      match content with
                      | inl bytes =>
                          onDisk (WriteFullFile root path bytes DirPerm) "error while writing file %q: %w"
                            (redirect (PathBrowseAt [wr_base r] +:+ "/"))
                      | inr e => ret (refused StatusBadRequest (Wrapping "could not read file from request: %w" [Other e]))
                      end)
              | None => ret invalid
              end
          end
      | MethodOther => ret invalidMethod
      end
  end.

Definition BrowseDialog (dialog : string) (auth : option Auth) (r : WebRequest) : Go webWorld Answer :=
  if (dialog =? "newfolder")%string then BrowseDialogNewFolder auth r
  else if (dialog =? "upload")%string then BrowseDialogUpload auth r
  else ret (failed (Wrapping "could not serve requested dialog %q: %w" [Other (PlainError "invalid browse dialog")])).

(** ** page_file.go, page_index.go *)

(** The content that is copied to the answer, or an error. *)
Definition File (auth : option Auth) (r : WebRequest) : Go webWorld (string + herror) := fun w =>
  match auth with
  | None => (Ok (inr (RedirectError PathIndex StatusFound)), w)
  | Some auth =>
      match Rel PathFile (wr_path r) with
      | inl rel =>
          let '(o, s) := Sessions_Get forUser (AuthUsername auth) (ww_sessions w) in
          let w := mkWebWorld s (ww_disk w) in
          match o with
          | Ok root =>
              match OpenRead root (Clean rel) (ww_disk w) with
              | Ok content => (Ok (inl content), w)
              | Err e =>
                  (Ok (inr (if isNotExist e then Other HttpHandler.ErrNotFound
                            else InternalError (Errorf "could not read file at %q: %w" [e]) None)), w)
              | Panic p => (Panic p, w)
              | Diverge => (Diverge, w)
              end
          | Err e => (Ok (inr (InternalError e None)), w)
          | Panic p => (Panic p, w)
          | Diverge => (Diverge, w)
          end
      | inr e => (Ok (inr (badPath "could not get relative path: %w" e)), w)
      end
  end.

Definition Index (auth : option Auth) : Answer := redirect (match auth with Some _ => PathBrowse | None => PathLogin end).

Definition Web_NotFound (auth : option Auth) (path : string) : Answer :=
  if (path =? PathIndex)%string then Index auth else failed (Other HttpHandler.ErrNotFound).

(** ** Where requests lead *)

Context {HL : HackPadLaws H} {SL : SessionCacheLaws SC} {TLS : TemplateLaws TL} {RL : RootLaws RO}.

(** The change that a request of a user to a dialog asks for: the folder, or the file, at the
    cleaned path of the base and the name of its form. *)
Inductive change : Type :=
| MakeFolder (path : string)
| WriteFile (path data : string).

Definition changed (c : change) : string := match c with MakeFolder path | WriteFile path _ => path end.

Definition wanted (dialog : string) (r : WebRequest) (c : change) : Prop :=
  wr_method r = MethodPost /\ wr_base r <> ""
  /\ match c with
     | MakeFolder path => dialog = "newfolder" /\ wr_folder r <> "" /\ path = Clean (JoinPath [wr_base r; wr_folder r])
     | WriteFile path data => dialog = "upload" /\ wr_form r = None
         /\ exists name size, wr_file r = Some (name, size, inl data) /\ name <> "" /\ 0 < size
             /\ path = Clean (JoinPath [wr_base r; name])
     end.

Definition perform (root : Root) (c : change) : Go Disk unit :=
  match c with
  | MakeFolder path => MkdirAllIn root path DirPerm
  | WriteFile path data => WriteFullFile root path data DirPerm
  end.

(** The file system of the session of a user. *)
Definition sessionOf (auth : option Auth) (w : webWorld) (root : Root) : Prop :=
  exists a, auth = Some a /\ mountedFor forUser (mounts (ww_sessions w)) (AuthUsername a) (mountsOf root).

(** A page that only shows something. *)
Definition shows {A} (m : Go webWorld A) (w : webWorld) (P : A -> Prop) : Prop :=
  match m w with
  | (Ok a, w') => sessionsInv forUser (ww_sessions w') /\ ww_disk w' = ww_disk w /\ P a
  | _ => False
  end.

(** A dialog: it only shows something, or makes the change asked for, with one call in the
    file system of the user, whose outcome is the answer. *)
Definition dialogue (dialog : string) (auth : option Auth) (r : WebRequest) (m : Go webWorld Answer) (w : webWorld) : Prop :=
  match m w with
  | (Ok a, w') => sessionsInv forUser (ww_sessions w')
      /\ ((ww_disk w' = ww_disk w
             /\ ((exists c, wanted dialog r c) -> auth = None \/ exists e, a = internal e))
          \/ exists root c, sessionOf auth w root /\ wanted dialog r c
               /\ ww_disk w' = snd (perform root c (ww_disk w))
               /\ (ValidPath (changed c) = false -> ww_disk w' = ww_disk w)
               /\ match fst (perform root c (ww_disk w)) with
                  | Ok _ => exists url, a = redirect url
                  | Err e => exists msg, a = refused StatusBadRequest (Wrapping msg [Other e])
                  | _ => False
                  end)
  | _ => False
  end.

Lemma Sessions_Get_ends username s : sessionsInv forUser s -> ends (fst (Sessions_Get forUser username s)).
Proof using HL SL TLS.
  intros HI. unfold Sessions_Get. pose proof (do_law username (newSession forUser (mounts s) username) (cache s)) as HD.
  destruct (cacheDo _ _ _) as [o c]. destruct HD as [[->|(v & _ & ->)] _]; [|done].
  unfold newSession. pose proof mem_law as HM. destruct NewMemFS as [mem|e| |]; try done.
  pose proof (new_law mem) as HN. destruct (NewRoot mem) as [r|e| |]; try done. clear -HL TLS.
  generalize (mounts s) as l. intros l. revert r. induction l as [|m l IH]; intros r; [done|]. cbn [mountAll].
  assert (ends (mount_src forUser m username)) as HS.
  { unfold mount_src. pose proof (Render_ends (srcTmpl m) (forUser username)) as HR. destruct (Render _ _) as [path|e| |]; try done.
    destruct (vfs m). pose proof (sub_law path) as HO. by destruct (OsSub path). }
  destruct (mount_src forUser m username) as [src|e| |]; try done.
  pose proof (mkdir_law (dst m) r) as H1. destruct (MkdirAll (dst m) r) as [[[]|e| |] r1]; try done.
  pose proof (mount_law (dst m) src r1) as H2. destruct (AddMount (dst m) src r1) as [[[]|e| |] r2]; try done. apply IH.
Qed.

Lemma Sessions_Get_cases username w :
  sessionsInv forUser (ww_sessions w) ->
  match Sessions_Get forUser username (ww_sessions w) with
  | (Ok root, s) => sessionsInv forUser s /\ mountedFor forUser (mounts (ww_sessions w)) username (mountsOf root)
  | (Err _, s) => sessionsInv forUser s
  | _ => False
  end.
Proof using HL SL TLS.
  intros HI. pose proof (Sessions_Get_spec forUser username (ww_sessions w) HI) as HS.
  pose proof (Sessions_Get_ends username (ww_sessions w) HI) as HE.
  destruct (Sessions_Get _ _ _) as [[root|e| |] s]; try done; destruct HS as (S1 & S2 & S3); [|done]. split; [done|by apply S3].
Qed.

Lemma withSession_cases a k w (P : outcome Answer * webWorld -> Prop) :
  sessionsInv forUser (ww_sessions w) ->
  (forall e s, sessionsInv forUser s -> P (Ok (internal e), mkWebWorld s (ww_disk w))) ->
  (forall root s, sessionsInv forUser s -> sessionOf (Some a) w root -> P (k root (mkWebWorld s (ww_disk w)))) ->
  P (withSession (AuthUsername a) k w).
Proof using HL SL TLS.
  intros HI HE HK. unfold withSession. pose proof (Sessions_Get_cases (AuthUsername a) w HI) as HS.
  destruct (Sessions_Get _ _ _) as [[root|e| |] s]; try done; [|by apply HE]. destruct HS as [H1 H2].
  apply HK; [done|]. by exists a.
Qed.

Lemma entriesOf_ends root path l d : ends (entriesOf root path l d).
Proof using RL.
  induction l as [|e l IH]; [done|]. cbn [entriesOf]. pose proof (stat_ends root (Clean (JoinPath [path; de_Name e])) d) as HS.
  destruct (StatSize _ _ _); try done. cbn. by destruct (entriesOf root path l d).
Qed.

Lemma ret_shows {A} (a : A) w (P : A -> Prop) : sessionsInv forUser (ww_sessions w) -> P a -> shows (ret a) w P.
Proof using Type. intros HI HP. by split. Qed.

(** The entries of a page are those of the directory, with their names and kinds. *)
Lemma entriesOf_names root path l d entries :
  entriesOf root path l d = Ok entries ->
  map (fun e => (e_name e, e_dir e)) entries = map (fun e => (de_Name e, de_IsDir e)) l.
Proof using Type.
  revert entries. induction l as [|e l IH]; intros entries; cbn [entriesOf]; [by intros [= <-]|].
  intros (size & _ & HB)%obind_ok_inv. apply obind_ok_inv in HB as (es & Hes & [= <-]). cbn. by rewrite (IH es Hes).
Qed.

(** What is browsed is a directory in the file system of the user. *)
Definition browsed (auth : option Auth) (r : WebRequest) (w : webWorld) (a : Answer) : Prop :=
  match a_result a with
  | inl (browse path user segments entries) =>
      exists root rel l, sessionOf auth w root /\ Rel PathBrowse (wr_path r) = inl rel /\ path = Clean rel
        /\ ReadDir root path (ww_disk w) = Ok l
        /\ map (fun e => (e_name e, e_dir e)) entries = map (fun e => (de_Name e, de_IsDir e)) l
  | inl _ => False
  | inr _ => True
  end.

Lemma Browse_shows auth r w :
  sessionsInv forUser (ww_sessions w) -> shows (Browse auth r) w (browsed auth r w).
Proof using HL SL TLS RL.
  intros HI. unfold Browse. destruct (wr_method r); [|by apply ret_shows|by apply ret_shows].
  destruct auth as [a|]; [|by apply ret_shows]. destruct (Rel _ _) as [rel|e] eqn:ER; [|by apply ret_shows].
  unfold shows. apply withSession_cases; [done|by intros|]. intros root s Hs Hroot.
  cbn [ww_disk]. pose proof (readdir_ends root (Clean rel) (ww_disk w)) as HR.
  destruct (ReadDir _ _ _) as [l|e| |] eqn:EL; try done; [|by destruct (isNotExist e)].
  pose proof (entriesOf_ends root (Clean rel) l (ww_disk w)) as HE.
  destruct (entriesOf _ _ _ _) as [es|e| |] eqn:EE; try done. split; [done|]. split; [done|].
  exists root, rel, l. split_and!; try done. by eapply entriesOf_names.
Qed.

Lemma File_shows auth r w :
  sessionsInv forUser (ww_sessions w) ->
  shows (File auth r) w (fun a => forall content, a = inl content ->
    exists root rel, sessionOf auth w root /\ Rel PathFile (wr_path r) = inl rel
      /\ OpenRead root (Clean rel) (ww_disk w) = Ok content).
Proof using HL SL TLS RL.
  intros HI. unfold File, shows. destruct auth as [a|]; [|by split_and!].
  destruct (Rel _ _) as [rel|e] eqn:ER; [|by split_and!]. pose proof (Sessions_Get_cases (AuthUsername a) w HI) as HS.
  destruct (Sessions_Get _ _ _) as [[root|e| |] s]; try done. cbn [ww_disk ww_sessions]. destruct HS as [HS1 HS2].
  pose proof (open_ends root (Clean rel) (ww_disk w)) as HO.
  destruct (OpenRead _ _ _) as [content|e| |] eqn:EO; try done. split; [done|]. split; [done|].
  intros c [= <-]. exists root, rel. split_and!; try done. by exists a.
Qed.

Lemma unchanged_dialogue dialog auth r a w :
  sessionsInv forUser (ww_sessions w) -> ((exists c, wanted dialog r c) -> auth = None) -> dialogue dialog auth r (ret a) w.
Proof using Type. intros HI HN. split; [done|]. left. split; [done|]. intros HW. left. by apply HN. Qed.

Lemma showDialog_dialogue dialog auth r f w :
  sessionsInv forUser (ww_sessions w) -> wr_method r = MethodGet -> dialogue dialog auth r (showDialog r f) w.
Proof using Type.
  intros HI HM. unfold showDialog. assert ((exists c, wanted dialog r c) -> auth = None) as HN by (intros (c & HW & _); congruence).
  destruct (getDialogBasePath _ _); by apply unchanged_dialogue.
Qed.

(** The call that a dialog makes. *)
Lemma performed dialog a r c msg url w :
  sessionsInv forUser (ww_sessions w) -> wanted dialog r c ->
  dialogue dialog (Some a) r (withSession (AuthUsername a) (fun root => onDisk (perform root c) msg (redirect url))) w.
Proof using HL SL TLS RL.
  intros HI HW. unfold dialogue. apply withSession_cases; [done|..].
  { intros e s Hs. split; [done|]. left. split; [done|]. intros _. right. by exists e. }
  intros root s Hs Hroot. unfold onDisk. cbn [ww_disk ww_sessions].
  assert (ends (fst (perform root c (ww_disk w)))) as HE by (destruct c; [apply mkdir_ends|apply write_ends]).
  assert (ValidPath (changed c) = false -> snd (perform root c (ww_disk w)) = ww_disk w) as HV.
  { intros HV. destruct c as [path|path data]; cbn in *.
    - by destruct (mkdir_invalid root path DirPerm (ww_disk w) HV) as [e ->].
    - by destruct (write_invalid root path data DirPerm (ww_disk w) HV) as [e ->]. }
  destruct (perform root c (ww_disk w)) as [[[]|e| |] d] eqn:EP; try done; (split; [done|]); right; exists root, c;
    rewrite EP; (split; [done|]); (split; [done|]); (split; [done|]); (split; [exact HV|]); by eexists.
Qed.

Lemma newFolder_dialogue auth r w :
  sessionsInv forUser (ww_sessions w) -> dialogue "newfolder" auth r (BrowseDialogNewFolder auth r) w.
Proof using HL SL TLS RL.
  intros HI. unfold BrowseDialogNewFolder. destruct auth as [a|]; [|by apply unchanged_dialogue].
  destruct (wr_method r) eqn:EM; [by apply showDialog_dialogue| |apply unchanged_dialogue; [done|intros (c & HW & _); congruence]].
  destruct (_ || _) eqn:EB.
  - apply unchanged_dialogue; [done|]. intros ([path|path data] & _ & HB & HC); [|by destruct HC as [[=] _]].
    destruct HC as (_ & HF & _). by apply orb_prop in EB as [?%String.eqb_eq|?%String.eqb_eq].
  - apply orb_false_elim in EB as [H1%String.eqb_neq H2%String.eqb_neq].
    by apply (performed "newfolder" a r (MakeFolder (Clean (JoinPath [wr_base r; wr_folder r])))).
Qed.

Lemma upload_dialogue auth r w :
  sessionsInv forUser (ww_sessions w) -> dialogue "upload" auth r (BrowseDialogUpload auth r) w.
Proof using HL SL TLS RL.
  intros HI. unfold BrowseDialogUpload. destruct auth as [a|]; [|by apply unchanged_dialogue].
  destruct (wr_method r) eqn:EM; [by apply showDialog_dialogue| |apply unchanged_dialogue; [done|intros (c & HW & _); congruence]].
  assert (forall c, wanted "upload" r c -> wr_base r <> "" /\ wr_form r = None /\
            exists name size data, wr_file r = Some (name, size, inl data) /\ name <> "" /\ 0 < size) as HU.
  { intros [path|path data] (_ & HB & HC); [by destruct HC as [[=] _]|].
    destruct HC as (_ & HF & name & size & H1 & H2 & H3 & _). split; [done|]. split; [done|]. by exists name, size, data. }
  destruct (wr_form r) eqn:EF; [apply unchanged_dialogue; [done|by intros (c & (_ & [=] & _)%HU)]|].
  destruct (wr_file r) as [[[filename size] content]|] eqn:EW.
  2: { apply unchanged_dialogue; [done|]. by intros (c & (_ & _ & ? & ? & ? & [=] & _)%HU). }
  destruct (_ || _ || _) eqn:EB.
  - apply unchanged_dialogue; [done|]. intros (c & (HB & _ & name & sz & data & [= <- <- ->] & HN & HZ)%HU).
    apply orb_prop in EB as [[?%String.eqb_eq|?%String.eqb_eq]%orb_prop|?%Z.leb_le]; [done|done|lia].
  - apply orb_false_elim in EB as [[H1%String.eqb_neq H2%String.eqb_neq]%orb_false_elim H3%Z.leb_gt].
    destruct content as [bytes|e].
    + apply (performed "upload" a r (WriteFile (Clean (JoinPath [wr_base r; filename])) bytes)); [done|].
      split_and!; try done. by exists filename, size.
    + unfold dialogue. apply withSession_cases; [done|..].
      * intros e' s Hs. split; [done|]. left. split; [done|]. intros _. right. by exists e'.
      * intros root s Hs _. cbn. split; [done|]. left. split; [done|].
        by intros (c & (_ & _ & ? & ? & ? & [=] & _)%HU).
Qed.

(** C32: The pages of the files serve a user from the file system of his session, which has
    the mounts that are his, and do nothing else to the disk than what the request asks for.
    Browsing and downloading leave the disk alone; what they show is the directory or the file
    that the path of the request names there.  A dialog changes the disk only for a form with a
    base and a name that a user posted, and then with one call in that file system: it makes
    the folder at their cleaned path, with those above it that are missing, or writes the file
    there with the content uploaded; a path that leaves the session is refused and nothing is
    changed; when the call succeeds the answer is a redirect, and when it fails it is its
    error with status 400. *)
Theorem web_confined (dialog : string) (auth : option Auth) (r : WebRequest) (w : webWorld) :
  sessionsInv forUser (ww_sessions w) ->
  shows (Browse auth r) w (browsed auth r w)
  /\ shows (File auth r) w (fun a => forall content, a = inl content ->
       exists root rel, sessionOf auth w root /\ Rel PathFile (wr_path r) = inl rel
         /\ OpenRead root (Clean rel) (ww_disk w) = Ok content)
  /\ dialogue dialog auth r (BrowseDialog dialog auth r) w.
Proof using HL SL TLS RL.
  intros HI. split; [by apply Browse_shows|]. split; [by apply File_shows|]. unfold BrowseDialog.
  destruct (String.eqb_spec dialog "newfolder") as [->|H1]; [by apply newFolder_dialogue|].
  destruct (String.eqb_spec dialog "upload") as [->|H2]; [by apply upload_dialogue|].
  apply unchanged_dialogue; [done|]. by intros ([path|path data] & _ & _ & ? & _).
Qed.
End Web.

(** ** Links *)

(** The elements of a link. *)
Lemma linked name l :
  Forall (fun p => plainPart p = true) (name :: l) ->
  let link := "/" +:+ Join (name :: l) "/" in
  cleanParts true [] (Split link slash) = rev (name :: l) /\ parts link = name :: l
  /\ Clean link = link /\ Clean (link +:+ "/") = link.
Proof.
  intros HF link.
  assert (forall p, p ∈ name :: l -> plainPart p = true) as Hp by by apply Forall_forall.
  assert (Split link slash = "" :: name :: l) as HS.
  { unfold link. change ("/" +:+ Join (name :: l) "/") with ("" +:+ String slash (Join (name :: l) "/")). rewrite Split_app.
    rewrite Split_Join_slash; [done..|]. intros p Hin. apply Hp, plainPart_spec in Hin. tauto. }
  assert (wellKept true (rev (name :: l))) as HW.
  { exists (rev (name :: l)), 0%nat. cbn [repeat]. rewrite app_nil_r. split; [done|]. split; [|done].
    apply Forall_forall. intros p Hin. apply Hp. by rewrite list_elem_of_In, in_rev, <- list_elem_of_In. }
  assert (render true (rev (rev (name :: l))) = link) as HR by by rewrite rev_involutive.
  assert (cleanParts true [] (Split link slash) = rev (name :: l)) as HC.
  { rewrite HS. rewrite <- (rev_involutive (name :: l)) at 1. change (cleanParts true [] (rev (rev (name :: l))) = rev (name :: l)).
    by apply cleanParts_again. }
  split; [done|]. split.
  { unfold parts. rewrite HS. change (List.filter (fun p => negb (p =? "")%string) (name :: l) = name :: l). clear -Hp.
    induction (name :: l) as [|p k IH]; [done|]. cbn [List.filter].
    assert (plainPart p = true) as (Hne & _)%plainPart_spec by (apply Hp; by left).
    rewrite (proj2 (String.eqb_neq _ _) Hne). cbn [negb]. f_equal. apply IH. intros q Hq. apply Hp. by right. }
  assert (Clean link = link) as HCl.
  { rewrite <- HR. apply Clean_render; [done|]. by rewrite HR. }
  split; [done|]. rewrite <- HCl at 2. unfold Clean.
  change (link +:+ "/") with (link +:+ String slash ""). rewrite Split_app, cleanParts_app. done.
Qed.

Lemma link_path base name l :
  l <> [] -> Forall (fun p => plainPart p = true) (name :: l) ->
  rooted base = true -> cleanParts true [] (Split base slash) = [name] ->
  JoinPath [base; Join l "/"] = "/" +:+ Join (name :: l) "/".
Proof.
  intros Hn HF Hr Hb. apply Forall_cons in HF as HF'. destruct HF' as [_ HF'].
  assert (base <> "") as Hbn by by intros ->.
  assert (JoinPath [base; Join l "/"] = JoinPath (base :: l)) as ->.
  { cbn [JoinPath]. rewrite (proj2 (String.eqb_neq _ _) Hbn). destruct l; [done|]. by rewrite !Join_cons. }
  rewrite JoinPath_plain by done. by rewrite Hr, Hb.
Qed.

Lemma Rel_link base name l :
  l <> [] -> Forall (fun p => plainPart p = true) (name :: l) -> Clean base = "/" +:+ name -> parts ("/" +:+ name) = [name] ->
  forall targ, Clean targ = "/" +:+ Join (name :: l) "/" -> Rel base targ = inl (Join l "/").
Proof.
  intros Hn HF HC HP targ HT. destruct (linked name l HF) as (_ & HL & _). unfold Rel. rewrite HC, HT.
  destruct (String.eqb_spec ("/" +:+ Join (name :: l) "/") ("/" +:+ name)) as [E|E].
  { rewrite E, HP in HL. injection HL as HL. by rewrite <- HL in Hn. }
  change (rooted ("/" +:+ Join (name :: l) "/")) with true. cbn [negb].
  rewrite HP, HL. cbn [apart]. rewrite String.eqb_refl. by destruct l.
Qed.

(** The links of the pages lead where they say: the link to a directory is browsed at
    its path in the session, and that to a file opens the file at its path. *)
Theorem links_lead (name : string) (size : Z) (l : list string) :
  l <> [] -> Forall (fun p => plainPart p = true) l ->
  let path := Join l "/" in
  Rel PathBrowse (href (mkEntry name path true size)) = inl path
  /\ Rel PathFile (href (mkEntry name path false size)) = inl path /\ Clean path = path.
Proof.
  intros Hn HF path.
  assert (Forall (fun p => plainPart p = true) ("browse" :: l)) as HB by by constructor.
  assert (Forall (fun p => plainPart p = true) ("file" :: l)) as HFi by by constructor.
  split; [|split].
  - apply (Rel_link PathBrowse "browse"); [done..|]. unfold href. cbn [e_dir e_path]. unfold PathBrowseAt, path.
    rewrite (link_path PathBrowse "browse") by done. by apply linked.
  - apply (Rel_link PathFile "file"); [done..|]. unfold href. cbn [e_dir e_path]. unfold PathFileAt, path.
    rewrite (link_path PathFile "file") by done. by apply linked.
  - assert (wellKept false (rev l)) as HW.
    { exists (rev l), 0%nat. cbn [repeat]. rewrite app_nil_r. split; [done|]. split; [|done].
      rewrite Forall_forall in HF. apply Forall_forall. intros p Hin. apply HF.
      by rewrite list_elem_of_In, in_rev, <- list_elem_of_In. }
    assert (render false (rev (rev l)) = path) as HR by (rewrite rev_involutive; unfold render; by rewrite app_Empty).
    rewrite <- HR. apply Clean_render; [done|]. rewrite HR. apply Join_nonempty; [done|].
    intros p Hin. rewrite Forall_forall in HF. apply HF, plainPart_spec in Hin. tauto.
Qed.

(** ** service/files/webdav/webdav.go *)

(** What the WebDAV handler is built with for one request: a lock system of its own, in
    memory, so that the locks of a request are gone after it. *)
Record davHandler {H : HackPad} : Type := mkDavHandler { dav_Prefix : string; dav_Root : Root; dav_Locks : list string }.

Definition dav_Serve {TL : TemplateLang} {H : HackPad} {SC : SessionCache Root} (forUser : string -> Params)
    (prefix : string) (auth : option Auth) : Go Sessions (davHandler + Z) :=
  match auth with
  | Some auth => fun s =>
      match Sessions_Get forUser (AuthUsername auth) s with
      | (Ok root, s') => (Ok (inl (mkDavHandler _ prefix root [])), s')
      | (Err _, s') => (Ok (inr StatusInternalServerError), s')
      | (Panic p, s') => (Panic p, s')
      | (Diverge, s') => (Diverge, s')
      end
  | None => panic nilPointer
  end.

(** A request is served from the mounts of its user. *)
Lemma dav_Serve_spec {TL : TemplateLang} {H : HackPad} {SC : SessionCache Root} (forUser : string -> Params)
    {HL : HackPadLaws H} {SL : SessionCacheLaws SC} prefix auth s :
  sessionsInv forUser s ->
  match dav_Serve forUser prefix (Some auth) s with
  | (Ok (inl h), s') => sessionsInv forUser s' /\ mountedFor forUser (mounts s) (AuthUsername auth) (mountsOf (dav_Root h))
      /\ dav_Locks h = []
  | (_, s') => sessionsInv forUser s'
  end.
Proof.
  intros HI. unfold dav_Serve. pose proof (Sessions_Get_spec forUser (AuthUsername auth) s HI) as HS.
  destruct (Sessions_Get _ _ s) as [[root|e|p|] s']; destruct HS as (H1 & _ & H2); [|done..]. split; [done|]. split; [by apply H2|done].
Qed.

(** ** Examples *)

(** A disk of folders and files, by the mounts of the session and the name. *)
#[local] Instance samplePad : HackPad := {|
  FS := string; OsSub path := Ok path; MemFS := unit; NewMemFS := Ok tt;
  Root := list (string * string); NewRoot _ := Ok [];
  MkdirAll _ r := (Ok tt, r); AddMount d fs r := (Ok tt, r ++ [(d, fs)])
|}.
#[local] Instance samplePad_laws : HackPadLaws samplePad.
Proof. by refine {| mountsOf := (fun r => r) : @Root samplePad -> _ |}. Defined.

#[local] Instance noCache V : SessionCache V := {| Cache := unit; cacheDo _ fn c := (fn, c) |}.
#[local] Instance noCache_laws V : SessionCacheLaws (noCache V).
Proof. refine {| cached := fun _ _ _ => False |}. intros key fn c. split; [by left|by left]. Defined.

#[local] Existing Instance sampleTemplates.

(** Names are strings; a folder or a file is recorded under its root and name. *)
#[local] Instance sampleOps : RootOps samplePad := {|
  Disk := list (list (string * string) * string);
  ReadDir r name d := Ok [];
  StatSize r name d := Ok 0;
  OpenRead r name d := Ok "";
  MkdirAllIn r name perm d := if ValidPath name then (Ok tt, d ++ [(r, name)]) else (Err (PlainError "invalid"), d);
  WriteFullFile r name data perm d := if ValidPath name then (Ok tt, d ++ [(r, name)]) else (Err (PlainError "invalid"), d)
|}.

#[local] Instance sampleOps_laws : RootLaws sampleOps.
Proof.
  split; cbn; try done.
  - intros r name perm d ->. by eexists.
  - intros r name data perm d ->. by eexists.
  - intros r name perm d. by destruct (ValidPath name).
  - intros r name data perm d. by destruct (ValidPath name).
Qed.

Definition homeMount : mount := mkMount (mkTMPL (ListNode filterNodes)) "home" VFSOS.
Definition webStart : webWorld (SC := noCache _) (RO := sampleOps) := mkWebWorld (SC := noCache _) (mkSessions [homeMount] (tt : @Cache _ (noCache _))) [].
Definition alice : Auth := mkAuth None "alice" false.
Definition newFolder (base folder : string) : WebRequest := mkWebRequest MethodPost "/internal/browse/dialog/newfolder" (inl "/browse/") base folder None None.

Lemma webStart_inv : sessionsInv (SC := noCache _) named (ww_sessions webStart).
Proof. by intros user r []. Qed.

Lemma web_confined_witness :
  dialogue (SC := noCache _) named "newfolder" (Some alice) (newFolder "home/docs" "../../x")
    (BrowseDialog (SC := noCache _) named "newfolder" (Some alice) (newFolder "home/docs" "../../x")) webStart
  /\ wanted "newfolder" (newFolder "home/docs" "../../x") (MakeFolder "x")
  /\ ww_disk (snd (BrowseDialog (SC := noCache _) named "newfolder" (Some alice) (newFolder "home/docs" "../../x") webStart))
     = [([("home", "(cn=alice)")], "x")].
Proof.
  split; [|by repeat split].
  exact (proj2 (proj2 (web_confined (SC := noCache _) named "newfolder" (Some alice) (newFolder "home/docs" "../../x") webStart webStart_inv))).
Defined.

(** A path that leaves the session is refused. *)
Example outside_refused :
  ww_disk (snd (BrowseDialog (SC := noCache _) named "newfolder" (Some alice) (newFolder "." "../x") webStart)) = [].
Proof. by vm_compute. Qed.

Lemma links_lead_witness :
  Rel PathBrowse "/browse/home/docs/" = inl "home/docs" /\ Rel PathFile "/file/home/docs" = inl "home/docs".
Proof.
  destruct (links_lead "docs" 0 ["home"; "docs"]) as (H1 & H2 & _); [done|by repeat constructor|]. by split.
Defined.

(** The link of the directory above the first one leads to the root of the session. *)
Example above : map href (shownEntries "home" []) = ["/browse/"].
Proof. by vm_compute. Qed.
